(* ===== verification/_CoqProject ===== *)
-Q . S2P
Prelude.v
Json.v
Hash.v
GoStrings.v
Names.v
Expr.v
Flow.v
FlowValidate.v
FlowValid.v
FlowGraph.v
Event.v
Cmd.v
CmdCodec.v
Reduce.v
State.v
StateFacts.v
View.v
Wire.v
Cron.v
Decide.v
Writes.v
JoinPolicy.v
Numbering.v
DecideRun.v
Sim.v
Codec.v
DecideOps.v
Routing.v
DecideProps.v
Redelivery.v
FlowProps.v
NamesProps.v
CronProps.v
LogProps.v
Flight.v
Shape.v
ShapeEnter.v
ShapeOps.v
ShapeCmds.v
Executions.v
Server.v
Projection.v
IndexProps.v
Sending.v
EventLog.v
Loader.v
Dispatch.v
Engine.v
Deliveries.v
DispatchProps.v
Triggers.v
Worker.v
WorkerProps.v
Semaphore.v
Runner.v
Ready.v
Provision.v
Registry.v
Client.v
Options.v
Chronicle.v
ClientProps.v
Facade.v
LogFold.v
Reading.v
World.v
Safe.v
SafeLog.v
SafeDecide.v
SafeEngine.v
Fresh.v
StateCache.v
Cluster.v
Samples.v
SampleServer.v
Witnesses.v
ClusterWitnesses.v
DispatchWitnesses.v
WorkerWitnesses.v
ClientWitnesses.v
