(* ===== verification/Prelude.v ===== *)
(** * Packtrail: a verification library

    Packtrail is a durable workflow engine on NATS JetStream.  A {e flow} is a
    graph of nodes; an {e execution} of a flow is an append-only log of events,
    and its state is the fold of that log.  Clients, workers, timers, schedules
    and other executions send {e commands}; the engine loads the state of the
    execution, decides which events the command produces, and appends them with
    optimistic concurrency.  A dispatcher reads the log and turns the events into
    jobs for workers, timers, messages to other executions and an index.  All of
    these processes share nothing but the server.

    ** Parts and files

    Foundations.
    - [Prelude]: results, errors, deferred text, notations, tactics and general
      lemmas; the JSON data type.
    - [Json], [Hash], [GoStrings]: what the program uses of the Go standard
      library ([encoding/json], [float64], SHA-256, FNV-1a, hex, base32,
      [strings], [strconv]).
    - [Names] ([internal/names/names.go]), [Expr] ([internal/expr/expr.go]),
      [Wire] ([internal/wire/wire.go]), [Cron] ([internal/sched/cron.go]).

    Flows, events, commands.
    - [Flow] ([flow/flow.go], and of [flow/graph.go] what the fold reads),
      [FlowValidate] ([flow/validate.go], [flow/graph.go], [flow/errors.go]):
      definitions and the checks of [Validate]; [FlowValid], [FlowGraph]: what
      a definition without problems satisfies.
    - [Event] ([event/event.go]), [Codec] ([event/codec.go]), [Cmd] and
      [CmdCodec] ([internal/cmd/cmd.go]): payloads, envelopes, both directions
      of their encoding.

    The fold ([internal/fold/]).
    - [Reduce], [State], [View], [Decide]: the channel reducers, the state with
      [Apply] and [Fold], the context of an expression and the typed reads, the
      decider with every command handler, [Decide], [DecideFork], [Continue] and
      [Abort].
    - [StateFacts], [Numbering], [Sim], [DecideRun], [DecideOps]: the proof
      library.  [DecideRun] describes a decision as a run of a transition system
      of guarded emissions, [DecideOps] shows that every operation of the
      decider is such a run, and invariants follow by induction on runs.
    - [Writes], [JoinPolicy], [Routing], [DecideProps], [Redelivery],
      [LogProps], [FlowProps], [NamesProps], [CronProps]: theorems.
    - [Flight], [Shape], [ShapeEnter], [ShapeOps], [ShapeCmds], [Executions]:
      where an execution of a {e validated} flow is, operation by operation, and
      what follows for whole executions.

    Processes and the server.
    - [Server]: programs of calls.  [EventLog] ([internal/eventlog],
      [internal/blob], [internal/snapshot]), [Loader] ([internal/loader]),
      [Sending] (publishing of commands), [Projection] ([internal/projection]),
      [Engine] ([internal/engine/engine.go]), [Triggers]
      ([internal/engine/cron.go]), [Dispatch] ([internal/dispatch]), [Worker]
      ([worker/]), [Client] ([client.go], [client_more.go]), [StateCache]
      ([internal/statecache]): these parts as programs, function by function.
    - [Registry] ([internal/registry], [ParseJSON] of [flow/parse.go]),
      [Provision] ([internal/infra]), [Options] ([options.go], [LoadDir], the
      configuration and the loops of [packtrail.go]), [Facade] ([Init], archival
      and deletion on request, [RebuildIndex] of [packtrail.go], the store of
      [internal/store], trace ids of [internal/wire/trace.go]).
    - [Runner] ([internal/consume/consume.go]) and [Ready] ([internal/ready]):
      concurrency inside a process, as interleaved actions.
    - [Chronicle]: the abstract specification of the event log, a sequence of
      decisions each made on the state the ones before it lead to.  [LogFold],
      [Reading]: what folding and reading a chronicle gives.  [World]: the
      history of a server and what its answers may be.  [Safe], [SafeLog],
      [SafeDecide], [SafeEngine]: a program logic for programs that store only
      what continues a chronicle, and that the engine is one.
      [Cluster]: any number of engines against one server.  [Fresh]: reading
      from a server that is up to date.
    - [Deliveries], [DispatchProps], [IndexProps], [WorkerProps], [Semaphore],
      [ClientProps]: theorems.
    - [Samples], [SampleServer]: small flows and a server in memory, run by
      evaluation; [Witnesses], [ClusterWitnesses], [DispatchWitnesses],
      [WorkerWitnesses], [ClientWitnesses]: the theorems applied to them.

    ** How Go is modelled

    - The fold mutates a [State] that only the current command holds, so it is
      passed explicitly.  An operation of the decider is a function
      [decider -> result decider]; an error carries no decider, as the code
      discards the state after an error.
    - A Go error is the list of sentinels it wraps and a message ([Error]); a
      run-time panic is the error [Panic].  A node looked up by an id that the
      definition does not have is a [Panic] at the lookup; Go panics at the
      first use of the nil pointer, in the same operation.
    - Messages made by [fmt] are kept as the call that makes them ([Text]).
    - A [json.RawMessage] is the value it encodes ([option Json], [None] for nil
      or empty); white space and the spelling of strings are not kept.  The
      bytes of an event are the JSON tree they parse to ([Enc] in [Codec]),
      with the members under their tags: [encode_data] and the [decode_]
      functions go through it payload by payload, and [newPayload] is the table
      of types.  Bytes that hold a snapshot or an index entry are represented
      by what they decode to, with what encoding changes ([reload]: absent
      values in maps become null) or refuses (infinities) written out.  Strings
      are taken to be valid UTF-8.
    - [float64] is IEEE-754 binary64 ([SpecFloat]).  [time.Duration] is [Z]
      wrapped at 64 bits where the code multiplies or shifts ([Backoff]);
      instants are nanoseconds since the zero time.  Counters of events and
      steps are unbounded integers.
    - Iterations over a Go map, where the order could matter, follow the sorted
      keys the code uses; where the code ranges over the map itself the result
      does not depend on the order, or the order is said to be arbitrary.
    - A part that talks to the server is a finite tree of calls ([Prog]): every
      call has a type of answers, errors included, and the rest of the program
      is a function of the answer.  The caches of the process, the clock, the
      settlement of the message at hand and the handler of a worker are calls
      too.  [Runs p tr r] lists the calls a run made with the answers it got,
      whatever they are; programs of several processes interleave call by call.
      Metrics and log records are left out.
    - [Decide] returns [d.out, d.start(c)] for a start; Go leaves open whether
      [d.out] is read before or after the call.  The model returns the events
      emitted by the call, which is what the code needs and the compiler does.

    ** Parameters and hypotheses

    - The class [Evaluator] ([View]): the virtual machine of expr-lang, the
      JSON-schema validator, the JSON text of a definition and the text of a
      message.  The compilers of expressions and schemas, the decoder of a
      definition ([decode_flow]), the JSON text of a value ([json_text]) and the
      JSON maps of server configurations ([stream_map], [kv_map], [object_map])
      are arguments of what uses them.
    - The class [Registry] ([Chronicle]): what the loader is given for a name
      and hash is a valid flow of that name and hash.  The operations of the
      registry establish it ([served] in [Facade]) from what [encoding/json]
      promises of definitions ([FlowJson]).
    - The class [NatsServer] ([Cluster]): the answers of the server are
      explained by its history; replicas may lag, acknowledgements may be lost,
      but a publish with an expected sequence is stored only after it.
      [SampleServer] is an instance that runs.
    - A decision whose premises a lagging replica falsified, which the code can
      store (see the findings on [engine.go]), is recorded as {e irregular}, and
      so is one that opens an id again after its log was purged, which the code
      allows after a deletion.  [logs_are_chronicles], [logs_fold],
      [cache_coherent] and [stores_agree] are about histories without any, for
      any execution ([tainted]): one irregular decision and they say nothing of
      that history from then on, which bounds what they promise to a cluster
      whose ids are not used again.

    ** Recursion and fuel

    [enter] calls itself through [advance], the rules of a choice and the
    branches of joins; every round adds a step, and a limit on the steps ends it.
    Its fuel is the number of steps left plus one ([steps_left]); [mapProgress]
    gets the number of items plus one.  [decide_terminates] shows that neither
    runs out, for any definition, valid or not.  Readers of a log ask for batches
    until they have what they want, [cf_Rounds] bounds them: [read_range] and
    [load_latest] show that a bound over the number of messages is enough on a
    server that is up to date, and the safety theorems hold for every bound.  The
    loops of workers and clients that wait for somebody else ([rounds]) may run
    for ever; where they are cut off the program says so ([CutOff]) and the
    theorems treat that as one more outcome.

    ** What the theorems show

    - The log is the truth: [decide_replay], [life_is_its_log]; for engines that
      share a server, lag, crash and retry: [logs_are_chronicles], [logs_fold],
      [cache_coherent], [stores_agree], [decisions_survive_encoding],
      [read_range], [load_latest].
    - Executions of validated flows: [validate_sound], [decide_never_panics],
      [in_one_place], [never_stranded], [retry_wakes_up].
    - Decisions: [decide_terminates], [redelivered_void], [budget_kept],
      [terminal_absorbing], [numbers_never_reused],
      [join_settles_when_decided], [command_roundtrip].
    - Messages are settled once and for a reason: [settles_once],
      [acked_means_done] (commands), [acked_event_accounted],
      [decision_dispatched], [jobs_only_wanted] (the dispatcher),
      [job_settled_once], [job_always_answered] (workers), [cron_starts_once]
      (schedules).
    - Shared resources: [slots_bounded] (the semaphore of a concurrency key),
      [runner_bounded] (handlers of a consumer), [versions_immutable] (the
      registry), [provision_keeps] (what is deployed),
      [index_files_execution], [search_finds_matching] (the index).
      [slots_bounded] is about buckets whose values expire and workers whose
      clocks differ; a job delivered twice shares one slot, which the end of
      either delivery gives back (see the findings).  [provision_keeps] ties the
      count to the first look-up of the command stream in a run.
      [index_files_execution] follows the index through histories of
      operations, repeated and cut off.
    - What users are told: [start_tells], [wait_ends], [ends_reported],
      [cron_accepts] (the strings accepted are those of the grammar
      [Expression]).
    - A limit of the code: [long_ids_refused].
    Beside these the files hold theorems on readiness ([ready_exact]), the
    comparison of configurations ([covers_exact]), the loops of an engine
    ([engine_loops]), keys of the store ([store_keys_apart]), removal on request
    ([removed_only_finished]), channel writes ([validated_writes_apply]), retry
    delays ([backoff_bounds], [backoff_wraps]), routing and names.

    ** Not modelled

    The text of YAML and JSON (libraries); the timeout of an expression; the
    creation of consumers with its retries and the heartbeats of a handler; the
    handles of buckets and the sweeps of [erase.go], which are single calls here;
    progress reports and subscriptions; the goroutines of [Engine.Run], metrics
    and logging; the command-line tools and the web UI, which are front ends of
    the client; test support and examples. *)

From stdpp Require Export base gmap strings list sorting pretty.
From Stdlib Require Export ZArith Lia.
From Stdlib Require Export Floats.SpecFloat.

#[export] Set Warnings "-register-all,-clear-no-such-hyp".
Global Open Scope string_scope.
Global Open Scope list_scope.
Global Open Scope Z_scope.

(** ** JSON values

    A number keeps the shape it was written in, because Go decodes integers from
    integer literals only: [NInt] is a literal without fraction or exponent,
    [NDec] any other literal (sign, digits, power of ten), [NFloat] the text
    [json.Marshal] prints for a [float64] (it parses back to that number). *)
Inductive Number :=
| NInt (z : Z)
| NDec (neg : bool) (m e : Z)
| NFloat (f : spec_float).

Inductive Json :=
| JNull
| JBool (b : bool)
| JNum (n : Number)
| JStr (s : string)
| JArr (l : list Json)
| JObj (kvs : list (string * Json)).

(** ** Deferred text

    The program builds its messages with [fmt.Sprintf] and [fmt.Errorf].  No
    decision ever inspects the rendered bytes, so a message is kept as the call
    that produces it: the format string and its arguments. *)
Inductive Text :=
| TStr (s : string)
| Sprintf (fmt : string) (args : list Arg)
with Arg :=
| AStr (s : string)
| AInt (z : Z)
| AFloat (f : spec_float)
| AStrs (l : list string)
| AJson (j : Json)
| AText (t : Text).

Coercion TStr : string >-> Text.
Coercion AStr : string >-> Arg.

(** ** Errors and results

    A Go [error] is a set of sentinels it wraps (what [errors.Is] answers) and
    a message.  [Panic] is a run-time panic: a nil dereference or an index out
    of range.  [OutOfFuel] is an artefact of bounded recursion; the theorems
    about it show that it is never produced. *)
Inductive Sentinel :=
| ErrApply | ErrNotFound | ErrInvalid | ErrRejected | ErrConflict | ErrReducer
| ErrUnknownFlow | ErrObjectNotFound | ErrAppendConflict | ErrNotArchived
| ErrUndecodable  (* event.ErrUnknown, json.SyntaxError or json.UnmarshalTypeError *)
| ErrBadRequest   (* a JetStream API error with code 400 *)
| ErrInvalidFilter
(* the errors of the public API ([errors.go]) *)
| ErrInvalidArgument | ErrMissing (* packtrail.ErrNotFound *) | ErrArchived | ErrNoFlow (* packtrail.ErrUnknownFlow *)
| ErrExecutionConflict | ErrExecutionExists | ErrTerminal | ErrNotProvisioned.

#[export] Instance Sentinel_eq_dec : EqDecision Sentinel.
Proof. solve_decision. Defined.

Inductive error :=
| Error (sentinels : list Sentinel) (msg : Text)
| Panic (what : Text)
| OutOfFuel.

(** [errors.Is e k]. *)
Definition errors_is (e : error) (k : Sentinel) : bool :=
  match e with Error ks _ => bool_decide (k ∈ ks) | _ => false end.

(** [err.Error()]. *)
Definition error_text (e : error) : Text :=
  match e with Error _ msg => msg | Panic what => what | OutOfFuel => TStr "" end.

(** [fmt.Errorf("... %w", k, err)]: wrap [err] under one more sentinel. *)
Definition wrap (k : Sentinel) (e : error) : error :=
  match e with
  | Error ks msg => Error (k :: ks) (Sprintf "%w: %w" [AText msg])
  | other => other
  end.

Inductive result (A : Type) :=
| Ok (a : A)
| Err (e : error).
Arguments Ok {A} a.
Arguments Err {A} e.

Definition res_bind {A B} (m : result A) (k : A -> result B) : result B :=
  match m with Ok a => k a | Err e => Err e end.

Declare Scope res_scope.
Delimit Scope res_scope with res.
Global Open Scope res_scope.
Notation "'let?' x ':=' m 'in' k" := (res_bind m (fun x => k))
  (at level 10, x pattern, m at level 100, k at level 200) : res_scope.

Lemma res_bind_ok {A B} (m : result A) (k : A -> result B) b :
  res_bind m k = Ok b -> exists a, m = Ok a /\ k a = Ok b.
Proof. destruct m; simpl; intros; [eauto | discriminate]. Qed.

Lemma res_bind_err {A B} (m : result A) (k : A -> result B) e :
  res_bind m k = Err e -> m = Err e \/ exists a, m = Ok a /\ k a = Err e.
Proof. destruct m; simpl; intros; [eauto | left; congruence]. Qed.

(** Loops [for _, x := range xs { if err := f(x); err != nil { return err } }]. *)
Fixpoint res_fold {A S} (f : S -> A -> result S) (s : S) (xs : list A) : result S :=
  match xs with
  | [] => Ok s
  | x :: xs' => res_bind (f s x) (fun s' => res_fold f s' xs')
  end.

Lemma res_fold_app {A S} (f : S -> A -> result S) s xs ys :
  res_fold f s (xs ++ ys) = res_bind (res_fold f s xs) (fun s' => res_fold f s' ys).
Proof.
  revert s; induction xs as [|x xs IH]; intros s; simpl; [done|].
  destruct (f s x); simpl; auto.
Qed.

(** An invariant of the body is an invariant of the loop. *)
Lemma res_fold_inv {A S} (P : S -> Prop) (f : S -> A -> result S) s xs s' :
  (forall s x s', x ∈ xs -> P s -> f s x = Ok s' -> P s') ->
  P s -> res_fold f s xs = Ok s' -> P s'.
Proof.
  revert s; induction xs as [|x xs IH]; intros s Hf HP; simpl.
  - by intros [= <-].
  - intros (s1 & H1 & H2)%res_bind_ok.
    apply (IH s1); [|by eapply (Hf s x); [left| |]|done].
    intros s2 y s3 Hy. apply Hf. by right.
Qed.

(** ** Strings

    Go compares strings byte by byte; [String.leb] is that order. *)
Definition str_le (a b : string) : Prop := String.leb a b = true.

#[export] Instance str_le_dec : RelDecision str_le.
Proof. intros a b. unfold str_le. apply _. Defined.

Lemma str_compare_refl a : String.compare a a = Eq.
Proof.
  induction a as [|x a IH]; simpl; [done|].
  unfold Ascii.compare. by rewrite N.compare_refl.
Qed.

#[export] Instance str_le_total : Total str_le.
Proof.
  intros a b. unfold str_le, String.leb.
  rewrite (String.compare_antisym a b). destruct (String.compare b a); simpl; auto.
Qed.

Lemma str_compare_trans a b c r :
  String.compare a b = r -> String.compare b c = r -> String.compare a c = r.
Proof.
  revert b c; induction a as [|x a IH]; intros [|y b] [|z c]; simpl; try congruence.
  unfold Ascii.compare.
  destruct (N.compare_spec (Ascii.N_of_ascii x) (Ascii.N_of_ascii y)),
    (N.compare_spec (Ascii.N_of_ascii y) (Ascii.N_of_ascii z)),
    (N.compare_spec (Ascii.N_of_ascii x) (Ascii.N_of_ascii z));
    try congruence; try lia; eauto.
Qed.

#[export] Instance str_le_trans : Transitive str_le.
Proof.
  intros a b c. unfold str_le, String.leb.
  destruct (String.compare a b) eqn:E1, (String.compare b c) eqn:E2; try done; intros _ _.
  1, 2: apply String.compare_eq_iff in E1 as ->; by rewrite E2.
  - apply String.compare_eq_iff in E2 as <-. by rewrite E1.
  - by rewrite (str_compare_trans _ _ _ _ E1 E2).
Qed.

(** [slices.Sorted(maps.Keys(m))]. *)
Definition sorted_keys {A} (m : gmap string A) : list string :=
  merge_sort str_le (elements (dom m)).

Lemma sorted_keys_perm {A} (m : gmap string A) : sorted_keys m ≡ₚ elements (dom m).
Proof. apply merge_sort_Permutation. Qed.

Lemma elem_of_sorted_keys {A} (m : gmap string A) k : k ∈ sorted_keys m <-> is_Some (m !! k).
Proof. by rewrite sorted_keys_perm, elem_of_elements, elem_of_dom. Qed.

Lemma sorted_keys_NoDup {A} (m : gmap string A) : NoDup (sorted_keys m).
Proof. rewrite sorted_keys_perm. apply NoDup_elements. Qed.

Lemma sorted_keys_Sorted {A} (m : gmap string A) : StronglySorted str_le (sorted_keys m).
Proof. apply (StronglySorted_merge_sort _). Qed.

(** [strings.Join(l, sep)]. *)
Definition strings_join (sep : string) (l : list string) : string := String.concat sep l.

(** [strconv.Itoa]. *)
Definition Itoa (n : Z) : string := pretty n.

#[export] Instance Itoa_inj : Inj (=) (=) Itoa.
Proof. apply _. Qed.

(** ** Machine integers

    [int64 z] is the two's-complement value of the low 64 bits of [z]; [uint32]
    the low 32 bits. *)
Definition int64 (z : Z) : Z := (z + 2 ^ 63) mod 2 ^ 64 - 2 ^ 63.
Definition uint32 (z : Z) : Z := z mod 2 ^ 32.
Definition in_int64 (z : Z) : Prop := - 2 ^ 63 <= z < 2 ^ 63.

Lemma int64_id z : in_int64 z -> int64 z = z.
Proof. unfold in_int64, int64. intros. rewrite Z.mod_small; lia. Qed.

Lemma int64_range z : in_int64 (int64 z).
Proof. unfold in_int64, int64. pose proof (Z.mod_pos_bound (z + 2 ^ 63) (2 ^ 64)). lia. Qed.

(** ** Slices

    [a[i] = v] and [a[i]] panic out of range. *)
Definition slice_set {A} (l : list A) (i : Z) (v : A) : result (list A) :=
  if decide (0 <= i < Z.of_nat (length l)) then Ok (<[Z.to_nat i := v]> l)
  else Err (Panic "index out of range").

Definition slice_get {A} (l : list A) (i : Z) : result A :=
  if decide (0 <= i) then
    match l !! Z.to_nat i with Some v => Ok v | None => Err (Panic "index out of range") end
  else Err (Panic "index out of range").

Definition len {A} (l : list A) : Z := Z.of_nat (length l).

Lemma slice_set_length {A} (l : list A) i v l' :
  slice_set l i v = Ok l' -> length l' = length l.
Proof. unfold slice_set. case_decide; [|done]. intros [= <-]. apply length_insert. Qed.

(** Dereferencing a pointer. *)
Definition deref {A} (o : option A) : result A :=
  match o with Some a => Ok a | None => Err (Panic "nil pointer dereference") end.

(** ** Automation *)

(** Split every successful [res_bind] of the context. *)
Ltac res_inv :=
  repeat match goal with
  | H : res_bind _ _ = Ok _ |- _ => apply res_bind_ok in H as (? & ? & ?); simpl in *
  | H : Ok _ = Ok _ |- _ => injection H as H
  | H : Err _ = Ok _ |- _ => discriminate H
  | H : Ok _ = Err _ |- _ => discriminate H
  end.

(** [assign eta r p v] builds the record [r] with field [p] replaced by [v];
    [eta r] is [r] rebuilt from its projections. *)
Ltac assign eta r p v :=
  let e := eval cbv beta delta [eta] in (eta r) in
  let e := eval pattern (p r) in e in
  lazymatch e with
  | ?g _ => let t := eval cbv beta in (g v) in exact t
  end.

(** [x |> f]: assignments in the order they are written. *)
Notation "x |> f" := (f x) (at level 61, left associativity, only parsing).
