(* ===== verification/Json.v ===== *)
(** * JSON values and binary64 numbers

    What the program uses of [encoding/json] and of [float64].  A
    [json.RawMessage] is modelled by the value it encodes: [None] is the nil or
    empty message, [Some j] the text of [j]. *)

From S2P Require Import Prelude.

(** ** float64: IEEE-754 binary64, round to nearest even *)

Abbreviation float64 := spec_float.

Definition f_zero : float64 := S754_zero false.
Definition f_add (a b : float64) : float64 := SFadd 53 1024 a b.

(** [a > b]; false when either side is NaN. *)
Definition f_gt (a b : float64) : bool := SFltb b a.
(** [a <= 0]. *)
Definition f_nonpos (a : float64) : bool := SFleb a f_zero.

Definition f_finite (f : float64) : bool :=
  match f with S754_infinity _ | S754_nan => false | _ => true end.

(** The binary64 nearest to the decimal [(-1)^neg * m * 10^e] ([strconv.ParseFloat]). *)
Definition dec_float (neg : bool) (m e : Z) : float64 :=
  match m with
  | Zpos p =>
      if decide (0 <= e) then binary_round 53 1024 neg (p * Z.to_pos (10 ^ e)) 0
      else let '(q, e', l) := SFdiv_core_binary 53 1024 m 0 (10 ^ (- e)) 0 in
           binary_round_aux 53 1024 neg q e' l
  | _ => S754_zero neg
  end.

(** The integer a float prints as, if it prints without fraction or exponent. *)
Definition float_int (f : float64) : option Z :=
  match f with
  | S754_zero _ => Some 0
  | S754_finite s m e =>
      let z := if decide (0 <= e) then Some (Zpos m * 2 ^ e)
               else if decide (Zpos m mod 2 ^ (- e) = 0) then Some (Zpos m / 2 ^ (- e)) else None in
      match z with
      | Some z => if decide (z < 10 ^ 21) then Some (if s then - z else z) else None
      | None => None
      end
  | _ => None
  end.

(** ** JSON *)

Abbreviation RawMessage := (option Json).

Definition num_float (n : Number) : float64 :=
  match n with
  | NInt z => dec_float (z <? 0) (Z.abs z) 0
  | NDec neg m e => dec_float neg m e
  | NFloat f => f
  end.

(** [json.Unmarshal(b, &f)] for a [float64]: null leaves it zero, a number out
    of range is an error. *)
Definition unmarshal_float (j : Json) : option float64 :=
  match j with
  | JNull => Some f_zero
  | JNum n => let f := num_float n in if f_finite f then Some f else None
  | _ => None
  end.

(** ... for an [int]: an integer literal in range. *)
Definition unmarshal_int (j : Json) : option Z :=
  let ranged z := if decide (- 2 ^ 63 <= z < 2 ^ 63) then Some z else None in
  match j with
  | JNull => Some 0
  | JNum (NInt z) => ranged z
  | JNum (NFloat f) => match float_int f with Some z => ranged z | None => None end
  | _ => None
  end.

(** ... for a [string] and a [bool]. *)
Definition unmarshal_string (j : Json) : option string :=
  match j with JNull => Some "" | JStr s => Some s | _ => None end.
Definition unmarshal_bool (j : Json) : option bool :=
  match j with JNull => Some false | JBool b => Some b | _ => None end.

(** ... for a [uint64]. *)
Definition unmarshal_uint (j : Json) : option Z :=
  let ranged z := if decide (0 <= z < 2 ^ 64) then Some z else None in
  match j with
  | JNull => Some 0
  | JNum (NInt z) => ranged z
  | JNum (NFloat f) => match float_int f with Some z => ranged z | None => None end
  | _ => None
  end.

(** ... for a [[]json.RawMessage]: null gives the nil slice. *)
Definition unmarshal_slice (j : Json) : option (list Json) :=
  match j with JNull => Some [] | JArr l => Some l | _ => None end.

(** ... for a [map[string]json.RawMessage]: null gives the nil map ([None]
    inside), a repeated member keeps its last value. *)
Definition unmarshal_map (j : Json) : option (option (gmap string Json)) :=
  match j with
  | JNull => Some None
  | JObj kvs => Some (Some (list_to_map (reverse kvs)))
  | _ => None
  end.

(** [json.Marshal] of a raw message, of a slice and of a map of raw messages: a
    nil message encodes as null, map members are sorted by key. *)
Definition marshal_raw (r : RawMessage) : Json := default JNull r.
Definition marshal_slice (l : list RawMessage) : Json := JArr (marshal_raw <$> l).
Definition marshal_map (m : gmap string RawMessage) : Json :=
  JObj ((fun k => (k, marshal_raw (default None (m !! k)))) <$> sorted_keys m).

(** [json.Marshal] of a decoded value ([any]): it fails on a NaN or an infinity
    anywhere in the value. *)
Fixpoint marshal_any (j : Json) : option Json :=
  match j with
  | JNum (NFloat f) => if f_finite f then Some j else None
  | JArr l =>
      (fix go (l : list Json) : option (list Json) :=
         match l with
         | [] => Some []
         | x :: l' => match marshal_any x, go l' with Some y, Some ys => Some (y :: ys) | _, _ => None end
         end) l ≫= fun l' => Some (JArr l')
  | JObj kvs =>
      (fix go (l : list (string * Json)) : option (list (string * Json)) :=
         match l with
         | [] => Some []
         | (k, x) :: l' =>
             match marshal_any x, go l' with Some y, Some ys => Some ((k, y) :: ys) | _, _ => None end
         end) kvs ≫= fun kvs' => Some (JObj kvs')
  | _ => Some j
  end.

(** [isNull] and [isObject] of the fold: a nil or empty message is null. *)
Definition isNull (b : RawMessage) : bool :=
  match b with None | Some JNull => true | _ => false end.
Definition isObject (b : RawMessage) : bool :=
  match b with Some (JObj _) => true | _ => false end.

(** ** Facts *)

Lemma f_gt_irrefl a : f_gt a a = false.
Proof.
  destruct a as [|[]| |[] m e]; try done; unfold f_gt, SFltb, SFcompare.
  all: by rewrite Z.compare_refl, ?Pos.compare_cont_refl.
Qed.

(** Adding the zero of an absent counter does not change a comparison. *)
Lemma f_gt_add_zero a b : f_gt (f_add a f_zero) b = f_gt a b.
Proof. by destruct a as [[]|[]| |]. Qed.

Lemma isObject_not_null r : isObject r = true -> isNull r = false.
Proof. by destruct r as [[]|]. Qed.

(** The entries of a map written in the order of the keys, read back. *)
Lemma sorted_entries_lookup {A B} (f : A -> B) (d : A) (m : gmap string A) k :
  (list_to_map (reverse ((fun k => (k, f (default d (m !! k)))) <$> sorted_keys m)) : gmap string B) !! k = f <$> m !! k.
Proof.
  set (l := reverse _).
  assert (Hnd : NoDup l.*1).
  { unfold l. rewrite fmap_reverse, reverse_Permutation, <- list_fmap_compose.
    apply (NoDup_fmap_2 _), sorted_keys_NoDup. }
  destruct (m !! k) as [r|] eqn:E; simpl.
  - apply elem_of_list_to_map_1; [done|]. unfold l.
    rewrite elem_of_reverse, list_elem_of_fmap. exists k. rewrite E.
    split; [done|]. apply elem_of_sorted_keys. eauto.
  - apply not_elem_of_list_to_map_1. unfold l.
    rewrite fmap_reverse, elem_of_reverse, list_elem_of_fmap.
    intros ([k' v] & -> & Hin). apply list_elem_of_fmap in Hin as (k'' & [= -> ->] & Hk).
    apply elem_of_sorted_keys in Hk as [? Hk]. simpl in *. congruence.
Qed.

Lemma marshal_map_lookup (m : gmap string RawMessage) k :
  (list_to_map (reverse ((fun k => (k, marshal_raw (default None (m !! k)))) <$> sorted_keys m))
    : gmap string Json) !! k = marshal_raw <$> m !! k.
Proof. apply (sorted_entries_lookup marshal_raw). Qed.

(** Encoding a map and decoding it back gives the same map, with nil messages
    turned into the literal null. *)
Lemma unmarshal_marshal_map (m : gmap string RawMessage) :
  unmarshal_map (marshal_map m) = Some (Some (marshal_raw <$> m)).
Proof.
  unfold marshal_map; simpl. do 2 f_equal. apply map_eq. intros k.
  by rewrite marshal_map_lookup, lookup_fmap.
Qed.

Example dec_float_half : dec_float false 5 (-1) = S754_finite false 4503599627370496 (-53).
Proof. vm_compute. reflexivity. Qed.

(** A number that is not at most zero is not less than zero. *)
Lemma f_gt_zero a : f_nonpos a = false -> f_gt f_zero a = false.
Proof. by destruct a as [|[]| |[]]. Qed.
