(* ===== verification/Hash.v ===== *)
(** * Digests and text encodings of the standard library

    SHA-256 ([crypto/sha256]), FNV-1a ([hash/fnv]), [encoding/hex] and
    [encoding/base32], on lists of bytes kept as integers in [0, 256).  The
    program derives execution ids and flow hashes from them. *)

From S2P Require Import Prelude.

Definition bytes_of (s : string) : list Z :=
  (fun a => Z.of_N (Ascii.N_of_ascii a)) <$> String.list_ascii_of_string s.

(** ** FNV-1a, 32 bits *)

Definition fnv32a (bs : list Z) : Z :=
  foldl (fun h b => uint32 (Z.lxor h b * 16777619)) 2166136261 bs.

(** ** SHA-256 *)

Definition rotr (x n : Z) : Z := Z.lor (Z.shiftr x n) (uint32 (Z.shiftl x (32 - n))).
Definition not32 (x : Z) : Z := Z.lxor x (2 ^ 32 - 1).

(** The constants of the digest are the first 32 bits of the fractional parts of
    the roots of the first primes: cube roots for the rounds, square roots for
    the initial state. *)
Definition primes (n : nat) : list Z :=
  filter (fun p => forallb (fun q => negb (p mod q =? 0)) (seqZ 2 (p - 2)) = true) (seqZ 2 (Z.of_nat n)).

(** The bits of the cube root of [x], from bit [k] down. *)
Fixpoint cube_root (k : nat) (r x : Z) : Z :=
  match k with
  | O => r
  | S k' => let r' := r + 2 ^ Z.of_nat k' in cube_root k' (if r' * r' * r' <=? x then r' else r) x
  end.

Definition sha_K : list Z :=
  Eval vm_compute in (fun p => cube_root 36 0 (p * 2 ^ 96) mod 2 ^ 32) <$> primes 310.
Definition sha_H : list Z := Eval vm_compute in (fun p => Z.sqrt (p * 2 ^ 64) mod 2 ^ 32) <$> primes 18.

(** The big-endian bytes of a [k]-byte word and back. *)
Fixpoint be_bytes (k : nat) (x : Z) : list Z :=
  match k with O => [] | S k' => be_bytes k' (x / 256) ++ [x mod 256] end.
Definition be_word (bs : list Z) : Z := foldl (fun acc b => acc * 256 + b) 0 bs.

Definition sha_pad (msg : list Z) : list Z :=
  let l := length msg in
  let zeros := Z.to_nat ((55 - Z.of_nat l) mod 64) in
  msg ++ [0x80] ++ replicate zeros 0 ++ be_bytes 8 (8 * Z.of_nat l).

Fixpoint chunks (fuel n : nat) (l : list Z) : list (list Z) :=
  match fuel, l with
  | _, [] | O, _ => []
  | S f, _ => take n l :: chunks f n (drop n l)
  end.

Definition nthZ (l : list Z) (i : nat) : Z := nth i l 0.

(** One more word of the message schedule; [w] holds the latest word first. *)
Definition sha_next (w : list Z) : Z :=
  let s0 := let x := nthZ w 14 in Z.lxor (Z.lxor (rotr x 7) (rotr x 18)) (Z.shiftr x 3) in
  let s1 := let x := nthZ w 1 in Z.lxor (Z.lxor (rotr x 17) (rotr x 19)) (Z.shiftr x 10) in
  uint32 (nthZ w 15 + s0 + nthZ w 6 + s1).

Fixpoint sha_extend (k : nat) (w : list Z) : list Z :=
  match k with O => w | S k' => sha_extend k' (sha_next w :: w) end.

Definition sha_schedule (block : list Z) : list Z :=
  reverse (sha_extend 48 (reverse (be_word <$> chunks 16 4 block))).

Definition sha_round (v : list Z) (kw : Z * Z) : list Z :=
  match v with
  | [a; b; c; d; e; f; g; h] =>
      let S1 := Z.lxor (Z.lxor (rotr e 6) (rotr e 11)) (rotr e 25) in
      let ch := Z.lxor (Z.land e f) (Z.land (not32 e) g) in
      let t1 := h + S1 + ch + fst kw + snd kw in
      let S0 := Z.lxor (Z.lxor (rotr a 2) (rotr a 13)) (rotr a 22) in
      let maj := Z.lxor (Z.lxor (Z.land a b) (Z.land a c)) (Z.land b c) in
      [uint32 (t1 + S0 + maj); a; b; c; uint32 (d + t1); e; f; g]
  | _ => v
  end.

Definition sha_block (hs block : list Z) : list Z :=
  zip_with (fun a b => uint32 (a + b)) hs
    (foldl sha_round hs (zip sha_K (sha_schedule block))).

(** [sha256.Sum256]. *)
Definition sha256 (msg : list Z) : list Z :=
  let p := sha_pad msg in
  concat (be_bytes 4 <$> foldl sha_block sha_H (chunks (length p) 64 p)).

(** ** Text encodings *)

Definition char_at (alphabet : string) (i : Z) : string :=
  match String.get (Z.to_nat i) alphabet with
  | Some a => String a EmptyString
  | None => EmptyString
  end.

(** [hex.EncodeToString]. *)
Definition hex (bs : list Z) : string :=
  foldr (fun b acc => char_at "0123456789abcdef" (b / 16) +:+ char_at "0123456789abcdef" (b mod 16) +:+ acc)
    "" bs.

(** Unpadded base32, lower-cased: 5-bit groups of the bit string, the last one
    completed with zero bits. *)
Definition base32_lower (bs : list Z) : string :=
  let n := Z.of_nat (8 * length bs) in
  let groups := (n + 4) / 5 in
  let x := Z.shiftl (be_word bs) (groups * 5 - n) in
  foldr (fun i acc =>
    char_at "abcdefghijklmnopqrstuvwxyz234567" (Z.land (Z.shiftr x (5 * (groups - 1 - Z.of_nat i))) 31) +:+ acc)
    "" (seq 0 (Z.to_nat groups)).

Example sha256_abc :
  hex (sha256 (bytes_of "abc")) = "ba7816bf8f01cfea414140de5dae2223b00361a396177a9cb410ff61f20015ad".
Proof. vm_compute. reflexivity. Qed.

Example sha256_empty :
  hex (sha256 []) = "e3b0c44298fc1c149afbf4c8996fb92427ae41e4649b934ca495991b7852b855".
Proof. vm_compute. reflexivity. Qed.

Example fnv32a_a : fnv32a (bytes_of "a") = 0xe40c292c.
Proof. vm_compute. reflexivity. Qed.

Example base32_f : base32_lower (bytes_of "foobar") = "mzxw6ytboi".
Proof. vm_compute. reflexivity. Qed.

(** ** Ranges and lengths *)

Lemma uint32_range x : 0 <= uint32 x < 2 ^ 32.
Proof. apply Z.mod_pos_bound. lia. Qed.

Lemma fnv32a_range bs : 0 <= fnv32a bs < 2 ^ 32.
Proof.
  unfold fnv32a. assert (H : 0 <= 2166136261 < 2 ^ 32) by lia. revert H.
  generalize 2166136261. induction bs as [|b bs IH]; simpl; [done|].
  intros z _. apply IH, uint32_range.
Qed.

Lemma be_bytes_length k x : length (be_bytes k x) = k.
Proof. revert x; induction k; intros; simpl; [done|]. rewrite length_app, IHk. simpl. lia. Qed.

Lemma be_bytes_range k x : Forall (fun b => 0 <= b < 256) (be_bytes k x).
Proof.
  revert x; induction k; intros; simpl; [done|].
  apply Forall_app. split; [done|]. constructor; [|done]. apply Z.mod_pos_bound. lia.
Qed.

Lemma sha_round_length v kw : length (sha_round v kw) = length v.
Proof. by destruct v as [|? [|? [|? [|? [|? [|? [|? [|? [|? ?]]]]]]]]]. Qed.

Lemma sha_rounds_length l v : length (foldl sha_round v l) = length v.
Proof. revert v; induction l; intros; simpl; [done|]. by rewrite IHl, sha_round_length. Qed.

Lemma sha_block_length hs block : length (sha_block hs block) = length hs.
Proof. unfold sha_block. rewrite length_zip_with, sha_rounds_length. lia. Qed.

Lemma sha_blocks_length l hs : length (foldl sha_block hs l) = length hs.
Proof. revert hs; induction l; intros; simpl; [done|]. by rewrite IHl, sha_block_length. Qed.

(** A digest is 32 bytes. *)
Lemma sha256_length msg : length (sha256 msg) = 32%nat.
Proof.
  unfold sha256. set (l := chunks _ _ _). generalize (sha_blocks_length l sha_H).
  generalize (foldl sha_block sha_H l). intros hs Hlen.
  assert (length (concat (be_bytes 4 <$> hs)) = (4 * length hs)%nat) as ->.
  { clear Hlen. induction hs; [done|]. rewrite fmap_cons, concat_cons, length_app, IHhs, be_bytes_length.
    simpl. lia. }
  rewrite Hlen. reflexivity.
Qed.

Lemma sha256_range msg : Forall (fun b => 0 <= b < 256) (sha256 msg).
Proof.
  unfold sha256. apply Forall_concat, Forall_fmap, Forall_true. intros x.
  apply (be_bytes_range 4).
Qed.
