(* ===== verification/GoStrings.v ===== *)
(** * String functions of the Go standard library

    [strings.TrimSpace], [HasPrefix], [Split], [Fields], [ToLower],
    [strconv.Atoi]: what the flow definitions, the command decoder and the cron
    validator use.  Strings are byte strings holding UTF-8. *)

From S2P Require Import Prelude.

Definition ascii_of (n : N) : Ascii.ascii := Ascii.ascii_of_N n.
Definition str_of_bytes (l : list N) : string := String.string_of_list_ascii (ascii_of <$> l).

(** [strings.HasPrefix], [strings.CutPrefix]. *)
Fixpoint CutPrefix (s prefix : string) : option string :=
  match prefix, s with
  | EmptyString, _ => Some s
  | String a p, String b s' => if Ascii.eqb a b then CutPrefix s' p else None
  | String _ _, EmptyString => None
  end.
Definition HasPrefix (s prefix : string) : bool := bool_decide (is_Some (CutPrefix s prefix)).

(** The UTF-8 encodings of the white space characters ([unicode.IsSpace]). *)
Definition space_encodings : list string :=
  str_of_bytes <$>
  ([[9]; [10]; [11]; [12]; [13]; [32]; [0xC2; 0x85]; [0xC2; 0xA0]; [0xE1; 0x9A; 0x80];
    [0xE2; 0x80; 0x80]; [0xE2; 0x80; 0x81]; [0xE2; 0x80; 0x82]; [0xE2; 0x80; 0x83];
    [0xE2; 0x80; 0x84]; [0xE2; 0x80; 0x85]; [0xE2; 0x80; 0x86]; [0xE2; 0x80; 0x87];
    [0xE2; 0x80; 0x88]; [0xE2; 0x80; 0x89]; [0xE2; 0x80; 0x8A]; [0xE2; 0x80; 0xA8];
    [0xE2; 0x80; 0xA9]; [0xE2; 0x80; 0xAF]; [0xE2; 0x81; 0x9F]; [0xE3; 0x80; 0x80]])%N.

(** Cut one leading white space character. *)
Fixpoint cut_any (encs : list string) (s : string) : option string :=
  match encs with
  | [] => None
  | e :: encs' => match CutPrefix s e with Some r => Some r | None => cut_any encs' s end
  end.

Fixpoint trim_left (encs : list string) (fuel : nat) (s : string) : string :=
  match fuel with
  | O => s
  | S f => match cut_any encs s with Some r => trim_left encs f r | None => s end
  end.

Definition str_rev (s : string) : string :=
  String.string_of_list_ascii (reverse (String.list_ascii_of_string s)).

(** [strings.TrimSpace]: leading white space, then (on the reversed string)
    trailing white space. *)
Definition TrimSpace (s : string) : string :=
  let l := trim_left space_encodings (String.length s) s in
  str_rev (trim_left (str_rev <$> space_encodings) (String.length l) (str_rev l)).

(** [strings.Fields]: the runs of other characters between white space. *)
Fixpoint fields_from (fuel : nat) (word s : string) : list string :=
  let ended := if String.eqb word "" then [] else [word] in
  match fuel, s with
  | O, _ | _, EmptyString => ended
  | S f, String a s' =>
      match cut_any space_encodings s with
      | Some r => ended ++ fields_from f "" r
      | None => fields_from f (word +:+ String a "") s'
      end
  end.
Definition Fields (s : string) : list string := fields_from (String.length s) "" s.

(** [strings.ToLower] on ASCII letters (the only ones that can match a name). *)
Definition ascii_lower (a : Ascii.ascii) : Ascii.ascii :=
  let n := Ascii.N_of_ascii a in
  if ((65 <=? n) && (n <=? 90))%N then ascii_of (n + 32) else a.
Definition ToLower (s : string) : string :=
  String.string_of_list_ascii (ascii_lower <$> String.list_ascii_of_string s).

(** [strings.Split(s, sep)] for a one-byte separator. *)
Fixpoint split_at (sep : Ascii.ascii) (s : string) : list string :=
  match s with
  | EmptyString => [""]
  | String a s' =>
      if Ascii.eqb a sep then "" :: split_at sep s'
      else match split_at sep s' with
           | w :: ws => String a w :: ws
           | [] => [String a ""]
           end
  end.

(** [strconv.Atoi]: an optional sign, then decimal digits, in the range of
    [int]. *)
Definition digit (a : Ascii.ascii) : option Z :=
  let n := Ascii.N_of_ascii a in
  if ((48 <=? n) && (n <=? 57))%N then Some (Z.of_N n - 48) else None.

Fixpoint digits (acc : Z) (s : string) : option Z :=
  match s with
  | EmptyString => Some acc
  | String a s' => match digit a with Some d => digits (acc * 10 + d) s' | None => None end
  end.

Definition unsigned (s : string) : option Z :=
  match s with EmptyString => None | _ => digits 0 s end.

Definition Atoi (s : string) : option Z :=
  let z := match CutPrefix s "-" with
           | Some r => Z.opp <$> unsigned r
           | None => match CutPrefix s "+" with Some r => unsigned r | None => unsigned s end
           end in
  match z with
  | Some z => if decide (- 2 ^ 63 <= z < 2 ^ 63) then Some z else None
  | None => None
  end.

(** ** Facts *)

Lemma CutPrefix_Some s p r : CutPrefix s p = Some r <-> s = p +:+ r.
Proof.
  revert s; induction p as [|a p IH]; intros [|b s]; simpl.
  1, 2: change ("" +:+ r) with r; split; congruence.
  - split; [done|by intros [=]].
  - change (String a p +:+ r) with (String a (p +:+ r)).
    destruct (Ascii.eqb_spec a b) as [->|Hne]; [|split; congruence].
    rewrite IH. split; [by intros -> | by intros [= ->]].
Qed.

Lemma HasPrefix_true s p : HasPrefix s p = true <-> exists r, s = p +:+ r.
Proof.
  unfold HasPrefix. rewrite bool_decide_eq_true. split; intros [r H]; exists r; by apply CutPrefix_Some.
Qed.

Lemma split_at_nonempty sep s : split_at sep s <> [].
Proof. destruct s as [|a s]; simpl; [done|]. destruct (Ascii.eqb a sep); [done|]. by destruct (split_at sep s). Qed.

Lemma Atoi_range s z : Atoi s = Some z -> in_int64 z.
Proof.
  unfold Atoi. destruct (match CutPrefix s "-" with Some _ => _ | None => _ end); [|done].
  case_decide; [|done]. by intros [= <-].
Qed.

Example trim_space_ex : TrimSpace "  all	 " = "all".
Proof. vm_compute. reflexivity. Qed.

Example atoi_ex : (Atoi "-12", Atoi "+7", Atoi "1_0", Atoi "", Atoi "9223372036854775808")
  = (Some (-12), Some 7, None, None, None).
Proof. vm_compute. reflexivity. Qed.
