(* ===== verification/Names.v ===== *)
(** * Resource names and identifiers ([internal/names])

    The token rule every identifier obeys, the partition of an execution, the
    subjects and durable names derived from a namespace prefix, and the ids of
    triggered executions. *)

From S2P Require Import Prelude Hash.

(** ** Tokens *)

(** [[A-Za-z0-9_-]]. *)
Definition token_char (a : Ascii.ascii) : bool :=
  let n := Ascii.N_of_ascii a in
  ((65 <=? n) && (n <=? 90) || (97 <=? n) && (n <=? 122) || (48 <=? n) && (n <=? 57)
   || (n =? 95) || (n =? 45))%N.

Definition all_token_chars (s : string) : bool :=
  forallb token_char (String.list_ascii_of_string s).

(** The pattern [^[A-Za-z0-9_-]{1,max}$]. *)
Definition matches_token (max : Z) (s : string) : bool :=
  let l := Z.of_nat (String.length s) in (1 <=? l) && (l <=? max) && all_token_chars s.

Definition maxToken : Z := 128.

Definition ValidPrefix (p : string) : bool := matches_token 64 p.
Definition ValidToken (s : string) : bool := matches_token maxToken s.

Definition CheckToken (what s : string) : option Text :=
  if ValidToken s then None
  else Some (Sprintf "invalid %s %q: must match [A-Za-z0-9_-]{1,128}" [AStr what; AStr s]).

(** ** Names of a namespace *)

Record Names := {
  nm_Prefix : string;
  nm_StreamEvents : string; nm_StreamCmd : string; nm_StreamWork : string; nm_StreamDLQ : string;
  nm_BucketSnapshots : string; nm_BucketFlows : string; nm_BucketIndex : string;
  nm_BucketCache : string; nm_BucketSem : string; nm_BucketStore : string;
  nm_ObjectBlobs : string; nm_ObjectArchive : string }.

Definition Default : string := "packtrail".

(** [New]: panics on an invalid prefix. *)
Definition New (prefix0 : string) : result Names :=
  let prefix := if String.eqb prefix0 "" then Default else prefix0 in
  if negb (ValidPrefix prefix) then
    Err (Panic (Sprintf "names: invalid namespace prefix %q; must match [A-Za-z0-9_-]{1,64}" [AStr prefix]))
  else Ok {|
    nm_Prefix := prefix;
    nm_StreamEvents := prefix +:+ "-events"; nm_StreamCmd := prefix +:+ "-cmd";
    nm_StreamWork := prefix +:+ "-work"; nm_StreamDLQ := prefix +:+ "-dlq";
    nm_BucketSnapshots := prefix +:+ "-snapshots"; nm_BucketFlows := prefix +:+ "-flows";
    nm_BucketIndex := prefix +:+ "-index"; nm_BucketCache := prefix +:+ "-cache";
    nm_BucketSem := prefix +:+ "-sem"; nm_BucketStore := prefix +:+ "-store";
    nm_ObjectBlobs := prefix +:+ "-blobs"; nm_ObjectArchive := prefix +:+ "-archive" |}.

(** ** Partitions *)

(** [Partition]: FNV-1a modulo [n], converted to [uint32]; dividing by zero
    (a multiple of 2^32) panics. *)
Definition Partition (execID : string) (n : Z) : result Z :=
  if n <=? 1 then Ok 0
  else if uint32 n =? 0 then Err (Panic "integer divide by zero")
  else Ok (fnv32a (bytes_of execID) mod uint32 n).

(** ** Subjects *)

Section Subjects.
Context (n : Names).

Definition EventsSubjects : string := nm_Prefix n +:+ ".ev.*.*".
Definition EventSubject (partition : Z) (execID : string) : string :=
  nm_Prefix n +:+ ".ev." +:+ Itoa partition +:+ "." +:+ execID.
Definition EventPartitionFilter (partition : Z) : string :=
  nm_Prefix n +:+ ".ev." +:+ Itoa partition +:+ ".*".
Definition CmdSubject (partition : Z) (execID : string) : string :=
  nm_Prefix n +:+ ".cmd." +:+ Itoa partition +:+ "." +:+ execID.
Definition CmdPartitionFilter (partition : Z) : string :=
  nm_Prefix n +:+ ".cmd." +:+ Itoa partition +:+ ".*".
Definition TimerSubject (execID timerID : string) : string :=
  nm_Prefix n +:+ ".timer." +:+ execID +:+ "." +:+ timerID.
Definition TimerExecFilter (execID : string) : string := nm_Prefix n +:+ ".timer." +:+ execID +:+ ".*".
Definition ScheduleSubject (name : string) : string := nm_Prefix n +:+ ".sched." +:+ name.
Definition CronSubject (name : string) : string := nm_Prefix n +:+ ".cron." +:+ name.
Definition CronFilter : string := nm_Prefix n +:+ ".cron.*".
Definition CmdStreamSubjects : list string :=
  [nm_Prefix n +:+ ".cmd.*.*"; nm_Prefix n +:+ ".timer.*.*"; nm_Prefix n +:+ ".sched.*"; CronFilter].
Definition WorkSubject (kind : string) : string := nm_Prefix n +:+ ".work." +:+ kind.
Definition WorkSubjects : string := nm_Prefix n +:+ ".work.*".
Definition WorkDelaySubject (kind id : string) : string :=
  nm_Prefix n +:+ ".workdelay." +:+ kind +:+ "." +:+ id.
Definition WorkDelaySubjects : string := nm_Prefix n +:+ ".workdelay.*.*".
Definition DLQSubject (kind key : string) : string := nm_Prefix n +:+ ".dlq." +:+ kind +:+ "." +:+ key.
Definition DLQSubjects : string := nm_Prefix n +:+ ".dlq.>".
Definition CtlSubject (kind : string) : string := nm_Prefix n +:+ ".ctl." +:+ kind.
Definition StopSubject (execID : string) : string := nm_Prefix n +:+ ".ctl.stop." +:+ execID.
Definition StopSubjects : string := nm_Prefix n +:+ ".ctl.stop.*".
Definition ProgressSubject (execID node : string) : string :=
  nm_Prefix n +:+ ".progress." +:+ execID +:+ "." +:+ node.
Definition ProgressFilter (execID : string) : string := nm_Prefix n +:+ ".progress." +:+ execID +:+ ".*".
Definition DurEngine (partition : Z) : string := nm_Prefix n +:+ "-engine-" +:+ Itoa partition.
Definition DurDispatch (partition : Z) : string := nm_Prefix n +:+ "-dispatch-" +:+ Itoa partition.
Definition DurCron : string := nm_Prefix n +:+ "-cron".
Definition DurIndexer : string := nm_Prefix n +:+ "-indexer".
Definition DurWorker (kind : string) : string := nm_Prefix n +:+ "-work-" +:+ kind.
End Subjects.

(** ** Ids of triggered executions *)

Definition triggerHashLen : Z := 26.
Definition nul : string := String Ascii.zero EmptyString.

(** [flow[:k]], [digest[:k]]. *)
Definition str_take (k : Z) (s : string) : string := String.substring 0 (Z.to_nat k) s.

Definition triggerExecID (flow key : string) : string :=
  let digest := base32_lower (sha256 (bytes_of (flow +:+ nul +:+ key))) in
  let keep := maxToken - 2 - triggerHashLen in
  let flow' := if decide (keep < Z.of_nat (String.length flow)) then str_take keep flow else flow in
  flow' +:+ "-t" +:+ str_take triggerHashLen digest.

Definition TriggerMsgExecID (flow msgID : string) : string :=
  triggerExecID flow ("msg" +:+ nul +:+ msgID).
Definition TriggerSeqExecID (flow stream : string) (seq : Z) : string :=
  triggerExecID flow ("seq" +:+ nul +:+ stream +:+ nul +:+ Itoa seq).

(** ** Facts about tokens *)

Lemma list_ascii_app a b :
  String.list_ascii_of_string (a +:+ b) = String.list_ascii_of_string a ++ String.list_ascii_of_string b.
Proof. induction a; simpl; [done|]. by f_equal. Qed.

Lemma all_token_chars_app a b : all_token_chars (a +:+ b) = all_token_chars a && all_token_chars b.
Proof. unfold all_token_chars. by rewrite list_ascii_app, forallb_app. Qed.

Lemma string_length_app a b : String.length (a +:+ b) = (String.length a + String.length b)%nat.
Proof. induction a; simpl; auto. Qed.

Lemma matches_token_spec max s :
  matches_token max s = true <->
  1 <= Z.of_nat (String.length s) <= max /\ all_token_chars s = true.
Proof. unfold matches_token. rewrite !andb_true_iff, !Z.leb_le. tauto. Qed.

(** The characters of an alphabet of token characters are tokens of length 1. *)
Lemma char_at_token alphabet i :
  0 <= i < Z.of_nat (String.length alphabet) -> all_token_chars alphabet = true ->
  all_token_chars (char_at alphabet i) = true /\ String.length (char_at alphabet i) = 1%nat.
Proof.
  intros Hi. unfold char_at. assert (Hn : (Z.to_nat i < String.length alphabet)%nat) by lia.
  revert Hn. generalize (Z.to_nat i). clear Hi. unfold all_token_chars.
  induction alphabet as [|a s IH]; simpl; intros n Hn; [lia|].
  rewrite andb_true_iff. intros [Ha Hs]. destruct n as [|n]; simpl; [by rewrite Ha|].
  apply IH; [lia|done].
Qed.

Lemma hex_token bs :
  Forall (fun b => 0 <= b < 256) bs ->
  all_token_chars (hex bs) = true /\ String.length (hex bs) = (2 * length bs)%nat.
Proof.
  induction 1 as [|b bs Hb Hbs [IH1 IH2]]; [done|]. unfold hex. simpl. fold (hex bs).
  destruct (char_at_token "0123456789abcdef" (b / 16)) as [H1 H2]; [simpl|done|].
  { split; [apply Z.div_pos; lia | apply Z.div_lt_upper_bound; lia]. }
  destruct (char_at_token "0123456789abcdef" (b mod 16)) as [H3 H4]; [simpl|done|].
  { apply Z.mod_pos_bound; lia. }
  rewrite !all_token_chars_app, !string_length_app, H1, H2, H3, H4, IH1, IH2. split; [done|lia].
Qed.

(** Decimal numbers are made of token characters. *)
Lemma pretty_N_char_token d : (d < 10)%N -> token_char (pretty_N_char d) = true.
Proof.
  intros Hd. assert (d ∈ [0; 1; 2; 3; 4; 5; 6; 7; 8; 9]%N) as Hin.
  { rewrite !elem_of_cons. lia. }
  repeat (apply elem_of_cons in Hin as [->|Hin]; [done|]). by apply elem_of_nil in Hin.
Qed.

Lemma pretty_N_go_token n s :
  all_token_chars s = true -> all_token_chars (pretty_N_go n s) = true.
Proof.
  revert s. induction (N.lt_wf_0 n) as [n _ IH]. intros s Hs.
  destruct (decide (n = 0)%N) as [->|Hn]; [by rewrite pretty_N_go_0|].
  rewrite pretty_N_go_step by lia. apply IH; [apply N.div_lt; lia|].
  unfold all_token_chars in *. simpl.
  rewrite pretty_N_char_token by (apply N.mod_lt; lia). done.
Qed.

Lemma pretty_N_token (n : N) : all_token_chars (pretty n) = true.
Proof.
  unfold pretty, pretty_N. case_decide; [done|]. by apply pretty_N_go_token.
Qed.

Lemma Itoa_token n : all_token_chars (Itoa n) = true.
Proof.
  destruct n as [|p|p]; [done|exact (pretty_N_token (Npos p))|].
  change (all_token_chars ("-" +:+ pretty (Npos p)) = true).
  by rewrite all_token_chars_app, pretty_N_token.
Qed.
