(* ===== verification/Expr.v ===== *)
(** * Expressions ([internal/expr])

    A program is compiled and run by expr-lang, which is not part of this
    repository: its compiler and its virtual machine are parameters.  What the
    repository adds is modelled: the restriction of the bytecode to a
    straight-line subset, and the reading of a predicate's value. *)

From S2P Require Import Prelude Json.

(** The opcodes the validator distinguishes; a call of a builtin carries the
    builtin's name ([builtinName]). *)
Inductive Op :=
| OpRange | OpJumpBackward | OpAdd | OpSlice
| OpCall | OpCall0 | OpCall1 | OpCall2 | OpCall3 | OpCallN | OpCallFast | OpCallSafe | OpCallTyped
| OpCallBuiltin1 (builtin : string)
| OpOther (code : Z).

Record Program := { p_src : string; p_bytecode : list Op; p_pred : bool }.

(** What one opcode of the compiled program is rejected with, if it is. *)
Definition rejects (code : string) (op : Op) : option Text :=
  match op with
  | OpRange => Some (Sprintf "expr: compile %q: range expressions are not allowed" [AStr code])
  | OpJumpBackward => Some (Sprintf "expr: compile %q: iteration expressions are not allowed" [AStr code])
  | OpAdd | OpSlice =>
      Some (Sprintf "expr: compile %q: concatenation and slicing are not allowed" [AStr code])
  | OpCall | OpCall0 | OpCall1 | OpCall2 | OpCall3 | OpCallN | OpCallFast | OpCallSafe | OpCallTyped =>
      Some (Sprintf "expr: compile %q: function calls other than len() are not allowed" [AStr code])
  | OpCallBuiltin1 name =>
      if String.eqb name "len" then None
      else Some (Sprintf "expr: compile %q: builtin %q is not allowed" [AStr code; AStr name])
  | OpOther _ => None
  end.

Fixpoint validateBudgetedProgram (code : string) (bytecode : list Op) : option Text :=
  match bytecode with
  | [] => None
  | op :: rest =>
      match rejects code op with Some e => Some e | None => validateBudgetedProgram code rest end
  end.

Section Compile.
(** expr-lang's compiler: source and "as bool" to bytecode, or an error. *)
Context (expr_Compile : string -> bool -> Text + list Op).

Definition compile (code : string) (pred : bool) : Text + Program :=
  match expr_Compile code pred with
  | inl err => inl (Sprintf "expr: compile %q: %w" [AStr code; AText err])
  | inr prog =>
      match validateBudgetedProgram code prog with
      | Some err => inl err
      | None => inr {| p_src := code; p_bytecode := prog; p_pred := pred |}
      end
  end.

Definition CompilePredicate (code : string) : Text + Program := compile code true.
Definition CompileValue (code : string) : Text + Program := compile code false.
End Compile.

(** A bytecode in the straight-line subset: no loop, no range, no allocation
    the VM budget does not see, and no call but [len]. *)
Definition straight_line (bytecode : list Op) : Prop :=
  Forall (fun op => op = OpCallBuiltin1 "len" \/ exists c, op = OpOther c) bytecode.

Lemma validateBudgetedProgram_None code bytecode :
  validateBudgetedProgram code bytecode = None <-> straight_line bytecode.
Proof.
  unfold straight_line. induction bytecode as [|op rest IH]; simpl; [split; [constructor|done]|].
  rewrite Forall_cons, <- IH. destruct op; simpl; try (split; [done|naive_solver]).
  - destruct (String.eqb_spec builtin "len") as [->|Hne]; simpl; [naive_solver|].
    split; [done|]. intros [[[= ->]|[? [=]]] _]. done.
  - naive_solver.
Qed.

(** Compilation admits exactly the straight-line programs: a source compiles when expr-lang
    compiles it to bytecode without loops, ranges, concatenations, slices or
    calls other than [len]; the program keeps that bytecode and its source. *)
Theorem compile_admits_straight_line expr_Compile code pred p :
  compile expr_Compile code pred = inr p <->
  exists bytecode, expr_Compile code pred = inr bytecode /\ straight_line bytecode /\
    p = {| p_src := code; p_bytecode := bytecode; p_pred := pred |}.
Proof.
  unfold compile. destruct (expr_Compile code pred) as [err|bc]; [split; [done|by intros (? & ? & _)]|].
  destruct (validateBudgetedProgram code bc) as [err|] eqn:E.
  - split; [done|]. intros (bc' & [= <-] & Hs & _). apply (validateBudgetedProgram_None code) in Hs. congruence.
  - apply validateBudgetedProgram_None in E. split; [intros [= <-]; eauto|]. by intros (bc' & [= <-] & _ & ->).
Qed.

Section Eval.
(** The virtual machine, on an environment of type [Env]. *)
Context {Env : Type} (vm_Run : Program -> Env -> Text + Json).

(** [Program.Eval] under a live context. *)
Definition Program_Eval (p : Program) (env : Env) : Text + Json :=
  match vm_Run p env with
  | inl err => inl (Sprintf "expr: eval %q: %w" [AStr (p_src p); AText err])
  | inr v => inr v
  end.

Definition Program_Match (p : Program) (env : Env) : Text + bool :=
  match Program_Eval p env with
  | inl err => inl err
  | inr (JBool b) => inr b
  | inr _ => inl (Sprintf "expr: %q did not evaluate to bool" [AStr (p_src p)])
  end.
End Eval.
