(* ===== verification/Flow.v ===== *)
(** * Flow definitions ([flow/flow.go], [flow/graph.go])

    The data of a flow and of its nodes, and the functions the fold calls on a
    validated flow.  Durations are integers of nanoseconds kept in [int64].
    [byID] is an index into [Nodes], as the Go map holds pointers into the
    slice. *)

From S2P Require Import Prelude Json GoStrings Hash Expr.

(** ** Constants *)

Definition SupportedVersion : string := "1".
Definition NodeTask : string := "task".
Definition NodeChoice : string := "choice".
Definition NodeFanout : string := "fanout".
Definition NodeJoin : string := "join".
Definition NodeAwait : string := "await".
Definition NodeMap : string := "map".
Definition NodeSubflow : string := "subflow".
Definition End_ : string := "$end".
Definition JoinAll : string := "all".
Definition JoinAny : string := "any".
Definition JoinQuorum : string := "quorum".
Definition JoinMin : string := "min".
Definition BackoffFixed : string := "fixed".
Definition BackoffLinear : string := "linear".
Definition BackoffExponential : string := "exponential".
Definition ReducerReplace : string := "replace".
Definition ReducerAppend : string := "append".
Definition ReducerMerge : string := "merge".
Definition ReducerSum : string := "sum".
Definition ExpireArchive : string := "archive".
Definition ExpireDelete : string := "delete".
Definition OnErrorDefault : string := "".
Definition OnErrorFail : string := "fail".
Definition ParentCloseCancel : string := "cancel".
Definition ParentCloseAbandon : string := "abandon".

Definition Second : Z := 1000000000.
Definition MaxRetryAttempts : Z := 64.
Definition DefaultMaxSteps : Z := 1000.
Definition DefaultRetryDelay : Z := Second.
Definition DefaultMapParallel : Z := 100.
Definition MaxParallel : Z := 256.
Definition MaxBranches : Z := 256.
Definition DefaultRetryMaxDelay : Z := 300 * Second.

(** ** Data *)

Record Channel := { ch_Reducer : string; ch_Default : option Json }.

Record Trigger := { tr_Subject : string; tr_Stream : string }.

Record Retry := { r_MaxAttempts : Z; r_Backoff : string; r_Delay : Z; r_MaxDelay : Z }.

Record Cache := { ca_TTL : Z }.

Record Concurrency := { co_Key : string; co_Max : Z }.

Record Rule := { ru_Name : string; ru_When : string; ru_Default : bool; ru_To : string }.

(** A node.  The fields after [n_OnParentClose] are the compiled forms Validate
    keeps beside the definition. *)
Record Node := {
  n_ID : string; n_Type : string; n_Next : string; n_OnFailure : string; n_Meta : option Json;
  n_Kind : string; n_Timeout : Z; n_Retry : option Retry; n_OutputSchema : option Json;
  n_Cache : option Cache; n_Concurrency : option Concurrency; n_Dynamic : list string;
  n_Rules : list Rule; n_OnError : string;
  n_Branches : list string;
  n_WaitFor : list string; n_Policy : string;
  n_Signal : string; n_OnTimeout : string;
  n_Over : string; n_MaxParallel : Z;
  n_Flow : string; n_Input : string; n_OnParentClose : string;
  n_rules : list (option Program); n_over : option Program; n_input : option Program;
  n_conc : option Program; n_schema : option Json; n_meta : RawMessage }.

Record Flow := {
  f_Version : string; f_Name : string; f_Description : string; f_Start : string;
  f_Channels : gmap string Channel; f_Output : string; f_Nodes : list Node;
  f_Budget : gmap string float64; f_MaxSteps : Z; f_SearchAttributes : gmap string string;
  f_Retention : Z; f_OnExpire : string; f_ArchiveRetention : Z; f_Triggers : list Trigger;
  f_byID : gmap string nat; f_startID : string; f_branchOf : gmap string string;
  f_joinOf : gmap string string; f_attrs : gmap string Program; f_output : option Program }.

(** ** Accessors *)

Definition ReducerOrDefault (c : Channel) : string :=
  if String.eqb (ch_Reducer c) "" then ReducerReplace else ch_Reducer c.

(** [def.Channels[name].ReducerOrDefault()]: a missing channel is the zero one. *)
Definition channel_reducer (f : Flow) (name : string) : string :=
  match f_Channels f !! name with Some c => ReducerOrDefault c | None => ReducerReplace end.

Definition node (f : Flow) (id : string) : option Node := f_byID f !! id ≫= fun i => f_Nodes f !! i.
Definition StartNode (f : Flow) : string := f_startID f.
Definition FanoutOf (f : Flow) (branch : string) : string := default "" (f_branchOf f !! branch).
Definition JoinOf (f : Flow) (fanout : string) : string := default "" (f_joinOf f !! fanout).
Definition DeletesOnExpire (f : Flow) : bool := String.eqb (f_OnExpire f) ExpireDelete.
Definition MaxStepsOrDefault (f : Flow) : Z :=
  if f_MaxSteps f <=? 0 then DefaultMaxSteps else f_MaxSteps f.
Definition AttrProgram (f : Flow) (name : string) : option Program := f_attrs f !! name.
Definition OutputProgram (f : Flow) : option Program := f_output f.
Definition RulePrograms (n : Node) : list (option Program) := n_rules n.
Definition OverProgram (n : Node) : option Program := n_over n.
Definition InputProgram (n : Node) : option Program := n_input n.
Definition ConcurrencyProgram (n : Node) : option Program := n_conc n.
Definition MetaJSON (n : Node) : RawMessage := n_meta n.

Definition ParentClose (n : Node) : string :=
  if String.eqb (n_OnParentClose n) "" then ParentCloseCancel else n_OnParentClose n.

Fixpoint allows (l : list string) (target : string) : bool :=
  match l with [] => false | d :: l' => String.eqb d target || allows l' target end.
Definition AllowsDynamic (n : Node) (target : string) : bool := allows (n_Dynamic n) target.

(** The hex digest of the first 8 bytes of the SHA-256 of the encoded flow. *)
Definition Hash_of (encoded : string) : string := hex (take 8 (sha256 (bytes_of encoded))).

(** *** Join policies *)

Definition joinCount (s : string) : Z := match Atoi s with Some q => q | None => -1 end.

Definition JoinKind (n : Node) : string * Z :=
  let p := TrimSpace (n_Policy n) in
  if String.eqb p "" || String.eqb p JoinAll then (JoinAll, 0)
  else if String.eqb p JoinAny then (JoinAny, 0)
  else match CutPrefix p (JoinQuorum +:+ ":") with
       | Some q => (JoinQuorum, joinCount q)
       | None =>
           match CutPrefix p (JoinMin +:+ ":") with
           | Some q => (JoinMin, joinCount q)
           | None => (p, 0)
           end
       end.

(** The fanout a join closes.  Go ranges over [joinOf] in no fixed order;
    validation ties a join to one fanout, so the first match is the only one. *)
Definition fanOf (f : Flow) (join : string) : option string :=
  List.find (fun fan => bool_decide (f_joinOf f !! fan = Some join)) (sorted_keys (f_joinOf f)).

Definition WaitFor (f : Flow) (join : string) : list string :=
  match node f join with
  | None => []
  | Some n =>
      if bool_decide (n_WaitFor n <> []) then n_WaitFor n
      else match fanOf f join with
           | Some fan => match node f fan with Some fn => n_Branches fn | None => [] end
           | None => []
           end
  end.

(** *** Retries *)

Definition MaxAttempts (n : Node) : Z :=
  match n_Retry n with
  | Some r => if r_MaxAttempts r <? 1 then 1 else r_MaxAttempts r
  | None => 1
  end.

Definition maxBackoffShift : Z := 62.

(** The delay before attempt [attempt], in wrapping 64-bit arithmetic; Go's
    division truncates. *)
Definition Backoff (n : Node) (attempt : Z) : Z :=
  match n_Retry n with
  | None => 0
  | Some r =>
      let base := if r_Delay r <=? 0 then DefaultRetryDelay else r_Delay r in
      let maxDelay := if r_MaxDelay r <=? 0 then DefaultRetryMaxDelay else r_MaxDelay r in
      let maxDelay := if maxDelay <? base then base else maxDelay in
      let retry := Z.max (attempt - 1) 1 in
      let clamp d := if (d <=? 0) || (maxDelay <? d) then maxDelay else d in
      if String.eqb (r_Backoff r) BackoffLinear then
        let d := int64 (base * retry) in
        clamp (if Z.quot d retry =? base then d else maxDelay)
      else if String.eqb (r_Backoff r) BackoffExponential then
        if maxBackoffShift <=? retry - 1 then maxDelay
        else clamp (int64 (Z.shiftl base (retry - 1)))
      else clamp base
  end.

(** *** Routes of a node ([flow/graph.go]) *)

Record route := { rt_field : string; rt_to : string }.

Definition indexed (fmt : string -> string) (i : nat) : string := fmt (Itoa (Z.of_nat i)).

Definition routes (n : Node) : list route :=
  (if String.eqb (n_Next n) "" then [] else [{| rt_field := "next"; rt_to := n_Next n |}]) ++
  concat (imap (fun i r =>
    if String.eqb (ru_To r) End_ then []
    else [{| rt_field := indexed (fun s => "rules[" +:+ s +:+ "].to") i; rt_to := ru_To r |}]) (n_Rules n)) ++
  (if String.eqb (n_OnTimeout n) "" then [] else [{| rt_field := "on_timeout"; rt_to := n_OnTimeout n |}]) ++
  (if String.eqb (n_OnFailure n) "" then [] else [{| rt_field := "on_failure"; rt_to := n_OnFailure n |}]) ++
  imap (fun i d => {| rt_field := indexed (fun s => "dynamic[" +:+ s +:+ "]") i; rt_to := d |}) (n_Dynamic n).

Definition successors (n : Node) : list string := (rt_to <$> routes n) ++ n_Branches n.
