(* ===== verification/FlowValidate.v ===== *)
(** * Validation of flow definitions ([flow/validate.go], [flow/errors.go], [flow/graph.go])

    [Validate] collects every problem of a definition and builds the indexes and
    compiled expressions the fold reads.  A check is a function that returns the
    problems it adds, in order, and the part of the definition it fills in.
    Checks that follow pointers ([f.byID[id].Type]) return a [result]: a missing
    node would be a nil dereference.

    The compiler of expressions and the one of JSON schemas are parameters. *)

From S2P Require Import Prelude Json GoStrings Names Expr Flow.

(** ** Problems *)

Record ValidationError := {
  ve_Flow : string; ve_Node : string; ve_Field : string; ve_Msg : Text; ve_Err : option Text }.

Abbreviation problems := (list ValidationError).

(** [problems.add]: the cause, if any, is kept and appended to the message. *)
Definition add (flow nd field : string) (cause : option Text) (msg : Text) : problems :=
  [{| ve_Flow := flow; ve_Node := nd; ve_Field := field;
      ve_Msg := match cause, msg with
                | None, _ => msg
                | Some c, TStr "" => c
                | Some c, _ => Sprintf "%s: %s" [AText msg; AText c]
                end;
      ve_Err := cause |}].

Definition when (b : bool) (p : problems) : problems := if b then p else [].

(** [fmt.Sprintf("name[%d]suffix", i)]. *)
Definition field_at (name : string) (i : nat) (suffix : string) : string :=
  name +:+ "[" +:+ Itoa (Z.of_nat i) +:+ "]" +:+ suffix.

(** ** Setters of the compiled parts *)

Definition Node_eta (n : Node) : Node :=
  Build_Node (n_ID n) (n_Type n) (n_Next n) (n_OnFailure n) (n_Meta n) (n_Kind n) (n_Timeout n) (n_Retry n)
    (n_OutputSchema n) (n_Cache n) (n_Concurrency n) (n_Dynamic n) (n_Rules n) (n_OnError n) (n_Branches n)
    (n_WaitFor n) (n_Policy n) (n_Signal n) (n_OnTimeout n) (n_Over n) (n_MaxParallel n) (n_Flow n)
    (n_Input n) (n_OnParentClose n) (n_rules n) (n_over n) (n_input n) (n_conc n) (n_schema n) (n_meta n).
Definition set_n_rules (v : list (option Program)) (n : Node) : Node := ltac:(assign Node_eta n n_rules v).
Definition set_n_over (v : option Program) (n : Node) : Node := ltac:(assign Node_eta n n_over v).
Definition set_n_input (v : option Program) (n : Node) : Node := ltac:(assign Node_eta n n_input v).
Definition set_n_conc (v : option Program) (n : Node) : Node := ltac:(assign Node_eta n n_conc v).
Definition set_n_schema (v : option Json) (n : Node) : Node := ltac:(assign Node_eta n n_schema v).
Definition set_n_meta (v : RawMessage) (n : Node) : Node := ltac:(assign Node_eta n n_meta v).

Definition Flow_eta (f : Flow) : Flow :=
  Build_Flow (f_Version f) (f_Name f) (f_Description f) (f_Start f) (f_Channels f) (f_Output f) (f_Nodes f)
    (f_Budget f) (f_MaxSteps f) (f_SearchAttributes f) (f_Retention f) (f_OnExpire f) (f_ArchiveRetention f)
    (f_Triggers f) (f_byID f) (f_startID f) (f_branchOf f) (f_joinOf f) (f_attrs f) (f_output f).
Definition set_f_Nodes (v : list Node) (f : Flow) : Flow := ltac:(assign Flow_eta f f_Nodes v).
Definition set_f_byID (v : gmap string nat) (f : Flow) : Flow := ltac:(assign Flow_eta f f_byID v).
Definition set_f_startID (v : string) (f : Flow) : Flow := ltac:(assign Flow_eta f f_startID v).
Definition set_f_branchOf (v : gmap string string) (f : Flow) : Flow := ltac:(assign Flow_eta f f_branchOf v).
Definition set_f_joinOf (v : gmap string string) (f : Flow) : Flow := ltac:(assign Flow_eta f f_joinOf v).
Definition set_f_attrs (v : gmap string Program) (f : Flow) : Flow := ltac:(assign Flow_eta f f_attrs v).
Definition set_f_output (v : option Program) (f : Flow) : Flow := ltac:(assign Flow_eta f f_output v).

Section Validate.
(** expr-lang's compiler, and the compiler of JSON schemas (a compiled schema is
    identified with its document). *)
Context (expr_Compile : string -> bool -> Text + list Op) (schema_Compile : Json -> option Text).

Definition check_token (flow nd field what s : string) : problems :=
  match CheckToken what s with Some err => add flow nd field (Some err) "" | None => [] end.

(** ** The flow itself *)

(** The body of the loop of [indexNodes], over the problems, the index and the
    position of the node. *)
Definition index_step (flow : string) (acc : problems * gmap string nat * nat) (n : Node)
  : problems * gmap string nat * nat :=
  let '(p, byID, i) := acc in
  let p := p ++ check_token flow (n_ID n) "id" "node id" (n_ID n) in
  match byID !! n_ID n with
  | Some _ => (p ++ add flow (n_ID n) "id" None "duplicate node id", byID, S i)
  | None => (p, <[n_ID n := i]> byID, S i)
  end.

(** [indexNodes]: the first node of an id is kept. *)
Definition indexNodes (f : Flow) : problems * Flow :=
  let '(p, byID, _) := foldl (index_step (f_Name f)) ([], ∅, 0%nat) (f_Nodes f) in
  (p, set_f_byID byID f).

Definition validateExpiry (f : Flow) : problems :=
  let e := f_OnExpire f in
  when (negb (String.eqb e "" || String.eqb e ExpireArchive || String.eqb e ExpireDelete))
    (add (f_Name f) "" "on_expire" None
       (Sprintf "unknown value %q (%s or %s)" [AStr e; AStr ExpireArchive; AStr ExpireDelete])) ++
  when (negb (String.eqb e "") && (f_Retention f =? 0))
    (add (f_Name f) "" "on_expire" None "needs a retention: without one the execution never expires") ++
  when (f_ArchiveRetention f <? 0)
    (add (f_Name f) "" "archive_retention" None "must not be negative") ++
  when ((0 <? f_ArchiveRetention f) && String.eqb e ExpireDelete)
    (add (f_Name f) "" "archive_retention" None
       (Sprintf "has no effect with on_expire: %s, which leaves no archive" [AStr ExpireDelete])).

(** Whether a default fits its reducer: [c.Default] is a decoded JSON value, in
    which every number is a [float64]. *)
Definition default_fits (reducer : string) (def : option Json) : option bool :=
  if String.eqb reducer ReducerReplace then Some true
  else if String.eqb reducer ReducerAppend then
    Some (match def with None | Some (JArr _) => true | _ => false end)
  else if String.eqb reducer ReducerMerge then
    Some (match def with None | Some (JObj _) => true | _ => false end)
  else if String.eqb reducer ReducerSum then
    Some (match def with None | Some (JNum _) => true | _ => false end)
  else None.

Definition validateChannel (f : Flow) (name : string) (c : Channel) : problems :=
  let field := "channels." +:+ name in
  check_token (f_Name f) "" field "channel name" name ++
  match default_fits (ReducerOrDefault c) (ch_Default c) with
  | None => add (f_Name f) "" (field +:+ ".reducer") None
              (Sprintf "unknown reducer %q (want replace, append, merge or sum)" [AStr (ch_Reducer c)])
  | Some false => add (f_Name f) "" (field +:+ ".default") None
                    (Sprintf "does not fit reducer %q" [AStr (ReducerOrDefault c)])
  | Some true => []
  end.

Definition validateChannels (f : Flow) : problems :=
  concat ((fun name => match f_Channels f !! name with
                       | Some c => validateChannel f name c
                       | None => []
                       end) <$> sorted_keys (f_Channels f)).

Definition validateOutput (f : Flow) : problems * option Program :=
  if String.eqb (TrimSpace (f_Output f)) "" then ([], None)
  else match CompileValue expr_Compile (f_Output f) with
       | inl err => (add (f_Name f) "" "output" (Some err) "", None)
       | inr prog => ([], Some prog)
       end.

Definition validateBudget (f : Flow) : problems :=
  concat ((fun k =>
    let field := "budget." +:+ k in
    check_token (f_Name f) "" field "budget counter" k ++
    when (f_nonpos (default f_zero (f_Budget f !! k))) (add (f_Name f) "" field None "must be positive"))
    <$> sorted_keys (f_Budget f)).

Definition validateAttrs (f : Flow) : problems * gmap string Program :=
  foldl (fun '(p, attrs) k =>
    let field := "search_attributes." +:+ k in
    let p := p ++ check_token (f_Name f) "" field "search attribute" k in
    match CompileValue expr_Compile (default "" (f_SearchAttributes f !! k)) with
    | inl err => (p ++ add (f_Name f) "" field (Some err) "", attrs)
    | inr prog => (p, <[k := prog]> attrs)
    end) ([], ∅) (sorted_keys (f_SearchAttributes f)).

(** [strings.ContainsAny(s, " \t\r\n")]. *)
Definition has_blank (s : string) : bool :=
  existsb (fun a => let n := Ascii.N_of_ascii a in (n =? 32) || (n =? 9) || (n =? 13) || (n =? 10))%N
    (String.list_ascii_of_string s).

Definition validateTriggers (f : Flow) : problems :=
  concat (imap (fun i tr =>
    when (String.eqb (TrimSpace (tr_Subject tr)) "" || has_blank (tr_Subject tr))
      (add (f_Name f) "" (field_at "triggers" i ".subject") None
         (Sprintf "%q is not a valid subject" [AStr (tr_Subject tr)])) ++
    when (negb (String.eqb (tr_Stream tr) ""))
      (check_token (f_Name f) "" (field_at "triggers" i ".stream") "trigger stream" (tr_Stream tr)))
    (f_Triggers f)).

Definition validateFlowLevel (f : Flow) : problems * Flow :=
  let '(p_out, output) := validateOutput f in
  let '(p_attrs, attrs) := validateAttrs f in
  (when (f_MaxSteps f <? 0) (add (f_Name f) "" "max_steps" None "must not be negative") ++
   when (f_Retention f <? 0) (add (f_Name f) "" "retention" None "must not be negative") ++
   validateExpiry f ++ validateChannels f ++ p_out ++ validateBudget f ++ p_attrs ++ validateTriggers f,
   f |> set_f_output output |> set_f_attrs attrs).

(** ** Nodes *)

(** [ref]: the field names an existing node. *)
Definition ref (f : Flow) (n : Node) (field id : string) : problems :=
  if String.eqb id "" then add (f_Name f) (n_ID n) field None "is required"
  else match node f id with
       | None => add (f_Name f) (n_ID n) field None (Sprintf "references unknown node %q" [AStr id])
       | Some _ => []
       end.

(** [encodeMeta]: an empty meta is no meta. *)
Definition encodeMeta (f : Flow) (n : Node) : problems * Node :=
  match n_Meta n with
  | None | Some (JObj []) => ([], set_n_meta None n)
  | Some m =>
      match marshal_any m with
      | Some b => ([], set_n_meta (Some b) n)
      | None => (add (f_Name f) (n_ID n) "meta" (Some (TStr "json: unsupported value"))
                   "must encode as JSON (use string keys in nested maps)", set_n_meta None n)
      end
  end.

Definition is_set (s : string) : bool := negb (String.eqb s "").

(** [fieldSet]: the type-specific fields, with whether they are set. *)
Definition fieldSet (n : Node) : list (string * bool) := [
  ("kind", is_set (n_Kind n)); ("timeout", negb (n_Timeout n =? 0));
  ("retry", bool_decide (is_Some (n_Retry n))); ("output_schema", bool_decide (is_Some (n_OutputSchema n)));
  ("cache", bool_decide (is_Some (n_Cache n))); ("concurrency", bool_decide (is_Some (n_Concurrency n)));
  ("dynamic", 0 <? len (n_Dynamic n)); ("rules", 0 <? len (n_Rules n)); ("on_error", is_set (n_OnError n));
  ("branches", 0 <? len (n_Branches n)); ("wait_for", 0 <? len (n_WaitFor n)); ("policy", is_set (n_Policy n));
  ("signal", is_set (n_Signal n)); ("on_timeout", is_set (n_OnTimeout n)); ("over", is_set (n_Over n));
  ("max_parallel", negb (n_MaxParallel n =? 0)); ("flow", is_set (n_Flow n)); ("input", is_set (n_Input n));
  ("on_parent_close", is_set (n_OnParentClose n)); ("next", is_set (n_Next n));
  ("on_failure", is_set (n_OnFailure n))].

Definition allowedFields (type : string) : option (list string) :=
  if String.eqb type NodeTask then
    Some ["kind"; "timeout"; "retry"; "output_schema"; "cache"; "concurrency"; "dynamic"; "next"; "on_failure"]
  else if String.eqb type NodeChoice then Some ["rules"; "on_error"]
  else if String.eqb type NodeFanout then Some ["branches"; "next"]
  else if String.eqb type NodeJoin then Some ["wait_for"; "policy"; "next"; "on_failure"]
  else if String.eqb type NodeAwait then Some ["signal"; "timeout"; "on_timeout"; "next"]
  else if String.eqb type NodeMap then
    Some ["kind"; "over"; "max_parallel"; "timeout"; "retry"; "output_schema"; "next"; "on_failure";
          "flow"; "input"; "on_parent_close"]
  else if String.eqb type NodeSubflow then Some ["flow"; "input"; "on_parent_close"; "next"; "on_failure"]
  else None.

(** The fields that are set and not allowed, sorted. *)
Definition foreign_fields (allowed : list string) (fields : list (string * bool)) : list string :=
  merge_sort str_le (omap (fun '(field, set) =>
    if set && negb (bool_decide (field ∈ allowed)) then Some field else None) fields).

Definition rejectForeignFields (f : Flow) (n : Node) : problems :=
  match allowedFields (n_Type n) with
  | None => []
  | Some allowed =>
      match foreign_fields allowed (fieldSet n) with
      | [] => []
      | foreign => add (f_Name f) (n_ID n) "" None
                     (Sprintf "field(s) %v do not apply to a %s node" [AStrs foreign; AStr (n_Type n)])
      end
  end.

Definition validateRetry (f : Flow) (n : Node) : problems :=
  match n_Retry n with
  | None => []
  | Some r =>
      let b := r_Backoff r in
      when ((r_MaxAttempts r <? 0) || (MaxRetryAttempts <? r_MaxAttempts r))
        (add (f_Name f) (n_ID n) "retry.max_attempts" None
           (Sprintf "must be between 0 and %d" [AInt MaxRetryAttempts])) ++
      (if String.eqb b "" || String.eqb b BackoffFixed || String.eqb b BackoffLinear
          || String.eqb b BackoffExponential then
         when (is_set b && (r_MaxAttempts r <? 2))
           (add (f_Name f) (n_ID n) "retry.max_attempts" None
              (Sprintf "retry declares backoff %q but max_attempts < 2, so it would never retry" [AStr b]))
       else add (f_Name f) (n_ID n) "retry.backoff" None
              (Sprintf "unknown backoff %q (want fixed, linear or exponential)" [AStr b])) ++
      when (r_Delay r <? 0) (add (f_Name f) (n_ID n) "retry.delay" None "must not be negative") ++
      when (r_MaxDelay r <? 0) (add (f_Name f) (n_ID n) "retry.max_delay" None "must not be negative")
  end.

Definition validateAttemptPolicy (f : Flow) (n : Node) : problems * Node :=
  let p := when (n_Timeout n <? 0) (add (f_Name f) (n_ID n) "timeout" None "must not be negative") ++
           validateRetry f n in
  match n_OutputSchema n with
  | None => (p, set_n_schema None n)
  | Some doc =>
      match schema_Compile doc with
      | Some err => (p ++ add (f_Name f) (n_ID n) "output_schema" (Some err) "", set_n_schema None n)
      | None => (p, set_n_schema (Some doc) n)
      end
  end.

(** An expression compiled into a node, or a problem at [field]. *)
Definition compile_field (f : Flow) (n : Node) (field code : string) : problems * option Program :=
  match CompileValue expr_Compile code with
  | inl err => (add (f_Name f) (n_ID n) field (Some err) "", None)
  | inr prog => ([], Some prog)
  end.

Definition validateTask (f : Flow) (n : Node) : problems * Node :=
  let p_kind := check_token (f_Name f) (n_ID n) "kind" "worker kind" (n_Kind n) in
  let '(p_policy, n) := validateAttemptPolicy f n in
  let p_cache := match n_Cache n with
                 | Some c => when (ca_TTL c <=? 0) (add (f_Name f) (n_ID n) "cache.ttl" None "must be positive")
                 | None => []
                 end in
  let '(p_conc, conc) :=
    match n_Concurrency n with
    | None => ([], None)
    | Some c =>
        let p := when (co_Max c <=? 0) (add (f_Name f) (n_ID n) "concurrency.max" None "must be positive") in
        let '(p', prog) := compile_field f n "concurrency.key" (co_Key c) in
        (p ++ p', prog)
    end in
  (p_kind ++ p_policy ++ p_cache ++ p_conc ++
   concat (imap (fun i d => ref f n (field_at "dynamic" i "") d) (n_Dynamic n)),
   set_n_conc conc n).

(** [checkRuleName]: the problems of a rule's name, and the names seen so far. *)
Definition checkRuleName (f : Flow) (n : Node) (field name : string) (named : gset string)
  : problems * gset string :=
  if String.eqb name "" then ([], named)
  else
    (match CheckToken "rule name" name with
     | Some err => add (f_Name f) (n_ID n) (field +:+ ".name") (Some err) ""
     | None => when (bool_decide (name ∈ named))
                 (add (f_Name f) (n_ID n) (field +:+ ".name") None (Sprintf "duplicate rule name %q" [AStr name]))
     end, {[name]} ∪ named).

(** The check of one rule: problems, whether it is a default, its program. *)
Definition check_rule (f : Flow) (n : Node) (field : string) (r : Rule) : problems * bool * option Program :=
  let blank := String.eqb (TrimSpace (ru_When r)) "" in
  if ru_Default r then
    (when (negb blank)
       (add (f_Name f) (n_ID n) (field +:+ ".when") None "a default rule must not also carry a when expression"),
     true, None)
  else if blank then
    (add (f_Name f) (n_ID n) (field +:+ ".when") None "non-default rule needs a when expression", false, None)
  else match CompilePredicate expr_Compile (ru_When r) with
       | inl err => (add (f_Name f) (n_ID n) (field +:+ ".when") (Some err) "", false, None)
       | inr prog => ([], false, Some prog)
       end.

(** The loop over the rules, from rule [i] on: problems, defaults, programs. *)
Fixpoint check_rules (f : Flow) (n : Node) (i : nat) (named : gset string) (rules : list Rule)
  : problems * Z * list (option Program) :=
  match rules with
  | [] => ([], 0, [])
  | r :: rest =>
      let field := field_at "rules" i "" in
      let '(p_name, named) := checkRuleName f n field (ru_Name r) named in
      let '(p_rule, dflt, prog) := check_rule f n field r in
      let p_to := when (negb (String.eqb (ru_To r) End_)) (ref f n (field +:+ ".to") (ru_To r)) in
      let '(p, defaults, progs) := check_rules f n (S i) named rest in
      (p_name ++ p_rule ++ p_to ++ p, (if dflt then 1 else 0) + defaults, prog :: progs)
  end.

Definition validateChoice (f : Flow) (n : Node) : problems * Node :=
  let '(p, defaults, progs) := check_rules f n 0 ∅ (n_Rules n) in
  (when (len (n_Rules n) =? 0) (add (f_Name f) (n_ID n) "rules" None "at least one rule is required") ++
   p ++
   when ((0 <? len (n_Rules n)) && negb (defaults =? 1))
     (add (f_Name f) (n_ID n) "rules" None
        (Sprintf "exactly one default rule is required (got %d)" [AInt defaults])) ++
   when (negb (String.eqb (n_OnError n) OnErrorDefault) && negb (String.eqb (n_OnError n) OnErrorFail))
     (add (f_Name f) (n_ID n) "on_error" None
        (Sprintf "unknown value %q (want %q or omit)" [AStr (n_OnError n); AStr "fail"])),
   set_n_rules progs n).

Definition validateFanout (f : Flow) (n : Node) : problems :=
  (if len (n_Branches n) =? 0 then add (f_Name f) (n_ID n) "branches" None "at least one branch is required"
   else when (MaxBranches <? len (n_Branches n))
          (add (f_Name f) (n_ID n) "branches" None
             (Sprintf "at most %d branches (use a map node for wider fan-outs)" [AInt MaxBranches]))) ++
  concat (imap (fun i b => ref f n (field_at "branches" i "") b) (n_Branches n)) ++
  when (String.eqb (n_Next n) "") (add (f_Name f) (n_ID n) "next" None "is required and must be a join node").

(** The loop over [wait_for]; [seen] holds the ids before it. *)
Fixpoint check_wait_for (f : Flow) (n : Node) (i : nat) (seen : gset string) (ws : list string) : problems :=
  match ws with
  | [] => []
  | w :: rest =>
      let field := field_at "wait_for" i "" in
      ref f n field w ++
      when (bool_decide (w ∈ seen)) (add (f_Name f) (n_ID n) field None (Sprintf "lists %q twice" [AStr w])) ++
      check_wait_for f n (S i) ({[w]} ∪ seen) rest
  end.

Definition validateJoin (f : Flow) (n : Node) : problems :=
  check_wait_for f n 0 ∅ (n_WaitFor n) ++
  (let '(kind, count) := JoinKind n in
   if String.eqb kind JoinAll || String.eqb kind JoinAny then []
   else if String.eqb kind JoinQuorum then
     when (count <=? 0) (add (f_Name f) (n_ID n) "policy" None "quorum:N needs N > 0")
   else if String.eqb kind JoinMin then
     when (count <? 0) (add (f_Name f) (n_ID n) "policy" None "min:N needs N >= 0")
   else add (f_Name f) (n_ID n) "policy" None
          (Sprintf "unknown policy %q (want all, any, quorum:N or min:N)" [AStr (n_Policy n)])).

Definition validateAwait (f : Flow) (n : Node) : problems :=
  check_token (f_Name f) (n_ID n) "signal" "signal name" (n_Signal n) ++
  when (n_Timeout n <=? 0) (add (f_Name f) (n_ID n) "timeout" None "is required and must be positive") ++
  when (is_set (n_OnTimeout n)) (ref f n "on_timeout" (n_OnTimeout n)).

Definition validateSubflow (f : Flow) (n : Node) : problems * Node :=
  let c := n_OnParentClose n in
  let '(p_input, input) := if String.eqb (TrimSpace (n_Input n)) "" then ([], None)
                           else compile_field f n "input" (n_Input n) in
  (check_token (f_Name f) (n_ID n) "flow" "subflow name" (n_Flow n) ++
   when (negb (String.eqb c "" || String.eqb c ParentCloseCancel || String.eqb c ParentCloseAbandon))
     (add (f_Name f) (n_ID n) "on_parent_close" None
        (Sprintf "unknown value %q (want cancel or abandon)" [AStr c])) ++
   p_input, set_n_input input n).

Definition validateMapItems (f : Flow) (n : Node) : problems * Node :=
  if is_set (n_Kind n) && is_set (n_Flow n) then
    (add (f_Name f) (n_ID n) "" None "set kind (a task per item) or flow (a subflow per item), not both", n)
  else if String.eqb (n_Flow n) "" then
    (when (is_set (n_Input n) || is_set (n_OnParentClose n))
       (add (f_Name f) (n_ID n) "" None "input and on_parent_close need flow (a subflow per item)") ++
     check_token (f_Name f) (n_ID n) "kind" "worker kind" (n_Kind n), n)
  else
    let '(p, n') := validateSubflow f n in
    (when ((0 <? n_Timeout n) || bool_decide (is_Some (n_Retry n)) || bool_decide (is_Some (n_OutputSchema n)))
       (add (f_Name f) (n_ID n) "" None
          "timeout, retry and output_schema apply to tasks; with flow, set them on the child flow's nodes") ++
     p, n').

Definition validateMap (f : Flow) (n : Node) : problems * Node :=
  let '(p_items, n) := validateMapItems f n in
  let '(p_over, over) := compile_field f n "over" (n_Over n) in
  let n := set_n_over over n in
  let p_par := when ((n_MaxParallel n <? 0) || (MaxParallel <? n_MaxParallel n))
                 (add (f_Name f) (n_ID n) "max_parallel" None
                    (Sprintf "must be between 0 and %d" [AInt MaxParallel])) in
  if String.eqb (n_Flow n) "" then
    let '(p_policy, n) := validateAttemptPolicy f n in (p_items ++ p_over ++ p_par ++ p_policy, n)
  else (p_items ++ p_over ++ p_par, n).

Definition validateNode (f : Flow) (n : Node) : problems * Node :=
  let p_foreign := rejectForeignFields f n in
  let '(p_meta, n) := encodeMeta f n in
  let '(p, n) :=
    if String.eqb (n_Type n) NodeTask then validateTask f n
    else if String.eqb (n_Type n) NodeChoice then validateChoice f n
    else if String.eqb (n_Type n) NodeFanout then (validateFanout f n, n)
    else if String.eqb (n_Type n) NodeJoin then (validateJoin f n, n)
    else if String.eqb (n_Type n) NodeAwait then (validateAwait f n, n)
    else if String.eqb (n_Type n) NodeMap then validateMap f n
    else if String.eqb (n_Type n) NodeSubflow then validateSubflow f n
    else (add (f_Name f) (n_ID n) "type" None (Sprintf "unknown type %q" [AStr (n_Type n)]), n) in
  (p_foreign ++ p_meta ++ p, n).

(** The body of the loop of [validateNodes]. *)
Definition check_node (f : Flow) (n : Node) : problems * Node :=
  let '(p, n) := validateNode f n in
  (p ++
   when (is_set (n_Next n))
     (ref f n "next" (n_Next n) ++
      when (String.eqb (n_Next n) (n_ID n))
        (add (f_Name f) (n_ID n) "next" None "points to itself (would loop forever with no exit)")) ++
   when (is_set (n_OnFailure n))
     (ref f n "on_failure" (n_OnFailure n) ++
      when (String.eqb (n_OnFailure n) (n_ID n))
        (add (f_Name f) (n_ID n) "on_failure" None "points to itself; to try again, use retry")), n).

(** [validateNodes]: a node is checked against the index only, so the nodes can
    be replaced at the end. *)
Definition validateNodes (f : Flow) : problems * Flow :=
  let checked := check_node f <$> f_Nodes f in
  (concat (fst <$> checked), set_f_Nodes (snd <$> checked) f).

(** ** The graph *)

(** [validateFanBranches] from branch [i] on, threading [branchOf]. *)
Fixpoint check_branches (f : Flow) (n : Node) (i : nat) (bs : list string) (branchOf : gmap string string)
  : result (problems * gmap string string) :=
  match bs with
  | [] => Ok ([], branchOf)
  | b :: rest =>
      let field := field_at "branches" i "" in
      match branchOf !! b with
      | Some owner =>
          let p := if String.eqb owner (n_ID n) then
                     add (f_Name f) (n_ID n) field None (Sprintf "lists branch %q twice" [AStr b])
                   else
                     add (f_Name f) b "" None
                       (Sprintf "is a branch of fanouts %q and %q; a node may belong to at most one fanout"
                          [AStr owner; AStr (n_ID n)]) in
          let? (p', branchOf) := check_branches f n (S i) rest branchOf in Ok (p ++ p', branchOf)
      | None =>
          let? bn := deref (node f b) in
          let p :=
            when (negb (String.eqb (n_Type bn) NodeTask) && negb (String.eqb (n_Type bn) NodeSubflow))
              (add (f_Name f) (n_ID n) field None
                 (Sprintf "branch %q is a %s node; branches must be task or subflow nodes (a subflow can hold any graph)"
                    [AStr b; AStr (n_Type bn)])) ++
            when (is_set (n_OnFailure bn))
              (add (f_Name f) b "on_failure" None
                 (Sprintf "node is a branch of fanout %q; a failed branch is settled by its join's policy - put on_failure on join %q instead"
                    [AStr (n_ID n); AStr (n_Next n)])) ++
            when (is_set (n_Next bn) || (0 <? len (n_Dynamic bn)))
              (add (f_Name f) b "" None
                 (Sprintf "node is a branch of fanout %q and routes onward; a branch does not advance the execution (its join does) - put the successor after the join instead"
                    [AStr (n_ID n)])) in
          let? (p', branchOf) := check_branches f n (S i) rest (<[b := n_ID n]> branchOf) in
          Ok (p ++ p', branchOf)
      end
  end.

(** The first loop of [validateFans], over the fanouts. *)
Definition check_fan (f : Flow) (acc : problems * gmap string string * gmap string string) (n : Node)
  : result (problems * gmap string string * gmap string string) :=
  let '(p, branchOf, joinOf) := acc in
  if negb (String.eqb (n_Type n) NodeFanout) then Ok acc
  else
    let? (p_b, branchOf) := check_branches f n 0 (n_Branches n) branchOf in
    let? j := deref (node f (n_Next n)) in
    if negb (String.eqb (n_Type j) NodeJoin) then
      Ok (p ++ p_b ++ add (f_Name f) (n_ID n) "next" None
            (Sprintf "leads to %q, a %s node; a fanout's next must be a join" [AStr (n_ID j); AStr (n_Type j)]),
          branchOf, joinOf)
    else match fanOf (set_f_joinOf joinOf f) (n_ID j) with
         | Some fan =>
             Ok (p ++ p_b ++ add (f_Name f) (n_ID j) "" None
                   (Sprintf "closes both fanouts %q and %q; use one join per fanout" [AStr fan; AStr (n_ID n)]),
                 branchOf, joinOf)
         | None => Ok (p ++ p_b, branchOf, <[n_ID n := n_ID j]> joinOf)
         end.

Definition validateJoinFan (f : Flow) (n : Node) : result problems :=
  match fanOf f (n_ID n) with
  | None => Ok (add (f_Name f) (n_ID n) "" None
                  "join is not the next of any fanout (it would never be reached)")
  | Some fan =>
      let? fn := deref (node f fan) in
      let waits := len (WaitFor f (n_ID n)) in
      let '(kind, q) := JoinKind n in
      Ok (concat (imap (fun i w =>
            when (negb (bool_decide (w ∈ n_Branches fn)))
              (add (f_Name f) (n_ID n) (field_at "wait_for" i "") None
                 (Sprintf "waits for %q, which is not a branch of its fanout %q (it would never settle)"
                    [AStr w; AStr fan]))) (n_WaitFor n)) ++
          when ((String.eqb kind JoinQuorum || String.eqb kind JoinMin) && (waits <? q))
            (add (f_Name f) (n_ID n) "policy" None
               (Sprintf "%s exceeds the %d awaited branches" [AStr (n_Policy n); AInt waits])))
  end.

Definition validateFans (f : Flow) : result (problems * Flow) :=
  let? (p, branchOf, joinOf) := res_fold (check_fan f) ([], ∅, ∅) (f_Nodes f) in
  let f := f |> set_f_branchOf branchOf |> set_f_joinOf joinOf in
  let? p := res_fold (fun p n =>
    if String.eqb (n_Type n) NodeJoin then let? p' := validateJoinFan f n in Ok (p ++ p') else Ok p)
    p (f_Nodes f) in
  Ok (p, f).

(** One route of [rejectBranchEntry]. *)
Definition check_route (f : Flow) (n : Node) (r : route) : result problems :=
  match f_branchOf f !! rt_to r with
  | Some owner =>
      Ok (add (f_Name f) (n_ID n) (rt_field r) None
            (Sprintf "routes to %q, a branch of fanout %q; route to %q instead"
               [AStr (rt_to r); AStr owner; AStr owner]))
  | None =>
      let? t := deref (node f (rt_to r)) in
      Ok (when (String.eqb (n_Type t) NodeJoin && negb (String.eqb (JoinOf f (n_ID n)) (rt_to r)))
            (add (f_Name f) (n_ID n) (rt_field r) None
               (Sprintf "routes to join %q; a join is reached only through its fanout" [AStr (rt_to r)])))
  end.

Definition rejectBranchEntry (f : Flow) : result problems :=
  res_fold (fun p n =>
    res_fold (fun p r => let? p' := check_route f n r in Ok (p ++ p')) p (routes n)) [] (f_Nodes f).

(** The first inbound transition of every node that has one. *)
Definition inbound (f : Flow) : gmap string string :=
  foldl (fun m n =>
    foldl (fun m to => match m !! to with Some _ => m | None => <[to := n_ID n]> m end) m (successors n))
    ∅ (f_Nodes f).

(** [resolveStart]: the entry node, or the problem. *)
Definition resolveStart (f : Flow) : problems + string :=
  if is_set (f_Start f) then
    match node f (f_Start f) with
    | None => inl (add (f_Name f) "" "start" None (Sprintf "references unknown node %q" [AStr (f_Start f)]))
    | Some n =>
        if bool_decide (is_Some (f_branchOf f !! n_ID n)) || String.eqb (n_Type n) NodeJoin then
          inl (add (f_Name f) "" "start" None
                 (Sprintf "start node %q must not be a fanout branch or a join" [AStr (n_ID n)]))
        else inr (n_ID n)
    end
  else
    let inb := inbound f in
    match filter (fun id => inb !! id = None) (n_ID <$> f_Nodes f) with
    | [s] => inr s
    | [] =>
        inl (add (f_Name f) "" "start" None
               (Sprintf "no start node (every node is routed into: %s); set start: explicitly"
                  (concat ((fun n => [AStr (n_ID n); AStr (default "" (inb !! n_ID n))]) <$> f_Nodes f))))
    | starts =>
        inl (add (f_Name f) "" "start" None
               (Sprintf "multiple start nodes %v; set start: explicitly or connect them" [AStrs starts]))
    end.

(** The targets not seen yet are marked and pushed, one after the other. *)
Definition push_new (acc : gset string * list string) (next : string) : gset string * list string :=
  let '(seen, stack) := acc in
  if bool_decide (next ∈ seen) then acc else ({[next]} ∪ seen, next :: stack).

(** The search of [rejectUnreachable]; the top of the stack is its head. *)
Fixpoint search (fuel : nat) (f : Flow) (seen : gset string) (stack : list string) : result (gset string) :=
  match stack with
  | [] => Ok seen
  | id :: stack =>
      match fuel with
      | O => Err OutOfFuel
      | S fuel =>
          let? n := deref (node f id) in
          let '(seen, stack) := foldl push_new (seen, stack) (successors n) in
          search fuel f seen stack
      end
  end.

(** Every id is pushed at most once, and is the start or some node's successor. *)
Definition search_fuel (f : Flow) : nat := S (length (f_Nodes f ≫= successors)).

Definition rejectUnreachable (f : Flow) : result problems :=
  let? seen := search (search_fuel f) f {[f_startID f]} [f_startID f] in
  Ok (concat ((fun n => when (negb (bool_decide (n_ID n ∈ seen)))
        (add (f_Name f) (n_ID n) "" None
           (Sprintf "unreachable node: not connected to the start node %q" [AStr (f_startID f)])))
      <$> f_Nodes f)).

(** ** Validate *)

(** The checks of the graph, once every node is valid on its own. *)
Definition validate_graph (f : Flow) : result (problems * Flow) :=
  let? (p_fans, f) := validateFans f in
  let? p_entry := rejectBranchEntry f in
  match resolveStart f with
  | inl p_start => Ok (p_fans ++ p_entry ++ p_start, f)
  | inr start =>
      let f := set_f_startID start f in
      let? p_dead := rejectUnreachable f in
      Ok (p_fans ++ p_entry ++ p_dead, f)
  end.

(** [Validate]: the problems found (none: the definition is valid) and the
    definition with its indexes. *)
Definition Validate (f : Flow) : result (problems * Flow) :=
  let v := TrimSpace (f_Version f) in
  let p_head :=
    check_token (f_Name f) "" "name" "flow name" (f_Name f) ++
    when (is_set v && negb (String.eqb v SupportedVersion))
      (add (f_Name f) "" "version" None
         (Sprintf "unsupported version %q (this build supports %q)" [AStr (f_Version f); AStr SupportedVersion])) in
  if len (f_Nodes f) =? 0 then Ok (p_head ++ add (f_Name f) "" "nodes" None "no nodes", f)
  else
    let '(p_ids, f) := indexNodes f in
    let '(p_flow, f) := validateFlowLevel f in
    let '(p_nodes, f) := validateNodes f in
    let p := p_head ++ p_ids ++ p_flow ++ p_nodes in
    if bool_decide (p <> []) then Ok (p, f)
    else validate_graph f.
End Validate.
