(* ===== verification/FlowValid.v ===== *)
(** * What validation guarantees

    [valid f]: the properties of a definition the fold relies on.  A definition
    that [Validate] finds no problem in has them, and [Validate] itself never
    panics, whatever the definition. *)

From S2P Require Import Prelude Json GoStrings Names Expr Flow FlowValidate.

(** ** Lists of problems *)

Lemma add_not_nil fl nd field cause msg : add fl nd field cause msg <> [].
Proof. done. Qed.

Lemma when_nil b p : p <> [] -> when b p = [] -> b = false.
Proof. by destruct b. Qed.

Lemma concat_nil {A} (l : list (list A)) : concat l = [] -> forall x, x ∈ l -> x = [].
Proof.
  induction l as [|y l IH]; simpl; intros Hc x Hx; [by apply elem_of_nil in Hx|].
  apply app_eq_nil in Hc as [-> Hc]. apply elem_of_cons in Hx as [->|Hx]; eauto.
Qed.

Lemma concat_fmap_nil {A B} (g : A -> list B) l : concat (g <$> l) = [] -> forall x, x ∈ l -> g x = [].
Proof. intros Hc x Hx. apply (concat_nil _ Hc). by apply list_elem_of_fmap_2. Qed.

Lemma concat_imap_nil {A B} (g : nat -> A -> list B) l :
  concat (imap g l) = [] -> forall i x, l !! i = Some x -> g i x = [].
Proof.
  intros Hc i x Hx. apply (concat_nil _ Hc). apply list_elem_of_lookup. exists i.
  by rewrite list_lookup_imap, Hx.
Qed.

Lemma check_token_nil fl nd field what s : check_token fl nd field what s = [] -> ValidToken s = true.
Proof. unfold check_token, CheckToken. by destruct (ValidToken s). Qed.

(** Split a list of problems that is empty into its parts. *)
Ltac no_problems :=
  repeat match goal with
  | H : _ ++ _ = [] |- _ => apply app_eq_nil in H as [? H]
  | H : when _ (add _ _ _ _ _) = [] |- _ => apply when_nil in H; [|apply add_not_nil]
  | H : when _ (check_token _ _ _ _ _) = [] |- _ => unfold when in H
  | H : check_token _ _ _ _ _ = [] |- _ => apply check_token_nil in H
  | H : add _ _ _ _ _ = [] |- _ => by apply add_not_nil in H
  end.

(** ** The definition is not changed *)

(** A node without its compiled parts. *)
Definition bare (n : Node) : Node :=
  n |> set_n_rules [] |> set_n_over None |> set_n_input None |> set_n_conc None |> set_n_schema None
    |> set_n_meta None.

(** ** Validity *)

Definition edge (f : Flow) (a b : string) : Prop := exists n, node f a = Some n /\ b ∈ successors n.

Definition retry_fits (r : Retry) : Prop :=
  0 <= r_MaxAttempts r <= MaxRetryAttempts /\ 0 <= r_Delay r /\ 0 <= r_MaxDelay r.

(** A branch of fanout [fan]: a task or a subflow that leads nowhere by itself. *)
Definition branch_ok (f : Flow) (fan b : string) : Prop :=
  exists bn, node f b = Some bn /\ (n_Type bn = NodeTask \/ n_Type bn = NodeSubflow) /\
    n_Next bn = "" /\ n_OnFailure bn = "" /\ n_Dynamic bn = [] /\ f_branchOf f !! b = Some fan.

Record fanout_ok (f : Flow) (n : Node) : Prop := {
  fo_branches : n_Branches n <> [] /\ NoDup (n_Branches n) /\ len (n_Branches n) <= MaxBranches;
  fo_branch b : b ∈ n_Branches n -> branch_ok f (n_ID n) b;
  fo_join : exists j, node f (n_Next n) = Some j /\ n_Type j = NodeJoin /\
    f_joinOf f !! n_ID n = Some (n_ID j) }.

(** A join closes one fanout, waits for branches of it, and asks for no more of
    them than there are. *)
Definition join_ok (f : Flow) (n : Node) : Prop :=
  exists fan fn, f_joinOf f !! fan = Some (n_ID n) /\ node f fan = Some fn /\ n_Type fn = NodeFanout /\
    (forall fan', f_joinOf f !! fan' = Some (n_ID n) -> fan' = fan) /\
    WaitFor f (n_ID n) <> [] /\ NoDup (WaitFor f (n_ID n)) /\ WaitFor f (n_ID n) ⊆ n_Branches fn /\
    (let '(kind, q) := JoinKind n in
     kind = JoinAll \/ kind = JoinAny \/
     kind = JoinQuorum /\ 0 < q <= len (WaitFor f (n_ID n)) \/
     kind = JoinMin /\ 0 <= q <= len (WaitFor f (n_ID n))).

(** Exactly one default rule; every other rule has its program. *)
Definition choice_ok (n : Node) : Prop :=
  length (n_rules n) = length (n_Rules n) /\
  length (filter (fun r => ru_Default r = true) (n_Rules n)) = 1%nat /\
  forall i r, n_Rules n !! i = Some r -> ru_Default r = false -> exists p, n_rules n !! i = Some (Some p).

Definition node_types : list string :=
  [NodeTask; NodeChoice; NodeFanout; NodeJoin; NodeAwait; NodeMap; NodeSubflow].

Record node_ok (f : Flow) (n : Node) : Prop := {
  no_type : n_Type n ∈ node_types;
  no_routes r : r ∈ routes n -> is_Some (node f (rt_to r));
  no_self : n_Next n <> n_ID n /\ (n_OnFailure n = "" \/ n_OnFailure n <> n_ID n);
  no_retry r : n_Retry n = Some r -> retry_fits r;
  no_choice : n_Type n = NodeChoice -> choice_ok n;
  no_fanout : n_Type n = NodeFanout -> fanout_ok f n;
  no_join : n_Type n = NodeJoin -> join_ok f n;
  no_await : n_Type n = NodeAwait -> 0 < n_Timeout n /\ ValidToken (n_Signal n) = true;
  no_map : n_Type n = NodeMap -> is_Some (n_over n) /\ 0 <= n_MaxParallel n <= MaxParallel;
  no_subflow : n_Type n = NodeSubflow -> ValidToken (n_Flow n) = true }.

Record valid (f : Flow) : Prop := {
  va_name : ValidToken (f_Name f) = true;
  va_id id n : node f id = Some n -> n_ID n = id /\ n ∈ f_Nodes f /\ ValidToken id = true;
  va_node n : n ∈ f_Nodes f -> node f (n_ID n) = Some n;
  va_ok n : n ∈ f_Nodes f -> node_ok f n;
  va_entry n r : n ∈ f_Nodes f -> r ∈ routes n -> f_branchOf f !! rt_to r = None /\
    forall t, node f (rt_to r) = Some t -> n_Type t = NodeJoin -> f_joinOf f !! n_ID n = Some (rt_to r);
  va_start : exists n, node f (f_startID f) = Some n /\ n_Type n <> NodeJoin /\ f_branchOf f !! f_startID f = None;
  va_reach n : n ∈ f_Nodes f -> rtc (edge f) (f_startID f) (n_ID n);
  va_budget : map_Forall (fun _ b => f_nonpos b = false) (f_Budget f);
  va_attrs k : is_Some (f_SearchAttributes f !! k) -> is_Some (f_attrs f !! k);
  va_channels name c : f_Channels f !! name = Some c ->
    default_fits (ReducerOrDefault c) (ch_Default c) = Some true }.

Section Sound.
Context (expr_Compile : string -> bool -> Text + list Op) (schema_Compile : Json -> option Text).

Local Abbreviation check_node := (check_node expr_Compile schema_Compile).
Local Abbreviation validateNode := (validateNode expr_Compile schema_Compile).

(** ** Nodes *)

Lemma validateAttemptPolicy_bare f n : bare (validateAttemptPolicy schema_Compile f n).2 = bare n.
Proof. unfold validateAttemptPolicy. repeat case_match; done. Qed.

Lemma validateTask_bare f n : bare (validateTask expr_Compile schema_Compile f n).2 = bare n.
Proof.
  unfold validateTask. pose proof (validateAttemptPolicy_bare f n) as HA.
  destruct (validateAttemptPolicy _ _ _) as [p n1]. simpl in HA. rewrite <- HA. repeat case_match; done.
Qed.

Lemma validateChoice_bare f n : bare (validateChoice expr_Compile f n).2 = bare n.
Proof. unfold validateChoice. repeat case_match; done. Qed.

Lemma validateSubflow_bare f n : bare (validateSubflow expr_Compile f n).2 = bare n.
Proof. unfold validateSubflow. repeat case_match; done. Qed.

Lemma validateMapItems_bare f n : bare (validateMapItems expr_Compile f n).2 = bare n.
Proof.
  unfold validateMapItems. pose proof (validateSubflow_bare f n) as HS.
  destruct (validateSubflow _ _ _). repeat case_match; done.
Qed.

Lemma validateMap_bare f n : bare (validateMap expr_Compile schema_Compile f n).2 = bare n.
Proof.
  unfold validateMap. pose proof (validateMapItems_bare f n) as HI.
  destruct (validateMapItems _ _ _) as [p n1]. simpl in HI. rewrite <- HI. clear HI.
  destruct (compile_field _ _ _ _ _) as [p' over].
  pose proof (validateAttemptPolicy_bare f (set_n_over over n1)) as HA.
  destruct (validateAttemptPolicy _ _ _) as [p2 n2]. simpl in HA. case_match; done.
Qed.

Lemma encodeMeta_bare f n : bare (encodeMeta f n).2 = bare n.
Proof. unfold encodeMeta. repeat case_match; done. Qed.

Lemma validateNode_bare f n : bare (validateNode f n).2 = bare n.
Proof.
  unfold FlowValidate.validateNode. pose proof (encodeMeta_bare f n) as HM.
  destruct (encodeMeta f n) as [p n1]. simpl in HM. rewrite <- HM.
  pose proof (validateTask_bare f n1). pose proof (validateChoice_bare f n1).
  pose proof (validateMap_bare f n1). pose proof (validateSubflow_bare f n1).
  repeat match goal with |- context [String.eqb (n_Type n1) ?t] => destruct (String.eqb (n_Type n1) t) end;
    repeat case_match; simpl in *; congruence.
Qed.

Lemma check_node_bare f n : bare (check_node f n).2 = bare n.
Proof.
  unfold FlowValidate.check_node. pose proof (validateNode_bare f n). by destruct (validateNode f n).
Qed.

(** A field of the definition, read off a node with the same definition. *)
Lemma bare_fields n n' :
  bare n' = bare n ->
  n_ID n' = n_ID n /\ n_Type n' = n_Type n /\ n_Next n' = n_Next n /\ n_OnFailure n' = n_OnFailure n /\
  n_Retry n' = n_Retry n /\ n_Dynamic n' = n_Dynamic n /\ n_Rules n' = n_Rules n /\
  n_Branches n' = n_Branches n /\ n_WaitFor n' = n_WaitFor n /\ n_Policy n' = n_Policy n /\
  n_OnTimeout n' = n_OnTimeout n /\ n_Timeout n' = n_Timeout n /\ n_Signal n' = n_Signal n /\
  n_MaxParallel n' = n_MaxParallel n /\ n_Flow n' = n_Flow n.
Proof. destruct n, n'. cbn. intros [=]. naive_solver. Qed.

Lemma ref_nil f n field id : ref f n field id = [] -> is_Some (node f id).
Proof. unfold ref. by destruct (String.eqb id ""), (node f id). Qed.

Lemma merge_sort_nil (l : list string) : merge_sort str_le l = [] -> l = [].
Proof. intros Hm. apply Permutation_nil. rewrite <- Hm. apply merge_sort_Permutation. Qed.

Lemma omap_nil {A B} (g : A -> option B) l x : omap g l = [] -> x ∈ l -> g x = None.
Proof.
  intros Ho Hx. destruct (g x) as [y|] eqn:E; [|done].
  assert (y ∈ omap g l) as Hy by (apply list_elem_of_omap; eauto). rewrite Ho in Hy. by apply elem_of_nil in Hy.
Qed.

(** A field the type does not allow is not set. *)
Definition allowed_only (al : list string) (fields : list (string * bool)) : bool :=
  forallb (fun '(field, b) => negb b || existsb (String.eqb field) al) fields.

Lemma allowed_one (al : list string) field b :
  (if b && negb (bool_decide (field ∈ al)) then Some field else None) = None ->
  negb b || existsb (String.eqb field) al = true.
Proof.
  destruct b; [|done]. case_bool_decide as Hd; [|done]. intros _. apply existsb_exists. exists field.
  split; [|apply String.eqb_refl]. by apply list_elem_of_In.
Qed.

Lemma allowed_all (al : list string) fs : foreign_fields al fs = [] -> allowed_only al fs = true.
Proof.
  intros E. unfold foreign_fields in E. apply merge_sort_nil in E. apply forallb_forall.
  intros [field b] Hin%list_elem_of_In. apply allowed_one, (omap_nil _ _ _ E Hin).
Qed.

Lemma foreign_unset f n al :
  rejectForeignFields f n = [] -> allowedFields (n_Type n) = Some al -> allowed_only al (fieldSet n) = true.
Proof.
  intros Hr Hal. apply allowed_all. revert Hr. unfold rejectForeignFields. rewrite Hal.
  by destruct (foreign_fields al (fieldSet n)).
Qed.

Lemma len_pos_nil {A} (l : list A) : (0 <? len l) = false -> l = [].
Proof. destruct l as [|x l]; [done|]. intros Hl%Z.ltb_ge. unfold len in Hl. cbn [length] in Hl. lia. Qed.

Lemma is_set_false s : is_set s = false -> s = "".
Proof. unfold is_set. by destruct (String.eqb_spec s ""). Qed.

(** Fields of one type only: unset on the nodes of any other. *)
Lemma foreign_fields_unset f n :
  rejectForeignFields f n = [] -> n_Type n ∈ node_types ->
  (n_Type n <> NodeChoice -> n_Rules n = []) /\ (n_Type n <> NodeTask -> n_Dynamic n = []) /\
  (n_Type n <> NodeAwait -> n_OnTimeout n = "") /\ (n_Type n <> NodeFanout -> n_Branches n = []) /\
  (n_Type n <> NodeTask -> n_Type n <> NodeMap -> n_Retry n = None).
Proof.
  intros Hr Ht. pose proof (foreign_unset f n) as HF.
  assert (Hnone : bool_decide (is_Some (n_Retry n)) = false -> n_Retry n = None).
  { intros Hd. apply bool_decide_eq_false in Hd. by apply eq_None_not_Some. }
  revert HF Ht. generalize (n_Type n). intros ty HF Ht.
  unfold node_types in Ht. rewrite !elem_of_cons, elem_of_nil in Ht.
  destruct Ht as [->|[->|[->|[->|[->|[->|[->|[]]]]]]]]; specialize (HF _ Hr eq_refl);
    unfold allowed_only, fieldSet in HF; cbn [forallb existsb String.eqb Ascii.eqb Bool.eqb andb orb negb] in HF;
    rewrite ?orb_true_r, ?orb_false_r, !andb_true_iff, ?negb_true_iff in HF;
    repeat split; intros; try done; try apply len_pos_nil; try apply is_set_false; try apply Hnone; tauto.
Qed.

(** What the checks of a node by itself establish. *)
Record node_checked (f : Flow) (n : Node) : Prop := {
  nc_type : n_Type n ∈ node_types;
  nc_routes r : r ∈ routes n -> is_Some (node f (rt_to r));
  nc_self : n_Next n = "" \/ n_Next n <> n_ID n;
  nc_self_fail : n_OnFailure n = "" \/ n_OnFailure n <> n_ID n;
  nc_retry r : n_Retry n = Some r -> retry_fits r;
  nc_choice : n_Type n = NodeChoice -> choice_ok n;
  nc_branches b : b ∈ n_Branches n -> is_Some (node f b);
  nc_fanout : n_Type n = NodeFanout -> n_Branches n <> [] /\ len (n_Branches n) <= MaxBranches /\ n_Next n <> "";
  nc_join : n_Type n = NodeJoin -> NoDup (n_WaitFor n) /\
    (let '(kind, q) := JoinKind n in
     kind = JoinAll \/ kind = JoinAny \/ kind = JoinQuorum /\ 0 < q \/ kind = JoinMin /\ 0 <= q);
  nc_await : n_Type n = NodeAwait -> 0 < n_Timeout n /\ ValidToken (n_Signal n) = true;
  nc_map : n_Type n = NodeMap -> is_Some (n_over n) /\ 0 <= n_MaxParallel n <= MaxParallel;
  nc_subflow : n_Type n = NodeSubflow -> ValidToken (n_Flow n) = true }.

Lemma validateRetry_nil f n r : validateRetry f n = [] -> n_Retry n = Some r -> retry_fits r.
Proof.
  unfold validateRetry, retry_fits. intros Hv Hr. rewrite Hr in Hv. no_problems.
  repeat match goal with H : (_ || _) = false |- _ => apply orb_false_iff in H as [? ?] end. lia.
Qed.

Lemma validateAttemptPolicy_nil f n n' r :
  validateAttemptPolicy schema_Compile f n = ([], n') -> n_Retry n = Some r -> retry_fits r.
Proof.
  unfold validateAttemptPolicy. intros Hv Hr.
  destruct (n_OutputSchema n) as [doc|]; [destruct (schema_Compile doc)|]; injection Hv as Hp _; no_problems;
    by eapply validateRetry_nil.
Qed.

Lemma check_rules_nil f n i named rules defaults progs :
  check_rules expr_Compile f n i named rules = ([], defaults, progs) ->
  length progs = length rules /\ defaults = len (filter (fun r => ru_Default r = true) rules) /\
  forall j r, rules !! j = Some r ->
    (ru_Default r = false -> exists p, progs !! j = Some (Some p)) /\
    (ru_To r = End_ \/ is_Some (node f (ru_To r))).
Proof.
  revert i named defaults progs. induction rules as [|r rules IH]; intros i named defaults progs; cbn [check_rules].
  { intros [= <- <-]. split; [done|]. split; [done|]. intros j r Hj. by rewrite lookup_nil in Hj. }
  destruct (checkRuleName _ _ _ _ _) as [p_name named']. destruct (check_rule _ _ _ _ _) as [[p_rule dflt] prog] eqn:Er.
  destruct (check_rules _ _ _ _ _ rules) as [[p ds] ps] eqn:Eq. intros [= Hp <- <-]. no_problems. subst.
  destruct (IH _ _ _ _ Eq) as (Hlen & -> & Hall).
  assert (Hr : dflt = ru_Default r /\ (ru_Default r = false -> is_Some prog)).
  { revert Er. unfold check_rule. destruct (ru_Default r), (String.eqb _ ""); intros Hx.
    1, 2, 3: by inversion Hx.
    destruct (CompilePredicate _ _); by inversion Hx. }
  destruct Hr as [-> Hprog]. split; [simpl; lia|]. split.
  - rewrite filter_cons. unfold len. destruct (ru_Default r); [rewrite decide_True|rewrite decide_False]; simpl; lia || done.
  - intros [|j] x Hx; simpl in Hx; [|by apply Hall]. injection Hx as <-. split.
    + intros Hd. destruct (Hprog Hd) as [q ->]. by exists q.
    + match goal with H : when _ (ref _ _ _ _) = [] |- _ => revert H end.
      destruct (String.eqb_spec (ru_To r) End_) as [E|]; [by left|]. intros Href. right. exact (ref_nil _ _ _ _ Href).
Qed.

Lemma check_wait_for_nil f n i seen ws :
  check_wait_for f n i seen ws = [] -> NoDup ws /\ forall w, w ∈ ws -> w ∉ seen.
Proof.
  revert i seen. induction ws as [|w ws IH]; intros i seen; cbn [check_wait_for].
  { intros _. split; [constructor|]. intros w Hw. by apply elem_of_nil in Hw. }
  intros Hp. no_problems. destruct (IH _ _ Hp) as [Hnd Hns].
  match goal with H : bool_decide _ = false |- _ => apply bool_decide_eq_false in H as Hw end.
  split; [constructor; [|done]; intros Hin; apply (Hns _ Hin); set_solver|].
  intros x [->|Hx]%elem_of_cons; [done|]. specialize (Hns _ Hx). set_solver.
Qed.

(** *** One lemma per type of node *)

Lemma imap_ref_nil f n name ids id :
  concat (imap (fun i d => ref f n (field_at name i "") d) ids) = [] -> id ∈ ids -> is_Some (node f id).
Proof. intros Hc [i Hi]%list_elem_of_lookup. eapply ref_nil, (concat_imap_nil _ _ Hc i id Hi). Qed.

Lemma validateTask_nil f n n' :
  validateTask expr_Compile schema_Compile f n = ([], n') ->
  (forall r, n_Retry n = Some r -> retry_fits r) /\ forall d, d ∈ n_Dynamic n -> is_Some (node f d).
Proof.
  unfold validateTask. pose proof (validateAttemptPolicy_bare f n) as HB.
  destruct (validateAttemptPolicy _ f n) as [p1 n1] eqn:Ep. apply bare_fields in HB. simpl in HB.
  destruct HB as (_ & _ & _ & _ & _ & Hdyn & _).
  destruct (match n_Concurrency n1 with Some _ => _ | None => _ end) as [p_conc conc].
  intros [= Hp _]. no_problems. subst. split.
  - intros r. by eapply validateAttemptPolicy_nil.
  - intros d Hd. rewrite <- Hdyn in Hd. by eapply imap_ref_nil.
Qed.

Lemma validateChoice_nil f n n' :
  validateChoice expr_Compile f n = ([], n') ->
  choice_ok n' /\ forall r, r ∈ n_Rules n -> ru_To r = End_ \/ is_Some (node f (ru_To r)).
Proof.
  unfold validateChoice. destruct (check_rules _ _ _ _ _ _) as [[p ds] progs] eqn:Eq.
  intros [= Hp <-]. no_problems. subst. destruct (check_rules_nil _ _ _ _ _ _ _ Eq) as (Hlen & -> & Hall). split.
  - unfold choice_ok. simpl. split; [done|]. split; [|intros i r Hi; by apply Hall].
    match goal with H : (_ =? 0) = false, H' : _ && _ = false |- _ =>
      apply andb_false_iff in H'; unfold len in *; lia end.
  - intros r [i Hi]%list_elem_of_lookup. by apply (Hall i r).
Qed.

Lemma validateFanout_nil f n :
  validateFanout f n = [] ->
  n_Branches n <> [] /\ len (n_Branches n) <= MaxBranches /\ n_Next n <> "" /\
  forall b, b ∈ n_Branches n -> is_Some (node f b).
Proof.
  unfold validateFanout. destruct (Z.eqb_spec (len (n_Branches n)) 0) as [|Hlen]; intros Hp; no_problems.
  split; [intros E; by rewrite E in Hlen|]. split; [lia|]. split; [|intros b; by eapply imap_ref_nil].
  by apply String.eqb_neq.
Qed.

Lemma validateJoin_nil f n :
  validateJoin f n = [] ->
  NoDup (n_WaitFor n) /\
  (let '(kind, q) := JoinKind n in
   kind = JoinAll \/ kind = JoinAny \/ kind = JoinQuorum /\ 0 < q \/ kind = JoinMin /\ 0 <= q).
Proof.
  unfold validateJoin. intros Hp. no_problems. split; [by eapply check_wait_for_nil|].
  destruct (JoinKind n) as [kind q].
  destruct (String.eqb_spec kind JoinAll); [by left|]. destruct (String.eqb_spec kind JoinAny); [by right; left|].
  simpl in Hp. destruct (String.eqb_spec kind JoinQuorum); [no_problems; right; right; left; split; [done|lia]|].
  destruct (String.eqb_spec kind JoinMin); no_problems. right; right; right. split; [done|lia].
Qed.

Lemma validateAwait_nil f n :
  validateAwait f n = [] ->
  0 < n_Timeout n /\ ValidToken (n_Signal n) = true /\ (n_OnTimeout n = "" \/ is_Some (node f (n_OnTimeout n))).
Proof.
  unfold validateAwait. intros Hp. no_problems. split; [lia|]. split; [done|].
  destruct (is_set (n_OnTimeout n)) eqn:E; [right; by eapply ref_nil|left; by apply is_set_false].
Qed.

Lemma validateSubflow_nil f n n' :
  validateSubflow expr_Compile f n = ([], n') -> ValidToken (n_Flow n) = true.
Proof.
  unfold validateSubflow. destruct (if String.eqb _ "" then _ else _). intros [= Hp _]. by no_problems.
Qed.

Lemma validateMapItems_nil f n n' :
  validateMapItems expr_Compile f n = ([], n') -> n_Flow n = "" \/ n_Retry n = None.
Proof.
  unfold validateMapItems. destruct (is_set _ && is_set _); [intros [= Hp]|].
  destruct (String.eqb_spec (n_Flow n) ""); [by left|]. destruct (validateSubflow _ _ _).
  intros [= Hp _]. no_problems. right.
  repeat match goal with H : (_ || _) = false |- _ => apply orb_false_iff in H as [? ?] end.
  apply eq_None_not_Some. by eapply bool_decide_eq_false_1.
Qed.

Lemma validateMap_nil f n n' :
  validateMap expr_Compile schema_Compile f n = ([], n') ->
  is_Some (n_over n') /\ 0 <= n_MaxParallel n <= MaxParallel /\ forall r, n_Retry n = Some r -> retry_fits r.
Proof.
  unfold validateMap. pose proof (validateMapItems_bare f n) as HB.
  destruct (validateMapItems _ f n) as [p1 n1] eqn:Ei. apply bare_fields in HB. simpl in HB.
  destruct HB as (_ & _ & _ & _ & Hretry & _ & _ & _ & _ & _ & _ & _ & _ & Hpar & Hflow).
  destruct (compile_field _ _ _ _ _) as [p2 over] eqn:Eo.
  assert (Hover : p2 = [] -> is_Some over).
  { revert Eo. unfold compile_field. destruct (CompileValue _ _); intros [= <- <-]; [|eauto]. done. }
  pose proof (validateAttemptPolicy_nil f (set_n_over over n1)) as HA.
  assert (Ho : n_over (validateAttemptPolicy schema_Compile f (set_n_over over n1)).2 = over).
  { unfold validateAttemptPolicy. repeat case_match; done. }
  destruct (validateAttemptPolicy _ _ _) as [p3 n3]. simpl in Ho, HA.
  cbn [set_n_over n_Flow n_MaxParallel]. rewrite Hflow, Hpar.
  destruct (String.eqb_spec (n_Flow n) "") as [Hf|Hf]; intros [= Hp <-]; no_problems; subst;
    repeat match goal with H : (_ || _) = false |- _ => apply orb_false_iff in H as [? ?] end.
  - split; [auto|]. split; [lia|]. intros r Hr. apply (HA n3 r); [done|]. by rewrite Hretry.
  - split; [by apply Hover|]. split; [lia|]. intros r Hr. apply validateMapItems_nil in Ei as [?|?]; congruence.
Qed.

(** *** Routes *)

Lemma elem_of_when_route (b : bool) (x r : route) : r ∈ (if b then [] else [x]) -> b = false /\ r = x.
Proof. destruct b; [by intros ?%elem_of_nil|]. by intros ?%list_elem_of_singleton. Qed.

(** Where the routes of a node come from. *)
Lemma routes_inv n r :
  r ∈ routes n ->
  (rt_to r = n_Next n /\ n_Next n <> "") \/
  (exists ru, ru ∈ n_Rules n /\ ru_To ru <> End_ /\ rt_to r = ru_To ru) \/
  (rt_to r = n_OnTimeout n /\ n_OnTimeout n <> "") \/
  (rt_to r = n_OnFailure n /\ n_OnFailure n <> "") \/
  rt_to r ∈ n_Dynamic n.
Proof.
  unfold routes. rewrite !elem_of_app. intros [Hr|[Hr|[Hr|[Hr|Hr]]]].
  - apply elem_of_when_route in Hr as [?%String.eqb_neq ->]. by left.
  - right; left. apply list_elem_of_In, in_concat in Hr as (l & Hl%list_elem_of_In & Hr%list_elem_of_In).
    apply list_elem_of_lookup in Hl as [i Hi]. rewrite list_lookup_imap in Hi.
    destruct (n_Rules n !! i) as [ru|] eqn:E; [|done]. simpl in Hi. injection Hi as <-.
    apply elem_of_when_route in Hr as [?%String.eqb_neq ->]. exists ru.
    split; [by eapply list_elem_of_lookup_2|done].
  - right; right; left. apply elem_of_when_route in Hr as [?%String.eqb_neq ->]. done.
  - do 3 right; left. apply elem_of_when_route in Hr as [?%String.eqb_neq ->]. done.
  - do 4 right. apply list_elem_of_lookup in Hr as [i Hi]. rewrite list_lookup_imap in Hi.
    destruct (n_Dynamic n !! i) eqn:E; [|done]. simpl in Hi. injection Hi as <-. by eapply list_elem_of_lookup_2.
Qed.

Lemma routes_next n : n_Next n <> "" -> exists r, r ∈ routes n /\ rt_to r = n_Next n.
Proof.
  intros Hn. unfold routes. destruct (String.eqb_spec (n_Next n) ""); [done|].
  eexists. split; [apply elem_of_app; left; by apply list_elem_of_singleton|done].
Qed.

(** *** The checks of a node by itself *)

Record type_checked (f : Flow) (n : Node) : Prop := {
  tc_type : n_Type n ∈ node_types;
  tc_task : n_Type n = NodeTask -> (forall r, n_Retry n = Some r -> retry_fits r) /\
    forall d, d ∈ n_Dynamic n -> is_Some (node f d);
  tc_choice : n_Type n = NodeChoice -> choice_ok n /\
    forall r, r ∈ n_Rules n -> ru_To r = End_ \/ is_Some (node f (ru_To r));
  tc_fanout : n_Type n = NodeFanout -> n_Branches n <> [] /\ len (n_Branches n) <= MaxBranches /\ n_Next n <> "" /\
    forall b, b ∈ n_Branches n -> is_Some (node f b);
  tc_join : n_Type n = NodeJoin -> NoDup (n_WaitFor n) /\
    (let '(kind, q) := JoinKind n in
     kind = JoinAll \/ kind = JoinAny \/ kind = JoinQuorum /\ 0 < q \/ kind = JoinMin /\ 0 <= q);
  tc_await : n_Type n = NodeAwait -> 0 < n_Timeout n /\ ValidToken (n_Signal n) = true /\
    (n_OnTimeout n = "" \/ is_Some (node f (n_OnTimeout n)));
  tc_map : n_Type n = NodeMap -> is_Some (n_over n) /\ 0 <= n_MaxParallel n <= MaxParallel /\
    forall r, n_Retry n = Some r -> retry_fits r;
  tc_subflow : n_Type n = NodeSubflow -> ValidToken (n_Flow n) = true }.

Lemma JoinKind_policy n n' : n_Policy n' = n_Policy n -> JoinKind n' = JoinKind n.
Proof. unfold JoinKind. by intros ->. Qed.

(** The facts of one type of node; the others are void. *)
Ltac one_type H :=
  split; rewrite ?H; [unfold node_types; rewrite !elem_of_cons; tauto|intros E; first [discriminate E | clear E]..].

Lemma validateNode_nil f n n' :
  validateNode f n = ([], n') -> rejectForeignFields f n = [] /\ type_checked f n'.
Proof.
  intros Hv. pose proof (validateNode_bare f n) as HB'. rewrite Hv in HB'. simpl in HB'. revert Hv.
  unfold FlowValidate.validateNode. pose proof (encodeMeta_bare f n) as HB.
  destruct (encodeMeta f n) as [p_meta n1]. simpl in HB.
  set (r := if String.eqb (n_Type n1) NodeTask then _ else _). destruct r as [p n2] eqn:Er. subst r.
  intros [= Hp <-]. no_problems. subst. split; [done|].
  assert (HB2 : bare n2 = bare n1) by congruence. apply bare_fields in HB2.
  destruct HB2 as (_ & Fty & Fnext & _ & Fretry & Fdyn & Frules & Fbr & Fwait & Fpol & Fto & Ftime & Fsig & Fpar & Fflow).
  pose proof (JoinKind_policy _ _ Fpol) as FJ.
  repeat match type of Er with
  | (if String.eqb ?a ?b then _ else _) = _ => destruct (String.eqb_spec a b) as [Hty|_]
  end; try (injection Er as Er <-); [..|by apply add_not_nil in Er].
  all: one_type (eq_trans Fty Hty); rewrite ?Fnext, ?Fretry, ?Fdyn, ?Frules, ?Fbr, ?Fwait, ?Fto, ?Ftime, ?Fsig, ?Fpar, ?Fflow, ?FJ;
    eauto using validateTask_nil, validateChoice_nil, validateFanout_nil, validateJoin_nil, validateAwait_nil,
      validateMap_nil, validateSubflow_nil.
Qed.

Lemma when_ref_nil f n field id msg :
  when (is_set id) (ref f n field id ++
    when (String.eqb id (n_ID n)) (add (f_Name f) (n_ID n) field None msg)) = [] ->
  (id = "" \/ is_Some (node f id)) /\ (id = "" \/ id <> n_ID n).
Proof.
  destruct (is_set id) eqn:E; [|apply is_set_false in E; by auto]. intros Hp. simpl in Hp. no_problems.
  split; right; [by eapply ref_nil|]. by apply String.eqb_neq.
Qed.

Lemma check_node_nil f n n' : check_node f n = ([], n') -> node_checked f n'.
Proof.
  unfold FlowValidate.check_node. pose proof (validateNode_bare f n) as HB.
  destruct (validateNode f n) as [p n2] eqn:Ev. simpl in HB. intros [= Hp <-]. apply app_eq_nil in Hp as [-> Hp].
  apply app_eq_nil in Hp as [[Hnext Hself]%when_ref_nil [Hfail Hself2]%when_ref_nil].
  apply validateNode_nil in Ev as (Hforeign & []).
  pose proof (bare_fields _ _ HB) as (_ & Ety & _ & _ & Eretry & Edyn & Erules & Ebr & _ & _ & Eto & _).
  destruct (foreign_fields_unset f n Hforeign) as (Urules & Udyn & Uto & Ubr & Uretry); [by rewrite <- Ety|].
  rewrite <- Ety, <- ?Erules, <- ?Edyn, <- ?Eto, <- ?Ebr, <- ?Eretry in *. clear HB Hforeign Ety.
  split; try done.
  - intros r Hr. destruct (routes_inv _ _ Hr) as [[-> ?]|[(ru & Hru & ? & ->)|[[-> ?]|[[-> ?]|Hd]]]].
    + by destruct Hnext.
    + destruct (decide (n_Type n2 = NodeChoice)) as [E|Hne]; [|by rewrite Urules in Hru; [apply elem_of_nil in Hru|]].
      by destruct (tc_choice0 E) as [_ [?|?]%(fun X => X ru Hru)].
    + destruct (decide (n_Type n2 = NodeAwait)) as [E|Hne]; [|by rewrite Uto in *].
      by destruct (tc_await0 E) as (_ & _ & [?|?]).
    + by destruct Hfail.
    + destruct (decide (n_Type n2 = NodeTask)) as [E|Hne]; [|by rewrite Udyn in Hd; [apply elem_of_nil in Hd|]].
      by apply (tc_task0 E).
  - intros r Hr. destruct (decide (n_Type n2 = NodeTask)) as [E|Hne]; [by apply (tc_task0 E)|].
    destruct (decide (n_Type n2 = NodeMap)) as [E|Hne2]; [by apply (tc_map0 E)|]. by rewrite Uretry in Hr.
  - intros E. by apply tc_choice0.
  - intros b Hb. destruct (decide (n_Type n2 = NodeFanout)) as [E|Hne]; [by apply (tc_fanout0 E)|].
    rewrite Ubr in Hb by done. by apply elem_of_nil in Hb.
  - intros E. by destruct (tc_fanout0 E) as (? & ? & ? & ?).
  - intros E. by destruct (tc_await0 E) as (? & ? & ?).
  - intros E. by destruct (tc_map0 E) as (? & ? & ?).
Qed.

(** ** The index *)

(** The index of a definition: every node under its id, and nothing else. *)
Record indexed_ok (f : Flow) : Prop := {
  ix_id id n : node f id = Some n -> n_ID n = id /\ n ∈ f_Nodes f /\ ValidToken id = true;
  ix_node n : n ∈ f_Nodes f -> node f (n_ID n) = Some n;
  ix_nodup : NoDup (n_ID <$> f_Nodes f) }.

Lemma index_steps flow l p byID i :
  foldl (index_step flow) ([], ∅, 0%nat) l = (p, byID, i) ->
  i = length l /\ (forall id j, byID !! id = Some j -> exists n, l !! j = Some n /\ n_ID n = id) /\
  (p = [] -> forall j n, l !! j = Some n -> byID !! n_ID n = Some j /\ ValidToken (n_ID n) = true).
Proof.
  revert p byID i. induction l as [|n l IH] using rev_ind; intros p byID i.
  { intros [= <- <- <-]. split; [done|]. split; [by intros ? ? ?%lookup_empty_Some|]. intros _ j n Hj.
    by rewrite lookup_nil in Hj. }
  rewrite foldl_app. simpl. destruct (foldl _ _ l) as [[p0 m0] i0]. destruct (IH _ _ _ eq_refl) as (-> & Hm & Hp).
  clear IH. unfold index_step. rewrite length_app, Nat.add_comm. destruct (m0 !! n_ID n) as [k|] eqn:En; intros [= <- <- <-].
  - split; [done|]. split; [|intros Hx; by apply app_eq_nil in Hx as [_ ?]].
    intros id j Hj. destruct (Hm id j Hj) as (n' & Hn & <-). exists n'. by rewrite (lookup_app_l_Some _ _ _ _ Hn).
  - split; [done|]. split.
    + intros id j [[<- <-]|[? Hj]]%lookup_insert_Some; [exists n; by rewrite list_lookup_middle|].
      destruct (Hm id j Hj) as (n' & Hn & <-). exists n'. by rewrite (lookup_app_l_Some _ _ _ _ Hn).
    + intros Hx. apply app_eq_nil in Hx as [-> Htok%check_token_nil]. intros j n' Hj.
      apply lookup_app_Some in Hj as [Hj|[Hlen Hj]].
      * destruct (Hp eq_refl j n' Hj) as [Hb Hv]. split; [|done]. rewrite lookup_insert_ne; [done|]. congruence.
      * destruct (j - length l)%nat as [|?] eqn:E; [|done]. injection Hj as <-. split; [|done].
        rewrite lookup_insert_eq. f_equal. lia.
Qed.

Lemma indexNodes_nil f f' :
  indexNodes f = ([], f') -> f' = set_f_byID (f_byID f') f /\ indexed_ok f'.
Proof.
  unfold indexNodes.
  destruct (foldl _ _ _) as [[p byID] i] eqn:Ef. apply index_steps in Ef as (_ & Hm & Hp).
  intros [= -> <-]. specialize (Hp eq_refl). split; [done|]. split.
  - intros id n. unfold node. cbn [set_f_byID f_byID f_Nodes]. intros (j & Hj & Hn)%bind_Some.
    destruct (Hm id j Hj) as (n' & Hn' & <-). rewrite Hn in Hn'. injection Hn' as <-.
    split; [done|]. split; [by eapply list_elem_of_lookup_2|]. by apply (Hp j).
  - intros n. cbn [set_f_byID f_Nodes]. intros [j Hj]%list_elem_of_lookup. unfold node. cbn [set_f_byID f_byID f_Nodes].
    apply bind_Some. exists j. split; [by apply (Hp j)|done].
  - apply NoDup_alt. cbn [set_f_byID f_Nodes]. intros i' j' x.
    intros (n1 & -> & H1)%list_lookup_fmap_Some (n2 & E & H2)%list_lookup_fmap_Some.
    destruct (Hp _ _ H1) as [B1 _], (Hp _ _ H2) as [B2 _]. congruence.
Qed.

(** ** The flow level *)

Lemma validateAttrs_nil f attrs :
  validateAttrs expr_Compile f = ([], attrs) -> forall k, is_Some (f_SearchAttributes f !! k) -> is_Some (attrs !! k).
Proof.
  intros Hv k Hk. apply elem_of_sorted_keys in Hk. revert Hv Hk. unfold validateAttrs.
  generalize (sorted_keys (f_SearchAttributes f)). intros l. revert attrs.
  induction l as [|x l IH] using rev_ind; intros attrs; [by intros _ ?%elem_of_nil|].
  rewrite foldl_app. cbn [foldl]. destruct (foldl _ _ l) as [p0 m0].
  destruct (CompileValue _ _) as [err|prog]; intros [= Hp <-].
  { by apply app_eq_nil in Hp as [_ ?]. }
  apply app_eq_nil in Hp as [-> _]. intros [Hin| ->%list_elem_of_singleton]%elem_of_app.
  - apply lookup_insert_is_Some'. right. by apply IH.
  - rewrite lookup_insert_eq. eauto.
Qed.

Lemma validateFlowLevel_nil f f' :
  validateFlowLevel expr_Compile f = ([], f') ->
  f' = f |> set_f_output (f_output f') |> set_f_attrs (f_attrs f') /\
  map_Forall (fun _ b => f_nonpos b = false) (f_Budget f) /\
  (forall k, is_Some (f_SearchAttributes f !! k) -> is_Some (f_attrs f' !! k)) /\
  (forall name c, f_Channels f !! name = Some c -> default_fits (ReducerOrDefault c) (ch_Default c) = Some true).
Proof.
  unfold validateFlowLevel. destruct (validateOutput _ f) as [p_out output].
  destruct (validateAttrs _ f) as [p_attrs attrs] eqn:Ea. intros [= Hp <-].
  repeat match goal with H : _ ++ _ = [] |- _ => apply app_eq_nil in H as [? H] end. subst.
  split; [done|]. split; [|split; [by apply validateAttrs_nil|]].
  - match goal with H : validateBudget f = [] |- _ => rename H into Hb end. intros k b Hk.
    assert (Hin : k ∈ sorted_keys (f_Budget f)) by (apply elem_of_sorted_keys; eauto).
    pose proof (concat_fmap_nil _ _ Hb k Hin) as Hc. simpl in Hc. no_problems. by rewrite Hk in Hc.
  - match goal with H : validateChannels f = [] |- _ => rename H into Hb end. intros k c Hk.
    assert (Hin : k ∈ sorted_keys (f_Channels f)) by (apply elem_of_sorted_keys; eauto).
    pose proof (concat_fmap_nil _ _ Hb k Hin) as Hc. cbv beta in Hc. rewrite Hk in Hc. unfold validateChannel in Hc.
    apply app_eq_nil in Hc as [_ Hc]. destruct (default_fits _ _) as [[]|]; by no_problems.
Qed.
End Sound.
