(* ===== verification/FlowGraph.v ===== *)
(** * What validation guarantees of the graph

    The checks of [flow/graph.go], once every node is valid on its own: fans and
    joins are paired, nothing routes into a branch, the start is resolved and
    every node can be reached from it.  Then [Validate] as a whole. *)

From S2P Require Import Prelude Json GoStrings Names Expr Flow FlowValidate FlowValid.

(** A definition whose nodes are indexed and valid by themselves. *)
Record checked (f : Flow) : Prop := {
  ck_index : indexed_ok f;
  ck_node n : n ∈ f_Nodes f -> node_checked f n }.

(** ** Fans *)

Lemma fanOf_Some f j fan : fanOf f j = Some fan -> f_joinOf f !! fan = Some j.
Proof. unfold fanOf. intros [_ H]%List.find_some. by apply bool_decide_eq_true in H. Qed.

Lemma fanOf_None f j fan : fanOf f j = None -> f_joinOf f !! fan <> Some j.
Proof.
  unfold fanOf. intros Hf Hj. eapply List.find_none in Hf; [|apply list_elem_of_In, elem_of_sorted_keys; eauto].
  by apply bool_decide_eq_false in Hf.
Qed.

(** What a branch looks like, but for the index of branches. *)
Definition branch_shape (f : Flow) (b : string) : Prop :=
  exists bn, node f b = Some bn /\ (n_Type bn = NodeTask \/ n_Type bn = NodeSubflow) /\
    n_Next bn = "" /\ n_OnFailure bn = "" /\ n_Dynamic bn = [].

Lemma check_branches_ok f n i bs B :
  (forall b, b ∈ bs -> is_Some (node f b)) ->
  exists p B', check_branches f n i bs B = Ok (p, B') /\
    (p = [] -> NoDup bs /\ (forall b, b ∈ bs -> B !! b = None /\ branch_shape f b) /\
      forall x, B' !! x = if decide (x ∈ bs) then Some (n_ID n) else B !! x).
Proof.
  revert i B. induction bs as [|b bs IH]; intros i B Hn; cbn [check_branches].
  { exists [], B. split; [done|]. intros _. split; [constructor|]. split; [by intros b ?%elem_of_nil|]. done. }
  assert (Hn' : forall b, b ∈ bs -> is_Some (node f b)) by (intros; apply Hn; by right).
  destruct (B !! b) as [owner|] eqn:Eb.
  - destruct (IH (S i) B Hn') as (p & B' & -> & _). cbn [res_bind]. do 2 eexists. split; [done|].
    intros Hp. apply app_eq_nil in Hp as [Hp _]. by destruct (String.eqb owner (n_ID n)).
  - destruct (Hn b) as [bn Hbn]; [by left|]. rewrite Hbn. cbn [deref res_bind].
    destruct (IH (S i) (<[b := n_ID n]> B) Hn') as (p & B' & -> & HB). cbn [res_bind]. do 2 eexists. split; [done|].
    intros Hp. apply app_eq_nil in Hp as [Hp ->]. destruct (HB eq_refl) as (Hnd & Hbs & Hlook). no_problems.
    assert (Hnew : b ∉ bs). { intros Hin. destruct (Hbs b Hin) as [E _]. by rewrite lookup_insert_eq in E. }
    split; [by constructor|]. split.
    + intros x [->|Hx]%elem_of_cons.
      * split; [done|]. exists bn. split; [done|].
        repeat match goal with H : (_ || _) = false |- _ => apply orb_false_iff in H as [? ?] end.
        repeat match goal with H : is_set _ = false |- _ => apply is_set_false in H end.
        match goal with H : (0 <? _) = false |- _ => apply len_pos_nil in H end.
        destruct (String.eqb_spec (n_Type bn) NodeTask), (String.eqb_spec (n_Type bn) NodeSubflow); naive_solver.
      * destruct (Hbs x Hx) as [E ?]. split; [|done]. rewrite lookup_insert_ne in E; [done|]. by intros ->.
    + intros x. rewrite Hlook. destruct (decide (x ∈ bs)); [rewrite decide_True; [done|by right]|].
      destruct (decide (x = b)) as [->|]; [rewrite lookup_insert_eq, decide_True; [done|by left]|].
      rewrite lookup_insert_ne by done. rewrite decide_False; [done|]. by intros [?|?]%elem_of_cons.
Qed.

(** A fanout paired with its join. *)
Definition paired (f : Flow) (B J : gmap string string) (n : Node) : Prop :=
  NoDup (n_Branches n) /\ (forall b, b ∈ n_Branches n -> B !! b = Some (n_ID n) /\ branch_shape f b) /\
  exists j, node f (n_Next n) = Some j /\ n_Type j = NodeJoin /\ J !! n_ID n = Some (n_ID j).

(** The indexes after the fanouts of [l]. *)
Record fans_of (f : Flow) (l : list Node) (B J : gmap string string) : Prop := {
  fs_pair n : n ∈ l -> n_Type n = NodeFanout -> paired f B J n;
  fs_inj a a' j : J !! a = Some j -> J !! a' = Some j -> a = a';
  fs_branch b o : B !! b = Some o -> exists n, n ∈ l /\ n_Type n = NodeFanout /\ n_ID n = o /\ b ∈ n_Branches n }.

Lemma check_fans f l :
  checked f -> (forall n, n ∈ l -> n ∈ f_Nodes f) -> NoDup (n_ID <$> l) ->
  exists p B J, res_fold (check_fan f) ([], ∅, ∅) l = Ok (p, B, J) /\
    (forall a j, J !! a = Some j -> exists n, n ∈ l /\ n_Type n = NodeFanout /\ n_ID n = a /\ n_Next n = j) /\
    (p = [] -> fans_of f l B J).
Proof.
  intros [[Hid Hnode _] Hok]. induction l as [|n l IH] using rev_ind; intros Hl Hnd.
  { exists [], ∅, ∅. split; [done|]. split; [by intros ? ? ?%lookup_empty_Some|]. intros _. split.
    - by intros n ?%elem_of_nil.
    - by intros ? ? ? ?%lookup_empty_Some.
    - by intros ? ? ?%lookup_empty_Some. }
  rewrite fmap_app, NoDup_app in Hnd. destruct Hnd as (Hnd & Hdis & _).
  assert (Hfresh : forall m, m ∈ l -> n_ID m <> n_ID n).
  { intros m Hm E. apply (Hdis (n_ID m)); [by apply list_elem_of_fmap_2|]. rewrite E. by left. }
  destruct IH as (p & B & J & Hres & HJ & HF); [intros; apply Hl; apply elem_of_app; by left|done|].
  rewrite res_fold_app, Hres. cbn [res_bind res_fold]. unfold check_fan at 1.
  assert (Hn : n ∈ f_Nodes f) by (apply Hl, elem_of_app; right; by left).
  assert (HJ' : forall a j, J !! a = Some j ->
    exists m, m ∈ l ++ [n] /\ n_Type m = NodeFanout /\ n_ID m = a /\ n_Next m = j).
  { intros a j Ha. destruct (HJ a j Ha) as (m & Hm & ?). exists m. split; [apply elem_of_app; by left|done]. }
  destruct (String.eqb_spec (n_Type n) NodeFanout) as [Hty|Hty]; cbn [negb].
  2: { cbn [res_bind]. do 3 eexists. split; [done|]. split; [done|]. intros Hp. destruct (HF Hp) as [Hpair Hinj Hbr]. split.
       - intros m [Hm| ->%list_elem_of_singleton]%elem_of_app; [by apply Hpair|done].
       - done.
       - intros b o Hb. destruct (Hbr b o Hb) as (m & Hm & ?). exists m. split; [apply elem_of_app; by left|done]. }
  destruct (Hok n Hn) as [_ Hroutes _ _ _ _ Hbs Hfan _ _ _ _]. destruct (Hfan Hty) as (_ & _ & Hnext).
  destruct (check_branches_ok f n 0 (n_Branches n) B Hbs) as (pb & B' & -> & HB). cbn [res_bind].
  destruct (routes_next n Hnext) as (r & Hr & Hto). destruct (Hroutes r Hr) as [j Hj]. rewrite Hto in Hj.
  rewrite Hj. cbn [deref res_bind]. destruct (Hid _ _ Hj) as (Hjid & _ & _).
  destruct (String.eqb_spec (n_Type j) NodeJoin) as [Hjty|]; cbn [negb].
  2: { cbn [res_bind]. do 3 eexists. split; [done|]. split; [done|]. intros [_ [_ ?]%app_eq_nil]%app_eq_nil. done. }
  destruct (fanOf _ (n_ID j)) as [fan|] eqn:Efan; cbn [res_bind].
  { do 3 eexists. split; [done|]. split; [done|]. intros [_ [_ ?]%app_eq_nil]%app_eq_nil. done. }
  do 3 eexists. split; [done|]. split.
  { intros a k [[<- <-]|[? Ha]]%lookup_insert_Some; [|by apply HJ'].
    exists n. split; [apply elem_of_app; right; by left|done]. }
  intros [-> ->]%app_eq_nil. destruct (HF eq_refl) as [Hpair Hinj Hbr]. destruct (HB eq_refl) as (HndB & Hnew & Hlook). split.
  - intros m [Hm| ->%list_elem_of_singleton]%elem_of_app Hmty.
    + destruct (Hpair m Hm Hmty) as (H1 & H2 & j' & H3 & H4 & H5). split; [done|]. split.
      * intros b Hb. destruct (H2 b Hb) as [E ?]. split; [|done]. rewrite Hlook, decide_False; [done|].
        intros Hin. destruct (Hnew b Hin). congruence.
      * exists j'. split; [done|]. split; [done|]. rewrite lookup_insert_ne; [done|]. intros E. by apply (Hfresh m Hm).
    + split; [done|]. split; [|exists j; split; [done|]; split; [done|by rewrite lookup_insert_eq]].
      intros b Hb. rewrite Hlook, decide_True by done. split; [done|]. by apply Hnew.
  - assert (Hno : forall x, J !! x <> Some (n_ID j)) by (intros x; exact (fanOf_None _ _ x Efan)).
    intros a a' k [[<- <-]|[? Ha]]%lookup_insert_Some [[<- Hk]|[? Ha']]%lookup_insert_Some; try done.
    + by destruct (Hno a').
    + subst. by destruct (Hno a).
    + by eapply Hinj.
  - intros b o. rewrite Hlook. case_decide as Hin.
    + intros [= <-]. exists n. split; [apply elem_of_app; right; by left|done].
    + intros Hb. destruct (Hbr b o Hb) as (m & Hm & ?). exists m. split; [apply elem_of_app; by left|done].
Qed.

(** Joins: the fanout each closes, and the branches it waits for. *)
Definition join_fits (f : Flow) (n : Node) : Prop :=
  exists fan fn, f_joinOf f !! fan = Some (n_ID n) /\ node f fan = Some fn /\
    (forall w, w ∈ n_WaitFor n -> w ∈ n_Branches fn) /\
    (let '(kind, q) := JoinKind n in
     kind = JoinQuorum \/ kind = JoinMin -> q <= len (WaitFor f (n_ID n))).

Lemma validateJoinFan_ok f n :
  (forall fan, f_joinOf f !! fan = Some (n_ID n) -> is_Some (node f fan)) ->
  exists p, validateJoinFan f n = Ok p /\ (p = [] -> join_fits f n).
Proof.
  intros Hfan. unfold validateJoinFan. destruct (fanOf f (n_ID n)) as [fan|] eqn:Ef.
  2: { eexists. split; [done|]. done. }
  apply fanOf_Some in Ef. destruct (Hfan fan Ef) as [fn Hfn]. rewrite Hfn. cbn [deref res_bind].
  destruct (JoinKind n) as [kind q] eqn:EJ. eexists. split; [done|]. intros [Hw Hq]%app_eq_nil.
  exists fan, fn. split; [done|]. split; [done|]. split.
  - intros w [i Hi]%list_elem_of_lookup. pose proof (concat_imap_nil _ _ Hw i w Hi) as H1. cbv beta in H1.
    apply when_nil in H1; [|apply add_not_nil]. apply negb_false_iff, bool_decide_eq_true in H1. done.
  - rewrite EJ. intros Hk. apply when_nil in Hq; [|apply add_not_nil]. apply andb_false_iff in Hq as [Hq|Hq]; [|lia].
    apply orb_false_iff in Hq as [H1%String.eqb_neq H2%String.eqb_neq]. by destruct Hk.
Qed.

(** A loop that collects problems: it ends, and without a problem every round had none. *)
Lemma res_fold_collect {A} (g : problems -> A -> result problems) (Q : A -> Prop) p l :
  (forall p x, x ∈ l -> exists p', g p x = Ok p' /\ (p' = [] -> p = [] /\ Q x)) ->
  exists p', res_fold g p l = Ok p' /\ (p' = [] -> p = [] /\ forall x, x ∈ l -> Q x).
Proof.
  revert p. induction l as [|x l IH]; intros p Hg; simpl.
  { exists p. split; [done|]. intros ->. split; [done|]. by intros x ?%elem_of_nil. }
  destruct (Hg p x) as (q & Hq & Hx); [by left|]. rewrite Hq. cbn [res_bind].
  destruct (IH q) as (p' & -> & Hp'); [intros; apply Hg; by right|]. exists p'. split; [done|].
  intros H. destruct (Hp' H) as [Hq0 Hl]. destruct (Hx Hq0) as [-> HQ]. split; [done|].
  intros y [->|Hy]%elem_of_cons; [done|by apply Hl].
Qed.

Lemma node_set_fans f B J id : node (f |> set_f_branchOf B |> set_f_joinOf J) id = node f id.
Proof. done. Qed.

Lemma validateFans_ok f :
  checked f ->
  exists p B J, let f' := f |> set_f_branchOf B |> set_f_joinOf J in
    validateFans f = Ok (p, f') /\
    (p = [] -> fans_of f (f_Nodes f) B J /\
      (forall a j, J !! a = Some j -> exists n, n ∈ f_Nodes f /\ n_Type n = NodeFanout /\ n_ID n = a /\ n_Next n = j) /\
      forall n, n ∈ f_Nodes f -> n_Type n = NodeJoin -> join_fits f' n).
Proof.
  intros Hc. destruct (check_fans f (f_Nodes f) Hc) as (p & B & J & Hf & HJ & HF); [done|apply Hc|].
  set (f' := f |> set_f_branchOf B |> set_f_joinOf J).
  assert (Hjoin : forall n, exists q, validateJoinFan f' n = Ok q /\ (q = [] -> join_fits f' n)).
  { intros n. apply validateJoinFan_ok. intros fan Hfan. destruct (HJ fan _ Hfan) as (m & Hm & _ & <- & _).
    unfold f'. rewrite node_set_fans. rewrite (ix_node _ (ck_index _ Hc) m Hm). eauto. }
  destruct (res_fold_collect (fun p n => if String.eqb (n_Type n) NodeJoin
      then let? p' := validateJoinFan f' n in Ok (p ++ p') else Ok p)
    (fun n => n_Type n = NodeJoin -> join_fits f' n) p (f_Nodes f)) as (p' & Hres & Hp').
  { intros p0 n _. destruct (String.eqb_spec (n_Type n) NodeJoin); [|exists p0; by split].
    destruct (Hjoin n) as (q & -> & Hfit). cbn [res_bind]. eexists. split; [done|].
    intros [-> Hq]%app_eq_nil. split; [done|]. intros _. by apply Hfit. }
  exists p', B, J. simpl. split.
  - unfold validateFans. rewrite Hf. cbn [res_bind]. fold f'. change (f_Nodes f') with (f_Nodes f). by rewrite Hres.
  - intros E. destruct (Hp' E) as [-> Hall]. split; [by apply HF|]. done.
Qed.

(** ** Routes *)

Definition entries_ok (f : Flow) (n : Node) : Prop :=
  forall r, r ∈ routes n -> f_branchOf f !! rt_to r = None /\
    forall t, node f (rt_to r) = Some t -> n_Type t = NodeJoin -> f_joinOf f !! n_ID n = Some (rt_to r).

Lemma rejectBranchEntry_ok f :
  checked f -> exists p, rejectBranchEntry f = Ok p /\ (p = [] -> forall n, n ∈ f_Nodes f -> entries_ok f n).
Proof.
  intros [[Hid Hnode _] Hok]. unfold rejectBranchEntry.
  destruct (res_fold_collect (fun p n => res_fold (fun p r => let? p' := check_route f n r in Ok (p ++ p')) p (routes n))
    (entries_ok f) [] (f_Nodes f)) as (p & Hp & HQ); [|exists p; split; [done|]; intros E; by apply (HQ E)].
  intros p0 n Hn. apply res_fold_collect. intros p1 r Hr. unfold check_route.
  destruct (nc_routes _ _ (Hok n Hn) r Hr) as [t Ht]. destruct (f_branchOf f !! rt_to r) as [owner|] eqn:Eb.
  { cbn [res_bind]. eexists. split; [done|]. by intros [_ ?]%app_eq_nil. }
  rewrite Ht. cbn [deref res_bind]. eexists. split; [done|]. intros [-> Hw]%app_eq_nil. split; [done|]. split; [done|].
  intros t' [= <-] Hty. apply when_nil in Hw; [|apply add_not_nil]. rewrite Hty in Hw.
  apply negb_false_iff in Hw. apply String.eqb_eq in Hw. unfold JoinOf in Hw.
  destruct (f_joinOf f !! n_ID n) as [j|]; simpl in Hw; [by rewrite Hw|].
  destruct (Hid _ _ Ht) as (_ & _ & Htok). by rewrite <- Hw in Htok.
Qed.

(** ** The start *)

Lemma inbound_step (m : gmap string string) n l to :
  is_Some (m !! to) \/ to ∈ l ->
  is_Some (foldl (fun m to => match m !! to with Some _ => m | None => <[to := n]> m end) m l !! (to : string)).
Proof.
  revert m. induction l as [|x l IH]; intros m; simpl; [by intros [?|?%elem_of_nil]|].
  intros H. apply IH. destruct (m !! x) as [y|] eqn:Ex.
  - destruct H as [?|[->|?]%elem_of_cons]; eauto.
  - destruct (decide (to = x)) as [->|]; [left; rewrite lookup_insert_eq; eauto|].
    destruct H as [?|[?|?]%elem_of_cons]; [left; by rewrite lookup_insert_ne|done|by right].
Qed.

Lemma inbound_Some f n to : n ∈ f_Nodes f -> to ∈ successors n -> is_Some (inbound f !! to).
Proof.
  intros Hn Hto. unfold inbound. revert Hn. generalize (f_Nodes f). intros l.
  assert (Hkeep : forall l (m : gmap string string), is_Some (m !! to) -> is_Some (foldl (fun m n => foldl (fun m to =>
    match m !! to with Some _ => m | None => <[to := n_ID n]> m end) m (successors n)) m l !! to)).
  { clear l. induction l as [|x l IH]; intros m Hm; simpl; [done|]. apply IH, inbound_step. by left. }
  generalize (∅ : gmap string string). induction l as [|x l IH]; intros m; [by intros ?%elem_of_nil|].
  intros [->|Hx]%elem_of_cons; simpl; [|by apply IH]. apply Hkeep, inbound_step. by right.
Qed.

Lemma successors_route n r : r ∈ routes n -> rt_to r ∈ successors n.
Proof. intros Hr. apply elem_of_app. left. by apply list_elem_of_fmap_2. Qed.

(** The start resolved: it exists, and is neither a join nor a branch. *)
Lemma resolveStart_ok f s :
  checked f -> fans_of f (f_Nodes f) (f_branchOf f) (f_joinOf f) ->
  (forall n, n ∈ f_Nodes f -> n_Type n = NodeJoin -> join_fits f n) ->
  (forall a j, f_joinOf f !! a = Some j ->
    exists n, n ∈ f_Nodes f /\ n_Type n = NodeFanout /\ n_ID n = a /\ n_Next n = j) ->
  resolveStart f = inr s ->
  exists n, node f s = Some n /\ n_Type n <> NodeJoin /\ f_branchOf f !! s = None.
Proof.
  intros [[Hid Hnode _] Hok] [_ _ Hbr] Hjoins HJ. unfold resolveStart. destruct (is_set (f_Start f)).
  - destruct (node f (f_Start f)) as [n|] eqn:En; [|done]. destruct (Hid _ _ En) as (E & _ & _).
    destruct (bool_decide _ || _) eqn:Eb; [done|]. intros [= <-]. apply orb_false_iff in Eb as [Hb Hj%String.eqb_neq].
    apply bool_decide_eq_false_1 in Hb. exists n. rewrite E. split; [done|]. rewrite <- E.
    split; [done|]. by apply eq_None_not_Some.
  - destruct (filter _ _) as [|s' [|]] eqn:Ef; [done| |done]. intros [= <-].
    assert (Hs : s' ∈ filter (fun id => inbound f !! id = None) (n_ID <$> f_Nodes f)) by (rewrite Ef; by left).
    apply list_elem_of_filter in Hs as [Hin (n & -> & Hn)%list_elem_of_fmap]. exists n. split; [by apply Hnode|].
    assert (Hno : forall m, m ∈ f_Nodes f -> n_ID n ∉ successors m).
    { intros m Hm Hto. destruct (inbound_Some f m (n_ID n) Hm Hto). congruence. }
    split.
    + intros Hty. destruct (Hjoins n Hn Hty) as (fan & fn & HJf & _). destruct (HJ _ _ HJf) as (m & Hm & Hmty & _ & Hnext).
      apply (Hno m Hm). destruct (nc_fanout _ _ (Hok m Hm) Hmty) as (_ & _ & Hne).
      destruct (routes_next m Hne) as (r & Hr & Hto). rewrite <- Hnext, <- Hto. by apply successors_route.
    + destruct (f_branchOf f !! n_ID n) as [o|] eqn:Eb; [|done]. destruct (Hbr _ _ Eb) as (m & Hm & _ & _ & Hb).
      destruct (Hno m Hm). apply elem_of_app. by right.
Qed.

(** ** Reachability *)

Lemma push_news (U : gset string) l seen stack seen' stack' :
  (forall x, x ∈ l -> x ∈ U) -> foldl push_new (seen, stack) l = (seen', stack') ->
  seen' = seen ∪ list_to_set l /\
  (forall x, x ∈ stack' <-> x ∈ stack \/ (x ∈ l /\ x ∉ seen)) /\
  (length stack' + size (U ∖ seen') = length stack + size (U ∖ seen))%nat.
Proof.
  revert seen stack. induction l as [|x l IH]; intros seen stack HU; cbn [foldl].
  { intros [= <- <-]. split; [set_solver|]. split; [|done]. intros x. rewrite elem_of_nil. naive_solver. }
  assert (Hl : forall y, y ∈ l -> y ∈ U) by (intros; apply HU; by right).
  unfold push_new at 2. case_bool_decide as Hx; intros Hf.
  - destruct (IH _ _ Hl Hf) as (-> & Hin & Hm). split; [set_solver|]. split; [|done].
    intros y. rewrite Hin, elem_of_cons. naive_solver.
  - destruct (IH _ _ Hl Hf) as (-> & Hin & Hm). split; [set_solver|]. split.
    + intros y. rewrite Hin, !elem_of_cons, not_elem_of_union, not_elem_of_singleton.
      destruct (decide (y = x)) as [->|]; tauto.
    + rewrite Hm. assert (Hsz : size (U ∖ seen) = S (size (U ∖ ({[x]} ∪ seen)))); [|simpl; lia].
      replace (U ∖ seen) with ({[x]} ∪ U ∖ ({[x]} ∪ seen)).
      * rewrite size_union by set_solver. by rewrite size_singleton.
      * apply set_eq. intros y. rewrite elem_of_union, !elem_of_difference, elem_of_union, elem_of_singleton.
        destruct (decide (y = x)) as [->|]; [|tauto]. split; [|tauto]. intros _. split; [apply HU; by left|done].
Qed.

(** Every successor of a node exists. *)
Definition closed (f : Flow) : Prop := forall a b, edge f a b -> is_Some (node f b).

Lemma search_ok f (U : gset string) fuel seen stack :
  closed f -> (forall a b, edge f a b -> b ∈ U) -> (forall x, x ∈ stack -> is_Some (node f x)) ->
  (length stack + size (U ∖ seen) <= fuel)%nat ->
  exists seen', search fuel f seen stack = Ok seen' /\ seen ⊆ seen' /\
    (forall x, x ∈ seen' -> x ∈ seen \/ exists y, y ∈ stack /\ rtc (edge f) y x) /\
    (forall x b, x ∈ seen' -> (x ∈ seen /\ x ∉ stack) \/ (edge f x b -> b ∈ seen')).
Proof.
  intros Hcl HU. revert seen stack. induction fuel as [|fuel IH]; intros seen stack Hst Hfuel.
  all: destruct stack as [|id stack]; cbn [search].
  1, 3: exists seen; split; [done|]; split; [done|]; split; [by left|]; intros x b Hx; left; split; [done|];
    by intros ?%elem_of_nil.
  { simpl in Hfuel. lia. }
  destruct (Hst id) as [n Hn]; [by left|]. rewrite Hn. cbn [deref res_bind].
  destruct (foldl push_new (seen, stack) (successors n)) as [seen1 stack1] eqn:Ef.
  assert (Hedge : forall b, b ∈ successors n <-> edge f id b).
  { intros b. unfold edge. rewrite Hn. naive_solver. }
  destruct (push_news U _ _ _ _ _ (fun b Hb => HU id b (proj1 (Hedge b) Hb)) Ef) as (-> & Hin & Hm).
  destruct (IH (seen ∪ list_to_set (successors n)) stack1) as (seen' & -> & Hsub & Hreach & Hclosed).
  { intros x [Hx|[Hx _]]%Hin; [apply Hst; by right|]. by apply (Hcl id), Hedge. }
  { simpl in Hfuel. lia. }
  exists seen'. split; [done|]. split; [set_solver|]. split.
  - intros x Hx. destruct (Hreach x Hx) as [[?|Hs%elem_of_list_to_set]%elem_of_union|(y & Hy & Hr)]; [by left|right|right].
    + exists id. split; [by left|]. by apply rtc_once, Hedge.
    + apply Hin in Hy as [Hy|[Hy _]]; [exists y; split; [by right|done]|].
      exists id. split; [by left|]. eapply rtc_l; [by apply Hedge|done].
  - intros x b Hx. destruct (Hclosed x b Hx) as [[Hs Hns]|?]; [|by right].
    rewrite Hin in Hns. destruct (decide (x = id)) as [->|Hne].
    + right. intros Hb. apply Hsub. apply elem_of_union_r, elem_of_list_to_set, Hedge, Hb.
    + apply elem_of_union in Hs as [Hs|Hs%elem_of_list_to_set].
      * left. split; [done|]. rewrite elem_of_cons. tauto.
      * destruct (decide (x ∈ seen)); [left; split; [done|]; rewrite elem_of_cons; tauto|]. exfalso. tauto.
Qed.

Lemma size_list_le (l : list string) : (size (list_to_set l : gset string) <= length l)%nat.
Proof.
  induction l as [|x l IH]; [done|]. rewrite list_to_set_cons, size_union_alt, size_singleton. simpl.
  apply le_n_S. etrans; [|exact IH]. apply subseteq_size. set_solver.
Qed.

(** The search finds the nodes that can be reached from the start, and no others. *)
Lemma search_reach f s :
  closed f -> (forall a n, node f a = Some n -> n ∈ f_Nodes f) -> is_Some (node f s) ->
  exists seen, search (search_fuel f) f {[s]} [s] = Ok seen /\ forall x, x ∈ seen <-> rtc (edge f) s x.
Proof.
  intros Hcl Hnodes Hs. set (U := list_to_set (f_Nodes f ≫= successors) : gset string).
  destruct (search_ok f U (search_fuel f) {[s]} [s]) as (seen & -> & Hsub & Hreach & Hclosed); [done| | | |].
  - intros a b (n & Hn & Hb). apply elem_of_list_to_set, list_elem_of_bind. exists n. split; [done|by eapply Hnodes].
  - by intros x ->%list_elem_of_singleton.
  - unfold search_fuel. cbn [length]. apply le_n_S. etrans; [|apply size_list_le]. apply subseteq_size. set_solver.
  - exists seen. split; [done|]. intros x. split.
    + intros Hx. by destruct (Hreach x Hx) as [->%elem_of_singleton|(y & ->%list_elem_of_singleton & Hr)].
    + revert x. apply rtc_ind_r; [set_solver|]. intros y z _ Hyz Hy.
      destruct (Hclosed y z Hy) as [[->%elem_of_singleton Hn]|Hc]; [|by apply Hc]. destruct Hn. by left.
Qed.

Lemma checked_closed f : checked f -> closed f.
Proof.
  intros [[Hid _ _] Hok] a b (n & Hn & Hb). destruct (Hid _ _ Hn) as (_ & Hin & _).
  destruct (Hok n Hin) as [_ Hr _ _ _ _ Hbr _ _ _ _ _]. unfold successors in Hb. apply elem_of_app in Hb as [Hb|Hb]; [|auto].
  apply list_elem_of_fmap in Hb as (r & -> & Hrt). auto.
Qed.

(** ** The graph as a whole *)

(** The reported nodes are exactly those no path from the start leads to. *)
Lemma rejectUnreachable_ok f :
  checked f -> is_Some (node f (f_startID f)) ->
  exists p, rejectUnreachable f = Ok p /\
    (p = [] <-> forall n, n ∈ f_Nodes f -> rtc (edge f) (f_startID f) (n_ID n)).
Proof.
  intros Hc Hs. destruct (search_reach f (f_startID f)) as (seen & Hseen & Hr);
    [by apply checked_closed|by intros a n (_ & ? & _)%(ix_id _ (ck_index _ Hc))|done|].
  unfold rejectUnreachable. rewrite Hseen. cbn [res_bind]. eexists. split; [done|]. split.
  - intros Hp n Hn. pose proof (concat_fmap_nil _ _ Hp n Hn) as Hw. apply when_nil in Hw; [|apply add_not_nil].
    apply negb_false_iff, bool_decide_eq_true in Hw. by apply Hr.
  - intros Hall. induction (f_Nodes f) as [|n l IH]; [done|]. cbn [fmap list_fmap concat].
    rewrite bool_decide_true by (apply Hr, Hall; by left). apply IH. intros m Hm. apply Hall. by right.
Qed.

Lemma node_checked_ext f f' n :
  (forall id, is_Some (node f id) -> is_Some (node f' id)) -> node_checked f n -> node_checked f' n.
Proof. intros He []. split; auto. Qed.

Lemma checked_ext f f' :
  (forall id, node f' id = node f id) -> f_Nodes f' = f_Nodes f -> checked f -> checked f'.
Proof.
  intros Hn HN [[Hid Hnode Hnd] Hok]. split; [split|]; rewrite ?HN; try done.
  - intros id n. rewrite Hn. apply Hid.
  - intros n Hin. rewrite Hn. by apply Hnode.
  - intros n Hin. apply (node_checked_ext f); [|by apply Hok]. intros id. by rewrite Hn.
Qed.

(** The branches a join waits for, once it is paired with its fanout. *)
Lemma WaitFor_fits f n fan fn :
  node f (n_ID n) = Some n -> f_joinOf f !! fan = Some (n_ID n) -> node f fan = Some fn ->
  (forall fan', f_joinOf f !! fan' = Some (n_ID n) -> fan' = fan) ->
  (forall w, w ∈ n_WaitFor n -> w ∈ n_Branches fn) -> n_Branches fn <> [] -> NoDup (n_Branches fn) -> NoDup (n_WaitFor n) ->
  WaitFor f (n_ID n) <> [] /\ NoDup (WaitFor f (n_ID n)) /\ WaitFor f (n_ID n) ⊆ n_Branches fn.
Proof.
  intros Hn HJ Hfan Hinj Hw Hne Hnd Hndw. unfold WaitFor. rewrite Hn. case_bool_decide as Hb; [done|].
  destruct (fanOf f (n_ID n)) as [fan'|] eqn:Ef; [|by apply (fanOf_None _ _ fan) in Ef].
  rewrite (Hinj fan' (fanOf_Some _ _ _ Ef)), Hfan. done.
Qed.

Lemma join_ok_intro f n :
  checked f -> fans_of f (f_Nodes f) (f_branchOf f) (f_joinOf f) ->
  (forall a j, f_joinOf f !! a = Some j ->
    exists n, n ∈ f_Nodes f /\ n_Type n = NodeFanout /\ n_ID n = a /\ n_Next n = j) ->
  n ∈ f_Nodes f -> n_Type n = NodeJoin -> join_fits f n -> join_ok f n.
Proof.
  intros [[Hid Hnode _] Hok] [Hpair Hinj _] HJ Hn Hty (fan & fn & HJf & Hfan & Hw & Hq).
  destruct (HJ _ _ HJf) as (m & Hm & Hmty & Hmid & _).
  assert (m = fn) as ->. { apply Hnode in Hm. rewrite Hmid in Hm. congruence. }
  destruct (Hpair fn Hm Hmty) as (Hnd & _). destruct (nc_fanout _ _ (Hok fn Hm) Hmty) as (Hne & _ & _).
  destruct (nc_join _ _ (Hok n Hn) Hty) as [Hndw Hkind].
  assert (Huniq : forall fan', f_joinOf f !! fan' = Some (n_ID n) -> fan' = fan) by (intros fan' H; by eapply Hinj).
  destruct (WaitFor_fits f n fan fn) as (H1 & H2 & H3); auto.
  exists fan, fn. do 7 (split; [done|]). destruct (JoinKind n) as [kind q].
  destruct Hkind as [->|[->|[[-> ?]|[-> ?]]]]; [by left|by right; left| |].
  - right; right; left. split; [done|]. split; [done|]. apply Hq. by left.
  - right; right; right. split; [done|]. split; [done|]. apply Hq. by right.
Qed.

Lemma validate_graph_ok f :
  checked f ->
  exists p f', validate_graph f = Ok (p, f') /\
    (p = [] -> exists B J s, f' = f |> set_f_branchOf B |> set_f_joinOf J |> set_f_startID s /\
      (forall n, n ∈ f_Nodes f' -> node_ok f' n) /\ (forall n, n ∈ f_Nodes f' -> entries_ok f' n) /\
      (exists n, node f' s = Some n /\ n_Type n <> NodeJoin /\ f_branchOf f' !! s = None) /\
      (forall n, n ∈ f_Nodes f' -> rtc (edge f') s (n_ID n))).
Proof.
  intros Hc. destruct (validateFans_ok f Hc) as (p1 & B & J & Hv & HF). cbv zeta in Hv, HF.
  set (f1 := f |> set_f_branchOf B |> set_f_joinOf J) in *.
  assert (Hc1 : checked f1) by (by apply (checked_ext f)).
  destruct (rejectBranchEntry_ok f1 Hc1) as (p2 & He & HE).
  unfold validate_graph. rewrite Hv. cbn [res_bind]. rewrite He. cbn [res_bind].
  destruct (resolveStart f1) as [p3|s] eqn:Es.
  { do 2 eexists. split; [done|]. intros [_ [_ ->]%app_eq_nil]%app_eq_nil. exfalso. revert Es. unfold resolveStart.
    repeat case_match; intros [= ?]; by eapply add_not_nil. }
  set (f2 := set_f_startID s f1). assert (Hc2 : checked f2) by (by apply (checked_ext f)).
  assert (Hstart : is_Some (node f2 (f_startID f2))).
  { change (is_Some (node f1 s)). revert Es. unfold resolveStart. destruct Hc1 as [[Hid Hnode _] _]. destruct (is_set _).
    - destruct (node f1 (f_Start f1)) as [n|] eqn:En; [|done]. destruct (bool_decide _ || _); [done|].
      intros [= <-]. destruct (Hid _ _ En) as [-> _]. eauto.
    - destruct (filter _ _) as [|s' [|]] eqn:Ef; [done| |done]. intros [= <-].
      assert (Hs : s' ∈ filter (fun id => inbound f1 !! id = None) (n_ID <$> f_Nodes f1)) by (rewrite Ef; by left).
      apply list_elem_of_filter in Hs as [_ (n & -> & Hn)%list_elem_of_fmap]. rewrite (Hnode n Hn). eauto. }
  destruct (rejectUnreachable_ok f2 Hc2 Hstart) as (p4 & Hr & HR). rewrite Hr. cbn [res_bind].
  do 2 eexists. split; [done|]. intros [-> [-> ->]%app_eq_nil]%app_eq_nil.
  destruct (HF eq_refl) as (Hfans & HJ & Hjoins). exists B, J, s. split; [done|].
  assert (Hfans1 : fans_of f1 (f_Nodes f1) B J).
  { destruct Hfans as [Hp Hi Hb]. split; [|done|done]. exact Hp. }
  assert (Hfans2 : fans_of f2 (f_Nodes f2) B J).
  { destruct Hfans as [Hp Hi Hb]. split; [|done|done]. exact Hp. }
  split; [|split; [exact (HE eq_refl)|split; [|by apply HR]]].
  2: { apply (resolveStart_ok f1 s Hc1); [exact Hfans1|exact Hjoins|exact HJ|exact Es]. }
  intros n Hn. destruct (ck_node _ Hc2 n Hn) as [Htype Hroutes Hself Hself2 Hretry Hch Hbr Hfan Hjn Haw Hmap Hsub].
  split; auto.
  - split; [|done]. destruct Hself as [E|?]; [|done]. rewrite E. intros E2.
    destruct (ix_id _ (ck_index _ Hc2) _ _ (ix_node _ (ck_index _ Hc2) n Hn)) as (_ & _ & Htok). by rewrite <- E2 in Htok.
  - intros Hty. destruct (Hfan Hty) as (Hne & Hmax & _). destruct (fs_pair _ _ _ _ Hfans2 n Hn Hty) as (Hnd & Hbs & Hj).
    split; [done| |exact Hj]. intros b Hb. destruct (Hbs b Hb) as [HB (bn & H1 & H2 & H3 & H4 & H5)].
    exists bn. done.
  - intros Hty. apply join_ok_intro; auto. exact (Hjoins n Hn Hty).
Qed.

Section Validate.
Context (expr_Compile : string -> bool -> Text + list Op) (schema_Compile : Json -> option Text).
Local Abbreviation Validate := (Validate expr_Compile schema_Compile).

(** The nodes of the index after [validateNodes]. *)
Lemma validateNodes_node f f' p id :
  validateNodes expr_Compile schema_Compile f = (p, f') ->
  node f' id = (fun n => (check_node expr_Compile schema_Compile f n).2) <$> node f id.
Proof.
  unfold validateNodes. intros [= _ <-]. unfold node. cbn [set_f_Nodes f_byID f_Nodes].
  destruct (f_byID f !! id) as [i|]; [|done]. simpl. rewrite !list_lookup_fmap. by destruct (f_Nodes f !! i).
Qed.

Lemma check_node_id f n : n_ID (check_node expr_Compile schema_Compile f n).2 = n_ID n.
Proof.
  pose proof (check_node_bare expr_Compile schema_Compile f n) as HB. apply bare_fields in HB; [|done..]. apply HB.
Qed.

Lemma validateNodes_nil f f' :
  indexed_ok f -> validateNodes expr_Compile schema_Compile f = ([], f') -> checked f'.
Proof.
  intros [Hid Hnode Hnd] Hv. pose proof (fun id => validateNodes_node f f' [] id Hv) as Hn.
  assert (HN : f_Nodes f' = (fun n => (check_node expr_Compile schema_Compile f n).2) <$> f_Nodes f).
  { revert Hv. unfold validateNodes. intros [= _ <-]. cbn [set_f_Nodes f_Nodes]. by rewrite <- list_fmap_compose. }
  assert (Hp : forall n, n ∈ f_Nodes f -> (check_node expr_Compile schema_Compile f n).1 = []).
  { intros n Hin. revert Hv. unfold validateNodes. intros [= Hp _]. rewrite <- list_fmap_compose in Hp.
    exact (concat_fmap_nil _ _ Hp n Hin). }
  split; [split|].
  - intros id n'. rewrite Hn. intros (n & E & ->)%fmap_Some. destruct (Hid _ _ E) as (E1 & Hin & Htok).
    rewrite check_node_id. split; [done|]. split; [|done]. rewrite HN. apply list_elem_of_fmap. by exists n.
  - intros n'. rewrite HN. intros (n & -> & Hin)%list_elem_of_fmap. rewrite check_node_id, Hn, (Hnode n Hin). done.
  - rewrite HN, <- list_fmap_compose. erewrite list_fmap_ext; [exact Hnd|]. intros i n _. apply check_node_id.
  - intros n'. rewrite HN. intros (n & -> & Hin)%list_elem_of_fmap. apply (node_checked_ext f).
    + intros id [x Hx]. rewrite Hn, Hx. eauto.
    + apply (check_node_nil expr_Compile schema_Compile f n). rewrite <- (Hp n Hin). by destruct (check_node _ _ f n).
Qed.
(** Validation is total: whatever the definition, every check ends, and none
    follows a missing reference; [Validate] returns the list of problems. *)
Theorem validate_total f : exists p f', Validate f = Ok (p, f').
Proof.
  unfold FlowValidate.Validate. destruct (len (f_Nodes f) =? 0); [eauto|].
  destruct (indexNodes f) as [p1 f1] eqn:E1. destruct (validateFlowLevel _ f1) as [p2 f2] eqn:E2.
  destruct (validateNodes _ _ f2) as [p3 f3] eqn:E3. case_bool_decide as Hp; [eauto|].
  apply app_eq_nil in Hp as [_ Hp]. apply app_eq_nil in Hp as [-> Hp]. apply app_eq_nil in Hp as [-> ->].
  apply indexNodes_nil in E1 as [_ Hix]; [|done..]. apply validateFlowLevel_nil in E2 as [E2 _].
  destruct (validate_graph_ok f3) as (p & f' & -> & _); [|eauto].
  eapply validateNodes_nil; [|exact E3]. rewrite E2. destruct Hix. by split.
Qed.

Lemma Validate_valid f f' : Validate f = Ok ([], f') -> valid f'.
Proof.
  unfold FlowValidate.Validate. destruct (len (f_Nodes f) =? 0).
  { intros [= Hp _]. by apply app_eq_nil in Hp as [_ ?]. }
  destruct (indexNodes f) as [p1 f1] eqn:E1. destruct (validateFlowLevel _ f1) as [p2 f2] eqn:E2.
  destruct (validateNodes _ _ f2) as [p3 f3] eqn:E3. case_bool_decide as Hp; [intros [= E _]; by rewrite E in Hp|].
  apply app_eq_nil in Hp as [Hhead Hp]. apply app_eq_nil in Hp as [-> Hp].
  apply app_eq_nil in Hp as [-> ->]. apply app_eq_nil in Hhead as [Hname%check_token_nil _].
  apply indexNodes_nil in E1 as [E1 Hix]; [|done..]. apply validateFlowLevel_nil in E2 as (E2 & Hbud & Hattrs & Hch).
  assert (Hc : checked f3). { eapply validateNodes_nil; [|exact E3]. rewrite E2. destruct Hix. by split. }
  assert (E3' : f3 = set_f_Nodes (f_Nodes f3) f2). { revert E3. unfold validateNodes. by intros [= _ <-]. }
  destruct (validate_graph_ok f3 Hc) as (p & f4 & -> & HG). intros [= -> <-].
  destruct (HG eq_refl) as (B & J & s & -> & Hok & Hent & Hst & Hreach). clear HG.
  destruct Hc as [[Hid Hnode _] _]. split; try done.
  - rewrite E3', E2, E1. exact Hname.
  - intros n r Hn Hr. by apply (Hent n Hn).
  - rewrite E3', E2. exact Hbud.
  - intros k. rewrite E3'. cbn [set_f_startID set_f_joinOf set_f_branchOf set_f_Nodes f_SearchAttributes f_attrs].
    intros Hk. apply Hattrs. rewrite E2 in Hk. exact Hk.
  - intros name c. rewrite E3', E2. apply Hch.
Qed.

(** ** What is exported

    [Validate] fills in the compiled parts of a definition and nothing else: the
    exported fields, which are what [encoding/json] reads and writes, stay. *)

Definition public_node (n : Node) : Node :=
  n |> set_n_rules [] |> set_n_over None |> set_n_input None |> set_n_conc None |> set_n_schema None |> set_n_meta None.
Definition public (f : Flow) : Flow :=
  f |> set_f_Nodes (public_node <$> f_Nodes f) |> set_f_byID ∅ |> set_f_startID "" |> set_f_branchOf ∅ |> set_f_joinOf ∅
    |> set_f_attrs ∅ |> set_f_output None.

Lemma attempt_public f n : public_node (snd (validateAttemptPolicy schema_Compile f n)) = public_node n.
Proof. unfold validateAttemptPolicy. by repeat case_match. Qed.

Lemma subflow_public f n : public_node (snd (validateSubflow expr_Compile f n)) = public_node n.
Proof. unfold validateSubflow. by repeat case_match. Qed.

Lemma choice_public f n : public_node (snd (validateChoice expr_Compile f n)) = public_node n.
Proof. unfold validateChoice. by destruct (check_rules _ _ _ _ _ _) as [[p k] progs]. Qed.

Lemma task_public f n : public_node (snd (validateTask expr_Compile schema_Compile f n)) = public_node n.
Proof.
  unfold validateTask. pose proof (attempt_public f n) as HA. destruct (validateAttemptPolicy _ f n) as [p n1]. cbn in HA. rewrite <- HA.
  by repeat case_match.
Qed.

Lemma map_public f n : public_node (snd (validateMap expr_Compile schema_Compile f n)) = public_node n.
Proof.
  unfold validateMap. assert (H1 : public_node (snd (validateMapItems expr_Compile f n)) = public_node n).
  { unfold validateMapItems. pose proof (subflow_public f n) as HS. destruct (validateSubflow _ f n). by repeat case_match. }
  destruct (validateMapItems _ f n) as [p n1]. cbn in H1. rewrite <- H1. destruct (compile_field _ f n1 "over" (n_Over n1)) as [p2 over].
  destruct (String.eqb _ ""); [|done]. pose proof (attempt_public f (set_n_over over n1)) as HA. by destruct (validateAttemptPolicy _ f _).
Qed.

Lemma check_public f n : public_node (snd (check_node expr_Compile schema_Compile f n)) = public_node n.
Proof.
  unfold check_node, validateNode. assert (H1 : public_node (snd (encodeMeta f n)) = public_node n) by (unfold encodeMeta; by repeat case_match).
  destruct (encodeMeta f n) as [p n1]. cbn in H1. rewrite <- H1.
  pose proof (task_public f n1). pose proof (map_public f n1). pose proof (subflow_public f n1). pose proof (choice_public f n1).
  destruct (validateTask _ _ f n1), (validateMap _ _ f n1), (validateSubflow _ f n1), (validateChoice _ f n1).
  by repeat match goal with |- context [if ?b then _ else _] => destruct b end.
Qed.

Lemma Validate_public f p f' : Validate f = Ok (p, f') -> public f' = public f.
Proof.
  unfold FlowValidate.Validate. case_match; [by intros [= _ ->]|].
  destruct (indexNodes f) as [p1 f1] eqn:E1. destruct (validateFlowLevel _ f1) as [p2 f2] eqn:E2. destruct (validateNodes _ _ f2) as [p3 f3] eqn:E3.
  assert (H3 : public f3 = public f).
  { transitivity (public f2).
    - revert E3. unfold validateNodes. intros [= _ <-]. unfold public. cbn [set_f_Nodes f_Nodes]. rewrite <- !list_fmap_compose.
      assert (HP : public_node ∘ snd ∘ check_node expr_Compile schema_Compile f2 <$> f_Nodes f2 = public_node <$> f_Nodes f2)
        by (apply list_fmap_ext; intros i n _; apply check_public).
      by rewrite HP.
    - transitivity (public f1).
      + revert E2. unfold validateFlowLevel. by repeat case_match; intros [= _ <-].
      + revert E1. unfold indexNodes. by repeat case_match; intros [= _ <-]. }
  case_bool_decide; [intros [= _ <-]; exact H3|]. rewrite <- H3. unfold validate_graph, validateFans. intros HV. clear - HV.
  res_inv. simplify_eq/=. repeat case_match; simplify_eq/=; res_inv; by simplify_eq/=.
Qed.

(** C14. A definition without problems is valid: ids are tokens and name one node each, every
    route leads to a node, no route enters a branch, a join is entered from its
    fanout only, every fanout is paired with one join that waits for branches of
    it, choices have one default and compiled rules, every node can be reached
    from the start, budgets are positive and defaults fit their reducers. *)
Theorem validate_sound f f' : Validate f = Ok ([], f') -> valid f'.
Proof. apply Validate_valid. Qed.
End Validate.
