(* ===== verification/Event.v ===== *)
(** * Events ([event/event.go], [event/codec.go])

    The types of events, their payloads, and the table that ties a type to its
    payload.  Instants are integers of nanoseconds since the zero [time.Time].

    [ExecutionForked] and [ExecutionContinued] carry an encoded fold state.
    The payload type is therefore abstract here ([St]); the fold instantiates it
    with the decoded form of its own state. *)

From S2P Require Import Prelude Json.

Inductive EventType :=
| ExecutionStarted | ExecutionForked | ExecutionContinued | ExecutionCompleted | ExecutionFailed
| ExecutionCancelled | NodeEntered | NodeScheduled | NodeCompleted | NodeFailed | NodeInterrupted
| NodeCancelled | ChoiceEvaluated | FanoutStarted | JoinCompleted | AwaitStarted | AwaitTimedOut
| SignalReceived | SignalConsumed | ChannelsUpdated | MapStarted | MapCompleted | MapAborted
| ChildStarted | ChildCompleted | TimerScheduled | TimerFired.

#[export] Instance EventType_eq_dec : EqDecision EventType.
Proof. solve_decision. Defined.

(** [Type.Terminal]. *)
Definition type_terminal (t : EventType) : bool :=
  match t with ExecutionCompleted | ExecutionFailed | ExecutionCancelled => true | _ => false end.

Definition Version : Z := 1.

(** ** Failure reasons and timer purposes *)

Definition ReasonError : string := "error".
Definition ReasonTimeout : string := "timeout".
Definition ReasonInvalidOutput : string := "invalid_output".
Definition ReasonBudget : string := "budget_exceeded".
Definition ReasonMaxSteps : string := "max_steps".
Definition ReasonAwaitTimeout : string := "await_timeout".
Definition ReasonJoin : string := "join_failed".
Definition ReasonChild : string := "child_failed".
Definition ReasonExpression : string := "expression_error".
Definition ReasonDeliveryFailed : string := "delivery_failed".
Definition ReasonUnknownFlow : string := "unknown_flow".
Definition ReasonDecisionTooLarge : string := "decision_too_large".

Definition TimerRetry : string := "retry".
Definition TimerTimeout : string := "timeout".
Definition TimerAwait : string := "await".

(** ** Payloads *)

Record ParentRef := { pr_ExecID : string; pr_Node : string; pr_ChildN : Z }.

Record Started := {
  Started_ExecID : string; Started_Flow : string; Started_FlowHash : string;
  Started_Input : RawMessage; Started_Parent : option ParentRef; Started_Attrs : gmap string Text }.

Record Segment := {
  Segment_Object : string; Segment_FirstIndex : Z; Segment_LastIndex : Z;
  Segment_FirstSeq : Z; Segment_LastSeq : Z }.

Record Completed := { Completed_Output : RawMessage }.

Record Failed := {
  Failed_Error : Text; Failed_Reason : string; Failed_Node : string; Failed_CancelChildren : list string }.

Record Cancelled := { Cancelled_Reason : string; Cancelled_CancelChildren : list string }.

Record Entered := { Entered_Node : string }.

Record Scheduled := {
  Scheduled_Key : string; Scheduled_Node : string; Scheduled_Kind : string; Scheduled_Index : Z;
  Scheduled_Generation : Z; Scheduled_Attempt : Z; Scheduled_Owner : string;
  Scheduled_Item : RawMessage; Scheduled_Resume : RawMessage; Scheduled_ResumedBy : string }.

Record NodeDone := {
  NodeDone_Key : string; NodeDone_Node : string; NodeDone_Generation : Z; NodeDone_Attempt : Z;
  NodeDone_Output : RawMessage; NodeDone_Writes : gmap string RawMessage; NodeDone_Next : string;
  NodeDone_Usage : gmap string float64; NodeDone_Cached : bool; NodeDone_CacheKey : string }.

Record NodeFail := {
  NodeFail_Key : string; NodeFail_Node : string; NodeFail_Generation : Z; NodeFail_Attempt : Z;
  NodeFail_Error : Text; NodeFail_Reason : string; NodeFail_WillRetry : bool;
  NodeFail_Usage : gmap string float64 }.

Record Interrupted := {
  Interrupted_Key : string; Interrupted_Node : string; Interrupted_Generation : Z;
  Interrupted_Payload : RawMessage; Interrupted_Usage : gmap string float64 }.

Record NodeCancel := { NodeCancel_Key : string; NodeCancel_Node : string; NodeCancel_Reason : string }.

Record Choice := {
  Choice_Node : string; Choice_Rule : Z; Choice_Name : string; Choice_To : string;
  Choice_Error : Text }.

Record Fanout := { Fanout_Node : string; Fanout_Join : string; Fanout_Branches : list string }.

Record Join := {
  Join_Node : string; Join_Fanout : string; Join_Succeeded : list string; Join_Failed : list string;
  Join_OK : bool; Join_Output : RawMessage; Join_CancelChildren : list string }.

Record Await := { Await_Node : string; Await_Signal : string; Await_TimerID : string }.

Record AwaitTimeout := { AwaitTimeout_Node : string; AwaitTimeout_To : string }.

Record Signal := { Signal_Name : string; Signal_ID : string; Signal_Payload : RawMessage }.

Record SignalUse := { SignalUse_Node : string; SignalUse_Name : string; SignalUse_ID : string }.

Record Map := { Map_Node : string; Map_Items : list RawMessage; Map_MaxParallel : Z }.

Record MapDone := { MapDone_Node : string }.

Record Update := { Update_ID : string; Update_Writes : gmap string RawMessage }.

Record MapAbort := { MapAbort_Node : string; MapAbort_Index : Z; MapAbort_CancelChildren : list string }.

Record Child := {
  Child_Node : string; Child_ChildID : string; Child_ChildN : Z; Child_Flow : string;
  Child_Input : RawMessage; Child_Policy : string; Child_Key : string; Child_Owner : string;
  Child_Index : Z }.

(** [Child.InstanceKey]. *)
Definition InstanceKey (c : Child) : string :=
  if String.eqb (Child_Key c) "" then Child_Node c else Child_Key c.

Record ChildDone := {
  ChildDone_Node : string; ChildDone_Key : string; ChildDone_ChildID : string;
  ChildDone_Status : string; ChildDone_Output : RawMessage; ChildDone_Error : Text;
  ChildDone_Counters : gmap string float64 }.

Record Timer := {
  Timer_ID : string; Timer_N : Z; Timer_At : Z; Timer_Purpose : string; Timer_Key : string;
  Timer_Node : string; Timer_Generation : Z; Timer_Attempt : Z }.

Record Fired := { Fired_ID : string }.

Section WithState.
Context {St : Type}.

Record Forked := { Forked_ExecID : string; Forked_From : string; Forked_Seq : Z; Forked_State : St }.

Record Continued := { Continued_State : St; Continued_Segment : Segment }.

(** [Event.Data]: a pointer to the payload of one of the types. *)
Inductive EventData :=
| DStarted (d : Started) | DForked (d : Forked) | DContinued (d : Continued)
| DCompleted (d : Completed) | DFailed (d : Failed) | DCancelled (d : Cancelled)
| DEntered (d : Entered) | DScheduled (d : Scheduled) | DNodeDone (d : NodeDone)
| DNodeFail (d : NodeFail) | DInterrupted (d : Interrupted) | DNodeCancel (d : NodeCancel)
| DChoice (d : Choice) | DFanout (d : Fanout) | DJoin (d : Join) | DAwait (d : Await)
| DAwaitTimeout (d : AwaitTimeout) | DSignal (d : Signal) | DSignalUse (d : SignalUse)
| DUpdate (d : Update) | DMap (d : Map) | DMapDone (d : MapDone) | DMapAbort (d : MapAbort)
| DChild (d : Child) | DChildDone (d : ChildDone) | DTimer (d : Timer) | DFired (d : Fired).

(** The payload each type decodes to ([newPayload], [newPayload2]), read from
    the payload: the type under which it is stored. *)
Definition payload_type (d : EventData) : EventType :=
  match d with
  | DStarted _ => ExecutionStarted | DForked _ => ExecutionForked
  | DContinued _ => ExecutionContinued | DCompleted _ => ExecutionCompleted
  | DFailed _ => ExecutionFailed | DCancelled _ => ExecutionCancelled
  | DEntered _ => NodeEntered | DScheduled _ => NodeScheduled | DNodeDone _ => NodeCompleted
  | DNodeFail _ => NodeFailed | DInterrupted _ => NodeInterrupted | DNodeCancel _ => NodeCancelled
  | DChoice _ => ChoiceEvaluated | DFanout _ => FanoutStarted | DJoin _ => JoinCompleted
  | DAwait _ => AwaitStarted | DAwaitTimeout _ => AwaitTimedOut | DSignal _ => SignalReceived
  | DSignalUse _ => SignalConsumed | DUpdate _ => ChannelsUpdated | DMap _ => MapStarted
  | DMapDone _ => MapCompleted | DMapAbort _ => MapAborted | DChild _ => ChildStarted
  | DChildDone _ => ChildCompleted | DTimer _ => TimerScheduled | DFired _ => TimerFired
  end.

Record Event := {
  ev_Type : EventType; ev_Version : Z; ev_Time : Z; ev_Index : Z; ev_CmdID : string;
  ev_Trace : string; ev_Data : EventData; ev_Seq : Z; ev_DecisionEnd : bool }.

(** [event.New]. *)
Definition event_New (t : EventType) (data : EventData) : Event := {|
  ev_Type := t; ev_Version := Version; ev_Time := 0; ev_Index := 0; ev_CmdID := ""; ev_Trace := "";
  ev_Data := data; ev_Seq := 0; ev_DecisionEnd := false |}.
End WithState.

Arguments Forked : clear implicits.
Arguments Continued : clear implicits.
Arguments EventData : clear implicits.
Arguments Event : clear implicits.
