(* ===== verification/Cmd.v ===== *)
(** * Commands ([internal/cmd])

    The command envelope, its validation, the payload of each command, and the
    decoding of a payload from its JSON. *)

From S2P Require Import Prelude Json GoStrings Names Event.

Inductive CmdType :=
| CStart | CFork | CComplete | CFail | CInterrupt | CResume | CSignal | CCancel | CUpdate | CTimer
| CChildDone | CArchive | CDelete | CRedispatch
| COther (name : string).

#[export] Instance CmdType_eq_dec : EqDecision CmdType.
Proof. solve_decision. Defined.

Record Command := {
  c_ID : string; c_Type : CmdType; c_ExecID : string; c_Time : Z; c_Data : RawMessage; c_Reply : string }.

(** ** Payloads *)

Record StartData := {
  StartData_Flow : string; StartData_Version : string; StartData_Input : RawMessage;
  StartData_Parent : option ParentRef }.

Record ForkData := {
  ForkData_From : string; ForkData_Seq : Z; ForkData_Writes : gmap string RawMessage }.

Record UpdateData := { UpdateData_Writes : gmap string RawMessage }.

Record TaskRef := { ref_Key : string; ref_Generation : Z; ref_Attempt : Z }.

Record CompleteData := {
  CompleteData_TaskRef : TaskRef; CompleteData_Output : RawMessage;
  CompleteData_Writes : gmap string RawMessage; CompleteData_Next : string;
  CompleteData_Usage : gmap string float64; CompleteData_CacheKey : string;
  CompleteData_Cached : bool }.

Record FailData := {
  FailData_TaskRef : TaskRef; FailData_Error : string; FailData_Retryable : bool;
  FailData_Reason : string; FailData_Usage : gmap string float64 }.

Record InterruptData := {
  InterruptData_TaskRef : TaskRef; InterruptData_Payload : RawMessage;
  InterruptData_Usage : gmap string float64 }.

Record ResumeData := {
  ResumeData_Node : string; ResumeData_Key : string; ResumeData_Value : RawMessage;
  ResumeData_By : string }.

Record SignalData := { SignalData_Name : string; SignalData_Payload : RawMessage }.

Record CancelData := { CancelData_Reason : string }.

Record TimerData := { TimerData_TimerID : string }.

Record ChildDoneData := {
  ChildDoneData_ChildID : string; ChildDoneData_Status : string; ChildDoneData_Output : RawMessage;
  ChildDoneData_Error : string; ChildDoneData_Counters : gmap string float64 }.

(** ** The envelope *)

Definition maxIDLen : Z := 256.

Definition known_type (t : CmdType) : bool := match t with COther _ => false | _ => true end.

Definition Validate (c : Command) : option Text :=
  if String.eqb (c_ID c) "" then Some (TStr "cmd: missing id")
  else if maxIDLen <? Z.of_nat (String.length (c_ID c)) then
    Some (Sprintf "cmd: id longer than %d" [AInt maxIDLen])
  else match CheckToken "execution id" (c_ExecID c) with
       | Some err => Some (Sprintf "cmd: %w" [AText err])
       | None =>
           match c_Type c with
           | COther t => Some (Sprintf "cmd: unknown type %q" [AStr t])
           | _ => None
           end
       end.

(** ** Decoding structs

    A struct is decoded from an object (or from null, which leaves it zero);
    members match fields by name, ignoring ASCII case, and unknown members are
    ignored.  [member name kvs] is the value assigned to the field: the last
    matching member, or null (the zero value) without one. *)

Definition member_opt {A} (name : string) (kvs : list (string * A)) : option A :=
  snd <$> List.find (fun kv => String.eqb (ToLower (fst kv)) name) (reverse kvs).
Definition member (name : string) (kvs : list (string * Json)) : Json :=
  default JNull (member_opt name kvs).

Definition members (j : Json) : option (list (string * Json)) :=
  match j with JNull => Some [] | JObj kvs => Some kvs | _ => None end.

(** A [json.RawMessage] field keeps the member as it is, null included. *)
Definition raw_member (name : string) (kvs : list (string * Json)) : RawMessage := member_opt name kvs.

Definition raw_map (j : Json) : option (gmap string RawMessage) :=
  match unmarshal_map j with
  | Some (Some m) => Some (fmap (M:=gmap string) Some m)
  | Some None => Some ∅
  | None => None
  end.

(** A [map[string]float64] field: every member must be a number. *)
Definition float_map (j : Json) : option (gmap string float64) :=
  match unmarshal_map j with
  | Some (Some m) =>
      if bool_decide (map_Forall (fun _ v => is_Some (unmarshal_float v)) m)
      then Some (omap (M:=gmap string) unmarshal_float m) else None
  | Some None => Some ∅
  | None => None
  end.

Definition decode_ParentRef (j : Json) : option (option ParentRef) :=
  match j with
  | JNull => Some None
  | _ =>
      kvs ← members j;
      e ← unmarshal_string (member "exec_id" kvs);
      n ← unmarshal_string (member "node" kvs);
      c ← unmarshal_int (member "child_n" kvs);
      Some (Some {| pr_ExecID := e; pr_Node := n; pr_ChildN := c |})
  end.

Definition decode_StartData (j : Json) : option StartData :=
  kvs ← members j;
  f ← unmarshal_string (member "flow" kvs);
  v ← unmarshal_string (member "version" kvs);
  p ← decode_ParentRef (member "parent" kvs);
  Some {| StartData_Flow := f; StartData_Version := v; StartData_Input := raw_member "input" kvs;
          StartData_Parent := p |}.

Definition decode_ForkData (j : Json) : option ForkData :=
  kvs ← members j;
  f ← unmarshal_string (member "from" kvs);
  s ← unmarshal_uint (member "seq" kvs);
  w ← raw_map (member "writes" kvs);
  Some {| ForkData_From := f; ForkData_Seq := s; ForkData_Writes := w |}.

Definition decode_UpdateData (j : Json) : option UpdateData :=
  kvs ← members j;
  w ← raw_map (member "writes" kvs);
  Some {| UpdateData_Writes := w |}.

Definition decode_TaskRef (kvs : list (string * Json)) : option TaskRef :=
  k ← unmarshal_string (member "key" kvs);
  g ← unmarshal_int (member "generation" kvs);
  a ← unmarshal_int (member "attempt" kvs);
  Some {| ref_Key := k; ref_Generation := g; ref_Attempt := a |}.

Definition decode_CompleteData (j : Json) : option CompleteData :=
  kvs ← members j;
  r ← decode_TaskRef kvs;
  w ← raw_map (member "writes" kvs);
  n ← unmarshal_string (member "next" kvs);
  u ← float_map (member "usage" kvs);
  ck ← unmarshal_string (member "cache_key" kvs);
  ca ← unmarshal_bool (member "cached" kvs);
  Some {| CompleteData_TaskRef := r; CompleteData_Output := raw_member "output" kvs;
          CompleteData_Writes := w; CompleteData_Next := n; CompleteData_Usage := u;
          CompleteData_CacheKey := ck; CompleteData_Cached := ca |}.

Definition decode_FailData (j : Json) : option FailData :=
  kvs ← members j;
  r ← decode_TaskRef kvs;
  e ← unmarshal_string (member "error" kvs);
  rt ← unmarshal_bool (member "retryable" kvs);
  re ← unmarshal_string (member "reason" kvs);
  u ← float_map (member "usage" kvs);
  Some {| FailData_TaskRef := r; FailData_Error := e; FailData_Retryable := rt;
          FailData_Reason := re; FailData_Usage := u |}.

Definition decode_InterruptData (j : Json) : option InterruptData :=
  kvs ← members j;
  r ← decode_TaskRef kvs;
  u ← float_map (member "usage" kvs);
  Some {| InterruptData_TaskRef := r; InterruptData_Payload := raw_member "payload" kvs;
          InterruptData_Usage := u |}.

Definition decode_ResumeData (j : Json) : option ResumeData :=
  kvs ← members j;
  n ← unmarshal_string (member "node" kvs);
  k ← unmarshal_string (member "key" kvs);
  b ← unmarshal_string (member "by" kvs);
  Some {| ResumeData_Node := n; ResumeData_Key := k; ResumeData_Value := raw_member "value" kvs;
          ResumeData_By := b |}.

Definition decode_SignalData (j : Json) : option SignalData :=
  kvs ← members j;
  n ← unmarshal_string (member "name" kvs);
  Some {| SignalData_Name := n; SignalData_Payload := raw_member "payload" kvs |}.

Definition decode_CancelData (j : Json) : option CancelData :=
  kvs ← members j;
  r ← unmarshal_string (member "reason" kvs);
  Some {| CancelData_Reason := r |}.

Definition decode_TimerData (j : Json) : option TimerData :=
  kvs ← members j;
  t ← unmarshal_string (member "timer_id" kvs);
  Some {| TimerData_TimerID := t |}.

Definition decode_ChildDoneData (j : Json) : option ChildDoneData :=
  kvs ← members j;
  i ← unmarshal_string (member "child_id" kvs);
  s ← unmarshal_string (member "status" kvs);
  e ← unmarshal_string (member "error" kvs);
  c ← float_map (member "counters" kvs);
  Some {| ChildDoneData_ChildID := i; ChildDoneData_Status := s;
          ChildDoneData_Output := raw_member "output" kvs; ChildDoneData_Error := e;
          ChildDoneData_Counters := c |}.

(** [Command.Payload]: an absent payload decodes to the zero value, as null
    does. *)
Definition Payload {P} (dec : Json -> option P) (c : Command) : result P :=
  match dec (marshal_raw (c_Data c)) with
  | Some p => Ok p
  | None => Err (Error [] (TStr "cmd: decode payload"))
  end.
