(* ===== verification/CmdCodec.v ===== *)
(** * Building commands ([cmd.New])

    The JSON a payload is encoded as (members in the order of the fields,
    [omitempty] members left out), the envelope around it, and that decoding
    gives the payload back. *)

From S2P Require Import Prelude Json GoStrings Names Event Cmd.

(** ** Objects *)

(** The members that are present. *)
Definition present {A} (fields : list (string * option A)) : list (string * A) :=
  omap (fun f => (fun v => (fst f, v)) <$> snd f) fields.
Definition object (fields : list (string * option Json)) : Json := JObj (present fields).

(** Fields, always written or [omitempty]. *)
Definition text (s : string) : option Json := Some (JStr s).
Definition text_omitempty (s : string) : option Json := if String.eqb s "" then None else Some (JStr s).
Definition number (z : Z) : option Json := Some (JNum (NInt z)).
Definition flag_omitempty (b : bool) : option Json := if b then Some (JBool true) else None.
Definition raws (m : gmap string RawMessage) : option Json := Some (marshal_map m).
Definition raws_omitempty (m : gmap string RawMessage) : option Json :=
  if bool_decide (m = ∅) then None else Some (marshal_map m).

(** A map of floats: an infinity or a NaN does not encode; the error names the
    first in the order of the keys. *)
Definition unsupported (m : gmap string float64) : Text :=
  match List.find (fun f => negb (f_finite f)) (omap (fun k => m !! k) (sorted_keys m)) with
  | Some f => Sprintf "json: unsupported value: %v" [AFloat f]
  | None => ""
  end.
Definition floats_omitempty (m : gmap string float64) : result (option Json) :=
  if bool_decide (m = ∅) then Ok None
  else if bool_decide (map_Forall (fun _ f => f_finite f = true) m) then
    Ok (Some (marshal_map ((fun f => Some (JNum (NFloat f))) <$> m)))
  else Err (Error [] (unsupported m)).

(** ** Payloads *)

Definition encode_ParentRef (p : ParentRef) : Json :=
  object [("exec_id", text (pr_ExecID p)); ("node", text (pr_Node p)); ("child_n", number (pr_ChildN p))].

Definition encode_TaskRef (r : TaskRef) : list (string * option Json) :=
  [("key", text (ref_Key r)); ("generation", number (ref_Generation r)); ("attempt", number (ref_Attempt r))].

Inductive CmdPayload :=
| PStart (d : StartData)
| PFork (d : ForkData)
| PUpdate (d : UpdateData)
| PComplete (d : CompleteData)
| PFail (d : FailData)
| PInterrupt (d : InterruptData)
| PResume (d : ResumeData)
| PSignal (d : SignalData)
| PCancel (d : CancelData)
| PTimer (d : TimerData)
| PChildDone (d : ChildDoneData).

Definition encode_payload (p : CmdPayload) : result Json :=
  match p with
  | PStart d => Ok (object [
      ("flow", text (StartData_Flow d)); ("version", text_omitempty (StartData_Version d));
      ("input", StartData_Input d); ("parent", encode_ParentRef <$> StartData_Parent d)])
  | PFork d => Ok (object [
      ("from", text (ForkData_From d)); ("seq", number (ForkData_Seq d)); ("writes", raws_omitempty (ForkData_Writes d))])
  | PUpdate d => Ok (object [("writes", raws (UpdateData_Writes d))])
  | PComplete d =>
      let? u := floats_omitempty (CompleteData_Usage d) in
      Ok (object (encode_TaskRef (CompleteData_TaskRef d) ++ [
        ("output", CompleteData_Output d); ("writes", raws_omitempty (CompleteData_Writes d));
        ("next", text_omitempty (CompleteData_Next d)); ("usage", u);
        ("cache_key", text_omitempty (CompleteData_CacheKey d)); ("cached", flag_omitempty (CompleteData_Cached d))]))
  | PFail d =>
      let? u := floats_omitempty (FailData_Usage d) in
      Ok (object (encode_TaskRef (FailData_TaskRef d) ++ [
        ("error", text (FailData_Error d)); ("retryable", Some (JBool (FailData_Retryable d)));
        ("reason", text_omitempty (FailData_Reason d)); ("usage", u)]))
  | PInterrupt d =>
      let? u := floats_omitempty (InterruptData_Usage d) in
      Ok (object (encode_TaskRef (InterruptData_TaskRef d) ++ [("payload", InterruptData_Payload d); ("usage", u)]))
  | PResume d => Ok (object [
      ("node", text (ResumeData_Node d)); ("key", text_omitempty (ResumeData_Key d));
      ("value", ResumeData_Value d); ("by", text_omitempty (ResumeData_By d))])
  | PSignal d => Ok (object [("name", text (SignalData_Name d)); ("payload", SignalData_Payload d)])
  | PCancel d => Ok (object [("reason", text_omitempty (CancelData_Reason d))])
  | PTimer d => Ok (object [("timer_id", text (TimerData_TimerID d))])
  | PChildDone d =>
      let? c := floats_omitempty (ChildDoneData_Counters d) in
      Ok (object [
        ("child_id", text (ChildDoneData_ChildID d)); ("status", text (ChildDoneData_Status d));
        ("output", ChildDoneData_Output d); ("error", text_omitempty (ChildDoneData_Error d)); ("counters", c)])
  end.

Definition cmd_type_string (t : CmdType) : string :=
  match t with
  | CStart => "start" | CFork => "fork" | CComplete => "complete" | CFail => "fail" | CInterrupt => "interrupt"
  | CResume => "resume" | CSignal => "signal" | CCancel => "cancel" | CUpdate => "update" | CTimer => "timer"
  | CChildDone => "child_done" | CArchive => "archive" | CDelete => "delete" | CRedispatch => "redispatch"
  | COther name => name
  end.

(** The error of a payload that does not encode. *)
Definition cannot_encode (t : CmdType) (e : error) : error :=
  Error [] (Sprintf "cmd: encode %s: %w" [AStr (cmd_type_string t); AText (error_text e)]).

(** [cmd.New]. *)
Definition New (id : string) (t : CmdType) (x : string) (data : option CmdPayload) : result Command :=
  let? d := match data with
            | None => Ok None
            | Some p => match encode_payload p with
                        | Ok j => Ok (Some j)
                        | Err e => Err (cannot_encode t e)
                        end
            end in
  Ok {| c_ID := id; c_Type := t; c_ExecID := x; c_Time := 0; c_Data := d; c_Reply := "" |}.

(** ** Decoding what was encoded *)

Definition or_else {A} (a b : option A) : option A := match a with Some v => Some v | None => b end.

Lemma or_else_none {A} (a : option A) : or_else a None = a.
Proof. by destruct a. Qed.

(** The last member with a name. *)
Fixpoint field {A} (n : string) (fields : list (string * option A)) : option A :=
  match fields with
  | [] => None
  | (k, o) :: rest => or_else (field n rest) (if String.eqb (ToLower k) n then o else None)
  end.

Lemma member_opt_snoc {A} n kvs k (v : A) :
  member_opt n (kvs ++ [(k, v)]) = if String.eqb (ToLower k) n then Some v else member_opt n kvs.
Proof. unfold member_opt. rewrite reverse_snoc. cbn. by destruct (String.eqb _ _). Qed.

Lemma member_opt_app {A} n (l1 l2 : list (string * A)) :
  member_opt n (l1 ++ l2) = match member_opt n l2 with Some v => Some v | None => member_opt n l1 end.
Proof.
  induction l2 as [|[k v] l2 IH] using rev_ind; [by rewrite app_nil_r|].
  rewrite app_assoc, !member_opt_snoc. by destruct (String.eqb _ _).
Qed.

Lemma present_cons {A} k o (fields : list (string * option A)) :
  present ((k, o) :: fields) = match o with Some v => [(k, v)] | None => [] end ++ present fields.
Proof. by destruct o. Qed.

Lemma member_present {A} n (fields : list (string * option A)) : member_opt n (present fields) = field n fields.
Proof.
  induction fields as [|[k o] fields IH]; [done|]. cbn [field]. rewrite <- IH, present_cons, member_opt_app.
  destruct (member_opt n (present fields)); [done|]. cbn [or_else]. destruct o as [v|]; unfold member_opt; cbn; by destruct (String.eqb _ _).
Qed.

Lemma text_back s : unmarshal_string (default JNull (text_omitempty s)) = Some s.
Proof. unfold text_omitempty. by destruct (String.eqb_spec s "") as [->|]. Qed.

Lemma flag_back b : unmarshal_bool (default JNull (flag_omitempty b)) = Some b.
Proof. by destruct b. Qed.

Definition int_range (z : Z) : Prop := - 2 ^ 63 <= z < 2 ^ 63.

Lemma number_back z : int_range z -> unmarshal_int (JNum (NInt z)) = Some z.
Proof. intros Hz. cbn. by rewrite decide_True. Qed.

Definition uint_range (z : Z) : Prop := 0 <= z < 2 ^ 64.

Lemma unsigned_back z : uint_range z -> unmarshal_uint (JNum (NInt z)) = Some z.
Proof. intros Hz. cbn. by rewrite decide_True. Qed.

(** A map of raw messages comes back with null for nil. *)
Definition reraw (m : gmap string RawMessage) : gmap string RawMessage := (fun r => Some (marshal_raw r)) <$> m.

Lemma raws_back m : raw_map (marshal_map m) = Some (reraw m).
Proof. unfold raw_map. rewrite unmarshal_marshal_map. f_equal. unfold reraw. by rewrite <- map_fmap_compose. Qed.

Lemma raws_omitempty_back m : raw_map (default JNull (raws_omitempty m)) = Some (reraw m).
Proof. unfold raws_omitempty. destruct (bool_decide_reflect (m = ∅)) as [->|]; [done|]. apply raws_back. Qed.

Lemma floats_back m o : floats_omitempty m = Ok o -> float_map (default JNull o) = Some m.
Proof.
  unfold floats_omitempty. destruct (bool_decide_reflect (m = ∅)) as [->|]; [by intros [= <-]|].
  destruct (bool_decide_reflect (map_Forall (fun _ f => f_finite f = true) m)) as [HF|]; [|done]. intros [= <-].
  match goal with |- float_map (default JNull (Some ?j)) = _ => change (float_map j = Some m) end.
  unfold float_map. rewrite unmarshal_marshal_map, <- map_fmap_compose.
  assert (HU : forall f, f_finite f = true -> unmarshal_float (JNum (NFloat f)) = Some f) by (intros f Hf; cbn; by rewrite Hf).
  rewrite bool_decide_eq_true_2.
  - f_equal. apply map_eq. intros k. rewrite lookup_omap, lookup_fmap. destruct (m !! k) as [f|] eqn:E; [|done]. cbn.
    rewrite (HF _ _ E). done.
  - intros k v Hv. rewrite lookup_fmap in Hv. destruct (m !! k) as [f|] eqn:E; [|done]. cbn in Hv. injection Hv as <-.
    rewrite HU by (by eapply HF). eauto.
Qed.

Definition ref_range (r : TaskRef) : Prop := int_range (ref_Generation r) /\ int_range (ref_Attempt r).

(** A payload that decodes from what it encodes to: its integers fit. *)
Definition in_range (p : CmdPayload) : Prop :=
  match p with
  | PStart d => match StartData_Parent d with Some p => int_range (pr_ChildN p) | None => True end
  | PFork d => uint_range (ForkData_Seq d)
  | PComplete d => ref_range (CompleteData_TaskRef d)
  | PFail d => ref_range (FailData_TaskRef d)
  | PInterrupt d => ref_range (InterruptData_TaskRef d)
  | _ => True
  end.

(** What comes back. *)
Definition decode_like (p : CmdPayload) (j : Json) : option CmdPayload :=
  match p with
  | PStart _ => PStart <$> decode_StartData j
  | PFork _ => PFork <$> decode_ForkData j
  | PUpdate _ => PUpdate <$> decode_UpdateData j
  | PComplete _ => PComplete <$> decode_CompleteData j
  | PFail _ => PFail <$> decode_FailData j
  | PInterrupt _ => PInterrupt <$> decode_InterruptData j
  | PResume _ => PResume <$> decode_ResumeData j
  | PSignal _ => PSignal <$> decode_SignalData j
  | PCancel _ => PCancel <$> decode_CancelData j
  | PTimer _ => PTimer <$> decode_TimerData j
  | PChildDone _ => PChildDone <$> decode_ChildDoneData j
  end.

Definition recode (p : CmdPayload) : CmdPayload :=
  match p with
  | PFork d => PFork {| ForkData_From := ForkData_From d; ForkData_Seq := ForkData_Seq d;
                        ForkData_Writes := reraw (ForkData_Writes d) |}
  | PUpdate d => PUpdate {| UpdateData_Writes := reraw (UpdateData_Writes d) |}
  | PComplete d => PComplete {|
      CompleteData_TaskRef := CompleteData_TaskRef d; CompleteData_Output := CompleteData_Output d;
      CompleteData_Writes := reraw (CompleteData_Writes d); CompleteData_Next := CompleteData_Next d;
      CompleteData_Usage := CompleteData_Usage d; CompleteData_CacheKey := CompleteData_CacheKey d;
      CompleteData_Cached := CompleteData_Cached d |}
  | _ => p
  end.

Lemma text_here s : unmarshal_string (default JNull (text s)) = Some s.
Proof. done. Qed.
Lemma number_here z : int_range z -> unmarshal_int (default JNull (number z)) = Some z.
Proof. apply number_back. Qed.
Lemma unsigned_here z : uint_range z -> unmarshal_uint (default JNull (number z)) = Some z.
Proof. apply unsigned_back. Qed.
Lemma raws_here m : raw_map (default JNull (raws m)) = Some (reraw m).
Proof. apply raws_back. Qed.

Create Rewrite HintDb decoded.
#[export] Hint Rewrite @or_else_none text_here text_back flag_back raws_here raws_omitempty_back : decoded.

(** Looks the fields of a written object up. *)
Ltac look_up :=
  unfold member, raw_member; rewrite ?member_present; cbn [field encode_TaskRef app];
  repeat match goal with
    | |- context [String.eqb (ToLower ?k) ?n] =>
        let b := eval vm_compute in (String.eqb (ToLower k) n) in change (String.eqb (ToLower k) n) with b
    end;
  cbv iota; cbn [or_else]; autorewrite with decoded; cbn [mbind option_bind].

Lemma parent_back o :
  match o with Some p => int_range (pr_ChildN p) | None => True end ->
  decode_ParentRef (default JNull (encode_ParentRef <$> o)) = Some o.
Proof.
  destruct o as [[x n c]|]; [|done]. intros Hc. change (decode_ParentRef (encode_ParentRef (Build_ParentRef x n c)) = Some (Some (Build_ParentRef x n c))).
  unfold decode_ParentRef, encode_ParentRef, object, members. cbn [mbind option_bind]. look_up. rewrite number_here by done. done.
Qed.

Lemma New_payload id t x p c :
  in_range p -> New id t x (Some p) = Ok c ->
  c_ID c = id /\ c_Type c = t /\ c_ExecID c = x /\ Payload (decode_like p) c = Ok (recode p).
Proof.
  unfold New. intros Hr HN. destruct (encode_payload p) as [j|e] eqn:EP; [|done]. injection HN as <-.
  split; [done|]. split; [done|]. split; [done|]. 
  enough (HD : decode_like p j = Some (recode p)) by (unfold Payload; cbn [c_Data]; change (marshal_raw (Some j)) with j; by rewrite HD).
  destruct p as [d|d|d|d|d|d|d|d|d|d|d]; cbn [encode_payload in_range] in EP, Hr;
    try (apply res_bind_ok in EP as (u & Hu & EP)); injection EP as <-; cbn [decode_like recode];
    unfold decode_StartData, decode_ForkData, decode_UpdateData, decode_CompleteData, decode_FailData, decode_InterruptData,
      decode_ResumeData, decode_SignalData, decode_CancelData, decode_TimerData, decode_ChildDoneData, object, members;
    cbn [mbind option_bind].
  - look_up. rewrite parent_back by done. by destruct d.
  - look_up. rewrite unsigned_here by done. cbn [mbind option_bind]. look_up. by destruct d.
  - look_up. done.
  - destruct Hr as [Hg Ha]. unfold decode_TaskRef. look_up. rewrite (number_here _ Hg), (number_here _ Ha).
    cbn [mbind option_bind]. look_up. rewrite (floats_back _ _ Hu). cbn [mbind option_bind]. look_up. by destruct d as [[] ].
  - destruct Hr as [Hg Ha]. unfold decode_TaskRef. look_up. rewrite (number_here _ Hg), (number_here _ Ha).
    cbn [mbind option_bind]. look_up. rewrite (floats_back _ _ Hu). by destruct d as [[] ].
  - destruct Hr as [Hg Ha]. unfold decode_TaskRef. look_up. rewrite (number_here _ Hg), (number_here _ Ha).
    cbn [mbind option_bind]. look_up. rewrite (floats_back _ _ Hu). by destruct d as [[] ].
  - look_up. by destruct d.
  - look_up. by destruct d.
  - look_up. by destruct d.
  - look_up. by destruct d.
  - look_up. rewrite (floats_back _ _ Hu). by destruct d.
Qed.

(** C30. A command carries its payload: what [cmd.New] encodes for
    any payload whose integers fit the machine is decoded by the handler of the
    command as the same payload, except that a nil message in a map of writes
    comes back as null; a payload with a usage or a counter that is not a finite
    number is refused. *)
Theorem command_roundtrip id t x p c :
  in_range p -> New id t x (Some p) = Ok c ->
  c_ID c = id /\ c_Type c = t /\ c_ExecID c = x /\ Payload (decode_like p) c = Ok (recode p).
Proof. apply New_payload. Qed.
