(* ===== verification/Reduce.v ===== *)
(** * Channel reducers ([internal/fold/reduce.go])

    How a write is folded into the value of its channel, and what each reducer
    accepts.  The same function validates a write in the decision and applies
    it in the fold. *)

From S2P Require Import Prelude Json Flow.

Definition errReducer {A} (msg : Text) : result A := Err (Error [ErrReducer] msg).

Definition reduceAppend (cur delta : RawMessage) : result RawMessage :=
  let? list := if isNull cur then Ok []
               else match unmarshal_slice (marshal_raw cur) with
                    | Some l => Ok l
                    | None => errReducer "reducer: append: current value is not an array"
                    end in
  let items := match delta with
               | Some d => match unmarshal_slice d with Some items => items | None => [d] end
               | None => [JNull]
               end in
  Ok (Some (JArr (list ++ items))).

Definition reduceMerge (cur delta : RawMessage) : result RawMessage :=
  let? obj := if isNull cur then Ok ∅
              else match unmarshal_map (marshal_raw cur) with
                   | Some (Some obj) => Ok obj
                   | _ => errReducer "reducer: merge: current value is not an object"
                   end in
  match delta ≫= unmarshal_map with
  | Some (Some d) => Ok (Some (marshal_map (fmap (M:=gmap string) Some (d ∪ obj))))
  | _ => errReducer "reducer: merge: delta is not an object"
  end.

Definition reduceSum (cur delta : RawMessage) : result RawMessage :=
  let? a := if isNull cur then Ok f_zero
            else match unmarshal_float (marshal_raw cur) with
                 | Some a => Ok a
                 | None => errReducer "reducer: sum: current value is not a number"
                 end in
  match delta ≫= unmarshal_float with
  | Some b =>
      let v := f_add a b in
      if f_finite v then Ok (Some (JNum (NFloat v)))
      else Err (Error [] "json: unsupported value")
  | None => errReducer "reducer: sum: delta is not a number"
  end.

Definition Reduce (reducer : string) (cur delta : RawMessage) : result RawMessage :=
  if String.eqb reducer ReducerReplace || String.eqb reducer "" then Ok delta
  else if String.eqb reducer ReducerAppend then reduceAppend cur delta
  else if String.eqb reducer ReducerMerge then reduceMerge cur delta
  else if String.eqb reducer ReducerSum then reduceSum cur delta
  else errReducer (Sprintf "reducer: unknown reducer %q" [AStr reducer]).

(** ** The values each reducer keeps

    [accepts r v]: [v] is a value the reducer can keep folding into. *)
Definition accepts (reducer : string) (v : RawMessage) : Prop :=
  if String.eqb reducer ReducerAppend then isNull v = true \/ exists l, v = Some (JArr l)
  else if String.eqb reducer ReducerMerge then isNull v = true \/ exists o, v = Some (JObj o)
  else if String.eqb reducer ReducerSum then
    isNull v = true \/ exists j f, v = Some j /\ unmarshal_float j = Some f
  else True.

(** A reduced value can be folded into again: a channel never gets stuck on a
    value its own reducer produced. *)
Lemma Reduce_accepts reducer cur delta v :
  Reduce reducer cur delta = Ok v -> accepts reducer v.
Proof.
  unfold Reduce, accepts.
  destruct (String.eqb_spec reducer ReducerReplace) as [->|_]; [done|].
  destruct (String.eqb_spec reducer "") as [->|_]; [done|]. simpl.
  destruct (String.eqb reducer ReducerAppend).
  { unfold reduceAppend. intros H. res_inv. subst. eauto. }
  destruct (String.eqb reducer ReducerMerge).
  { unfold reduceMerge. intros H. res_inv. destruct (delta ≫= unmarshal_map) as [[d|]|]; [|done..].
    res_inv. subst. unfold marshal_map. eauto. }
  destruct (String.eqb reducer ReducerSum); [|done].
  unfold reduceSum. intros H. res_inv. destruct (delta ≫= unmarshal_float) as [b|]; [|done].
  destruct (f_finite _) eqn:Hf; [|done]. res_inv. subst. right. do 2 eexists. split; [done|].
  simpl. by rewrite Hf.
Qed.

(** [merge] is a right-biased union of the members. *)
Lemma reduceMerge_lookup o d v :
  reduceMerge (Some (JObj o)) (Some (JObj d)) = Ok v ->
  exists kvs, v = Some (JObj kvs) /\ forall k,
    (list_to_map (reverse kvs) : gmap string Json) !! k =
    match (list_to_map (reverse d) : gmap string Json) !! k with
    | Some x => Some x
    | None => (list_to_map (reverse o) : gmap string Json) !! k
    end.
Proof.
  unfold reduceMerge. simpl. intros [= <-]. eexists. split; [done|].
  intros k. rewrite marshal_map_lookup, lookup_fmap, lookup_union.
  destruct (_ !! k), (_ !! k); done.
Qed.
