(* ===== verification/State.v ===== *)
(** * The state of an execution and its fold ([internal/fold/state.go])

    [State] is the projection of an execution's events; [Apply] folds one event
    into it, [Fold] a whole log.  Maps are finite maps: Go's nil map and empty
    map are not distinguished (the code re-makes every map it clears).  Instants
    are nanoseconds since the zero time, integers are unbounded (they count
    events, steps and attempts of one execution). *)

From S2P Require Import Prelude Json Flow Event Reduce.

(** ** Statuses *)

(** [SNone] is the zero value, of an execution that has not started. *)
Inductive Status :=
| SNone | StatusRunning | StatusWaiting | StatusCompleted | StatusFailed | StatusCancelled.

#[export] Instance Status_eq_dec : EqDecision Status.
Proof. solve_decision. Defined.

(** The string a status is. *)
Definition status_string (s : Status) : string :=
  match s with
  | SNone => "" | StatusRunning => "running" | StatusWaiting => "waiting"
  | StatusCompleted => "completed" | StatusFailed => "failed" | StatusCancelled => "cancelled"
  end.

Definition Terminal (s : Status) : bool :=
  match s with StatusCompleted | StatusFailed | StatusCancelled => true | _ => false end.

Inductive TaskStatus := TaskScheduled | TaskRetrying | TaskInterrupted.

#[export] Instance TaskStatus_eq_dec : EqDecision TaskStatus.
Proof. solve_decision. Defined.

Inductive BranchStatus := BranchPending | BranchCompleted | BranchFailed | BranchCancelled.

#[export] Instance BranchStatus_eq_dec : EqDecision BranchStatus.
Proof. solve_decision. Defined.

(** ** Records *)

Record Task := {
  t_Key : string; t_Node : string; t_Kind : string; t_Index : Z; t_Owner : string;
  t_Generation : Z; t_Attempt : Z; t_Status : TaskStatus; t_Item : RawMessage;
  t_Resume : RawMessage; t_ResumedBy : string; t_Interrupt : RawMessage }.

Definition Task_eta (t : Task) : Task :=
  Build_Task (t_Key t) (t_Node t) (t_Kind t) (t_Index t) (t_Owner t) (t_Generation t)
    (t_Attempt t) (t_Status t) (t_Item t) (t_Resume t) (t_ResumedBy t) (t_Interrupt t).
Definition set_t_Status (v : TaskStatus) (t : Task) : Task := ltac:(assign Task_eta t t_Status v).
Definition set_t_Interrupt (v : RawMessage) (t : Task) : Task := ltac:(assign Task_eta t t_Interrupt v).

(** [resumption]: the resume value of an instance and who resumed it. *)
Record resumption := { rs_value : RawMessage; rs_by : string }.
Definition task_resumption (t : Task) : resumption := {| rs_value := t_Resume t; rs_by := t_ResumedBy t |}.
Definition no_resumption : resumption := {| rs_value := None; rs_by := "" |}.

Record Fan := { fan_Join : string; fan_Branches : gmap string BranchStatus }.

Record MapRun := {
  m_Items : list RawMessage; m_Outputs : list RawMessage; m_Done : Z; m_Next : Z; m_MaxParallel : Z }.

Definition MapRun_eta (m : MapRun) : MapRun :=
  Build_MapRun (m_Items m) (m_Outputs m) (m_Done m) (m_Next m) (m_MaxParallel m).
Definition set_m_Outputs (v : list RawMessage) (m : MapRun) : MapRun := ltac:(assign MapRun_eta m m_Outputs v).
Definition set_m_Done (v : Z) (m : MapRun) : MapRun := ltac:(assign MapRun_eta m m_Done v).
Definition set_m_Next (v : Z) (m : MapRun) : MapRun := ltac:(assign MapRun_eta m m_Next v).

Record AwaitState := { a_Signal : string; a_TimerID : string }.

Record ChildState := {
  cs_ChildID : string; cs_Flow : string; cs_Policy : string; cs_Node : string; cs_Owner : string;
  cs_Index : Z }.

Definition NodeOf (c : ChildState) (key : string) : string :=
  if String.eqb (cs_Node c) "" then key else cs_Node c.

Record Buffered := { b_Name : string; b_ID : string; b_Payload : RawMessage }.

Record NodeError := { ne_Error : Text; ne_Reason : string; ne_Attempt : Z; ne_Index : option Z }.

Record State := {
  s_ExecID : string; s_Flow : string; s_FlowHash : string; s_Status : Status; s_Input : RawMessage;
  s_Parent : option ParentRef; s_Attrs : gmap string Text; s_Channels : gmap string RawMessage;
  s_Results : gmap string RawMessage; s_LastNode : string; s_Visits : gmap string Z; s_Steps : Z;
  s_Signals : gmap string RawMessage; s_Buffered : list Buffered; s_SignalIDs : gmap string Z;
  s_UpdateIDs : gmap string Z; s_Counters : gmap string float64;
  s_Branches : gmap string BranchStatus; s_Errors : gmap string NodeError;
  s_Tasks : gmap string Task; s_Fans : gmap string Fan; s_Maps : gmap string MapRun;
  s_Awaits : gmap string AwaitState; s_Children : gmap string ChildState;
  s_Timers : gmap string Timer; s_N : Z; s_Output : RawMessage; s_Error : Text; s_Reason : string;
  s_FailedNode : string; s_Created : Z; s_Updated : Z; s_ForkedFrom : string; s_ForkSeq : Z;
  s_Base : Z; s_Segments : list Segment; s_LastSeq : Z; s_Events : Z; s_Archived : bool }.

Definition State_eta (s : State) : State :=
  Build_State (s_ExecID s) (s_Flow s) (s_FlowHash s) (s_Status s) (s_Input s) (s_Parent s)
    (s_Attrs s) (s_Channels s) (s_Results s) (s_LastNode s) (s_Visits s) (s_Steps s) (s_Signals s)
    (s_Buffered s) (s_SignalIDs s) (s_UpdateIDs s) (s_Counters s) (s_Branches s) (s_Errors s)
    (s_Tasks s) (s_Fans s) (s_Maps s) (s_Awaits s) (s_Children s) (s_Timers s) (s_N s)
    (s_Output s) (s_Error s) (s_Reason s) (s_FailedNode s) (s_Created s) (s_Updated s)
    (s_ForkedFrom s) (s_ForkSeq s) (s_Base s) (s_Segments s) (s_LastSeq s) (s_Events s)
    (s_Archived s).

(** Assignments [s.F = v]. *)
Definition set_ExecID (v : string) (s : State) : State := ltac:(assign State_eta s s_ExecID v).
Definition set_Flow (v : string) (s : State) : State := ltac:(assign State_eta s s_Flow v).
Definition set_FlowHash (v : string) (s : State) : State := ltac:(assign State_eta s s_FlowHash v).
Definition set_Status (v : Status) (s : State) : State := ltac:(assign State_eta s s_Status v).
Definition set_Input (v : RawMessage) (s : State) : State := ltac:(assign State_eta s s_Input v).
Definition set_Parent (v : option ParentRef) (s : State) : State := ltac:(assign State_eta s s_Parent v).
Definition set_Attrs (v : gmap string Text) (s : State) : State := ltac:(assign State_eta s s_Attrs v).
Definition set_Channels (v : gmap string RawMessage) (s : State) : State := ltac:(assign State_eta s s_Channels v).
Definition set_Results (v : gmap string RawMessage) (s : State) : State := ltac:(assign State_eta s s_Results v).
Definition set_LastNode (v : string) (s : State) : State := ltac:(assign State_eta s s_LastNode v).
Definition set_Visits (v : gmap string Z) (s : State) : State := ltac:(assign State_eta s s_Visits v).
Definition set_Steps (v : Z) (s : State) : State := ltac:(assign State_eta s s_Steps v).
Definition set_Signals (v : gmap string RawMessage) (s : State) : State := ltac:(assign State_eta s s_Signals v).
Definition set_Buffered (v : list Buffered) (s : State) : State := ltac:(assign State_eta s s_Buffered v).
Definition set_SignalIDs (v : gmap string Z) (s : State) : State := ltac:(assign State_eta s s_SignalIDs v).
Definition set_UpdateIDs (v : gmap string Z) (s : State) : State := ltac:(assign State_eta s s_UpdateIDs v).
Definition set_Counters (v : gmap string float64) (s : State) : State := ltac:(assign State_eta s s_Counters v).
Definition set_Branches (v : gmap string BranchStatus) (s : State) : State := ltac:(assign State_eta s s_Branches v).
Definition set_Errors (v : gmap string NodeError) (s : State) : State := ltac:(assign State_eta s s_Errors v).
Definition set_Tasks (v : gmap string Task) (s : State) : State := ltac:(assign State_eta s s_Tasks v).
Definition set_Fans (v : gmap string Fan) (s : State) : State := ltac:(assign State_eta s s_Fans v).
Definition set_Maps (v : gmap string MapRun) (s : State) : State := ltac:(assign State_eta s s_Maps v).
Definition set_Awaits (v : gmap string AwaitState) (s : State) : State := ltac:(assign State_eta s s_Awaits v).
Definition set_Children (v : gmap string ChildState) (s : State) : State := ltac:(assign State_eta s s_Children v).
Definition set_Timers (v : gmap string Timer) (s : State) : State := ltac:(assign State_eta s s_Timers v).
Definition set_N (v : Z) (s : State) : State := ltac:(assign State_eta s s_N v).
Definition set_Output (v : RawMessage) (s : State) : State := ltac:(assign State_eta s s_Output v).
Definition set_Error (v : Text) (s : State) : State := ltac:(assign State_eta s s_Error v).
Definition set_Reason (v : string) (s : State) : State := ltac:(assign State_eta s s_Reason v).
Definition set_FailedNode (v : string) (s : State) : State := ltac:(assign State_eta s s_FailedNode v).
Definition set_Created (v : Z) (s : State) : State := ltac:(assign State_eta s s_Created v).
Definition set_Updated (v : Z) (s : State) : State := ltac:(assign State_eta s s_Updated v).
Definition set_ForkedFrom (v : string) (s : State) : State := ltac:(assign State_eta s s_ForkedFrom v).
Definition set_ForkSeq (v : Z) (s : State) : State := ltac:(assign State_eta s s_ForkSeq v).
Definition set_Base (v : Z) (s : State) : State := ltac:(assign State_eta s s_Base v).
Definition set_Segments (v : list Segment) (s : State) : State := ltac:(assign State_eta s s_Segments v).
Definition set_LastSeq (v : Z) (s : State) : State := ltac:(assign State_eta s s_LastSeq v).
Definition set_Events (v : Z) (s : State) : State := ltac:(assign State_eta s s_Events v).
Definition set_Archived (v : bool) (s : State) : State := ltac:(assign State_eta s s_Archived v).

(** A state encoded as JSON: the state its bytes decode to, or [None] for bytes
    that do not decode. *)
Abbreviation Encoded := (option State).
Abbreviation FoldEvent := (Event Encoded).
Abbreviation FoldData := (EventData Encoded).

(** ** Construction, encoding *)

(** [New]: the zero state with every map made. *)
Definition NewState (execID : string) : State :=
  Build_State execID "" "" SNone None None ∅ ∅ ∅ "" ∅ 0 ∅ [] ∅ ∅ ∅ ∅ ∅ ∅ ∅ ∅ ∅ ∅ ∅ 0
    None "" "" "" 0 0 "" 0 0 [] 0 0 false.

Definition Exists (s : State) : bool := 0 <? s_Events s.

(** What a raw message that is always encoded (no [omitempty]) decodes back to:
    nil becomes the literal null. *)
Definition reloaded (r : RawMessage) : RawMessage := Some (marshal_raw r).

(** [Unmarshal(json.Marshal(s))]: the members of the raw maps and of a map's
    items and outputs lose the difference between nil and null, every other
    field comes back as it was. *)
Definition reload (s : State) : State :=
  s |> set_Channels (reloaded <$> s_Channels s)
    |> set_Results (reloaded <$> s_Results s)
    |> set_Signals (reloaded <$> s_Signals s)
    |> set_Maps ((fun m => {| m_Items := reloaded <$> m_Items m; m_Outputs := reloaded <$> m_Outputs m;
                              m_Done := m_Done m; m_Next := m_Next m;
                              m_MaxParallel := m_MaxParallel m |}) <$> s_Maps s).

(** [json.Marshal(s)]: refused when a counter is not a finite number. *)
Definition MarshalState (s : State) : result Encoded :=
  if bool_decide (map_Forall (fun _ f => f_finite f = true) (s_Counters s)) then Ok (Some (reload s))
  else Err (Error [] "json: unsupported value").

Definition Unmarshal (b : Encoded) : result State :=
  match b with Some s => Ok s | None => Err (Error [ErrUndecodable] "fold: decode state") end.

(** [Clone]. *)
Definition Clone (s : State) : result State := let? b := MarshalState s in Unmarshal b.

(** ** Open nodes *)

(** [s.Tasks] and [s.Children] are ranged over; the answer does not depend on
    the order. *)
Definition Open (s : State) (nd : string) : bool :=
  bool_decide (is_Some (s_Fans s !! nd)) || bool_decide (is_Some (s_Maps s !! nd))
  || bool_decide (is_Some (s_Awaits s !! nd))
  || existsb (fun kt => String.eqb (t_Node (snd kt)) nd) (map_to_list (s_Tasks s))
  || existsb (fun kc => String.eqb (NodeOf (snd kc) (fst kc)) nd) (map_to_list (s_Children s)).

(** ** Helpers of the fold *)

Definition raw_at (m : gmap string RawMessage) (k : string) : RawMessage := default None (m !! k).
Definition float_at (m : gmap string float64) (k : string) : float64 := default f_zero (m !! k).
Definition int_at (m : gmap string Z) (k : string) : Z := default 0 (m !! k).

(** The body of [addUsage] and of the counters of a child: [Counters[k] += v]
    for every [k, v] of [u]. *)
Definition add_counters (c u : gmap string float64) : gmap string float64 :=
  merge (fun oc ou => match ou with
                      | None => oc
                      | Some v => Some (f_add (default f_zero oc) v)
                      end) c u.

Definition addUsage (u : gmap string float64) (s : State) : State :=
  set_Counters (add_counters (s_Counters s) u) s.

(** [s.Maps[owner]] when instance (node, owner) is an item of it. *)
Definition item_map (s : State) (nd owner : string) : option MapRun :=
  if String.eqb nd owner then s_Maps s !! owner else None.

(** Channel writes, in the order of their names, each through the reducer of
    its channel; without a definition every channel is replaced. *)
Definition applyWrites (def : option Flow) (writes : gmap string RawMessage) (s : State) : result State :=
  res_fold (fun s name =>
    let reducer := match def with Some f => channel_reducer f name | None => ReducerReplace end in
    let? v := Reduce reducer (raw_at (s_Channels s) name) (raw_at writes name) in
    Ok (set_Channels (<[name := v]> (s_Channels s)) s)) s (sorted_keys writes).

Definition settleTask (key : string) (outcome : BranchStatus) (s : State) : State :=
  match s_Tasks s !! key with
  | None => s
  | Some t =>
      let s := set_Tasks (delete key (s_Tasks s)) s in
      match s_Fans s !! t_Owner t with
      | Some f =>
          set_Fans (<[t_Owner t := {| fan_Join := fan_Join f;
                                      fan_Branches := <[t_Node t := outcome]> (fan_Branches f) |}]>
                      (s_Fans s)) s
      | None => s
      end
  end.

(** [dropChildren]: forget the children of [owner], returning their nodes in the
    order of their keys. *)
Definition dropChildren (owner : string) (s : State) : list string * State :=
  foldl (fun '(nodes, s) key =>
    match s_Children s !! key with
    | Some c => if String.eqb (cs_Owner c) owner
                then (nodes ++ [NodeOf c key], set_Children (delete key (s_Children s)) s)
                else (nodes, s)
    | None => (nodes, s)
    end) ([], s) (sorted_keys (s_Children s)).

(** [terminate]: nothing is in flight after a final status. *)
Definition terminate (st : Status) (s : State) : State :=
  s |> set_Status st |> set_Tasks ∅ |> set_Fans ∅ |> set_Maps ∅ |> set_Awaits ∅ |> set_Children ∅
    |> set_Timers ∅.

(** *** The deduplication memory *)

Definition signalIDWindow : Z := 24 * 3600 * Second.
Definition maxSignalIDs : Z := 10000.

(** [at.Sub(t)] saturates at the bounds of a duration. *)
Definition time_sub (u t : Z) : Z := Z.max (- 2 ^ 63) (Z.min (2 ^ 63 - 1) (u - t)).

(** The order of [slices.SortFunc]: by time, then by id. *)
Definition id_le (m : gmap string Z) (a b : string) : Prop :=
  int_at m a < int_at m b \/ int_at m a = int_at m b /\ str_le a b.

#[export] Instance id_le_dec m : RelDecision (id_le m).
Proof. intros a b. unfold id_le. apply _. Defined.

Definition rememberID (m : gmap string Z) (id : string) (at_ : Z) : gmap string Z :=
  let m := <[id := at_]> m in
  let m := filter (fun kt => ~ signalIDWindow < time_sub at_ (snd kt)) m in
  let n := Z.of_nat (size m) in
  if n <=? maxSignalIDs then m
  else
    let ids := merge_sort (id_le m) (elements (dom m)) in
    foldl (fun m k => delete k m) m (take (Z.to_nat (n - maxSignalIDs)) ids).

(** *** Status *)

(** [recomputeStatus]: waiting when nothing is in flight but a signal or a
    resume. *)
Definition recomputeStatus (s : State) : State :=
  if bool_decide (map_Exists (fun _ t => t_Status t <> TaskInterrupted) (s_Tasks s)) then
    set_Status StatusRunning s
  else if bool_decide (s_Children s <> ∅) || bool_decide (s_Maps s <> ∅) then set_Status StatusRunning s
  else if bool_decide (s_Awaits s <> ∅) || bool_decide (s_Tasks s <> ∅) then set_Status StatusWaiting s
  else set_Status StatusRunning s.

(** ** Applying one event *)

Definition plain (msg : Text) : error := Error [] msg.

(** [applyStarted]; a channel default that does not encode leaves nil. *)
Definition applyStarted (def : option Flow) (ev_time : Z) (d : Started) (s : State) : State :=
  let s := s |> set_ExecID (Started_ExecID d) |> set_Flow (Started_Flow d)
             |> set_FlowHash (Started_FlowHash d)
             |> set_Input (Started_Input d) |> set_Parent (Started_Parent d)
             |> set_Attrs (Started_Attrs d)
             |> set_Status StatusRunning |> set_Created ev_time in
  match def with
  | None => s
  | Some f =>
      let defaults := omap (M:=gmap string)
        (fun c => match ch_Default c with Some v => Some (marshal_any v) | None => None end)
        (f_Channels f) in
      set_Channels (defaults ∪ s_Channels s) s
  end.

Definition applyForked (d : Forked Encoded) : result State :=
  let? src := Unmarshal (Forked_State d) in
  Ok (src |> set_ExecID (Forked_ExecID d)
          |> set_ForkedFrom (Forked_From d) |> set_ForkSeq (Forked_Seq d)
          |> set_Base 0 |> set_Segments []
          |> set_Timers ∅
          |> set_Events 0 |> set_LastSeq 0).

Definition applyScheduled (d : Scheduled) (s : State) : State :=
  let interrupt :=
    match s_Tasks s !! Scheduled_Key d, Scheduled_Resume d with
    | Some prev, Some _ => t_Interrupt prev
    | _, _ => None
    end in
  let t := {| t_Key := Scheduled_Key d; t_Node := Scheduled_Node d; t_Kind := Scheduled_Kind d;
              t_Index := Scheduled_Index d; t_Owner := Scheduled_Owner d;
              t_Generation := Scheduled_Generation d; t_Attempt := Scheduled_Attempt d;
              t_Status := TaskScheduled; t_Item := Scheduled_Item d; t_Resume := Scheduled_Resume d;
              t_ResumedBy := Scheduled_ResumedBy d; t_Interrupt := interrupt |} in
  let s := s |> set_Tasks (<[Scheduled_Key d := t]> (s_Tasks s))
             |> set_N (Z.max (s_N s) (Scheduled_Generation d)) in
  match item_map s (Scheduled_Node d) (Scheduled_Owner d) with
  | Some m =>
      set_Maps (<[Scheduled_Owner d := set_m_Next (Z.max (m_Next m) (Scheduled_Index d + 1)) m]> (s_Maps s)) s
  | None => s
  end.

(** The output of item [index] of map run [m], stored in its slot. *)
Definition item_done (owner : string) (m : MapRun) (index : Z) (output : RawMessage) (s : State)
  : result State :=
  let? outs := slice_set (m_Outputs m) index output in
  Ok (set_Maps (<[owner := m |> set_m_Outputs outs |> set_m_Done (m_Done m + 1)]> (s_Maps s)) s).

Definition applyNodeDone (def : option Flow) (d : NodeDone) (s : State) : result State :=
  match s_Tasks s !! NodeDone_Key d with
  | None => Err (plain (Sprintf "completion of unknown task %q" [AStr (NodeDone_Key d)]))
  | Some t =>
      let? s := applyWrites def (NodeDone_Writes d) s in
      let s := addUsage (NodeDone_Usage d) s in
      let? s := match item_map s (t_Node t) (t_Owner t) with
                | Some m => item_done (t_Owner t) m (t_Index t) (NodeDone_Output d) s
                | None => Ok (s |> set_Results (<[t_Node t := NodeDone_Output d]> (s_Results s))
                                |> set_LastNode (t_Node t)
                                |> set_Errors (delete (t_Node t) (s_Errors s)))
                end in
      Ok (settleTask (NodeDone_Key d) BranchCompleted s)
  end.

Definition applyNodeFail (d : NodeFail) (s : State) : State :=
  match s_Tasks s !! NodeFail_Key d with
  | None => s
  | Some t =>
      let s := addUsage (NodeFail_Usage d) s in
      if NodeFail_WillRetry d then
        set_Tasks (<[NodeFail_Key d := set_t_Status TaskRetrying t]> (s_Tasks s)) s
      else
        let ne := {| ne_Error := NodeFail_Error d; ne_Reason := NodeFail_Reason d;
                     ne_Attempt := NodeFail_Attempt d;
                     ne_Index := match item_map s (t_Node t) (t_Owner t) with
                                 | Some _ => Some (t_Index t)
                                 | None => None
                                 end |} in
        s |> set_Errors (<[t_Node t := ne]> (s_Errors s))
          |> set_LastNode (t_Node t)
          |> settleTask (NodeFail_Key d) BranchFailed
  end.

Definition applyInterrupted (d : Interrupted) (s : State) : result State :=
  match s_Tasks s !! Interrupted_Key d with
  | None => Err (plain (Sprintf "interrupt of unknown task %q" [AStr (Interrupted_Key d)]))
  | Some t =>
      let t := t |> set_t_Status TaskInterrupted |> set_t_Interrupt (Interrupted_Payload d) in
      Ok (s |> set_Tasks (<[Interrupted_Key d := t]> (s_Tasks s)) |> addUsage (Interrupted_Usage d))
  end.

Definition applyUpdate (def : option Flow) (d : Update) (at_ : Z) (s : State) : result State :=
  let? s := applyWrites def (Update_Writes d) s in
  Ok (set_UpdateIDs (rememberID (s_UpdateIDs s) (Update_ID d) at_) s).

(** [applyStructure]: fan-outs, joins and maps. *)
Definition applyFanout (d : Fanout) (s : State) : State :=
  let f := {| fan_Join := Fanout_Join d;
              fan_Branches := foldl (fun m b => <[b := BranchPending]> m) ∅ (Fanout_Branches d) |} in
  set_Fans (<[Fanout_Node d := f]> (s_Fans s)) s.

Definition applyJoin (d : Join) (s : State) : State :=
  let s := match s_Fans s !! Join_Fanout d with
           | Some f =>
               let '(nodes, s) := dropChildren (Join_Fanout d) s in
               set_Branches (foldl (fun m k => <[k := BranchCancelled]> m) (fan_Branches f) nodes) s
           | None => s
           end in
  let s := s |> set_Fans (delete (Join_Fanout d) (s_Fans s))
             |> set_Results (<[Join_Node d := Join_Output d]> (s_Results s))
             |> set_LastNode (Join_Node d) in
  if Join_OK d then set_Errors (delete (Join_Node d) (s_Errors s)) s
  else
    let ne := {| ne_Error := Sprintf "branches %v did not succeed" [AStrs (Join_Failed d)];
                 ne_Reason := ReasonJoin; ne_Attempt := 0; ne_Index := None |} in
    set_Errors (<[Join_Node d := ne]> (s_Errors s)) s.

Definition applyMap (d : Map) (s : State) : State :=
  let m := {| m_Items := Map_Items d; m_Outputs := replicate (length (Map_Items d)) None;
              m_Done := 0; m_Next := 0; m_MaxParallel := Map_MaxParallel d |} in
  set_Maps (<[Map_Node d := m]> (s_Maps s)) s.

Definition applyMapDone (d : MapDone) (s : State) : result State :=
  match s_Maps s !! MapDone_Node d with
  | None => Err (plain (Sprintf "completion of unknown map %q" [AStr (MapDone_Node d)]))
  | Some m =>
      let out := Some (marshal_slice (m_Outputs m)) in
      Ok (s |> set_Results (<[MapDone_Node d := out]> (s_Results s))
            |> set_LastNode (MapDone_Node d)
            |> set_Maps (delete (MapDone_Node d) (s_Maps s))
            |> set_Errors (delete (MapDone_Node d) (s_Errors s)))
  end.

Definition applyMapAbort (d : MapAbort) (s : State) : State :=
  let s := snd (dropChildren (MapAbort_Node d) s) in
  set_Maps (delete (MapAbort_Node d) (s_Maps s)) s.

(** [applyWait]: awaits, signals, children and timers. *)
Definition closeAwait (nd : string) (s : State) : State :=
  let s := match s_Awaits s !! nd with
           | Some a => set_Timers (delete (a_TimerID a) (s_Timers s)) s
           | None => s
           end in
  set_Awaits (delete nd (s_Awaits s)) s.

Definition applySignal (d : Signal) (at_ : Z) (s : State) : State :=
  s |> set_Buffered (s_Buffered s ++
         [{| b_Name := Signal_Name d; b_ID := Signal_ID d; b_Payload := Signal_Payload d |}])
    |> set_SignalIDs (rememberID (s_SignalIDs s) (Signal_ID d) at_).

(** [slices.IndexFunc] and [slices.Delete]: the first buffered element that
    satisfies [p], and the others. *)
Fixpoint take_first (p : Buffered -> bool) (l : list Buffered) : option (Buffered * list Buffered) :=
  match l with
  | [] => None
  | b :: l' =>
      if p b then Some (b, l')
      else match take_first p l' with Some (x, r) => Some (x, b :: r) | None => None end
  end.

Definition applySignalUse (d : SignalUse) (s : State) : result State :=
  match take_first (fun b => String.eqb (b_ID b) (SignalUse_ID d)) (s_Buffered s) with
  | None => Err (plain (Sprintf "consumed signal %q is not buffered" [AStr (SignalUse_ID d)]))
  | Some (b, rest) =>
      Ok (s |> set_Buffered rest
            |> set_Signals (<[SignalUse_Name d := b_Payload b]> (s_Signals s))
            |> set_Results (<[SignalUse_Node d := b_Payload b]> (s_Results s))
            |> set_LastNode (SignalUse_Node d)
            |> closeAwait (SignalUse_Node d))
  end.

Definition applyChild (d : Child) (s : State) : State :=
  let c := {| cs_ChildID := Child_ChildID d; cs_Flow := Child_Flow d; cs_Policy := Child_Policy d;
              cs_Node := Child_Node d; cs_Owner := Child_Owner d; cs_Index := Child_Index d |} in
  let s := s |> set_Children (<[InstanceKey d := c]> (s_Children s))
             |> set_N (Z.max (s_N s) (Child_ChildN d)) in
  match item_map s (Child_Node d) (Child_Owner d) with
  | Some m =>
      set_Maps (<[Child_Owner d := set_m_Next (Z.max (m_Next m) (Child_Index d + 1)) m]> (s_Maps s)) s
  | None => s
  end.

Definition child_error (d : ChildDone) (index : option Z) : NodeError :=
  {| ne_Error := ChildDone_Error d; ne_Reason := ReasonChild; ne_Attempt := 0; ne_Index := index |}.

Definition applyChildDone (d : ChildDone) (s : State) : result State :=
  let nd := ChildDone_Node d in
  let key := if String.eqb (ChildDone_Key d) "" then nd else ChildDone_Key d in
  let c := s_Children s !! key in
  let s := s |> set_Children (delete key (s_Children s))
             |> set_Counters (add_counters (s_Counters s) (ChildDone_Counters d)) in
  let ok := String.eqb (ChildDone_Status d) (status_string StatusCompleted) in
  let item := match c with Some c => match item_map s nd (cs_Owner c) with
                                     | Some m => Some (c, m) | None => None end
                         | None => None end in
  match item with
  | Some (c, m) =>
      if ok then item_done (cs_Owner c) m (cs_Index c) (ChildDone_Output d) s
      else Ok (s |> set_Errors (<[nd := child_error d (Some (cs_Index c))]> (s_Errors s))
                 |> set_LastNode nd)
  | None =>
      let s := match c with
               | Some c =>
                   match s_Fans s !! cs_Owner c with
                   | Some f =>
                       let st := if ok then BranchCompleted else BranchFailed in
                       set_Fans (<[cs_Owner c := {| fan_Join := fan_Join f;
                                                    fan_Branches := <[nd := st]> (fan_Branches f) |}]>
                                   (s_Fans s)) s
                   | None => s
                   end
               | None => s
               end in
      let s := s |> set_Results (<[nd := ChildDone_Output d]> (s_Results s)) |> set_LastNode nd in
      Ok (if ok then set_Errors (delete nd (s_Errors s)) s
          else set_Errors (<[nd := child_error d None]> (s_Errors s)) s)
  end.

Definition applyTimer (d : Timer) (s : State) : State :=
  s |> set_Timers (<[Timer_ID d := d]> (s_Timers s)) |> set_N (Z.max (s_N s) (Timer_N d)).

(** [apply]: one event, by its payload ([apply], [applyNode], [applyStructure]
    and [applyWait] are one switch split in four). *)
Definition apply_ (def : option Flow) (s : State) (ev : FoldEvent) : result State :=
  match ev_Data ev with
  | DStarted d => Ok (applyStarted def (ev_Time ev) d s)
  | DForked d => applyForked d
  | DContinued d => let? src := Unmarshal (Continued_State d) in Ok (set_Base (ev_Index ev) src)
  | DCompleted d => Ok (s |> terminate StatusCompleted |> set_Output (Completed_Output d))
  | DFailed d => Ok (s |> terminate StatusFailed |> set_Error (Failed_Error d)
                       |> set_Reason (Failed_Reason d) |> set_FailedNode (Failed_Node d))
  | DCancelled d => Ok (s |> terminate StatusCancelled |> set_Reason (Cancelled_Reason d))
  | DEntered d =>
      Ok (s |> set_Visits (<[Entered_Node d := int_at (s_Visits s) (Entered_Node d) + 1]> (s_Visits s))
            |> set_Steps (s_Steps s + 1))
  | DScheduled d => Ok (applyScheduled d s)
  | DNodeDone d => applyNodeDone def d s
  | DNodeFail d => Ok (applyNodeFail d s)
  | DInterrupted d => applyInterrupted d s
  | DNodeCancel d => Ok (settleTask (NodeCancel_Key d) BranchCancelled s)
  | DChoice _ => Ok s
  | DUpdate d => applyUpdate def d (ev_Time ev) s
  | DFanout d => Ok (applyFanout d s)
  | DJoin d => Ok (applyJoin d s)
  | DMap d => Ok (applyMap d s)
  | DMapDone d => applyMapDone d s
  | DMapAbort d => Ok (applyMapAbort d s)
  | DAwait d =>
      Ok (set_Awaits (<[Await_Node d := {| a_Signal := Await_Signal d; a_TimerID := Await_TimerID d |}]>
                        (s_Awaits s)) s)
  | DAwaitTimeout d => Ok (closeAwait (AwaitTimeout_Node d) s)
  | DSignal d => Ok (applySignal d (ev_Time ev) s)
  | DSignalUse d => applySignalUse d s
  | DChild d => Ok (applyChild d s)
  | DChildDone d => applyChildDone d s
  | DTimer d => Ok (applyTimer d s)
  | DFired d => Ok (set_Timers (delete (Fired_ID d) (s_Timers s)) s)
  end.

(** [time.Time.IsZero]. *)
Definition IsZero (t : Z) : bool := t =? 0.

(** The index the event must carry. *)
Definition expected_index (s : State) (ev : FoldEvent) : result Z :=
  match ev_Data ev with
  | DForked _ => Ok 1
  | DContinued d => let? src := Unmarshal (Continued_State d) in Ok (s_Events src + 1)
  | _ => Ok (s_Events s + 1)
  end.

Definition wrap_apply {A} (r : result A) : result A :=
  match r with Ok a => Ok a | Err e => Err (wrap ErrApply e) end.

(** The bookkeeping that follows every event. *)
Definition finish (ev : FoldEvent) (s : State) : State :=
  let s := set_Events (s_Events s + 1) s in
  let s := if IsZero (ev_Time ev) then s else set_Updated (ev_Time ev) s in
  if negb (Terminal (s_Status s)) && negb (bool_decide (s_Status s = SNone)) then recomputeStatus s
  else s.

Definition Apply (def : option Flow) (s : State) (ev : FoldEvent) : result State :=
  let? expected := wrap_apply (expected_index s ev) in
  if negb (ev_Index ev =? 0) && negb (ev_Index ev =? expected) then
    Err (Error [ErrApply] (Sprintf "event index %d, expected %d (gap in the log)"
                             [AInt (ev_Index ev); AInt expected]))
  else
    let? s := wrap_apply (apply_ def s ev) in
    Ok (finish ev s).

(** [Fold]: a log from the empty state. *)
Definition fold_step (def : option Flow) (s : State) (ev : FoldEvent) : result State :=
  let? s := Apply def s ev in
  Ok (if 0 <? ev_Seq ev then set_LastSeq (ev_Seq ev) s else s).

Definition Fold (def : option Flow) (execID : string) (events : list FoldEvent) : result State :=
  res_fold (fold_step def) (NewState execID) events.
