(* ===== verification/StateFacts.v ===== *)
(** * Facts about the fold

    What each step of [Apply] leaves unchanged (frames), and the status after
    it. *)

From S2P Require Import Prelude Json Flow Event Reduce State.

(** ** Frames of the helpers *)

Lemma set_Channels_id s : set_Channels (s_Channels s) s = s.
Proof. by destruct s. Qed.

Lemma set_Children_id s : set_Children (s_Children s) s = s.
Proof. by destruct s. Qed.

(** Writes touch the channels only. *)
Lemma applyWrites_frame def w s s' :
  applyWrites def w s = Ok s' -> exists ch, s' = set_Channels ch s.
Proof.
  unfold applyWrites. apply (res_fold_inv (fun s' => exists ch, s' = set_Channels ch s)).
  - intros s1 name s2 _ [ch ->] Hs. res_inv. subst. eexists. reflexivity.
  - exists (s_Channels s). by rewrite set_Channels_id.
Qed.

(** The children [dropChildren] keeps: those of other owners. *)
Definition other_children (owner : string) (m : gmap string ChildState) : gmap string ChildState :=
  filter (fun kc => cs_Owner (snd kc) <> owner) m.

(** The same, restricted to the keys already visited. *)
Definition kept (owner : string) (keys : list string) (m : gmap string ChildState)
  : gmap string ChildState :=
  filter (fun kc => ~ (fst kc ∈ keys /\ cs_Owner (snd kc) = owner)) m.

Lemma kept_cons owner k keys m : kept owner keys (kept owner [k] m) = kept owner (k :: keys) m.
Proof.
  unfold kept. rewrite map_filter_filter. apply map_filter_ext.
  intros i x _. simpl. rewrite !elem_of_cons, elem_of_nil. tauto.
Qed.

Lemma kept_one owner k m :
  kept owner [k] m =
  match m !! k with
  | Some c => if String.eqb (cs_Owner c) owner then delete k m else m
  | None => m
  end.
Proof.
  apply map_eq. intros j. unfold kept. rewrite map_lookup_filter.
  destruct (decide (j = k)) as [->|Hjk].
  - destruct (m !! k) as [c|] eqn:E; simpl; [|by rewrite E].
    destruct (String.eqb_spec (cs_Owner c) owner) as [->|Hne].
    + rewrite option_guard_False, lookup_delete_eq; [done|]. rewrite list_elem_of_singleton. tauto.
    + rewrite option_guard_True, E; [done|]. tauto.
  - assert (Hm : forall o : option ChildState, o ≫= (fun x =>
      guard (~ (j ∈ [k] /\ cs_Owner x = owner));; Some x) = o).
    { intros [x|]; simpl; [|done]. rewrite option_guard_True; [done|].
      rewrite list_elem_of_singleton. tauto. }
    simpl in Hm. rewrite Hm. destruct (m !! k) as [c|]; [|done].
    destruct (String.eqb _ _); [by rewrite lookup_delete_ne | done].
Qed.

Lemma dropChildren_frame owner s :
  exists nodes, dropChildren owner s = (nodes, set_Children (other_children owner (s_Children s)) s).
Proof.
  assert (Hloop : forall keys nodes s, exists nodes',
    foldl (fun '(nodes, s) key =>
      match s_Children s !! key with
      | Some c => if String.eqb (cs_Owner c) owner
                  then (nodes ++ [NodeOf c key], set_Children (delete key (s_Children s)) s)
                  else (nodes, s)
      | None => (nodes, s)
      end) (nodes, s) keys = (nodes', set_Children (kept owner keys (s_Children s)) s)).
  { induction keys as [|k keys IH]; intros nodes s1; simpl.
    - exists nodes. unfold kept. rewrite map_filter_id, set_Children_id; [done|].
      intros i x _ [Hin _]. by apply elem_of_nil in Hin.
    - rewrite <- kept_cons, kept_one. destruct (s_Children s1 !! k) as [c|] eqn:E.
      + destruct (String.eqb (cs_Owner c) owner); [|apply IH].
        destruct (IH (nodes ++ [NodeOf c k]) (set_Children (delete k (s_Children s1)) s1)) as [n' ->].
        by exists n'.
      + apply IH. }
  destruct (Hloop (sorted_keys (s_Children s)) [] s) as [nodes Hn].
  exists nodes. unfold dropChildren. rewrite Hn. do 2 f_equal.
  unfold kept, other_children. apply map_filter_ext. intros k c Hk. simpl.
  rewrite elem_of_sorted_keys, Hk. split; [intros H1 H2; apply H1; eauto | tauto].
Qed.

(** ** Splitting the application of an event

    [apply_cases H] splits [H : apply_ def s ev = Ok s'] (with the payload of
    [ev] known) into the branches of the code, naming the frames of the
    helpers. *)
Ltac frame_step :=
  match goal with
  | H : res_bind _ _ = Ok _ |- _ => apply res_bind_ok in H as (? & ? & ?)
  | H : Ok _ = Ok _ |- _ => injection H as H; subst
  | H : Err _ = Ok _ |- _ => discriminate H
  | H : applyWrites _ _ _ = Ok _ |- _ => apply applyWrites_frame in H as [? H]; subst
  | H : context [dropChildren ?o ?s] |- _ =>
      let E := fresh in destruct (dropChildren_frame o s) as [? E]; rewrite E in H; clear E
  | |- context [dropChildren ?o ?s] =>
      let E := fresh in destruct (dropChildren_frame o s) as [? E]; rewrite E; clear E
  | H : Unmarshal ?b = Ok _ |- _ => destruct b; [injection H as H; subst | discriminate H]
  | H : (match ?x with Some _ => _ | None => _ end) = Ok _ |- _ => destruct x eqn:?
  | H : (if ?x then _ else _) = Ok _ |- _ => destruct x eqn:?
  | H : (let '(_, _) := ?x in _) = Ok _ |- _ => destruct x eqn:?
  | |- context [match ?x with Some _ => _ | None => _ end] => destruct x eqn:?
  | |- context [if ?x then _ else _] => destruct x eqn:?
  end; cbv beta iota zeta in *.

Ltac apply_unfold :=
  unfold applyForked, applyNodeDone, applyInterrupted, applyUpdate, applyMapDone,
    applySignalUse, applyChildDone, item_done in *;
  unfold applyStarted, applyScheduled, applyNodeFail, applyFanout, applyJoin, applyMap, applyMapAbort,
    applySignal, applyChild, applyTimer, settleTask, closeAwait, addUsage, terminate in *; cbv beta iota zeta in *.

Ltac apply_cases H :=
  unfold apply_ in H; cbn [ev_Data ev_Time ev_Index] in H; cbv beta iota zeta in H;
  apply_unfold; repeat frame_step.

(** ** Status *)

(** The events that replace the status. *)
Definition sets_status (data : FoldData) : bool :=
  match data with
  | DStarted _ | DForked _ | DContinued _ | DCompleted _ | DFailed _ | DCancelled _ => true
  | _ => false
  end.

(** Every other event leaves status, number of events and identity alone. *)
Lemma apply_quiet def s ev s' :
  sets_status (ev_Data ev) = false -> apply_ def s ev = Ok s' ->
  s_Status s' = s_Status s /\ s_Events s' = s_Events s /\ s_ExecID s' = s_ExecID s.
Proof.
  intros Hq H. destruct ev as [ty v tm ix c tr data sq de]; simpl in *.
  destruct data; try discriminate Hq; apply_cases H; repeat split.
Qed.

Lemma recomputeStatus_live s : Terminal (s_Status (recomputeStatus s)) = false.
Proof.
  unfold recomputeStatus. destruct (bool_decide _); [done|].
  destruct (_ || _); [done|]. by destruct (_ || _).
Qed.

(** [finish] changes the status, the event count and the time of update only. *)
Lemma finish_frame ev s :
  exists st up, finish ev s = (s |> set_Events (s_Events s + 1) |> set_Updated up |> set_Status st) /\
    Terminal st = Terminal (s_Status s) /\ (st = SNone <-> s_Status s = SNone).
Proof.
  unfold finish. set (s1 := set_Events _ s).
  assert (exists up, (if IsZero (ev_Time ev) then s1 else set_Updated (ev_Time ev) s1) = set_Updated up s1)
    as [up ->].
  { destruct (IsZero _); [exists (s_Updated s1); by destruct s1 | eauto]. }
  simpl. destruct (Terminal (s_Status s)) eqn:Ht; simpl.
  { exists (s_Status s), up. repeat split; done. }
  destruct (decide (s_Status s = SNone)) as [Hn|Hn]; simpl.
  { rewrite bool_decide_eq_true_2 by done. simpl.
    exists (s_Status s), up. rewrite Ht. repeat split; done. }
  rewrite bool_decide_eq_false_2 by done. simpl.
  unfold recomputeStatus.
  destruct (bool_decide _); [|destruct (_ || _); [|destruct (_ || _)]];
    (eexists _, up; split; [reflexivity|]; done).
Qed.

(** ** The deduplication memory of signals and updates ([rememberID])

    Ids are forgotten after a day, and the memory never holds more than ten
    thousand of them; what it forgets first is the oldest. *)

#[export] Instance id_le_total m : Total (id_le m).
Proof.
  intros a b. unfold id_le. destruct (Z.lt_trichotomy (int_at m a) (int_at m b)) as [?|[?|?]]; [auto| |auto].
  destruct (total str_le a b); auto.
Qed.

#[export] Instance id_le_trans m : Transitive (id_le m).
Proof.
  intros a b c [?|[? Hab]] [?|[? Hbc]]; unfold id_le; [left; lia|left; lia|left; lia|].
  right. split; [congruence|]. by etransitivity.
Qed.

Definition in_window (at_ : Z) (m : gmap string Z) : gmap string Z :=
  filter (fun kt => ~ signalIDWindow < time_sub at_ (snd kt)) m.

Definition forget (ks : list string) (m : gmap string Z) : gmap string Z := foldl (fun m k => delete k m) m ks.

Lemma forget_lookup ks m k : forget ks m !! k = if decide (k ∈ ks) then None else m !! k.
Proof.
  unfold forget. revert m. induction ks as [|j ks IH]; intros m; cbn [foldl];
    [by rewrite decide_False by apply not_elem_of_nil|].
  rewrite IH. destruct (decide (k = j)) as [->|Hne].
  - rewrite lookup_delete_eq. repeat case_decide; set_solver.
  - rewrite lookup_delete_ne by done. repeat case_decide; set_solver.
Qed.

Lemma forget_size ks m :
  NoDup ks -> (forall k, k ∈ ks -> is_Some (m !! k)) -> (size (forget ks m) + length ks = size m)%nat.
Proof.
  unfold forget. intros Hnd. revert m. induction Hnd as [|j ks Hj Hnd IH]; intros m Hin; simpl; [lia|].
  assert (is_Some (m !! j)) as Hs by (apply Hin; set_solver).
  pose proof (map_size_delete j m) as Hsz. destruct Hs as [x Hx]. rewrite Hx in Hsz.
  assert (size m <> O) by (apply map_size_ne_0_lookup; eauto).
  specialize (IH (delete j m)). simpl in *. rewrite <- plus_n_Sm, IH; [simpl in *; lia|].
  intros k Hk. rewrite lookup_delete_ne; [|set_solver]. apply Hin. set_solver.
Qed.

(** The ids in the order they are forgotten. *)
Definition oldest_first (m : gmap string Z) : list string := merge_sort (id_le m) (elements (dom m)).

Lemma oldest_first_elem m k : k ∈ oldest_first m <-> is_Some (m !! k).
Proof. unfold oldest_first. by rewrite merge_sort_Permutation, elem_of_elements, elem_of_dom. Qed.

Lemma oldest_first_NoDup m : NoDup (oldest_first m).
Proof. unfold oldest_first. rewrite merge_sort_Permutation. apply NoDup_elements. Qed.

Lemma oldest_first_length m : length (oldest_first m) = size m.
Proof. unfold oldest_first. rewrite merge_sort_Permutation. by rewrite <- size_dom. Qed.

Lemma rememberID_unfold m id at_ :
  rememberID m id at_ =
  let m := in_window at_ (<[id := at_]> m) in
  if Z.of_nat (size m) <=? maxSignalIDs then m
  else forget (take (Z.to_nat (Z.of_nat (size m) - maxSignalIDs)) (oldest_first m)) m.
Proof. reflexivity. Qed.

Lemma in_window_self at_ m id : in_window at_ (<[id := at_]> m) !! id = Some at_.
Proof.
  apply map_lookup_filter_Some. split; [by rewrite lookup_insert_eq|].
  unfold time_sub, signalIDWindow, Second. simpl. lia.
Qed.

(** The memory never holds more than [maxSignalIDs] ids, whatever it held before. *)
Lemma rememberID_size m id at_ : Z.of_nat (size (rememberID m id at_)) <= maxSignalIDs.
Proof.
  rewrite rememberID_unfold. cbv zeta. set (w := in_window _ _). destruct (Z.leb_spec (Z.of_nat (size w)) maxSignalIDs).
  { done. }
  set (k := Z.to_nat _). pose proof (forget_size (take k (oldest_first w)) w) as Hs.
  rewrite length_take, oldest_first_length in Hs. unfold maxSignalIDs in *.
  assert (Hsz : (size (forget (take k (oldest_first w)) w) + k `min` size w = size w)%nat); [|lia].
  apply Hs.
  - eapply sublist_NoDup; [apply oldest_first_NoDup|apply sublist_take].
  - intros j Hj. apply oldest_first_elem. by eapply elem_of_sublist; [|apply sublist_take].
Qed.

(** The id just seen is remembered, with its time, as long as the memory had room
    or held an older id: what is forgotten is never the id just seen, unless ten
    thousand others carry the same time. *)
Lemma rememberID_keeps m id at_ :
  Z.of_nat (size m) <= maxSignalIDs ->
  Z.of_nat (size m) < maxSignalIDs \/ (exists k t, m !! k = Some t /\ t < at_) ->
  rememberID m id at_ !! id = Some at_.
Proof.
  intros Hm Hroom. rewrite rememberID_unfold. cbv zeta. set (w := in_window _ _).
  assert (Hid : w !! id = Some at_) by apply in_window_self.
  destruct (Z.leb_spec (Z.of_nat (size w)) maxSignalIDs) as [|Hbig]; [done|].
  assert (Hins : (size (<[id := at_]> m) <= S (size m))%nat) by (rewrite map_size_insert; case_match; simpl; lia).
  assert (Hsub : w ⊆ <[id := at_]> m) by apply map_filter_subseteq.
  pose proof (map_subseteq_size _ _ Hsub) as Hle.
  destruct Hroom as [?|(k & t & Hk & Ht)]; [lia|].
  assert (Hw : w = <[id := at_]> m) by (apply map_subseteq_size_eq; [done|lia]).
  assert (k <> id) as Hne.
  { intros ->. rewrite map_size_insert_Some in Hle by eauto. lia. }
  assert (Z.to_nat (Z.of_nat (size w) - maxSignalIDs) = 1%nat) as -> by (unfold maxSignalIDs in *; lia).
  rewrite forget_lookup, decide_False; [done|]. intros Hin.
  assert (Hwk : w !! k = Some t) by (by rewrite Hw, lookup_insert_ne).
  assert (Hkin : k ∈ oldest_first w) by (apply oldest_first_elem; eauto).
  pose proof (StronglySorted_merge_sort (id_le w) (elements (dom w))) as Hsort. fold (oldest_first w) in Hsort.
  destruct (oldest_first w) as [|h l]; simpl in Hin; [by apply elem_of_nil in Hin|].
  apply elem_of_cons in Hin as [<-|Hin]; [|by rewrite take_0, elem_of_nil in Hin].
  apply elem_of_cons in Hkin as [->|Hkin]; [done|].
  apply StronglySorted_inv in Hsort as [_ Hall]. rewrite Forall_forall in Hall.
  specialize (Hall k Hkin). unfold id_le, int_at in Hall. rewrite Hid, Hwk in Hall. simpl in Hall. lia.
Qed.

(** An id seen within a day stays remembered while the memory has room. *)
Lemma rememberID_others m id at_ k t :
  Z.of_nat (size m) < maxSignalIDs -> k <> id -> m !! k = Some t -> at_ - t <= signalIDWindow ->
  rememberID m id at_ !! k = Some t.
Proof.
  intros Hm Hne Hk Ht. rewrite rememberID_unfold. cbv zeta. set (w := in_window _ _).
  assert (Hsz : (size w <= S (size m))%nat).
  { etransitivity; [apply map_subseteq_size, map_filter_subseteq|]. rewrite map_size_insert. case_match; simpl; lia. }
  destruct (Z.leb_spec (Z.of_nat (size w)) maxSignalIDs) as [|Hbig]; [|lia].
  apply map_lookup_filter_Some. split; [by rewrite lookup_insert_ne|].
  unfold time_sub, signalIDWindow, Second in *. simpl. lia.
Qed.
