(* ===== verification/View.v ===== *)
(** * The context view and typed reads ([internal/fold/view.go], [decode.go])

    What a worker and an expression see of a state.  [Env] hands expressions the
    JSON encoding of the view; expr-lang's virtual machine, which reads it, is a
    parameter ([Evaluator]), so the view itself stands for its encoding. *)

From S2P Require Import Prelude Json Expr Flow Event State.

Record Context_ := {
  cx_Input : RawMessage; cx_Channels : gmap string RawMessage; cx_Results : gmap string RawMessage;
  cx_LastNode : string; cx_Visits : gmap string Z; cx_Signals : gmap string RawMessage;
  cx_Branches : gmap string BranchStatus; cx_Counters : gmap string float64;
  cx_Errors : gmap string NodeError; cx_Item : RawMessage; cx_Index : option Z;
  cx_Resume : RawMessage; cx_ResumedBy : string; cx_Interrupt : RawMessage }.

Definition ContextView (s : State) (t : option Task) : Context_ :=
  let input := match s_Input s with None => Some (JObj []) | i => i end in
  let base := Build_Context_ input (s_Channels s) (s_Results s) (s_LastNode s) (s_Visits s)
                (s_Signals s) (s_Branches s) (s_Counters s) (s_Errors s) in
  match t with
  | None => base None None None "" None
  | Some t =>
      let by_ := match t_Resume t with Some _ => t_ResumedBy t | None => "" end in
      let interrupt := match t_Resume t with Some _ => t_Interrupt t | None => None end in
      match item_map s (t_Node t) (t_Owner t) with
      | Some _ => base (t_Item t) (Some (t_Index t)) (t_Resume t) by_ interrupt
      | None => base None None (t_Resume t) by_ interrupt
      end
  end.

(** The environment of an expression: the encoded view, nothing at all, or the
    start input alone (search attributes). *)
Inductive VEnv := EnvView (c : Context_) | EnvEmpty | EnvInput (input : RawMessage).

(** [Env]: the view does not encode when a counter is not finite. *)
Definition Env (s : State) (t : option Task) : VEnv :=
  if bool_decide (map_Forall (fun _ f => f_finite f = true) (s_Counters s))
  then EnvView (ContextView s t) else EnvEmpty.

(** The libraries a decision calls: expr-lang's virtual machine, the JSON schema
    validator of a node's output, [json.Marshal] of a flow definition (the text
    that is hashed), and the text [fmt] makes of a message. *)
Class Evaluator := {
  vm_Run : Program -> VEnv -> Text + Json;
  schema_Validate : Json -> Json -> option Text;
  marshal_flow : Flow -> option string;
  render : Text -> string }.

Section Eval.
Context `{Evaluator}.

Definition eval (p : Program) (env : VEnv) : Text + Json := Program_Eval vm_Run p env.
Definition match_ (p : Program) (env : VEnv) : Text + bool := Program_Match vm_Run p env.

(** [Node.ValidateOutput]: the output is valid JSON by construction. *)
Definition ValidateOutput (n : Node) (raw : Json) : option Text :=
  match n_schema n with
  | None => None
  | Some sch =>
      match schema_Validate sch raw with
      | None => None
      | Some err => Some (Sprintf "output does not match output_schema: %w" [AText err])
      end
  end.

Definition FlowHash (f : Flow) : result string :=
  match marshal_flow f with
  | Some b => Ok (Hash_of b)
  | None => Err (Error [] "json: unsupported value")
  end.
End Eval.

(** ** Typed reads: [ErrNoValue] is the absence of a value *)

Inductive ReadError := ErrNoValue (what : string) | ErrDecode.

Definition decodeRaw {V} (dec : Json -> option V) (what : string) (raw : RawMessage) : ReadError + V :=
  match raw with
  | None => inl (ErrNoValue what)
  | Some j => match dec j with Some v => inr v | None => inl ErrDecode end
  end.

Section Reads.
Context {V : Type} (dec : Json -> option V) (s : State).
Definition DecodeInput : ReadError + V := decodeRaw dec "input" (s_Input s).
Definition DecodeOutput : ReadError + V := decodeRaw dec "output" (s_Output s).
Definition Result (nd : string) : ReadError + V :=
  decodeRaw dec ("result of " +:+ nd) (raw_at (s_Results s) nd).
Definition ReadChannel (name : string) : ReadError + V :=
  decodeRaw dec ("channel " +:+ name) (raw_at (s_Channels s) name).
Definition ReadSignal (name : string) : ReadError + V :=
  decodeRaw dec ("signal " +:+ name) (raw_at (s_Signals s) name).
End Reads.
