(* ===== verification/Wire.v ===== *)
(** * Messages between the parts ([internal/wire/wire.go])

    What the dispatcher sends to workers and to the command stream, and the ids
    that make sending it again harmless. *)

From S2P Require Import Prelude Json Hash GoStrings Names Flow Event Cmd CmdCodec Reduce State View.

(** ** Messages *)

(** [Reply] and its codes: the answer of the engine to a command. *)
Record Reply := { rp_OK : bool; rp_Seq : Z; rp_Joined : bool; rp_Code : string; rp_Error : Text }.

Definition ReplyInvalid : string := "invalid".
Definition ReplyRejected : string := "rejected".
Definition ReplyNotFound : string := "not_found".
Definition ReplyFailed : string := "failed".
Definition ReplyConflict : string := "conflict".

(** [Stop]: attempts workers may give up. *)
Record StopTask := { sk_Key : string; sk_Generation : Z; sk_Attempt : Z }.
Record Stop := { sp_ExecID : string; sp_All : bool; sp_Tasks : list StopTask }.

Definition Matches (s : Stop) (key : string) (generation attempt : Z) : bool :=
  sp_All s ||
  existsb (fun t => String.eqb (sk_Key t) key && (sk_Generation t =? generation) && (sk_Attempt t =? attempt)) (sp_Tasks s).

(** [Concurrency]: a limit a worker must honour. *)
Record JobConcurrency := { jc_Key : string; jc_Max : Z }.

(** [Job]; the context is kept as the view it encodes, [None] for JSON that does
    not decode to one. *)
Record Job := {
  jb_ExecID : string; jb_Flow : string; jb_FlowHash : string; jb_Node : string; jb_Kind : string; jb_Key : string;
  jb_Index : Z; jb_Generation : Z; jb_Attempt : Z; jb_Context : option Context_; jb_Meta : RawMessage; jb_Reply : string;
  jb_CacheKey : string; jb_Concurrency : option JobConcurrency; jb_Traceparent : string }.

Definition set_jb_CacheKey (k : string) (j : Job) : Job := {|
  jb_ExecID := jb_ExecID j; jb_Flow := jb_Flow j; jb_FlowHash := jb_FlowHash j; jb_Node := jb_Node j; jb_Kind := jb_Kind j;
  jb_Key := jb_Key j; jb_Index := jb_Index j; jb_Generation := jb_Generation j; jb_Attempt := jb_Attempt j;
  jb_Context := jb_Context j; jb_Meta := jb_Meta j; jb_Reply := jb_Reply j; jb_CacheKey := k;
  jb_Concurrency := jb_Concurrency j; jb_Traceparent := jb_Traceparent j |}.
Definition set_jb_Concurrency (c : option JobConcurrency) (j : Job) : Job := {|
  jb_ExecID := jb_ExecID j; jb_Flow := jb_Flow j; jb_FlowHash := jb_FlowHash j; jb_Node := jb_Node j; jb_Kind := jb_Kind j;
  jb_Key := jb_Key j; jb_Index := jb_Index j; jb_Generation := jb_Generation j; jb_Attempt := jb_Attempt j;
  jb_Context := jb_Context j; jb_Meta := jb_Meta j; jb_Reply := jb_Reply j; jb_CacheKey := jb_CacheKey j;
  jb_Concurrency := c; jb_Traceparent := jb_Traceparent j |}.

(** [CacheEntry]: a cached task result. *)
Record CacheEntry := {
  ce_Output : RawMessage; ce_Writes : gmap string RawMessage; ce_Next : string; ce_Usage : gmap string float64;
  ce_Expires : Z }.

(** [DeadLetter]. *)
Record DeadLetter := {
  dl_Kind : string; dl_Key : string; dl_Flow : string; dl_Reason : Text; dl_Deliveries : Z; dl_Subject : string }.

Definition DLQCommand : string := "cmd".
Definition DLQJob : string := "job".
Definition DLQTrigger : string := "trigger".
Definition DLQDispatch : string := "dispatch".

(** ** Ids *)

Definition JobMsgID (execID key : string) (gen attempt : Z) : string :=
  "job." +:+ execID +:+ "." +:+ key +:+ "." +:+ Itoa gen +:+ "." +:+ Itoa attempt.
Definition CmdID (execID key : string) (gen attempt : Z) : string :=
  "w." +:+ execID +:+ "." +:+ key +:+ "." +:+ Itoa gen +:+ "." +:+ Itoa attempt.

Definition TimerExpire : string := "archive".
Definition TimerDelete : string := "delete".

Definition msgID (c : Command) : string :=
  if String.eqb (c_Reply c) "" then c_ID c else c_ID c +:+ "@" +:+ c_Reply c.

(** [tokenOr]: a key that fits in a subject. *)
Definition breaks_token (a : Ascii.ascii) : bool :=
  existsb (Ascii.eqb a) [ascii_of 46; ascii_of 42; ascii_of 62; ascii_of 32].
Definition tokenOr (s : string) : string :=
  if existsb breaks_token (String.list_ascii_of_string s) || String.eqb s "" then "_" else s.

(** ** The start command of a trigger *)

(** The body of a message: JSON, after white space or not, or text that is not. *)
Inductive TriggerBody :=
| TBText (s : string)
| TBJson (space : bool) (j : Json).

Definition triggerDataKey : string := "data".

Definition TriggerStart (flow execID : string) (data : TriggerBody) : result Command :=
  let input := match data with
               | TBText s => JObj [(triggerDataKey, JStr s)]
               | TBJson false (JObj kvs) => JObj kvs
               | TBJson _ j => JObj [(triggerDataKey, j)]
               end in
  New ("trigger." +:+ execID) CStart execID
    (Some (PStart {| StartData_Flow := flow; StartData_Version := ""; StartData_Input := Some input; StartData_Parent := None |})).
