(* ===== verification/Cron.v ===== *)
(** * Schedule expressions ([internal/sched/cron.go])

    The validator of cron expressions, with what it uses of package [time]:
    [ParseDuration] and the parsing of RFC 3339 times. *)

From S2P Require Import Prelude Json GoStrings Flow State.

(** ** Durations ([time.ParseDuration]) *)

Definition byte_of (a : Ascii.ascii) : N := Ascii.N_of_ascii a.
Definition is_digit (a : Ascii.ascii) : bool := bool_decide (is_Some (digit a)).

(** [leadingInt]: the number, unless it passes [2^63], and the rest. *)
Fixpoint leadingInt (x : Z) (s : string) : option (Z * string) :=
  match s with
  | EmptyString => Some (x, s)
  | String a s' =>
      match digit a with
      | None => Some (x, s)
      | Some d =>
          if 2 ^ 63 / 10 <? x then None
          else let x := x * 10 + d in if 2 ^ 63 <? x then None else leadingInt x s'
      end
  end.

(** [leadingFraction]: digits past the precision are skipped. *)
Fixpoint leadingFraction (x scale : Z) (overflow : bool) (s : string) : Z * Z * string :=
  match s with
  | EmptyString => (x, scale, s)
  | String a s' =>
      match digit a with
      | None => (x, scale, s)
      | Some d =>
          if overflow || ((2 ^ 63 - 1) / 10 <? x) then leadingFraction x scale true s'
          else let y := x * 10 + d in
               if 2 ^ 63 <? y then leadingFraction x scale true s' else leadingFraction y (scale * 10) false s'
      end
  end.

(** The characters up to a digit or a period. *)
Fixpoint leading_unit (s : string) : string * string :=
  match s with
  | EmptyString => ("", "")
  | String a s' =>
      if is_digit a || (byte_of a =? 46)%N then ("", s)
      else let '(u, r) := leading_unit s' in (String a u, r)
  end.

Definition micro : list string := [str_of_bytes [0xC2; 0xB5; 115]%N; str_of_bytes [0xCE; 0xBC; 115]%N].
Definition unit_of (u : string) : option Z :=
  if String.eqb u "ns" then Some 1
  else if String.eqb u "us" || existsb (String.eqb u) micro then Some 1000
  else if String.eqb u "ms" then Some 1000000
  else if String.eqb u "s" then Some Second
  else if String.eqb u "m" then Some (60 * Second)
  else if String.eqb u "h" then Some (3600 * Second)
  else None.

(** [uint64(f)] of a positive float. *)
Definition truncate (f : float64) : Z :=
  match f with
  | S754_finite _ m e => if decide (0 <= e) then Zpos m * 2 ^ e else Zpos m / 2 ^ (- e)
  | _ => 0
  end.
Definition int_float (z : Z) : float64 := dec_float false z 0.

(** The fraction of a unit, in binary64. *)
Definition fraction_of (f unit scale : Z) : Z :=
  truncate (SFmul 53 1024 (int_float f) (SFdiv 53 1024 (int_float unit) (int_float scale))).

Definition starts_with (c : N) (s : string) : bool := match s with String a _ => (byte_of a =? c)%N | _ => false end.
Definition tail_of (s : string) : string := match s with String _ s' => s' | _ => "" end.

Fixpoint durations (fuel : nat) (d : Z) (s : string) : option Z :=
  match fuel, s with
  | _, EmptyString => Some d
  | O, _ => None
  | S fuel, String a _ =>
      if negb (is_digit a || (byte_of a =? 46)%N) then None
      else
        match leadingInt 0 s with
        | None => None
        | Some (v, s1) =>
            let pre := negb (String.length s1 =? String.length s)%nat in
            let '(f, scale, s2, post) :=
              if starts_with 46 s1 then
                let '(f, scale, r) := leadingFraction 0 1 false (tail_of s1) in
                (f, scale, r, negb (String.length r =? String.length (tail_of s1))%nat)
              else (0, 1, s1, false) in
            if negb pre && negb post then None
            else
              let '(u, s3) := leading_unit s2 in
              match unit_of u with
              | None => None
              | Some unit =>
                  if 2 ^ 63 / unit <? v then None
                  else
                    let v := v * unit + (if 0 <? f then fraction_of f unit scale else 0) in
                    if 2 ^ 63 <? v then None
                    else let d := d + v in if 2 ^ 63 <? d then None else durations fuel d s3
              end
        end
  end.

Definition ParseDuration (s : string) : option Z :=
  let neg := starts_with 45 s in
  let s := if neg || starts_with 43 s then tail_of s else s in
  if String.eqb s "0" then Some 0
  else if String.eqb s "" then None
  else match durations (String.length s) 0 s with
       | None => None
       | Some d => if neg then Some (- d) else if 2 ^ 63 - 1 <? d then None else Some d
       end.

(** ** Times ([time.Parse] with the layout [time.RFC3339]) *)

(** [getnum]: two digits, or one unless [fixed]. *)
Definition getnum (fixed : bool) (s : string) : option (Z * string) :=
  match s with
  | String a s1 =>
      match digit a with
      | None => None
      | Some d =>
          match s1 with
          | String b s2 =>
              match digit b with
              | Some e => Some (d * 10 + e, s2)
              | None => if fixed then None else Some (d, s1)
              end
          | EmptyString => if fixed then None else Some (d, s1)
          end
      end
  | EmptyString => None
  end.

Definition number_in (fixed : bool) (lo hi : Z) (s : string) : option (Z * string) :=
  match getnum fixed s with
  | Some (n, r) => if (lo <=? n) && (n <=? hi) then Some (n, r) else None
  | None => None
  end.

Definition skip_byte (c : N) (s : string) : option string := if starts_with c s then Some (tail_of s) else None.

Fixpoint skip_digits (s : string) : string :=
  match s with String a s' => if is_digit a then skip_digits s' else s | EmptyString => s end.

(** A fraction of a second, which the layout does not ask for. *)
Definition skip_fraction (s : string) : string :=
  match s with
  | String a (String b r) =>
      if ((byte_of a =? 46) || (byte_of a =? 44))%N && is_digit b then skip_digits r else s
  | _ => s
  end.

Definition leap (year : Z) : bool := (year mod 4 =? 0) && (negb (year mod 100 =? 0) || (year mod 400 =? 0)).
Definition daysIn (month year : Z) : Z :=
  if month =? 2 then (if leap year then 29 else 28)
  else if existsb (Z.eqb month) [4; 6; 9; 11] then 30 else 31.

(** The zone: [Z], or an offset. *)
Definition zone (s : string) : option string :=
  if starts_with 90 s then Some (tail_of s)
  else if negb (starts_with 43 s || starts_with 45 s) then None
  else match number_in true 0 24 (tail_of s) with
       | Some (_, r) => match skip_byte 58 r with
                        | Some r => match number_in true 0 60 r with Some (_, r) => Some r | None => None end
                        | None => None
                        end
       | None => None
       end.

Definition year_of (s : string) : option (Z * string) :=
  match getnum true s with
  | Some (a, r) => match getnum true r with Some (b, r) => Some (a * 100 + b, r) | None => None end
  | None => None
  end.

Definition valid_rfc3339 (s : string) : bool :=
  let parsed :=
    y ← year_of s; s ← skip_byte 45 (snd y);
    mo ← number_in true 1 12 s; s ← skip_byte 45 (snd mo);
    d ← getnum true s; s ← skip_byte 84 (snd d);
    h ← number_in false 0 23 s; s ← skip_byte 58 (snd h);
    mi ← number_in true 0 59 s; s ← skip_byte 58 (snd mi);
    se ← number_in true 0 59 s;
    rest ← zone (skip_fraction (snd se));
    Some (String.eqb rest "" && (1 <=? fst d) && (fst d <=? daysIn (fst mo) (fst y))) in
  default false parsed.

(** ** The validator *)

Record cronBound := { cb_label : string; cb_min : Z; cb_max : Z; cb_names : list (string * Z); cb_hint : string }.

Definition monthNames : list (string * Z) :=
  [("jan", 1); ("feb", 2); ("mar", 3); ("apr", 4); ("may", 5); ("jun", 6); ("jul", 7); ("aug", 8); ("sep", 9); ("oct", 10);
   ("nov", 11); ("dec", 12)].
Definition dayNames : list (string * Z) :=
  [("sun", 0); ("mon", 1); ("tue", 2); ("wed", 3); ("thu", 4); ("fri", 5); ("sat", 6)].

Definition cronBounds : list cronBound := [
  {| cb_label := "second"; cb_min := 0; cb_max := 59; cb_names := []; cb_hint := "" |};
  {| cb_label := "minute"; cb_min := 0; cb_max := 59; cb_names := []; cb_hint := "" |};
  {| cb_label := "hour"; cb_min := 0; cb_max := 23; cb_names := []; cb_hint := "" |};
  {| cb_label := "day-of-month"; cb_min := 1; cb_max := 31; cb_names := []; cb_hint := "" |};
  {| cb_label := "month"; cb_min := 1; cb_max := 12; cb_names := monthNames; cb_hint := " or month name (jan-dec)" |};
  {| cb_label := "day-of-week"; cb_min := 0; cb_max := 6; cb_names := dayNames; cb_hint := " or day name (sun-sat)" |}].
Definition cronFieldCount : nat := 6.

Definition cronValue (s : string) (b : cronBound) : Text + Z :=
  match List.find (fun p => String.eqb (fst p) (ToLower s)) (cb_names b) with
  | Some (_, v) => inr v
  | None =>
      match Atoi s with
      | None => inl (Sprintf "%q is not a number%s" [AStr s; AStr (cb_hint b)])
      | Some n =>
          if (n <? 0) || (n <? cb_min b) || (cb_max b <? n) then
            inl (Sprintf "%d is outside %d-%d" [AInt n; AInt (cb_min b); AInt (cb_max b)])
          else inr n
      end
  end.

Definition slash : Ascii.ascii := ascii_of 47.
Definition dash : Ascii.ascii := ascii_of 45.
Definition comma_char : Ascii.ascii := ascii_of 44.

Definition validateRange (term : string) (bounds : list string) (b : cronBound) : option Text :=
  match bounds with
  | low :: more =>
      if String.eqb low "*" || String.eqb low "?" then None
      else
        match more with
        | _ :: _ :: _ => Some (Sprintf "%q has more than one -" [AStr term])
        | _ =>
            match cronValue low b, more with
            | inl t, _ => Some (Sprintf "%q: %w" [AStr term; AText t])
            | inr _, [] => None
            | inr low, high :: _ =>
                match cronValue high b with
                | inl t => Some (Sprintf "%q: %w" [AStr term; AText t])
                | inr high =>
                    if high <? low then Some (Sprintf "%q: range starts (%d) after it ends (%d)" [AStr term; AInt low; AInt high])
                    else None
                end
            end
        end
  | [] => None
  end.

Definition validateCronTerm (term : string) (b : cronBound) : option Text :=
  match split_at slash term with
  | [range] => validateRange term (split_at dash range) b
  | [range; step] =>
      match Atoi step with
      | Some n => if 0 <? n then validateRange term (split_at dash range) b
                  else Some (Sprintf "%q: step must be a positive number" [AStr term])
      | None => Some (Sprintf "%q: step must be a positive number" [AStr term])
      end
  | _ => Some (Sprintf "%q has more than one /" [AStr term])
  end.

(** The first problem of a list. *)
Fixpoint first_error {A} (f : A -> option Text) (l : list A) : option Text :=
  match l with
  | [] => None
  | a :: l => match f a with Some t => Some t | None => first_error f l end
  end.

Definition validateCronField (field : string) (b : cronBound) : option Text :=
  let terms := List.filter (fun t => negb (String.eqb t "")) (split_at comma_char field) in
  match first_error (fun t => validateCronTerm t b) terms with
  | Some t => Some t
  | None => if (length terms =? 0)%nat then Some (Sprintf "%q has no terms" [AStr field]) else None
  end.

Definition predefinedSchedules : list string :=
  ["@yearly"; "@annually"; "@monthly"; "@weekly"; "@daily"; "@midnight"; "@hourly"].

(** The texts of the parsers' errors are left out. *)
Definition validatePredefined (expr : string) : option Text :=
  if existsb (String.eqb expr) predefinedSchedules then None
  else
    match CutPrefix expr "@every " with
    | Some arg =>
        match ParseDuration arg with
        | None => Some (Sprintf "cron %q: invalid @every duration" [AStr expr])
        | Some d => if d <? Second then Some (Sprintf "cron %q: @every interval must be at least 1s" [AStr expr]) else None
        end
    | None =>
        match CutPrefix expr "@at " with
        | Some arg => if valid_rfc3339 arg then None else Some (Sprintf "cron %q: @at needs an RFC3339 time" [AStr expr])
        | None =>
            Some (Sprintf "cron %q: unknown predefined schedule (want one of %s, @every <duration> or @at <RFC3339>)"
                    [AStr expr; AStrs predefinedSchedules])
        end
    end.

Definition ValidateCron (expr : string) : option Text :=
  let trimmed := TrimSpace expr in
  if String.eqb trimmed "" then Some (TStr "cron expression is empty")
  else if HasPrefix trimmed "@" then validatePredefined expr
  else
    let fields := Fields trimmed in
    if negb (length fields =? cronFieldCount)%nat then
      Some (Sprintf "cron %q must have %d fields (second minute hour day-of-month month day-of-week), got %d"
              [AStr expr; AInt (Z.of_nat cronFieldCount); AInt (Z.of_nat (length fields))])
    else
      first_error (fun fb => match validateCronField (fst fb) (snd fb) with
                             | Some t => Some (Sprintf "cron %q: %s field: %w" [AStr expr; AStr (cb_label (snd fb)); AText t])
                             | None => None
                             end) (zip fields cronBounds).

Example cron_ex1 : ValidateCron "0 */5 9-17 * jan-mar,6 mon-fri" = None.
Proof. vm_compute. reflexivity. Qed.
Example cron_ex2 : ValidateCron "@every 1.5s" = None /\ ParseDuration "1h15m30.918273645s" = Some 4530918273645 /\ ParseDuration ".3333333333333333333h" = Some 1200000000000.
Proof. vm_compute. auto. Qed.
Example cron_ex3 : (valid_rfc3339 "2024-02-29T1:00:00.5+24:60" && negb (valid_rfc3339 "2023-02-29T01:00:00Z"))%bool = true.
Proof. vm_compute. reflexivity. Qed.
