(* ===== verification/Decide.v ===== *)
(** * Decisions ([internal/fold/decide.go])

    A command, decided on a state, produces events.  Every event is applied to
    the state as soon as it is emitted, so a decision is a function on the
    decider (definition, state, clock, command id, events so far).  An operation
    of the decider has type [decider -> result decider]: the error carries no
    decider, as the Go code discards the state on an error.

    [enter] is recursive in Go through [advance], [route] and the nodes they
    enter; here the operations that enter nodes take [enter] as an argument, and
    the recursion is bounded by the steps left before [max_steps]. *)

From S2P Require Import Prelude Json Hash Names Expr Flow Event Cmd Reduce State View.

Record decider := {
  d_def : Flow; d_st : State; d_now : Z; d_cmdID : string; d_out : list FoldEvent;
  d_inherited : gset string }.

Definition decider_eta (d : decider) : decider :=
  Build_decider (d_def d) (d_st d) (d_now d) (d_cmdID d) (d_out d) (d_inherited d).
Definition set_d_st (v : State) (d : decider) : decider := ltac:(assign decider_eta d d_st v).
Definition set_d_out (v : list FoldEvent) (d : decider) : decider := ltac:(assign decider_eta d d_out v).
Definition set_d_inherited (v : gset string) (d : decider) : decider :=
  ltac:(assign decider_eta d d_inherited v).

Definition new_decider (def : Flow) (st : State) (now : Z) (cmdID : string) : decider :=
  {| d_def := def; d_st := st; d_now := now; d_cmdID := cmdID; d_out := []; d_inherited := ∅ |}.

Abbreviation Op := (decider -> result decider).

(** [emit]: build the event, apply it, record it. *)
Definition emit_event (t : EventType) (data : FoldData) (d : decider) : FoldEvent := {|
  ev_Type := t; ev_Version := Version; ev_Time := d_now d;
  ev_Index := if bool_decide (t = ExecutionForked) then 1 else s_Events (d_st d) + 1;
  ev_CmdID := d_cmdID d; ev_Trace := ""; ev_Data := data; ev_Seq := 0; ev_DecisionEnd := false |}.

Definition emit (t : EventType) (data : FoldData) : Op := fun d =>
  let ev := emit_event t data d in
  let? st := Apply (Some (d_def d)) (d_st d) ev in
  Ok (d |> set_d_st st |> set_d_out (d_out d ++ [ev])).

Definition alloc (d : decider) : Z := s_N (d_st d) + 1.

(** A loop over keys computed beforehand. *)
Definition each (keys : list string) (f : string -> Op) : Op := fun d =>
  res_fold (fun d k => f k d) d keys.

(** ** Errors of a decision *)

Definition invalid {A} (e : error) : result A := Err (wrap ErrInvalid e).

(** [CheckJoin]: a start of the same flow joins, of another one conflicts. *)
Definition CheckJoin (st : State) (flowName : string) : result unit :=
  if String.eqb (s_Flow st) flowName then Ok tt
  else Err (Error [ErrRejected; ErrConflict]
              (Sprintf "%s is an execution of %s, not %s" [AStr (s_ExecID st); AStr (s_Flow st); AStr flowName])).

(** [CheckWrites]: every channel declared, every value accepted by its reducer. *)
Definition CheckWrites (def : Flow) (st : State) (writes : gmap string RawMessage) : result unit :=
  res_fold (fun _ name =>
    match f_Channels def !! name with
    | None => Err (plain (Sprintf "write to undeclared channel %q" [AStr name]))
    | Some ch =>
        match Reduce (ReducerOrDefault ch) (raw_at (s_Channels st) name) (raw_at writes name) with
        | Ok _ => Ok tt
        | Err (Error ks msg) => Err (Error ks (Sprintf "write to channel %q: %w" [AStr name; AText msg]))
        | Err e => Err e
        end
    end) tt (sorted_keys writes).

(** ** Ending an execution *)

(** Children to cancel with their parent: neither abandoned nor inherited. *)
Definition cancelChildren (d : decider) : list string :=
  omap (fun key => match s_Children (d_st d) !! key with
                   | Some c => if negb (String.eqb (cs_Policy c) ParentCloseAbandon)
                                  && negb (bool_decide (cs_ChildID c ∈ d_inherited d))
                               then Some (cs_ChildID c) else None
                   | None => None
                   end) (sorted_keys (s_Children (d_st d))).

(** Running children of a fan-out or map that settled, but the abandoned ones. *)
Definition ownedChildren (owner : string) (d : decider) : list string :=
  omap (fun key => match s_Children (d_st d) !! key with
                   | Some c => if String.eqb (cs_Owner c) owner
                                  && negb (String.eqb (cs_Policy c) ParentCloseAbandon)
                               then Some (cs_ChildID c) else None
                   | None => None
                   end) (sorted_keys (s_Children (d_st d))).

Definition fail_ (reason : string) (msg : Text) (nd : string) : Op := fun d =>
  emit ExecutionFailed (DFailed {|
    Failed_Error := msg; Failed_Reason := reason; Failed_Node := nd;
    Failed_CancelChildren := cancelChildren d |}) d.

Definition cancel (p : CancelData) : Op := fun d =>
  emit ExecutionCancelled (DCancelled {|
    Cancelled_Reason := CancelData_Reason p; Cancelled_CancelChildren := cancelChildren d |}) d.

(** ** Budgets *)

Definition over_text (d : decider) (k : string) (v b : float64) : Text :=
  Sprintf "counter %q = %g exceeds budget %g" [AStr k; AFloat v; AFloat b].

Fixpoint first_over (d : decider) (usage : gmap string float64) (keys : list string) : option Text :=
  match keys with
  | [] => None
  | k :: keys' =>
      let v := f_add (float_at (s_Counters (d_st d)) k) (float_at usage k) in
      let b := float_at (f_Budget (d_def d)) k in
      if f_gt v b then Some (over_text d k v b) else first_over d usage keys'
  end.

(** The first budget exceeded once [usage] is added; [None] is the empty string. *)
Definition overBudgetWith (usage : gmap string float64) (d : decider) : option Text :=
  first_over d usage (sorted_keys (f_Budget (d_def d))).
Definition overBudget (d : decider) : option Text := overBudgetWith ∅ d.

(** ** Tasks and timers *)

Definition timerAt (purpose : string) (after : Z) (key nd : string) (gen attempt : Z) : Op := fun d =>
  let nr := alloc d in
  emit TimerScheduled (DTimer {|
    Timer_ID := "t" +:+ Itoa nr; Timer_N := nr; Timer_At := d_now d + after; Timer_Purpose := purpose;
    Timer_Key := key; Timer_Node := nd; Timer_Generation := gen; Timer_Attempt := attempt |}) d.

(** [schedule]: one attempt of a task instance; generation 0 allocates one. *)
Definition schedule (n : Node) (key owner : string) (index : Z) (item : RawMessage) (rs : resumption)
    (gen attempt : Z) : Op := fun d =>
  let gen := if gen =? 0 then alloc d else gen in
  let? d := emit NodeScheduled (DScheduled {|
    Scheduled_Key := key; Scheduled_Node := n_ID n; Scheduled_Kind := n_Kind n;
    Scheduled_Index := index; Scheduled_Generation := gen; Scheduled_Attempt := attempt;
    Scheduled_Owner := owner; Scheduled_Item := item; Scheduled_Resume := rs_value rs;
    Scheduled_ResumedBy := rs_by rs |}) d in
  if 0 <? n_Timeout n then timerAt TimerTimeout (n_Timeout n) key (n_ID n) gen attempt d else Ok d.

(** [current]: the active instance a reference addresses, in one of [statuses]. *)
Definition current (ref : TaskRef) (statuses : list TaskStatus) (d : decider) : option Task :=
  match s_Tasks (d_st d) !! ref_Key ref with
  | None => None
  | Some t =>
      if negb (t_Generation t =? ref_Generation ref) || negb (t_Attempt t =? ref_Attempt ref) then None
      else if bool_decide (t_Status t ∈ statuses) then Some t else None
  end.

(** ** Children *)

(** [ChildID]: deterministic, and always a valid token. *)
Definition ChildID (parent : string) (n : Z) : string :=
  let id := parent +:+ "-c" +:+ Itoa n in
  if ValidToken id then id
  else hex (take 12 (sha256 (bytes_of parent))) +:+ "-c" +:+ Itoa n.

Section Decide.
Context `{Evaluator}.

(** [startChild]: the child execution of instance [key] of node [n]. *)
Definition startChild (n : Node) (key owner : string) (index : Z) (item : RawMessage) : Op := fun d =>
  let isItem := String.eqb owner (n_ID n) in
  let what := if isItem then Sprintf "map %q: item %d" [AStr (n_ID n); AInt index]
              else Sprintf "subflow %q" [AStr (n_ID n)] in
  let view := if isItem then
                Some {| t_Key := ""; t_Node := n_ID n; t_Kind := ""; t_Index := index; t_Owner := n_ID n;
                        t_Generation := 0; t_Attempt := 0; t_Status := TaskScheduled; t_Item := item;
                        t_Resume := None; t_ResumedBy := ""; t_Interrupt := None |}
              else None in
  let input0 := if isItem then item else s_Input (d_st d) in
  let input : Text + RawMessage :=
    match InputProgram n with
    | None => inr input0
    | Some p =>
        match eval p (Env (d_st d) view) with
        | inl err => inl err
        | inr v => match marshal_any v with
                   | Some j => inr (Some j)
                   | None => inl (TStr "json: unsupported value")
                   end
        end
    end in
  match input with
  | inl err => fail_ ReasonExpression (Sprintf "%s: input: %v" [AText what; AText err]) (n_ID n) d
  | inr input =>
      if negb (isObject input) then
        let hint := if isItem && bool_decide (InputProgram n = None)
                    then " (map the item to one with input)" else "" in
        fail_ ReasonExpression (Sprintf "%s: input must be an object%s" [AText what; AStr hint]) (n_ID n) d
      else
        let nr := alloc d in
        emit ChildStarted (DChild {|
          Child_Node := n_ID n; Child_ChildID := ChildID (s_ExecID (d_st d)) nr; Child_ChildN := nr;
          Child_Flow := n_Flow n; Child_Input := input; Child_Policy := ParentClose n;
          Child_Key := if String.eqb key (n_ID n) then "" else key;
          Child_Owner := owner; Child_Index := index |}) d
  end.

(** ** Completion of the execution *)

(** [complete0]: the output expression, or every channel, or the last result. *)
Definition complete0 : Op := fun d =>
  let st := d_st d in
  let done out := emit ExecutionCompleted (DCompleted {| Completed_Output := out |}) d in
  match OutputProgram (d_def d) with
  | Some p =>
      match eval p (Env st None) with
      | inl err => fail_ ReasonExpression (Sprintf "output: %v" [AText err]) "" d
      | inr v =>
          match marshal_any v with
          | None => fail_ ReasonExpression (Sprintf "output: %v" [AText "json: unsupported value"]) "" d
          | Some out =>
              if isNull (Some out) then done None
              else if negb (isObject (Some out)) then
                fail_ ReasonExpression "output must be an object or nil" "" d
              else done (Some out)
          end
      end
  | None =>
      if bool_decide (f_Channels (d_def d) <> ∅) then done (Some (marshal_map (s_Channels st)))
      else done (raw_at (s_Results st) (s_LastNode st))
  end.

(** ** Routing *)

Section Routing.
(** The recursive call. *)
Context (enter : string -> Op).

(** [advance]: to the dynamic successor, the static one, or completion. *)
Definition advance (n : Node) (dyn : string) : Op := fun d =>
  let next := if String.eqb dyn "" then n_Next n else dyn in
  if String.eqb next "" then complete0 d else enter next d.

(** *** Choice *)

Definition route_ (n : Node) (rule : Z) (to : string) : Op := fun d =>
  let? r := slice_get (n_Rules n) rule in
  let? d := emit ChoiceEvaluated (DChoice {|
    Choice_Node := n_ID n; Choice_Rule := rule; Choice_Name := ru_Name r; Choice_To := to;
    Choice_Error := TStr "" |}) d in
  if String.eqb to End_ then complete0 d else enter to d.

(** The loop over the rules from rule [i] on; [def] is the last default seen. *)
Fixpoint choose_from (n : Node) (env : VEnv) (i : Z) (rules : list Rule) (def : Z) : Op := fun d =>
  match rules with
  | [] => let? r := slice_get (n_Rules n) def in route_ n def (ru_To r) d
  | r :: rest =>
      if ru_Default r then choose_from n env (i + 1) rest i d
      else
        let? prog := slice_get (RulePrograms n) i in
        let? prog := deref prog in
        match match_ prog env with
        | inl err =>
            if String.eqb (n_OnError n) OnErrorFail then
              let? d := emit ChoiceEvaluated (DChoice {|
                Choice_Node := n_ID n; Choice_Rule := i; Choice_Name := ru_Name r; Choice_To := "";
                Choice_Error := err |}) d in
              fail_ ReasonExpression err (n_ID n) d
            else choose_from n env (i + 1) rest def d
        | inr true => route_ n i (ru_To r) d
        | inr false => choose_from n env (i + 1) rest def d
        end
  end.

Definition choose (n : Node) : Op := fun d =>
  choose_from n (Env (d_st d) None) 0 (n_Rules n) (-1) d.

(** *** Fan-out *)

(** The branches, one after the other; the loop stops once the execution ended. *)
Fixpoint fan_branches (n : Node) (branches : list string) : Op := fun d =>
  match branches with
  | [] => Ok d
  | b :: rest =>
      let? d := emit NodeEntered (DEntered {| Entered_Node := b |}) d in
      let? bn := deref (node (d_def d) b) in
      let? d := if String.eqb (n_Type bn) NodeSubflow then startChild bn b (n_ID n) 0 None d
                else schedule bn b (n_ID n) 0 None no_resumption 0 1 d in
      if Terminal (s_Status (d_st d)) then Ok d else fan_branches n rest d
  end.

Definition fanout (n : Node) : Op := fun d =>
  let? d := emit FanoutStarted (DFanout {|
    Fanout_Node := n_ID n; Fanout_Join := JoinOf (d_def d) (n_ID n); Fanout_Branches := n_Branches n |}) d in
  fan_branches n (n_Branches n) d.

(** *** Await *)

(** [consume]: the oldest buffered signal of the node's name. *)
Definition consume (n : Node) : Op := fun d =>
  match take_first (fun b => String.eqb (b_Name b) (n_Signal n)) (s_Buffered (d_st d)) with
  | None => Ok d
  | Some (b, _) =>
      let? d := emit SignalConsumed (DSignalUse {|
        SignalUse_Node := n_ID n; SignalUse_Name := b_Name b; SignalUse_ID := b_ID b |}) d in
      advance n "" d
  end.

Definition await (n : Node) : Op := fun d =>
  let nr := alloc d in
  let id := "t" +:+ Itoa nr in
  let? d := emit AwaitStarted (DAwait {|
    Await_Node := n_ID n; Await_Signal := n_Signal n; Await_TimerID := id |}) d in
  let? d := emit TimerScheduled (DTimer {|
    Timer_ID := id; Timer_N := nr; Timer_At := d_now d + n_Timeout n; Timer_Purpose := TimerAwait;
    Timer_Key := ""; Timer_Node := n_ID n; Timer_Generation := 0; Timer_Attempt := 0 |}) d in
  consume n d.

(** *** Map *)

(** The scheduling loop of [mapProgress]; every round raises [Next]. *)
Fixpoint map_loop (fuel : nat) (n : Node) : Op := fun d =>
  let? m := deref (s_Maps (d_st d) !! n_ID n) in
  let limit := if m_MaxParallel m <=? 0 then DefaultMapParallel else m_MaxParallel m in
  if (m_Next m <? len (m_Items m)) && (m_Next m - m_Done m <? limit) then
    match fuel with
    | O => Err OutOfFuel
    | S fuel =>
        let i := m_Next m in
        let key := n_ID n +:+ "#" +:+ Itoa i in
        let? item := slice_get (m_Items m) i in
        let? d := if negb (String.eqb (n_Flow n) "") then startChild n key (n_ID n) i item d
                  else schedule n key (n_ID n) i item no_resumption 0 1 d in
        if Terminal (s_Status (d_st d)) then Ok d else map_loop fuel n d
    end
  else Ok d.

Definition mapProgress (n : Node) : Op := fun d =>
  let? m := deref (s_Maps (d_st d) !! n_ID n) in
  if m_Done m =? len (m_Items m) then
    let? d := emit MapCompleted (DMapDone {| MapDone_Node := n_ID n |}) d in
    advance n "" d
  else map_loop (S (length (m_Items m))) n d.

Fixpoint marshal_items (l : list Json) : result (list RawMessage) :=
  match l with
  | [] => Ok []
  | x :: l' =>
      match marshal_any x with
      | Some b => let? bs := marshal_items l' in Ok (Some b :: bs)
      | None => Err (plain "json: unsupported value")
      end
  end.

Definition mapStart (n : Node) : Op := fun d =>
  let? over := deref (OverProgram n) in
  let run list :=
    let? items := marshal_items list in
    let? d := emit MapStarted (DMap {|
      Map_Node := n_ID n; Map_Items := items; Map_MaxParallel := n_MaxParallel n |}) d in
    mapProgress n d in
  match eval over (Env (d_st d) None) with
  | inl err => fail_ ReasonExpression (Sprintf "map %q: over: %v" [AStr (n_ID n); AText err]) (n_ID n) d
  | inr (JArr list) => run list
  | inr JNull => run []
  | inr v => fail_ ReasonExpression
               (Sprintf "map %q: over must evaluate to a list, got %T" [AStr (n_ID n); AJson v]) (n_ID n) d
  end.

(** *** Entering a node *)

Definition enter_body (id : string) : Op := fun d =>
  match node (d_def d) id with
  | None => fail_ ReasonError (Sprintf "unknown node %q" [AStr id]) id d
  | Some n =>
      if MaxStepsOrDefault (d_def d) <? s_Steps (d_st d) + 1 then
        fail_ ReasonMaxSteps
          (Sprintf "recursion limit reached: %d node entries (max_steps)" [AInt (MaxStepsOrDefault (d_def d))])
          id d
      else
        let? d := emit NodeEntered (DEntered {| Entered_Node := id |}) d in
        if String.eqb (n_Type n) NodeTask then schedule n (n_ID n) "" 0 None no_resumption 0 1 d
        else if String.eqb (n_Type n) NodeChoice then choose n d
        else if String.eqb (n_Type n) NodeFanout then fanout n d
        else if String.eqb (n_Type n) NodeAwait then await n d
        else if String.eqb (n_Type n) NodeMap then mapStart n d
        else if String.eqb (n_Type n) NodeSubflow then startChild n (n_ID n) "" 0 None d
        else fail_ ReasonError
               (Sprintf "node %q of type %s cannot be entered" [AStr id; AStr (n_Type n)]) id d
  end.
End Routing.

(** The recursion through [enter], with [fuel] nested entries. *)
Fixpoint enter_fuel (fuel : nat) (id : string) : Op := fun d =>
  match fuel with
  | O => Err OutOfFuel
  | S fuel => enter_body (enter_fuel fuel) id d
  end.

(** Every entry adds one step, and an entry past [max_steps] enters nothing: the
    steps left, plus one for the failing entry, are enough. *)
Definition steps_left (d : decider) : nat := Z.to_nat (MaxStepsOrDefault (d_def d) - s_Steps (d_st d)).
Definition enter (id : string) : Op := fun d => enter_fuel (S (steps_left d)) id d.

(** ** Joins *)

(** The branches the join waits for, by outcome: succeeded, failed, pending. *)
Definition tally (f : Fan) (waits : list string) : list string * list string * Z :=
  foldl (fun '(succ, fl, pend) b =>
    match fan_Branches f !! b with
    | Some BranchCompleted => (succ ++ [b], fl, pend)
    | Some BranchFailed | Some BranchCancelled => (succ, fl ++ [b], pend)
    | _ => (succ, fl, pend + 1)
    end) ([], [], 0) waits.

(** What the policy says of a tally: [None] while undecided, else whether the
    join succeeds. *)
Definition join_decision (kind : string) (q total succ pending : Z) : option bool :=
  let need := if String.eqb kind JoinAny then 1
              else if String.eqb kind JoinQuorum || String.eqb kind JoinMin then q else total in
  if String.eqb kind JoinMin && (0 <? pending) then None
  else
    let ok := need <=? succ in
    if negb ok && (need <=? succ + pending) then None else Some ok.

Definition closeJoin (fan : string) (join : Node) (succ failed : list string) (ok : bool) : Op := fun d =>
  let cancel := ownedChildren fan d in
  let? d := each (sorted_keys (s_Tasks (d_st d))) (fun k d =>
    let? t := deref (s_Tasks (d_st d) !! k) in
    if String.eqb (t_Owner t) fan then
      emit NodeCancelled (DNodeCancel {|
        NodeCancel_Key := k; NodeCancel_Node := t_Node t; NodeCancel_Reason := "join settled" |}) d
    else Ok d) d in
  let outputs : gmap string RawMessage :=
    foldl (fun m b => <[b := raw_at (s_Results (d_st d)) b]> m) ∅ succ in
  let? d := emit NodeEntered (DEntered {| Entered_Node := n_ID join |}) d in
  let? d := emit JoinCompleted (DJoin {|
    Join_Node := n_ID join; Join_Fanout := fan; Join_Succeeded := succ; Join_Failed := failed;
    Join_OK := ok; Join_Output := Some (marshal_map outputs); Join_CancelChildren := cancel |}) d in
  if negb ok then
    if negb (String.eqb (n_OnFailure join) "") then enter (n_OnFailure join) d
    else fail_ ReasonJoin
           (Sprintf "join %q failed: branches %v did not succeed" [AStr (n_ID join); AStrs failed])
           (n_ID join) d
  else advance enter join "" d.

Definition evalJoin (fan : string) : Op := fun d =>
  let? f := deref (s_Fans (d_st d) !! fan) in
  let? join := deref (node (d_def d) (fan_Join f)) in
  let waits := WaitFor (d_def d) (n_ID join) in
  let '(succ, failed, pending) := tally f waits in
  let '(kind, q) := JoinKind join in
  match join_decision kind q (len waits) (len succ) pending with
  | None => Ok d
  | Some ok => closeJoin fan join succ failed ok d
  end.

(** ** Settling tasks *)

(** [abortMap]: close map [n] after its item [index] failed permanently. *)
Definition abortMap (n : Node) (index : Z) : Op := fun d =>
  let? d := each (sorted_keys (s_Tasks (d_st d))) (fun k d =>
    let? t := deref (s_Tasks (d_st d) !! k) in
    if String.eqb (t_Owner t) (n_ID n) then
      emit NodeCancelled (DNodeCancel {|
        NodeCancel_Key := k; NodeCancel_Node := t_Node t; NodeCancel_Reason := "map item failed" |}) d
    else Ok d) d in
  let? d := emit MapAborted (DMapAbort {|
    MapAbort_Node := n_ID n; MapAbort_Index := index;
    MapAbort_CancelChildren := ownedChildren (n_ID n) d |}) d in
  enter (n_OnFailure n) d.

Definition is_fan (d : decider) (owner : string) : bool := bool_decide (is_Some (s_Fans (d_st d) !! owner)).
Definition is_item (d : decider) (nd owner : string) : bool :=
  bool_decide (is_Some (s_Maps (d_st d) !! owner)) && String.eqb nd owner.

(** [afterSettle]: continue after an instance settled. *)
Definition afterSettle (t : Task) (n : Node) (dyn : string) : Op := fun d =>
  if Terminal (s_Status (d_st d)) then Ok d
  else if is_fan d (t_Owner t) then evalJoin (t_Owner t) d
  else if is_item d (t_Node t) (t_Owner t) then mapProgress enter n d
  else advance enter n dyn d.

(** [taskFailed]: a failed attempt; retry when allowed, otherwise the instance
    settles and its owner reacts. *)
Definition taskFailed (tc : Task) (msg : Text) (retryable : bool) (reason : string)
    (usage : gmap string float64) : Op := fun d =>
  let? n := deref (node (d_def d) (t_Node tc)) in
  let over := overBudgetWith usage d in
  let willRetry := retryable && (t_Attempt tc <? MaxAttempts n) && bool_decide (over = None) in
  let? d := emit NodeFailed (DNodeFail {|
    NodeFail_Key := t_Key tc; NodeFail_Node := t_Node tc; NodeFail_Generation := t_Generation tc;
    NodeFail_Attempt := t_Attempt tc; NodeFail_Error := msg; NodeFail_Reason := reason;
    NodeFail_WillRetry := willRetry; NodeFail_Usage := usage |}) d in
  match over with
  | Some over => fail_ ReasonBudget over (t_Node tc) d
  | None =>
      if willRetry then
        let delay := Backoff n (t_Attempt tc + 1) in
        if delay <=? 0 then
          schedule n (t_Key tc) (t_Owner tc) (t_Index tc) (t_Item tc) (task_resumption tc)
            (t_Generation tc) (t_Attempt tc + 1) d
        else timerAt TimerRetry delay (t_Key tc) (t_Node tc) (t_Generation tc) (t_Attempt tc + 1) d
      else if is_fan d (t_Owner tc) then evalJoin (t_Owner tc) d
      else if negb (String.eqb (n_OnFailure n) "") then
        if is_item d (t_Node tc) (t_Owner tc) then abortMap n (t_Index tc) d
        else enter (n_OnFailure n) d
      else fail_ reason (Sprintf "node %q failed: %s" [AStr (t_Node tc); AText msg]) (t_Node tc) d
  end.

(** [checkCompletion]: what is wrong with a completion, and whether retrying
    could fix it. *)
Definition checkCompletion (n : Node) (t : Task) (output : RawMessage) (p : CompleteData) (d : decider)
  : result (option (Text * bool)) :=
  if bool_decide (is_Some output) && negb (isObject output) then
    Ok (Some (TStr "output must be a JSON object", false))
  else
    match CheckWrites (d_def d) (d_st d) (CompleteData_Writes p) with
    | Err (Error _ msg) => Ok (Some (msg, false))
    | Err e => Err e
    | Ok _ =>
        if negb (String.eqb (CompleteData_Next p) "")
           && (negb (String.eqb (t_Owner t) "") || negb (AllowsDynamic n (CompleteData_Next p))) then
          Ok (Some (Sprintf "next %q is not a declared dynamic successor of %q"
                      [AStr (CompleteData_Next p); AStr (n_ID n)], false))
        else match output with
             | Some j => match ValidateOutput n j with
                         | Some err => Ok (Some (err, true))
                         | None => Ok None
                         end
             | None => Ok None
             end
    end.

Definition complete (p : CompleteData) : Op := fun d =>
  match current (CompleteData_TaskRef p) [TaskScheduled] d with
  | None => Ok d
  | Some t =>
      let? n := deref (node (d_def d) (t_Node t)) in
      let output := if isNull (CompleteData_Output p) then None else CompleteData_Output p in
      let? problem := checkCompletion n t output p d in
      match problem with
      | Some (problem, retryable) =>
          taskFailed t problem retryable ReasonInvalidOutput (CompleteData_Usage p) d
      | None =>
          let? d := emit NodeCompleted (DNodeDone {|
            NodeDone_Key := t_Key t; NodeDone_Node := t_Node t; NodeDone_Generation := t_Generation t;
            NodeDone_Attempt := t_Attempt t; NodeDone_Output := output;
            NodeDone_Writes := CompleteData_Writes p; NodeDone_Next := CompleteData_Next p;
            NodeDone_Usage := CompleteData_Usage p; NodeDone_Cached := CompleteData_Cached p;
            NodeDone_CacheKey := CompleteData_CacheKey p |}) d in
          match overBudget d with
          | Some over => fail_ ReasonBudget over (t_Node t) d
          | None => afterSettle t n (CompleteData_Next p) d
          end
      end
  end.

Definition failTask (p : FailData) : Op := fun d =>
  match current (FailData_TaskRef p) [TaskScheduled] d with
  | None => Ok d
  | Some t =>
      let reason := if String.eqb (FailData_Reason p) "" then ReasonError else FailData_Reason p in
      taskFailed t (FailData_Error p) (FailData_Retryable p) reason (FailData_Usage p) d
  end.

Definition interrupt (p : InterruptData) : Op := fun d =>
  match current (InterruptData_TaskRef p) [TaskScheduled] d with
  | None => Ok d
  | Some t =>
      let? d := emit NodeInterrupted (DInterrupted {|
        Interrupted_Key := t_Key t; Interrupted_Node := t_Node t; Interrupted_Generation := t_Generation t;
        Interrupted_Payload := InterruptData_Payload p; Interrupted_Usage := InterruptData_Usage p |}) d in
      match overBudget d with
      | Some over => fail_ ReasonBudget over (t_Node t) d
      | None => Ok d
      end
  end.

(** The first interrupted instance, in the order of the keys, a resume names. *)
Definition resumable (p : ResumeData) (st : State) : option Task :=
  head (omap (fun k => match s_Tasks st !! k with
                       | Some c =>
                           if bool_decide (t_Status c = TaskInterrupted)
                              && (String.eqb k (ResumeData_Key p)
                                  || String.eqb (ResumeData_Key p) "" && String.eqb (t_Node c) (ResumeData_Node p))
                           then Some c else None
                       | None => None
                       end) (sorted_keys (s_Tasks st))).

Definition resume (p : ResumeData) : Op := fun d =>
  match resumable p (d_st d) with
  | None => Ok d
  | Some t =>
      let? n := deref (node (d_def d) (t_Node t)) in
      let value := match ResumeData_Value p with None => Some JNull | v => v end in
      schedule n (t_Key t) (t_Owner t) (t_Index t) (t_Item t)
        {| rs_value := value; rs_by := ResumeData_By p |} 0 1 d
  end.

(** ** Timers, signals *)

Definition awaitTimeout (tm : Timer) : Op := fun d =>
  match s_Awaits (d_st d) !! Timer_Node tm with
  | None => Ok d
  | Some a =>
      if negb (String.eqb (a_TimerID a) (Timer_ID tm)) then Ok d
      else
        let? n := deref (node (d_def d) (Timer_Node tm)) in
        let? d := emit AwaitTimedOut (DAwaitTimeout {|
          AwaitTimeout_Node := n_ID n; AwaitTimeout_To := n_OnTimeout n |}) d in
        if String.eqb (n_OnTimeout n) "" then
          fail_ ReasonAwaitTimeout
            (Sprintf "await %q: no signal %q before timeout" [AStr (n_ID n); AStr (n_Signal n)]) (n_ID n) d
        else enter (n_OnTimeout n) d
  end.

Definition timer (p : TimerData) : Op := fun d =>
  match s_Timers (d_st d) !! TimerData_TimerID p with
  | None => Ok d
  | Some tc =>
      let? d := emit TimerFired (DFired {| Fired_ID := Timer_ID tc |}) d in
      if String.eqb (Timer_Purpose tc) TimerRetry then
        match s_Tasks (d_st d) !! Timer_Key tc with
        | None => Ok d
        | Some t =>
            if negb (t_Generation t =? Timer_Generation tc) || negb (bool_decide (t_Status t = TaskRetrying))
               || negb (t_Attempt t =? Timer_Attempt tc - 1) then Ok d
            else
              let? n := deref (node (d_def d) (t_Node t)) in
              schedule n (t_Key t) (t_Owner t) (t_Index t) (t_Item t) (task_resumption t)
                (t_Generation t) (Timer_Attempt tc) d
        end
      else if String.eqb (Timer_Purpose tc) TimerTimeout then
        match current {| ref_Key := Timer_Key tc; ref_Generation := Timer_Generation tc;
                         ref_Attempt := Timer_Attempt tc |} [TaskScheduled] d with
        | None => Ok d
        | Some t => taskFailed t "attempt timed out" true ReasonTimeout ∅ d
        end
      else if String.eqb (Timer_Purpose tc) TimerAwait then awaitTimeout tc d
      else Ok d
  end.

Definition signal (p : SignalData) : Op := fun d =>
  match CheckToken "signal name" (SignalData_Name p) with
  | Some err => invalid (plain err)
  | None =>
      if bool_decide (is_Some (s_SignalIDs (d_st d) !! d_cmdID d)) then Ok d
      else
        let? d := emit SignalReceived (DSignal {|
          Signal_Name := SignalData_Name p; Signal_ID := d_cmdID d;
          Signal_Payload := SignalData_Payload p |}) d in
        match List.find (fun nd => match s_Awaits (d_st d) !! nd with
                                   | Some a => String.eqb (a_Signal a) (SignalData_Name p)
                                   | None => false
                                   end) (sorted_keys (s_Awaits (d_st d))) with
        | None => Ok d
        | Some nd => let? n := deref (node (d_def d) nd) in consume enter n d
        end
  end.

(** ** Children *)

(** The child with id [id].  Go ranges over the children in no fixed order; ids
    are unique, so the first match is the only one. *)
Definition find_child (id : string) (st : State) : option (string * ChildState) :=
  head (omap (fun k => match s_Children st !! k with
                       | Some c => if String.eqb (cs_ChildID c) id then Some (k, c) else None
                       | None => None
                       end) (sorted_keys (s_Children st))).

Definition childDone (p : ChildDoneData) : Op := fun d =>
  match find_child (ChildDoneData_ChildID p) (d_st d) with
  | None => Ok d
  | Some (key, cc) =>
      let nd := NodeOf cc key in
      let? d := emit ChildCompleted (DChildDone {|
        ChildDone_Node := nd; ChildDone_Key := if String.eqb key nd then "" else key;
        ChildDone_ChildID := ChildDoneData_ChildID p; ChildDone_Status := ChildDoneData_Status p;
        ChildDone_Output := ChildDoneData_Output p; ChildDone_Error := ChildDoneData_Error p;
        ChildDone_Counters := ChildDoneData_Counters p |}) d in
      match overBudget d with
      | Some over => fail_ ReasonBudget over nd d
      | None =>
          let ok := String.eqb (ChildDoneData_Status p) (status_string StatusCompleted) in
          if is_fan d (cs_Owner cc) then evalJoin (cs_Owner cc) d
          else
            let? n := deref (node (d_def d) nd) in
            if is_item d nd (cs_Owner cc) then
              if ok then mapProgress enter n d
              else if negb (String.eqb (n_OnFailure n) "") then abortMap n (cs_Index cc) d
              else fail_ ReasonChild
                     (Sprintf "map %q: item %d (%s) %s: %s"
                        [AStr nd; AInt (cs_Index cc); AStr (ChildDoneData_ChildID p);
                         AStr (ChildDoneData_Status p); AStr (ChildDoneData_Error p)]) nd d
            else if negb ok then
              if negb (String.eqb (n_OnFailure n) "") then enter (n_OnFailure n) d
              else fail_ ReasonChild
                     (Sprintf "subflow %q (%s) %s: %s"
                        [AStr nd; AStr (ChildDoneData_ChildID p); AStr (ChildDoneData_Status p);
                         AStr (ChildDoneData_Error p)]) nd d
            else advance enter n "" d
      end
  end.

(** ** Updates *)

Definition update (writes : gmap string RawMessage) : Op := fun d =>
  if bool_decide (writes = ∅) then invalid (plain "update without writes")
  else if bool_decide (is_Some (s_UpdateIDs (d_st d) !! d_cmdID d)) then Ok d
  else match CheckWrites (d_def d) (d_st d) writes with
       | Err e => invalid e
       | Ok _ => emit ChannelsUpdated (DUpdate {| Update_ID := d_cmdID d; Update_Writes := writes |}) d
       end.

(** ** Start *)

(** [attrs]: the search attributes, evaluated on the start input. *)
Definition attrs (def : Flow) (input : RawMessage) : result (gmap string Text) :=
  if bool_decide (f_SearchAttributes def = ∅) then Ok ∅
  else res_fold (fun out k =>
    let? prog := deref (AttrProgram def k) in
    match eval prog (EnvInput input) with
    | inl _ | inr JNull => Ok out
    | inr v => Ok (<[k := Sprintf "%v" [AJson v]]> out)
    end) ∅ (sorted_keys (f_SearchAttributes def)).

Definition start (c : Command) : Op := fun d =>
  match Payload decode_StartData c with
  | Err e => invalid e
  | Ok p =>
      if Exists (d_st d) then let? _ := CheckJoin (d_st d) (StartData_Flow p) in Ok d
      else
        let input := if isNull (StartData_Input p) then Some (JObj []) else StartData_Input p in
        if negb (isObject input) then invalid (plain "input must be a JSON object")
        else
          let? hash := FlowHash (d_def d) in
          let? at_ := attrs (d_def d) input in
          let? d := emit ExecutionStarted (DStarted {|
            Started_ExecID := s_ExecID (d_st d); Started_Flow := f_Name (d_def d);
            Started_FlowHash := hash; Started_Input := input; Started_Parent := StartData_Parent p;
            Started_Attrs := at_ |}) d in
          enter (StartNode (d_def d)) d
  end.

(** ** Decide *)

(** The events of a decider that ran. *)
Definition decided (r : result decider) : result (list FoldEvent * State) :=
  let? d := r in Ok (d_out d, d_st d).

(** [decode]: the payload, then the operation. *)
Definition decode {P} (c : Command) (dec : Json -> option P) (fn : P -> Op) : Op := fun d =>
  match Payload dec c with Ok p => fn p d | Err e => invalid e end.

(** The switch on the command type. *)
Definition dispatch (c : Command) : Op := fun d =>
  match c_Type c with
  | CComplete => decode c decode_CompleteData complete d
  | CFail => decode c decode_FailData failTask d
  | CInterrupt => decode c decode_InterruptData interrupt d
  | CResume => decode c decode_ResumeData resume d
  | CSignal => decode c decode_SignalData signal d
  | CCancel => decode c decode_CancelData cancel d
  | CTimer => decode c decode_TimerData timer d
  | CChildDone => decode c decode_ChildDoneData childDone d
  | CUpdate => decode c decode_UpdateData (fun p => update (UpdateData_Writes p)) d
  | _ => Err (Error [ErrInvalid] "command is not decided by fold")
  end.

Definition Decide (def : Flow) (st : State) (c : Command) (now : Z) : result (list FoldEvent * State) :=
  let d := new_decider def st now (c_ID c) in
  match c_Type c with
  | CStart => decided (start c d)
  | _ =>
      if negb (Exists st) then Err (Error [ErrNotFound] (Sprintf "%s" [AStr (s_ExecID st)]))
      else if Terminal (s_Status st) then
        match c_Type c with
        | CUpdate => Err (Error [ErrRejected] (Sprintf "execution %s is %s"
                                [AStr (s_ExecID st); AStr (status_string (s_Status st))]))
        | _ => Ok ([], st)
        end
      else decided (dispatch c d)
  end.

(** ** Forks, continuations, aborts *)

(** [rekick]: everything in flight in a forked state starts again under fresh
    generations, timers and children. *)
Definition rekick_task (k : string) : Op := fun d =>
  let? t := deref (s_Tasks (d_st d) !! k) in
  if bool_decide (t_Status t = TaskInterrupted) then Ok d
  else
    let? n := deref (node (d_def d) (t_Node t)) in
    schedule n (t_Key t) (t_Owner t) (t_Index t) (t_Item t) (task_resumption t) 0 1 d.

Definition rekick_await (nd : string) : Op := fun d =>
  let? n := deref (node (d_def d) nd) in await enter n d.

Definition rekick_child (key : string) : Op := fun d =>
  if Terminal (s_Status (d_st d)) then Ok d
  else
    let? c := deref (s_Children (d_st d) !! key) in
    let item := match s_Maps (d_st d) !! cs_Owner c with
                | Some m => if cs_Index c <? len (m_Items m)
                            then slice_get (m_Items m) (cs_Index c) else Ok None
                | None => Ok None
                end in
    let? item := item in
    let? n := deref (node (d_def d) (NodeOf c key)) in
    startChild n key (cs_Owner c) (cs_Index c) item d.

Definition rekick : Op := fun d =>
  let? d := each (sorted_keys (s_Tasks (d_st d))) rekick_task d in
  let? d := each (sorted_keys (s_Awaits (d_st d))) rekick_await d in
  let ids : gset string := list_to_set (cs_ChildID <$> (map_to_list (s_Children (d_st d))).*2) in
  let d := set_d_inherited ids d in
  each (sorted_keys (s_Children (d_st d))) rekick_child d.

Definition DecideFork (def : Flow) (st src : State) (from : string) (seq : Z) (cmdID : string)
    (writes : gmap string RawMessage) (now : Z) : result (list FoldEvent * State) :=
  if Exists st then Ok ([], st)
  else
    let? b := MarshalState src in
    let? d := emit ExecutionForked (DForked {|
      Forked_ExecID := s_ExecID st; Forked_From := from; Forked_Seq := seq; Forked_State := b |})
      (new_decider def st now cmdID) in
    let? d := if bool_decide (writes = ∅) then Ok d
              else if Terminal (s_Status (d_st d)) then
                invalid (plain "cannot edit a fork of a finished execution")
              else match CheckWrites def (d_st d) writes with
                   | Err e => invalid e
                   | Ok _ => emit ChannelsUpdated (DUpdate {| Update_ID := cmdID; Update_Writes := writes |}) d
                   end in
    if Terminal (s_Status (d_st d)) then decided (Ok d) else decided (rekick d).

(** [Continue]: the state so far, with the archived segment, as one event. *)
Definition Continue (def : Flow) (st : State) (seg : Segment) (cmdID : string) (now : Z)
  : result (list FoldEvent * State) :=
  if negb (Exists st) || Terminal (s_Status st) then Ok ([], st)
  else
    let? b := MarshalState st in
    let? carried := Unmarshal b in
    let carried := set_Segments (s_Segments carried ++ [seg]) carried in
    let? b := MarshalState carried in
    decided (emit ExecutionContinued (DContinued {| Continued_State := b; Continued_Segment := seg |})
               (new_decider def st now cmdID)).

(** [Abort]: fail the execution outright, recording [first] before if it does not
    exist yet. *)
Definition Abort (def : Flow) (st : State) (first : option FoldEvent) (cmdID reason : string) (msg : Text)
    (now : Z) : result (list FoldEvent * State) :=
  let d := new_decider def st now cmdID in
  let? d := if Exists st then Ok d
            else match first with
                 | None => invalid (plain "cannot abort a missing execution")
                 | Some ev => emit (ev_Type ev) (ev_Data ev) d
                 end in
  if Terminal (s_Status (d_st d)) then decided (Ok d) else decided (fail_ reason msg "" d).
End Decide.
