(* ===== verification/Writes.v ===== *)
(** * Channel writes: what is validated is what is applied

    A decision validates writes with [CheckWrites] before it records them; the
    fold applies them with [applyWrites], at any later time and on any machine.
    Validated writes always apply, and each channel gets its reducer's value. *)

From S2P Require Import Prelude Json Hash Names Expr Flow Event Cmd Reduce State StateFacts View.
From S2P Require Import Decide.

Lemma fold_writes def (w : gmap string RawMessage) ks s :
  NoDup ks ->
  (forall k, k ∈ ks -> exists r, Reduce (channel_reducer def k) (raw_at (s_Channels s) k) (raw_at w k) = Ok r) ->
  exists ch, res_fold (fun s name =>
      let? v := Reduce (channel_reducer def name) (raw_at (s_Channels s) name) (raw_at w name) in
      Ok (set_Channels (<[name := v]> (s_Channels s)) s)) s ks = Ok (set_Channels ch s) /\
    forall k, if decide (k ∈ ks)
      then exists r, Reduce (channel_reducer def k) (raw_at (s_Channels s) k) (raw_at w k) = Ok r /\ ch !! k = Some r
      else ch !! k = s_Channels s !! k.
Proof.
  intros Hnd. revert s. induction Hnd as [|k ks Hk Hnd IH]; intros s Hr; cbn [res_fold].
  { exists (s_Channels s). split; [by rewrite set_Channels_id|]. intros k.
    by rewrite decide_False by apply not_elem_of_nil. }
  destruct (Hr k) as [r Hkr]; [by left|]. rewrite Hkr. cbn [res_bind].
  set (s1 := set_Channels (<[k := r]> (s_Channels s)) s).
  assert (Hother : forall j, j <> k -> s_Channels s1 !! j = s_Channels s !! j).
  { intros j Hj. simpl. by rewrite lookup_insert_ne. }
  destruct (IH s1) as (ch & Hf & Hch).
  { intros j Hj. assert (Hne : j <> k) by (intros ->; done). destruct (Hr j) as [rj Hrj]; [by right|].
    exists rj. unfold raw_at in *. by rewrite Hother. }
  exists ch. split; [by rewrite Hf|]. intros j. specialize (Hch j).
  destruct (decide (j = k)) as [->|Hne].
  - rewrite decide_True by (by left). rewrite decide_False in Hch by done.
    exists r. split; [done|]. rewrite Hch. simpl. by rewrite lookup_insert_eq.
  - destruct (decide (j ∈ ks)) as [Hj|Hj].
    + rewrite decide_True by (by right). destruct Hch as (rj & Hrj & Hl). exists rj.
      split; [|done]. unfold raw_at in *. by rewrite Hother in Hrj.
    + rewrite decide_False by (rewrite elem_of_cons; tauto). by rewrite Hch, Hother.
Qed.

Lemma CheckWrites_ok def st w :
  CheckWrites def st w = Ok tt ->
  forall k, is_Some (w !! k) ->
    is_Some (f_Channels def !! k) /\
    exists r, Reduce (channel_reducer def k) (raw_at (s_Channels st) k) (raw_at w k) = Ok r.
Proof.
  unfold CheckWrites. intros HC k Hk%elem_of_sorted_keys. revert HC Hk.
  induction (sorted_keys w) as [|j ks IH]; intros HC Hk; [by apply elem_of_nil in Hk|].
  cbn [res_fold] in HC. apply res_bind_ok in HC as ([] & Hj & HC).
  apply elem_of_cons in Hk as [->|Hk]; [|by apply IH].
  clear IH. unfold channel_reducer. destruct (f_Channels def !! j) as [ch|]; [|done].
  destruct (Reduce (ReducerOrDefault ch) _ _) as [r|[]] eqn:Er; try done. split; [done|]. eauto.
Qed.

(** Writes that were checked apply, to the channels only. *)
Lemma applyWrites_checked def st w :
  CheckWrites def st w = Ok tt ->
  exists ch, applyWrites (Some def) w st = Ok (set_Channels ch st) /\
    forall k, if decide (k ∈ sorted_keys w)
      then exists r, Reduce (channel_reducer def k) (raw_at (s_Channels st) k) (raw_at w k) = Ok r /\ ch !! k = Some r
      else ch !! k = s_Channels st !! k.
Proof.
  intros HC. apply (fold_writes def w (sorted_keys w) st); [apply sorted_keys_NoDup|].
  intros k Hin%elem_of_sorted_keys. by apply (CheckWrites_ok _ _ _ HC).
Qed.

(** Writes a decision accepted never fail in the fold: if [CheckWrites] accepts a set of
    writes on a state, [applyWrites] succeeds on it; every written channel is
    declared and gets its reducer's value of what it held and what is written,
    and nothing else of the state changes. *)
Theorem validated_writes_apply def st w :
  CheckWrites def st w = Ok tt ->
  exists ch, applyWrites (Some def) w st = Ok (set_Channels ch st) /\
    forall k, match w !! k with
      | Some v => is_Some (f_Channels def !! k) /\
          exists r, Reduce (channel_reducer def k) (raw_at (s_Channels st) k) v = Ok r /\ ch !! k = Some r
      | None => ch !! k = s_Channels st !! k
      end.
Proof.
  intros HC. pose proof (CheckWrites_ok _ _ _ HC) as Hk.
  destruct (applyWrites_checked _ _ _ HC) as (ch & Hf & Hch). exists ch. split; [exact Hf|].
  intros k. specialize (Hch k). destruct (w !! k) as [v|] eqn:Ew.
  - rewrite decide_True in Hch by (apply elem_of_sorted_keys; eauto).
    unfold raw_at at 2 in Hch. rewrite Ew in Hch. split; [|done]. apply Hk. eauto.
  - rewrite decide_False in Hch; [done|]. rewrite elem_of_sorted_keys, Ew. by intros [].
Qed.

(** ** Reducers *)

(** The deltas a reducer takes. *)
Definition writable (reducer : string) (delta : RawMessage) : Prop :=
  if String.eqb reducer ReducerMerge then exists o, delta = Some (JObj o)
  else if String.eqb reducer ReducerSum then exists j f, delta = Some j /\ unmarshal_float j = Some f
  else True.

Lemma isNull_inv v : isNull v = true -> v = None \/ v = Some JNull.
Proof. destruct v as [[]|]; simpl; auto; discriminate. Qed.

Lemma reduceMerge_total cur o :
  isNull cur = true \/ (exists c, cur = Some (JObj c)) -> exists v, reduceMerge cur (Some (JObj o)) = Ok v.
Proof. intros [Hn|[c ->]]; unfold reduceMerge; [rewrite Hn|]; simpl; eauto. Qed.

Lemma reduceAppend_total cur delta :
  isNull cur = true \/ (exists l, cur = Some (JArr l)) -> exists v, reduceAppend cur delta = Ok v.
Proof. intros [Hn|[c ->]]; unfold reduceAppend; [rewrite Hn|]; simpl; eauto. Qed.

(** The number a raw message holds: zero for an absent one or for null. *)
Definition number (r : RawMessage) : float64 := default f_zero (r ≫= unmarshal_float).

Lemma reduceSum_total cur j f :
  unmarshal_float j = Some f -> isNull cur = true \/ (exists c x, cur = Some c /\ unmarshal_float c = Some x) ->
  (exists v, reduceSum cur (Some j) = Ok v) \/ f_finite (f_add (number cur) f) = false.
Proof.
  intros Hf Hc. unfold reduceSum.
  assert (Ha : (if isNull cur then Ok f_zero else
    match unmarshal_float (marshal_raw cur) with
    | Some a => Ok a | None => errReducer "reducer: sum: current value is not a number" end) = Ok (number cur)).
  { destruct (isNull cur) eqn:En; [by apply isNull_inv in En as [->| ->]|].
    destruct Hc as [?|(c & x & -> & Hx)]; [congruence|]. unfold number. simpl. by rewrite Hx. }
  rewrite Ha. cbn [res_bind mbind option_bind]. rewrite Hf.
  destruct (f_finite (f_add (number cur) f)) eqn:E; eauto.
Qed.

(** A channel never gets stuck: a reducer folds every delta of its kind (any value for
    replace and append, an object for merge, a number for sum) into every value
    it can hold, and the result is again a value it can hold.  The only way out
    is a sum of the two numbers that overflows to an infinity. *)
Theorem reducer_progress reducer cur delta :
  reducer ∈ [ReducerReplace; ReducerAppend; ReducerMerge; ReducerSum] ->
  accepts reducer cur -> writable reducer delta ->
  (exists v, Reduce reducer cur delta = Ok v /\ accepts reducer v) \/
  (reducer = ReducerSum /\ f_finite (f_add (number cur) (number delta)) = false).
Proof.
  intros Hr Ha Hw. assert (Hok : (exists v, Reduce reducer cur delta = Ok v) \/
    (reducer = ReducerSum /\ f_finite (f_add (number cur) (number delta)) = false)).
  { rewrite !elem_of_cons, elem_of_nil in Hr. destruct Hr as [->|[->|[->|[->|[]]]]]; cbn in Ha, Hw |- *.
    - left. by exists delta.
    - left. by apply reduceAppend_total.
    - left. destruct Hw as [o ->]. by apply reduceMerge_total.
    - destruct Hw as (j & f & -> & Hf). destruct (reduceSum_total cur j f Hf Ha) as [?|?]; [eauto|].
      right. split; [done|]. unfold number at 2. simpl. by rewrite Hf. }
  destruct Hok as [[v Hv]|?]; [left|by right]. exists v. split; [done|]. by eapply Reduce_accepts.
Qed.

(** A merge is the union of the members, the written ones winning: for every member name,
    the new value is the one written, or else the one held before. *)
Theorem merge_is_union o d :
  exists kvs, Reduce ReducerMerge (Some (JObj o)) (Some (JObj d)) = Ok (Some (JObj kvs)) /\ forall k,
    (list_to_map (reverse kvs) : gmap string Json) !! k =
    match (list_to_map (reverse d) : gmap string Json) !! k with
    | Some x => Some x
    | None => (list_to_map (reverse o) : gmap string Json) !! k
    end.
Proof.
  destruct (reduceMerge (Some (JObj o)) (Some (JObj d))) as [v|e] eqn:E; [|done].
  destruct (reduceMerge_lookup o d v E) as (kvs & -> & Hk). exists kvs. by split.
Qed.

(** Writing null to an append channel appends nothing, although the reducer is documented
    to append any value that is not an array as one element. *)
Theorem append_null_appends_nothing l :
  Reduce ReducerAppend (Some (JArr l)) (Some JNull) = Ok (Some (JArr l)).
Proof. unfold Reduce. simpl. unfold reduceAppend. simpl. by rewrite app_nil_r. Qed.
