(* ===== verification/JoinPolicy.v ===== *)
(** * Join policies

    When a join settles: as soon as its outcome no longer depends on the branches
    that are still running (and, under [min], not before they all ended).  The
    tally the code keeps is compared with the possible completions of the fan. *)

From S2P Require Import Prelude Json Hash Names Expr Flow Event Cmd Reduce State StateFacts View.
From S2P Require Import Decide.

(** ** Specification *)

(** A branch that ended. *)
Definition ended (f : Fan) (b : string) : bool :=
  match fan_Branches f !! b with
  | Some BranchCompleted | Some BranchFailed | Some BranchCancelled => true
  | _ => false
  end.
Definition succeeded (f : Fan) (b : string) : bool := bool_decide (fan_Branches f !! b = Some BranchCompleted).

Definition successes (f : Fan) (waits : list string) : Z := len (filter (fun b => succeeded f b = true) waits).

(** [f'] is a way fan [f] may end, for a join that waits for [waits]. *)
Definition ending (waits : list string) (f f' : Fan) : Prop :=
  forall b, b ∈ waits -> ended f' b = true /\ (ended f b = true -> succeeded f' b = succeeded f b).

(** The successes a policy asks for, of [total] branches. *)
Definition needed (kind : string) (q total : Z) : Z :=
  if String.eqb kind JoinAny then 1
  else if String.eqb kind JoinQuorum || String.eqb kind JoinMin then q else total.

(** ** The tally *)

Lemma tally_app f waits succ fl pend :
  foldl (fun '(succ, fl, pend) b =>
    match fan_Branches f !! b with
    | Some BranchCompleted => (succ ++ [b], fl, pend)
    | Some BranchFailed | Some BranchCancelled => (succ, fl ++ [b], pend)
    | _ => (succ, fl, pend + 1)
    end) (succ, fl, pend) waits =
  (succ ++ filter (fun b => succeeded f b = true) waits,
   fl ++ filter (fun b => ended f b = true /\ succeeded f b = false) waits,
   pend + len (filter (fun b => ended f b = false) waits)).
Proof.
  revert succ fl pend. induction waits as [|b waits IH]; intros succ fl pend; simpl.
  { rewrite !app_nil_r. f_equal. unfold len. simpl. lia. }
  rewrite !filter_cons. destruct (fan_Branches f !! b) as [[]|] eqn:E; rewrite IH;
    assert (Hs := eq_refl (succeeded f b)); unfold succeeded in Hs at 2; rewrite E in Hs;
    assert (He := eq_refl (ended f b)); unfold ended in He at 2; rewrite E in He; simpl in Hs, He;
    repeat case_decide; try (exfalso; intuition congruence); rewrite <- ?app_assoc; simpl;
    first [reflexivity | f_equal; unfold len; simpl; lia].
Qed.

Lemma tally_spec f waits :
  tally f waits = (filter (fun b => succeeded f b = true) waits,
                   filter (fun b => ended f b = true /\ succeeded f b = false) waits,
                   len (filter (fun b => ended f b = false) waits)).
Proof. unfold tally. rewrite tally_app. simpl. f_equal. Qed.

Lemma not_ended f b : ended f b = false -> succeeded f b = false.
Proof. unfold ended, succeeded. case_bool_decide as E; [by rewrite E|done]. Qed.

(** Every branch is counted once. *)
Lemma count_waits f f' waits :
  ending waits f f' ->
  successes f waits <= successes f' waits <= successes f waits + len (filter (fun b => ended f b = false) waits).
Proof.
  unfold successes, len. induction waits as [|b waits IH]; intros He; [simpl; lia|].
  destruct (He b) as [H1 H2]; [by left|]. specialize (IH (fun b Hb => He b (list_elem_of_further _ _ _ Hb))).
  rewrite !filter_cons. destruct (ended f b) eqn:Eb.
  - rewrite (H2 eq_refl). repeat case_decide; simpl in *; try congruence; lia.
  - rewrite (not_ended _ _ Eb).
    repeat case_decide; simpl in *; try congruence; lia.
Qed.

(** *** Two extreme endings: every running branch fails, or every one succeeds *)

Definition fill (st : BranchStatus) (f : Fan) (waits : list string) : Fan := {|
  fan_Join := fan_Join f;
  fan_Branches := foldr (fun b m => if ended f b then m else <[b := st]> m) (fan_Branches f) waits |}.

Lemma fill_lookup st f waits b :
  fan_Branches (fill st f waits) !! b =
  if decide (b ∈ waits /\ ended f b = false) then Some st else fan_Branches f !! b.
Proof.
  unfold fill. cbn [fan_Branches]. induction waits as [|w waits IH]; cbn [foldr].
  { rewrite decide_False; [done|]. intros [Hb _]. by apply elem_of_nil in Hb. }
  destruct (ended f w) eqn:Ew.
  - rewrite IH. apply decide_ext. rewrite elem_of_cons. split; [intuition|].
    intros [[->|Hb] He]; [congruence|done].
  - destruct (decide (b = w)) as [->|Hne].
    + rewrite lookup_insert_eq, decide_True; [done|]. rewrite elem_of_cons. auto.
    + rewrite lookup_insert_ne, IH by done. apply decide_ext. rewrite elem_of_cons. intuition congruence.
Qed.

Lemma fill_ended st f waits b :
  st <> BranchPending -> b ∈ waits -> ended (fill st f waits) b = true.
Proof.
  intros Hst Hb. unfold ended. rewrite fill_lookup. case_decide as Hd; [by destruct st|].
  destruct (ended f b) eqn:Eb; [done|]. exfalso. by apply Hd.
Qed.

Lemma fill_succeeded st f waits b :
  b ∈ waits ->
  succeeded (fill st f waits) b = if ended f b then succeeded f b else bool_decide (st = BranchCompleted).
Proof.
  intros Hb. unfold succeeded. rewrite fill_lookup. case_decide as Hd.
  - destruct Hd as [_ ->]. apply bool_decide_ext. split; [by intros [= <-]|by intros ->].
  - destruct (ended f b) eqn:Eb; [done|]. exfalso. by apply Hd.
Qed.

Lemma fill_ending st f waits : st <> BranchPending -> ending waits f (fill st f waits).
Proof.
  intros Hst b Hb. split; [by apply fill_ended|]. intros He. by rewrite fill_succeeded, He.
Qed.

Lemma fill_successes (st : BranchStatus) f waits :
  successes (fill st f waits) waits =
  successes f waits + (if decide (st = BranchCompleted) then len (filter (fun b => ended f b = false) waits) else 0).
Proof.
  unfold successes, len. assert (Hgen : forall ws, ws ⊆ waits ->
    Z.of_nat (length (filter (fun b => succeeded (fill st f waits) b = true) ws)) =
    Z.of_nat (length (filter (fun b => succeeded f b = true) ws)) +
    (if decide (st = BranchCompleted) then Z.of_nat (length (filter (fun b => ended f b = false) ws)) else 0));
    [|by apply Hgen].
  induction ws as [|b ws IH]; intros Hin; [by case_decide|].
  assert (Hb : b ∈ waits) by (apply Hin; by left). specialize (IH (fun x Hx => Hin x (list_elem_of_further _ _ _ Hx))).
  pose proof (fill_succeeded st f waits b Hb) as Hf. rewrite !filter_cons.
  pose proof (not_ended f b) as Hes.
  destruct (ended f b) eqn:Eb; repeat case_decide; try case_bool_decide; simpl in *;
    try congruence; try lia; rewrite (Hes eq_refl) in *; congruence.
Qed.

(** ** The decision *)

(** C39. A join settles exactly when it should.  If the tally of fan [f] decides the
    policy, every way the running branches may end gives that outcome.  If it
    does not, then the outcome is still open: some ending satisfies the policy
    and another does not -- or the policy is [min], which waits for all, and a
    branch is still running. *)
Theorem join_settles_when_decided kind q f waits :
  let '(succ, failed, pending) := tally f waits in
  match join_decision kind q (len waits) (len succ) pending with
  | Some ok => forall f', ending waits f f' -> (needed kind q (len waits) <=? successes f' waits) = ok
  | None =>
      (exists f1 f2, ending waits f f1 /\ ending waits f f2 /\
        needed kind q (len waits) <= successes f1 waits /\ successes f2 waits < needed kind q (len waits))
      \/ kind = JoinMin /\ exists b, b ∈ waits /\ ended f b = false
  end.
Proof.
  rewrite tally_spec. set (pending := len (filter (fun b => ended f b = false) waits)).
  fold (successes f waits). unfold join_decision. fold (needed kind q (len waits)).
  set (need := needed _ _ _).
  destruct (String.eqb_spec kind JoinMin) as [->|Hk]; simpl.
  - destruct (Z.ltb_spec 0 pending) as [Hp|Hp].
    + right. split; [done|]. unfold pending, len in Hp.
      destruct (filter (fun b => ended f b = false) waits) as [|b l] eqn:E; [simpl in Hp; lia|].
      exists b. assert (Hb : b ∈ filter (fun b => ended f b = false) waits) by (rewrite E; by left).
      by apply list_elem_of_filter in Hb as [? ?].
    + destruct (Z.leb_spec need (successes f waits)); simpl.
      * intros f' Hf'%count_waits. fold pending in Hf'. apply Z.leb_le. lia.
      * destruct (Z.leb_spec need (successes f waits + pending)); [lia|].
        intros f' Hf'%count_waits. fold pending in Hf'. apply Z.leb_gt. lia.
  - destruct (Z.leb_spec need (successes f waits)); simpl.
    + intros f' Hf'%count_waits. apply Z.leb_le. lia.
    + destruct (Z.leb_spec need (successes f waits + pending)); [left|].
      * exists (fill BranchCompleted f waits), (fill BranchFailed f waits).
        rewrite !fill_successes. simpl. fold pending. repeat split; try (by apply fill_ending); lia.
      * intros f' Hf'%count_waits. fold pending in Hf'. apply Z.leb_gt. lia.
Qed.
