(* ===== verification/Numbering.v ===== *)
(** * Numbers of an execution

    Generations, timers and children take their numbers from one counter, [N].
    The predicates below say that what is in flight was numbered by it, and the
    lemmas that they survive what the fold does to the maps.  The ids of
    children are tokens, and name their number. *)

From Stdlib Require Import Ascii.
From S2P Require Import Prelude Json Hash Names Flow Event State Decide.

(** ** The ids of children *)

(** The last separator of a list determines what follows it. *)
Lemma last_sep {A} (x : A) (l1 l2 d1 d2 : list A) :
  l1 ++ x :: d1 = l2 ++ x :: d2 -> x ∉ d1 -> x ∉ d2 -> d1 = d2.
Proof.
  revert l2. induction l1 as [|a l1 IH]; intros [|b l2] E H1 H2; simplify_eq/=; [done|..].
  - exfalso. apply H1. set_solver.
  - exfalso. apply H2. set_solver.
  - eauto.
Qed.

Lemma pretty_N_go_no_c m s :
  "c"%char ∉ String.list_ascii_of_string s -> "c"%char ∉ String.list_ascii_of_string (pretty_N_go m s).
Proof.
  revert s. induction (N.lt_wf_0 m) as [m _ IH]; intros s Hs.
  destruct (decide (m = 0)%N) as [->|Hm]; [by rewrite pretty_N_go_0|].
  rewrite pretty_N_go_step by lia. apply IH; [apply N.div_lt; lia|].
  simpl. rewrite not_elem_of_cons. split; [|done].
  unfold pretty_N_char. by repeat case_match.
Qed.

Lemma Itoa_no_c n : 0 <= n -> "c"%char ∉ String.list_ascii_of_string (Itoa n).
Proof.
  destruct n as [|p|p]; [by vm_compute; set_solver| |lia]. intros _.
  change (Itoa (Z.pos p)) with (pretty (Npos p)). unfold pretty, pretty_N.
  case_decide; [done|]. apply pretty_N_go_no_c. simpl. set_solver.
Qed.

Lemma list_ascii_inj a b : String.list_ascii_of_string a = String.list_ascii_of_string b -> a = b.
Proof.
  intros E. rewrite <- (String.string_of_list_ascii_of_string a), E.
  apply String.string_of_list_ascii_of_string.
Qed.

(** Children of one execution, or of an execution and a fork of it, have
    distinct ids as long as their numbers differ. *)
Lemma ChildID_number p1 p2 n1 n2 :
  0 <= n1 -> 0 <= n2 -> ChildID p1 n1 = ChildID p2 n2 -> n1 = n2.
Proof.
  intros H1 H2 E. assert (Hsuf : forall p n, exists q, ChildID p n = q +:+ "-c" +:+ Itoa n).
  { intros p n. unfold ChildID. case_match; eauto. }
  destruct (Hsuf p1 n1) as [q1 E1], (Hsuf p2 n2) as [q2 E2]. rewrite E1, E2 in E.
  apply (f_equal String.list_ascii_of_string) in E. rewrite !list_ascii_app in E. simpl in E.
  rewrite !(cons_middle "-"%char) in E.
  apply (Itoa_inj), list_ascii_inj, (last_sep "c"%char _ _ _ _ (eq_trans (eq_sym (app_assoc _ ["-"%char] _))
    (eq_trans E (app_assoc _ ["-"%char] _)))); by apply Itoa_no_c.
Qed.

Lemma pretty_N_go_length (k : nat) m s :
  (m < 10 ^ N.of_nat k)%N -> (String.length (pretty_N_go m s) <= k + String.length s)%nat.
Proof.
  revert m s. induction k as [|k IH]; intros m s Hm.
  { assert (m = 0%N) as -> by (simpl in Hm; lia). by rewrite pretty_N_go_0. }
  destruct (decide (m = 0)%N) as [->|Hz]; [rewrite pretty_N_go_0; lia|].
  rewrite pretty_N_go_step by lia. etransitivity; [apply IH|simpl; lia].
  apply N.Div0.div_lt_upper_bound. rewrite Nat2N.inj_succ, N.pow_succ_r' in Hm. lia.
Qed.

(** A number below [10 ^ k] takes at most [k] digits. *)
Lemma Itoa_length n (k : nat) :
  k <> O -> 0 <= n < 10 ^ Z.of_nat k -> (String.length (Itoa n) <= k)%nat.
Proof.
  intros Hk Hn. destruct n as [|p|p]; [simpl; lia| |lia].
  change (Itoa (Z.pos p)) with (pretty (Npos p)). unfold pretty, pretty_N. case_decide; [done|].
  etransitivity; [apply (pretty_N_go_length k)|simpl; lia].
  apply N2Z.inj_lt. rewrite N2Z.inj_pow. simpl. rewrite nat_N_Z. lia.
Qed.

(** ** What is in flight *)

Definition tasks_ok (m : gmap string Task) (N : Z) : Prop :=
  map_Forall (fun k t => t_Key t = k /\ 1 <= t_Generation t <= N /\ 1 <= t_Attempt t) m.

Definition timers_ok (m : gmap string Timer) (N : Z) : Prop :=
  map_Forall (fun k tm => Timer_ID tm = k /\ k = "t" +:+ Itoa (Timer_N tm) /\ Timer_N tm <= N) m.

Definition children_ok (m : gmap string ChildState) (N : Z) : Prop :=
  map_Forall (fun k c => (k = "" -> cs_Node c = "") /\
    exists p n, cs_ChildID c = ChildID p n /\ 1 <= n <= N) m /\
  forall k1 k2 c1 c2, m !! k1 = Some c1 -> m !! k2 = Some c2 -> cs_ChildID c1 = cs_ChildID c2 -> k1 = k2.

(** The key of an instance is empty only for a node without a name. *)
Lemma InstanceKey_empty d : InstanceKey d = "" -> Child_Node d = "".
Proof. unfold InstanceKey. destruct (String.eqb_spec (Child_Key d) ""); congruence. Qed.

(** A map run has one output slot per item, and its cursors are positions. *)
Definition maps_ok (m : gmap string MapRun) : Prop :=
  map_Forall (fun _ r => length (m_Outputs r) = length (m_Items r) /\ 0 <= m_Next r /\ 0 <= m_Done r) m.

Lemma tasks_ok_sub m m' N N' : m' ⊆ m -> N <= N' -> tasks_ok m N -> tasks_ok m' N'.
Proof. intros Hs HN Hm k t Ht. eapply lookup_weaken in Ht; [|done]. apply Hm in Ht as (? & ? & ?). split; [done|lia]. Qed.

Lemma timers_ok_sub m m' N N' : m' ⊆ m -> N <= N' -> timers_ok m N -> timers_ok m' N'.
Proof.
  intros Hs HN Hm k t Ht. eapply lookup_weaken in Ht; [|done]. apply Hm in Ht as (? & ? & ?).
  repeat split; [done|done|lia].
Qed.

Lemma children_ok_sub m m' N N' : m' ⊆ m -> N <= N' -> children_ok m N -> children_ok m' N'.
Proof.
  intros Hs HN [Hm Hi]. split.
  - intros k c Hc. eapply lookup_weaken in Hc; [|done]. apply Hm in Hc as (? & p & n & ? & ?).
    split; [done|]. exists p, n. split; [done|lia].
  - intros k1 k2 c1 c2 H1 H2. eapply Hi; by eapply lookup_weaken.
Qed.

Lemma maps_ok_sub m m' : m' ⊆ m -> maps_ok m -> maps_ok m'.
Proof. intros Hs Hm k r Hr. by eapply Hm, lookup_weaken. Qed.

Lemma tasks_ok_insert m N N' k t :
  t_Key t = k -> 1 <= t_Generation t <= N' -> 1 <= t_Attempt t -> N <= N' -> tasks_ok m N -> tasks_ok (<[k := t]> m) N'.
Proof. intros. apply map_Forall_insert_2; [done|]. by eapply tasks_ok_sub. Qed.

Lemma timers_ok_insert m N N' tm :
  Timer_ID tm = "t" +:+ Itoa (Timer_N tm) -> Timer_N tm <= N' -> N <= N' -> timers_ok m N ->
  timers_ok (<[Timer_ID tm := tm]> m) N'.
Proof. intros. apply map_Forall_insert_2; [done|]. by eapply timers_ok_sub. Qed.

(** A child under a number not used before. *)
Lemma children_ok_insert m N k c p :
  (k = "" -> cs_Node c = "") -> cs_ChildID c = ChildID p (N + 1) -> 0 <= N -> children_ok m N -> children_ok (<[k := c]> m) (N + 1).
Proof.
  intros Hk Hid HN Hm. assert (Hfresh : forall k1 c1, m !! k1 = Some c1 -> cs_ChildID c1 <> cs_ChildID c).
  { intros k1 c1 (_ & q & n & -> & Hn)%(proj1 Hm). rewrite Hid. intros E%ChildID_number; lia. }
  split.
  - apply map_Forall_insert_2; [split; [done|]; exists p, (N + 1); split; [done|lia]|].
    eapply children_ok_sub; [done| |done]. lia.
  - intros k1 k2 c1 c2 [[<- <-]|[? H1]]%lookup_insert_Some [[<- <-]|[? H2]]%lookup_insert_Some E; [done|..].
    + by apply Hfresh in H2.
    + by apply Hfresh in H1.
    + by eapply (proj2 Hm).
Qed.

Lemma maps_ok_insert m k r :
  length (m_Outputs r) = length (m_Items r) -> 0 <= m_Next r -> 0 <= m_Done r -> maps_ok m ->
  maps_ok (<[k := r]> m).
Proof. intros. by apply map_Forall_insert_2. Qed.
