(* ===== verification/DecideRun.v ===== *)
(** * Decisions as runs of a transition system

    Every operation of the decider is a sequence of [emit]s.  [Legal d t data]
    is the guard under which the code emits an event; [Run] chains legal
    emissions.  The operations are shown, one by one, to be runs; invariants of
    the state are then proved by induction on runs, event by event. *)

From S2P Require Import Prelude Json Hash Names Expr Flow Event Cmd Reduce State StateFacts.
From S2P Require Import View Decide Numbering.

Definition live (d : decider) : Prop := Terminal (s_Status (d_st d)) = false.

(** ** Well-formed states

    Instances and timers are stored under their own keys, and every number
    handed out (generation, timer, child) is at most [N]; generations start at
    one, as zero asks for a new one.  Map runs keep one output per item, and the
    deduplication memories keep their bound. *)

Record numbered (s : State) : Prop := {
  wf_tasks : tasks_ok (s_Tasks s) (s_N s);
  wf_timers : timers_ok (s_Timers s) (s_N s);
  wf_children : children_ok (s_Children s) (s_N s);
  wf_maps : maps_ok (s_Maps s);
  wf_signals : Z.of_nat (size (s_SignalIDs s)) <= maxSignalIDs;
  wf_updates : Z.of_nat (size (s_UpdateIDs s)) <= maxSignalIDs;
  wf_N : 0 <= s_N s }.

Lemma wf_task_key s k t : numbered s -> s_Tasks s !! k = Some t -> t_Key t = k.
Proof. intros [Ht _ _ _ _ _ _] Hk. by apply Ht in Hk as [? _]. Qed.

Lemma wf_task_gen s k t : numbered s -> s_Tasks s !! k = Some t -> 1 <= t_Generation t <= s_N s.
Proof. intros [Ht _ _ _ _ _ _] Hk. by apply Ht in Hk as (_ & ? & _). Qed.

Lemma wf_task_attempt s k t : numbered s -> s_Tasks s !! k = Some t -> 1 <= t_Attempt t.
Proof. intros [Ht _ _ _ _ _ _] Hk. by apply Ht in Hk as (_ & _ & ?). Qed.

Record WF (s : State) : Prop := {
  wf_numbered : numbered s;
  wf_events : 0 <= s_Events s;
  wf_status : s_Status s = SNone <-> s_Events s = 0 }.

Lemma terminal_exists s : WF s -> Terminal (s_Status s) = true -> Exists s = true.
Proof.
  intros [_ He [_ Hs]] Ht. unfold Exists. apply Z.ltb_lt.
  destruct (decide (s_Events s = 0)) as [Hz|]; [|lia]. rewrite (Hs Hz) in Ht. done.
Qed.

(** [numbered] only looks at seven fields. *)
Lemma numbered_frame s s' :
  s_Tasks s' = s_Tasks s -> s_Timers s' = s_Timers s -> s_Children s' = s_Children s ->
  s_Maps s' = s_Maps s -> s_SignalIDs s' = s_SignalIDs s -> s_UpdateIDs s' = s_UpdateIDs s ->
  s_N s' = s_N s -> numbered s -> numbered s'.
Proof. intros E1 E2 E3 E4 E5 E6 E7 []. constructor; by rewrite ?E1, ?E2, ?E3, ?E4, ?E5, ?E6, ?E7. Qed.

(** ** The guard of an emission *)

(** The attempt of instance [key] that is scheduled. *)
Definition scheduled_attempt (s : State) (key : string) (gen attempt : Z) : Prop :=
  exists t, s_Tasks s !! key = Some t /\ t_Status t = TaskScheduled /\
    t_Generation t = gen /\ t_Attempt t = attempt.

(** Raw messages that are present: they come from decoded JSON. *)
Definition written (w : gmap string RawMessage) : Prop := map_Forall (fun _ r => is_Some r) w.

Definition emission_guard (d : decider) (data : FoldData) : Prop :=
  let s := d_st d in
  match data with
  | DStarted x => isObject (Started_Input x) = true /\ Started_ExecID x = s_ExecID s
  | DScheduled x =>
      Scheduled_Generation x = s_N s + 1 /\ Scheduled_Attempt x = 1 \/
      exists t, s_Tasks s !! Scheduled_Key x = Some t /\ t_Generation t = Scheduled_Generation x /\
        Scheduled_Attempt x = t_Attempt t + 1 /\ t_Status t = TaskRetrying
  | DTimer x => Timer_N x = s_N s + 1 /\ Timer_ID x = "t" +:+ Itoa (Timer_N x)
  | DChild x => Child_ChildN x = s_N s + 1 /\ Child_ChildID x = ChildID (s_ExecID s) (s_N s + 1)
                /\ isObject (Child_Input x) = true
  | DNodeDone x => scheduled_attempt s (NodeDone_Key x) (NodeDone_Generation x) (NodeDone_Attempt x)
                   /\ written (NodeDone_Writes x)
  | DUpdate x => written (Update_Writes x)
  | DMap x => Forall is_Some (Map_Items x)
  | DNodeFail x => scheduled_attempt s (NodeFail_Key x) (NodeFail_Generation x) (NodeFail_Attempt x)
  | DInterrupted x => exists a, scheduled_attempt s (Interrupted_Key x) (Interrupted_Generation x) a
  | DNodeCancel x => is_Some (s_Tasks s !! NodeCancel_Key x)
  | DForked _ | DContinued _ => False
  | _ => True
  end.

Definition Legal (d : decider) (t : EventType) (data : FoldData) : Prop :=
  t = payload_type data /\
  match data with DStarted _ => Exists (d_st d) = false | _ => live d /\ Exists (d_st d) = true end /\
  emission_guard d data.

(** What holds of every emission of an operation, without any assumption on the
    state: the type is that of the payload, and only a fork or a continuation
    replaces the state as a whole. *)
Definition replaces_state (data : FoldData) : bool :=
  match data with DForked _ | DContinued _ => true | _ => false end.
Definition Shaped (d : decider) (t : EventType) (data : FoldData) : Prop :=
  t = payload_type data /\ replaces_state data = false.

(** Payloads that JSON gives back as they are: the messages that are always
    written are present. *)
Definition portable (data : FoldData) : Prop :=
  match data with
  | DStarted x => isObject (Started_Input x) = true
  | DNodeDone x => written (NodeDone_Writes x)
  | DUpdate x => written (Update_Writes x)
  | DMap x => Forall is_Some (Map_Items x)
  | DChild x => isObject (Child_Input x) = true
  | _ => True
  end.

(** The events that record an input of the execution.  The operations emit them
    first, and only other events after. *)
Definition records_input (data : FoldData) : bool :=
  match data with DStarted _ | DForked _ | DContinued _ | DSignal _ | DUpdate _ => true | _ => false end.
Definition Inner (d : decider) (t : EventType) (data : FoldData) : Prop :=
  t = payload_type data /\ records_input data = false /\ portable data.

(** What is sent to the log: portable payloads; [Steady] once the execution has
    started. *)
Definition Sent (d : decider) (t : EventType) (data : FoldData) : Prop := Shaped d t data /\ portable data.
Definition Steady (d : decider) (t : EventType) (data : FoldData) : Prop :=
  Sent d t data /\ match data with DStarted _ => False | _ => True end.

(** ** Chains of emissions *)

Inductive Chain (G : decider -> EventType -> FoldData -> Prop) : decider -> decider -> Prop :=
| chain_refl d : Chain G d d
| chain_emit d t data d1 d2 :
    G d t data -> emit t data d = Ok d1 -> Chain G d1 d2 -> Chain G d d2.

Abbreviation Emits := (Chain Shaped).
Abbreviation Sends := (Chain Sent).
Abbreviation Steadies := (Chain Steady).
Abbreviation Inners := (Chain Inner).
Abbreviation Run := (Chain Legal).

Lemma chain_trans G d1 d2 d3 : Chain G d1 d2 -> Chain G d2 d3 -> Chain G d1 d3.
Proof. induction 1; eauto using Chain. Qed.

Lemma Legal_Shaped d t data : Legal d t data -> Shaped d t data.
Proof. intros (? & _ & Hg). split; [done|]. by destruct data. Qed.

Lemma Inner_Shaped d t data : Inner d t data -> Shaped d t data.
Proof. intros (? & Hi & _). split; [done|]. by destruct data. Qed.

Lemma inners_steady d d' : Inners d d' -> Steadies d d'.
Proof.
  induction 1 as [|d t data d1 d2 HI]; [constructor|]. eapply chain_emit; [|done|done].
  split; [split; [by apply Inner_Shaped|apply HI]|]. destruct HI as (_ & Hr & _). by destruct data.
Qed.

Lemma steady_sends d d' : Steadies d d' -> Sends d d'.
Proof. induction 1 as [|d t data d1 d2 [HS _]]; eauto using Chain. Qed.

Lemma sends_emits d d' : Sends d d' -> Emits d d'.
Proof. induction 1 as [|d t data d1 d2 [HS _]]; eauto using Chain. Qed.

Lemma inners_emits d d' : Inners d d' -> Emits d d'.
Proof. intros. by apply sends_emits, steady_sends, inners_steady. Qed.

Lemma run_emits d d' : Run d d' -> Emits d d'.
Proof. induction 1; eauto using Chain, Legal_Shaped. Qed.

(** What one emission does to the decider. *)
Lemma emit_inv t data d d' :
  emit t data d = Ok d' ->
  exists st, Apply (Some (d_def d)) (d_st d) (emit_event t data d) = Ok st /\
    d' = (d |> set_d_st st |> set_d_out (d_out d ++ [emit_event t data d])).
Proof. unfold emit. intros H. res_inv. eauto. Qed.

Lemma decided_inv r evs st : decided r = Ok (evs, st) -> exists d, r = Ok d /\ d_out d = evs /\ d_st d = st.
Proof. unfold decided. intros (d & -> & [= <- <-])%res_bind_ok. eauto. Qed.

(** The index of an emitted event is the one the fold expects: the event is
    applied, and nothing else happens to the decider. *)
Lemma emit_apply t data d d' :
  Shaped d t data -> emit t data d = Ok d' ->
  exists s, apply_ (Some (d_def d)) (d_st d) (emit_event t data d) = Ok s /\
    d' = (d |> set_d_st (finish (emit_event t data d) s) |> set_d_out (d_out d ++ [emit_event t data d])).
Proof.
  intros [-> Hr] (st & Happ & ->)%emit_inv. unfold Apply in Happ.
  apply res_bind_ok in Happ as (ex & Hex & Happ).
  destruct (_ && _); [done|].
  destruct (apply_ _ _ _) as [s|e] eqn:E; [|by simpl in Happ]. simpl in Happ.
  exists s. split; [done|]. by injection Happ as <-.
Qed.

(** *** Replaying the events of a chain gives its state *)

Definition replay (def : Flow) (st : State) (evs : list FoldEvent) : result State :=
  res_fold (Apply (Some def)) st evs.

Lemma chain_replay G d d' :
  Chain G d d' ->
  d_def d' = d_def d /\ d_now d' = d_now d /\ d_cmdID d' = d_cmdID d /\
  exists evs, d_out d' = d_out d ++ evs /\ replay (d_def d) (d_st d) evs = Ok (d_st d').
Proof.
  induction 1 as [d|d t data d1 d2 _ He _ IH].
  { repeat split. exists []. split; [by rewrite app_nil_r | done]. }
  apply emit_inv in He as (st & Happ & ->). simpl in *.
  destruct IH as (Hd & Hn & Hc & evs & Ho & Hr). repeat split; try done.
  exists (emit_event t data d :: evs). split.
  - by rewrite Ho, <- app_assoc.
  - unfold replay in *. simpl. by rewrite Happ.
Qed.

(** ** Legal emissions keep states well formed *)

(** The runs of maps an event touches. *)
Lemma item_map_ok s nd owner m :
  item_map s nd owner = Some m -> maps_ok (s_Maps s) ->
  length (m_Outputs m) = length (m_Items m) /\ 0 <= m_Next m /\ 0 <= m_Done m.
Proof. unfold item_map. case_match; [|done]. intros Hm Hok. by apply Hok in Hm. Qed.

(** The maps an event leaves, by the way it changed them. *)
Ltac subset := first [reflexivity | apply delete_subseteq | apply map_empty_subseteq | apply map_filter_subseteq].
Ltac flight :=
  simpl; solve
  [ assumption
  | lia
  | apply rememberID_size
  | eapply tasks_ok_sub; [| |eassumption]; [subset|lia]
  | eapply timers_ok_sub; [| |eassumption]; [subset|lia]
  | eapply children_ok_sub; [| |eassumption]; [subset|lia]
  | eapply maps_ok_sub; [|eassumption]; [subset]
  | apply maps_ok_insert; cbn; [by rewrite ?length_replicate|lia|lia|done]
  | match goal with
    | Hi : item_map _ _ _ = Some _, Hm : maps_ok _ |- maps_ok _ =>
        destruct (item_map_ok _ _ _ _ Hi Hm) as (? & ? & ?); apply maps_ok_insert; cbn; [|lia|lia|done];
        repeat match goal with Hs : slice_set _ _ _ = Ok _ |- _ => rewrite (slice_set_length _ _ _ _ Hs); clear Hs end;
        done
    end ].

Lemma apply_numbered d t data s' :
  Legal d t data -> numbered (d_st d) ->
  apply_ (Some (d_def d)) (d_st d) (emit_event t data d) = Ok s' -> numbered s'.
Proof.
  intros (_ & _ & Hg) Hn H. destruct d as [def s now cid out inh]; cbn [d_def d_st] in *.
  pose proof (fun k t => wf_task_key s k t Hn) as Hkey. pose proof (fun k t => wf_task_gen s k t Hn) as Hgen.
  pose proof (fun k t => wf_task_attempt s k t Hn) as Hatt.
  destruct Hn as [Ht Htm Hc Hm Hsi Hui HN].
  destruct data; try (exfalso; exact Hg); unfold emit_event in H; apply_cases H.
  all: constructor; try flight.
  all: try (repeat match goal with E : match ?x with _ => _ end = Some _ |- _ => destruct x eqn:?; [|discriminate] end;
    simplify_eq; flight).
  all: simpl; try (eapply tasks_ok_insert; [| | | |eassumption]; simpl; eauto with lia).
  all: try (simpl in Hg; destruct Hg as [[Hg1 Hg2]|(tk & Hk & Hg1 & Hg2 & _)]; [lia|];
    pose proof (Hgen _ _ Hk); pose proof (Hatt _ _ Hk); lia).
  - (* a child *) destruct Hg as (-> & Hid & _). simpl in *. rewrite Z.max_r by lia.
    eapply children_ok_insert; eauto using InstanceKey_empty.
  - destruct Hg as (-> & Hid & _). simpl in *. rewrite Z.max_r by lia. eapply children_ok_insert; eauto using InstanceKey_empty.
  - (* a timer *) destruct Hg as [HN1 Hid]. simpl in *. eapply timers_ok_insert; [done| | |done]; lia.
Qed.
Lemma emit_WF d t data d' :
  Legal d t data -> WF (d_st d) -> emit t data d = Ok d' ->
  WF (d_st d') /\ Exists (d_st d') = true /\
  (type_terminal t = false -> match data with DStarted _ => True | _ => live d end -> live d').
Proof.
  intros HL [Hn He Hs] H. pose proof HL as (Ht & Hex & Hg).
  destruct (emit_apply _ _ _ _ (Legal_Shaped _ _ _ HL) H) as (s & Ha & ->). clear H.
  pose proof (apply_numbered _ _ _ _ HL Hn Ha) as Hn'.
  destruct (finish_frame (emit_event t data d) s) as (st & up & Hf & Hterm & Hnone).
  rewrite Hf. clear Hf.
  assert (Hs' : s_Status s <> SNone /\ 0 <= s_Events s /\
    (type_terminal t = false -> match data with DStarted _ => True | _ => live d end ->
     Terminal (s_Status s) = false)).
  { destruct (sets_status data) eqn:Eq.
    - destruct data; try discriminate Eq; try (exfalso; exact Hg); subst t;
        unfold emit_event in Ha; apply_cases Ha; simpl; (split; [done|]; split; [done|]); done.
    - assert (Hev : sets_status (ev_Data (emit_event t data d)) = false) by done.
      destruct (apply_quiet _ _ _ _ Hev Ha) as (-> & -> & _).
      destruct data; try discriminate Eq; destruct Hex as [Hl Hex];
        (split; [intros Hz; apply Hs in Hz; unfold Exists in Hex; lia|]; split; [done|]; done). }
  destruct Hs' as (Hs1 & Hs2 & Hs3). split; [constructor|split].
  - by eapply numbered_frame, Hn'.
  - simpl. lia.
  - simpl. split; [tauto|lia].
  - unfold Exists. simpl. lia.
  - intros H1 H2. unfold live. change (Terminal st = false). rewrite Hterm. auto.
Qed.

(** ** Counters that only grow *)

Lemma apply_grows def s ev s' :
  replaces_state (ev_Data ev) = false -> apply_ def s ev = Ok s' ->
  s_Steps s' = s_Steps s + (match ev_Data ev with DEntered _ => 1 | _ => 0 end) /\ s_N s <= s_N s'.
Proof.
  intros Hr H. destruct ev as [ty v tm ix c tr data sq de]; simpl in Hr.
  destruct data; try discriminate Hr; apply_cases H; simpl; lia.
Qed.

Lemma emit_grows t data d d' :
  Shaped d t data -> emit t data d = Ok d' ->
  s_Steps (d_st d') = s_Steps (d_st d) + (match data with DEntered _ => 1 | _ => 0 end) /\
  s_N (d_st d) <= s_N (d_st d') /\ d_def d' = d_def d.
Proof.
  intros HS H. destruct (emit_apply _ _ _ _ HS H) as (s & Hs & ->).
  destruct (apply_grows _ _ (emit_event t data d) _ (proj2 HS) Hs) as [Hst HN].
  destruct (finish_frame (emit_event t data d) s) as (x & up & -> & _).
  split; [exact Hst|]. split; [exact HN|done].
Qed.

Lemma emits_grows d d' :
  Emits d d' ->
  s_Steps (d_st d) <= s_Steps (d_st d') /\ s_N (d_st d) <= s_N (d_st d') /\ d_def d' = d_def d.
Proof.
  induction 1 as [d|d t data d1 d2 Hs He _ IH]; [by repeat split|].
  destruct (emit_grows _ _ _ _ Hs He) as (H1 & H2 & H3), IH as (H4 & H5 & H6).
  split; [|split; [lia|congruence]]. destruct data; lia.
Qed.

(** ** The fold never runs out of fuel *)

Lemma res_fold_fuel {A S} (f : S -> A -> result S) s xs :
  (forall s x, f s x <> Err OutOfFuel) -> res_fold f s xs <> Err OutOfFuel.
Proof.
  intros Hf. revert s. induction xs as [|x xs IH]; intros s; simpl; [done|].
  specialize (Hf s x). by destruct (f s x) as [?|[]]; simpl.
Qed.

Lemma Reduce_fuel r c v : Reduce r c v <> Err OutOfFuel.
Proof.
  unfold Reduce, reduceAppend, reduceMerge, reduceSum, errReducer.
  repeat (case_match; simpl; try done).
Qed.

Lemma applyWrites_fuel def w s : applyWrites def w s <> Err OutOfFuel.
Proof.
  apply res_fold_fuel. intros s1 name.
  pose proof (Reduce_fuel (match def with Some f => channel_reducer f name | None => ReducerReplace end)
    (raw_at (s_Channels s1) name) (raw_at w name)).
  cbv zeta. destruct (Reduce _ _ _) as [?|[]]; simpl; congruence.
Qed.

Lemma apply_fuel def s ev : apply_ def s ev <> Err OutOfFuel.
Proof.
  unfold apply_. pose proof (applyWrites_fuel def) as Hw.
  destruct (ev_Data ev); try done;
    unfold applyForked, applyNodeDone, applyInterrupted, applyUpdate, applyMapDone, applySignalUse,
      applyChildDone, item_done, slice_set, Unmarshal;
    repeat (case_match; try done); simpl;
    try (match goal with |- context [applyWrites def ?w s] => specialize (Hw w s) end;
         destruct (applyWrites _ _ _) as [?|[]]; try done; simpl);
    repeat (case_match; try done); simpl; repeat (case_match; try done).
Qed.

Lemma emit_fuel t data d : emit t data d <> Err OutOfFuel.
Proof.
  unfold emit, Apply, expected_index, Unmarshal.
  pose proof (apply_fuel (Some (d_def d)) (d_st d) (emit_event t data d)) as H.
  destruct (apply_ _ _ _) as [?|[]]; [| | |done]; simpl;
    repeat (case_match; simpl in *; try done).
Qed.
