(* ===== verification/Sim.v ===== *)
(** * States that encode alike

    A state that went through JSON (a snapshot, a continuation, a fork) has null
    where the original had no value, and a state read from the log carries the
    sequence of its last message.  Neither difference is visible to the fold:
    [sim] relates such states, and [Apply] respects it. *)

From Stdlib Require Import Setoid Morphisms.
From S2P Require Import Prelude Json Flow Event Reduce State StateFacts.

(** ** Results up to a relation *)

Definition rsim {A} (R : A -> A -> Prop) (r1 r2 : result A) : Prop :=
  match r1, r2 with
  | Ok a, Ok b => R a b
  | Err e1, Err e2 => e1 = e2
  | _, _ => False
  end.

Lemma rsim_bind {A B} (R : A -> A -> Prop) (Q : B -> B -> Prop) r1 r2 k1 k2 :
  rsim R r1 r2 -> (forall a b, R a b -> rsim Q (k1 a) (k2 b)) -> rsim Q (res_bind r1 k1) (res_bind r2 k2).
Proof. destruct r1, r2; simpl; intros HR Hk; subst; auto; done. Qed.

Lemma rsim_fold {A S} (R : S -> S -> Prop) (f g : S -> A -> result S) xs s1 s2 :
  (forall s1 s2 x, R s1 s2 -> rsim R (f s1 x) (g s2 x)) -> R s1 s2 ->
  rsim R (res_fold f s1 xs) (res_fold g s2 xs).
Proof.
  intros Hf. revert s1 s2. induction xs as [|x xs IH]; intros s1 s2 Hs; simpl; [done|].
  eapply rsim_bind; eauto.
Qed.

Lemma rsim_ok {A} (R : A -> A -> Prop) a r : rsim R (Ok a) r -> exists b, r = Ok b /\ R a b.
Proof. destruct r; simpl; [eauto|done]. Qed.

(** ** The equivalence *)

Definition norm (s : State) : State := reload (set_LastSeq 0 s).
Definition sim (s t : State) : Prop := norm s = norm t.
Infix "≃" := sim (at level 70).

#[export] Instance sim_equiv : Equivalence sim.
Proof. split; unfold sim; [by intros s|by intros s t|intros s t u; congruence]. Qed.

Lemma reloaded_idemp r : reloaded (reloaded r) = reloaded r.
Proof. done. Qed.

Lemma reloaded_map (m : gmap string RawMessage) : reloaded <$> (reloaded <$> m) = reloaded <$> m.
Proof. by rewrite <- map_fmap_compose. Qed.

Lemma reloaded_list (l : list RawMessage) : reloaded <$> (reloaded <$> l) = reloaded <$> l.
Proof. by rewrite <- list_fmap_compose. Qed.

(** A run of a map through JSON. *)
Definition rerun (m : MapRun) : MapRun := {|
  m_Items := reloaded <$> m_Items m; m_Outputs := reloaded <$> m_Outputs m;
  m_Done := m_Done m; m_Next := m_Next m; m_MaxParallel := m_MaxParallel m |}.

Lemma rerun_idemp m : rerun (rerun m) = rerun m.
Proof. unfold rerun. simpl. by rewrite !reloaded_list. Qed.

Lemma rerun_map (m : gmap string MapRun) : rerun <$> (rerun <$> m) = rerun <$> m.
Proof. rewrite <- map_fmap_compose. apply map_fmap_ext. intros. apply rerun_idemp. Qed.

(** Compute the fields of a state given by its constructor. *)
Ltac state_cbv :=
  cbv beta iota zeta delta [norm reload
    State.s_ExecID State.s_Flow State.s_FlowHash State.s_Status State.s_Input State.s_Parent
    State.s_Attrs State.s_Channels State.s_Results State.s_LastNode State.s_Visits State.s_Steps
    State.s_Signals State.s_Buffered State.s_SignalIDs State.s_UpdateIDs State.s_Counters
    State.s_Branches State.s_Errors State.s_Tasks State.s_Fans State.s_Maps State.s_Awaits
    State.s_Children State.s_Timers State.s_N State.s_Output State.s_Error State.s_Reason
    State.s_FailedNode State.s_Created State.s_Updated State.s_ForkedFrom State.s_ForkSeq State.s_Base
    State.s_Segments State.s_LastSeq State.s_Events State.s_Archived
    set_ExecID set_Flow set_FlowHash set_Status set_Input set_Parent set_Attrs set_Channels set_Results
    set_LastNode set_Visits set_Steps set_Signals set_Buffered set_SignalIDs set_UpdateIDs set_Counters
    set_Branches set_Errors set_Tasks set_Fans set_Maps set_Awaits set_Children set_Timers set_N
    set_Output set_Error set_Reason set_FailedNode set_Created set_Updated set_ForkedFrom set_ForkSeq
    set_Base set_Segments set_LastSeq set_Events set_Archived].

Lemma norm_idemp s : norm (norm s) = norm s.
Proof. destruct s. state_cbv. rewrite !reloaded_map. f_equal. apply (rerun_map s_Maps). Qed.

Lemma norm_sim s : norm s ≃ s.
Proof. apply norm_idemp. Qed.

Lemma reload_sim s : reload s ≃ s.
Proof. unfold sim. destruct s. state_cbv. rewrite !reloaded_map. f_equal. apply (rerun_map s_Maps). Qed.

#[export] Instance rsim_equiv {A} (R : A -> A -> Prop) : Equivalence R -> Equivalence (rsim R).
Proof.
  intros HR. split.
  - intros [a|e]; simpl; reflexivity.
  - intros [a|e] [b|e2]; simpl; try done; intros; by symmetry.
  - intros [a|e] [b|e2] [c|e3]; simpl; try done; [intros; by transitivity b|congruence].
Qed.

(** To respect [sim] it is enough not to see normalisation. *)
Lemma sim_lift (f : State -> result State) :
  (forall s, rsim sim (f (norm s)) (f s)) -> forall s t, s ≃ t -> rsim sim (f s) (f t).
Proof.
  intros Hf s t Hst. transitivity (f (norm s)); [by symmetry|]. unfold sim in Hst. rewrite Hst. apply Hf.
Qed.

(** ** Fields

    Raw maps and runs of maps up to encoding; every other field but [LastSeq] is
    the same in similar states. *)

Definition raw_sim (m m' : gmap string RawMessage) : Prop := reloaded <$> m = reloaded <$> m'.
Definition run_sim (m m' : gmap string MapRun) : Prop := rerun <$> m = rerun <$> m'.

#[export] Instance raw_sim_equiv : Equivalence raw_sim.
Proof. split; unfold raw_sim; [by intros s|by intros s t|intros s t u; congruence]. Qed.
#[export] Instance run_sim_equiv : Equivalence run_sim.
Proof. split; unfold run_sim; [by intros s|by intros s t|intros s t u; congruence]. Qed.

(** A projection that normalisation does not change, and an assignment that
    commutes with it. *)
Lemma field_sim {A} (p : State -> A) : (forall s, p (norm s) = p s) -> Proper (sim ==> eq) p.
Proof. intros Hp s t Hst. unfold sim in Hst. rewrite <- (Hp s), Hst. apply Hp. Qed.

Lemma assign_sim {A} (R : A -> A -> Prop) (f : A -> A) (a : A -> State -> State) :
  (forall v w, R v w -> f v = f w) -> (forall v s, norm (a v s) = a (f v) (norm s)) ->
  Proper (R ==> sim ==> sim) a.
Proof. intros HR Ha v w Hvw s t Hst. unfold sim in *. by rewrite !Ha, Hst, (HR _ _ Hvw). Qed.

Ltac field := apply field_sim; by intros [].
Ltac assign_field f := apply (assign_sim _ f); [by intros ? ? ->|by intros ? []].

#[export] Instance ExecID_sim : Proper (sim ==> eq) s_ExecID.
Proof. field. Qed.
#[export] Instance Flow_sim : Proper (sim ==> eq) s_Flow.
Proof. field. Qed.
#[export] Instance FlowHash_sim : Proper (sim ==> eq) s_FlowHash.
Proof. field. Qed.
#[export] Instance Status_sim : Proper (sim ==> eq) s_Status.
Proof. field. Qed.
#[export] Instance Input_sim : Proper (sim ==> eq) s_Input.
Proof. field. Qed.
#[export] Instance Parent_sim : Proper (sim ==> eq) s_Parent.
Proof. field. Qed.
#[export] Instance Attrs_sim : Proper (sim ==> eq) s_Attrs.
Proof. field. Qed.
#[export] Instance LastNode_sim : Proper (sim ==> eq) s_LastNode.
Proof. field. Qed.
#[export] Instance Visits_sim : Proper (sim ==> eq) s_Visits.
Proof. field. Qed.
#[export] Instance Steps_sim : Proper (sim ==> eq) s_Steps.
Proof. field. Qed.
#[export] Instance Buffered_sim : Proper (sim ==> eq) s_Buffered.
Proof. field. Qed.
#[export] Instance SignalIDs_sim : Proper (sim ==> eq) s_SignalIDs.
Proof. field. Qed.
#[export] Instance UpdateIDs_sim : Proper (sim ==> eq) s_UpdateIDs.
Proof. field. Qed.
#[export] Instance Counters_sim : Proper (sim ==> eq) s_Counters.
Proof. field. Qed.
#[export] Instance Branches_sim : Proper (sim ==> eq) s_Branches.
Proof. field. Qed.
#[export] Instance Errors_sim : Proper (sim ==> eq) s_Errors.
Proof. field. Qed.
#[export] Instance Tasks_sim : Proper (sim ==> eq) s_Tasks.
Proof. field. Qed.
#[export] Instance Fans_sim : Proper (sim ==> eq) s_Fans.
Proof. field. Qed.
#[export] Instance Awaits_sim : Proper (sim ==> eq) s_Awaits.
Proof. field. Qed.
#[export] Instance Children_sim : Proper (sim ==> eq) s_Children.
Proof. field. Qed.
#[export] Instance Timers_sim : Proper (sim ==> eq) s_Timers.
Proof. field. Qed.
#[export] Instance N_sim : Proper (sim ==> eq) s_N.
Proof. field. Qed.
#[export] Instance Output_sim : Proper (sim ==> eq) s_Output.
Proof. field. Qed.
#[export] Instance Error_sim : Proper (sim ==> eq) s_Error.
Proof. field. Qed.
#[export] Instance Reason_sim : Proper (sim ==> eq) s_Reason.
Proof. field. Qed.
#[export] Instance FailedNode_sim : Proper (sim ==> eq) s_FailedNode.
Proof. field. Qed.
#[export] Instance Created_sim : Proper (sim ==> eq) s_Created.
Proof. field. Qed.
#[export] Instance Updated_sim : Proper (sim ==> eq) s_Updated.
Proof. field. Qed.
#[export] Instance ForkedFrom_sim : Proper (sim ==> eq) s_ForkedFrom.
Proof. field. Qed.
#[export] Instance ForkSeq_sim : Proper (sim ==> eq) s_ForkSeq.
Proof. field. Qed.
#[export] Instance Base_sim : Proper (sim ==> eq) s_Base.
Proof. field. Qed.
#[export] Instance Segments_sim : Proper (sim ==> eq) s_Segments.
Proof. field. Qed.
#[export] Instance Events_sim : Proper (sim ==> eq) s_Events.
Proof. field. Qed.
#[export] Instance Archived_sim : Proper (sim ==> eq) s_Archived.
Proof. field. Qed.
#[export] Instance set_ExecID_sim : Proper (eq ==> sim ==> sim) set_ExecID.
Proof. assign_field (fun v : string => v). Qed.
#[export] Instance set_Flow_sim : Proper (eq ==> sim ==> sim) set_Flow.
Proof. assign_field (fun v : string => v). Qed.
#[export] Instance set_FlowHash_sim : Proper (eq ==> sim ==> sim) set_FlowHash.
Proof. assign_field (fun v : string => v). Qed.
#[export] Instance set_Status_sim : Proper (eq ==> sim ==> sim) set_Status.
Proof. assign_field (fun v : Status => v). Qed.
#[export] Instance set_Input_sim : Proper (eq ==> sim ==> sim) set_Input.
Proof. assign_field (fun v : RawMessage => v). Qed.
#[export] Instance set_Parent_sim : Proper (eq ==> sim ==> sim) set_Parent.
Proof. assign_field (fun v : option ParentRef => v). Qed.
#[export] Instance set_Attrs_sim : Proper (eq ==> sim ==> sim) set_Attrs.
Proof. assign_field (fun v : gmap string Text => v). Qed.
#[export] Instance set_LastNode_sim : Proper (eq ==> sim ==> sim) set_LastNode.
Proof. assign_field (fun v : string => v). Qed.
#[export] Instance set_Visits_sim : Proper (eq ==> sim ==> sim) set_Visits.
Proof. assign_field (fun v : gmap string Z => v). Qed.
#[export] Instance set_Steps_sim : Proper (eq ==> sim ==> sim) set_Steps.
Proof. assign_field (fun v : Z => v). Qed.
#[export] Instance set_Buffered_sim : Proper (eq ==> sim ==> sim) set_Buffered.
Proof. assign_field (fun v : list Buffered => v). Qed.
#[export] Instance set_SignalIDs_sim : Proper (eq ==> sim ==> sim) set_SignalIDs.
Proof. assign_field (fun v : gmap string Z => v). Qed.
#[export] Instance set_UpdateIDs_sim : Proper (eq ==> sim ==> sim) set_UpdateIDs.
Proof. assign_field (fun v : gmap string Z => v). Qed.
#[export] Instance set_Counters_sim : Proper (eq ==> sim ==> sim) set_Counters.
Proof. assign_field (fun v : gmap string float64 => v). Qed.
#[export] Instance set_Branches_sim : Proper (eq ==> sim ==> sim) set_Branches.
Proof. assign_field (fun v : gmap string BranchStatus => v). Qed.
#[export] Instance set_Errors_sim : Proper (eq ==> sim ==> sim) set_Errors.
Proof. assign_field (fun v : gmap string NodeError => v). Qed.
#[export] Instance set_Tasks_sim : Proper (eq ==> sim ==> sim) set_Tasks.
Proof. assign_field (fun v : gmap string Task => v). Qed.
#[export] Instance set_Fans_sim : Proper (eq ==> sim ==> sim) set_Fans.
Proof. assign_field (fun v : gmap string Fan => v). Qed.
#[export] Instance set_Awaits_sim : Proper (eq ==> sim ==> sim) set_Awaits.
Proof. assign_field (fun v : gmap string AwaitState => v). Qed.
#[export] Instance set_Children_sim : Proper (eq ==> sim ==> sim) set_Children.
Proof. assign_field (fun v : gmap string ChildState => v). Qed.
#[export] Instance set_Timers_sim : Proper (eq ==> sim ==> sim) set_Timers.
Proof. assign_field (fun v : gmap string Timer => v). Qed.
#[export] Instance set_N_sim : Proper (eq ==> sim ==> sim) set_N.
Proof. assign_field (fun v : Z => v). Qed.
#[export] Instance set_Output_sim : Proper (eq ==> sim ==> sim) set_Output.
Proof. assign_field (fun v : RawMessage => v). Qed.
#[export] Instance set_Error_sim : Proper (eq ==> sim ==> sim) set_Error.
Proof. assign_field (fun v : Text => v). Qed.
#[export] Instance set_Reason_sim : Proper (eq ==> sim ==> sim) set_Reason.
Proof. assign_field (fun v : string => v). Qed.
#[export] Instance set_FailedNode_sim : Proper (eq ==> sim ==> sim) set_FailedNode.
Proof. assign_field (fun v : string => v). Qed.
#[export] Instance set_Created_sim : Proper (eq ==> sim ==> sim) set_Created.
Proof. assign_field (fun v : Z => v). Qed.
#[export] Instance set_Updated_sim : Proper (eq ==> sim ==> sim) set_Updated.
Proof. assign_field (fun v : Z => v). Qed.
#[export] Instance set_ForkedFrom_sim : Proper (eq ==> sim ==> sim) set_ForkedFrom.
Proof. assign_field (fun v : string => v). Qed.
#[export] Instance set_ForkSeq_sim : Proper (eq ==> sim ==> sim) set_ForkSeq.
Proof. assign_field (fun v : Z => v). Qed.
#[export] Instance set_Base_sim : Proper (eq ==> sim ==> sim) set_Base.
Proof. assign_field (fun v : Z => v). Qed.
#[export] Instance set_Segments_sim : Proper (eq ==> sim ==> sim) set_Segments.
Proof. assign_field (fun v : list Segment => v). Qed.
#[export] Instance set_Events_sim : Proper (eq ==> sim ==> sim) set_Events.
Proof. assign_field (fun v : Z => v). Qed.
#[export] Instance set_Archived_sim : Proper (eq ==> sim ==> sim) set_Archived.
Proof. assign_field (fun v : bool => v). Qed.

Lemma field_raw (p : State -> gmap string RawMessage) :
  (forall s, p (norm s) = reloaded <$> p s) -> Proper (sim ==> raw_sim) p.
Proof. intros Hp s t Hst. unfold sim in Hst. unfold raw_sim. by rewrite <- !Hp, Hst. Qed.

#[export] Instance Channels_sim : Proper (sim ==> raw_sim) s_Channels.
Proof. apply field_raw. by intros []. Qed.
#[export] Instance Results_sim : Proper (sim ==> raw_sim) s_Results.
Proof. apply field_raw. by intros []. Qed.
#[export] Instance Signals_sim : Proper (sim ==> raw_sim) s_Signals.
Proof. apply field_raw. by intros []. Qed.
#[export] Instance Maps_sim : Proper (sim ==> run_sim) s_Maps.
Proof.
  assert (Hp : forall s, s_Maps (norm s) = rerun <$> s_Maps s) by (by intros []).
  intros s t Hst. unfold sim in Hst. unfold run_sim. by rewrite <- !Hp, Hst.
Qed.

Ltac assign_raw :=
  apply (assign_sim _ (fun v : gmap string RawMessage => reloaded <$> v)); [by intros ? ? ?|by intros ? []].
#[export] Instance set_Channels_sim : Proper (raw_sim ==> sim ==> sim) set_Channels.
Proof. assign_raw. Qed.
#[export] Instance set_Results_sim : Proper (raw_sim ==> sim ==> sim) set_Results.
Proof. assign_raw. Qed.
#[export] Instance set_Signals_sim : Proper (raw_sim ==> sim ==> sim) set_Signals.
Proof. assign_raw. Qed.
#[export] Instance set_Maps_sim : Proper (run_sim ==> sim ==> sim) set_Maps.
Proof. apply (assign_sim _ (fun v : gmap string MapRun => rerun <$> v)); [by intros ? ? ?|by intros ? []]. Qed.
Lemma set_LastSeq_sim n s : set_LastSeq n s ≃ s.
Proof. by destruct s. Qed.
#[global] Opaque norm sim.

(** Similar states assigned the same. *)
Create HintDb sim.
Lemma set_Results_insert k v s s' t t' :
  s ≃ t -> s' ≃ t' -> set_Results (<[k := v]> (s_Results s)) s' ≃ set_Results (<[k := v]> (s_Results t)) t'.
Proof.
  intros Hst Hst'. apply set_Results_sim; [|done]. pose proof (Results_sim _ _ Hst) as HR.
  unfold raw_sim in *. by rewrite !fmap_insert, HR.
Qed.
Lemma set_Signals_insert k v s s' t t' :
  s ≃ t -> s' ≃ t' -> set_Signals (<[k := v]> (s_Signals s)) s' ≃ set_Signals (<[k := v]> (s_Signals t)) t'.
Proof.
  intros Hst Hst'. apply set_Signals_sim; [|done]. pose proof (Signals_sim _ _ Hst) as HR.
  unfold raw_sim in *. by rewrite !fmap_insert, HR.
Qed.
#[export] Hint Resolve set_Signals_insert : sim.
#[export] Hint Resolve set_Results_insert : sim.
#[export] Hint Extern 2 (set_Errors _ _ ≃ set_Errors _ _) => apply set_Errors_sim : sim.
#[export] Hint Extern 2 (set_LastNode _ _ ≃ set_LastNode _ _) => apply set_LastNode_sim : sim.
#[export] Hint Extern 2 (set_Children _ _ ≃ set_Children _ _) => apply set_Children_sim : sim.
#[export] Hint Extern 2 (set_Counters _ _ ≃ set_Counters _ _) => apply set_Counters_sim : sim.
#[export] Hint Extern 2 (set_Fans _ _ ≃ set_Fans _ _) => apply set_Fans_sim : sim.
#[export] Hint Extern 2 (set_Tasks _ _ ≃ set_Tasks _ _) => apply set_Tasks_sim : sim.
#[export] Hint Extern 2 (set_Branches _ _ ≃ set_Branches _ _) => apply set_Branches_sim : sim.
#[export] Hint Extern 2 (set_Buffered _ _ ≃ set_Buffered _ _) => apply set_Buffered_sim : sim.

(** ** Maps *)

Lemma raw_sim_insert m m' k v v' :
  raw_sim m m' -> reloaded v = reloaded v' -> raw_sim (<[k := v]> m) (<[k := v']> m').
Proof. unfold raw_sim. intros Hm Hv. by rewrite !fmap_insert, Hm, Hv. Qed.

Lemma raw_sim_union (d : gmap string RawMessage) m m' : raw_sim m m' -> raw_sim (d ∪ m) (d ∪ m').
Proof. unfold raw_sim. intros Hm. by rewrite !map_fmap_union, Hm. Qed.

Lemma run_sim_insert m m' k v v' :
  run_sim m m' -> rerun v = rerun v' -> run_sim (<[k := v]> m) (<[k := v']> m').
Proof. unfold run_sim. intros Hm Hv. by rewrite !fmap_insert, Hm, Hv. Qed.

Lemma run_sim_delete m m' k : run_sim m m' -> run_sim (delete k m) (delete k m').
Proof. unfold run_sim. intros Hm. by rewrite !fmap_delete, Hm. Qed.

Lemma run_sim_lookup m m' k : run_sim m m' -> rerun <$> m !! k = rerun <$> m' !! k.
Proof. unfold run_sim. intros Hm. by rewrite <- !lookup_fmap, Hm. Qed.

Lemma run_sim_empty m m' : run_sim m m' -> m = ∅ <-> m' = ∅.
Proof.
  unfold run_sim. intros Hm. rewrite <- (fmap_empty_iff rerun m), <- (fmap_empty_iff rerun m'), Hm. tauto.
Qed.

Lemma run_sim_singleton k m m2 : run_sim {[k := m]} m2 -> exists m', m2 = {[k := m']} /\ rerun m = rerun m'.
Proof.
  unfold run_sim. rewrite map_fmap_singleton. intros Hm.
  assert (Hk : rerun <$> m2 !! k = Some (rerun m)) by (by rewrite <- lookup_fmap, <- Hm, lookup_singleton_eq).
  destruct (m2 !! k) as [m'|] eqn:Ek; [|discriminate Hk]. injection Hk as Hk. exists m'. split; [|unfold rerun; congruence].
  apply map_eq. intros j. destruct (decide (j = k)) as [->|Hne]; [by rewrite lookup_singleton_eq|].
  rewrite lookup_singleton_ne by done. apply (f_equal (.!! j)) in Hm.
  rewrite lookup_singleton_ne, lookup_fmap in Hm by done. by destruct (m2 !! j).
Qed.

Lemma Reduce_reloaded r c d : Reduce r (reloaded c) d = Reduce r c d.
Proof. unfold Reduce, reduceAppend, reduceMerge, reduceSum. by destruct c. Qed.

Lemma Reduce_raw_sim r m m' k d : raw_sim m m' -> Reduce r (raw_at m k) d = Reduce r (raw_at m' k) d.
Proof.
  unfold raw_sim, raw_at. intros Hm. apply (f_equal (.!! k)) in Hm. rewrite !lookup_fmap in Hm.
  destruct (m !! k) as [c|], (m' !! k) as [c'|]; cbn [fmap option_fmap option_map] in Hm; [|done..].
  cbn [default from_option id]. assert (reloaded c = reloaded c') as E by congruence.
  by rewrite <- (Reduce_reloaded r c), E, Reduce_reloaded.
Qed.

#[global] Opaque raw_sim run_sim.

(** ** Steps of the fold *)

Lemma applyWrites_sim def w s t : s ≃ t -> rsim sim (applyWrites def w s) (applyWrites def w t).
Proof.
  apply rsim_fold. clear s t. intros s t x Hst. cbv zeta.
  rewrite (Reduce_raw_sim _ _ _ _ _ (Channels_sim _ _ Hst)). destruct (Reduce _ _ _) as [v|e]; [|done].
  cbn [res_bind rsim]. apply set_Channels_sim; [|done]. by apply raw_sim_insert; [apply Channels_sim|].
Qed.

(** The run an instance is an item of. *)
Lemma item_map_sim s t nd owner : s ≃ t -> rerun <$> item_map s nd owner = rerun <$> item_map t nd owner.
Proof. intros Hst. unfold item_map. destruct (String.eqb _ _); [|done]. by apply run_sim_lookup, Maps_sim. Qed.

Lemma item_done_sim owner m m' index output s t :
  rerun m = rerun m' -> s ≃ t -> rsim sim (item_done owner m index output s) (item_done owner m' index output t).
Proof.
  intros Hm Hst. unfold item_done, slice_set. unfold rerun in Hm. injection Hm as Hi Ho Hd Hn Hp.
  pose proof (f_equal length Ho) as Hl. rewrite !length_fmap in Hl. rewrite Hl.
  destruct (decide _); [|done]. cbn [res_bind rsim]. apply set_Maps_sim; [|done].
  apply run_sim_insert; [by apply Maps_sim|]. unfold rerun. cbn. by rewrite !list_fmap_insert, Hi, Ho, Hd, Hn, Hp.
Qed.

Lemma settleTask_sim key o s t : s ≃ t -> settleTask key o s ≃ settleTask key o t.
Proof.
  intros Hst. unfold settleTask. rewrite (Tasks_sim _ _ Hst). destruct (s_Tasks t !! key) as [tk|]; [|done].
  cbn [s_Fans set_Tasks]. rewrite (Fans_sim _ _ Hst). destruct (s_Fans t !! _); by repeat f_equiv.
Qed.

Lemma foldl_related {A B} (R : A -> A -> Prop) (f : A -> B -> A) xs a a' :
  (forall a a' x, R a a' -> R (f a x) (f a' x)) -> R a a' -> R (foldl f a xs) (foldl f a' xs).
Proof. intros Hf. revert a a'. induction xs; simpl; auto. Qed.

Lemma dropChildren_sim owner s t :
  s ≃ t -> fst (dropChildren owner s) = fst (dropChildren owner t) /\
           snd (dropChildren owner s) ≃ snd (dropChildren owner t).
Proof.
  intros Hst. unfold dropChildren. rewrite (Children_sim _ _ Hst).
  apply (foldl_related (fun p q => fst p = fst q /\ snd p ≃ snd q)); [|done]. clear s t Hst.
  intros [nodes s] [nodes' t] k [E Hst]. simpl in *. subst nodes'.
  rewrite (Children_sim _ _ Hst). destruct (s_Children t !! k) as [c|]; [|done].
  destruct (String.eqb _ _); [|done]. split; [done|]. simpl. by f_equiv.
Qed.

Lemma closeAwait_sim nd s t : s ≃ t -> closeAwait nd s ≃ closeAwait nd t.
Proof.
  intros Hst. unfold closeAwait. rewrite (Awaits_sim _ _ Hst), (Timers_sim _ _ Hst).
  destruct (s_Awaits t !! nd); cbn [s_Awaits set_Timers]; rewrite ?(Awaits_sim _ _ Hst); by repeat f_equiv.
Qed.

Lemma terminate_sim st s t : s ≃ t -> terminate st s ≃ terminate st t.
Proof. intros Hst. unfold terminate. by repeat (f_equiv; try done). Qed.

(** An optional run, updated. *)
Lemma with_item_sim s t nd owner (f : MapRun -> MapRun) :
  s ≃ t -> (forall m m', rerun m = rerun m' -> rerun (f m) = rerun (f m')) ->
  match item_map s nd owner with Some m => set_Maps (<[owner := f m]> (s_Maps s)) s | None => s end ≃
  match item_map t nd owner with Some m => set_Maps (<[owner := f m]> (s_Maps t)) t | None => t end.
Proof.
  intros Hst Hf. pose proof (item_map_sim _ _ nd owner Hst) as Hi.
  destruct (item_map s nd owner) as [m|], (item_map t nd owner) as [m'|]; try discriminate Hi; [|done].
  cbn in Hi. apply set_Maps_sim; [|done]. apply run_sim_insert; [by apply Maps_sim|]. apply Hf. congruence.
Qed.

Lemma rerun_next n m m' : rerun m = rerun m' ->
  rerun (set_m_Next (Z.max (m_Next m) n) m) = rerun (set_m_Next (Z.max (m_Next m') n) m').
Proof. unfold rerun. cbn. intros [= Hi Ho Hd Hn Hp]. by rewrite Hi, Ho, Hd, Hn, Hp. Qed.

Lemma applyScheduled_sim d s t : s ≃ t -> applyScheduled d s ≃ applyScheduled d t.
Proof.
  intros Hst. unfold applyScheduled. rewrite (Tasks_sim _ _ Hst), (N_sim _ _ Hst).
  match goal with |- context [set_Tasks ?ts s] => generalize ts as tasks end. intros tasks.
  match goal with |- context [set_N ?n] => generalize n as N0 end. intros N0. cbv zeta.
  apply with_item_sim; [by repeat f_equiv|]. apply rerun_next.
Qed.

Lemma applyChild_sim d s t : s ≃ t -> applyChild d s ≃ applyChild d t.
Proof.
  intros Hst. unfold applyChild. rewrite (Children_sim _ _ Hst), (N_sim _ _ Hst). cbv zeta.
  apply with_item_sim; [by repeat f_equiv|]. apply rerun_next.
Qed.

Lemma addUsage_sim u s t : s ≃ t -> addUsage u s ≃ addUsage u t.
Proof. intros Hst. unfold addUsage. rewrite (Counters_sim _ _ Hst). by f_equiv. Qed.

Lemma applyNodeDone_sim def d s t : s ≃ t -> rsim sim (applyNodeDone def d s) (applyNodeDone def d t).
Proof.
  intros Hst. unfold applyNodeDone. rewrite (Tasks_sim _ _ Hst). destruct (s_Tasks t !! _) as [tk|]; [|done].
  eapply rsim_bind; [by apply applyWrites_sim|]. clear s t Hst. intros s t Hst. cbv zeta.
  apply (addUsage_sim (NodeDone_Usage d)) in Hst. revert Hst. generalize (addUsage (NodeDone_Usage d) s) as s1.
  generalize (addUsage (NodeDone_Usage d) t) as t1. clear s t. intros t s Hst.
  eapply (rsim_bind sim); [|intros s1 t1 Hst1; by apply settleTask_sim].
  pose proof (item_map_sim _ _ (t_Node tk) (t_Owner tk) Hst) as Hi.
  destruct (item_map s _ _) as [m|], (item_map t _ _) as [m'|]; try discriminate Hi.
  - apply item_done_sim; [|done]. cbn in Hi. congruence.
  - cbn [rsim s_Errors set_LastNode set_Results]. rewrite (Errors_sim _ _ Hst). auto 8 with sim.
Qed.

Lemma applyNodeFail_sim d s t : s ≃ t -> applyNodeFail d s ≃ applyNodeFail d t.
Proof.
  intros Hst. unfold applyNodeFail. rewrite (Tasks_sim _ _ Hst). destruct (s_Tasks t !! _) as [tk|]; [|done].
  cbv zeta. apply (addUsage_sim (NodeFail_Usage d)) in Hst. revert Hst.
  generalize (addUsage (NodeFail_Usage d) s) as s1, (addUsage (NodeFail_Usage d) t) as t1. clear s t. intros s t Hst.
  rewrite (Tasks_sim _ _ Hst), (Errors_sim _ _ Hst). destruct (NodeFail_WillRetry d); [auto with sim|].
  apply settleTask_sim. pose proof (item_map_sim _ _ (t_Node tk) (t_Owner tk) Hst) as Hi.
  destruct (item_map s _ _), (item_map t _ _); try discriminate Hi; auto with sim.
Qed.

Lemma applyJoin_sim d s t : s ≃ t -> applyJoin d s ≃ applyJoin d t.
Proof.
  intros Hst. unfold applyJoin. rewrite (Fans_sim _ _ Hst).
  assert (Hd : (match s_Fans t !! Join_Fanout d with
    | Some f => let '(nodes, s0) := dropChildren (Join_Fanout d) s in
        set_Branches (foldl (fun m k => <[k := BranchCancelled]> m) (fan_Branches f) nodes) s0
    | None => s end) ≃ (match s_Fans t !! Join_Fanout d with
    | Some f => let '(nodes, s0) := dropChildren (Join_Fanout d) t in
        set_Branches (foldl (fun m k => <[k := BranchCancelled]> m) (fan_Branches f) nodes) s0
    | None => t end)).
  { destruct (s_Fans t !! _) as [f|]; [|done]. pose proof (dropChildren_sim (Join_Fanout d) _ _ Hst) as [E Hd].
    destruct (dropChildren _ s) as [n1 s1], (dropChildren _ t) as [n2 t1]. simpl in *. subst n2. auto with sim. }
  revert Hd. match goal with |- ?x ≃ ?y -> _ => generalize x as s1, y as t1 end. clear s t Hst. intros s t Hst.
  cbv zeta. rewrite (Fans_sim _ _ Hst).
  cbn [s_Fans s_Errors set_LastNode set_Results set_Fans]. rewrite (Errors_sim _ _ Hst).
  destruct (Join_OK d); auto 8 with sim.
Qed.

Lemma applyMapDone_sim d s t : s ≃ t -> rsim sim (applyMapDone d s) (applyMapDone d t).
Proof.
  intros Hst. unfold applyMapDone. pose proof (run_sim_lookup _ _ (MapDone_Node d) (Maps_sim _ _ Hst)) as Hm.
  destruct (s_Maps s !! _) as [m|], (s_Maps t !! _) as [m'|]; try discriminate Hm; [|done].
  cbn [rsim s_Errors s_Maps set_LastNode set_Results set_Maps]. rewrite (Errors_sim _ _ Hst).
  assert (marshal_slice (m_Outputs m) = marshal_slice (m_Outputs m')) as ->.
  { cbn in Hm. assert (rerun m = rerun m') as Er by congruence. unfold rerun in Er. injection Er as _ Ho _ _ _.
    unfold marshal_slice. f_equal. apply (f_equal (fmap marshal_raw)) in Ho.
    by rewrite <- !list_fmap_compose in Ho. }
  apply set_Errors_sim; [done|]. apply set_Maps_sim; [|auto with sim]. by apply run_sim_delete, Maps_sim.
Qed.

Lemma applySignalUse_sim d s t : s ≃ t -> rsim sim (applySignalUse d s) (applySignalUse d t).
Proof.
  intros Hst. unfold applySignalUse. rewrite (Buffered_sim _ _ Hst). destruct (take_first _ _) as [[b r]|]; [|done].
  apply closeAwait_sim. cbn [s_Signals s_Results set_Buffered set_Signals]. auto with sim.
Qed.

Lemma applyChildDone_sim d s t : s ≃ t -> rsim sim (applyChildDone d s) (applyChildDone d t).
Proof.
  intros Hst. unfold applyChildDone. rewrite (Children_sim _ _ Hst).
  cbn [s_Children s_Counters set_Children]. rewrite (Counters_sim _ _ Hst).
  set (key := if String.eqb _ _ then _ else _). clearbody key. cbv zeta.
  set (s1 := set_Counters _ (set_Children _ s)). set (t1 := set_Counters _ (set_Children _ t)).
  assert (H1 : s1 ≃ t1) by (unfold s1, t1; auto with sim). clearbody s1 t1.
  destruct (s_Children t !! key) as [c|]; cycle 1.
  { cbn [rsim s_Errors set_LastNode set_Results]. rewrite (Errors_sim _ _ H1). destruct (String.eqb _ _); auto 8 with sim. }
  pose proof (item_map_sim _ _ (ChildDone_Node d) (cs_Owner c) H1) as Hi.
  destruct (item_map s1 _ _) as [m|], (item_map t1 _ _) as [m'|]; try discriminate Hi.
  - destruct (String.eqb _ _); [apply item_done_sim; [cbn in Hi; congruence|done]|].
    cbn [rsim]. rewrite (Errors_sim _ _ H1). auto with sim.
  - rewrite (Fans_sim _ _ H1). cbn [rsim s_Errors set_LastNode set_Results].
    destruct (s_Fans t1 !! cs_Owner c); cbn [s_Errors set_Fans]; rewrite (Errors_sim _ _ H1);
      destruct (String.eqb _ _); auto 8 with sim.
Qed.

(** *** One event *)

Lemma applyStarted_sim def tm d s t : s ≃ t -> applyStarted def tm d s ≃ applyStarted def tm d t.
Proof.
  intros Hst. unfold applyStarted. cbv zeta.
  match goal with |- match def with Some f => set_Channels (@?F f ∪ _) ?x | None => _ end ≃ match def with Some _ => set_Channels _ ?y | None => _ end =>
    assert (H1 : x ≃ y) by (by repeat (f_equiv; try done)); revert H1; generalize x as s1, y as t1 end.
  clear s t Hst. intros s t Hst. destruct def as [f|]; [|done].
  apply set_Channels_sim; [|done]. by apply raw_sim_union, Channels_sim.
Qed.

(** The fold of one event does not see the difference. *)
Lemma apply_sim def ev s t : s ≃ t -> rsim sim (apply_ def s ev) (apply_ def t ev).
Proof.
  intros Hst. unfold apply_.
  destruct (ev_Data ev) as [d|d|d|d|d|d|d|d|d|d|d|d|d|d|d|d|d|d|d|d|d|d|d|d|d|d|d]; cbn [rsim];
    auto using applyStarted_sim, applyScheduled_sim, applyNodeDone_sim, applyNodeFail_sim, settleTask_sim, applyJoin_sim,
      applyMapDone_sim, closeAwait_sim, applySignalUse_sim, applyChild_sim, applyChildDone_sim.
  - reflexivity.
  - reflexivity.
  - f_equiv. by apply terminate_sim.
  - do 3 f_equiv. by apply terminate_sim.
  - f_equiv. by apply terminate_sim.
  - rewrite (Steps_sim _ _ Hst), (Visits_sim _ _ Hst). by repeat f_equiv.
  - unfold applyInterrupted. rewrite (Tasks_sim _ _ Hst). destruct (s_Tasks t !! _); [|done].
    apply addUsage_sim. auto with sim.
  - unfold applyFanout. rewrite (Fans_sim _ _ Hst). auto with sim.
  - rewrite (Awaits_sim _ _ Hst). by f_equiv.
  - unfold applySignal. rewrite (Buffered_sim _ _ Hst), (SignalIDs_sim _ _ Hst). by repeat f_equiv.
  - eapply rsim_bind; [by apply applyWrites_sim|]. intros s1 t1 H1. rewrite (UpdateIDs_sim _ _ H1). by apply set_UpdateIDs_sim.
  - unfold applyMap. apply set_Maps_sim; [|done]. apply run_sim_insert; [by apply Maps_sim|done].
  - unfold applyMapAbort. pose proof (dropChildren_sim (MapAbort_Node d) _ _ Hst) as [_ Hd].
    apply set_Maps_sim; [|done]. by apply run_sim_delete, Maps_sim.
  - unfold applyTimer. rewrite (Timers_sim _ _ Hst), (N_sim _ _ Hst). by repeat f_equiv.
  - rewrite (Timers_sim _ _ Hst). by f_equiv.
Qed.

Lemma recomputeStatus_sim s t : s ≃ t -> recomputeStatus s ≃ recomputeStatus t.
Proof.
  intros Hst. unfold recomputeStatus.
  rewrite (Tasks_sim _ _ Hst), (Children_sim _ _ Hst), (Awaits_sim _ _ Hst).
  rewrite (bool_decide_ext (s_Maps s <> ∅) (s_Maps t <> ∅)) by (by rewrite (run_sim_empty _ _ (Maps_sim _ _ Hst))).
  repeat (destruct (bool_decide _); simpl); by f_equiv.
Qed.

Lemma finish_sim ev s t : s ≃ t -> finish ev s ≃ finish ev t.
Proof.
  intros Hst. unfold finish. rewrite (Events_sim _ _ Hst). cbv zeta.
  match goal with |- (if negb (Terminal (s_Status ?x)) && _ then _ else _) ≃ (if negb (Terminal (s_Status ?y)) && _ then _ else _) =>
    assert (H1 : x ≃ y) by (destruct (IsZero _); by repeat f_equiv); revert H1; generalize x as s1, y as t1 end.
  clear s t Hst. intros s t Hst. rewrite (Status_sim _ _ Hst). destruct (_ && _); [|done].
  by apply recomputeStatus_sim.
Qed.

Lemma wrap_apply_sim {A} (R : A -> A -> Prop) r1 r2 : rsim R r1 r2 -> rsim R (wrap_apply r1) (wrap_apply r2).
Proof. destruct r1, r2; simpl; congruence. Qed.

Lemma Apply_sim def ev s t : s ≃ t -> rsim sim (Apply def s ev) (Apply def t ev).
Proof.
  intros Hst. unfold Apply. assert (expected_index s ev = expected_index t ev) as ->.
  { unfold expected_index. by rewrite (Events_sim _ _ Hst). }
  destruct (wrap_apply (expected_index t ev)) as [n|e]; [|done]. cbn [res_bind]. destruct (_ && _); [done|].
  eapply (rsim_bind sim); [by apply wrap_apply_sim, apply_sim|]. intros s1 t1 H1. by apply finish_sim.
Qed.

(** *** Events as they are stored

    The fold reads the time, the index and the payload of an event: trace,
    sequence and decision mark, set by the engine and by readers, do not
    matter. *)
Definition same_event (ev ev' : FoldEvent) : Prop :=
  ev_Time ev = ev_Time ev' /\ ev_Index ev = ev_Index ev' /\ ev_Data ev = ev_Data ev'.

Lemma Apply_same def s ev ev' : same_event ev ev' -> Apply def s ev = Apply def s ev'.
Proof. intros (Ht & Hi & Hd). unfold Apply, expected_index, apply_, finish. by rewrite Ht, Hi, Hd. Qed.

(** A log folded on similar states. *)
Lemma fold_sim def evs evs' s t :
  s ≃ t -> Forall2 same_event evs evs' ->
  rsim sim (res_fold (Apply def) s evs) (res_fold (Apply def) t evs').
Proof.
  intros Hst HF. revert s t Hst. induction HF as [|ev ev' evs evs' He _ IH]; intros s t Hst; cbn [res_fold]; [done|].
  rewrite <- (Apply_same def t ev ev' He). eapply rsim_bind; [by apply Apply_sim|]. intros s1 t1. apply IH.
Qed.
