(* ===== verification/Codec.v ===== *)
(** * Encoding of events and decisions ([event/codec.go])

    A decision is stored as one message: a JSON array of the envelopes of its
    events, with headers that list their types.  An envelope is a JSON object
    whose members carry the tags of the struct [Event], and its [data] the
    tags of the payload; it is decoded member by member, by the payload that
    its type names.

    The bytes are represented by the JSON they parse to ([Enc]).  Three kinds
    of leaf are kept as what they stand for instead of as JSON: the string of a
    message made by [fmt], the string of a [time.Time], and an encoded fold
    state (see [State.v]).  [None] stands for bytes that are not JSON. *)

From S2P Require Import Prelude Json GoStrings Flow Event Cmd CmdCodec Reduce State StateFacts View Decide Sim DecideRun.

(** ** Types *)

Definition type_string (t : EventType) : string :=
  match t with
  | ExecutionStarted => "ExecutionStarted" | ExecutionForked => "ExecutionForked"
  | ExecutionContinued => "ExecutionContinued" | ExecutionCompleted => "ExecutionCompleted"
  | ExecutionFailed => "ExecutionFailed" | ExecutionCancelled => "ExecutionCancelled"
  | NodeEntered => "NodeEntered" | NodeScheduled => "NodeScheduled" | NodeCompleted => "NodeCompleted"
  | NodeFailed => "NodeFailed" | NodeInterrupted => "NodeInterrupted" | NodeCancelled => "NodeCancelled"
  | ChoiceEvaluated => "ChoiceEvaluated" | FanoutStarted => "FanoutStarted"
  | JoinCompleted => "JoinCompleted" | AwaitStarted => "AwaitStarted" | AwaitTimedOut => "AwaitTimedOut"
  | SignalReceived => "SignalReceived" | SignalConsumed => "SignalConsumed"
  | ChannelsUpdated => "ChannelsUpdated" | MapStarted => "MapStarted" | MapCompleted => "MapCompleted"
  | MapAborted => "MapAborted" | ChildStarted => "ChildStarted" | ChildCompleted => "ChildCompleted"
  | TimerScheduled => "TimerScheduled" | TimerFired => "TimerFired"
  end.

(** ** What JSON does to an event *)

(** The payload [json.Unmarshal] gives back for one [json.Marshal] wrote: a nil
    message that is always written (no [omitempty]), a member of a map or an
    item of a list comes back as null. *)
Definition recode_data (d : FoldData) : FoldData :=
  match d with
  | DStarted x => DStarted {|
      Started_ExecID := Started_ExecID x; Started_Flow := Started_Flow x; Started_FlowHash := Started_FlowHash x;
      Started_Input := reloaded (Started_Input x); Started_Parent := Started_Parent x;
      Started_Attrs := Started_Attrs x |}
  | DNodeDone x => DNodeDone {|
      NodeDone_Key := NodeDone_Key x; NodeDone_Node := NodeDone_Node x;
      NodeDone_Generation := NodeDone_Generation x; NodeDone_Attempt := NodeDone_Attempt x;
      NodeDone_Output := NodeDone_Output x; NodeDone_Writes := reloaded <$> NodeDone_Writes x;
      NodeDone_Next := NodeDone_Next x; NodeDone_Usage := NodeDone_Usage x;
      NodeDone_Cached := NodeDone_Cached x; NodeDone_CacheKey := NodeDone_CacheKey x |}
  | DUpdate x => DUpdate {| Update_ID := Update_ID x; Update_Writes := reloaded <$> Update_Writes x |}
  | DMap x => DMap {| Map_Node := Map_Node x; Map_Items := reloaded <$> Map_Items x;
                      Map_MaxParallel := Map_MaxParallel x |}
  | DChild x => DChild {|
      Child_Node := Child_Node x; Child_ChildID := Child_ChildID x; Child_ChildN := Child_ChildN x;
      Child_Flow := Child_Flow x; Child_Input := reloaded (Child_Input x); Child_Policy := Child_Policy x;
      Child_Key := Child_Key x; Child_Owner := Child_Owner x; Child_Index := Child_Index x |}
  | _ => d
  end.

(** [time.Time.MarshalJSON] refuses years outside of 0..9999. *)
Definition day : Z := 24 * 3600 * Second.
Definition time_encodes (t : Z) : bool := (- 366 * day <=? t) && (t <? 3652059 * day).

Definition floats_encode (u : gmap string float64) : bool :=
  bool_decide (map_Forall (fun _ f => f_finite f = true) u).

(** [json.Marshal] of the payload succeeds. *)
Definition payload_encodes (d : FoldData) : bool :=
  match d with
  | DNodeDone x => floats_encode (NodeDone_Usage x)
  | DNodeFail x => floats_encode (NodeFail_Usage x)
  | DInterrupted x => floats_encode (Interrupted_Usage x)
  | DChildDone x => floats_encode (ChildDone_Counters x)
  | DTimer x => time_encodes (Timer_At x)
  | _ => true
  end.

(** A Go [int] holds 64 bits with a sign, a sequence 64 bits without one: an
    event with a number beyond them does not exist, and is not encoded here. *)
Definition fits_int (z : Z) : bool := (- 2 ^ 63 <=? z) && (z <? 2 ^ 63).
Definition fits_uint (z : Z) : bool := (0 <=? z) && (z <? 2 ^ 64).

Definition payload_fits (d : FoldData) : bool :=
  match d with
  | DStarted x => match Started_Parent x with Some p => fits_int (pr_ChildN p) | None => true end
  | DForked x => fits_uint (Forked_Seq x)
  | DContinued x =>
      let g := Continued_Segment x in
      fits_int (Segment_FirstIndex g) && fits_int (Segment_LastIndex g) &&
      fits_uint (Segment_FirstSeq g) && fits_uint (Segment_LastSeq g)
  | DScheduled x => fits_int (Scheduled_Index x) && fits_int (Scheduled_Generation x) && fits_int (Scheduled_Attempt x)
  | DNodeDone x => fits_int (NodeDone_Generation x) && fits_int (NodeDone_Attempt x)
  | DNodeFail x => fits_int (NodeFail_Generation x) && fits_int (NodeFail_Attempt x)
  | DInterrupted x => fits_int (Interrupted_Generation x)
  | DChoice x => fits_int (Choice_Rule x)
  | DMap x => fits_int (Map_MaxParallel x)
  | DMapAbort x => fits_int (MapAbort_Index x)
  | DChild x => fits_int (Child_ChildN x) && fits_int (Child_Index x)
  | DTimer x => fits_int (Timer_N x) && fits_int (Timer_Generation x) && fits_int (Timer_Attempt x)
  | _ => true
  end.

(** ** The tree of an envelope *)

Inductive Enc :=
| EJson (j : Json)
| EText (t : Text)                    (* the string a [fmt] call makes *)
| ETime (t : Z)                       (* the string of an instant *)
| EState (b : Encoded)                (* an encoded fold state *)
| EObj (kvs : list (string * Enc)).

(** *** Writing members *)

Definition fields := list (string * option Enc).
Definition eobject (fs : fields) : Enc := EObj (present fs).

Definition estr (s : string) : option Enc := Some (EJson (JStr s)).
Definition estr_omitempty (s : string) : option Enc := if String.eqb s "" then None else estr s.
Definition eint (z : Z) : option Enc := Some (EJson (JNum (NInt z))).
Definition eint_omitempty (z : Z) : option Enc := if z =? 0 then None else eint z.
Definition ebool (b : bool) : option Enc := Some (EJson (JBool b)).
Definition ebool_omitempty (b : bool) : option Enc := if b then ebool b else None.
Definition eraw (r : RawMessage) : option Enc := Some (EJson (marshal_raw r)).
Definition eraw_omitempty (r : RawMessage) : option Enc := EJson <$> r.
Definition eraws (m : gmap string RawMessage) : option Enc := Some (EJson (marshal_map m)).
Definition eraws_omitempty (m : gmap string RawMessage) : option Enc := if bool_decide (m = ∅) then None else eraws m.
Definition estrs (l : list string) : option Enc := Some (EJson (JArr (JStr <$> l))).
Definition estrs_omitempty (l : list string) : option Enc := match l with [] => None | _ => estrs l end.
Definition efloats_omitempty (m : gmap string float64) : option Enc :=
  if bool_decide (m = ∅) then None else eraws ((fun f => Some (JNum (NFloat f))) <$> m).
Definition text_tree (t : Text) : Enc := match t with TStr s => EJson (JStr s) | _ => EText t end.
Definition etext (t : Text) : option Enc := Some (text_tree t).
Definition etext_omitempty (t : Text) : option Enc := match t with TStr s => estr_omitempty s | _ => Some (EText t) end.
Definition etexts_omitempty (m : gmap string Text) : option Enc :=
  if bool_decide (m = ∅) then None
  else Some (EObj ((fun k => (k, text_tree (default (TStr "") (m !! k)))) <$> sorted_keys m)).

(** *** Reading members *)

Definition emembers (b : Enc) : option (list (string * Enc)) :=
  match b with
  | EObj kvs => Some kvs
  | EJson (JObj kvs) => Some ((fun kv => (fst kv, EJson (snd kv))) <$> kvs)
  | EJson JNull => Some []
  | _ => None
  end.

(** The member named [n], null without one. *)
Definition get (n : string) (kvs : list (string * Enc)) : Enc := default (EJson JNull) (member_opt n kvs).

Definition of_json {A} (dec : Json -> option A) (b : Enc) : option A :=
  match b with EJson j => dec j | _ => None end.

Definition dstr : Enc -> option string := of_json unmarshal_string.
Definition dint : Enc -> option Z := of_json unmarshal_int.
Definition duint : Enc -> option Z := of_json unmarshal_uint.
Definition dbool : Enc -> option bool := of_json unmarshal_bool.
Definition draws : Enc -> option (gmap string RawMessage) := of_json raw_map.
Definition dfloats : Enc -> option (gmap string float64) := of_json float_map.
Definition dstrs : Enc -> option (list string) := of_json (fun j => l ← unmarshal_slice j; mapM unmarshal_string l).
(** A [json.RawMessage] keeps the member as it is, null included. *)
Definition raw_of (o : option Enc) : option RawMessage :=
  match o with None => Some None | Some (EJson j) => Some (Some j) | Some _ => None end.
Definition draw (n : string) (kvs : list (string * Enc)) : option RawMessage := raw_of (member_opt n kvs).
Definition dtext (b : Enc) : option Text :=
  match b with EText t => Some t | EJson j => TStr <$> unmarshal_string j | _ => None end.
Definition dentry (kv : string * Enc) : option (string * Text) := t ← dtext (snd kv); Some (fst kv, t).
Definition dtexts (b : Enc) : option (gmap string Text) :=
  kvs ← emembers b;
  vs ← mapM dentry kvs;
  Some (list_to_map (reverse vs)).
Definition dtime (b : Enc) : option Z :=
  match b with ETime t => Some t | EJson JNull => Some 0 | _ => None end.
Definition dstate (b : Enc) : option Encoded :=
  match b with EState e => Some e | EJson _ => Some None | _ => None end.

(** ** Payloads *)

Definition encode_Segment (g : Segment) : Enc :=
  eobject [("object", estr (Segment_Object g)); ("first_index", eint (Segment_FirstIndex g));
           ("last_index", eint (Segment_LastIndex g)); ("first_seq", eint (Segment_FirstSeq g));
           ("last_seq", eint (Segment_LastSeq g))].

(** [json.Marshal] of a payload: its members with their tags, in the order of
    the fields, those marked [omitempty] left out when they are empty. *)
Definition encode_data (d : FoldData) : Enc :=
  eobject (match d with
  | DStarted x => [
      ("exec_id", estr (Started_ExecID x)); ("flow", estr (Started_Flow x)); ("flow_hash", estr (Started_FlowHash x));
      ("input", eraw (Started_Input x)); ("parent", EJson ∘ encode_ParentRef <$> Started_Parent x);
      ("attrs", etexts_omitempty (Started_Attrs x))]
  | DForked x => [
      ("exec_id", estr (Forked_ExecID x)); ("from", estr (Forked_From x)); ("seq", eint (Forked_Seq x));
      ("state", Some (EState (Forked_State x)))]
  | DContinued x => [
      ("state", Some (EState (Continued_State x))); ("segment", Some (encode_Segment (Continued_Segment x)))]
  | DCompleted x => [("output", eraw_omitempty (Completed_Output x))]
  | DFailed x => [
      ("error", etext (Failed_Error x)); ("reason", estr (Failed_Reason x)); ("node", estr_omitempty (Failed_Node x));
      ("cancel_children", estrs_omitempty (Failed_CancelChildren x))]
  | DCancelled x => [
      ("reason", estr_omitempty (Cancelled_Reason x)); ("cancel_children", estrs_omitempty (Cancelled_CancelChildren x))]
  | DEntered x => [("node", estr (Entered_Node x))]
  | DScheduled x => [
      ("key", estr (Scheduled_Key x)); ("node", estr (Scheduled_Node x)); ("kind", estr (Scheduled_Kind x));
      ("index", eint_omitempty (Scheduled_Index x)); ("generation", eint (Scheduled_Generation x));
      ("attempt", eint (Scheduled_Attempt x)); ("owner", estr_omitempty (Scheduled_Owner x));
      ("item", eraw_omitempty (Scheduled_Item x)); ("resume", eraw_omitempty (Scheduled_Resume x));
      ("resumed_by", estr_omitempty (Scheduled_ResumedBy x))]
  | DNodeDone x => [
      ("key", estr (NodeDone_Key x)); ("node", estr (NodeDone_Node x)); ("generation", eint (NodeDone_Generation x));
      ("attempt", eint (NodeDone_Attempt x)); ("output", eraw_omitempty (NodeDone_Output x));
      ("writes", eraws_omitempty (NodeDone_Writes x)); ("next", estr_omitempty (NodeDone_Next x));
      ("usage", efloats_omitempty (NodeDone_Usage x)); ("cached", ebool_omitempty (NodeDone_Cached x));
      ("cache_key", estr_omitempty (NodeDone_CacheKey x))]
  | DNodeFail x => [
      ("key", estr (NodeFail_Key x)); ("node", estr (NodeFail_Node x)); ("generation", eint (NodeFail_Generation x));
      ("attempt", eint (NodeFail_Attempt x)); ("error", etext (NodeFail_Error x)); ("reason", estr (NodeFail_Reason x));
      ("will_retry", ebool (NodeFail_WillRetry x)); ("usage", efloats_omitempty (NodeFail_Usage x))]
  | DInterrupted x => [
      ("key", estr (Interrupted_Key x)); ("node", estr (Interrupted_Node x));
      ("generation", eint (Interrupted_Generation x)); ("payload", eraw_omitempty (Interrupted_Payload x));
      ("usage", efloats_omitempty (Interrupted_Usage x))]
  | DNodeCancel x => [
      ("key", estr (NodeCancel_Key x)); ("node", estr (NodeCancel_Node x)); ("reason", estr (NodeCancel_Reason x))]
  | DChoice x => [
      ("node", estr (Choice_Node x)); ("rule", eint (Choice_Rule x)); ("name", estr_omitempty (Choice_Name x));
      ("to", estr (Choice_To x)); ("error", etext_omitempty (Choice_Error x))]
  | DFanout x => [
      ("node", estr (Fanout_Node x)); ("join", estr (Fanout_Join x)); ("branches", estrs (Fanout_Branches x))]
  | DJoin x => [
      ("node", estr (Join_Node x)); ("fanout", estr (Join_Fanout x)); ("succeeded", estrs_omitempty (Join_Succeeded x));
      ("failed", estrs_omitempty (Join_Failed x)); ("ok", ebool (Join_OK x)); ("output", eraw_omitempty (Join_Output x));
      ("cancel_children", estrs_omitempty (Join_CancelChildren x))]
  | DAwait x => [
      ("node", estr (Await_Node x)); ("signal", estr (Await_Signal x)); ("timer_id", estr (Await_TimerID x))]
  | DAwaitTimeout x => [("node", estr (AwaitTimeout_Node x)); ("to", estr_omitempty (AwaitTimeout_To x))]
  | DSignal x => [
      ("name", estr (Signal_Name x)); ("id", estr (Signal_ID x)); ("payload", eraw_omitempty (Signal_Payload x))]
  | DSignalUse x => [("node", estr (SignalUse_Node x)); ("name", estr (SignalUse_Name x)); ("id", estr (SignalUse_ID x))]
  | DUpdate x => [("id", estr (Update_ID x)); ("writes", eraws (Update_Writes x))]
  | DMap x => [
      ("node", estr (Map_Node x)); ("items", Some (EJson (marshal_slice (Map_Items x))));
      ("max_parallel", eint (Map_MaxParallel x))]
  | DMapDone x => [("node", estr (MapDone_Node x))]
  | DMapAbort x => [
      ("node", estr (MapAbort_Node x)); ("index", eint (MapAbort_Index x));
      ("cancel_children", estrs_omitempty (MapAbort_CancelChildren x))]
  | DChild x => [
      ("node", estr (Child_Node x)); ("child_id", estr (Child_ChildID x)); ("child_n", eint (Child_ChildN x));
      ("flow", estr (Child_Flow x)); ("input", eraw (Child_Input x)); ("policy", estr (Child_Policy x));
      ("key", estr_omitempty (Child_Key x)); ("owner", estr_omitempty (Child_Owner x));
      ("index", eint_omitempty (Child_Index x))]
  | DChildDone x => [
      ("node", estr (ChildDone_Node x)); ("key", estr_omitempty (ChildDone_Key x));
      ("child_id", estr (ChildDone_ChildID x)); ("status", estr (ChildDone_Status x));
      ("output", eraw_omitempty (ChildDone_Output x)); ("error", etext_omitempty (ChildDone_Error x));
      ("counters", efloats_omitempty (ChildDone_Counters x))]
  | DTimer x => [
      ("id", estr (Timer_ID x)); ("n", eint (Timer_N x)); ("at", Some (ETime (Timer_At x)));
      ("purpose", estr (Timer_Purpose x)); ("key", estr_omitempty (Timer_Key x)); ("node", estr_omitempty (Timer_Node x));
      ("generation", eint_omitempty (Timer_Generation x)); ("attempt", eint_omitempty (Timer_Attempt x))]
  | DFired x => [("id", estr (Fired_ID x))]
  end).

(** [json.Unmarshal] into a fresh payload, from the members of an object. *)
Definition Decoder := list (string * Enc) -> option FoldData.

Definition decode_Started : Decoder := fun m =>
  x ← dstr (get "exec_id" m); f ← dstr (get "flow" m); h ← dstr (get "flow_hash" m); i ← draw "input" m;
  p ← of_json decode_ParentRef (get "parent" m); a ← dtexts (get "attrs" m);
  Some (DStarted {| Started_ExecID := x; Started_Flow := f; Started_FlowHash := h; Started_Input := i;
                    Started_Parent := p; Started_Attrs := a |}).

Definition decode_Forked : Decoder := fun m =>
  x ← dstr (get "exec_id" m); f ← dstr (get "from" m); s ← duint (get "seq" m); b ← dstate (get "state" m);
  Some (DForked {| Forked_ExecID := x; Forked_From := f; Forked_Seq := s; Forked_State := b |}).

Definition decode_Segment (b : Enc) : option Segment :=
  m ← emembers b;
  o ← dstr (get "object" m); fi ← dint (get "first_index" m); li ← dint (get "last_index" m);
  fs ← duint (get "first_seq" m); ls ← duint (get "last_seq" m);
  Some {| Segment_Object := o; Segment_FirstIndex := fi; Segment_LastIndex := li; Segment_FirstSeq := fs;
          Segment_LastSeq := ls |}.

Definition decode_Continued : Decoder := fun m =>
  b ← dstate (get "state" m); g ← decode_Segment (get "segment" m);
  Some (DContinued {| Continued_State := b; Continued_Segment := g |}).

Definition decode_Completed : Decoder := fun m =>
  o ← draw "output" m; Some (DCompleted {| Completed_Output := o |}).

Definition decode_Failed : Decoder := fun m =>
  e ← dtext (get "error" m); r ← dstr (get "reason" m); n ← dstr (get "node" m); c ← dstrs (get "cancel_children" m);
  Some (DFailed {| Failed_Error := e; Failed_Reason := r; Failed_Node := n; Failed_CancelChildren := c |}).

Definition decode_Cancelled : Decoder := fun m =>
  r ← dstr (get "reason" m); c ← dstrs (get "cancel_children" m);
  Some (DCancelled {| Cancelled_Reason := r; Cancelled_CancelChildren := c |}).

Definition decode_Entered : Decoder := fun m => n ← dstr (get "node" m); Some (DEntered {| Entered_Node := n |}).

Definition decode_Scheduled : Decoder := fun m =>
  k ← dstr (get "key" m); n ← dstr (get "node" m); ki ← dstr (get "kind" m); i ← dint (get "index" m);
  g ← dint (get "generation" m); a ← dint (get "attempt" m); o ← dstr (get "owner" m);
  it ← draw "item" m; r ← draw "resume" m; b ← dstr (get "resumed_by" m);
  Some (DScheduled {| Scheduled_Key := k; Scheduled_Node := n; Scheduled_Kind := ki; Scheduled_Index := i;
                      Scheduled_Generation := g; Scheduled_Attempt := a; Scheduled_Owner := o; Scheduled_Item := it;
                      Scheduled_Resume := r; Scheduled_ResumedBy := b |}).

Definition decode_NodeDone : Decoder := fun m =>
  k ← dstr (get "key" m); n ← dstr (get "node" m); g ← dint (get "generation" m); a ← dint (get "attempt" m);
  o ← draw "output" m; w ← draws (get "writes" m); nx ← dstr (get "next" m); u ← dfloats (get "usage" m);
  c ← dbool (get "cached" m); ck ← dstr (get "cache_key" m);
  Some (DNodeDone {| NodeDone_Key := k; NodeDone_Node := n; NodeDone_Generation := g; NodeDone_Attempt := a;
                     NodeDone_Output := o; NodeDone_Writes := w; NodeDone_Next := nx; NodeDone_Usage := u;
                     NodeDone_Cached := c; NodeDone_CacheKey := ck |}).

Definition decode_NodeFail : Decoder := fun m =>
  k ← dstr (get "key" m); n ← dstr (get "node" m); g ← dint (get "generation" m); a ← dint (get "attempt" m);
  e ← dtext (get "error" m); r ← dstr (get "reason" m); w ← dbool (get "will_retry" m); u ← dfloats (get "usage" m);
  Some (DNodeFail {| NodeFail_Key := k; NodeFail_Node := n; NodeFail_Generation := g; NodeFail_Attempt := a;
                     NodeFail_Error := e; NodeFail_Reason := r; NodeFail_WillRetry := w; NodeFail_Usage := u |}).

Definition decode_Interrupted : Decoder := fun m =>
  k ← dstr (get "key" m); n ← dstr (get "node" m); g ← dint (get "generation" m); p ← draw "payload" m;
  u ← dfloats (get "usage" m);
  Some (DInterrupted {| Interrupted_Key := k; Interrupted_Node := n; Interrupted_Generation := g;
                        Interrupted_Payload := p; Interrupted_Usage := u |}).

Definition decode_NodeCancel : Decoder := fun m =>
  k ← dstr (get "key" m); n ← dstr (get "node" m); r ← dstr (get "reason" m);
  Some (DNodeCancel {| NodeCancel_Key := k; NodeCancel_Node := n; NodeCancel_Reason := r |}).

Definition decode_Choice : Decoder := fun m =>
  n ← dstr (get "node" m); r ← dint (get "rule" m); na ← dstr (get "name" m); t ← dstr (get "to" m);
  e ← dtext (get "error" m);
  Some (DChoice {| Choice_Node := n; Choice_Rule := r; Choice_Name := na; Choice_To := t; Choice_Error := e |}).

Definition decode_Fanout : Decoder := fun m =>
  n ← dstr (get "node" m); j ← dstr (get "join" m); b ← dstrs (get "branches" m);
  Some (DFanout {| Fanout_Node := n; Fanout_Join := j; Fanout_Branches := b |}).

Definition decode_Join : Decoder := fun m =>
  n ← dstr (get "node" m); f ← dstr (get "fanout" m); s ← dstrs (get "succeeded" m); fa ← dstrs (get "failed" m);
  k ← dbool (get "ok" m); o ← draw "output" m; c ← dstrs (get "cancel_children" m);
  Some (DJoin {| Join_Node := n; Join_Fanout := f; Join_Succeeded := s; Join_Failed := fa; Join_OK := k;
                 Join_Output := o; Join_CancelChildren := c |}).

Definition decode_Await : Decoder := fun m =>
  n ← dstr (get "node" m); s ← dstr (get "signal" m); t ← dstr (get "timer_id" m);
  Some (DAwait {| Await_Node := n; Await_Signal := s; Await_TimerID := t |}).

Definition decode_AwaitTimeout : Decoder := fun m =>
  n ← dstr (get "node" m); t ← dstr (get "to" m);
  Some (DAwaitTimeout {| AwaitTimeout_Node := n; AwaitTimeout_To := t |}).

Definition decode_Signal : Decoder := fun m =>
  n ← dstr (get "name" m); i ← dstr (get "id" m); p ← draw "payload" m;
  Some (DSignal {| Signal_Name := n; Signal_ID := i; Signal_Payload := p |}).

Definition decode_SignalUse : Decoder := fun m =>
  n ← dstr (get "node" m); na ← dstr (get "name" m); i ← dstr (get "id" m);
  Some (DSignalUse {| SignalUse_Node := n; SignalUse_Name := na; SignalUse_ID := i |}).

Definition decode_Map : Decoder := fun m =>
  n ← dstr (get "node" m); l ← of_json unmarshal_slice (get "items" m); p ← dint (get "max_parallel" m);
  Some (DMap {| Map_Node := n; Map_Items := Some <$> l; Map_MaxParallel := p |}).

Definition decode_MapDone : Decoder := fun m => n ← dstr (get "node" m); Some (DMapDone {| MapDone_Node := n |}).

Definition decode_Update : Decoder := fun m =>
  i ← dstr (get "id" m); w ← draws (get "writes" m); Some (DUpdate {| Update_ID := i; Update_Writes := w |}).

Definition decode_MapAbort : Decoder := fun m =>
  n ← dstr (get "node" m); i ← dint (get "index" m); c ← dstrs (get "cancel_children" m);
  Some (DMapAbort {| MapAbort_Node := n; MapAbort_Index := i; MapAbort_CancelChildren := c |}).

Definition decode_Child : Decoder := fun m =>
  n ← dstr (get "node" m); ci ← dstr (get "child_id" m); cn ← dint (get "child_n" m); f ← dstr (get "flow" m);
  i ← draw "input" m; p ← dstr (get "policy" m); k ← dstr (get "key" m); o ← dstr (get "owner" m);
  ix ← dint (get "index" m);
  Some (DChild {| Child_Node := n; Child_ChildID := ci; Child_ChildN := cn; Child_Flow := f; Child_Input := i;
                  Child_Policy := p; Child_Key := k; Child_Owner := o; Child_Index := ix |}).

Definition decode_ChildDone : Decoder := fun m =>
  n ← dstr (get "node" m); k ← dstr (get "key" m); ci ← dstr (get "child_id" m); s ← dstr (get "status" m);
  o ← draw "output" m; e ← dtext (get "error" m); c ← dfloats (get "counters" m);
  Some (DChildDone {| ChildDone_Node := n; ChildDone_Key := k; ChildDone_ChildID := ci; ChildDone_Status := s;
                      ChildDone_Output := o; ChildDone_Error := e; ChildDone_Counters := c |}).

Definition decode_Timer : Decoder := fun m =>
  i ← dstr (get "id" m); n ← dint (get "n" m); t ← dtime (get "at" m); p ← dstr (get "purpose" m);
  k ← dstr (get "key" m); no ← dstr (get "node" m); g ← dint (get "generation" m); a ← dint (get "attempt" m);
  Some (DTimer {| Timer_ID := i; Timer_N := n; Timer_At := t; Timer_Purpose := p; Timer_Key := k; Timer_Node := no;
                  Timer_Generation := g; Timer_Attempt := a |}).

Definition decode_Fired : Decoder := fun m => i ← dstr (get "id" m); Some (DFired {| Fired_ID := i |}).

(** The payload a type decodes to; [None] for a type that is not known. *)
Definition newPayload2 (t : string) : option Decoder :=
  let named u := String.eqb t (type_string u) in
  if named ChoiceEvaluated then Some decode_Choice
  else if named FanoutStarted then Some decode_Fanout
  else if named JoinCompleted then Some decode_Join
  else if named AwaitStarted then Some decode_Await
  else if named AwaitTimedOut then Some decode_AwaitTimeout
  else if named SignalReceived then Some decode_Signal
  else if named SignalConsumed then Some decode_SignalUse
  else if named MapStarted then Some decode_Map
  else if named MapCompleted then Some decode_MapDone
  else if named MapAborted then Some decode_MapAbort
  else if named ChannelsUpdated then Some decode_Update
  else if named ChildStarted then Some decode_Child
  else if named ChildCompleted then Some decode_ChildDone
  else if named TimerScheduled then Some decode_Timer
  else if named TimerFired then Some decode_Fired
  else None.

Definition newPayload (t : string) : option Decoder :=
  let named u := String.eqb t (type_string u) in
  if named ExecutionStarted then Some decode_Started
  else if named ExecutionForked then Some decode_Forked
  else if named ExecutionContinued then Some decode_Continued
  else if named ExecutionCompleted then Some decode_Completed
  else if named ExecutionFailed then Some decode_Failed
  else if named ExecutionCancelled then Some decode_Cancelled
  else if named NodeEntered then Some decode_Entered
  else if named NodeScheduled then Some decode_Scheduled
  else if named NodeCompleted then Some decode_NodeDone
  else if named NodeFailed then Some decode_NodeFail
  else if named NodeInterrupted then Some decode_Interrupted
  else if named NodeCancelled then Some decode_NodeCancel
  else newPayload2 t.

(** ** The codec *)

(** The bytes of an envelope, and of a decision: an array of envelopes, or
    [None] for bytes that are not an array. *)
Abbreviation EventBytes := (option Enc).
Abbreviation DecisionBytes := (option (list EventBytes)).

Definition Encode (ev : FoldEvent) : result EventBytes :=
  if time_encodes (ev_Time ev) && payload_encodes (ev_Data ev) &&
     fits_int (ev_Version ev) && fits_int (ev_Index ev) && payload_fits (ev_Data ev) then
    Ok (Some (eobject [
      ("type", estr (type_string (ev_Type ev)));
      ("v", eint (if ev_Version ev =? 0 then Version else ev_Version ev));
      ("time", Some (ETime (ev_Time ev))); ("i", eint (ev_Index ev));
      ("cmd_id", estr_omitempty (ev_CmdID ev)); ("trace", estr_omitempty (ev_Trace ev));
      ("data", Some (encode_data (ev_Data ev)))]))
  else Err (plain (Sprintf "event: encode %s: %w" [AStr (type_string (ev_Type ev))])).

Definition undecodable (msg : Text) : error := Error [ErrUndecodable] msg.

(** The members of the envelope. *)
Record envelope := {
  env_Type : string; env_Version : Z; env_Time : Z; env_Index : Z; env_CmdID : string; env_Trace : string;
  env_Data : Enc }.

Definition decode_envelope (body : EventBytes) : option envelope :=
  b ← body; m ← emembers b;
  t ← dstr (get "type" m); v ← dint (get "v" m); at_ ← dtime (get "time" m); i ← dint (get "i" m);
  c ← dstr (get "cmd_id" m); tr ← dstr (get "trace" m);
  Some {| env_Type := t; env_Version := v; env_Time := at_; env_Index := i; env_CmdID := c; env_Trace := tr;
          env_Data := get "data" m |}.

(** Absent or null data leaves the payload zero, as an object without members
    does. *)
Definition Decode (body : EventBytes) : result FoldEvent :=
  match decode_envelope body with
  | None => Err (undecodable "event: decode")
  | Some env =>
      match newPayload (env_Type env) with
      | Some payload =>
          if env_Version env =? Version then
            match emembers (env_Data env) ≫= payload with
            | Some data => Ok {|
                ev_Type := payload_type data; ev_Version := env_Version env; ev_Time := env_Time env;
                ev_Index := env_Index env; ev_CmdID := env_CmdID env; ev_Trace := env_Trace env; ev_Data := data;
                ev_Seq := 0; ev_DecisionEnd := false |}
            | None => Err (undecodable (Sprintf "event: decode %s: %w" [AStr (env_Type env)]))
            end
          else Err (undecodable (Sprintf "%w: %q v%d" [AStr (env_Type env); AInt (env_Version env)]))
      | None => Err (undecodable (Sprintf "%w: %q v%d" [AStr (env_Type env); AInt (env_Version env)]))
      end
  end.

(** The headers of a message of the events stream; [Pt-Blob] names the object
    that holds a body too large for a message. *)
Record Header := { h_Types : string; h_CmdID : string; h_Blob : string }.
Definition set_h_Blob (b : string) (h : Header) : Header :=
  {| h_Types := h_Types h; h_CmdID := h_CmdID h; h_Blob := b |}.

Fixpoint encode_all (evs : list FoldEvent) : result (list EventBytes) :=
  match evs with
  | [] => Ok []
  | ev :: evs' => let? b := Encode ev in let? bs := encode_all evs' in Ok (b :: bs)
  end.

Definition EncodeDecision (evs : list FoldEvent) : result (DecisionBytes * Header) :=
  match evs with
  | [] => Err (plain "event: empty decision")
  | first :: _ =>
      let? raws := encode_all evs in
      Ok (Some raws, {| h_Types := strings_join "," (type_string ∘ ev_Type <$> evs); h_CmdID := ev_CmdID first;
                        h_Blob := "" |})
  end.

Definition SplitDecision (body : DecisionBytes) : result (list EventBytes) :=
  match body with
  | None => Err (Error [ErrUndecodable] "event: decode decision")
  | Some [] => Err (plain "event: decode decision: empty")
  | Some raws => Ok raws
  end.

Fixpoint decode_all (raws : list EventBytes) : result (list FoldEvent) :=
  match raws with
  | [] => Ok []
  | r :: raws' => let? ev := Decode r in let? evs := decode_all raws' in Ok (ev :: evs)
  end.

Definition DecodeDecision (body : DecisionBytes) : result (list FoldEvent) :=
  let? raws := SplitDecision body in decode_all raws.

Definition comma : Ascii.ascii := ascii_of 44.

Definition Types (h : Header) : list string :=
  if String.eqb (h_Types h) "" then [] else split_at comma (h_Types h).

(** [evs[i].Trace = trace]. *)
Definition set_Trace (trace : string) (ev : FoldEvent) : FoldEvent := {|
  ev_Type := ev_Type ev; ev_Version := ev_Version ev; ev_Time := ev_Time ev; ev_Index := ev_Index ev;
  ev_CmdID := ev_CmdID ev; ev_Trace := trace; ev_Data := ev_Data ev; ev_Seq := ev_Seq ev;
  ev_DecisionEnd := ev_DecisionEnd ev |}.

(** ** Events that come back as they were *)

(** An event as the decider emits it, before it is stored. *)
Record unstored (ev : FoldEvent) : Prop := {
  un_version : ev_Version ev = Version;
  un_type : ev_Type ev = payload_type (ev_Data ev);
  un_seq : ev_Seq ev = 0;
  un_end : ev_DecisionEnd ev = false;
  un_data : recode_data (ev_Data ev) = ev_Data ev }.

Lemma reloaded_Some (r : RawMessage) : is_Some r -> reloaded r = r.
Proof. by intros [j ->]. Qed.

Lemma written_reloaded w : written w -> reloaded <$> w = w.
Proof.
  intros Hw. rewrite <- (map_fmap_id w) at 2. apply map_fmap_ext. intros k r Hk.
  apply reloaded_Some. by eapply Hw.
Qed.

(** What a decision emits survives the encoding. *)
Lemma portable_recode data : portable data -> recode_data data = data.
Proof.
  destruct data; try done; match goal with |- portable (_ ?x) -> _ => destruct x end; simpl; intros Hp; do 2 f_equal.
  - by destruct Started_Input.
  - by apply written_reloaded.
  - by apply written_reloaded.
  - rewrite <- (list_fmap_id Map_Items) at 2. apply list_fmap_ext. intros i r Hr.
    apply reloaded_Some. rewrite Forall_lookup in Hp. by eapply Hp.
  - by destruct Child_Input.
Qed.

Lemma emit_unstored d t data : t = payload_type data -> portable data -> unstored (emit_event t data d).
Proof. intros Ht Hp. split; [done..|]. by apply portable_recode. Qed.

(** *** Members that come back *)

Lemma fits_int_range z : fits_int z = true -> int_range z.
Proof. unfold fits_int, int_range. lia. Qed.
Lemma fits_uint_range z : fits_uint z = true -> uint_range z.
Proof. unfold fits_uint, uint_range. lia. Qed.

Lemma dstr_back s : dstr (default (EJson JNull) (estr s)) = Some s.
Proof. done. Qed.
Lemma dstr_omitempty_back s : dstr (default (EJson JNull) (estr_omitempty s)) = Some s.
Proof. unfold estr_omitempty. by destruct (String.eqb_spec s "") as [->|]. Qed.
Lemma dint_back z : fits_int z = true -> dint (default (EJson JNull) (eint z)) = Some z.
Proof. intros Hz. by apply number_back, fits_int_range. Qed.
Lemma dint_omitempty_back z : fits_int z = true -> dint (default (EJson JNull) (eint_omitempty z)) = Some z.
Proof. unfold eint_omitempty. destruct (Z.eqb_spec z 0) as [->|]; [done|]. apply dint_back. Qed.
Lemma duint_back z : fits_uint z = true -> duint (default (EJson JNull) (eint z)) = Some z.
Proof. intros Hz. by apply unsigned_back, fits_uint_range. Qed.
Lemma dbool_back b : dbool (default (EJson JNull) (ebool b)) = Some b.
Proof. done. Qed.
Lemma dbool_omitempty_back b : dbool (default (EJson JNull) (ebool_omitempty b)) = Some b.
Proof. by destruct b. Qed.
Lemma dstrs_back l : dstrs (default (EJson JNull) (estrs l)) = Some l.
Proof.
  unfold dstrs, estrs. cbn. induction l as [|s l IH]; [done|]. cbn [fmap list_fmap mapM]. by rewrite IH.
Qed.
Lemma dstrs_omitempty_back l : dstrs (default (EJson JNull) (estrs_omitempty l)) = Some l.
Proof. destruct l; [done|]. apply dstrs_back. Qed.
Lemma dtext_tree t : dtext (text_tree t) = Some t.
Proof. by destruct t. Qed.
Lemma dtext_back t : dtext (default (EJson JNull) (etext t)) = Some t.
Proof. apply dtext_tree. Qed.
Lemma dtext_omitempty_back t : dtext (default (EJson JNull) (etext_omitempty t)) = Some t.
Proof. destruct t as [s|]; [|done]. cbn. unfold estr_omitempty. by destruct (String.eqb_spec s "") as [->|]. Qed.

Lemma reloaded_raw r : Some (marshal_raw r) = reloaded r.
Proof. by destruct r. Qed.

Lemma reraw_reloaded m : reraw m = reloaded <$> m.
Proof. apply map_fmap_ext. intros k r _. apply reloaded_raw. Qed.

Lemma raw_back r : raw_of (eraw r) = Some (reloaded r).
Proof. by destruct r. Qed.
Lemma raw_omitempty_back r : raw_of (eraw_omitempty r) = Some r.
Proof. by destruct r. Qed.

Lemma draws_back m : draws (default (EJson JNull) (eraws m)) = Some (reloaded <$> m).
Proof. rewrite <- reraw_reloaded. apply raws_back. Qed.
Lemma draws_omitempty_back m : draws (default (EJson JNull) (eraws_omitempty m)) = Some (reloaded <$> m).
Proof.
  unfold eraws_omitempty. destruct (bool_decide_reflect (m = ∅)) as [->|]; [|apply draws_back].
  cbn. by rewrite fmap_empty.
Qed.

Lemma dfloats_back m : floats_encode m = true -> dfloats (default (EJson JNull) (efloats_omitempty m)) = Some m.
Proof.
  unfold floats_encode, efloats_omitempty. intros HF.
  destruct (floats_omitempty m) as [o|] eqn:EO.
  - pose proof (floats_back _ _ EO) as HB. unfold floats_omitempty in EO. destruct (bool_decide (m = ∅)).
    + by injection EO as <-.
    + rewrite HF in EO. by injection EO as <-.
  - unfold floats_omitempty in EO. rewrite HF in EO. by destruct (bool_decide (m = ∅)).
Qed.

Lemma parent_here o :
  match o with Some p => fits_int (pr_ChildN p) | None => true end = true ->
  of_json decode_ParentRef (default (EJson JNull) (EJson ∘ encode_ParentRef <$> o)) = Some o.
Proof.
  intros Ho. rewrite <- (parent_back o) by (destruct o; [by apply fits_int_range|done]). by destruct o.
Qed.

Lemma slice_back l :
  of_json unmarshal_slice (default (EJson JNull) (Some (EJson (marshal_slice l)))) = Some (marshal_raw <$> l).
Proof. done. Qed.

Lemma items_back (l : list RawMessage) : Some <$> (marshal_raw <$> l) = reloaded <$> l.
Proof. rewrite <- list_fmap_compose. apply list_fmap_ext. intros i r _. apply reloaded_raw. Qed.

(** A map of texts: its members, sorted by key, are its entries. *)
Definition text_entry (m : gmap string Text) (k : string) : string * Text := (k, default (TStr "") (m !! k)).

Lemma text_entries m : list_to_map (reverse (text_entry m <$> sorted_keys m)) = m.
Proof.
  apply map_eq. intros k. etransitivity; [apply (sorted_entries_lookup (fun t => t) (TStr "") m k)|]. by destruct (m !! k).
Qed.

Lemma dtexts_back m : dtexts (default (EJson JNull) (etexts_omitempty m)) = Some m.
Proof.
  unfold etexts_omitempty. destruct (bool_decide_reflect (m = ∅)) as [->|]; [done|].
  assert (HM : forall l, mapM dentry ((fun k => (k, text_tree (default (TStr "") (m !! k)))) <$> l) = Some (text_entry m <$> l)).
  { induction l as [|k l IH]; [done|]. cbn [fmap list_fmap mapM]. rewrite IH.
    unfold dentry. cbn [snd fst]. by rewrite dtext_tree. }
  transitivity (vs ← mapM dentry ((fun k => (k, text_tree (default (TStr "") (m !! k)))) <$> sorted_keys m);
                Some (list_to_map (reverse vs) : gmap string Text)); [done|].
  rewrite HM. cbn [mbind option_bind]. by rewrite text_entries.
Qed.

Create Rewrite HintDb members_back.
#[export] Hint Rewrite @or_else_none raw_back raw_omitempty_back dstr_back dstr_omitempty_back dbool_back dbool_omitempty_back dstrs_back
  dstrs_omitempty_back dtext_back dtext_omitempty_back draws_back draws_omitempty_back dtexts_back slice_back : members_back.
#[export] Hint Rewrite dint_back dint_omitempty_back duint_back dfloats_back parent_here using done : members_back.

(** Looks the members of a written object up, and reads them. *)
Ltac read_members :=
  unfold get, draw; rewrite ?member_present; cbn [field];
  repeat match goal with
    | |- context [String.eqb (ToLower ?k) ?n] =>
        let b := eval vm_compute in (String.eqb (ToLower k) n) in change (String.eqb (ToLower k) n) with b
    end;
  cbv iota; cbn [or_else]; autorewrite with members_back; cbn [mbind option_bind].

Lemma segment_back g :
  fits_int (Segment_FirstIndex g) = true -> fits_int (Segment_LastIndex g) = true ->
  fits_uint (Segment_FirstSeq g) = true -> fits_uint (Segment_LastSeq g) = true ->
  decode_Segment (encode_Segment g) = Some g.
Proof.
  intros H1 H2 H3 H4. unfold decode_Segment, encode_Segment, eobject. cbn [emembers mbind option_bind]. read_members.
  by destruct g.
Qed.

(** The table of payloads covers every type, and each payload decodes from the
    members it is written as. *)
Lemma newPayload_back d :
  payload_encodes d = true -> payload_fits d = true ->
  exists dec, newPayload (type_string (payload_type d)) = Some dec /\
    (emembers (encode_data d) ≫= dec) = Some (recode_data d).
Proof.
  intros He Hf.
  destruct d as [d|d|d|d|d|d|d|d|d|d|d|d|d|d|d|d|d|d|d|d|d|d|d|d|d|d|d];
    (eexists; split; [reflexivity|]); cbn [payload_encodes payload_fits] in He, Hf; cbv zeta in Hf;
    rewrite ?andb_true_iff in Hf; destruct_and?;
    unfold encode_data, eobject; cbn [emembers mbind option_bind];
    [unfold decode_Started|unfold decode_Forked|unfold decode_Continued|unfold decode_Completed|unfold decode_Failed
    |unfold decode_Cancelled|unfold decode_Entered|unfold decode_Scheduled|unfold decode_NodeDone|unfold decode_NodeFail
    |unfold decode_Interrupted|unfold decode_NodeCancel|unfold decode_Choice|unfold decode_Fanout|unfold decode_Join
    |unfold decode_Await|unfold decode_AwaitTimeout|unfold decode_Signal|unfold decode_SignalUse|unfold decode_Update
    |unfold decode_Map|unfold decode_MapDone|unfold decode_MapAbort|unfold decode_Child|unfold decode_ChildDone
    |unfold decode_Timer|unfold decode_Fired]; read_members.
  all: try by destruct d.
  - change (id ?b) with b. cbn [default dstate mbind option_bind]. change (id ?b) with b. by rewrite segment_back; [destruct d|..].
  - cbn [recode_data]. by rewrite items_back.
Qed.

Lemma recode_type d : payload_type (recode_data d) = payload_type d.
Proof. by destruct d. Qed.

(** An event whose type is that of its payload is decoded as it was written:
    with the current version for none, and nil messages read as null. *)
Lemma Decode_Encode ev b :
  ev_Type ev = payload_type (ev_Data ev) -> (ev_Version ev = 0 \/ ev_Version ev = Version) -> Encode ev = Ok b ->
  Decode b = Ok {|
    ev_Type := ev_Type ev; ev_Version := Version; ev_Time := ev_Time ev; ev_Index := ev_Index ev;
    ev_CmdID := ev_CmdID ev; ev_Trace := ev_Trace ev; ev_Data := recode_data (ev_Data ev); ev_Seq := 0;
    ev_DecisionEnd := false |}.
Proof.
  intros Ht Hv. unfold Encode. destruct (_ && _ && _ && _ && _) eqn:E; [|done]. intros [= <-].
  rewrite !andb_true_iff in E. destruct E as [[[[_ He] _] Hi] Hf].
  destruct (newPayload_back _ He Hf) as (dec & Hn & Hd).
  set (v := if ev_Version ev =? 0 then Version else ev_Version ev).
  assert (v = Version) as -> by (unfold v; destruct Hv as [-> | ->]; done).
  unfold Decode, decode_envelope, eobject. cbn [emembers mbind option_bind]. read_members.
  change (dint (default (EJson JNull) (eint Version))) with (Some Version). cbn [mbind option_bind]. read_members.
  cbn [default]. change (id ?b) with b. cbn [dtime mbind option_bind].
  cbn [env_Type env_Version env_Data env_Time env_Index env_CmdID env_Trace]. rewrite Ht, Hn.
  change (Version =? Version) with true. cbv iota. by rewrite Hd, recode_type.
Qed.

Lemma Encode_unstored ev b : unstored ev -> Encode ev = Ok b -> Decode b = Ok ev.
Proof.
  intros [Hv Ht Hs He Hd] HE. rewrite (Decode_Encode _ _ Ht (or_intror Hv) HE), Hd, <- Hv. destruct ev; simpl in *; by subst.
Qed.

Lemma encode_all_unstored evs raws : Forall unstored evs -> encode_all evs = Ok raws -> decode_all raws = Ok evs.
Proof.
  intros HF. revert raws. induction HF as [|ev evs Hev _ IH]; intros raws; cbn [encode_all].
  { by intros [= <-]. }
  intros (b & Hb & (bs & Hbs & [= <-])%res_bind_ok)%res_bind_ok. cbn [decode_all].
  by rewrite (Encode_unstored _ _ Hev Hb), (IH _ Hbs).
Qed.

Lemma EncodeDecision_unstored evs body h :
  Forall unstored evs -> EncodeDecision evs = Ok (body, h) -> DecodeDecision body = Ok evs.
Proof.
  intros HF. destruct evs as [|ev evs]; [done|]. unfold EncodeDecision.
  intros (raws & Hr & [= <- _])%res_bind_ok. unfold DecodeDecision, SplitDecision.
  pose proof (encode_all_unstored _ _ HF Hr) as HD. destruct raws; [|done]. cbn [encode_all] in Hr. by res_inv.
Qed.

(** *** The headers *)

(** A name without the separator. *)
Definition no_sep (sep : Ascii.ascii) (s : string) : Prop := split_at sep s = [s].

Lemma no_sep_tail sep a s : no_sep sep (String a s) -> Ascii.eqb a sep = false /\ no_sep sep s.
Proof.
  unfold no_sep. cbn [split_at]. destruct (Ascii.eqb a sep); [done|].
  pose proof (split_at_nonempty sep s) as Hne. destruct (split_at sep s) as [|w ws]; [done|].
  intros [= -> ->]. done.
Qed.

Lemma split_at_app sep s rest :
  no_sep sep s -> split_at sep (s +:+ String sep rest) = s :: split_at sep rest.
Proof.
  induction s as [|a s IH].
  - intros _. change (split_at sep (String sep rest) = "" :: split_at sep rest). cbn [split_at].
    by rewrite Ascii.eqb_refl.
  - intros [Ha Hs]%no_sep_tail. change (String a s +:+ String sep rest) with (String a (s +:+ String sep rest)).
    cbn [split_at]. by rewrite Ha, IH.
Qed.

Lemma split_at_join sep names :
  names <> [] -> Forall (no_sep sep) names -> split_at sep (strings_join (String sep "") names) = names.
Proof.
  intros Hne HF. induction HF as [|s names Hs HF IH]; [done|]. destruct names as [|s2 names]; [done|].
  change (strings_join (String sep "") (s :: s2 :: names)) with
    (s +:+ String sep (strings_join (String sep "") (s2 :: names))).
  rewrite (split_at_app sep s _ Hs). by rewrite IH.
Qed.

Lemma type_string_no_sep t : no_sep comma (type_string t).
Proof. by destruct t. Qed.

Lemma EncodeDecision_types evs body h :
  EncodeDecision evs = Ok (body, h) -> Types h = (type_string ∘ ev_Type <$> evs).
Proof.
  intros HE. assert (Hh : exists ev evs', evs = ev :: evs' /\ h_Types h = strings_join "," (type_string ∘ ev_Type <$> evs)).
  { destruct evs as [|ev evs']; [done|]. unfold EncodeDecision in HE. apply res_bind_ok in HE as (raws & _ & HE).
    injection HE as _ <-. by exists ev, evs'. }
  destruct Hh as (ev & evs' & -> & Hh). unfold Types. rewrite Hh.
  assert (HJ : split_at comma (strings_join "," (type_string ∘ ev_Type <$> ev :: evs')) = (type_string ∘ ev_Type <$> ev :: evs')).
  { apply (split_at_join comma); [done|]. apply Forall_fmap, Forall_true. intros. apply type_string_no_sep. }
  destruct (String.eqb_spec (strings_join "," (type_string ∘ ev_Type <$> ev :: evs')) "") as [E|_]; [|done].
  rewrite E in HJ. injection HJ as Hn _. by destruct (ev_Type ev).
Qed.
