(* ===== verification/DecideOps.v ===== *)
(** * Every operation of the decider is a run

    [good d r]: the result [r] of an operation started in [d] is a chain of
    emissions, a legal one when the operation starts in a live and well-formed
    state; and an error is never the model running out of fuel.  The lemmas
    follow the operations of [Decide] one by one. *)

From S2P Require Import Prelude Json Hash Names Expr Flow Event Cmd Reduce State StateFacts View Decide Numbering DecideRun.

Record Pre (d : decider) : Prop := {
  pre_wf : WF (d_st d); pre_live : live d; pre_exists : Exists (d_st d) = true }.

(** No counter is over its budget. *)
Definition within_budget (def : Flow) (s : State) : Prop :=
  forall k b, f_Budget def !! k = Some b -> f_gt (float_at (s_Counters s) k) b = false.

(** An operation leaves the budgets kept, unless it ends the execution. *)
Definition keeps_budget (d d' : decider) : Prop :=
  live d -> within_budget (d_def d) (d_st d) -> live d' -> within_budget (d_def d') (d_st d').

Definition good_if (P : Prop) (d : decider) (r : result decider) : Prop :=
  match r with
  | Ok d' => Inners d d' /\ (P -> Run d d') /\ keeps_budget d d'
  | Err e => e <> OutOfFuel
  end.
Definition good (d : decider) : result decider -> Prop := good_if (Pre d) d.

(** A chain alone, for the operations that go on after a final event. *)
Definition emits_to (d : decider) (r : result decider) : Prop :=
  match r with Ok d' => Inners d d' | Err e => e <> OutOfFuel end.

Lemma good_emits d r : good d r -> emits_to d r.
Proof. destruct r; simpl; tauto. Qed.

Lemma run_Pre d d' : Run d d' -> Pre d -> live d' -> Pre d'.
Proof.
  intros HR [Hw Hl He] Hl'. enough (WF (d_st d') /\ Exists (d_st d') = true) as []; [by constructor|].
  clear Hl Hl'. induction HR as [d|d t data d1 d2 HL Hem _ IH]; [done|].
  destruct (emit_WF _ _ _ _ HL Hw Hem) as (? & ? & _). auto.
Qed.

(** ** Composition *)

Create HintDb decider.

Lemma good_ok d : good d (Ok d).
Proof. split; [constructor|]. split; [constructor|]. by intros ?. Qed.

Lemma good_err d e : e <> OutOfFuel -> good d (Err e).
Proof. done. Qed.

Lemma keeps_budget_trans d d1 d2 :
  (live d -> live d1) -> keeps_budget d d1 -> keeps_budget d1 d2 -> keeps_budget d d2.
Proof. unfold keeps_budget. auto 6. Qed.

(** A first operation after which the execution is live, then the rest. *)
Lemma good_trans d d1 r :
  good d (Ok d1) -> (live d -> live d1) -> good d1 r -> good d r.
Proof.
  intros (H1 & H2 & H3) Hl. destruct r as [d2|e]; simpl; [|done]. intros (H4 & H5 & H6).
  split; [by eapply chain_trans|]. split; [|by eapply keeps_budget_trans].
  intros HP. eapply chain_trans; [by apply H2|]. apply H5.
  eapply run_Pre; [by apply H2|done|]. destruct HP. auto.
Qed.

(** The fold keeps an execution live but on its three final events. *)
Lemma emit_live t data d d' :
  Shaped d t data -> type_terminal t = false -> emit t data d = Ok d' -> live d -> live d'.
Proof.
  intros HS Ht H Hl. destruct (emit_apply _ _ _ _ HS H) as (s & Ha & ->). destruct HS as [-> Hr].
  unfold live. simpl. destruct (finish_frame (emit_event (payload_type data) data d) s) as (x & up & -> & Hx & _).
  change (Terminal x = false). rewrite Hx.
  destruct (sets_status data) eqn:Eq.
  - destruct data; try discriminate; unfold emit_event in Ha; by apply_cases Ha.
  - destruct (apply_quiet _ _ (emit_event (payload_type data) data d) _ Eq Ha) as (-> & _). done.
Qed.

(** The events that add to the counters. *)
Definition spends (data : FoldData) : bool :=
  match data with DNodeDone _ | DNodeFail _ | DInterrupted _ | DChildDone _ => true | _ => false end.

Lemma emit_keeps_budget t data d d' :
  Shaped d t data -> spends data = false -> emit t data d = Ok d' -> keeps_budget d d'.
Proof.
  intros HS Hs H _ Hb _. destruct (emit_apply _ _ _ _ HS H) as (s & Ha & ->). simpl.
  destruct (finish_frame (emit_event t data d) s) as (x & up & -> & _).
  enough (s_Counters s = s_Counters (d_st d)) as E by (unfold within_budget; simpl; by rewrite E).
  destruct HS as [-> Hr], data; try discriminate; unfold emit_event in Ha; by apply_cases Ha.
Qed.

(** What an emission needs, whatever the state, and under [P]. *)
Record may_emit (P : Prop) (t : EventType) (data : FoldData) (d : decider) : Prop := {
  me_inner : Inner d t data;
  me_pre : P -> Pre d;
  me_guard : P -> emission_guard d data }.

Lemma may_emit_run P t data d d1 :
  may_emit P t data d -> emit t data d = Ok d1 -> Inners d d1 /\ (P -> Run d d1).
Proof.
  intros [HS HP Hg] E. split; [by eapply chain_emit; [| |constructor]|]. intros H.
  specialize (Hg H). destruct HS as [-> Hr], (HP H).
  eapply chain_emit; [|done|constructor]. by destruct data; destruct Hr.
Qed.

Lemma may_emit_pre P t data d d1 :
  may_emit P t data d -> type_terminal t = false -> emit t data d = Ok d1 -> P -> Pre d1.
Proof.
  intros HM Ht E H. destruct (may_emit_run _ _ _ _ _ HM E) as [_ HR], HM as [HS%Inner_Shaped HP _].
  eapply run_Pre; [by apply HR|by auto|]. eapply emit_live; eauto using pre_live.
Qed.

Lemma good_emit t data d :
  may_emit (Pre d) t data d -> spends data = false -> good d (emit t data d).
Proof.
  intros HM Hs. destruct (emit t data d) as [d'|e] eqn:E; simpl.
  - destruct (may_emit_run _ _ _ _ _ HM E), HM. eauto using emit_keeps_budget, Inner_Shaped.
  - intros ->. by apply emit_fuel in E.
Qed.

(** An emission, then the rest; [P] is what was known before. *)
Lemma good_emit_then_if (P : Prop) t data d (k : Op) :
  may_emit P t data d -> type_terminal t = false -> spends data = false ->
  (forall d1, emit t data d = Ok d1 -> Inners d d1 -> (P -> Pre d1) -> good_if P d1 (k d1)) ->
  good_if P d (let? d1 := emit t data d in k d1).
Proof.
  intros HM Ht Hs Hk. destruct (emit t data d) as [d1|e] eqn:E; simpl; cycle 1.
  { intros ->. by apply emit_fuel in E. }
  destruct (may_emit_run _ _ _ _ _ HM E) as [H1 H2].
  specialize (Hk d1 eq_refl H1 (may_emit_pre _ _ _ _ _ HM Ht E)).
  destruct (k d1) as [d2|e]; simpl in *; [|done].
  destruct Hk as (H3 & H4 & H5), HM. split; [by eapply chain_trans|].
  split; [eauto using chain_trans|].
  eapply keeps_budget_trans; [eapply emit_live|eapply emit_keeps_budget|]; eauto using Inner_Shaped.
Qed.

Lemma fail_terminal reason msg nd d d1 :
  fail_ reason msg nd d = Ok d1 -> Terminal (s_Status (d_st d1)) = true.
Proof. 
  unfold fail_. intros He. apply emit_apply in He as (s & Ha & ->); [|by split].
  unfold emit_event in Ha. apply_cases Ha. simpl.
  match goal with |- context [finish ?e ?s] => destruct (finish_frame e s) as (? & ? & -> & Hx & _) end.
  simpl in *. done.
Qed.

Lemma fail_good reason msg nd d : good d (fail_ reason msg nd d).
Proof. apply good_emit; [|done]. constructor; [by split|done|by intros]. Qed.

(** An emission that spends, followed by the check of the budgets. *)
Lemma good_spend (P : Prop) t data d (over : decider -> option Text) nd (k : Op) :
  may_emit P t data d -> type_terminal t = false ->
  (forall d1, emit t data d = Ok d1 -> over d1 = None -> within_budget (d_def d) (d_st d) ->
     within_budget (d_def d1) (d_st d1)) ->
  (forall d1, emit t data d = Ok d1 -> Inners d d1 -> (P -> Pre d1) -> good_if P d1 (k d1)) ->
  good_if P d (let? d1 := emit t data d in
    match over d1 with Some o => fail_ ReasonBudget o nd d1 | None => k d1 end).
Proof.
  intros HM Ht Ho Hk. destruct (emit t data d) as [d1|e] eqn:E; simpl; cycle 1.
  { intros ->. by apply emit_fuel in E. }
  destruct (may_emit_run _ _ _ _ _ HM E) as [H1 H2].
  pose proof (may_emit_pre _ _ _ _ _ HM Ht E) as HP1.
  assert (Hl : live d -> live d1) by (destruct HM; eapply emit_live; eauto using Inner_Shaped).
  destruct (over d1) eqn:Eo.
  - pose proof (fail_good ReasonBudget t0 nd d1) as Hf. destruct (fail_ _ _ _ _) as [d2|e] eqn:Ef; [|done].
    destruct Hf as (H3 & H4 & _). split; [by eapply chain_trans|]. split; [eauto using chain_trans|].
    intros _ _ Hl2. apply fail_terminal in Ef. unfold live in Hl2. congruence.
  - specialize (Hk d1 eq_refl H1 HP1). destruct (k d1) as [d2|e]; simpl in *; [|done].
    destruct Hk as (H3 & H4 & H5). split; [by eapply chain_trans|]. split; [eauto using chain_trans|].
    intros Hld Hw. apply H5; eauto.
Qed.

Lemma good_weaken (P : Prop) d r : good d r -> (P -> Pre d) -> good_if P d r.
Proof. destruct r; simpl; [|done]. intros (? & ? & ?). auto. Qed.

Lemma good_emit_then t data d (k : Op) :
  may_emit (Pre d) t data d -> type_terminal t = false -> spends data = false ->
  (forall d1, emit t data d = Ok d1 -> Inners d d1 -> good d1 (k d1)) ->
  good d (let? d1 := emit t data d in k d1).
Proof. intros. apply good_emit_then_if; auto using good_weaken. Qed.

(** A computation that emits nothing. *)
Lemma good_pure {A} d (m : result A) (k : A -> result decider) :
  m <> Err OutOfFuel -> (forall a, m = Ok a -> good d (k a)) -> good d (let? a := m in k a).
Proof. intros Hm Hk. destruct m as [a|e]; simpl; [by apply Hk|]. congruence. Qed.

Lemma emits_pure {A} d (m : result A) (k : A -> result decider) :
  m <> Err OutOfFuel -> (forall a, m = Ok a -> emits_to d (k a)) -> emits_to d (let? a := m in k a).
Proof. intros Hm Hk. destruct m as [a|e]; simpl; [by apply Hk|]. congruence. Qed.

(** A first operation, then the rest unless the execution ended. *)
Lemma good_unless d m (k : Op) :
  good d m -> (forall d1, m = Ok d1 -> Inners d d1 -> live d1 -> good d1 (k d1)) ->
  good d (let? d1 := m in if Terminal (s_Status (d_st d1)) then Ok d1 else k d1).
Proof.
  intros Hm Hk. destruct m as [d1|e]; simpl; [|done].
  destruct (Terminal _) eqn:Et; [done|].
  eapply good_trans; [done|done|]. apply Hk; [done|apply Hm|done].
Qed.

Lemma emits_bind d m (k : Op) :
  emits_to d m -> (forall d1, m = Ok d1 -> Inners d d1 -> emits_to d1 (k d1)) ->
  emits_to d (let? d1 := m in k d1).
Proof.
  intros Hm Hk. destruct m as [d1|e]; simpl; [|done]. specialize (Hk d1 eq_refl Hm).
  destruct (k d1) as [d2|e]; simpl; [|done]. by eapply chain_trans.
Qed.

(** Loops whose body never ends the execution. *)
Definition live_good (d : decider) (r : result decider) : Prop :=
  good d r /\ forall d', r = Ok d' -> live d -> live d'.

Lemma each_good keys (f : string -> Op) d :
  (forall k d, live_good d (f k d)) -> live_good d (each keys f d).
Proof.
  intros Hf. revert d. induction keys as [|k keys IH]; intros d; unfold each; simpl.
  { split; [apply good_ok|]. by intros d' [= <-]. }
  destruct (Hf k d) as [H1 H2]. destruct (f k d) as [d1|e]; simpl; [|done].
  destruct (IH d1) as [H3 H4]. split; [|by eauto].
  eapply good_trans; [done|by apply H2|done].
Qed.

Lemma emits_each keys (f : string -> Op) d :
  (forall k d, emits_to d (f k d)) -> emits_to d (each keys f d).
Proof.
  intros Hf. revert d. induction keys as [|k keys IH]; intros d; unfold each; simpl; [constructor|].
  eapply emits_bind; [apply Hf|]. intros d1 _ _. apply IH.
Qed.

Lemma deref_fuel {A} (o : option A) : deref o <> Err OutOfFuel.
Proof. by destruct o. Qed.

Lemma slice_get_fuel {A} (l : list A) i : slice_get l i <> Err OutOfFuel.
Proof. unfold slice_get. case_decide; [|done]. by case_match. Qed.

Lemma marshal_items_Some l items : marshal_items l = Ok items -> Forall is_Some items.
Proof.
  revert items. induction l as [|x l IH]; intros items; simpl; [intros [= <-]; constructor|].
  destruct (marshal_any x); [|done]. intros (bs & Hb & [= <-])%res_bind_ok. constructor; eauto.
Qed.

Lemma marshal_items_fuel l : marshal_items l <> Err OutOfFuel.
Proof.
  induction l as [|x l IH]; simpl; [done|]. case_match; [|done].
  destruct (marshal_items l); simpl; congruence.
Qed.

Lemma CheckWrites_fuel def st w : CheckWrites def st w <> Err OutOfFuel.
Proof.
  apply res_fold_fuel. intros _ name. case_match; [|done].
  pose proof (Reduce_fuel (ReducerOrDefault c) (raw_at (s_Channels st) name) (raw_at w name)).
  by destruct (Reduce _ _ _) as [?|[]].
Qed.

#[export] Hint Resolve good_ok deref_fuel slice_get_fuel marshal_items_fuel CheckWrites_fuel emit_fuel : decider.
#[export] Hint Extern 1 (Err _ <> Err OutOfFuel) => discriminate : decider.
#[export] Hint Extern 1 (good _ (Err _)) => apply good_err; discriminate : decider.

(** One step through the code of an operation. *)
Ltac good_step :=
  cbv beta zeta;
  match goal with
  | |- good _ (Ok _) => apply good_ok
  | |- good _ (Err _) => apply good_err; discriminate
  | |- good _ (invalid _) => apply good_err
  | |- good _ (emit _ _ _) => apply good_emit; [constructor; [by split|done|try (by intros ?)]|reflexivity]
  | |- good _ (res_bind (emit _ _ _) _) =>
      apply good_emit_then; [constructor; [by split|done|try (by intros ?)]|reflexivity|reflexivity|
        let d1 := fresh "d" in let He := fresh "He" in let Hs := fresh "Hs" in intros d1 He Hs]
  | |- good _ (res_bind (deref _) _) => apply good_pure; [apply deref_fuel|intros ? ?]
  | |- good _ (res_bind (slice_get _ _) _) => apply good_pure; [apply slice_get_fuel|intros ? ?]
  | |- good _ (match ?x with _ => _ end) => destruct x eqn:?
  | |- good _ (if ?x then _ else _) => destruct x eqn:?
  end.

(** Substitute the state after [He : emit t data d = Ok d1], branch by branch. *)
Ltac emit_frame He :=
  let s := fresh "s" in let Ha := fresh "Ha" in
  apply emit_apply in He as (s & Ha & ->); [|by split];
  unfold emit_event in Ha; apply_cases Ha; cbn [d_st set_d_out set_d_st];
  repeat match goal with
  | |- context [finish ?e ?s] => 
      let E := fresh in destruct (finish_frame e s) as (? & ? & E & _); rewrite E; clear E
  end.

Ltac good_steps := repeat good_step; eauto with decider.

(** ** The operations that end in one emission *)

Lemma cancel_good p d : good d (cancel p d).
Proof. unfold cancel. good_steps. Qed.

Lemma timerAt_good purpose after key nd gen attempt d : good d (timerAt purpose after key nd gen attempt d).
Proof. unfold timerAt. good_steps. Qed.
#[export] Hint Resolve fail_good cancel_good timerAt_good : decider.

(** The first attempt of a fresh generation, or the next attempt of a generation
    that waits for it. *)
Definition may_schedule (s : State) (key : string) (gen attempt : Z) : Prop :=
  gen = 0 /\ attempt = 1 \/
  gen <> 0 /\ exists t, s_Tasks s !! key = Some t /\ t_Generation t = gen /\
    attempt = t_Attempt t + 1 /\ t_Status t = TaskRetrying.

Lemma schedule_good_if (P : Prop) n key owner index item rs gen attempt d :
  (P -> Pre d) -> (P -> may_schedule (d_st d) key gen attempt) ->
  good_if P d (schedule n key owner index item rs gen attempt d).
Proof.
  intros HP Hm. unfold schedule. cbv zeta. apply good_emit_then_if; [constructor; [by split|done|]|reflexivity|reflexivity|].
  - intros [[-> ->]|[Hg Ht]]%Hm; [by left|]. right. simpl.
    apply Z.eqb_neq in Hg. by rewrite Hg.
  - intros d1 _ _ HP1. apply good_weaken; [|done]. good_steps.
Qed.

Lemma schedule_good n key owner index item rs d : good d (schedule n key owner index item rs 0 1 d).
Proof. apply schedule_good_if; [done|]. by left. Qed.
#[export] Hint Resolve schedule_good : decider.

Section Ops.
Context `{Evaluator}.

Lemma startChild_good n key owner index item d : good d (startChild n key owner index item d).
Proof.
  unfold startChild. cbv zeta. case_match; [apply fail_good|].
  destruct (isObject _) eqn:E; simpl; [|apply fail_good]. good_steps.
Qed.

Lemma complete0_good d : good d (complete0 d).
Proof. unfold complete0. good_steps. Qed.
#[local] Hint Resolve startChild_good complete0_good : decider.

(** ** Routing

    [bound] bounds the steps left wherever the recursive call is used. *)
Section Routing.
Context (enter : string -> Op) (bound : nat).
Context (Henter : forall id d, (steps_left d < bound)%nat -> good d (enter id d)).

(** Emissions never give steps back. *)
Lemma steps_left_emits d d1 : Inners d d1 -> (steps_left d1 <= steps_left d)%nat.
Proof. intros (H1 & _ & H2)%inners_emits%emits_grows. unfold steps_left. rewrite H2. lia. Qed.

Lemma bound_emits d d1 : Inners d d1 -> (steps_left d < bound)%nat -> (steps_left d1 < bound)%nat.
Proof. intros Hd%steps_left_emits. lia. Qed.
#[local] Hint Resolve Henter bound_emits : decider.

Lemma advance_good n dyn d : (steps_left d < bound)%nat -> good d (advance enter n dyn d).
Proof. intros. unfold advance. good_steps. Qed.
#[local] Hint Resolve advance_good : decider.

Lemma route_good n rule to d : (steps_left d < bound)%nat -> good d (route_ enter n rule to d).
Proof. intros. unfold route_. good_steps. Qed.
#[local] Hint Resolve route_good : decider.

Lemma choose_good n d : (steps_left d < bound)%nat -> good d (choose enter n d).
Proof.
  intros Hb. unfold choose. generalize (Env (d_st d) None) as env, 0 as i, (-1) as def.
  induction (n_Rules n) as [|r rest IH]; intros env i def; simpl; good_steps.
Qed.

Lemma fan_branches_good n branches d : good d (fan_branches n branches d).
Proof.
  revert d. induction branches as [|b rest IH]; intros d; simpl; [apply good_ok|].
  do 2 good_step. apply good_unless; [|by eauto]. destruct (String.eqb _ _); eauto with decider.
Qed.
#[local] Hint Resolve fan_branches_good : decider.

Lemma fanout_good n d : good d (fanout n d).
Proof. unfold fanout. good_steps. Qed.

Lemma consume_good n d : (steps_left d < bound)%nat -> good d (consume enter n d).
Proof. intros. unfold consume. good_steps. Qed.
#[local] Hint Resolve consume_good : decider.

(** The timer of an await has the number allocated before the await is recorded. *)
Lemma emit_await_N d d1 x : emit AwaitStarted (DAwait x) d = Ok d1 -> s_N (d_st d1) = s_N (d_st d).
Proof. intros He. emit_frame He. done. Qed.

Lemma await_good n d : (steps_left d < bound)%nat -> good d (await enter n d).
Proof.
  intros. unfold await. good_steps. intros _. simpl. apply emit_await_N in He. unfold alloc.
  split; [lia|done].
Qed.

(** *** The scheduling loop of a map *)

Lemma emit_timer_Maps d d1 x : emit TimerScheduled (DTimer x) d = Ok d1 -> s_Maps (d_st d1) = s_Maps (d_st d).
Proof. intros He. emit_frame He. done. Qed.

(** Scheduling or starting the next item of map [n] moves its cursor by one. *)
Definition next_item (n : Node) (i : Z) (m : MapRun) (d1 : decider) : Prop :=
  s_Maps (d_st d1) !! n_ID n = Some (set_m_Next (i + 1) m).

Lemma schedule_next n key i item rs m d d1 :
  s_Maps (d_st d) !! n_ID n = Some m -> m_Next m = i ->
  schedule n key (n_ID n) i item rs 0 1 d = Ok d1 -> next_item n i m d1.
Proof.
  intros Hm Hi H1. unfold schedule in H1. cbv zeta in H1. apply res_bind_ok in H1 as (d0 & He & H1).
  assert (H0 : next_item n i m d0).
  { clear H1. unfold next_item. emit_frame He; unfold item_map in *; simpl in *;
      rewrite String.eqb_refl in *; simplify_eq; simpl; rewrite lookup_insert_eq; do 2 f_equal; lia. }
  unfold next_item in *. destruct (0 <? _); [|by injection H1 as <-].
  unfold timerAt in H1. apply emit_timer_Maps in H1. by rewrite H1.
Qed.

Lemma startChild_next n key i item m d d1 :
  s_Maps (d_st d) !! n_ID n = Some m -> m_Next m = i ->
  startChild n key (n_ID n) i item d = Ok d1 -> live d1 -> next_item n i m d1.
Proof.
  intros Hm Hi H1 Hl. unfold live in Hl. unfold startChild in H1. cbv zeta in H1.
  case_match; [apply fail_terminal in H1; congruence|].
  destruct (negb _); [apply fail_terminal in H1; congruence|]. clear Hl.
  unfold next_item. emit_frame H1; unfold item_map in *; simpl in *;
    rewrite String.eqb_refl in *; simplify_eq; simpl; rewrite lookup_insert_eq; do 2 f_equal; lia.
Qed.

Lemma map_loop_good fuel n d :
  (forall m, s_Maps (d_st d) !! n_ID n = Some m ->
    len (m_Items m) - m_Next m < Z.of_nat fuel \/ m_Next m < 0 /\ fuel <> O) ->
  good d (map_loop fuel n d).
Proof.
  revert d. induction fuel as [|fuel IH]; intros d Hf; simpl; good_step; 
    (destruct (s_Maps _ !! _) as [m|] eqn:Em; simplify_eq/=);
    (destruct (_ && _) eqn:Ec; [|apply good_ok]); apply andb_true_iff in Ec as [Ec _];
    (specialize (Hf _ eq_refl)); [exfalso; lia|].
  destruct (slice_get (m_Items _) _) as [item|e] eqn:Ei; [|by intros ->; apply slice_get_fuel in Ei].
  assert (0 <= m_Next a) by (unfold slice_get in Ei; case_decide; done).
  simpl. apply good_unless; [destruct (negb _); eauto with decider|]. intros d1 H1 _ Hl.
  assert (Hn : next_item n (m_Next a) a d1).
  { destruct (negb _); [eapply startChild_next|eapply schedule_next]; eauto. }
  apply IH. intros m1 Hm1. unfold next_item in Hn. simplify_eq. simpl. lia.
Qed.

Lemma mapProgress_good n d : (steps_left d < bound)%nat -> good d (mapProgress enter n d).
Proof.
  intros. unfold mapProgress. good_steps. apply map_loop_good. intros m Hm.
  unfold deref in *. case_match; simplify_eq. unfold len.
  destruct (decide (m_Next a < 0)); [right|left]; lia.
Qed.
#[local] Hint Resolve mapProgress_good choose_good fanout_good await_good : decider.

Lemma mapStart_good n d : (steps_left d < bound)%nat -> good d (mapStart enter n d).
Proof.
  intros. unfold mapStart. good_steps;
    (apply good_pure; [apply marshal_items_fuel|intros ? ?%marshal_items_Some]); good_steps.
Qed.
End Routing.

(** *** Entering a node: the fuel is enough *)

Lemma enter_body_good enter bound id d :
  (forall id d, (steps_left d < bound)%nat -> good d (enter id d)) ->
  (steps_left d <= bound)%nat -> good d (enter_body enter id d).
Proof.
  intros Henter Hb. unfold enter_body. case_match; [|apply fail_good].
  destruct (_ <? _) eqn:Es; [apply fail_good|]. good_step.
  assert (Hb1 : (steps_left d0 < bound)%nat).
  { apply emit_grows in He as (H1 & _ & H2); [|by split]. unfold steps_left in *. rewrite H2. lia. }
  repeat (case_match; [eauto using choose_good, fanout_good, await_good, mapStart_good with decider|]).
  apply fail_good.
Qed.

Lemma enter_fuel_good fuel id d : (steps_left d < fuel)%nat -> good d (enter_fuel fuel id d).
Proof.
  revert id d. induction fuel as [|fuel IH]; intros id d Hb; simpl; [lia|].
  eapply enter_body_good; [apply IH|lia].
Qed.

Lemma enter_good id d : good d (enter id d).
Proof. apply enter_fuel_good. lia. Qed.

Lemma advance_good' n dyn d : good d (advance enter n dyn d).
Proof. apply (advance_good enter (S (steps_left d))); [|lia]. intros. apply enter_good. Qed.

Lemma await_good' n d : good d (await enter n d).
Proof. apply (await_good enter (S (steps_left d))); [|lia]. intros. apply enter_good. Qed.

Lemma consume_good' n d : good d (consume enter n d).
Proof. apply (consume_good enter (S (steps_left d))); [|lia]. intros. apply enter_good. Qed.

Lemma mapProgress_good' n d : good d (mapProgress enter n d).
Proof. apply (mapProgress_good enter (S (steps_left d))); [|lia]. intros. apply enter_good. Qed.
#[local] Hint Resolve enter_good advance_good' consume_good' mapProgress_good' : decider.

(** ** Joins and maps that close *)

(** Cancelling instances that exist. *)
Lemma cancel_tasks_good keys owner reason d :
  live_good d (each keys (fun k d =>
    let? t := deref (s_Tasks (d_st d) !! k) in
    if String.eqb (t_Owner t) owner then
      emit NodeCancelled (DNodeCancel {|
        NodeCancel_Key := k; NodeCancel_Node := t_Node t; NodeCancel_Reason := reason |}) d
    else Ok d) d).
Proof.
  apply each_good. clear d. intros k d. destruct (s_Tasks _ !! k) as [t|] eqn:Ek; simpl; [|done].
  destruct (String.eqb _ _).
  - split; [good_step; intros _; simpl; eauto|]. intros d'. by apply emit_live.
  - split; [apply good_ok|]. by intros d' [= <-].
Qed.

Lemma live_good_then d m (k : Op) :
  live_good d m -> (forall d1, good d1 (k d1)) -> good d (let? d1 := m in k d1).
Proof. intros [Hm Hl] Hk. destruct m as [d1|e]; simpl; [|done]. eapply good_trans; eauto. Qed.

Lemma closeJoin_good fan join succ failed ok d : good d (closeJoin fan join succ failed ok d).
Proof. unfold closeJoin. cbv zeta. apply live_good_then; [apply cancel_tasks_good|]. intros. good_steps. Qed.

Lemma evalJoin_good fan d : good d (evalJoin fan d).
Proof. unfold evalJoin. good_steps. apply closeJoin_good. Qed.

Lemma abortMap_good n index d : good d (abortMap n index d).
Proof. unfold abortMap. cbv zeta. apply live_good_then; [apply cancel_tasks_good|]. intros. good_steps. Qed.
#[local] Hint Resolve evalJoin_good abortMap_good : decider.

(** ** Settling tasks *)

Lemma afterSettle_good t n dyn d : good d (afterSettle t n dyn d).
Proof. unfold afterSettle. good_steps. Qed.
#[local] Hint Resolve afterSettle_good : decider.

(** The reference of an attempt that is scheduled. *)
Definition is_scheduled (s : State) (t : Task) : Prop :=
  s_Tasks s !! t_Key t = Some t /\ t_Status t = TaskScheduled.

Lemma current_scheduled ref d t :
  current ref [TaskScheduled] d = Some t -> Pre d -> is_scheduled (d_st d) t.
Proof.
  unfold current. intros Hc [[Hn _ _] _ _]. case_match eqn:E; [|done].
  destruct (_ || _); [done|]. destruct (bool_decide _) eqn:Eb; [|done]. simplify_eq.
  apply bool_decide_eq_true, list_elem_of_singleton in Eb.
  split; [|done]. by rewrite (wf_task_key _ _ _ Hn E).
Qed.

Lemma emit_retry_task x d d1 t :
  emit NodeFailed (DNodeFail x) d = Ok d1 -> NodeFail_WillRetry x = true ->
  s_Tasks (d_st d) !! NodeFail_Key x = Some t ->
  s_Tasks (d_st d1) !! NodeFail_Key x = Some (set_t_Status TaskRetrying t).
Proof.
  intros He Hw Ht. emit_frame He; simplify_eq; try congruence; simpl; by rewrite lookup_insert_eq.
Qed.

(** *** Budgets *)

Lemma first_over_None d usage keys :
  first_over d usage keys = None <->
  forall k, k ∈ keys -> f_gt (f_add (float_at (s_Counters (d_st d)) k) (float_at usage k))
                             (float_at (f_Budget (d_def d)) k) = false.
Proof.
  induction keys as [|k keys IH]; simpl.
  { split; [intros _ k Hk; by apply elem_of_nil in Hk|done]. }
  destruct (f_gt _ _) eqn:E.
  - split; [done|]. intros Hk. specialize (Hk k). rewrite E in Hk. by specialize (Hk ltac:(by left)).
  - rewrite IH. split.
    + intros Hk j [->|Hj]%elem_of_cons; auto.
    + intros Hk j Hj. apply Hk. by right.
Qed.

Lemma overBudgetWith_None usage d :
  overBudgetWith usage d = None <->
  forall k b, f_Budget (d_def d) !! k = Some b ->
    f_gt (f_add (float_at (s_Counters (d_st d)) k) (float_at usage k)) b = false.
Proof.
  unfold overBudgetWith. rewrite first_over_None. split; intros Hk.
  - intros k b Hb. specialize (Hk k). unfold float_at at 3 in Hk. rewrite Hb in Hk.
    apply Hk, elem_of_sorted_keys. eauto.
  - intros k [b Hb]%elem_of_sorted_keys. unfold float_at at 3. rewrite Hb. by apply Hk.
Qed.

(** Without usage, the check is the invariant. *)
Lemma overBudget_None d : overBudget d = None <-> within_budget (d_def d) (d_st d).
Proof.
  unfold overBudget. rewrite overBudgetWith_None. unfold within_budget, float_at at 2.
  setoid_rewrite lookup_empty. simpl. by setoid_rewrite f_gt_add_zero.
Qed.

Lemma add_counters_at c u k :
  float_at (add_counters c u) k = match u !! k with Some v => f_add (float_at c k) v | None => float_at c k end.
Proof. unfold float_at, add_counters. rewrite lookup_merge. by destruct (c !! k), (u !! k). Qed.

(** The check made before a failure is recorded covers the usage it records. *)
Lemma emit_fail_budget x d d1 :
  emit NodeFailed (DNodeFail x) d = Ok d1 -> overBudgetWith (NodeFail_Usage x) d = None ->
  within_budget (d_def d) (d_st d) -> within_budget (d_def d1) (d_st d1).
Proof.
  intros He Ho Hw.
  assert (Hc : s_Counters (d_st d1) = s_Counters (d_st d) \/
               s_Counters (d_st d1) = add_counters (s_Counters (d_st d)) (NodeFail_Usage x)).
  { clear Ho Hw. emit_frame He; simpl; auto. }
  apply emit_inv in He as (st & _ & ->). simpl in *.
  destruct Hc as [Hc|Hc]; unfold within_budget; simpl; rewrite Hc; [done|]. intros k b Hb.
  rewrite add_counters_at. specialize (Hw k b Hb).
  rewrite overBudgetWith_None in Ho. specialize (Ho k b Hb). revert Ho. unfold float_at at 2.
  destruct (NodeFail_Usage x !! k); [done|]. simpl. by rewrite f_gt_add_zero.
Qed.

(** ** Settling tasks *)

Lemma taskFailed_good tc msg retryable reason usage d :
  (Pre d -> is_scheduled (d_st d) tc) -> good d (taskFailed tc msg retryable reason usage d).
Proof.
  intros Ht. unfold taskFailed. good_step.
  apply (good_spend _ _ _ _ (fun _ => overBudgetWith usage d)).
  - constructor; [by split|done|]. intros [H1 H2]%Ht. exists tc. by repeat split.
  - reflexivity.
  - intros d1 He Ho. by apply (emit_fail_budget _ _ _ He).
  - intros d1 He Hs HP. destruct (_ && _) eqn:Ew; [destruct (_ <=? 0)|]; cycle 1.
    1, 2: apply good_weaken; [|done]; good_steps.
    apply schedule_good_if; [done|]. intros HPd. destruct (Ht HPd) as [Hk Hst]. right. split.
    + destruct HPd as [[Hn _ _] _ _]. apply (wf_task_gen _ _ _ Hn) in Hk. lia.
    + eexists. split; [by eapply (emit_retry_task _ _ _ _ He)|done].
Qed.

(** The usual check: emit, then compare the counters. *)
Lemma good_spend_check t data d nd (k : Op) :
  may_emit (Pre d) t data d -> type_terminal t = false ->
  (forall d1, good d1 (k d1)) ->
  good d (let? d1 := emit t data d in
    match overBudget d1 with Some o => fail_ ReasonBudget o nd d1 | None => k d1 end).
Proof.
  intros HM Ht Hk. apply good_spend; [done|done| |].
  - intros d1 _ Ho _. by apply overBudget_None.
  - intros d1 _ _ HP. by apply good_weaken.
Qed.

Lemma complete_good p d : written (CompleteData_Writes p) -> good d (complete p d).
Proof.
  intros Hwr. unfold complete. case_match eqn:Ec; [|apply good_ok].
  good_step. cbv zeta. apply good_pure.
  { unfold checkCompletion. pose proof (CheckWrites_fuel (d_def d) (d_st d) (CompleteData_Writes p)).
    repeat (case_match; try done). }
  intros [[problem retryable]|] _; [apply taskFailed_good; eauto using current_scheduled|].
  apply good_spend_check; [|done|by good_steps].
  constructor; [by split|done|]. intros HP.
  destruct (current_scheduled _ _ _ Ec HP) as [Hk Hst]. split; [|done]. eexists. by repeat split.
Qed.

Lemma failTask_good p d : good d (failTask p d).
Proof.
  unfold failTask. case_match eqn:Ec; [|apply good_ok].
  apply taskFailed_good. eauto using current_scheduled.
Qed.

Lemma interrupt_good p d : good d (interrupt p d).
Proof.
  unfold interrupt. case_match eqn:Ec; [|apply good_ok].
  apply good_spend_check; [|done|by good_steps]. constructor; [by split|done|].
  intros HP. destruct (current_scheduled _ _ _ Ec HP) as [Hk Hst]. eexists _, _. by repeat split.
Qed.

Lemma resume_good p d : good d (resume p d).
Proof. unfold resume. good_steps. Qed.

(** ** Timers, signals, children, updates *)

Lemma awaitTimeout_good tm d : good d (awaitTimeout tm d).
Proof. unfold awaitTimeout. good_steps. Qed.
#[local] Hint Resolve awaitTimeout_good : decider.

Lemma timer_good p d : good d (timer p d).
Proof.
  unfold timer. good_step; [|apply good_ok]. good_step.
  destruct (String.eqb _ TimerRetry).
  - destruct (s_Tasks _ !! _) as [t0|] eqn:Et; [|apply good_ok].
    destruct (negb _ || negb _ || negb _) eqn:Eb; [apply good_ok|]. good_step.
    rewrite !orb_false_iff, !negb_false_iff, !Z.eqb_eq, bool_decide_eq_true in Eb.
    destruct Eb as [[Hg Hr] Ha].
    apply schedule_good_if; [done|]. intros [[Hn _ _] _ _]. right.
    split; [apply (wf_task_gen _ _ _ Hn) in Et; lia|]. exists t0. rewrite (wf_task_key _ _ _ Hn Et). repeat split; try done. lia.
  - destruct (String.eqb _ TimerTimeout).
    + case_match eqn:Ec; [|apply good_ok]. apply taskFailed_good. eauto using current_scheduled.
    + good_steps.
Qed.

Lemma childDone_good p d : good d (childDone p d).
Proof.
  unfold childDone. case_match; [|apply good_ok]. destruct p0 as [key cc]. cbv zeta.
  apply good_spend_check; [constructor; [by split|done|by intros ?]|done|]. intros d1. good_steps.
Qed.

(** *** Operations that record an input first *)

(** [good], with an input recorded first. *)
Definition fine (d : decider) (r : result decider) : Prop :=
  match r with
  | Ok d' => Steadies d d' /\ (Pre d -> Run d d') /\ keeps_budget d d'
  | Err e => e <> OutOfFuel
  end.

Lemma good_fine d r : good d r -> fine d r.
Proof. destruct r; simpl; [|done]. intros (? & ? & ?). eauto using inners_steady. Qed.

Lemma fine_input t data d (k : Op) :
  t = payload_type data ->
  match data with DSignal _ => True | DUpdate x => written (Update_Writes x) | _ => False end ->
  (forall d1, emit t data d = Ok d1 -> good d1 (k d1)) -> fine d (let? d1 := emit t data d in k d1).
Proof.
  intros -> Hd Hk. assert (HS : Shaped d (payload_type data) data) by (by destruct data).
  assert (Hsp : spends data = false) by (by destruct data).
  destruct (emit _ data d) as [d1|e] eqn:E; simpl; [|intros ->; by apply emit_fuel in E].
  assert (Hl : live d -> live d1) by (eapply emit_live; eauto; by destruct data).
  specialize (Hk d1 eq_refl). destruct (k d1) as [d2|e]; simpl in *; [|done]. destruct Hk as (H1 & H2 & H3).
  split; [eapply chain_emit; [|done|by apply inners_steady]; split; [by split; [|destruct data]|by destruct data]|]. split.
  - intros HP. assert (HL : Legal d (payload_type data) data).
    { destruct HP. split; [done|]. by destruct data. }
    eapply chain_emit; [done|done|]. apply H2. destruct HP as [Hw Hlv Ex].
    destruct (emit_WF _ _ _ _ HL Hw E) as (? & ? & _). constructor; auto.
  - eapply keeps_budget_trans; [done|by eapply emit_keeps_budget|done].
Qed.

Lemma signal_fine p d : fine d (signal p d).
Proof.
  unfold signal, invalid. case_match; [done|]. case_match; [apply good_fine, good_ok|].
  apply fine_input; [done|done|]. intros d1 _. good_steps.
Qed.

Lemma update_fine writes d : written writes -> fine d (update writes d).
Proof.
  intros Hw. unfold update, invalid. pose proof (CheckWrites_fuel (d_def d) (d_st d) writes).
  case_match; [done|]. case_match; [apply good_fine, good_ok|]. case_match; cycle 1.
  { destruct e; simpl; congruence. }
  pose proof (fine_input ChannelsUpdated (DUpdate {| Update_ID := d_cmdID d; Update_Writes := writes |}) d
    (fun d1 => Ok d1) eq_refl Hw (fun d1 _ => good_ok d1)) as HF.
  by destruct (emit _ _ _).
Qed.

(** ** Commands *)

Lemma raw_map_written j w : raw_map j = Some w -> written w.
Proof.
  unfold raw_map. destruct (unmarshal_map j) as [[m|]|]; [| |done]; intros [= <-]; [|apply map_Forall_empty].
  intros k r. rewrite lookup_fmap. destruct (m !! k); simpl; [|done]. intros [= <-]. eauto.
Qed.

Lemma decode_CompleteData_written j p : decode_CompleteData j = Some p -> written (CompleteData_Writes p).
Proof.
  unfold decode_CompleteData. intros (kvs & _ & (r & _ & (w & Hw & Hp)%bind_Some)%bind_Some)%bind_Some.
  apply raw_map_written in Hw. repeat (apply bind_Some in Hp as (? & _ & Hp)). by injection Hp as <-.
Qed.

Lemma decode_UpdateData_written j p : decode_UpdateData j = Some p -> written (UpdateData_Writes p).
Proof.
  unfold decode_UpdateData. intros (kvs & _ & (w & Hw & [= <-])%bind_Some)%bind_Some.
  by eapply raw_map_written.
Qed.

Lemma decode_fine {P} c (dec : Json -> option P) (fn : P -> Op) d :
  (forall j p, dec j = Some p -> fine d (fn p d)) -> fine d (decode c dec fn d).
Proof. intros Hf. unfold decode, Payload. destruct (dec _) eqn:E; [by eapply Hf|done]. Qed.

Lemma dispatch_fine c d : fine d (dispatch c d).
Proof.
  unfold dispatch. case_match; try done; apply decode_fine; intros;
    eauto using good_fine, complete_good, failTask_good, interrupt_good, resume_good, signal_fine, cancel_good,
      timer_good, childDone_good, update_fine, decode_CompleteData_written, decode_UpdateData_written.
Qed.
End Ops.

(** ** The recursion through [enter]

    The model bounds the recursion of [enter] by the steps left.  Here the bound
    disappears: [enter] satisfies the equation of the code, and never runs out
    of fuel. *)

(** [r1 ⊑ r2]: the same result, unless [r1] ran out of fuel. *)
Definition less_fuel {A} (r1 r2 : result A) : Prop := r1 = Err OutOfFuel \/ r1 = r2.
Infix "⊑f" := less_fuel (at level 70).

#[export] Instance less_fuel_preorder {A} : PreOrder (@less_fuel A).
Proof. split; [by right|]. intros a b c [-> | ->] [-> | ->]; first [by left|by right]. Qed.

Lemma less_fuel_bind {A B} (m : result A) (k1 k2 : A -> result B) :
  (forall a, k1 a ⊑f k2 a) -> (let? a := m in k1 a) ⊑f (let? a := m in k2 a).
Proof. intros Hk. destruct m; simpl; [apply Hk|reflexivity]. Qed.

Lemma less_fuel_eq {A} (r1 r2 : result A) : r1 ⊑f r2 -> r1 <> Err OutOfFuel -> r1 = r2.
Proof. by intros [-> | ->]. Qed.

Ltac mono :=
  repeat (cbv beta zeta;
  match goal with
  | |- ?r ⊑f ?r => reflexivity
  | He : forall id d, _ ⊑f _ |- _ ⊑f _ => apply He
  | |- res_bind ?m _ ⊑f res_bind ?m _ => apply less_fuel_bind; intros ?
  | |- match ?x with _ => _ end ⊑f match ?x with _ => _ end => destruct x
  | |- (if ?x then _ else _) ⊑f (if ?x then _ else _) => destruct x
  end).

Section Enter.
Context `{Evaluator}.

Section Mono.
Context (e1 e2 : string -> Op) (He : forall id d, e1 id d ⊑f e2 id d).

Lemma choose_mono n d : choose e1 n d ⊑f choose e2 n d.
Proof.
  unfold choose. generalize (Env (d_st d) None) as env, 0 as i, (-1) as def.
  induction (n_Rules n) as [|r rest IH]; intros env i def; simpl; unfold route_; mono; apply IH.
Qed.

Lemma await_mono n d : await e1 n d ⊑f await e2 n d.
Proof. unfold await, consume, advance. mono. Qed.

Lemma mapStart_mono n d : mapStart e1 n d ⊑f mapStart e2 n d.
Proof. unfold mapStart, mapProgress, advance. mono. Qed.

Lemma enter_body_mono id d : enter_body e1 id d ⊑f enter_body e2 id d.
Proof. unfold enter_body. mono; auto using choose_mono, await_mono, mapStart_mono. Qed.
End Mono.

Lemma enter_fuel_mono f g id d : (f <= g)%nat -> enter_fuel f id d ⊑f enter_fuel g id d.
Proof.
  revert g id d. induction f as [|f IH]; intros g id d Hg; [by left|].
  destruct g as [|g]; [lia|]. simpl. apply enter_body_mono. intros. apply IH. lia.
Qed.

Lemma enter_no_fuel id d : enter id d <> Err OutOfFuel.
Proof. pose proof (enter_good id d) as HG. destruct (enter id d); simpl in *; congruence. Qed.

(** Any amount of fuel computes at most what [enter] computes. *)
Lemma enter_fuel_enter f id d : enter_fuel f id d ⊑f enter id d.
Proof.
  unfold enter. destruct (decide (f <= S (steps_left d))%nat); [by apply enter_fuel_mono|].
  right. symmetry. apply less_fuel_eq; [apply enter_fuel_mono; lia|apply enter_no_fuel].
Qed.

(** Entering a node satisfies the recursive equation of the code, with
    no bound on the recursion: the fuel of the model is always enough. *)
Theorem enter_equation id d : enter id d = enter_body enter id d /\ enter id d <> Err OutOfFuel.
Proof.
  split; [|apply enter_no_fuel]. apply less_fuel_eq; [|apply enter_no_fuel].
  unfold enter at 1. simpl. apply enter_body_mono. intros. apply enter_fuel_enter.
Qed.
End Enter.
