(* ===== verification/Routing.v ===== *)
(** * Routing: what the operations do

    Functional theorems about the operations of the decider: which rule a choice
    takes, how far a map schedules, what a join leaves behind, when an attempt
    is retried. *)

From S2P Require Import Prelude Json Hash Names Expr Flow Event Cmd Reduce State StateFacts View.
From S2P Require Import Decide Numbering DecideRun DecideOps.

Section Routing.
Context `{Evaluator}.

(** ** Choices *)

Section Choice.
Context (n : Node) (env : VEnv).

(** Rule [i] is skipped: a default, a false condition, or an error the node
    tolerates. *)
Definition skipped (i : nat) (r : Rule) : Prop :=
  ru_Default r = true \/
  exists p, RulePrograms n !! i = Some (Some p) /\
    (match_ p env = inr false \/ (exists err, match_ p env = inl err) /\ n_OnError n <> OnErrorFail).

(** Rule [i] applies. *)
Definition applies (i : nat) (r : Rule) : Prop :=
  ru_Default r = false /\ exists p, RulePrograms n !! i = Some (Some p) /\ match_ p env = inr true.

(** Rule [i] fails and the node does not tolerate it. *)
Definition errs (i : nat) (r : Rule) (err : Text) : Prop :=
  ru_Default r = false /\ n_OnError n = OnErrorFail /\
  exists p, RulePrograms n !! i = Some (Some p) /\ match_ p env = inl err.

(** The last default among the rules from [i] on, [def] if there is none. *)
Fixpoint last_default (i : Z) (rules : list Rule) (def : Z) : Z :=
  match rules with
  | [] => def
  | r :: rest => last_default (i + 1) rest (if ru_Default r then i else def)
  end.

Lemma slice_get_nat {A} (l : list A) (i : nat) x : l !! i = Some x -> slice_get l (Z.of_nat i) = Ok x.
Proof. intros Hl. unfold slice_get. rewrite decide_True by lia. by rewrite Nat2Z.id, Hl. Qed.

Lemma choose_from_skip enter i pre rest def d :
  (forall j r, pre !! j = Some r -> skipped (i + j) r) ->
  choose_from enter n env (Z.of_nat i) (pre ++ rest) def d =
  choose_from enter n env (Z.of_nat (i + length pre)) rest (last_default (Z.of_nat i) pre def) d.
Proof.
  revert i def. induction pre as [|r pre IH]; intros i def Hs; simpl.
  { by rewrite Nat.add_0_r. }
  assert (Hrec : forall def', choose_from enter n env (Z.of_nat i + 1) (pre ++ rest) def' d =
    choose_from enter n env (Z.of_nat (i + S (length pre))) rest (last_default (Z.of_nat i + 1) pre def') d).
  { intros def'. replace (Z.of_nat i + 1) with (Z.of_nat (S i)) by lia.
    replace (i + S (length pre))%nat with (S i + length pre)%nat by lia. apply IH.
    intros j r' Hj. replace (S i + j)%nat with (i + S j)%nat by lia. by apply Hs. }
  destruct (ru_Default r) eqn:Er; [apply Hrec|].
  destruct (Hs O r eq_refl) as [?|(p & Hp & Hm)]; [congruence|]. rewrite Nat.add_0_r in Hp.
  rewrite (slice_get_nat _ _ _ Hp). simpl. destruct Hm as [->|[(err & ->) Hf]]; [apply Hrec|].
  destruct (String.eqb_spec (n_OnError n) OnErrorFail); [done|]. apply Hrec.
Qed.
End Choice.

(** A choice takes the first rule whose condition holds; a rule whose condition fails
    to evaluate is skipped, unless the node says that errors fail; without any
    rule that applies, it takes the (last) default. *)
Theorem choice_first_match enter n d pre rest :
  n_Rules n = pre ++ rest ->
  (forall i r, pre !! i = Some r -> skipped n (Env (d_st d) None) i r) ->
  match rest with
  | r :: _ =>
      (applies n (Env (d_st d) None) (length pre) r ->
       choose enter n d = route_ enter n (len pre) (ru_To r) d) /\
      (forall err, errs n (Env (d_st d) None) (length pre) r err ->
       choose enter n d =
       let? d1 := emit ChoiceEvaluated (DChoice {|
         Choice_Node := n_ID n; Choice_Rule := len pre; Choice_Name := ru_Name r; Choice_To := "";
         Choice_Error := err |}) d in fail_ ReasonExpression err (n_ID n) d1)
  | [] => forall k r, last_default 0 pre (-1) = Z.of_nat k -> n_Rules n !! k = Some r ->
      choose enter n d = route_ enter n (Z.of_nat k) (ru_To r) d
  end.
Proof.
  intros Hr Hs. unfold choose. rewrite Hr. pose proof (choose_from_skip n (Env (d_st d) None) enter 0 pre rest (-1) d Hs) as Hc.
  change (Z.of_nat 0) with 0 in Hc. cbn [Nat.add] in Hc. fold (len pre) in Hc. destruct rest as [|r rest].
  - intros k r Hk Hl. rewrite Hc, Hk. simpl. rewrite Hr in *. by rewrite (slice_get_nat _ _ _ Hl).
  - rewrite Hc. unfold len. simpl. split.
    + intros (-> & p & Hp & Hm). rewrite (slice_get_nat _ _ _ Hp). simpl. by rewrite Hm.
    + intros err (-> & He & p & Hp & Hm). rewrite (slice_get_nat _ _ _ Hp). simpl. by rewrite Hm, He.
Qed.

(** ** Maps *)

(** The number of items a map may have in flight. *)
Definition map_limit (m : MapRun) : Z := if m_MaxParallel m <=? 0 then DefaultMapParallel else m_MaxParallel m.

Lemma map_loop_next fuel n m d d' :
  s_Maps (d_st d) !! n_ID n = Some m -> map_loop fuel n d = Ok d' -> live d' ->
  s_Maps (d_st d') !! n_ID n =
    Some (set_m_Next (Z.max (m_Next m) (Z.min (len (m_Items m)) (m_Done m + map_limit m))) m).
Proof.
  revert m d. induction fuel as [|fuel IH]; intros m d Hm; simpl; rewrite Hm; simpl; fold (map_limit m).
  - destruct (_ && _) eqn:Ec; [done|]. intros [= <-] _. rewrite Hm. f_equal.
    destruct m; unfold set_m_Next; simpl in *. f_equal.
    apply andb_false_iff in Ec as [Ec%Z.ltb_ge|Ec%Z.ltb_ge]; lia.
  - destruct (_ && _) eqn:Ec.
    + destruct (slice_get _ _) as [item|]; [|done]. simpl.
      intros (d1 & H1 & HT)%res_bind_ok Hl. apply andb_true_iff in Ec as [E1%Z.ltb_lt E2%Z.ltb_lt].
      assert (Hn : live d1 -> next_item n (m_Next m) m d1).
      { intros Hl1. destruct (negb _); [by eapply startChild_next|by eapply schedule_next]. }
      destruct (Terminal (s_Status (d_st d1))) eqn:Et.
      { injection HT as <-. unfold live in Hl. congruence. }
      pose proof (IH _ _ (Hn Et) HT Hl) as ->. f_equal. unfold set_m_Next, map_limit in *. simpl in *. f_equal. lia.
    + intros [= <-] _. rewrite Hm. f_equal.
      destruct m; unfold set_m_Next; simpl in *. f_equal.
      apply andb_false_iff in Ec as [Ec%Z.ltb_ge|Ec%Z.ltb_ge]; lia.
Qed.

(** A map that progresses schedules items in order until all are scheduled or
    [max_parallel] of them (or the default) are in flight: its cursor moves to
    the smaller of the number of items and [Done] plus the limit, and no
    further; nothing else of the run changes. *)
Theorem map_window enter n m d d' :
  s_Maps (d_st d) !! n_ID n = Some m -> m_Done m <> len (m_Items m) ->
  mapProgress enter n d = Ok d' -> Terminal (s_Status (d_st d')) = false ->
  exists m', s_Maps (d_st d') !! n_ID n = Some m' /\
    m_Next m' = Z.max (m_Next m) (Z.min (len (m_Items m)) (m_Done m + map_limit m)) /\
    m_Items m' = m_Items m /\ m_Outputs m' = m_Outputs m /\ m_Done m' = m_Done m.
Proof.
  intros Hm Hd HP Hl. unfold mapProgress in HP. rewrite Hm in HP. cbn [res_bind deref] in HP.
  apply Z.eqb_neq in Hd. rewrite Hd in HP.
  rewrite (map_loop_next _ _ _ _ _ Hm HP Hl). eexists. split; [done|]. done.
Qed.

(** ** Joins *)

(** Nothing of fan-out [fan] is in flight. *)
Definition cleared (fan : string) (s : State) : Prop :=
  s_Fans s !! fan = None /\
  (forall k t, s_Tasks s !! k = Some t -> t_Owner t <> fan) /\
  (forall k c, s_Children s !! k = Some c -> cs_Owner c <> fan).

Lemma emit_cancel_effect x d d1 t :
  emit NodeCancelled (DNodeCancel x) d = Ok d1 -> s_Tasks (d_st d) !! NodeCancel_Key x = Some t ->
  s_Tasks (d_st d1) = delete (NodeCancel_Key x) (s_Tasks (d_st d)) /\
  forall fan, is_Some (s_Fans (d_st d) !! fan) -> is_Some (s_Fans (d_st d1) !! fan).
Proof.
  intros He Ht. split.
  - emit_frame He; simplify_eq; try congruence; done.
  - intros fan Hf. emit_frame He; simplify_eq; try congruence; simpl; [|done].
    destruct (decide (t_Owner t = fan)) as [->|]; [by rewrite lookup_insert_eq|by rewrite lookup_insert_ne].
Qed.

Lemma cancel_tasks_effect owner reason keys d d1 :
  each keys (fun k d =>
    let? t := deref (s_Tasks (d_st d) !! k) in
    if String.eqb (t_Owner t) owner then
      emit NodeCancelled (DNodeCancel {|
        NodeCancel_Key := k; NodeCancel_Node := t_Node t; NodeCancel_Reason := reason |}) d
    else Ok d) d = Ok d1 ->
  s_Tasks (d_st d1) ⊆ s_Tasks (d_st d) /\
  (forall k t, k ∈ keys -> s_Tasks (d_st d1) !! k = Some t -> t_Owner t <> owner) /\
  forall fan, is_Some (s_Fans (d_st d) !! fan) -> is_Some (s_Fans (d_st d1) !! fan).
Proof.
  revert d. induction keys as [|k keys IH]; intros d; unfold each; simpl.
  { intros [= <-]. split; [done|]. split; [|done]. intros k t Hk. by apply elem_of_nil in Hk. }
  destruct (s_Tasks (d_st d) !! k) as [t|] eqn:Ek; [|done]. simpl.
  destruct (String.eqb_spec (t_Owner t) owner) as [Ho|Ho].
  - intros (d0 & He & Hr)%res_bind_ok. destruct (emit_cancel_effect _ _ _ _ He Ek) as [Ht Hf]. simpl in Ht.
    apply IH in Hr as (H1 & H2 & H3). rewrite Ht in H1. split; [|split; [|auto]].
    + etransitivity; [done|apply delete_subseteq].
    + intros k' t' [->|Hk]%elem_of_cons Hl; [|by eapply H2].
      eapply lookup_weaken in Hl; [|done]. by rewrite lookup_delete_eq in Hl.
  - intros Hr. apply IH in Hr as (H1 & H2 & H3). split; [done|]. split; [|done].
    intros k' t' [->|Hk]%elem_of_cons Hl; [|by eapply H2]. eapply lookup_weaken in Hl; [|done].
    rewrite Ek in Hl. by injection Hl as <-.
Qed.

Lemma emit_entered_effect x d d1 :
  emit NodeEntered (DEntered x) d = Ok d1 ->
  s_Tasks (d_st d1) = s_Tasks (d_st d) /\ s_Fans (d_st d1) = s_Fans (d_st d).
Proof. intros He. emit_frame He. done. Qed.

Lemma emit_join_effect x d d1 :
  emit JoinCompleted (DJoin x) d = Ok d1 -> is_Some (s_Fans (d_st d) !! Join_Fanout x) ->
  s_Tasks (d_st d1) = s_Tasks (d_st d) /\
  s_Fans (d_st d1) = delete (Join_Fanout x) (s_Fans (d_st d)) /\
  s_Children (d_st d1) = other_children (Join_Fanout x) (s_Children (d_st d)).
Proof. intros He [f Hf]. emit_frame He; try congruence; done. Qed.

(** When the branches of a fan-out decide its join, nothing of the fan-out outlives it:
    once the join is recorded, no instance and no child of the fan-out is in
    flight, and the fan-out itself is gone; only then does the execution go on.
    Otherwise nothing happens. *)
Theorem join_leaves_nothing fan d d' :
  evalJoin fan d = Ok d' ->
  d' = d \/
  exists x d0 d1, Join_Fanout x = fan /\ Inners d d0 /\ emit JoinCompleted (DJoin x) d0 = Ok d1 /\
    cleared fan (d_st d1) /\ Inners d1 d'.
Proof.
  unfold evalJoin. intros (f & Hf & HT)%res_bind_ok. apply res_bind_ok in HT as (join & _ & HT).
  destruct (s_Fans (d_st d) !! fan) as [f0|] eqn:Ef; [|done].
  destruct (tally _ _) as [[succ failed] pending], (JoinKind join) as [kind q].
  destruct (join_decision _ _ _ _ _) as [ok|]; [|injection HT as <-; by left]. right.
  unfold closeJoin in HT. cbv zeta in HT. apply res_bind_ok in HT as (d2 & H2 & HT).
  destruct (cancel_tasks_good (sorted_keys (s_Tasks (d_st d))) fan "join settled" d) as [HG _].
  rewrite H2 in HG. destruct HG as (HI2 & _).
  apply cancel_tasks_effect in H2 as (Hsub & Hown & Hfan).
  apply res_bind_ok in HT as (d3 & H3 & HT). apply res_bind_ok in HT as (d4 & H4 & HT).
  destruct (emit_entered_effect _ _ _ H3) as [Ht3 Hf3].
  eexists _, d3, d4. split; [|split; [|split; [exact H4|split]]]; [done| | |].
  - eapply chain_trans; [done|]. eapply chain_emit; [|exact H3|constructor]. by split.
  - apply emit_join_effect in H4 as (Ht4 & Hf4 & Hc4); [|simpl; rewrite Hf3; eauto]. simpl in *.
    split; [by rewrite Hf4, lookup_delete_eq|]. split.
    + intros k t. rewrite Ht4, Ht3. intros Hk. eapply Hown; [|done].
      apply elem_of_sorted_keys. eexists. by eapply lookup_weaken.
    + intros k c. rewrite Hc4. by intros [_ Hc]%map_lookup_filter_Some.
  - assert (HG : good d4 (if negb ok then if negb (String.eqb (n_OnFailure join) "") then enter (n_OnFailure join) d4
      else fail_ ReasonJoin (Sprintf "join %q failed: branches %v did not succeed" [AStr (n_ID join); AStrs failed])
        (n_ID join) d4 else advance enter join "" d4)).
    { repeat case_match; eauto using enter_good, fail_good, advance_good'. }
    rewrite HT in HG. apply HG.
Qed.

(** ** Failed attempts *)

(** A failed attempt is retried exactly when the failure is retryable, attempts are left
    and no budget is exceeded; the retry is the next attempt of the same
    generation, scheduled at once when the delay is zero, and otherwise left to
    a timer that fires after the back-off delay. *)
Theorem failed_attempt_retried t msg retryable reason usage d d' n :
  node (d_def d) (t_Node t) = Some n -> taskFailed t msg retryable reason usage d = Ok d' ->
  let willRetry := retryable && (t_Attempt t <? MaxAttempts n) && bool_decide (overBudgetWith usage d = None) in
  exists d1, emit NodeFailed (DNodeFail {|
      NodeFail_Key := t_Key t; NodeFail_Node := t_Node t; NodeFail_Generation := t_Generation t;
      NodeFail_Attempt := t_Attempt t; NodeFail_Error := msg; NodeFail_Reason := reason;
      NodeFail_WillRetry := willRetry; NodeFail_Usage := usage |}) d = Ok d1 /\
    (willRetry = true ->
      if Backoff n (t_Attempt t + 1) <=? 0 then
        schedule n (t_Key t) (t_Owner t) (t_Index t) (t_Item t) (task_resumption t)
          (t_Generation t) (t_Attempt t + 1) d1 = Ok d'
      else exists x, emit TimerScheduled (DTimer x) d1 = Ok d' /\ Timer_Purpose x = TimerRetry /\
        Timer_At x = d_now d + Backoff n (t_Attempt t + 1) /\ Timer_Key x = t_Key t /\
        Timer_Generation x = t_Generation t /\ Timer_Attempt x = t_Attempt t + 1).
Proof.
  intros Hn HT. unfold taskFailed in HT. rewrite Hn in HT. cbn [deref res_bind] in HT. cbv zeta in HT.
  apply res_bind_ok in HT as (d1 & He & HT). exists d1. split; [done|]. cbv zeta. intros Hw.
  pose proof Hw as (_ & Hb%bool_decide_eq_true)%andb_true_iff. rewrite Hb in HT, Hw. rewrite Hw in HT.
  destruct (_ <=? 0); [done|]. unfold timerAt in HT. eexists. split; [exact HT|].
  apply emit_inv in He as (st & _ & ->). done.
Qed.
End Routing.
