(* ===== verification/DecideProps.v ===== *)
(** * What decisions guarantee

    Theorems about [Decide] and the entry points beside it, from the facts about
    runs: replay, termination, invariants of a whole life, the finality of final
    states, and the redelivery of commands. *)

From S2P Require Import Prelude Json Hash Names Expr Flow Event Cmd Reduce State StateFacts.
From S2P Require Import View Decide Numbering DecideRun DecideOps.

Section Props.
Context `{Evaluator}.

(** ** Decisions as runs *)

Lemma attrs_fuel def input : attrs def input <> Err OutOfFuel.
Proof.
  unfold attrs. case_match; [done|]. apply res_fold_fuel. intros s k.
  destruct (AttrProgram def k); simpl; [|done]. by repeat case_match.
Qed.

(** A decision that starts an execution, or one of a live execution. *)
Definition runs_to (d : decider) (r : result decider) : Prop :=
  match r with
  | Ok d' => Sends d d' /\
      (WF (d_st d) -> Run d d') /\
      (within_budget (d_def d) (d_st d) -> live d' -> within_budget (d_def d') (d_st d'))
  | Err e => e <> OutOfFuel
  end.

Lemma start_runs c d : runs_to d (start c d).
Proof.
  unfold start, invalid, Payload. destruct (decode_StartData _) as [p|]; [|done].
  destruct (Exists (d_st d)) eqn:Ex.
  { unfold CheckJoin. destruct (String.eqb _ _); simpl; [|done]. repeat split; auto using chain_refl. }
  cbv zeta. destruct (isObject _) eqn:Eo; simpl; [|done].
  unfold FlowHash. destruct (marshal_flow _) as [b|]; simpl; [|done].
  destruct (attrs _ _) as [at_|e] eqn:Ea; simpl; [|intros ->; by apply attrs_fuel in Ea].
  destruct (emit _ _ _) as [d1|e] eqn:E; simpl; [|intros ->; by apply emit_fuel in E].
  assert (HS : forall x, Shaped d ExecutionStarted (DStarted x)) by (by split).
  assert (Hl1 : live d1).
  { eapply emit_apply in E as (s & Ha & ->); [|by apply HS]. unfold emit_event in Ha.
    apply_cases Ha; unfold live; cbn [d_st set_d_out set_d_st];
      match goal with |- context [finish ?e ?s] => destruct (finish_frame e s) as (? & ? & -> & Hx & _) end;
      exact Hx. }
  pose proof (enter_good (StartNode (d_def d1)) d1) as Hen.
  destruct (enter _ _) as [d2|e]; [|done]. destruct Hen as (H1 & H2 & H3). split.
  { eapply chain_emit; [|exact E|by apply steady_sends, inners_steady]. split; [by apply HS|exact Eo]. }
  split.
  - intros Hw. assert (HL : exists x, Legal d ExecutionStarted (DStarted x) /\
      emit ExecutionStarted (DStarted x) d = Ok d1).
    { eexists. split; [|exact E]. by repeat split. }
    destruct HL as (x & HL & Ex1). eapply chain_emit; [done|done|]. apply H2.
    destruct (emit_WF _ _ _ _ HL Hw Ex1) as (? & ? & _). by constructor.
  - intros Hb Hl. apply H3; [done| |done].
    eapply emit_apply in E as (s & Ha & ->); [|by apply HS]. unfold emit_event in Ha.
    apply_cases Ha; cbn [d_st d_def set_d_out set_d_st];
      match goal with |- context [finish ?e ?s] => destruct (finish_frame e s) as (? & ? & -> & _) end;
      exact Hb.
Qed.

(** [decided r] is the result of a decision made by a decider. *)
Lemma decided_fuel r : r <> Err OutOfFuel -> decided r <> Err OutOfFuel.
Proof. destruct r as [?|[]]; simpl; congruence. Qed.

Lemma runs_to_fuel d r : runs_to d r -> r <> Err OutOfFuel.
Proof. destruct r; simpl; congruence. Qed.

Lemma emits_to_fuel d r : emits_to d r -> r <> Err OutOfFuel.
Proof. destruct r; simpl; congruence. Qed.

(** What a successful decision is. *)
Definition decision (def : Flow) (st : State) (now : Z) (cmdID : string) (evs : list FoldEvent) (st' : State)
  : Prop :=
  exists d, runs_to (new_decider def st now cmdID) (Ok d) /\ d_out d = evs /\ d_st d = st'.

Lemma decision_none def st now cmdID : decision def st now cmdID [] st.
Proof. exists (new_decider def st now cmdID). repeat split; auto using chain_refl. Qed.

Lemma Decide_decision def st c now evs st' :
  Decide def st c now = Ok (evs, st') -> decision def st now (c_ID c) evs st'.
Proof.
  intros HD. unfold Decide in HD. cbv zeta in HD. set (d := new_decider def st now (c_ID c)) in *.
  assert (Hstart : decided (start c d) = Ok (evs, st') -> decision def st now (c_ID c) evs st').
  { intros (d' & Hr & <- & <-)%decided_inv. exists d'. pose proof (start_runs c d) as HR.
    rewrite Hr in HR. done. }
  assert (Hdisp : Exists st = true -> Terminal (s_Status st) = false ->
    decided (dispatch c d) = Ok (evs, st') -> decision def st now (c_ID c) evs st').
  { intros Ex Et (d' & Hr & <- & <-)%decided_inv. exists d'. pose proof (dispatch_fine c d) as HG.
    rewrite Hr in HG. destruct HG as (H1 & H2 & H3). split; [|done]. split; [by apply steady_sends|]. split; [|by auto].
    intros Hw. apply H2. by constructor. }
  destruct (c_Type c); [by apply Hstart|..];
    (destruct (Exists st) eqn:Ex; [|discriminate]; simpl in HD;
     destruct (Terminal _) eqn:Et; [|by apply Hdisp]; try discriminate;
     injection HD as <- <-; apply decision_none).
Qed.

(** The cases of a decision that is not a start. *)
Lemma Decide_live def st c now evs st' :
  Decide def st c now = Ok (evs, st') -> c_Type c <> CStart ->
  evs = [] /\ st' = st \/
  Exists st = true /\ Terminal (s_Status st) = false /\
  exists d', dispatch c (new_decider def st now (c_ID c)) = Ok d' /\ d_out d' = evs /\ d_st d' = st'.
Proof.
  intros HD Hc. unfold Decide in HD. cbv zeta in HD. destruct (c_Type c); [done|..];
    (destruct (Exists st) eqn:Ex; [|discriminate]; simpl in HD;
     destruct (Terminal _) eqn:Et;
     [try discriminate; injection HD as <- <-; by left|
      right; apply decided_inv in HD as (d' & ? & ? & ?); eauto 6]).
Qed.

(** A command whose operation does nothing decides nothing. *)
Lemma Decide_none def st c now :
  c_Type c <> CStart -> c_Type c <> CUpdate -> Exists st = true ->
  dispatch c (new_decider def st now (c_ID c)) = Ok (new_decider def st now (c_ID c)) ->
  Decide def st c now = Ok ([], st).
Proof.
  intros H1 H2 Ex HD. unfold Decide. cbv zeta. rewrite HD, Ex.
  destruct (c_Type c); try done; by destruct (Terminal _).
Qed.

(** ** Forks, continuations, aborts *)

(** [d'] is [d] with more events emitted, and its state is their replay. *)
Definition replays (d d' : decider) : Prop :=
  d_def d' = d_def d /\ exists evs, d_out d' = d_out d ++ evs /\
    Forall (fun ev => ev_Seq ev = 0) evs /\ replay (d_def d) (d_st d) evs = Ok (d_st d').

Definition replays_to (d : decider) (r : result decider) : Prop :=
  match r with Ok d' => replays d d' | Err e => e <> OutOfFuel end.

Lemma replays_refl d : replays d d.
Proof. split; [done|]. exists []. rewrite app_nil_r. repeat split. constructor. Qed.

Lemma replays_trans d1 d2 d3 : replays d1 d2 -> replays d2 d3 -> replays d1 d3.
Proof.
  intros (E1 & evs1 & O1 & S1 & R1) (E2 & evs2 & O2 & S2 & R2). split; [congruence|].
  exists (evs1 ++ evs2). rewrite O2, O1, app_assoc. split; [done|]. split; [by apply Forall_app|].
  unfold replay in *. rewrite res_fold_app, R1. simpl. by rewrite <- R2, E1.
Qed.

Lemma emit_replays t data d d' : emit t data d = Ok d' -> replays d d'.
Proof.
  intros (st & Ha & ->)%emit_inv. split; [done|]. exists [emit_event t data d].
  split; [done|]. split; [by repeat constructor|]. unfold replay. simpl. by rewrite Ha.
Qed.

Lemma chain_replays G d d' : Chain G d d' -> replays d d'.
Proof. induction 1; eauto using replays_refl, replays_trans, emit_replays. Qed.

Lemma replays_to_bind d m (k : Op) :
  replays_to d m -> (forall d1, m = Ok d1 -> replays_to d1 (k d1)) -> replays_to d (let? d1 := m in k d1).
Proof.
  intros Hm Hk. destruct m as [d1|e]; simpl; [|done]. specialize (Hk d1 eq_refl).
  destruct (k d1); simpl in *; eauto using replays_trans.
Qed.

Lemma emits_replays d r : emits_to d r -> replays_to d r.
Proof. destruct r; simpl; eauto using chain_replays. Qed.

Lemma emit_replays_to t data d : replays_to d (emit t data d).
Proof.
  destruct (emit t data d) as [d'|e] eqn:E; simpl; [by eapply emit_replays|].
  intros ->. by apply emit_fuel in E.
Qed.

Lemma rekick_child_emits k d : emits_to d (rekick_child k d).
Proof.
  unfold rekick_child. case_match; [constructor|]. apply emits_pure; [apply deref_fuel|]. intros c _.
  apply emits_pure; [by repeat (case_match; eauto with decider)|]. intros item _.
  apply emits_pure; [apply deref_fuel|]. intros n _. apply good_emits, startChild_good.
Qed.

Lemma rekick_replays d : replays_to d (rekick d).
Proof.
  unfold rekick. apply replays_to_bind.
  { apply emits_replays, emits_each. intros k d1. unfold rekick_task.
    apply emits_pure; [apply deref_fuel|]. intros t _.
    case_match; [constructor|]. apply emits_pure; [apply deref_fuel|]. intros n _.
    apply good_emits, schedule_good. }
  intros d1 _. apply replays_to_bind.
  { apply emits_replays, emits_each. intros k d2. unfold rekick_await.
    apply emits_pure; [apply deref_fuel|]. intros n _. apply good_emits, await_good'. }
  intros d2 _. cbv zeta. pose proof (emits_each (sorted_keys (s_Children (d_st d2))) rekick_child
    (set_d_inherited (list_to_set (cs_ChildID <$> (map_to_list (s_Children (d_st d2))).*2)) d2)
    rekick_child_emits) as He%emits_replays.
  (* what was inherited is not part of the events *)
  revert He. destruct (each _ _ _); simpl; [|done]. intros (E & R). exact (conj E R).
Qed.

(** Every entry point: the events, replayed on the state decided on, give the
    state that is returned. *)
Lemma decided_replays def st now cmdID r evs st' :
  replays_to (new_decider def st now cmdID) r -> decided r = Ok (evs, st') ->
  Forall (fun ev => ev_Seq ev = 0) evs /\ replay def st evs = Ok st'.
Proof. intros HR (d & -> & <- & <-)%decided_inv. destruct HR as (_ & evs & -> & HS & HR). done. Qed.

Lemma Decide_replays def st c now evs st' :
  Decide def st c now = Ok (evs, st') -> Forall (fun ev => ev_Seq ev = 0) evs /\ replay def st evs = Ok st'.
Proof.
  intros (d & (HE & _) & Ho & Hs)%Decide_decision.
  eapply (decided_replays def st now (c_ID c) (Ok d)); [by eapply chain_replays|]. by rewrite <- Ho, <- Hs.
Qed.

Lemma Continue_replays def st seg cmdID now evs st' :
  Continue def st seg cmdID now = Ok (evs, st') ->
  Forall (fun ev => ev_Seq ev = 0) evs /\ replay def st evs = Ok st'.
Proof.
  unfold Continue. case_match; [intros [= <- <-]; by split|].
  intros (b & _ & (c & _ & (b2 & _ & HD)%res_bind_ok)%res_bind_ok)%res_bind_ok.
  by eapply decided_replays, HD; apply emit_replays_to.
Qed.

Lemma replays_to_after d d1 r : replays d d1 -> replays_to d1 r -> replays_to d r.
Proof. destruct r; simpl; eauto using replays_trans. Qed.

Lemma Abort_replays def st first cmdID reason msg now evs st' :
  Abort def st first cmdID reason msg now = Ok (evs, st') ->
  Forall (fun ev => ev_Seq ev = 0) evs /\ replay def st evs = Ok st'.
Proof.
  unfold Abort. intros (d & Hd & HD)%res_bind_ok.
  assert (HR : replays (new_decider def st now cmdID) d).
  { destruct (Exists st); [injection Hd as <-; apply replays_refl|].
    destruct first; [by eapply emit_replays|done]. }
  destruct (Terminal _); (eapply decided_replays, HD; eapply replays_to_after; [done|]).
  - apply replays_refl.
  - apply emits_replays, good_emits, fail_good.
Qed.

Lemma DecideFork_replays def st src from seq cmdID writes now evs st' :
  DecideFork def st src from seq cmdID writes now = Ok (evs, st') ->
  Forall (fun ev => ev_Seq ev = 0) evs /\ replay def st evs = Ok st'.
Proof.
  unfold DecideFork. destruct (Exists st); [intros [= <- <-]; split; [constructor|done]|].
  intros (b & _ & (d & Hd & (d1 & Hd1 & HD)%res_bind_ok)%res_bind_ok)%res_bind_ok.
  apply emit_replays in Hd.
  assert (HR : replays d d1).
  { revert Hd1. unfold invalid. destruct (bool_decide _); [intros [= <-]; apply replays_refl|].
    destruct (Terminal (s_Status (d_st d))); [done|]. destruct (CheckWrites _ _ _); [by intros ?%emit_replays|done]. }
  destruct (Terminal (s_Status (d_st d1))); (eapply decided_replays, HD; eapply replays_to_after; [by eapply replays_trans|]).
  - apply replays_refl.
  - apply rekick_replays.
Qed.

(** ** The life of an execution

    One step appends events to the log of an execution: a decision, a
    continuation, or an abort.  A life is a sequence of steps from the empty
    state. *)
Inductive Step (def : Flow) (st : State) (evs : list FoldEvent) (st' : State) : Prop :=
| step_decide c now : Decide def st c now = Ok (evs, st') -> Step def st evs st'
| step_continue seg cmdID now : Continue def st seg cmdID now = Ok (evs, st') -> Step def st evs st'
| step_abort cmdID reason msg now : Abort def st None cmdID reason msg now = Ok (evs, st') ->
    Step def st evs st'.

Inductive Life (def : Flow) (id : string) : list FoldEvent -> State -> Prop :=
| life_new : Life def id [] (NewState id)
| life_step log st evs st' : Life def id log st -> Step def st evs st' -> Life def id (log ++ evs) st'.

(** States reached from a state by further steps. *)
Inductive Later (def : Flow) (st : State) : State -> Prop :=
| later_refl : Later def st st
| later_step st1 evs st2 : Later def st st1 -> Step def st1 evs st2 -> Later def st st2.

Lemma Step_replays def st evs st' :
  Step def st evs st' -> Forall (fun ev => ev_Seq ev = 0) evs /\ replay def st evs = Ok st'.
Proof. destruct 1; eauto using Decide_replays, Continue_replays, Abort_replays. Qed.

Lemma fold_step_replay def s evs :
  Forall (fun ev => ev_Seq ev = 0) evs -> res_fold (fold_step (Some def)) s evs = replay def s evs.
Proof.
  unfold replay. intros HS. revert s. induction HS as [|ev evs Hev _ IH]; intros s; simpl; [done|].
  unfold fold_step at 1. destruct (Apply _ _ _); simpl; [|done]. rewrite Hev. simpl. apply IH.
Qed.

Lemma life_replays def id log st :
  Life def id log st -> Forall (fun ev => ev_Seq ev = 0) log /\ replay def (NewState id) log = Ok st.
Proof.
  induction 1 as [|log st evs st' _ [HS1 HR1] [HS2 HR2]%Step_replays]; [by split|].
  split; [by apply Forall_app|]. unfold replay in *. rewrite res_fold_app, HR1. done.
Qed.

(** *** Invariants of a life *)

Lemma NewState_WF id : WF (NewState id).
Proof.
  constructor; [|done|done].
  constructor; [apply map_Forall_empty|apply map_Forall_empty| |apply map_Forall_empty|done|done|done].
  split; [apply map_Forall_empty|]. simpl. intros k1 k2 c1 c2 Hc. by apply lookup_empty_Some in Hc.
Qed.

(** A state encoded and decoded again is numbered as it was. *)
Lemma reload_numbered s : numbered s -> numbered (reload s).
Proof.
  intros [Ht Htm Hc Hm Hsi Hui HN]. constructor; try done. intros k r. simpl. rewrite lookup_fmap.
  destruct (s_Maps s !! k) as [r0|] eqn:Er; simpl; [|done]. intros [= <-]. apply Hm in Er. simpl.
  by rewrite !length_fmap.
Qed.

Lemma run_WF d d' : Run d d' -> WF (d_st d) -> WF (d_st d').
Proof.
  induction 1 as [d|d t data d1 d2 HL Hem _ IH]; [done|]. intros Hw.
  destruct (emit_WF _ _ _ _ HL Hw Hem) as (? & _). auto.
Qed.

Lemma decision_WF def st now cmdID evs st' : decision def st now cmdID evs st' -> WF st -> WF st'.
Proof. intros (d & (_ & HR & _) & _ & <-) Hw. by eapply (run_WF (new_decider def st now cmdID)), Hw; apply HR. Qed.

(** The event and the state of a continuation. *)
Lemma Continue_inv def st seg cmdID now evs st' :
  Continue def st seg cmdID now = Ok (evs, st') ->
  evs = [] /\ st' = st \/
  Exists st = true /\ Terminal (s_Status st) = false /\ exists ev,
    evs = [ev] /\ (ev_Type ev = ExecutionContinued /\ exists x, ev_Data ev = DContinued x) /\
    ev_Index ev = s_Events st + 1 /\ ev_Time ev = now /\
    st' = finish ev (reload (reload st |> set_Segments (s_Segments st ++ [seg]))
                     |> set_Base (s_Events st + 1)).
Proof.
  unfold Continue, MarshalState. destruct (Exists st) eqn:Ex; simpl; [|intros [= <- <-]; auto].
  destruct (Terminal _) eqn:Et; [intros [= <- <-]; auto|].
  destruct (bool_decide _); [|done]. simpl.
  destruct (bool_decide _); [|done]. simpl.
  intros (d & (st1 & Ha & ->)%emit_inv & <- & <-)%decided_inv. right. split; [done|]. split; [done|].
  eexists. split; [done|]. split; [split; [done|]; simpl; eauto|]. repeat split. revert Ha. simpl.
  unfold Apply. simpl. rewrite Z.eqb_refl. destruct (negb _); simpl; congruence.
Qed.

Lemma Continue_WF def st seg cmdID now evs st' :
  Continue def st seg cmdID now = Ok (evs, st') -> WF st -> WF st'.
Proof.
  intros [[_ ->]|(Ex & Et & ev & _ & _ & _ & _ & ->)]%Continue_inv; [done|]. intros [Hn He Hs].
  assert (Hsegs : forall s l, numbered s -> numbered (set_Segments l s)) by (intros s l []; by constructor).
  assert (Hcarry : forall s b e u x, numbered s ->
    numbered (s |> set_Base b |> set_Events e |> set_Updated u |> set_Status x))
    by (intros s b e u x []; by constructor).
  match goal with |- context [finish ?e ?s] => destruct (finish_frame e s) as (st1 & up & -> & _ & Hnone) end.
  constructor; [by apply Hcarry, reload_numbered, Hsegs, reload_numbered| |]; simpl in *; [lia|].
  split; [|lia]. intros ->. destruct Hnone as [Hnone _]. specialize (Hnone eq_refl). apply Hs in Hnone.
  unfold Exists in Ex. lia.
Qed.

Lemma Abort_decision def st cmdID reason msg now evs st' :
  Abort def st None cmdID reason msg now = Ok (evs, st') -> decision def st now cmdID evs st'.
Proof.
  unfold Abort, invalid. destruct (Exists st) eqn:Ex; [|done]. simpl.
  destruct (Terminal _) eqn:Et; [intros [= <- <-]; apply decision_none|].
  intros (d & Hf & <- & <-)%decided_inv. exists d. split; [|done].
  pose proof (fail_good reason msg "" (new_decider def st now cmdID)) as HG. rewrite Hf in HG.
  destruct HG as (H1 & H2 & H3). split; [by apply steady_sends, inners_steady|]. split; [|by auto].
  intros Hw. apply H2. by constructor.
Qed.

(** A step is a decision or a continuation that appended its event. *)
Lemma Step_cases def st evs st' :
  Step def st evs st' ->
  (exists now cmdID, decision def st now cmdID evs st') \/
  (exists seg ev, Exists st = true /\ Terminal (s_Status st) = false /\ evs = [ev] /\
    (ev_Type ev = ExecutionContinued /\ exists x, ev_Data ev = DContinued x) /\
    ev_Index ev = s_Events st + 1 /\
    st' = finish ev (reload (reload st |> set_Segments (s_Segments st ++ [seg]))
                     |> set_Base (s_Events st + 1))).
Proof.
  destruct 1 as [c now H1%Decide_decision|seg cmdID now H1%Continue_inv|cmdID reason msg now H1%Abort_decision];
    [by eauto| |by eauto].
  destruct H1 as [[-> ->]|(Ex & Et & ev & -> & Ht & Hi & _ & ->)]; [left|right; eauto 12].
  exists 0, "". apply decision_none.
Qed.

Lemma Step_WF def st evs st' : Step def st evs st' -> WF st -> WF st'.
Proof. destruct 1; eauto using decision_WF, Decide_decision, Abort_decision, Continue_WF. Qed.

(** An execution that exists does not cease to. *)
Lemma run_exists d d' : Run d d' -> WF (d_st d) -> Exists (d_st d) = true -> Exists (d_st d') = true.
Proof.
  induction 1 as [d|d t data d1 d2 HL Hem _ IH]; [done|]. intros Hw Ex.
  destruct (emit_WF _ _ _ _ HL Hw Hem) as (? & ? & _). auto.
Qed.

Lemma Step_exists def st evs st' : Step def st evs st' -> WF st -> Exists st = true -> Exists st' = true.
Proof.
  intros [(now & cmdID & d & (_ & HR & _) & _ & <-)|(seg & ev & _ & _ & _ & _ & _ & ->)]%Step_cases Hw Ex.
  - apply (run_exists (new_decider def st now cmdID)); auto.
  - match goal with |- context [finish ?e ?s] => destruct (finish_frame e s) as (st1 & up & -> & _) end.
    unfold Exists in *. simpl. lia.
Qed.

Lemma Later_exists def st st' : Later def st st' -> WF st -> Exists st = true -> WF st' /\ Exists st' = true.
Proof.
  induction 1 as [|st1 evs st2 _ IH HS]; [done|]. intros Hw Ex. destruct (IH Hw Ex).
  split; [by eapply Step_WF|by eapply Step_exists].
Qed.

Lemma life_WF def id log st : Life def id log st -> WF st.
Proof. induction 1; eauto using NewState_WF, Step_WF. Qed.

(** ** Final states *)

Lemma emit_terminal t data d d' :
  Shaped d t data -> type_terminal t = true -> emit t data d = Ok d' -> Terminal (s_Status (d_st d')) = true.
Proof.
  intros HS Ht H1. destruct (emit_apply _ _ _ _ HS H1) as (s & Ha & ->). destruct HS as [-> Hr].
  simpl. destruct (finish_frame (emit_event (payload_type data) data d) s) as (x & up & -> & Hx & _).
  change (Terminal x = true). rewrite Hx.
  destruct data; try discriminate; unfold emit_event in Ha; by apply_cases Ha.
Qed.

Lemma legal_not_terminal d t data :
  Legal d t data -> Exists (d_st d) = true -> Terminal (s_Status (d_st d)) = false.
Proof. intros (_ & Hl & _) Ex. destruct data; [congruence|..]; by destruct Hl. Qed.

(** A terminal decider has nothing left to run. *)
Lemma run_terminal_refl d d' :
  Run d d' -> Exists (d_st d) = true -> Terminal (s_Status (d_st d)) = true -> d' = d.
Proof.
  intros HR Ex Ht. inversion HR as [|? t data d1 ? HL He Hr]; subst; [done|].
  apply legal_not_terminal in HL; congruence.
Qed.

Lemma run_terminal_last d d' :
  Run d d' -> WF (d_st d) -> live d ->
  exists evs, d_out d' = d_out d ++ evs /\
    (forall pre ev post, evs = pre ++ ev :: post -> type_terminal (ev_Type ev) = true -> post = []) /\
    (Terminal (s_Status (d_st d')) = true <-> exists ev, last evs = Some ev /\ type_terminal (ev_Type ev) = true).
Proof.
  induction 1 as [d|d t data d1 d2 HL Hem HR IH]; intros Hw Hl.
  { exists []. rewrite app_nil_r. split; [done|]. split.
    - intros pre ev post Hp. by destruct pre.
    - unfold live in Hl. rewrite Hl. split; [done|]. by intros (ev & ? & _). }
  destruct (emit_WF _ _ _ _ HL Hw Hem) as (Hw1 & Ex1 & Hl1).
  assert (Hl' : type_terminal t = false -> live d1) by (intros Ht; apply Hl1; [done|]; by destruct data).
  destruct (emit_inv _ _ _ _ Hem) as (st1 & _ & Hd1).
  destruct (type_terminal t) eqn:Et.
  - pose proof (emit_terminal _ _ _ _ (Legal_Shaped _ _ _ HL) Et Hem) as Ht1.
    apply run_terminal_refl in HR as ->; [|done|done]. exists [emit_event t data d].
    split; [by rewrite Hd1|]. split.
    + intros [|? [|]] ev post [= <- <-] _; done.
    + split; [|done]. intros _. eexists. by split.
  - destruct (IH Hw1 (Hl' eq_refl)) as (evs & Ho & Hlast & Hiff). exists (emit_event t data d :: evs).
    split; [rewrite Ho, Hd1; simpl; by rewrite <- app_assoc|]. split.
    + intros [|e pre] ev post [= <- ->] Ht; [simpl in Ht; congruence|]. by eapply Hlast.
    + rewrite Hiff. destruct evs as [|e evs]; [|done]. split; intros (ev & Hev & Ht).
      * done.
      * simpl in Hev. injection Hev as <-. simpl in Ht. congruence.
Qed.

(** Nothing is decided on a final state. *)
Lemma decision_terminal def st now cmdID evs st' :
  decision def st now cmdID evs st' -> WF st -> Terminal (s_Status st) = true -> evs = [] /\ st' = st.
Proof.
  intros (d & (_ & HR & _) & <- & <-) Hw Ht.
  pose proof (run_terminal_refl _ _ (HR Hw) (terminal_exists _ Hw Ht) Ht) as ->. done.
Qed.

(** ** Budgets *)

(** Validation refuses a budget that is not positive. *)
Definition budgets_ok (def : Flow) : Prop := forall k b, f_Budget def !! k = Some b -> f_nonpos b = false.

Lemma life_within_budget def id log st :
  budgets_ok def -> Life def id log st -> Terminal (s_Status st) = false -> within_budget def st.
Proof.
  intros Hok HL. assert (Hdec : forall log st now cmdID evs st', Life def id log st ->
    decision def st now cmdID evs st' ->
    (Terminal (s_Status st) = false -> within_budget def st) ->
    Terminal (s_Status st') = false -> within_budget def st').
  { intros log1 st1 now cmdID evs st' HL1 HD IH Ht'. apply life_WF in HL1.
    destruct (Terminal (s_Status st1)) eqn:Ht.
    { apply decision_terminal in HD as [_ ->]; [|done|done]. congruence. }
    destruct HD as (d & (HE & _ & HB) & _ & <-).
    pose proof (emits_grows _ _ (sends_emits _ _ HE)) as (_ & _ & Hd). simpl in *. rewrite <- Hd. by apply HB; auto. }
  induction HL as [|log st evs st' HL IH [(now & cmdID & HD)|(seg & ev & _ & Et & _ & _ & _ & ->)]%Step_cases].
  - intros _ k b Hb. apply f_gt_zero. by eapply Hok.
  - by eapply Hdec.
  - intros _. match goal with |- context [finish ?e ?s] => destruct (finish_frame e s) as (st1 & up & -> & _) end.
    by apply IH.
Qed.

(** ** No entry point runs out of fuel *)

Lemma bind_fuel {A B} (m : result A) (k : A -> result B) :
  m <> Err OutOfFuel -> (forall a, k a <> Err OutOfFuel) -> (let? a := m in k a) <> Err OutOfFuel.
Proof. intros Hm Hk. destruct m; simpl; [apply Hk|congruence]. Qed.

Lemma Decide_fuel def st c now : Decide def st c now <> Err OutOfFuel.
Proof.
  unfold Decide. cbv zeta. set (d := new_decider _ _ _ _).
  assert (Hs : decided (start c d) <> Err OutOfFuel).
  { apply decided_fuel. by eapply runs_to_fuel, start_runs. }
  assert (Hd : decided (dispatch c d) <> Err OutOfFuel).
  { apply decided_fuel. pose proof (dispatch_fine c d). by destruct (dispatch c d) as [|[]]. }
  destruct (c_Type c); [done|..]; (destruct (negb _); [done|]; by destruct (Terminal _)).
Qed.

Lemma rekick_fuel d : rekick d <> Err OutOfFuel.
Proof. pose proof (rekick_replays d). by destruct (rekick d) as [|[]]. Qed.

Lemma DecideFork_fuel def st src from seq cmdID writes now :
  DecideFork def st src from seq cmdID writes now <> Err OutOfFuel.
Proof.
  unfold DecideFork, MarshalState, invalid. destruct (Exists st); [done|].
  apply bind_fuel; [by destruct (bool_decide _)|]. intros b. apply bind_fuel; [apply emit_fuel|]. intros d.
  apply bind_fuel; [|intros d1; destruct (Terminal _); [done|apply decided_fuel, rekick_fuel]].
  pose proof (CheckWrites_fuel def (d_st d) writes).
  destruct (bool_decide _); [done|]. destruct (Terminal _); [done|].
  destruct (CheckWrites _ _ _) as [|[]]; [apply emit_fuel|done|done|done].
Qed.

Lemma Abort_fuel def st first cmdID reason msg now : Abort def st first cmdID reason msg now <> Err OutOfFuel.
Proof.
  unfold Abort, invalid. apply bind_fuel.
  - destruct (Exists st); [done|]. destruct first; [apply emit_fuel|done].
  - intros d. destruct (Terminal _); [done|]. apply decided_fuel, emit_fuel.
Qed.

(** ** The theorems *)

(** C1. A decision and the fold agree: applying the events of a decision, in
    order, to the state it was made on gives exactly the state it returned.
    The same holds of forks, continuations and aborts. *)
Theorem decide_replay def st evs st' :
  (exists c now, Decide def st c now = Ok (evs, st')) \/
  (exists src from seq cmdID writes now, DecideFork def st src from seq cmdID writes now = Ok (evs, st')) \/
  (exists seg cmdID now, Continue def st seg cmdID now = Ok (evs, st')) \/
  (exists first cmdID reason msg now, Abort def st first cmdID reason msg now = Ok (evs, st')) ->
  replay def st evs = Ok st'.
Proof.
  intros [(c & now & HD)|[(src & from & seq & cmdID & writes & now & HD)|
    [(seg & cmdID & now & HD)|(first & cmdID & reason & msg & now & HD)]]].
  - by eapply Decide_replays.
  - by eapply DecideFork_replays.
  - by eapply Continue_replays.
  - by eapply Abort_replays.
Qed.

(** C2. The state of an execution is the fold of its log: whatever
    commands, continuations and aborts it went through, folding all the events
    it emitted from the empty state succeeds and gives its state. *)
Theorem life_is_its_log def id log st :
  Life def id log st -> Fold (Some def) id log = Ok st.
Proof. intros [HS HR]%life_replays. unfold Fold. by rewrite fold_step_replay. Qed.

(** C15. Decisions terminate: no command, state or definition, valid or not,
    makes a decision recurse without end; every entry point returns events or
    an error of the code. *)
Theorem decide_terminates def st :
  (forall c now, Decide def st c now <> Err OutOfFuel) /\
  (forall src from seq cmdID writes now, DecideFork def st src from seq cmdID writes now <> Err OutOfFuel) /\
  (forall first cmdID reason msg now, Abort def st first cmdID reason msg now <> Err OutOfFuel).
Proof. eauto using Decide_fuel, DecideFork_fuel, Abort_fuel. Qed.

(** What is in flight was numbered by the one counter of the
    execution: every instance is stored under its own key with a generation
    from 1 to [N], every timer under the id of its number, every child under an
    id of a number up to [N] that no other child has; every map run keeps one
    output slot per item. *)
Theorem in_flight_numbered def id log st :
  Life def id log st ->
  tasks_ok (s_Tasks st) (s_N st) /\ timers_ok (s_Timers st) (s_N st) /\
  children_ok (s_Children st) (s_N st) /\ maps_ok (s_Maps st) /\ 0 <= s_N st.
Proof. intros [[] _ _]%life_WF. done. Qed.

(** The memories of signal ids and of update ids never hold more than
    [maxSignalIDs] ids. *)
Theorem memory_bounded def id log st :
  Life def id log st ->
  Z.of_nat (size (s_SignalIDs st)) <= maxSignalIDs /\ Z.of_nat (size (s_UpdateIDs st)) <= maxSignalIDs.
Proof. intros [[] _ _]%life_WF. done. Qed.

(** A decision on a live execution emits at most one final event
    (completed, failed or cancelled), always as its last event; and the state
    it returns is final exactly when it did. *)
Theorem terminal_event_last def id log st c now evs st' :
  Life def id log st -> Terminal (s_Status st) = false -> Decide def st c now = Ok (evs, st') ->
  (forall pre ev post, evs = pre ++ ev :: post -> type_terminal (ev_Type ev) = true -> post = []) /\
  (Terminal (s_Status st') = true <-> exists ev, last evs = Some ev /\ type_terminal (ev_Type ev) = true).
Proof.
  intros HL%life_WF Ht (d & (_ & HR & _) & <- & <-)%Decide_decision.
  destruct (run_terminal_last _ _ (HR HL) HL Ht) as (evs & -> & Hlast & Hiff). done.
Qed.

(** C37. A final state is final: after it, whatever steps are taken,
    nothing is appended to the log and the state never changes. *)
Theorem terminal_absorbing def id log st st' :
  Life def id log st -> Terminal (s_Status st) = true -> Later def st st' ->
  st' = st /\ forall evs st'', Step def st evs st'' -> evs = [] /\ st'' = st.
Proof.
  intros HL%life_WF Ht Hlat.
  assert (Hstep : forall evs st'', Step def st evs st'' -> evs = [] /\ st'' = st).
  { intros evs st'' [(now & cmdID & HD)|(seg & ev & _ & Et & _)]%Step_cases; [|congruence].
    by eapply decision_terminal. }
  split; [|done]. induction Hlat as [|st1 evs st2 _ -> HS]; [done|]. by apply Hstep in HS as [_ ->].
Qed.

(** What a final execution answers: a start of the same flow joins it
    and of another flow conflicts, an update is rejected, and every other
    command is accepted without effect. *)
Theorem terminal_commands def st c now :
  Exists st = true -> Terminal (s_Status st) = true ->
  match c_Type c with
  | CStart =>
      match Payload decode_StartData c with
      | Ok p => if String.eqb (s_Flow st) (StartData_Flow p) then Decide def st c now = Ok ([], st)
                else exists e, Decide def st c now = Err e /\ errors_is e ErrConflict = true
      | Err _ => exists e, Decide def st c now = Err e /\ errors_is e ErrInvalid = true
      end
  | CUpdate => exists e, Decide def st c now = Err e /\ errors_is e ErrRejected = true
  | _ => Decide def st c now = Ok ([], st)
  end.
Proof.
  intros Ex Et. unfold Decide. cbv zeta. rewrite Ex, Et. simpl.
  destruct (c_Type c); try done; [|eexists; by split].
  unfold start, Payload, invalid. destruct (decode_StartData _) as [p|]; simpl; [|eexists; by split].
  rewrite Ex. unfold CheckJoin. destruct (String.eqb _ _); simpl; [done|]. eexists. by split.
Qed.

(** A command to an execution that was never started is refused with
    [ErrNotFound], unless it starts it; nothing is recorded. *)
Theorem missing_not_found def st c now :
  Exists st = false -> c_Type c <> CStart ->
  exists e, Decide def st c now = Err e /\ errors_is e ErrNotFound = true.
Proof.
  intros Ex Hc. unfold Decide. cbv zeta. rewrite Ex. destruct (c_Type c); [done|..]; (eexists; by split).
Qed.

(** C36. Budgets are enforced: in every state an execution goes through, as long
    as it is not over, no counter exceeds its budget. *)
Theorem budget_kept def id log st k b :
  budgets_ok def -> Life def id log st -> Terminal (s_Status st) = false ->
  f_Budget def !! k = Some b -> f_gt (float_at (s_Counters st) k) b = false.
Proof. intros Hok HL Ht. by apply (life_within_budget def id log). Qed.
End Props.
