(* ===== verification/Redelivery.v ===== *)
(** * Redelivered commands

    Commands are delivered at least once.  What a command settled stays settled
    for the rest of the life of the execution: the attempt it completed, the
    timer it fired, the child whose end it reported.  Delivered again, now or
    later, it decides nothing. *)

From S2P Require Import Prelude Json Hash Names Expr Flow Event Cmd Reduce State StateFacts.
From S2P Require Import View Decide Numbering DecideRun DecideOps DecideProps.

(** ** Facts that stay true *)

(** Attempt [att] of generation [gen] of instance [key] is over: the instance is
    gone, replaced, or past that attempt. *)
Definition attempt_over (key : string) (gen att : Z) (s : State) : Prop :=
  gen <= s_N s /\ forall t, s_Tasks s !! key = Some t -> t_Generation t = gen ->
    att < t_Attempt t \/ att = t_Attempt t /\ t_Status t <> TaskScheduled.

(** Timer [id] was allocated and is gone. *)
Definition timer_over (id : string) (s : State) : Prop :=
  s_Timers s !! id = None /\ exists n, id = "t" +:+ Itoa n /\ n <= s_N s.

(** Child [id] was started and is gone. *)
Definition child_over (id : string) (s : State) : Prop :=
  (forall k c, s_Children s !! k = Some c -> cs_ChildID c <> id) /\
  exists p n, id = ChildID p n /\ 1 <= n <= s_N s.

(** A fact that no legal emission undoes. *)
Definition stable (Q : State -> Prop) : Prop :=
  forall d t data s, Legal d t data -> numbered (d_st d) -> Q (d_st d) ->
    apply_ (Some (d_def d)) (d_st d) (emit_event t data d) = Ok s -> Q s.

(** The maps after an event, by the way it changed them. *)
Lemma attempt_over_sub key gen att s s' :
  s_Tasks s' ⊆ s_Tasks s -> s_N s <= s_N s' -> attempt_over key gen att s -> attempt_over key gen att s'.
Proof. intros Hs HN [H1 H2]. split; [lia|]. intros t Ht. by eapply H2, lookup_weaken. Qed.

Lemma attempt_over_insert key gen att s s' k t :
  s_Tasks s' = <[k := t]> (s_Tasks s) -> s_N s <= s_N s' ->
  (k = key -> t_Generation t = gen -> att < t_Attempt t \/ att = t_Attempt t /\ t_Status t <> TaskScheduled) ->
  attempt_over key gen att s -> attempt_over key gen att s'.
Proof.
  intros Hs HN Ht [H1 H2]. split; [lia|]. rewrite Hs. intros t' [[-> <-]|[_ Hk]]%lookup_insert_Some; auto.
Qed.

Lemma attempt_over_stable key gen att : stable (attempt_over key gen att).
Proof.
  intros d t data s' (_ & _ & Hg) Hn HQ H1.
  destruct d as [def s now cid out inh]; cbn [d_def d_st] in *.
  destruct data; try (exfalso; exact Hg); unfold emit_event in H1; apply_cases H1.
  all: try (by (eapply attempt_over_sub; [| |exact HQ]; simpl; [subset|lia])).
  (* a new or later attempt, a retry, an interruption *)
  all: eapply attempt_over_insert; [| | |exact HQ]; [reflexivity|simpl; lia|]; simpl; intros <- Hgen;
    destruct HQ as [HQ1 HQ2]; try (destruct Hg as [[Hg _]|(tk & Hk & Hg & -> & Hr)]; simpl in *; [lia|];
      destruct (HQ2 _ Hk ltac:(congruence)) as [?|[? ?]]; lia).
  all: match goal with Hk : s_Tasks _ !! _ = Some ?t |- _ => destruct (HQ2 t Hk Hgen) as [?|[? ?]] end; [by left|].
  all: right; by split.
Qed.

Lemma timer_over_sub id s s' :
  s_Timers s' ⊆ s_Timers s -> s_N s <= s_N s' -> timer_over id s -> timer_over id s'.
Proof.
  intros Hs HN (H1 & n & H2 & H3). split; [|exists n; split; [done|lia]].
  destruct (s_Timers s' !! id) eqn:E; [|done]. eapply lookup_weaken in E; [|done]. congruence.
Qed.

Lemma timer_over_stable id : stable (timer_over id).
Proof.
  intros d t data s' (_ & _ & Hg) Hn HQ H1.
  destruct d as [def s now cid out inh]; cbn [d_def d_st] in *.
  destruct data; try (exfalso; exact Hg); unfold emit_event in H1; apply_cases H1.
  all: try (by (eapply timer_over_sub; [| |exact HQ]; simpl; [subset|lia])).
  destruct HQ as (H1 & n & -> & H3), Hg as [Hg1 Hg2]. simpl in *. split.
  - simpl. rewrite Hg2, lookup_insert_ne; [done|]. intros E%(inj (String.app "t"))%Itoa_inj. lia.
  - exists n. simpl. split; [done|lia].
Qed.

Lemma child_over_sub id s s' :
  s_Children s' ⊆ s_Children s -> s_N s <= s_N s' -> child_over id s -> child_over id s'.
Proof.
  intros Hs HN (H1 & p & n & H2 & H3). split; [|exists p, n; split; [done|lia]].
  intros k c Hc. by eapply H1, lookup_weaken.
Qed.

Lemma child_over_stable id : stable (child_over id).
Proof.
  intros d t data s' (_ & _ & Hg) Hn HQ H1.
  destruct d as [def s now cid out inh]; cbn [d_def d_st] in *.
  destruct data; try (exfalso; exact Hg); unfold emit_event in H1; apply_cases H1.
  all: try (by (eapply child_over_sub; [| |exact HQ]; simpl; [subset|lia])).
  all: destruct HQ as (H1 & p & n & -> & H3), Hg as (Hg1 & Hg2 & _); simpl in *; split;
    [|exists p, n; simpl; split; [done|lia]].
  all: simpl; intros k c1 [[<- <-]|[_ Hk]]%lookup_insert_Some; [|by eauto].
  all: simpl; rewrite Hg2; intros E%ChildID_number; lia.
Qed.

(** What lasts: stable facts about what is in flight. *)
Class Lasting (Q : State -> Prop) := {
  lasting_stable : stable Q;
  lasting_frame s s' : s_Tasks s' = s_Tasks s -> s_Timers s' = s_Timers s ->
    s_Children s' = s_Children s -> s_N s' = s_N s -> Q s -> Q s' }.

#[export] Instance attempt_over_lasting key gen att : Lasting (attempt_over key gen att).
Proof. split; [apply attempt_over_stable|]. unfold attempt_over. by intros s s' -> _ _ ->. Qed.
#[export] Instance timer_over_lasting id : Lasting (timer_over id).
Proof. split; [apply timer_over_stable|]. unfold timer_over. by intros s s' _ -> _ ->. Qed.
#[export] Instance child_over_lasting id : Lasting (child_over id).
Proof. split; [apply child_over_stable|]. unfold child_over. by intros s s' _ _ -> ->. Qed.

Section Lasting.
Context `{Evaluator} (Q : State -> Prop) `{!Lasting Q}.

Lemma finish_lasting ev s : Q s -> Q (finish ev s).
Proof. destruct (finish_frame ev s) as (x & up & -> & _). by apply lasting_frame. Qed.

Lemma run_lasting d d' : Run d d' -> WF (d_st d) -> Q (d_st d) -> Q (d_st d').
Proof.
  induction 1 as [d|d t data d1 d2 HL Hem _ IH]; [done|]. intros Hw HQ.
  destruct (emit_WF _ _ _ _ HL Hw Hem) as (Hw1 & _). apply IH; [done|].
  destruct (emit_apply _ _ _ _ (Legal_Shaped _ _ _ HL) Hem) as (s & Ha & ->). simpl.
  apply finish_lasting. by eapply lasting_stable, Ha; destruct Hw.
Qed.

Lemma step_lasting def st evs st' : Step def st evs st' -> WF st -> Q st -> Q st'.
Proof.
  intros [(now & cmdID & d & (_ & HR & _) & _ & <-)|(seg & ev & _ & _ & _ & _ & _ & ->)]%Step_cases Hw HQ.
  - by apply (run_lasting (new_decider def st now cmdID)); auto.
  - apply finish_lasting. revert HQ. by apply lasting_frame.
Qed.

Lemma later_lasting def st st' : Later def st st' -> WF st -> Q st -> WF st' /\ Q st'.
Proof.
  induction 1 as [|st1 evs st2 _ IH HS]; [done|]. intros Hw HQ. destruct (IH Hw HQ).
  split; [by eapply Step_WF|by eapply step_lasting].
Qed.
End Lasting.

(** ** What a command settles *)

Section Settles.
Context `{Evaluator}.

Lemma current_inv ref d t :
  current ref [TaskScheduled] d = Some t ->
  s_Tasks (d_st d) !! ref_Key ref = Some t /\ t_Generation t = ref_Generation ref /\
  t_Attempt t = ref_Attempt ref.
Proof.
  unfold current. case_match eqn:E; [|done]. destruct (_ || _) eqn:Eo; [done|].
  apply orb_false_iff in Eo as [E1%negb_false_iff%Z.eqb_eq E2%negb_false_iff%Z.eqb_eq].
  case_bool_decide; [|done]. by intros [= <-].
Qed.

(** The outcome of the attempt a reference addresses. *)
Definition over_ref (ref : TaskRef) : State -> Prop :=
  attempt_over (ref_Key ref) (ref_Generation ref) (ref_Attempt ref).

Definition settles (key : string) (data : FoldData) : Prop :=
  match data with
  | DNodeDone x => NodeDone_Key x = key
  | DNodeFail x => NodeFail_Key x = key
  | DInterrupted x => Interrupted_Key x = key
  | _ => False
  end.

Lemma emit_settles ref t ty data d d1 :
  Pre d -> current ref [TaskScheduled] d = Some t -> settles (t_Key t) data -> ty = payload_type data ->
  emit ty data d = Ok d1 -> over_ref ref (d_st d1).
Proof.
  intros [[Hn _ _] _ _] (Hk & Hg & Ha)%current_inv Hs -> He.
  assert (HN : ref_Generation ref <= s_N (d_st d)) by (apply (wf_task_gen _ _ _ Hn) in Hk; lia).
  assert (Hkey : t_Key t = ref_Key ref) by (by eapply wf_task_key).
  rewrite Hkey in Hs.
  unfold over_ref, attempt_over. destruct data; try (exfalso; exact Hs); simpl in Hs;
    emit_frame He; simpl; rewrite Hs in *; simplify_eq; (split; [done|]); intros t'.
  all: try (by rewrite lookup_delete_eq).
  all: try (rewrite lookup_insert_eq; intros [= <-] _; right; done).
  all: match goal with E : s_Tasks _ !! _ = None |- _ => simpl in E; congruence end.
Qed.

(** A run that starts with a given event goes through the state after it. *)
Lemma run_from t data d d1 d2 :
  Run d d2 -> emit t data d = Ok d1 -> Emits d1 d2 -> Legal d t data /\ Run d1 d2.
Proof.
  intros HR He HE. apply chain_replays in HE as (_ & evs & Ho & _ & _).
  destruct (emit_inv _ _ _ _ He) as (st & Ha & ->). simpl in Ho.
  destruct HR as [|d t0 data0 d1 d2 HL He0 HR].
  { exfalso. apply (f_equal length) in Ho. rewrite !length_app in Ho. simpl in Ho. lia. }
  destruct (emit_inv _ _ _ _ He0) as (st0 & Ha0 & E0).
  pose proof (chain_replays _ _ _ HR) as (_ & evs0 & Ho0 & _ & _).
  rewrite Ho, E0 in Ho0. simpl in Ho0. rewrite <- !app_assoc in Ho0. apply app_inv_head in Ho0.
  injection Ho0 as Et _ Ed _. subst t0 data0. rewrite Ha in Ha0. injection Ha0 as <-.
  split; [done|]. by rewrite <- E0.
Qed.

(** A lasting fact established by the first event holds at the end of the run. *)
Lemma settled (Q : State -> Prop) `{!Lasting Q} t data d d1 d' :
  Pre d -> emit t data d = Ok d1 -> Q (d_st d1) -> Emits d1 d' -> Run d d' -> Q (d_st d').
Proof.
  intros HP He HQ HE HR. destruct (run_from _ _ _ _ _ HR He HE) as [HL HR1].
  destruct (emit_WF _ _ _ _ HL (pre_wf _ HP) He) as [Hw _]. by apply (run_lasting _ _ _ HR1).
Qed.

(** A first event, then the rest. *)
Definition first_event (P : FoldData -> Prop) (d d' : decider) : Prop :=
  exists data d1, P data /\ emit (payload_type data) data d = Ok d1 /\ Emits d1 d'.

Lemma first_event_then (P : FoldData -> Prop) data d d' (k : Op) :
  P data -> (forall d1, good_if False d1 (k d1)) ->
  (let? d1 := emit (payload_type data) data d in k d1) = Ok d' -> first_event P d d'.
Proof.
  intros HP Hk (d1 & He & Hk1)%res_bind_ok. exists data, d1. split; [done|]. split; [done|].
  specialize (Hk d1). rewrite Hk1 in Hk. destruct Hk. by apply inners_emits.
Qed.

Lemma good_False d r : good d r -> good_if False d r.
Proof. intros Hg. by apply (good_weaken False). Qed.

Lemma taskFailed_first tc msg retryable reason usage d d' :
  taskFailed tc msg retryable reason usage d = Ok d' -> first_event (settles (t_Key tc)) d d'.
Proof.
  unfold taskFailed. intros (n & _ & HT)%res_bind_ok. revert HT. cbv zeta.
  apply (first_event_then _ (DNodeFail _)); [done|]. intros d1.
  case_match; [apply good_False, fail_good|].
  destruct (_ && _); [destruct (_ <=? 0)|].
  - by apply schedule_good_if.
  - apply good_False, timerAt_good.
  - apply good_False. repeat case_match; eauto using evalJoin_good, abortMap_good, enter_good, fail_good.
Qed.

Lemma complete_first p d d' :
  complete p d = Ok d' -> d' = d \/
  exists t, current (CompleteData_TaskRef p) [TaskScheduled] d = Some t /\ first_event (settles (t_Key t)) d d'.
Proof.
  unfold complete. case_match eqn:Ec; [|by intros [= <-]; left]. intros (n & _ & HT)%res_bind_ok.
  right. exists t. split; [done|]. revert HT. cbv zeta. intros (problem & _ & HT)%res_bind_ok.
  destruct problem as [[problem retryable]|]; [by eapply taskFailed_first|].
  revert HT. apply (first_event_then _ (DNodeDone _)); [done|]. intros d1. apply good_False.
  case_match; eauto using fail_good, afterSettle_good.
Qed.

Lemma failTask_first p d d' :
  failTask p d = Ok d' -> d' = d \/
  exists t, current (FailData_TaskRef p) [TaskScheduled] d = Some t /\ first_event (settles (t_Key t)) d d'.
Proof.
  unfold failTask. case_match eqn:Ec; [|by intros [= <-]; left]. intros HT.
  right. exists t. split; [done|]. by eapply taskFailed_first.
Qed.

Lemma interrupt_first p d d' :
  interrupt p d = Ok d' -> d' = d \/
  exists t, current (InterruptData_TaskRef p) [TaskScheduled] d = Some t /\ first_event (settles (t_Key t)) d d'.
Proof.
  unfold interrupt. case_match eqn:Ec; [|by intros [= <-]; left]. intros HT.
  right. exists t. split; [done|]. revert HT.
  apply (first_event_then _ (DInterrupted _)); [done|]. intros d1. apply good_False.
  case_match; eauto using fail_good, good_ok.
Qed.

(** An attempt that is over cannot be settled again. *)
Lemma over_current ref d : over_ref ref (d_st d) -> current ref [TaskScheduled] d = None.
Proof.
  intros [_ HO]. destruct (current ref _ d) as [t|] eqn:Ec; [|done]. exfalso.
  pose proof (current_inv _ _ _ Ec) as (Hk & Hg & Ha). destruct (HO t Hk Hg) as [?|[_ Hs]]; [lia|].
  unfold current in Ec. rewrite Hk in Ec. destruct (_ || _); [done|].
  case_bool_decide as Hb; [|done]. by apply list_elem_of_singleton in Hb.
Qed.

(** *** Timers and children *)

Lemma timer_first p d d' :
  timer p d = Ok d' -> d' = d \/
  exists tc, s_Timers (d_st d) !! TimerData_TimerID p = Some tc /\
    first_event (fun data => data = DFired {| Fired_ID := Timer_ID tc |}) d d'.
Proof.
  unfold timer. case_match eqn:Et; [|by intros [= <-]; left]. intros HT. right. exists t.
  split; [done|]. revert HT. apply (first_event_then _ (DFired _)); [done|]. intros d1.
  destruct (String.eqb _ TimerRetry).
  { case_match; [|by apply good_False, good_ok]. destruct (_ || _); [by apply good_False, good_ok|].
    destruct (node _ _); [|done]. by apply schedule_good_if. }
  destruct (String.eqb _ TimerTimeout).
  { apply good_False. case_match eqn:Ec; [|apply good_ok].
    apply taskFailed_good. intros HP. by eapply current_scheduled. }
  apply good_False. case_match; eauto using awaitTimeout_good, good_ok.
Qed.

Lemma emit_fired_over tc id d d1 :
  Pre d -> s_Timers (d_st d) !! id = Some tc ->
  emit TimerFired (DFired {| Fired_ID := Timer_ID tc |}) d = Ok d1 -> timer_over id (d_st d1).
Proof.
  intros [[[_ Htm _ _ _ _ _] _ _] _ _] Hid He. apply Htm in Hid as (H1 & H2 & H3).
  subst id.
  emit_frame He. split; simpl; [by rewrite lookup_delete_eq|]. eauto.
Qed.

Lemma find_child_Some id s key c :
  find_child id s = Some (key, c) -> s_Children s !! key = Some c /\ cs_ChildID c = id.
Proof.
  unfold find_child. induction (sorted_keys (s_Children s)) as [|k ks IH]; simpl; [done|].
  destruct (s_Children s !! k) as [c1|] eqn:Ek; [|done].
  destruct (String.eqb_spec (cs_ChildID c1) id); [|done]. by intros [= <- <-].
Qed.

Lemma find_child_None id s : (forall k c, s_Children s !! k = Some c -> cs_ChildID c <> id) -> find_child id s = None.
Proof.
  intros Hn. destruct (find_child id s) as [[k c]|] eqn:E; [|done].
  apply find_child_Some in E as [Hk Hid]. by apply Hn in Hk.
Qed.

Lemma childDone_first p d d' :
  (forall key c, s_Children (d_st d) !! key = Some c -> key = "" -> cs_Node c = "") ->
  childDone p d = Ok d' -> d' = d \/
  exists key cc x, find_child (ChildDoneData_ChildID p) (d_st d) = Some (key, cc) /\
    (if String.eqb (ChildDone_Key x) "" then ChildDone_Node x else ChildDone_Key x) = key /\
    first_event (fun data => data = DChildDone x) d d'.
Proof.
  intros Hnode. unfold childDone. case_match eqn:Ec; [|by intros [= <-]; left].
  destruct p0 as [key cc]. cbv zeta. pose proof (find_child_Some _ _ _ _ Ec) as [Hk _].
  pose proof (Hnode _ _ Hk) as Hempty.
  intros HT. right. eexists key, cc, _. split; [done|]. split; cycle 1.
  { revert HT. apply (first_event_then _ (DChildDone _)); [done|]. intros d1. apply good_False.
    case_match; [apply fail_good|]. case_match; [apply evalJoin_good|].
    destruct (node _ _); [|done]. simpl.
    repeat case_match; eauto using mapProgress_good', abortMap_good, fail_good, enter_good, advance_good'. }
  simpl. destruct (String.eqb_spec key (NodeOf cc key)) as [E|E]; simpl; [done|].
  destruct (String.eqb_spec key "") as [->|Hne]; [|done].
  exfalso. apply E. unfold NodeOf. by rewrite Hempty.
Qed.

Lemma emit_child_over id key cc x d d1 :
  Pre d -> find_child id (d_st d) = Some (key, cc) ->
  (if String.eqb (ChildDone_Key x) "" then ChildDone_Node x else ChildDone_Key x) = key ->
  emit ChildCompleted (DChildDone x) d = Ok d1 -> child_over id (d_st d1).
Proof.
  intros [[[_ _ Hc _ _ _ _] _ _] _ _] [Hk Hid]%find_child_Some Hkey He.
  assert (Hd1 : s_Children (d_st d1) = delete key (s_Children (d_st d)) /\ s_N (d_st d1) = s_N (d_st d)).
  { rewrite <- Hkey. clear - He. emit_frame He; done. }
  destruct Hd1 as [HC HN]. split.
  - rewrite HC. intros k c [Hne Hk1]%lookup_delete_Some Heq. apply Hne. symmetry.
    eapply (proj2 Hc); [done|done|]. congruence.
  - rewrite HN. apply Hc in Hk as (_ & p & n & H1 & H2). rewrite <- Hid. eauto.
Qed.

(** ** Delivered again *)

Lemma dispatch_exists c d d' : Pre d -> dispatch c d = Ok d' -> Exists (d_st d') = true.
Proof.
  intros HP HD. pose proof (dispatch_fine c d) as HG. rewrite HD in HG. destruct HG as (_ & HR & _), HP.
  apply (run_exists d); auto using Build_Pre.
Qed.

(** What the command settled, as a fact that lasts and that makes it void. *)
Lemma dispatch_void c d d' :
  c_Type c ∈ [CComplete; CFail; CInterrupt; CTimer; CChildDone] -> Pre d ->
  dispatch c d = Ok d' -> d' <> d ->
  exists Q, Lasting Q /\ Q (d_st d') /\ forall d2, Q (d_st d2) -> dispatch c d2 = Ok d2.
Proof.
  intros Hc HP HD Hne.
  assert (HR : Run d d') by (pose proof (dispatch_fine c d) as HG; rewrite HD in HG; by apply HG).
  unfold dispatch in *. rewrite !elem_of_cons, elem_of_nil in Hc.
  destruct Hc as [Hc|[Hc|[Hc|[Hc|[Hc|[]]]]]]; rewrite Hc in *; unfold decode in *;
    (destruct (Payload _ c) as [p|]; [|done]).
  - apply complete_first in HD as [->|(t & Ht & data & d1 & Hs & He & HE)]; [done|].
    exists (over_ref (CompleteData_TaskRef p)). split; [apply _|]. split; [eapply (settled _); eauto using emit_settles|].
    intros d2 HO%over_current. unfold complete. by rewrite HO.
  - apply failTask_first in HD as [->|(t & Ht & data & d1 & Hs & He & HE)]; [done|].
    exists (over_ref (FailData_TaskRef p)). split; [apply _|]. split; [eapply (settled _); eauto using emit_settles|].
    intros d2 HO%over_current. unfold failTask. by rewrite HO.
  - apply interrupt_first in HD as [->|(t & Ht & data & d1 & Hs & He & HE)]; [done|].
    exists (over_ref (InterruptData_TaskRef p)). split; [apply _|]. split; [eapply (settled _); eauto using emit_settles|].
    intros d2 HO%over_current. unfold interrupt. by rewrite HO.
  - apply timer_first in HD as [->|(tc & Ht & data & d1 & -> & He & HE)]; [done|].
    exists (timer_over (TimerData_TimerID p)). split; [apply _|].
    split; [eapply (settled _); eauto using emit_fired_over|].
    intros d2 [HO _]. unfold timer. by rewrite HO.
  - apply childDone_first in HD as [->|(key & cc & x & Hf & Hkey & data & d1 & -> & He & HE)]; [done|..].
    + exists (child_over (ChildDoneData_ChildID p)). split; [apply _|].
      split; [eapply (settled _); eauto using emit_child_over|].
      intros d2 [HO _]. unfold childDone. by rewrite find_child_None.
    + intros key c1 Hk. destruct HP as [[[_ _ Hch _ _ _ _] _ _] _ _]. by apply Hch in Hk as [? _].
Qed.

(** C31. Completions, failures and interruptions of an attempt, timers and
    ends of children take effect at most once: when such a command decided
    something, delivering it again, immediately or after any further steps of
    the execution, decides nothing and leaves the state as it is. *)
Theorem redelivered_void def id log st c now evs st1 st2 now2 :
  Life def id log st -> c_Type c ∈ [CComplete; CFail; CInterrupt; CTimer; CChildDone] ->
  Decide def st c now = Ok (evs, st1) -> evs <> [] -> Later def st1 st2 ->
  Decide def st2 c now2 = Ok ([], st2).
Proof.
  intros HL%life_WF Hc HD Hne Hlat.
  assert (Hns : c_Type c <> CStart /\ c_Type c <> CUpdate) by (split; intros E; rewrite E in Hc; set_solver).
  pose proof (decision_WF _ _ _ _ _ _ (Decide_decision _ _ _ _ _ _ HD) HL) as HW1.
  apply Decide_live in HD as [[-> _]|(Ex & Et & d' & HD & <- & <-)]; [done| |tauto].
  set (d := new_decider def st now (c_ID c)) in *.
  assert (HP : Pre d) by (by constructor).
  destruct (dispatch_void c d d' Hc HP HD) as (Q & HQl & HQ & Hvoid); [by intros ->|].
  pose proof (dispatch_exists _ _ _ HP HD) as Ex1.
  destruct (later_lasting Q _ _ _ Hlat HW1 HQ) as [HW2 HQ2].
  destruct (Later_exists _ _ _ Hlat HW1 Ex1) as [_ Ex2].
  apply Decide_none; [tauto|tauto|done|]. by apply Hvoid.
Qed.

(** ** Signals and updates *)

(** Only a signal and an update touch the memories. *)
Lemma inners_memory d d' :
  Inners d d' -> s_SignalIDs (d_st d') = s_SignalIDs (d_st d) /\ s_UpdateIDs (d_st d') = s_UpdateIDs (d_st d).
Proof.
  induction 1 as [d|d t data d1 d2 HI He _ [-> ->]]; [done|].
  destruct (emit_apply _ _ _ _ (Inner_Shaped _ _ _ HI) He) as (s & Ha & ->). simpl.
  destruct (finish_frame (emit_event t data d) s) as (x & up & -> & _). simpl.
  destruct HI as (-> & Hi & _), data; try discriminate; unfold emit_event in Ha; by apply_cases Ha.
Qed.

(** The memory has room for one more id, or holds one that is older. *)
Definition room (m : gmap string Z) (now : Z) : Prop :=
  Z.of_nat (size m) < maxSignalIDs \/ exists k t, m !! k = Some t /\ t < now.

Lemma emit_signal_ids x d d1 :
  emit SignalReceived (DSignal x) d = Ok d1 ->
  s_SignalIDs (d_st d1) = rememberID (s_SignalIDs (d_st d)) (Signal_ID x) (d_now d).
Proof. intros He. emit_frame He. done. Qed.

Lemma emit_update_ids x d d1 :
  emit ChannelsUpdated (DUpdate x) d = Ok d1 ->
  s_UpdateIDs (d_st d1) = rememberID (s_UpdateIDs (d_st d)) (Update_ID x) (d_now d).
Proof. intros He. emit_frame He. done. Qed.

Lemma signal_remembers p d d' :
  numbered (d_st d) -> room (s_SignalIDs (d_st d)) (d_now d) -> signal p d = Ok d' ->
  CheckToken "signal name" (SignalData_Name p) = None /\ is_Some (s_SignalIDs (d_st d') !! d_cmdID d).
Proof.
  intros Hn Hroom. unfold signal, invalid. case_match; [done|]. case_bool_decide as Hs; [by intros [= <-]|].
  intros (d1 & He & HT)%res_bind_ok. split; [done|].
  assert (HI : Inners d1 d').
  { set (found := List.find _ _) in HT. destruct found; [|injection HT as <-; constructor].
    apply res_bind_ok in HT as (n & _ & HT). pose proof (consume_good' n d1) as HG. rewrite HT in HG. apply HG. }
  apply inners_memory in HI as [-> _]. rewrite (emit_signal_ids _ _ _ He).
  exists (d_now d). apply rememberID_keeps; [by apply wf_signals|done].
Qed.

Lemma update_remembers writes d d' :
  numbered (d_st d) -> room (s_UpdateIDs (d_st d)) (d_now d) -> update writes d = Ok d' ->
  writes <> ∅ /\ is_Some (s_UpdateIDs (d_st d') !! d_cmdID d) /\ (live d -> live d').
Proof.
  intros Hn Hroom. unfold update, invalid. case_bool_decide as Hw; [done|]. split; [done|]. revert H0.
  case_bool_decide as Hs; [by intros [= <-]|]. case_match; [|done]. intros He. split.
  - rewrite (emit_update_ids _ _ _ He). exists (d_now d). apply rememberID_keeps; [by apply wf_updates|done].
  - intros Hl. refine (emit_live ChannelsUpdated _ _ _ _ eq_refl He Hl). by split.
Qed.

(** A signal is recorded at most once: as long as the memory has
    room for its id or holds an older one, the same signal delivered again
    decides nothing. *)
Theorem signal_redelivered def id log st c now evs st1 now2 :
  Life def id log st -> c_Type c = CSignal -> room (s_SignalIDs st) now ->
  Decide def st c now = Ok (evs, st1) -> Decide def st1 c now2 = Ok ([], st1).
Proof.
  intros HL%life_WF Hc Hroom HD. pose proof (Decide_decision _ _ _ _ _ _ HD) as HW1%decision_WF; [|done].
  unfold Decide in *. rewrite Hc in *. cbv zeta in *. destruct (Exists st) eqn:Ex; [|done]. simpl in HD.
  destruct (Terminal (s_Status st)) eqn:Et; [injection HD as <- <-; by rewrite Ex, Et|].
  apply decided_inv in HD as (d' & HD & _ & <-).
  assert (Ex1 : Exists (d_st d') = true) by (eapply dispatch_exists, HD; by constructor).
  rewrite Ex1. simpl. destruct (Terminal (s_Status (d_st d'))); [done|].
  unfold dispatch, decode in *. rewrite Hc in *. destruct (Payload _ c) as [p|]; [|done].
  apply signal_remembers in HD as [Htok Hid]; [|by destruct HL|done].
  unfold signal. rewrite Htok. rewrite bool_decide_eq_true_2; [reflexivity|exact Hid].
Qed.

(** An update is applied at most once: under the same condition
    on the memory of updates, the same update delivered again decides nothing. *)
Theorem update_redelivered def id log st c now evs st1 now2 :
  Life def id log st -> c_Type c = CUpdate -> room (s_UpdateIDs st) now ->
  Decide def st c now = Ok (evs, st1) -> Decide def st1 c now2 = Ok ([], st1).
Proof.
  intros HL%life_WF Hc Hroom HD. pose proof (Decide_decision _ _ _ _ _ _ HD) as HW1%decision_WF; [|done].
  unfold Decide in *. rewrite Hc in *. cbv zeta in *. destruct (Exists st) eqn:Ex; [|done]. simpl in HD.
  destruct (Terminal (s_Status st)) eqn:Et; [done|].
  apply decided_inv in HD as (d' & HD & _ & <-).
  assert (Ex1 : Exists (d_st d') = true) by (eapply dispatch_exists, HD; by constructor).
  rewrite Ex1. simpl. unfold dispatch, decode in *. rewrite Hc in *. destruct (Payload _ c) as [p|]; [|done].
  apply update_remembers in HD as (Hw & Hid & Hl); [|by destruct HL|done].
  rewrite (Hl Et). unfold update. rewrite bool_decide_eq_false_2 by done.
  rewrite bool_decide_eq_true_2; [reflexivity|exact Hid].
Qed.
End Settles.
