(* ===== verification/FlowProps.v ===== *)
(** * Retry delays ([Node.Backoff])

    The comment on [Backoff] promises a delay between the base delay and the
    cap.  It holds for fixed and linear back-off whatever the attempt, and for
    exponential back-off while the base delay is small enough; it does not hold
    in general. *)

From S2P Require Import Prelude Json Flow.

(** The base delay and the cap of a retry policy. *)
Definition base_delay (r : Retry) : Z := if r_Delay r <=? 0 then DefaultRetryDelay else r_Delay r.
Definition cap_delay (r : Retry) : Z :=
  Z.max (base_delay r) (if r_MaxDelay r <=? 0 then DefaultRetryMaxDelay else r_MaxDelay r).

(** Durations are 64-bit. *)
Definition retry_ok (r : Retry) : Prop := in_int64 (r_Delay r) /\ in_int64 (r_MaxDelay r).

Lemma base_delay_range r : retry_ok r -> 0 < base_delay r < 2 ^ 63.
Proof.
  intros [H1 H2]. unfold base_delay, in_int64, DefaultRetryDelay, Second in *.
  destruct (Z.leb_spec (r_Delay r) 0); lia.
Qed.

Lemma cap_delay_range r : retry_ok r -> base_delay r <= cap_delay r < 2 ^ 63.
Proof.
  intros Hr. pose proof (base_delay_range r Hr). destruct Hr as [H1 H2].
  unfold cap_delay, in_int64, DefaultRetryMaxDelay, Second in *.
  destruct (Z.leb_spec (r_MaxDelay r) 0); lia.
Qed.

(** [Backoff] in terms of the base and the cap. *)
Lemma Backoff_unfold n r attempt :
  n_Retry n = Some r ->
  Backoff n attempt =
  let retry := Z.max (attempt - 1) 1 in
  let clamp d := if (d <=? 0) || (cap_delay r <? d) then cap_delay r else d in
  if String.eqb (r_Backoff r) BackoffLinear then
    let d := int64 (base_delay r * retry) in
    clamp (if Z.quot d retry =? base_delay r then d else cap_delay r)
  else if String.eqb (r_Backoff r) BackoffExponential then
    if maxBackoffShift <=? retry - 1 then cap_delay r
    else clamp (int64 (Z.shiftl (base_delay r) (retry - 1)))
  else clamp (base_delay r).
Proof.
  intros Hr. unfold Backoff, cap_delay. rewrite Hr. fold (base_delay r).
  set (m := if r_MaxDelay r <=? 0 then _ else _). cbv zeta.
  destruct (Z.ltb_spec m (base_delay r)); [rewrite (Z.max_l (base_delay r) m) by lia|rewrite (Z.max_r (base_delay r) m) by lia]; done.
Qed.

(** Fixed and linear back-off never wait less than the base delay nor more than the cap,
    for any attempt: the multiplication is checked for overflow.  So does
    exponential back-off when the square of the base delay does not overflow
    (a base delay of up to three seconds). *)
Theorem backoff_bounds n r attempt :
  n_Retry n = Some r -> retry_ok r ->
  r_Backoff r <> BackoffExponential \/ base_delay r * base_delay r <= 2 ^ 63 ->
  base_delay r <= Backoff n attempt <= cap_delay r.
Proof.
  intros Hn Hr Hexp. rewrite (Backoff_unfold _ _ _ Hn). cbv zeta.
  pose proof (base_delay_range r Hr). pose proof (cap_delay_range r Hr).
  set (retry := Z.max (attempt - 1) 1). assert (1 <= retry) by lia.
  destruct (String.eqb_spec (r_Backoff r) BackoffLinear) as [_|_].
  - set (d := int64 _). destruct (Z.eqb_spec (Z.quot d retry) (base_delay r)) as [Hq|_];
      match goal with |- context [if ?b then _ else _] => destruct b eqn:Eb end; try lia.
    apply orb_false_iff in Eb as [E1%Z.leb_gt E2%Z.ltb_ge]. split; [|lia].
    rewrite <- Hq. apply Z.quot_le_upper_bound; nia.
  - destruct (String.eqb_spec (r_Backoff r) BackoffExponential) as [He|_].
    + destruct Hexp as [Hexp|Hsq]; [done|]. destruct (Z.leb_spec maxBackoffShift (retry - 1)); [lia|].
      unfold maxBackoffShift in *. rewrite Z.shiftl_mul_pow2 by lia. set (s := retry - 1) in *.
      set (d := int64 _). match goal with |- context [if ?b then _ else _] => destruct b eqn:Eb end; [lia|].
      apply orb_false_iff in Eb as [E1%Z.leb_gt E2%Z.ltb_ge]. split; [|lia].
      assert (0 < 2 ^ s) by (apply Z.pow_pos_nonneg; lia).
      destruct (decide (base_delay r * 2 ^ s < 2 ^ 63)) as [Hno|Hwrap].
      { unfold d. rewrite int64_id; [nia|]. unfold in_int64. nia. }
      (* a wrapped product is a positive multiple of the shift, which exceeds the base *)
      assert (Hdiv : (2 ^ s | d)).
      { unfold d, int64. replace ((base_delay r * 2 ^ s + 2 ^ 63) mod 2 ^ 64 - 2 ^ 63)
          with (base_delay r * 2 ^ s - 2 ^ 64 * ((base_delay r * 2 ^ s + 2 ^ 63) / 2 ^ 64)).
        2:{ rewrite (Z.mod_eq (base_delay r * 2 ^ s + 2 ^ 63)) by lia. lia. }
        apply Z.divide_sub_r; [apply Z.divide_factor_r|]. apply Z.divide_mul_l.
        exists (2 ^ (64 - s)). rewrite <- Z.pow_add_r by lia. f_equal. lia. }
      assert (Hbig : base_delay r <= 2 ^ s) by (apply (Z.mul_le_mono_pos_l _ _ (base_delay r)); lia).
      destruct Hdiv as [k Hk]. rewrite Hk in E1 |- *. assert (1 <= k) by nia.
      transitivity (1 * 2 ^ s); [lia|]. by apply Z.mul_le_mono_nonneg_r; lia.
    + match goal with |- context [if ?b then _ else _] => destruct b end; lia.
Qed.

(** A node that retries exponentially from 2^40 + 1 nanoseconds (18 minutes). *)
Definition retry_18min : Retry :=
  {| r_MaxAttempts := 64; r_Backoff := BackoffExponential; r_Delay := 2 ^ 40 + 1; r_MaxDelay := 0 |}.

(** Exponential back-off can wait far less than the base delay, against its comment
    ("an overflowed shift must not wrap into a too-short delay"): before attempt
    26 of a node with a base delay of 2^40 + 1 ns (18 minutes), the shift wraps
    to 2^24 ns (17 milliseconds), which passes the check for a non-positive
    value. *)
Theorem backoff_wraps n :
  n_Retry n = Some retry_18min ->
  Backoff n 26 = 2 ^ 24 /\ Backoff n 26 < base_delay retry_18min /\ 26 <= r_MaxAttempts retry_18min.
Proof. intros Hn. rewrite (Backoff_unfold _ _ _ Hn). vm_compute. repeat split; discriminate. Qed.
