(* ===== verification/NamesProps.v ===== *)
(** * Identifiers stay identifiers

    The ids the program derives (partitions, children, triggered executions) are
    valid, and the subjects it builds from valid ids are not ambiguous. *)

From Stdlib Require Import Ascii.
From S2P Require Import Prelude Json Hash Names Flow Event State Decide Numbering.

(** Every execution belongs to one of the partitions: for a number of partitions from 1
    to 2^32 - 1, the partition of an id is computed without a panic, and lies
    between 0 and the number of partitions. *)
Theorem partition_range execID n :
  1 <= n < 2 ^ 32 -> exists p, Partition execID n = Ok p /\ 0 <= p < n.
Proof.
  intros Hn. unfold Partition. destruct (Z.leb_spec n 1); [exists 0; split; [done|lia]|].
  assert (uint32 n = n) as -> by (unfold uint32; apply Z.mod_small; lia).
  destruct (Z.eqb_spec n 0); [lia|]. eexists. split; [done|]. apply Z.mod_pos_bound. lia.
Qed.

Lemma string_app_assoc (a b c : string) : a +:+ (b +:+ c) = (a +:+ b) +:+ c.
Proof. induction a as [|x a IH]; [done|]. change (String x (a +:+ (b +:+ c)) = String x ((a +:+ b) +:+ c)). by rewrite IH. Qed.

Lemma valid_token_intro s :
  all_token_chars s = true -> (1 <= String.length s <= 128)%nat -> ValidToken s = true.
Proof. intros H1 H2. unfold ValidToken. apply matches_token_spec. unfold maxToken. split; [lia|done]. Qed.

(** The id of a child is always a valid id, whatever the id of its parent: the one derived
    from the parent's id when it fits, a digest of it otherwise. *)
Theorem child_id_valid parent n : 0 <= n < 2 ^ 63 -> ValidToken (ChildID parent n) = true.
Proof.
  intros Hn. unfold ChildID. destruct (ValidToken (parent +:+ _)) eqn:E; [done|].
  destruct (hex_token (take 12 (sha256 (bytes_of parent)))) as [H1 H2].
  { apply Forall_take, sha256_range. }
  rewrite length_take, sha256_length in H2. simpl in H2.
  assert (Hl : (String.length (Itoa n) <= 19)%nat) by (apply Itoa_length; [done|lia]).
  apply valid_token_intro.
  - rewrite !all_token_chars_app, H1, Itoa_token. done.
  - rewrite !string_length_app, H2. simpl. lia.
Qed.

(** ** Triggered executions *)

Lemma substring_token k s : all_token_chars s = true -> all_token_chars (String.substring 0 k s) = true.
Proof.
  revert k. induction s as [|a s IH]; intros [|k]; simpl; try done. unfold all_token_chars in *. simpl.
  rewrite !andb_true_iff. intros [Ha Hs]. auto.
Qed.

Lemma substring_length k s : String.length (String.substring 0 k s) = Nat.min k (String.length s).
Proof. revert k. induction s as [|a s IH]; intros [|k]; simpl; auto. Qed.

Lemma base32_token bs :
  all_token_chars (base32_lower bs) = true /\
  String.length (base32_lower bs) = Z.to_nat ((Z.of_nat (8 * length bs) + 4) / 5).
Proof.
  unfold base32_lower. cbv zeta. set (x := Z.shiftl _ _). set (g := (_ + 4) / 5).
  rewrite <- (length_seq (Z.to_nat g) 0) at 3. generalize (seq 0 (Z.to_nat g)) as l.
  induction l as [|i l [IH1 IH2]]; [done|]. cbn [foldr length].
  destruct (char_at_token "abcdefghijklmnopqrstuvwxyz234567"
    (Z.land (Z.shiftr x (5 * (g - 1 - Z.of_nat i))) 31)) as [H3 H4]; [|done|].
  { change 31 with (Z.ones 5). rewrite Z.land_ones by lia. apply (Z.mod_pos_bound _ (2 ^ 5) eq_refl). }
  rewrite all_token_chars_app, string_length_app, IH1, IH2, H3, H4. done.
Qed.

(** The id of a triggered execution is a valid id whenever the name of the flow is one,
    whatever the key of the trigger; and it only depends on both. *)
Theorem trigger_id_valid flow key : ValidToken flow = true -> ValidToken (triggerExecID flow key) = true.
Proof.
  intros Hf. unfold ValidToken in Hf. apply matches_token_spec in Hf as [Hlen Htok]. unfold maxToken in Hlen.
  unfold triggerExecID. cbv zeta. set (digest := base32_lower _).
  destruct (base32_token (sha256 (bytes_of (flow +:+ nul +:+ key)))) as [Hd1 Hd2]. fold digest in Hd1, Hd2.
  rewrite sha256_length in Hd2. change (Z.to_nat ((Z.of_nat (8 * 32) + 4) / 5)) with 52%nat in Hd2.
  set (flow' := if decide _ then _ else _).
  assert (Hf' : all_token_chars flow' = true /\ (1 <= String.length flow' <= 100)%nat).
  { unfold flow', maxToken, triggerHashLen, str_take. case_decide as Hk.
    - split; [by apply substring_token|]. rewrite substring_length. lia.
    - split; [done|]. lia. }
  destruct Hf' as [H1 H2]. unfold str_take, triggerHashLen. apply valid_token_intro.
  - rewrite !all_token_chars_app, H1, substring_token by done. done.
  - rewrite !string_length_app, substring_length, Hd2. simpl. lia.
Qed.

(** ** Subjects *)

(** A valid id has no dot. *)
Lemma token_no_dot s : ValidToken s = true -> "."%char ∉ String.list_ascii_of_string s.
Proof.
  unfold ValidToken. intros [_ Ht]%matches_token_spec Hin. unfold all_token_chars in Ht.
  rewrite forallb_forall in Ht. apply list_elem_of_In in Hin. apply Ht in Hin. done.
Qed.

(** The last separator splits a list in one way. *)
Lemma last_sep_both {A} (x : A) l1 l2 d1 d2 :
  l1 ++ x :: d1 = l2 ++ x :: d2 -> x ∉ d1 -> x ∉ d2 -> l1 = l2 /\ d1 = d2.
Proof. intros E H1 H2. assert (d1 = d2) as -> by (by eapply last_sep). by apply app_inv_tail in E. Qed.

Lemma dotted_inj a1 a2 s1 s2 :
  ValidToken s1 = true -> ValidToken s2 = true ->
  a1 +:+ "." +:+ s1 = a2 +:+ "." +:+ s2 -> a1 = a2 /\ s1 = s2.
Proof.
  intros H1%token_no_dot H2%token_no_dot E. apply (f_equal String.list_ascii_of_string) in E.
  rewrite !list_ascii_app in E. simpl in E.
  destruct (last_sep_both _ _ _ _ _ E H1 H2) as [?%list_ascii_inj ?%list_ascii_inj]. done.
Qed.

Lemma pretty_N_go_nonempty m s : (0 < m)%N -> pretty_N_go m s <> "".
Proof.
  revert s. induction (N.lt_wf_0 m) as [m _ IH]; intros s Hm. rewrite pretty_N_go_step by done.
  destruct (decide (m `div` 10 = 0)%N) as [->|Hz]; [by rewrite pretty_N_go_0|].
  apply IH; [apply N.div_lt; lia|by apply N.neq_0_lt_0].
Qed.

Lemma Itoa_nonempty p : 0 <= p -> Itoa p <> "".
Proof.
  destruct p as [|p|p]; [done| |lia]. intros _. change (Itoa (Z.pos p)) with (pretty (Npos p)).
  unfold pretty, pretty_N. case_decide; [done|]. apply pretty_N_go_nonempty. lia.
Qed.

Lemma Itoa_valid p : 0 <= p < 2 ^ 63 -> ValidToken (Itoa p) = true.
Proof.
  intros Hp. apply valid_token_intro; [apply Itoa_token|].
  assert (String.length (Itoa p) <= 19)%nat by (apply Itoa_length; [done|lia]).
  split; [|lia]. destruct (Itoa p) eqn:E; [exfalso; revert E; apply Itoa_nonempty; lia|]. simpl. lia.
Qed.

(** The subject of an execution's events identifies it: within a namespace, two
    executions with valid ids share a subject only if they are the same
    execution in the same partition; the same holds of the subjects of their
    commands. *)
Theorem event_subject_injective n p1 p2 id1 id2 :
  0 <= p1 < 2 ^ 63 -> 0 <= p2 < 2 ^ 63 -> ValidToken id1 = true -> ValidToken id2 = true ->
  EventSubject n p1 id1 = EventSubject n p2 id2 \/ CmdSubject n p1 id1 = CmdSubject n p2 id2 ->
  p1 = p2 /\ id1 = id2.
Proof.
  intros Hp1 Hp2 H1 H2 HE.
  assert (Hgen : forall pre, pre +:+ "." +:+ Itoa p1 +:+ "." +:+ id1 = pre +:+ "." +:+ Itoa p2 +:+ "." +:+ id2 ->
    p1 = p2 /\ id1 = id2).
  { intros pre E. rewrite !(string_app_assoc pre) in E. rewrite !(string_app_assoc (pre +:+ ".")) in E.
    apply dotted_inj in E as [E ->]; [|done|done]. split; [|done].
    rewrite <- !(string_app_assoc pre) in E. apply dotted_inj in E as [_ E%Itoa_inj]; auto using Itoa_valid. }
  destruct HE as [HE|HE]; unfold EventSubject, CmdSubject in HE.
  - apply (Hgen (nm_Prefix n +:+ ".ev")). rewrite <- !(string_app_assoc (nm_Prefix n)). exact HE.
  - apply (Hgen (nm_Prefix n +:+ ".cmd")). rewrite <- !(string_app_assoc (nm_Prefix n)). exact HE.
Qed.
