(* ===== verification/CronProps.v ===== *)
(** * The language of schedule expressions

    The expressions described by their form (values, ranges, terms, fields,
    schedules and the predefined ones), and that [ValidateCron] accepts exactly
    those. *)

From S2P Require Import Prelude Json GoStrings Names NamesProps Flow State Cron.

(** ** Splitting what was joined *)

(** [strings.Join]. *)
Fixpoint join_with (sep : string) (l : list string) : string :=
  match l with
  | [] => ""
  | [s] => s
  | s :: l => s +:+ sep +:+ join_with sep l
  end.

Definition str_forall (P : Ascii.ascii -> bool) (s : string) : Prop := Forall (fun a => P a = true) (String.list_ascii_of_string s).

Lemma str_forall_app P a b : str_forall P (a +:+ b) <-> str_forall P a /\ str_forall P b.
Proof. unfold str_forall. rewrite list_ascii_app. apply Forall_app. Qed.

Definition not_char (c a : Ascii.ascii) : bool := negb (Ascii.eqb a c).

Lemma not_char_ne c a : c <> a -> not_char c a = true.
Proof. intros Hne. unfold not_char. by destruct (Ascii.eqb_spec a c) as [->|]. Qed.

Lemma split_none c s : str_forall (not_char c) s -> split_at c s = [s].
Proof.
  unfold str_forall, not_char. induction s as [|a s IH]; simpl; [done|]. intros [Ha Hs]%Forall_cons.
  destruct (Ascii.eqb a c); [done|]. by rewrite IH.
Qed.

Lemma split_first c s r : str_forall (not_char c) s -> split_at c (s +:+ String c r) = s :: split_at c r.
Proof.
  unfold str_forall, not_char. induction s as [|a s IH].
  - intros _. change ("" +:+ String c r) with (String c r). simpl. by rewrite Ascii.eqb_refl.
  - change (String a s +:+ String c r) with (String a (s +:+ String c r)). simpl. intros [Ha Hs]%Forall_cons.
    destruct (Ascii.eqb a c); [done|]. by rewrite IH.
Qed.

Lemma split_join c l : l <> [] -> Forall (str_forall (not_char c)) l -> split_at c (join_with (String c "") l) = l.
Proof.
  intros Hl HF. induction HF as [|s l Hs HF IH]; [done|]. destruct l as [|s' l]; [by apply split_none|].
  change (join_with (String c "") (s :: s' :: l)) with (s +:+ String c "" +:+ join_with (String c "") (s' :: l)).
  change (String c "" +:+ ?r) with (String c r). rewrite split_first by done. by rewrite IH.
Qed.

(** ** Numbers *)

Lemma digit_pretty d : (d < 10)%N -> digit (pretty_N_char d) = Some (Z.of_N d).
Proof.
  intros Hd. assert (d = 0 \/ d = 1 \/ d = 2 \/ d = 3 \/ d = 4 \/ d = 5 \/ d = 6 \/ d = 7 \/ d = 8 \/ d = 9)%N as HD by lia.
  repeat destruct HD as [->|HD]; try reflexivity. by subst.
Qed.

Lemma digits_pretty_go n s : digits 0 (pretty_N_go n s) = digits (Z.of_N n) s.
Proof.
  revert s. induction (N.lt_wf_0 n) as [n _ IH]. intros s.
  destruct (decide (n = 0)%N) as [->|Hn]; [by rewrite pretty_N_go_0|].
  rewrite pretty_N_go_step by lia. rewrite IH by (apply N.div_lt; lia). cbn [digits].
  rewrite digit_pretty by (apply N.mod_lt; lia). f_equal.
  pose proof (N.div_mod n 10 ltac:(lia)). lia.
Qed.

Lemma pretty_go_digits n s : str_forall is_digit s -> str_forall is_digit (pretty_N_go n s).
Proof.
  revert s. induction (N.lt_wf_0 n) as [n _ IH]. intros s Hs.
  destruct (decide (n = 0)%N) as [->|Hn]; [by rewrite pretty_N_go_0|].
  rewrite pretty_N_go_step by lia. apply IH; [apply N.div_lt; lia|]. unfold str_forall. simpl. constructor; [|done].
  unfold is_digit. rewrite digit_pretty by (apply N.mod_lt; lia). done.
Qed.

Lemma pretty_digits (n : N) : str_forall is_digit (pretty n).
Proof. unfold pretty, pretty_N. case_decide; [by repeat constructor|]. apply pretty_go_digits. constructor. Qed.

Lemma unsigned_pretty (n : N) : unsigned (pretty n) = Some (Z.of_N n).
Proof.
  unfold unsigned, pretty, pretty_N. case_decide as Hn; [by subst|].
  rewrite digits_pretty_go. cbn [digits]. destruct (pretty_N_go n "") eqn:E; [|done].
  destruct (pretty_N_go_nonempty n "" ltac:(lia) E).
Qed.

(** A sign is not a digit. *)
Lemma pretty_no_sign (n : N) c : is_digit c = false -> CutPrefix (pretty n) (String c "") = None.
Proof.
  intros Hc. pose proof (pretty_digits n) as HD. destruct (pretty n) as [|a s] eqn:E; [done|]. cbn.
  unfold str_forall in HD. simpl in HD. apply Forall_cons in HD as [Ha _].
  destruct (Ascii.eqb_spec c a) as [->|]; [congruence|done].
Qed.

Lemma Atoi_pretty (n : N) : Atoi (pretty n) = if Z.of_N n <? 2 ^ 63 then Some (Z.of_N n) else None.
Proof.
  unfold Atoi. rewrite !pretty_no_sign, unsigned_pretty by done. case_decide as HR; destruct (Z.ltb_spec (Z.of_N n) (2 ^ 63)); auto; lia.
Qed.

(** ** Expressions *)

Definition without (c : Ascii.ascii) (s : string) : Prop := str_forall (not_char c) s.

Section Grammar.
Context (b : cronBound).

(** A value of a field: a name, in any case, or a number in bounds. *)
Inductive Value : string -> Z -> Prop :=
| Value_name s k n : (k, n) ∈ cb_names b -> ToLower s = k -> Value s n
| Value_number s n : Atoi s = Some n -> cb_min b <= n <= cb_max b -> Value s n.

(** A range: any value, whatever follows; one value; or all from one to
    another. *)
Inductive Range : string -> Prop :=
| Range_any w : w ∈ ["*"; "?"] -> Range w
| Range_ignored w rest : w ∈ ["*"; "?"] -> Range (w +:+ String dash rest)
| Range_one s n : without dash s -> Value s n -> Range s
| Range_between s1 s2 lo hi :
    without dash s1 -> without dash s2 -> Value s1 lo -> Value s2 hi -> lo <= hi -> Range (s1 +:+ String dash s2).

(** A term: a range, with a positive step or not. *)
Inductive Term : string -> Prop :=
| Term_range r : without slash r -> Range r -> Term r
| Term_step r s n : without slash r -> without slash s -> Range r -> Atoi s = Some n -> 0 < n -> Term (r +:+ String slash s).

(** A field: terms separated by commas, not all of them empty. *)
Inductive Field : string -> Prop :=
| Field_terms ts :
    Forall (without comma_char) ts -> Forall (fun t => t = "" \/ Term t) ts -> List.Exists (fun t => t <> "") ts ->
    Field (join_with (String comma_char "") ts).
End Grammar.

(** A predefined schedule, an interval of a second at least, or a time. *)
Inductive Predefined : string -> Prop :=
| Predefined_name s : s ∈ predefinedSchedules -> Predefined s
| Predefined_every arg d : ParseDuration arg = Some d -> Second <= d -> Predefined ("@every " +:+ arg)
| Predefined_at arg : valid_rfc3339 arg = true -> Predefined ("@at " +:+ arg).

(** An expression: predefined when it begins with an at sign, and six fields
    between white space otherwise. *)
Definition Expression (s : string) : Prop :=
  if HasPrefix (TrimSpace s) "@" then Predefined s
  else Forall2 Field cronBounds (Fields (TrimSpace s)).

Lemma first_error_none {A} (f : A -> option Text) l : first_error f l = None <-> Forall (fun a => f a = None) l.
Proof.
  induction l as [|a l IH]; cbn [first_error]; [by rewrite Forall_nil|]. rewrite Forall_cons.
  destruct (f a); [naive_solver|]. naive_solver.
Qed.


(** ** Splitting at a character *)

Lemma split_pieces c s : Forall (without c) (split_at c s).
Proof.
  induction s as [|a s IH]; cbn [split_at]; [by repeat constructor|].
  destruct (Ascii.eqb_spec a c) as [->|Hne]; [constructor; [constructor|done]|].
  destruct (split_at c s) as [|w ws]; [by repeat constructor; apply not_char_ne|].
  apply Forall_cons in IH as [Hw IH]. constructor; [|done]. constructor; [by apply not_char_ne|done].
Qed.

Lemma join_split c s : join_with (String c "") (split_at c s) = s.
Proof.
  induction s as [|a s IH]; cbn [split_at]; [done|]. pose proof (split_at_nonempty c s) as Hne.
  destruct (Ascii.eqb_spec a c) as [->|_]; destruct (split_at c s) as [|w ws]; try done.
  - cbn [join_with] in IH |- *. by rewrite IH.
  - destruct ws; cbn [join_with] in IH |- *; by rewrite <- IH.
Qed.

(** The shapes of what is split in at most two. *)
Lemma split_one c s w : split_at c s = [w] -> s = w /\ without c w.
Proof.
  intros E. pose proof (join_split c s) as HJ. pose proof (split_pieces c s) as HP. rewrite E in HJ, HP.
  by apply Forall_cons in HP as [? _].
Qed.
Lemma split_two c s w v : split_at c s = [w; v] -> s = w +:+ String c v /\ without c w /\ without c v.
Proof.
  intros E. pose proof (join_split c s) as HJ. pose proof (split_pieces c s) as HP. rewrite E in HJ, HP.
  rewrite !Forall_cons in HP. destruct HP as (? & ? & _). by split_and!.
Qed.
Lemma split_cut c s w ws : split_at c s = w :: ws -> ws <> [] -> exists rest, s = w +:+ String c rest.
Proof.
  intros E Hne. pose proof (join_split c s) as HJ. rewrite E in HJ. destruct ws as [|v ws]; [done|].
  by exists (join_with (String c "") (v :: ws)).
Qed.

(** ** Values and ranges *)

(** A name of the table is not a number, and has one value. *)
Definition sane_bound (b : cronBound) : bool :=
  (0 <=? cb_min b) &&
  forallb (fun p : string * Z => match Atoi (fst p) with None => true | Some _ => false end) (cb_names b) &&
  bool_decide (NoDup (fst <$> cb_names b)).

Lemma find_name (l : list (string * Z)) s v :
  NoDup (fst <$> l) -> (exists k, List.find (fun p => String.eqb (fst p) s) l = Some (k, v)) <-> (s, v) ∈ l.
Proof.
  induction l as [|[k n] l IH]; cbn [List.find fst fmap list_fmap].
  { intros _. split; [by intros [? ?]|by intros ?%not_elem_of_nil]. }
  intros [Hk Hl]%NoDup_cons. destruct (String.eqb_spec k s) as [->|Hne].
  - split; [intros [? [= <- <-]]; apply list_elem_of_here|]. intros [[= ->]|Hin]%elem_of_cons; [by eexists|].
    destruct Hk. apply list_elem_of_fmap. by exists (s, v).
  - rewrite IH by done. rewrite elem_of_cons. naive_solver.
Qed.

(** A number has no letters. *)
Definition low_char (a : Ascii.ascii) : bool := (byte_of a <? 65)%N.

Lemma digits_low x s n : digits x s = Some n -> str_forall low_char s.
Proof.
  revert x. induction s as [|a s IH]; intros x; cbn [digits]; [by constructor|].
  destruct (digit a) as [d|] eqn:Ed; [|done]. intros HD. constructor; [|by eapply IH].
  unfold digit in Ed. unfold low_char, byte_of. destruct ((48 <=? _) && _)%N eqn:E; [|done].
  apply andb_true_iff in E as [_ E%N.leb_le]. apply N.ltb_lt. lia.
Qed.

Lemma unsigned_low s n : unsigned s = Some n -> str_forall low_char s.
Proof. destruct s; [done|]. apply digits_low. Qed.

Lemma Atoi_low s n : Atoi s = Some n -> str_forall low_char s.
Proof.
  unfold Atoi. destruct (CutPrefix s "-") as [r|] eqn:E1; [|destruct (CutPrefix s "+") as [r|] eqn:E2].
  - apply CutPrefix_Some in E1 as ->. destruct (unsigned r) eqn:E; [|done]. intros _. constructor; [done|by eapply unsigned_low].
  - apply CutPrefix_Some in E2 as ->. destruct (unsigned r) eqn:E; [|done]. intros _. constructor; [done|by eapply unsigned_low].
  - destruct (unsigned s) eqn:E; [|done]. intros _. by eapply unsigned_low.
Qed.

Lemma lower_low s : str_forall low_char s -> ToLower s = s.
Proof.
  unfold ToLower, str_forall. intros HF. rewrite <- (String.string_of_list_ascii_of_string s) at 2. f_equal.
  induction HF as [|a l Ha _ IH]; [done|]. cbn. rewrite IH. f_equal. unfold ascii_lower.
  unfold low_char, byte_of in Ha. apply N.ltb_lt in Ha. rewrite (proj2 (N.leb_gt 65 _)) by lia. done.
Qed.

Section Bound.
Context (b : cronBound).
Context (Hsane : sane_bound b = true).

Lemma sane_parts :
  0 <= cb_min b /\ (forall k n, (k, n) ∈ cb_names b -> Atoi k = None) /\ NoDup (fst <$> cb_names b).
Proof.
  unfold sane_bound in Hsane. rewrite !andb_true_iff in Hsane. destruct Hsane as [[H1 H2] H3].
  split; [by apply Z.leb_le|]. split; [|by apply bool_decide_eq_true in H3].
  intros k n Hin. rewrite forallb_forall in H2. specialize (H2 (k, n)). cbn in H2. destruct (Atoi k); [|done].
  discriminate H2. by apply list_elem_of_In.
Qed.

Lemma cronValue_spec s n : cronValue s b = inr n <-> Value b s n.
Proof.
  destruct sane_parts as (Hmin & Hnum & HN). pose proof (find_name (cb_names b) (ToLower s)) as HF.
  unfold cronValue. destruct (List.find _ _) as [[k v]|] eqn:EF.
  - assert (Hv : (ToLower s, v) ∈ cb_names b) by (apply HF; [done|by exists k]). split.
    + intros [= <-]. by eapply Value_name.
    + inversion 1 as [s' k' n' Hin Hk|s' n' Ha Hb]; subst.
      * apply HF in Hin as [k' Hk']; [|done]. by injection Hk' as _ ->.
      * apply Hnum in Hv. rewrite lower_low in Hv by (by eapply Atoi_low). congruence.
  - split.
    + destruct (Atoi s) as [z|] eqn:EA; [|done]. destruct ((z <? 0) || (z <? cb_min b) || (cb_max b <? z)) eqn:E; [done|].
      intros [= <-]. rewrite !orb_false_iff, !Z.ltb_ge in E. destruct E as [[E1 E2] E3]. by eapply Value_number.
    + inversion 1 as [s' k' n' Hin Hk|s' n' Ha Hb]; subst.
      * apply HF in Hin as [k' Hk']; [|done]. done.
      * rewrite Ha. destruct Hb as [Hb1 Hb2]. rewrite !(proj2 (Z.ltb_ge _ _)) by lia. done.
Qed.

Lemma wildcard_spec s : String.eqb s "*" || String.eqb s "?" = true <-> s ∈ ["*"; "?"].
Proof. rewrite orb_true_iff, !String.eqb_eq, !elem_of_cons, elem_of_nil. naive_solver. Qed.

Lemma wildcard_without w : w ∈ ["*"; "?"] -> without dash w.
Proof. rewrite !elem_of_cons, elem_of_nil. intros [->|[->|[]]]; by repeat constructor. Qed.

Lemma validateRange_spec term r : validateRange term (split_at dash r) b = None <-> Range b r.
Proof.
  split.
  - destruct (split_at dash r) as [|low more] eqn:ES; [by destruct (split_at_nonempty dash r)|]. cbn [validateRange].
    destruct (String.eqb low "*" || String.eqb low "?") eqn:EW.
    + intros _. apply wildcard_spec in EW. destruct more as [|h more].
      * apply split_one in ES as [-> _]. by apply Range_any.
      * destruct (split_cut _ _ _ _ ES) as [rest ->]; [done|]. by apply Range_ignored.
    + destruct more as [|high [|? ?]]; [| |done]; destruct (cronValue low b) as [?|lo] eqn:EL; try done.
      * intros _. apply split_one in ES as [-> Hd]. eapply Range_one; [done|]. by apply cronValue_spec.
      * destruct (cronValue high b) as [?|hi] eqn:EH; [done|]. destruct (Z.ltb_spec hi lo) as [|Hle]; [done|]. intros _.
        apply split_two in ES as (-> & Hd1 & Hd2). eapply Range_between; try done; by apply cronValue_spec.
  - destruct 1 as [w Hw|w rest Hw|s n Hd Hv|s1 s2 lo hi Hd1 Hd2 Hv1 Hv2 Hle].
    + rewrite split_none by (by apply wildcard_without). cbn [validateRange]. by rewrite (proj2 (wildcard_spec w)).
    + rewrite split_first by (by apply wildcard_without). cbn [validateRange]. by rewrite (proj2 (wildcard_spec w)).
    + rewrite split_none by done. cbn [validateRange]. apply cronValue_spec in Hv. rewrite Hv. by destruct (_ || _).
    + rewrite split_first, split_none by done. cbn [validateRange]. apply cronValue_spec in Hv1, Hv2. rewrite Hv1, Hv2.
      rewrite (proj2 (Z.ltb_ge _ _)) by lia. by destruct (_ || _).
Qed.

Lemma validateTerm_spec t : validateCronTerm t b = None <-> Term b t.
Proof.
  unfold validateCronTerm. split.
  - destruct (split_at slash t) as [|range [|step [|? ?]]] eqn:ES; try done.
    + apply split_one in ES as [-> Hs]. intros HV. apply Term_range; [done|]. by eapply validateRange_spec.
    + apply split_two in ES as (-> & Hs1 & Hs2). destruct (Atoi step) as [n|] eqn:EA; [|done].
      destruct (Z.ltb_spec 0 n); [|done]. intros HV. eapply Term_step; try done. by eapply validateRange_spec.
  - destruct 1 as [r Hs HR|r s n Hs1 Hs2 HR HA Hn].
    + rewrite split_none by done. by apply validateRange_spec.
    + rewrite split_first, split_none by done. rewrite HA, (proj2 (Z.ltb_lt 0 n)) by done. by apply validateRange_spec.
Qed.

Lemma validateField_spec f : validateCronField f b = None <-> Field b f.
Proof.
  unfold validateCronField.
  assert (HT : forall ts,
    match first_error (fun t => validateCronTerm t b) (List.filter (fun t => negb (String.eqb t "")) ts) with
    | Some t => Some t
    | None => if (length (List.filter (fun t => negb (String.eqb t "")) ts) =? 0)%nat then Some (Sprintf "%q has no terms" [AStr f])
              else None
    end = None <-> Forall (fun t => t = "" \/ Term b t) ts /\ List.Exists (fun t => t <> "") ts).
  { intros ts. transitivity (Forall (fun t => validateCronTerm t b = None) (List.filter (fun t => negb (String.eqb t "")) ts) /\
      List.filter (fun t => negb (String.eqb t "")) ts <> []).
    - rewrite <- first_error_none. destruct (first_error _ _); [naive_solver|]. destruct (List.filter _ ts); naive_solver.
    - rewrite Forall_forall, Forall_forall, Exists_exists. split.
      + intros [HF HN]. split.
        * intros t Ht. destruct (String.eqb_spec t "") as [|Hne]; [by left|]. right. apply validateTerm_spec, HF.
          apply list_elem_of_In, filter_In. split; [by apply list_elem_of_In|]. by destruct (String.eqb_spec t "").
        * destruct (List.filter _ ts) as [|t l] eqn:E; [done|]. exists t.
          assert (Hin : In t (List.filter (fun t => negb (String.eqb t "")) ts)) by (rewrite E; by left).
          apply filter_In in Hin as [Hin Ht]. split; [by apply list_elem_of_In|]. by destruct (String.eqb_spec t "").
      + intros [HF (t & Ht & Hne)]. split.
        * intros u [Hu Hn]%list_elem_of_In%filter_In. apply list_elem_of_In in Hu. apply validateTerm_spec.
          destruct (HF u Hu) as [->|]; done.
        * intros E. apply list_elem_of_In in Ht. assert (Hin : In t (List.filter (fun t => negb (String.eqb t "")) ts)).
          { apply filter_In. split; [done|]. by destruct (String.eqb_spec t ""). }
          by rewrite E in Hin. }
  rewrite (HT (split_at comma_char f)). split.
  - intros [HF HE]. rewrite <- (join_split comma_char f). apply Field_terms; [apply split_pieces|done|done].
  - destruct 1 as [ts Hc HF HE]. rewrite split_join; [done| |exact Hc]. by destruct HE.
Qed.
End Bound.

Lemma predefined_spec s : validatePredefined s = None <-> Predefined s.
Proof.
  unfold validatePredefined. split.
  - destruct (existsb _ _) eqn:EX.
    { intros _. apply existsb_exists in EX as (p & Hin & E%String.eqb_eq). subst. apply Predefined_name. by apply list_elem_of_In. }
    destruct (CutPrefix s "@every ") as [arg|] eqn:E1.
    { apply CutPrefix_Some in E1 as ->. destruct (ParseDuration arg) as [d|] eqn:ED; [|done].
      destruct (Z.ltb_spec d Second); [done|]. intros _. by eapply Predefined_every. }
    destruct (CutPrefix s "@at ") as [arg|] eqn:E2; [|done]. apply CutPrefix_Some in E2 as ->.
    destruct (valid_rfc3339 arg) eqn:EV; [|done]. intros _. by apply Predefined_at.
  - destruct 1 as [s Hs|arg d HD Hd|arg HA].
    + rewrite (proj2 (existsb_exists _ _)); [done|]. exists s. split; [by apply list_elem_of_In|]. apply String.eqb_refl.
    + destruct (existsb _ _); [done|]. rewrite (proj2 (CutPrefix_Some _ "@every " arg) eq_refl), HD.
      by rewrite (proj2 (Z.ltb_ge d Second)).
    + destruct (existsb _ _); [done|]. destruct (CutPrefix ("@at " +:+ arg) "@every ") as [r|] eqn:E.
      { by apply CutPrefix_Some in E. }
      by rewrite (proj2 (CutPrefix_Some _ "@at " arg) eq_refl), HA.
Qed.

Lemma fields_spec (label : string -> cronBound -> Text -> Text) fs bs :
  Forall (fun b => sane_bound b = true) bs -> length fs = length bs ->
  first_error (fun fb => match validateCronField (fst fb) (snd fb) with Some t => Some (label (fst fb) (snd fb) t) | None => None end)
    (zip fs bs) = None <-> Forall2 Field bs fs.
Proof.
  intros HB. revert fs. induction HB as [|b bs Hb HB IH]; intros [|f fs]; try done.
  intros Hl%Nat.succ_inj. cbn [zip zip_with first_error fst snd]. rewrite Forall2_cons, <- (validateField_spec b Hb), <- (IH fs Hl).
  destruct (validateCronField f b); [|naive_solver]. split; [done|by intros [? _]].
Qed.

