(* ===== verification/LogProps.v ===== *)
(** * The log of an execution

    The indices of the events, the numbers they hand out, and the status the
    state shows. *)

From S2P Require Import Prelude Json Hash Names Expr Flow Event Cmd Reduce State StateFacts.
From S2P Require Import View Decide Numbering DecideRun DecideOps DecideProps.

(** ** Indices *)

(** The fold refuses a log with a hole: an event whose index is not the next one is
    an [ErrApply] error, and changes nothing. *)
Theorem gap_detected def s ev :
  match ev_Data ev with DForked _ | DContinued _ => False | _ => True end ->
  ev_Index ev <> 0 -> ev_Index ev <> s_Events s + 1 ->
  exists e, Apply def s ev = Err e /\ errors_is e ErrApply = true.
Proof.
  intros Hd H0 H1. unfold Apply. assert (expected_index s ev = Ok (s_Events s + 1)) as ->.
  { unfold expected_index. by destruct (ev_Data ev). }
  simpl. apply Z.eqb_neq in H0, H1. rewrite H0, H1. simpl. eexists. by split.
Qed.

Lemma apply_events def s ev s' :
  replaces_state (ev_Data ev) = false -> apply_ def s ev = Ok s' -> s_Events s' = s_Events s.
Proof.
  intros Hr H1. destruct ev as [ty v tm ix c tr data sq de]; simpl in Hr.
  destruct data; try discriminate Hr; by apply_cases H1.
Qed.

Lemma emit_index t data d d' :
  Shaped d t data -> emit t data d = Ok d' ->
  s_Events (d_st d') = s_Events (d_st d) + 1 /\ d_out d' = d_out d ++ [emit_event t data d] /\
  ev_Index (emit_event t data d) = s_Events (d_st d) + 1.
Proof.
  intros HS He. destruct (emit_apply _ _ _ _ HS He) as (s & Ha & ->). simpl.
  pose proof (apply_events _ _ (emit_event t data d) _ (proj2 HS) Ha) as Hev.
  destruct (finish_frame (emit_event t data d) s) as (x & up & -> & _). simpl. rewrite Hev.
  split; [done|]. split; [done|]. destruct HS as [-> Hr]. by destruct data.
Qed.

Definition indexed_from (n : Z) (evs : list FoldEvent) : Prop :=
  forall i ev, evs !! i = Some ev -> ev_Index ev = n + Z.of_nat i + 1.

Lemma indexed_app n l1 l2 : indexed_from n l1 -> indexed_from (n + len l1) l2 -> indexed_from n (l1 ++ l2).
Proof.
  intros H1 H2 i ev [Hi|[Hi Hl]]%lookup_app_Some; [by apply H1|].
  rewrite (H2 _ _ Hl). unfold len. lia.
Qed.

Lemma emits_indexed d d' :
  Emits d d' -> exists evs, d_out d' = d_out d ++ evs /\ indexed_from (s_Events (d_st d)) evs /\
    s_Events (d_st d') = s_Events (d_st d) + len evs.
Proof.
  induction 1 as [d|d t data d1 d2 HS He _ (evs & Ho & Hi & Hn)].
  { exists []. rewrite app_nil_r. split; [done|]. split; [by intros i ev ?|]. unfold len. simpl. lia. }
  destruct (emit_index _ _ _ _ HS He) as (H1 & H2 & H3). exists (emit_event t data d :: evs).
  split; [by rewrite Ho, H2, <- app_assoc|]. split; [|unfold len in *; simpl; lia].
  intros [|i] ev Hl; [injection Hl as <-; lia|]. apply Hi in Hl. lia.
Qed.

Section Log.
Context `{Evaluator}.

(** The events of an execution are numbered from one, without gap, in the order they
    were emitted, across continuations too; the state counts them. *)
Theorem log_is_dense def id log st :
  Life def id log st -> indexed_from 0 log /\ s_Events st = len log.
Proof.
  induction 1 as [|log st evs st' _ [Hi Hn]
    [(now & cmdID & d & (HE & _) & <- & <-)|(seg & ev & _ & _ & -> & _ & Hev & ->)]%Step_cases].
  - split; [by intros i ev ?|done].
  - apply sends_emits, emits_indexed in HE as (evs & -> & Hi2 & Hn2). simpl in *. rewrite Hn in Hi2.
    split; [by apply indexed_app|]. unfold len in *. rewrite length_app. lia.
  - split.
    + apply indexed_app; [done|]. intros [|i] ev' Hl; [|done]. injection Hl as <-. simpl. lia.
    + match goal with |- context [finish ?e ?s] => destruct (finish_frame e s) as (x & up & -> & _) end.
      simpl. unfold len in *. rewrite length_app. simpl. lia.
Qed.

(** ** Numbers *)

(** The number an event allocates: of the generation of a first attempt, of a
    timer, of a child. *)
Definition allocated (ev : FoldEvent) : option Z :=
  match ev_Data ev with
  | DScheduled x => if Scheduled_Attempt x =? 1 then Some (Scheduled_Generation x) else None
  | DTimer x => Some (Timer_N x)
  | DChild x => Some (Child_ChildN x)
  | _ => None
  end.

Definition started_child (ev : FoldEvent) : option string :=
  match ev_Data ev with DChild x => Some (Child_ChildID x) | _ => None end.

(** Numbers handed out between two values of the counter. *)
Definition allocates (lo hi : Z) (evs : list FoldEvent) : Prop :=
  StronglySorted Z.lt (omap allocated evs) /\ Forall (fun n => lo < n <= hi) (omap allocated evs) /\
  Forall (fun ev => match ev_Data ev with
                    | DChild x => exists p, Child_ChildID x = ChildID p (Child_ChildN x)
                    | _ => True
                    end) evs.

Lemma StronglySorted_app {A} (R : A -> A -> Prop) l1 l2 :
  StronglySorted R l1 -> StronglySorted R l2 -> (forall x y, x ∈ l1 -> y ∈ l2 -> R x y) ->
  StronglySorted R (l1 ++ l2).
Proof.
  induction 1 as [|a l1 Hs IH Ha]; intros H2 HR; simpl; [done|]. constructor.
  - apply IH; [done|]. intros x y Hx. apply HR. by right.
  - apply Forall_app. split; [done|]. apply Forall_forall. intros y Hy. apply HR; [by left|done].
Qed.

Lemma allocates_app lo mid hi l1 l2 :
  lo <= mid -> mid <= hi -> allocates lo mid l1 -> allocates mid hi l2 -> allocates lo hi (l1 ++ l2).
Proof.
  intros HL1 HL2 (S1 & F1 & C1) (S2 & F2 & C2). unfold allocates. rewrite omap_app. split; [|split].
  - apply StronglySorted_app; [done|done|]. intros x y Hx Hy.
    rewrite Forall_forall in F1, F2. specialize (F1 _ Hx). specialize (F2 _ Hy). lia.
  - apply Forall_app. split; (eapply Forall_impl; [eassumption|]; simpl; lia).
  - by apply Forall_app.
Qed.

(** An event that allocates takes the next number. *)
Lemma legal_allocates d t data d1 :
  Legal d t data -> numbered (d_st d) -> emit t data d = Ok d1 ->
  allocates (s_N (d_st d)) (s_N (d_st d1)) [emit_event t data d].
Proof.
  intros HL Hn He. pose proof (Legal_Shaped _ _ _ HL) as HS. destruct HL as (Ht & _ & Hg).
  assert (Hmax : forall n, allocated (emit_event t data d) = Some n -> n = s_N (d_st d) + 1 /\ n <= s_N (d_st d1)).
  { destruct data; try done; unfold allocated; simpl; intros n.
    - destruct (Z.eqb_spec (Scheduled_Attempt d0) 1) as [E|]; [|done]. intros [= <-]. simpl in Hg.
      destruct Hg as [[Hg _]|(tk & Hk & _ & Hg & _)]; cycle 1.
      { apply (wf_task_attempt _ _ _ Hn) in Hk. lia. }
      split; [done|]. subst t. clear - He. emit_frame He; simpl; lia.
    - intros [= <-]. destruct Hg as [Hg _]. split; [done|]. subst t. clear - He. emit_frame He; simpl; lia.
    - intros [= <-]. destruct Hg as [Hg _]. split; [done|]. subst t. clear - He. emit_frame He; simpl; lia. }
  unfold allocates. simpl. split; [|split].
  - destruct (allocated _); repeat constructor.
  - destruct (allocated _) as [n|]; [|constructor]. destruct (Hmax n eq_refl). repeat constructor; lia.
  - constructor; [|constructor]. destruct data; simpl; try done. destruct Hg as (-> & Hg & _). eauto.
Qed.

Lemma run_allocates d d' :
  Run d d' -> WF (d_st d) ->
  exists evs, d_out d' = d_out d ++ evs /\ s_N (d_st d) <= s_N (d_st d') /\
    allocates (s_N (d_st d)) (s_N (d_st d')) evs.
Proof.
  induction 1 as [d|d t data d1 d2 HL He _ IH]; intros Hw.
  { exists []. rewrite app_nil_r. repeat split; try done; simpl; constructor. }
  destruct (emit_WF _ _ _ _ HL Hw He) as (Hw1 & _). destruct (IH Hw1) as (evs & Ho & HN & Ha).
  pose proof (Legal_Shaped _ _ _ HL) as HS. destruct (emit_index _ _ _ _ HS He) as (_ & H2 & _).
  destruct (emit_grows _ _ _ _ HS He) as (_ & HN1 & _).
  exists (emit_event t data d :: evs). split; [by rewrite Ho, H2, <- app_assoc|]. split; [lia|].
  apply (allocates_app _ (s_N (d_st d1)) _ [emit_event t data d]); [done|done| |done].
  apply legal_allocates; [done|by destruct Hw|done].
Qed.

Lemma life_allocates def id log st : Life def id log st -> allocates 0 (s_N st) log.
Proof.
  induction 1 as [|log st evs st' HL IH
    [(now & cmdID & d & (_ & HR & _) & <- & <-)|(seg & ev & _ & _ & -> & Ht & _ & ->)]%Step_cases].
  - repeat split; simpl; constructor.
  - apply life_WF in HL. destruct (run_allocates _ _ (HR HL) HL) as (evs & -> & HN & Ha). simpl in *.
    apply (allocates_app _ (s_N st)); [|done|done|done]. by destruct HL as [[]].
  - pose proof (life_WF _ _ _ _ HL) as [[] _ _].
    match goal with |- context [finish ?e ?s] => destruct (finish_frame e s) as (x & up & -> & _) end.
    apply (allocates_app _ (s_N st)); [done|done|done|]. destruct Ht as [_ [x' Hx]].
    unfold allocates. cbn [omap list_omap]. unfold allocated. rewrite Hx. repeat split; try constructor.
    + by rewrite Hx.
    + constructor.
Qed.

Lemma children_of_log lo hi evs :
  allocates lo hi evs -> 0 <= lo -> NoDup (omap started_child evs).
Proof.
  intros (HS & HF & HC) Hlo. induction evs as [|ev evs IH]; [constructor|].
  inversion HC as [|? ? Hc HC']; subst. cbn [omap list_omap] in *. unfold started_child at 1.
  assert (HS' : StronglySorted Z.lt (omap allocated evs) /\ Forall (fun n => lo < n <= hi) (omap allocated evs)).
  { destruct (allocated ev); [|done]. by apply StronglySorted_inv in HS as [? _]; apply Forall_cons in HF as [_ ?]. }
  destruct HS' as [HS' HF']. destruct (ev_Data ev) eqn:Ed; try (by apply IH). constructor; [|by apply IH].
  unfold allocated in HS, HF. rewrite Ed in HS, HF. apply StronglySorted_inv in HS as [_ Hlt].
  apply Forall_cons in HF as [Hd _]. destruct Hc as [p Hp].
  intros (ev2 & Hin & Hs2)%list_elem_of_omap. unfold started_child in Hs2.
  destruct (ev_Data ev2) eqn:Ed2; try done. injection Hs2 as Hid.
  rewrite Forall_forall in HC'. specialize (HC' _ Hin). rewrite Ed2 in HC'. destruct HC' as [p2 Hp2].
  assert (Hn2 : Child_ChildN d0 ∈ omap allocated evs).
  { apply list_elem_of_omap. exists ev2. split; [done|]. unfold allocated. by rewrite Ed2. }
  rewrite Forall_forall in Hlt, HF'. specialize (Hlt _ Hn2). specialize (HF' _ Hn2).
  rewrite Hp, Hp2 in Hid. apply ChildID_number in Hid; lia.
Qed.

(** C38. No number is used twice in the life of an execution: the numbers its events allocate
    (generations, timers, children) strictly increase along the log, up to [N];
    so no two children of an execution ever have the same id. *)
Theorem numbers_never_reused def id log st :
  Life def id log st ->
  StronglySorted Z.lt (omap allocated log) /\ Forall (fun n => 0 < n <= s_N st) (omap allocated log) /\
  NoDup (omap started_child log).
Proof.
  intros HL. pose proof (life_allocates _ _ _ _ HL) as Ha. pose proof Ha as (HS & HF & _).
  split; [done|]. split; [done|]. by eapply children_of_log.
Qed.

(** ** Status *)

Definition status_fresh (s : State) : Prop :=
  Terminal (s_Status s) = true \/ s_Status s = SNone \/ s_Status s = s_Status (recomputeStatus s).

Lemma finish_fresh ev s : status_fresh (finish ev s).
Proof.
  unfold finish. set (s1 := if IsZero _ then _ else _). destruct (Terminal (s_Status s1)) eqn:Et; simpl; [by left|].
  case_bool_decide as En; simpl; [right; by left|]. right; right.
  unfold recomputeStatus at 1 3. repeat case_match; unfold recomputeStatus; simpl;
    repeat match goal with E : ?b = _ |- context [?b] => rewrite E end; done.
Qed.

Lemma chain_fresh G d d' : Chain G d d' -> status_fresh (d_st d) -> status_fresh (d_st d').
Proof.
  induction 1 as [|d t data d1 d2 _ He _ IH]; [done|]. intros _. apply IH.
  apply emit_inv in He as (st & Ha & ->). simpl. unfold Apply in Ha. apply res_bind_ok in Ha as (ex & _ & Ha).
  destruct (_ && _); [done|]. apply res_bind_ok in Ha as (s & _ & [= <-]). apply finish_fresh.
Qed.

Lemma life_fresh def id log st : Life def id log st -> status_fresh st.
Proof.
  induction 1 as [|log st evs st' _ IH
    [(now & cmdID & d & (HE & _) & _ & <-)|(seg & ev & _ & _ & _ & _ & _ & ->)]%Step_cases].
  - right. by left.
  - by eapply (chain_fresh _ (new_decider def st now cmdID)).
  - apply finish_fresh.
Qed.

(** The status of an execution in progress says what it is doing: it is waiting exactly
    when nothing is in flight but awaits and interrupted instances (and at
    least one of them), and running otherwise. *)
Theorem status_means def id log st :
  Life def id log st -> Exists st = true -> Terminal (s_Status st) = false ->
  let idle := map_Forall (fun _ t => t_Status t = TaskInterrupted) (s_Tasks st) /\
              s_Children st = ∅ /\ s_Maps st = ∅ /\ (s_Awaits st <> ∅ \/ s_Tasks st <> ∅) in
  (s_Status st = StatusWaiting /\ idle) \/ (s_Status st = StatusRunning /\ ~ idle).
Proof.
  intros HL Ex Et idle. pose proof (life_WF _ _ _ _ HL) as [_ _ [Hn _]].
  apply life_fresh in HL as [?|[Hs|Hs]]; [congruence|apply Hn in Hs; unfold Exists in Ex; lia|].
  unfold idle. rewrite Hs. unfold recomputeStatus.
  case_bool_decide as Hr; simpl.
  { right. split; [done|]. intros [Hi _]. destruct Hr as (k & t & Hk & Ht). by apply Ht, (Hi k). }
  assert (Hall : map_Forall (fun _ t => t_Status t = TaskInterrupted) (s_Tasks st)).
  { intros k t Hk. destruct (decide (t_Status t = TaskInterrupted)); [done|]. exfalso. apply Hr. by exists k, t. }
  destruct (decide (s_Children st = ∅)), (decide (s_Maps st = ∅));
    repeat case_bool_decide; simpl; try tauto; right; split; try done; tauto.
Qed.
End Log.
