(* ===== verification/Flight.v ===== *)
(** * What is in flight, event by event

    [flight s] is the part of a state that says what the execution is doing:
    instances, fan-outs, map runs, awaits, children, timers, the number last
    allocated and the signals buffered.  [flight_step]
    is the fold restricted to it, a total function; [applicable] is when an
    event applies without an error.  The invariants of executions of a valid
    flow are proved on flights. *)

From S2P Require Import Prelude Json Hash Names Expr Flow Event Cmd Reduce State StateFacts.
From S2P Require Import View Decide Writes Numbering DecideRun DecideOps.

Record Flight := MkFlight {
  fl_tasks : gmap string Task; fl_fans : gmap string Fan; fl_maps : gmap string MapRun;
  fl_awaits : gmap string AwaitState; fl_children : gmap string ChildState; fl_timers : gmap string Timer;
  fl_N : Z; fl_buffered : list Buffered }.

Definition flight (s : State) : Flight := {|
  fl_tasks := s_Tasks s; fl_fans := s_Fans s; fl_maps := s_Maps s; fl_awaits := s_Awaits s;
  fl_children := s_Children s; fl_timers := s_Timers s; fl_N := s_N s; fl_buffered := s_Buffered s |}.

Definition Flight_eta (f : Flight) : Flight :=
  MkFlight (fl_tasks f) (fl_fans f) (fl_maps f) (fl_awaits f) (fl_children f) (fl_timers f) (fl_N f) (fl_buffered f).
Definition set_fl_tasks (v : gmap string Task) (f : Flight) : Flight := ltac:(assign Flight_eta f fl_tasks v).
Definition set_fl_fans (v : gmap string Fan) (f : Flight) : Flight := ltac:(assign Flight_eta f fl_fans v).
Definition set_fl_maps (v : gmap string MapRun) (f : Flight) : Flight := ltac:(assign Flight_eta f fl_maps v).
Definition set_fl_awaits (v : gmap string AwaitState) (f : Flight) : Flight := ltac:(assign Flight_eta f fl_awaits v).
Definition set_fl_children (v : gmap string ChildState) (f : Flight) : Flight :=
  ltac:(assign Flight_eta f fl_children v).
Definition set_fl_timers (v : gmap string Timer) (f : Flight) : Flight := ltac:(assign Flight_eta f fl_timers v).
Definition set_fl_N (v : Z) (f : Flight) : Flight := ltac:(assign Flight_eta f fl_N v).
Definition set_fl_buffered (v : list Buffered) (f : Flight) : Flight := ltac:(assign Flight_eta f fl_buffered v).

(** Nothing is in flight. *)
Definition ground (f : Flight) : Flight := MkFlight ∅ ∅ ∅ ∅ ∅ ∅ (fl_N f) (fl_buffered f).

(** ** One event *)

(** The task an event schedules, after [prev] under the same key. *)
Definition scheduled_task (d : Scheduled) (prev : option Task) : Task := {|
  t_Key := Scheduled_Key d; t_Node := Scheduled_Node d; t_Kind := Scheduled_Kind d;
  t_Index := Scheduled_Index d; t_Owner := Scheduled_Owner d;
  t_Generation := Scheduled_Generation d; t_Attempt := Scheduled_Attempt d;
  t_Status := TaskScheduled; t_Item := Scheduled_Item d; t_Resume := Scheduled_Resume d;
  t_ResumedBy := Scheduled_ResumedBy d;
  t_Interrupt := match prev, Scheduled_Resume d with Some prev, Some _ => t_Interrupt prev | _, _ => None end |}.

(** The run of map [owner], if (node, owner) is an item of it. *)
Definition item_of (ms : gmap string MapRun) (nd owner : string) : option MapRun :=
  if String.eqb nd owner then ms !! owner else None.

(** The map runs once item [index] of (node, owner) is in flight. *)
Definition next_maps (nd owner : string) (index : Z) (ms : gmap string MapRun) : gmap string MapRun :=
  match item_of ms nd owner with
  | Some m => <[owner := set_m_Next (Z.max (m_Next m) (index + 1)) m]> ms
  | None => ms
  end.

Definition fl_item_done (owner : string) (m : MapRun) (index : Z) (out : RawMessage) (f : Flight) : Flight :=
  set_fl_maps (<[owner := m |> set_m_Outputs (<[Z.to_nat index := out]> (m_Outputs m))
                            |> set_m_Done (m_Done m + 1)]> (fl_maps f)) f.

(** The outcome of branch [nd] of fan-out [owner], if there is one. *)
Definition fl_branch (owner nd : string) (st : BranchStatus) (f : Flight) : Flight :=
  match fl_fans f !! owner with
  | Some fan => set_fl_fans (<[owner := {| fan_Join := fan_Join fan;
                                           fan_Branches := <[nd := st]> (fan_Branches fan) |}]> (fl_fans f)) f
  | None => f
  end.

Definition fl_settle (key : string) (st : BranchStatus) (f : Flight) : Flight :=
  match fl_tasks f !! key with
  | None => f
  | Some t => f |> set_fl_tasks (delete key (fl_tasks f)) |> fl_branch (t_Owner t) (t_Node t) st
  end.

Definition fl_close_await (nd : string) (f : Flight) : Flight :=
  f |> set_fl_timers (match fl_awaits f !! nd with
                      | Some a => delete (a_TimerID a) (fl_timers f)
                      | None => fl_timers f
                      end)
    |> set_fl_awaits (delete nd (fl_awaits f)).

(** The key and the child of the end of a child. *)
Definition child_key (d : ChildDone) : string :=
  if String.eqb (ChildDone_Key d) "" then ChildDone_Node d else ChildDone_Key d.
Definition child_ok (d : ChildDone) : bool := String.eqb (ChildDone_Status d) (status_string StatusCompleted).

Definition flight_step (data : FoldData) (f : Flight) : Flight :=
  match data with
  | DCompleted _ | DFailed _ | DCancelled _ => ground f
  | DScheduled x =>
      f |> set_fl_tasks (<[Scheduled_Key x := scheduled_task x (fl_tasks f !! Scheduled_Key x)]> (fl_tasks f))
        |> set_fl_maps (next_maps (Scheduled_Node x) (Scheduled_Owner x) (Scheduled_Index x) (fl_maps f))
        |> set_fl_N (Z.max (fl_N f) (Scheduled_Generation x))
  | DNodeDone x =>
      match fl_tasks f !! NodeDone_Key x with
      | None => f
      | Some t =>
          (match item_of (fl_maps f) (t_Node t) (t_Owner t) with
           | Some m => fl_item_done (t_Owner t) m (t_Index t) (NodeDone_Output x) f
           | None => f
           end) |> fl_settle (NodeDone_Key x) BranchCompleted
      end
  | DNodeFail x =>
      match fl_tasks f !! NodeFail_Key x with
      | None => f
      | Some t =>
          if NodeFail_WillRetry x then
            set_fl_tasks (<[NodeFail_Key x := set_t_Status TaskRetrying t]> (fl_tasks f)) f
          else fl_settle (NodeFail_Key x) BranchFailed f
      end
  | DInterrupted x =>
      match fl_tasks f !! Interrupted_Key x with
      | None => f
      | Some t => set_fl_tasks (<[Interrupted_Key x :=
          t |> set_t_Status TaskInterrupted |> set_t_Interrupt (Interrupted_Payload x)]> (fl_tasks f)) f
      end
  | DNodeCancel x => fl_settle (NodeCancel_Key x) BranchCancelled f
  | DFanout x =>
      set_fl_fans (<[Fanout_Node x := {| fan_Join := Fanout_Join x;
        fan_Branches := foldl (fun m b => <[b := BranchPending]> m) ∅ (Fanout_Branches x) |}]> (fl_fans f)) f
  | DJoin x =>
      f |> set_fl_children (match fl_fans f !! Join_Fanout x with
                            | Some _ => other_children (Join_Fanout x) (fl_children f)
                            | None => fl_children f
                            end)
        |> set_fl_fans (delete (Join_Fanout x) (fl_fans f))
  | DMap x =>
      set_fl_maps (<[Map_Node x := {| m_Items := Map_Items x; m_Outputs := replicate (length (Map_Items x)) None;
        m_Done := 0; m_Next := 0; m_MaxParallel := Map_MaxParallel x |}]> (fl_maps f)) f
  | DMapDone x => set_fl_maps (delete (MapDone_Node x) (fl_maps f)) f
  | DMapAbort x =>
      f |> set_fl_children (other_children (MapAbort_Node x) (fl_children f))
        |> set_fl_maps (delete (MapAbort_Node x) (fl_maps f))
  | DAwait x =>
      set_fl_awaits (<[Await_Node x := {| a_Signal := Await_Signal x; a_TimerID := Await_TimerID x |}]> (fl_awaits f)) f
  | DAwaitTimeout x => fl_close_await (AwaitTimeout_Node x) f
  | DSignal x =>
      set_fl_buffered (fl_buffered f ++
        [{| b_Name := Signal_Name x; b_ID := Signal_ID x; b_Payload := Signal_Payload x |}]) f
  | DSignalUse x =>
      f |> set_fl_buffered (match take_first (fun b => String.eqb (b_ID b) (SignalUse_ID x)) (fl_buffered f) with
                            | Some (_, rest) => rest
                            | None => fl_buffered f
                            end)
        |> fl_close_await (SignalUse_Node x)
  | DChild x =>
      f |> set_fl_children (<[InstanceKey x := {|
             cs_ChildID := Child_ChildID x; cs_Flow := Child_Flow x; cs_Policy := Child_Policy x;
             cs_Node := Child_Node x; cs_Owner := Child_Owner x; cs_Index := Child_Index x |}]> (fl_children f))
        |> set_fl_maps (next_maps (Child_Node x) (Child_Owner x) (Child_Index x) (fl_maps f))
        |> set_fl_N (Z.max (fl_N f) (Child_ChildN x))
  | DChildDone x =>
      let f' := set_fl_children (delete (child_key x) (fl_children f)) f in
      match fl_children f !! child_key x with
      | None => f'
      | Some c =>
          match item_of (fl_maps f) (ChildDone_Node x) (cs_Owner c) with
          | Some m => if child_ok x then fl_item_done (cs_Owner c) m (cs_Index c) (ChildDone_Output x) f' else f'
          | None => fl_branch (cs_Owner c) (ChildDone_Node x) (if child_ok x then BranchCompleted else BranchFailed) f'
          end
      end
  | DTimer x => f |> set_fl_timers (<[Timer_ID x := x]> (fl_timers f)) |> set_fl_N (Z.max (fl_N f) (Timer_N x))
  | DFired x => set_fl_timers (delete (Fired_ID x) (fl_timers f)) f
  | _ => f
  end.

(** ** When an event applies *)

Definition in_range (i : Z) (m : MapRun) : Prop := 0 <= i < len (m_Outputs m).

Definition applicable (def : Flow) (s : State) (data : FoldData) : Prop :=
  match data with
  | DForked _ | DContinued _ => False
  | DNodeDone x =>
      exists t, s_Tasks s !! NodeDone_Key x = Some t /\ CheckWrites def s (NodeDone_Writes x) = Ok tt /\
        forall m, item_of (s_Maps s) (t_Node t) (t_Owner t) = Some m -> in_range (t_Index t) m
  | DInterrupted x => is_Some (s_Tasks s !! Interrupted_Key x)
  | DUpdate x => CheckWrites def s (Update_Writes x) = Ok tt
  | DMapDone x => is_Some (s_Maps s !! MapDone_Node x)
  | DSignalUse x => exists b, b ∈ s_Buffered s /\ b_ID b = SignalUse_ID x
  | DChildDone x =>
      child_ok x = true -> forall c m, s_Children s !! child_key x = Some c ->
        item_of (s_Maps s) (ChildDone_Node x) (cs_Owner c) = Some m -> in_range (cs_Index c) m
  | _ => True
  end.

Lemma take_first_Some (p : Buffered -> bool) l b : b ∈ l -> p b = true -> is_Some (take_first p l).
Proof.
  induction l as [|x l IH]; [by intros ?%elem_of_nil|]. intros [<-|Hb]%elem_of_cons Hp; simpl; [by rewrite Hp|].
  destruct (p x); [eauto|]. destruct (IH Hb Hp) as [[y r] ->]. eauto.
Qed.

Lemma take_first_inv (p : Buffered -> bool) l b r : take_first p l = Some (b, r) -> b ∈ l /\ p b = true.
Proof.
  revert r. induction l as [|x l IH]; intros r; simpl; [done|]. destruct (p x) eqn:E.
  - intros [= <- _]. split; [by left|done].
  - destruct (take_first p l) as [[y r']|]; [|done]. intros [= <- _]. destruct (IH _ eq_refl). split; [by right|done].
Qed.

Lemma slice_set_ok {A} (l : list A) i v : 0 <= i < len l -> slice_set l i v = Ok (<[Z.to_nat i := v]> l).
Proof. intros Hi. unfold slice_set. by rewrite decide_True. Qed.

Lemma flight_settle k o s : flight (settleTask k o s) = fl_settle k o (flight s).
Proof.
  unfold settleTask, fl_settle, fl_branch. cbn [flight fl_tasks]. destruct (s_Tasks s !! k) as [t|]; [|done].
  cbn [set_fl_tasks fl_fans set_Tasks s_Fans flight]. by destruct (s_Fans s !! t_Owner t).
Qed.

Lemma flight_close_await nd s : flight (closeAwait nd s) = fl_close_await nd (flight s).
Proof. unfold closeAwait, fl_close_await. cbn [flight fl_awaits]. by destruct (s_Awaits s !! nd). Qed.

Lemma flight_scheduled d s :
  flight (applyScheduled d s) = flight_step (DScheduled d) (flight s).
Proof.
  unfold applyScheduled. cbn [flight_step]. unfold next_maps, item_of, item_map, scheduled_task.
  cbn [flight fl_tasks fl_maps set_fl_tasks set_Tasks set_N s_Maps].
  by destruct (String.eqb _ _); [destruct (s_Maps s !! _)|].
Qed.

Lemma flight_child d s : flight (applyChild d s) = flight_step (DChild d) (flight s).
Proof.
  unfold applyChild. cbn [flight_step]. unfold next_maps, item_of, item_map.
  cbn [flight fl_children fl_maps set_fl_children set_Children set_N s_Maps].
  by destruct (String.eqb _ _); [destruct (s_Maps s !! _)|].
Qed.

Lemma flight_node_fail d s : flight (applyNodeFail d s) = flight_step (DNodeFail d) (flight s).
Proof.
  unfold applyNodeFail. cbn [flight_step flight fl_tasks]. destruct (s_Tasks s !! _) as [t|]; [|done].
  destruct (NodeFail_WillRetry d); [done|]. by rewrite flight_settle.
Qed.

Lemma flight_item_done owner m i out s :
  in_range i m -> exists s', item_done owner m i out s = Ok s' /\ flight s' = fl_item_done owner m i out (flight s).
Proof. intros Hi. unfold item_done. rewrite slice_set_ok by done. eexists. split; [done|done]. Qed.

Lemma flight_node_done def d s :
  applicable def s (DNodeDone d) ->
  exists s', applyNodeDone (Some def) d s = Ok s' /\ flight s' = flight_step (DNodeDone d) (flight s).
Proof.
  cbn [applicable flight_step]. intros (t & Ht & HC & Hr). unfold applyNodeDone. rewrite Ht.
  destruct (applyWrites_checked _ _ _ HC) as (ch & -> & _). cbn [res_bind flight fl_tasks fl_maps]. rewrite Ht.
  set (s1 := addUsage _ _). change (item_map s1 (t_Node t) (t_Owner t)) with (item_of (s_Maps s) (t_Node t) (t_Owner t)).
  destruct (item_of (s_Maps s) (t_Node t) (t_Owner t)) as [m|] eqn:Em.
  - destruct (flight_item_done (t_Owner t) m (t_Index t) (NodeDone_Output d) s1 (Hr m eq_refl)) as (s2 & -> & H2).
    cbn [res_bind]. eexists. split; [done|]. by rewrite flight_settle, H2.
  - cbn [res_bind]. eexists. split; [done|]. by rewrite flight_settle.
Qed.

Lemma flight_child_done def d s :
  applicable def s (DChildDone d) ->
  exists s', applyChildDone d s = Ok s' /\ flight s' = flight_step (DChildDone d) (flight s).
Proof.
  cbn [applicable flight_step]. intros Hr. unfold applyChildDone. cbv zeta. fold (child_key d) (child_ok d).
  set (s1 := set_Counters _ _). cbn [flight fl_children fl_maps].
  destruct (s_Children s !! child_key d) as [c|] eqn:Ec.
  - change (item_map s1 (ChildDone_Node d) (cs_Owner c)) with (item_of (s_Maps s) (ChildDone_Node d) (cs_Owner c)).
    destruct (item_of (s_Maps s) (ChildDone_Node d) (cs_Owner c)) as [m|] eqn:Em.
    + destruct (child_ok d); [|eexists; split; [done|done]].
      destruct (flight_item_done (cs_Owner c) m (cs_Index c) (ChildDone_Output d) s1) as (s2 & E & H2); [eauto|].
      rewrite E. exists s2. split; [done|]. by rewrite H2.
    + eexists. split; [done|]. unfold fl_branch.
      change (s_Fans s1) with (s_Fans s). cbn [set_fl_children fl_fans flight].
      destruct (s_Fans s !! cs_Owner c), (child_ok d); done.
  - eexists. split; [done|]. by destruct (child_ok d).
Qed.

(** An applicable event applies, and steps the flight. *)
Lemma apply_flight def s ev :
  applicable def s (ev_Data ev) ->
  exists s', apply_ (Some def) s ev = Ok s' /\ flight s' = flight_step (ev_Data ev) (flight s).
Proof.
  destruct ev as [ty v tm ix cid tr data sq de]. cbn [ev_Data]. unfold apply_. cbn [ev_Data ev_Time ev_Index].
  destruct data; intros HA; try (by destruct HA); try (eexists; split; [reflexivity|reflexivity]).
  - eexists. split; [done|apply flight_scheduled].
  - by apply flight_node_done in HA.
  - eexists. split; [done|apply flight_node_fail].
  - destruct HA as [t Ht]. unfold applyInterrupted. cbn [flight_step flight fl_tasks]. rewrite Ht.
    eexists. split; [done|done].
  - eexists. split; [done|apply flight_settle].
  - eexists. split; [done|]. unfold applyJoin. cbn [flight_step flight fl_fans].
    destruct (s_Fans s !! _) as [f|]; [|by destruct (Join_OK d)].
    destruct (dropChildren_frame (Join_Fanout d) s) as [nodes ->]. by destruct (Join_OK d).
  - eexists. split; [done|apply flight_close_await].
  - destruct HA as (b & Hb & Hid). unfold applySignalUse.
    destruct (take_first_Some (fun b => String.eqb (b_ID b) (SignalUse_ID d)) _ b Hb) as [[x r] E];
      [by apply String.eqb_eq|]. rewrite E.
    eexists. split; [done|]. rewrite flight_close_await.
    cbn [flight_step flight fl_buffered]. by rewrite E.
  - unfold applyUpdate. destruct (applyWrites_checked _ _ _ HA) as (ch & -> & _). eexists. split; [done|done].
  - destruct HA as [m Hm]. unfold applyMapDone. rewrite Hm. eexists. split; [done|done].
  - eexists. split; [done|]. unfold applyMapAbort. destruct (dropChildren_frame (MapAbort_Node d) s) as [nodes ->]. done.
  - eexists. split; [done|apply flight_child].
  - by apply flight_child_done in HA.
Qed.

(** ** Emissions *)

(** An error that is not a defect: neither a panic nor an event the fold refuses
    (running out of fuel is excluded elsewhere). *)
Definition benign (e : error) : Prop :=
  match e with Error ks _ => ErrApply ∉ ks | Panic _ => False | OutOfFuel => True end.

(** The operation has post-condition [Q], and fails only with errors in [B]. *)
Definition outcome (B : error -> Prop) (Q : decider -> Prop) (r : result decider) : Prop :=
  match r with Ok d => Q d | Err e => B e end.
Abbreviation ensures := (outcome benign).
Abbreviation surely := (outcome (fun _ => False)).

Lemma ensures_bind B (P Q : decider -> Prop) m (k : Op) :
  outcome B P m -> (forall d, P d -> outcome B Q (k d)) -> outcome B Q (let? d := m in k d).
Proof. destruct m as [d|e]; simpl; auto. Qed.

Lemma ensures_weaken B (P Q : decider -> Prop) m : outcome B P m -> (forall d, P d -> Q d) -> outcome B Q m.
Proof. destruct m as [d|e]; simpl; auto. Qed.

(** The decider is at flight [fl] of definition [def], and live. *)
Record holds (def : Flow) (fl : Flight) (d : decider) : Prop := {
  ho_def : d_def d = def; ho_live : live d; ho_flight : flight (d_st d) = fl }.

(** The execution has ended: nothing is in flight. *)
Record ended (def : Flow) (d : decider) : Prop := {
  en_def : d_def d = def; en_final : Terminal (s_Status (d_st d)) = true; en_flight : flight (d_st d) = ground (flight (d_st d)) }.

Lemma emit_applies t data d :
  t = payload_type data -> applicable (d_def d) (d_st d) data ->
  exists d' s, emit t data d = Ok d' /\ d_def d' = d_def d /\
    flight (d_st d') = flight_step data (flight (d_st d)) /\
    apply_ (Some (d_def d)) (d_st d) (emit_event t data d) = Ok s /\
    Terminal (s_Status (d_st d')) = Terminal (s_Status s).
Proof.
  intros -> HA. destruct (apply_flight (d_def d) (d_st d) (emit_event (payload_type data) data d) HA) as (s & Hs & Hf).
  unfold emit, Apply. assert (Hix : expected_index (d_st d) (emit_event (payload_type data) data d) =
    Ok (ev_Index (emit_event (payload_type data) data d))).
  { unfold expected_index. by destruct data. }
  rewrite Hix. cbn [wrap_apply res_bind]. rewrite Z.eqb_refl, andb_false_r, Hs. cbn [wrap_apply res_bind].
  do 2 eexists. split; [done|]. split; [done|].
  destruct (finish_frame (emit_event (payload_type data) data d) s) as (st & up & Hfin & Hterm & _).
  cbn [set_d_out set_d_st d_st]. rewrite Hfin. split; [exact Hf|]. split; [done|exact Hterm].
Qed.

Lemma emit_holds B def fl t data d :
  holds def fl d -> t = payload_type data -> type_terminal t = false -> applicable def (d_st d) data ->
  outcome B (holds def (flight_step data fl)) (emit t data d).
Proof.
  intros [<- Hl <-] Ht Hnt HA. destruct (emit_applies t data d Ht HA) as (d' & s & He & Hd & Hf & Ha & _).
  rewrite He. split; [done| |done]. eapply emit_live; [split; [done|by destruct data]|done|done|done].
Qed.

Lemma emit_ends def t data d :
  d_def d = def -> t = payload_type data -> type_terminal t = true ->
  ensures (ended def) (emit t data d).
Proof.
  intros <- -> Ht. assert (HA : applicable (d_def d) (d_st d) data) by (by destruct data).
  destruct (emit_applies _ data d eq_refl HA) as (d' & s & He & Hd & Hf & Ha & Hterm).
  rewrite He. split; [done| |rewrite Hf; by destruct data].
  rewrite Hterm. destruct data; try discriminate Ht; unfold emit_event in Ha; by apply_cases Ha.
Qed.

(** Emitting, then going on. *)
Lemma emit_then B def fl t data d Q (k : Op) :
  holds def fl d -> t = payload_type data -> type_terminal t = false -> applicable def (d_st d) data ->
  (forall d', holds def (flight_step data fl) d' -> outcome B Q (k d')) ->
  outcome B Q (let? d' := emit t data d in k d').
Proof. intros. eapply ensures_bind; [by eapply emit_holds|done]. Qed.

Lemma fail_ends def reason msg nd d : d_def d = def -> ensures (ended def) (fail_ reason msg nd d).
Proof. intros. by apply emit_ends. Qed.

(** Compute the flight after an event, on flights whose parts are explicit. *)
Ltac fly H :=
  cbv beta iota zeta delta [flight_step fl_settle fl_branch fl_item_done fl_close_await
    set_fl_tasks set_fl_fans set_fl_maps set_fl_awaits set_fl_children set_fl_timers set_fl_N set_fl_buffered
    fl_tasks fl_fans fl_maps fl_awaits fl_children fl_timers fl_N fl_buffered] in H;
  cbn [Scheduled_Key Scheduled_Node Scheduled_Owner Scheduled_Index Scheduled_Generation Timer_ID Timer_N
    Child_Node Child_Owner Child_Index Child_ChildN NodeDone_Key NodeDone_Output NodeFail_Key NodeFail_WillRetry
    Interrupted_Key NodeCancel_Key Fanout_Node Join_Fanout Map_Node MapDone_Node MapAbort_Node Await_Node
    Await_Signal Await_TimerID AwaitTimeout_Node SignalUse_Node Fired_ID] in H.
