(* ===== verification/Shape.v ===== *)
(** * Where an execution is

    An execution of a valid flow is at one place: a task, an await, a subflow,
    a fan-out with its branches or a map with its items.  [rest] says so of a
    flight between two decisions, and that whatever only a timer wakes up has
    its timer.  The operations of the decider are shown to lead from rest to
    rest or to the end, and to fail only with benign errors. *)

From S2P Require Import Prelude Json Hash Names Expr Flow FlowValidate FlowValid Event Cmd Reduce State.
From S2P Require Import StateFacts View Decide Writes Numbering DecideRun DecideOps Flight.

(** ** Timers *)

Abbreviation timer_id i := ("t" +:+ Itoa i).

(** The timer that wakes up a retrying instance, an await. *)
Definition retry_timer (tms : gmap string Timer) (t : Task) : Prop :=
  exists id tm, tms !! id = Some tm /\ Timer_Purpose tm = TimerRetry /\ Timer_Key tm = t_Key t /\
    Timer_Generation tm = t_Generation t /\ Timer_Attempt tm = t_Attempt t + 1.

Definition await_timer (tms : gmap string Timer) (nd : string) (a : AwaitState) : Prop :=
  exists tm, tms !! a_TimerID a = Some tm /\ Timer_Purpose tm = TimerAwait /\ Timer_Node tm = nd.

(** Instances are stored under their keys and timers under their numbers, and
    every retrying instance and every await has its timer. *)
Record armed (ts : gmap string Task) (aws : gmap string AwaitState) (tms : gmap string Timer) (N : Z) : Prop := {
  ar_N : 0 <= N;
  ar_key k t : ts !! k = Some t -> t_Key t = k /\ t_Generation t <> 0;
  ar_timer k tm : tms !! k = Some tm -> Timer_ID tm = k /\ exists i, k = timer_id i /\ i <= N;
  ar_retry k t : ts !! k = Some t -> t_Status t = TaskRetrying -> retry_timer tms t;
  ar_await nd a : aws !! nd = Some a -> await_timer tms nd a }.

Lemma timer_id_inj i j : timer_id i = timer_id j -> i = j.
Proof. intros [= E]. by apply Itoa_inj. Qed.

Section Armed.
Implicit Types (ts : gmap string Task) (aws : gmap string AwaitState) (tms : gmap string Timer).

Lemma armed_sub ts ts' aws tms N N' : ts' ⊆ ts -> N <= N' -> armed ts aws tms N -> armed ts' aws tms N'.
Proof.
  intros Hs HN [H0 Hk Ht Hr Ha]. split; try done; eauto using lookup_weaken; [lia|].
  intros k tm (E & i & -> & Hi)%Ht. split; [done|]. exists i. split; [done|lia].
Qed.

Lemma armed_settle ts aws tms N k : armed ts aws tms N -> armed (delete k ts) aws tms N.
Proof. apply armed_sub; [apply delete_subseteq|done]. Qed.

Lemma armed_task ts aws tms N k t :
  t_Key t = k -> t_Generation t <> 0 -> t_Status t <> TaskRetrying -> armed ts aws tms N -> armed (<[k := t]> ts) aws tms N.
Proof.
  intros HK HG HS [H0 Hk Ht Hr Ha]. split; try done.
  - intros k' t' [[<- <-]|[_ E]]%lookup_insert_Some; eauto.
  - intros k' t' [[<- <-]|[_ E]]%lookup_insert_Some; [done|]. eauto.
Qed.

(** A timer is set under a number not used before. *)
Lemma armed_fresh ts aws tms N : armed ts aws tms N -> tms !! timer_id (N + 1) = None.
Proof.
  intros HA. apply eq_None_not_Some. intros [tm E]. apply HA in E as (_ & i & E%timer_id_inj & Hi). lia.
Qed.

Lemma retry_timer_sub tms tms' t : tms ⊆ tms' -> retry_timer tms t -> retry_timer tms' t.
Proof. intros Hs (id & tm & E & H). exists id, tm. split; [by eapply lookup_weaken|done]. Qed.

Lemma await_timer_sub tms tms' nd a : tms ⊆ tms' -> await_timer tms nd a -> await_timer tms' nd a.
Proof. intros Hs (tm & E & H). exists tm. split; [by eapply lookup_weaken|done]. Qed.

Lemma armed_set ts aws tms N tm :
  Timer_ID tm = timer_id (N + 1) -> armed ts aws tms N -> armed ts aws (<[Timer_ID tm := tm]> tms) (N + 1).
Proof.
  intros E HA. pose proof (armed_fresh _ _ _ _ HA) as Hf. rewrite <- E in Hf.
  pose proof (insert_subseteq tms _ tm Hf) as Hsub. destruct HA as [H0 Hk Ht Hr Ha].
  split; eauto using retry_timer_sub, await_timer_sub; [lia|].
  intros k x [[<- <-]|[_ (Ei & i & -> & Hi)%Ht]]%lookup_insert_Some.
  - split; [done|]. exists (N + 1). split; [done|lia].
  - split; [done|]. exists i. split; [done|lia].
Qed.

(** A timer that fired wakes up nothing else. *)
Lemma armed_fired ts aws tms N id :
  (forall k t tm, ts !! k = Some t -> t_Status t = TaskRetrying -> tms !! id = Some tm ->
    Timer_Purpose tm = TimerRetry -> Timer_Key tm = k -> Timer_Generation tm = t_Generation t ->
    Timer_Attempt tm <> t_Attempt t + 1) ->
  (forall nd a tm, aws !! nd = Some a -> tms !! id = Some tm -> Timer_Purpose tm = TimerAwait ->
    a_TimerID a = id -> Timer_Node tm <> nd) ->
  armed ts aws tms N -> armed ts aws (delete id tms) N.
Proof.
  intros H1 H2 [H0 Hk Ht Hr Ha]. split; try done.
  - intros k tm [_ E]%lookup_delete_Some. eauto.
  - intros k t E HS. destruct (Hr k t E HS) as (id' & tm & E' & Hp & HK & Hg & Hat).
    destruct (decide (id' = id)) as [->|Hne].
    + exfalso. rewrite (proj1 (Hk k t E)) in HK. by apply (H1 k t tm).
    + exists id', tm. by rewrite lookup_delete_ne.
  - intros nd a E. destruct (Ha nd a E) as (tm & E' & Hp & HK). destruct (decide (a_TimerID a = id)) as [Ei|Hne].
    + exfalso. rewrite Ei in E'. by apply (H2 nd a tm).
    + exists tm. by rewrite lookup_delete_ne.
Qed.

Lemma armed_delete tms N id : armed ∅ ∅ tms N -> armed ∅ ∅ (delete id tms) N.
Proof. apply armed_fired; by intros ? ? ? ?%lookup_empty_Some. Qed.

Lemma armed_empty ts aws tms N : armed ts aws tms N -> armed ∅ ∅ tms N.
Proof.
  intros [H0 Hk Ht Hr Ha]. split; try done; by intros ? ? ?%lookup_empty_Some.
Qed.

(** An instance that retries, with its timer. *)
Lemma armed_retrying ts aws tms N k t tm :
  t_Key t = k -> t_Generation t <> 0 -> Timer_ID tm = timer_id (N + 1) -> Timer_Purpose tm = TimerRetry -> Timer_Key tm = k ->
  Timer_Generation tm = t_Generation t -> Timer_Attempt tm = t_Attempt t + 1 ->
  armed ts aws tms N -> armed (<[k := t]> ts) aws (<[Timer_ID tm := tm]> tms) (N + 1).
Proof.
  intros HK HG E Hp HKt Hg Hat [H0 Hk Ht Hr Ha]%(armed_set _ _ _ _ _ E). split; try done.
  - intros k' t' [[<- <-]|[_ E']]%lookup_insert_Some; eauto.
  - intros k' t' [[<- <-]|[_ E']]%lookup_insert_Some; [|eauto]. intros _.
    exists (Timer_ID tm), tm. rewrite lookup_insert_eq. by rewrite HK.
Qed.

(** An await, with its timer. *)
Lemma armed_waiting tms N nd a tm :
  a_TimerID a = timer_id (N + 1) -> Timer_ID tm = timer_id (N + 1) -> Timer_Purpose tm = TimerAwait ->
  Timer_Node tm = nd -> armed ∅ ∅ tms N -> armed ∅ {[nd := a]} (<[Timer_ID tm := tm]> tms) (N + 1).
Proof.
  intros Ea E Hp Hn [H0 Hk Ht Hr Ha]%(armed_set _ _ _ _ _ E). split; try done.
  intros nd' a' [<- <-]%lookup_singleton_Some. exists tm. by rewrite Ea, <- E, lookup_insert_eq.
Qed.
End Armed.

(** ** Places *)

Abbreviation item_key nd i := (nd +:+ "#" +:+ Itoa i).

Section Places.
Context (def : Flow).

Definition at_node (n : Node) (ty : string) : Prop := node def (n_ID n) = Some n /\ n_Type n = ty.

(** The instances and children of fan-out [n]: one per branch at most, and every
    branch that is pending is in flight, but those of [todo]. *)
Record fan_inv (n : Node) (fan : Fan) (todo : list string) (ts : gmap string Task) (cs : gmap string ChildState) : Prop := {
  fi_node : at_node n NodeFanout;
  fi_join : fan_Join fan = JoinOf def (n_ID n);
  fi_branches b : b ∈ n_Branches n -> is_Some (fan_Branches fan !! b);
  fi_task k t : ts !! k = Some t -> k ∈ n_Branches n /\ t_Node t = k /\ t_Owner t = n_ID n;
  fi_child k c : cs !! k = Some c -> k ∈ n_Branches n /\ cs_Node c = k /\ cs_Owner c = n_ID n;
  fi_pending b : b ∈ n_Branches n -> fan_Branches fan !! b = Some BranchPending ->
    b ∈ todo \/ is_Some (ts !! b) \/ is_Some (cs !! b) }.

(** The items of map [n] in flight: instances, or children when it has a flow,
    one per index scheduled and not done. *)
Record map_inv (n : Node) (m : MapRun) (ts : gmap string Task) (cs : gmap string ChildState) : Prop := {
  mi_node : at_node n NodeMap;
  mi_outputs : length (m_Outputs m) = length (m_Items m);
  mi_kind : if String.eqb (n_Flow n) "" then cs = ∅ else ts = ∅;
  mi_task k t : ts !! k = Some t -> t_Node t = n_ID n /\ t_Owner t = n_ID n /\
    0 <= t_Index t < m_Next m /\ k = item_key (n_ID n) (t_Index t);
  mi_child k c : cs !! k = Some c -> cs_Node c = n_ID n /\ cs_Owner c = n_ID n /\
    0 <= cs_Index c < m_Next m /\ k = item_key (n_ID n) (cs_Index c);
  mi_count : Z.of_nat (size ts) + Z.of_nat (size cs) + m_Done m = m_Next m;
  mi_done : 0 <= m_Done m;
  mi_next : m_Next m <= len (m_Items m) }.

Lemma fan_inv_task n fan b todo ts cs t :
  fan_inv n fan (b :: todo) ts cs -> b ∈ n_Branches n -> t_Node t = b -> t_Owner t = n_ID n ->
  fan_inv n fan todo (<[b := t]> ts) cs.
Proof.
  intros [Hn Hj Hb Ht Hc Hp] Hin Hnd Ho. split; try done.
  - intros k t' [[<- <-]|[_ E]]%lookup_insert_Some; eauto.
  - intros b' Hb' Hpd. destruct (decide (b' = b)) as [->|Hne]; [right; left; rewrite lookup_insert_eq; eauto|].
    rewrite lookup_insert_ne by done. destruct (Hp b' Hb' Hpd) as [[?|?]%elem_of_cons|?]; auto. done.
Qed.

Lemma fan_inv_child n fan b todo ts cs c :
  fan_inv n fan (b :: todo) ts cs -> b ∈ n_Branches n -> cs_Node c = b -> cs_Owner c = n_ID n ->
  fan_inv n fan todo ts (<[b := c]> cs).
Proof.
  intros [Hn Hj Hb Ht Hc Hp] Hin Hnd Ho. split; try done.
  - intros k t' [[<- <-]|[_ E]]%lookup_insert_Some; eauto.
  - intros b' Hb' Hpd. destruct (decide (b' = b)) as [->|Hne]; [right; right; rewrite lookup_insert_eq; eauto|].
    rewrite lookup_insert_ne by done. destruct (Hp b' Hb' Hpd) as [[?|?]%elem_of_cons|?]; auto. done.
Qed.

Lemma item_key_inj nd i j : item_key nd i = item_key nd j -> i = j.
Proof. intros E%(inj (String.append nd)). injection E as E. by apply Itoa_inj. Qed.

Lemma map_inv_task n m ts cs t :
  map_inv n m ts cs -> n_Flow n = "" -> m_Next m < len (m_Items m) -> t_Node t = n_ID n -> t_Owner t = n_ID n ->
  t_Index t = m_Next m ->
  map_inv n (set_m_Next (m_Next m + 1) m) (<[item_key (n_ID n) (m_Next m) := t]> ts) cs.
Proof.
  intros [Hn Ho Hk Ht Hc Hcnt Hd Hx] Hf Hlt Hnd How Hi.
  assert (Hfresh : ts !! item_key (n_ID n) (m_Next m) = None).
  { apply eq_None_not_Some. intros [t' (_ & _ & Hr & E%item_key_inj)%Ht]. lia. }
  split; cbn [set_m_Next m_Outputs m_Items m_Next m_Done]; try done; [by rewrite Hf in *| | | |lia].
  - intros k t' [[<- <-]|[_ (? & ? & ? & ?)%Ht]]%lookup_insert_Some.
    + rewrite Hi. repeat split; [done|done|lia|lia].
    + repeat split; [done|done|lia|lia|done].
  - intros k c (? & ? & ? & ?)%Hc. repeat split; [done|done|lia|lia|done].
  - rewrite map_size_insert_None by done. lia.
Qed.

Lemma map_inv_child n m ts cs c :
  map_inv n m ts cs -> n_Flow n <> "" -> m_Next m < len (m_Items m) -> cs_Node c = n_ID n -> cs_Owner c = n_ID n ->
  cs_Index c = m_Next m ->
  map_inv n (set_m_Next (m_Next m + 1) m) ts (<[item_key (n_ID n) (m_Next m) := c]> cs).
Proof.
  intros [Hn Ho Hk Ht Hc Hcnt Hd Hx] Hf Hlt Hnd How Hi.
  assert (Hfresh : cs !! item_key (n_ID n) (m_Next m) = None).
  { apply eq_None_not_Some. intros [t' (_ & _ & Hr & E%item_key_inj)%Hc]. lia. }
  split; cbn [set_m_Next m_Outputs m_Items m_Next m_Done]; try done; [by destruct (String.eqb_spec (n_Flow n) "")| | | |lia].
  - intros k t' (? & ? & ? & ?)%Ht. repeat split; [done|done|lia|lia|done].
  - intros k t' [[<- <-]|[_ (? & ? & ? & ?)%Hc]]%lookup_insert_Some.
    + rewrite Hi. repeat split; [done|done|lia|lia].
    + repeat split; [done|done|lia|lia|done].
  - rewrite map_size_insert_None by done. lia.
Qed.

(** Items are in flight as long as some scheduled one is not done. *)
Lemma map_inv_flight n m ts cs : map_inv n m ts cs -> m_Done m < m_Next m -> ts <> ∅ \/ cs <> ∅.
Proof.
  intros HI Hlt. pose proof (mi_count _ _ _ _ HI) as Hc. destruct (decide (ts = ∅)) as [->|]; [|by left]. right.
  intros ->. rewrite !map_size_empty in Hc. lia.
Qed.

Lemma map_inv_over n m ts cs : map_inv n m ts cs -> len (m_Items m) <= m_Done m -> ts = ∅ /\ cs = ∅.
Proof.
  intros [_ _ _ _ _ Hc _ Hx] Hle. split; apply map_size_empty_iff; lia.
Qed.

Inductive place : Flight -> Prop :=
| at_task n t tms N buf :
    at_node n NodeTask -> t_Node t = n_ID n -> t_Owner t = "" ->
    place (MkFlight {[n_ID n := t]} ∅ ∅ ∅ ∅ tms N buf)
| at_await n a tms N buf :
    at_node n NodeAwait -> a_Signal a = n_Signal n -> (forall b, b ∈ buf -> b_Name b <> n_Signal n) ->
    place (MkFlight ∅ ∅ ∅ {[n_ID n := a]} ∅ tms N buf)
| at_subflow n c tms N buf :
    at_node n NodeSubflow -> cs_Node c = n_ID n -> cs_Owner c = "" ->
    place (MkFlight ∅ ∅ ∅ ∅ {[n_ID n := c]} tms N buf)
| at_fan n fan ts cs tms N buf :
    fan_inv n fan [] ts cs ->
    (exists b, b ∈ n_Branches n /\ fan_Branches fan !! b = Some BranchPending) ->
    place (MkFlight ts {[n_ID n := fan]} ∅ ∅ cs tms N buf)
| at_map n m ts cs tms N buf :
    map_inv n m ts cs -> ts <> ∅ \/ cs <> ∅ ->
    place (MkFlight ts ∅ {[n_ID n := m]} ∅ cs tms N buf).

(** Between two decisions. *)
Record rest (f : Flight) : Prop := {
  rest_place : place f; rest_armed : armed (fl_tasks f) (fl_awaits f) (fl_timers f) (fl_N f) }.

(** Between two nodes. *)
Definition idle (f : Flight) : Prop := exists tms N buf, f = MkFlight ∅ ∅ ∅ ∅ ∅ tms N buf /\ armed ∅ ∅ tms N.

(** What an operation leads to. *)
Definition settled (d : decider) : Prop := ended def d \/ exists f, holds def f d /\ rest f.

Lemma settled_rest f d : holds def f d -> place f -> armed (fl_tasks f) (fl_awaits f) (fl_timers f) (fl_N f) -> settled d.
Proof. intros. right. by exists f. Qed.

Lemma ends_settled r : ensures (ended def) r -> ensures settled r.
Proof. intros Hr. eapply ensures_weaken; [done|]. by left. Qed.

Lemma fail_settled f reason msg nd d : holds def f d -> ensures settled (fail_ reason msg nd d).
Proof. intros Hd. apply ends_settled, fail_ends, Hd. Qed.
End Places.
