(* ===== verification/ShapeEnter.v ===== *)
(** * From node to node

    Entering a node of a valid flow leads to rest or to the end of the
    execution: the operations [enter] goes through, one by one. *)

From S2P Require Import Prelude Json Hash Names Expr Flow FlowValidate FlowValid Event Cmd Reduce State.
From S2P Require Import StateFacts View Decide Writes Numbering DecideRun DecideOps Flight Shape.

Section Enter.
Context `{Evaluator} (def : Flow).

Lemma holds_alloc ts fs ms aws cs tms N buf d :
  holds def (MkFlight ts fs ms aws cs tms N buf) d -> alloc d = N + 1.
Proof. intros [_ _ Hf]. unfold alloc. by injection Hf as _ _ _ _ _ _ -> _. Qed.

(** A fresh attempt of an instance. *)
Record attempt_of (key nd owner : string) (index : Z) (t : Task) : Prop := {
  ao_key : t_Key t = key; ao_node : t_Node t = nd; ao_owner : t_Owner t = owner;
  ao_index : t_Index t = index; ao_status : t_Status t = TaskScheduled }.

Lemma timerAt_ok purpose after key nd gen attempt ts fs ms aws cs tms N buf d B Q :
  holds def (MkFlight ts fs ms aws cs tms N buf) d ->
  (forall d' tm, Timer_ID tm = timer_id (N + 1) -> Timer_Purpose tm = purpose -> Timer_Key tm = key ->
     Timer_Generation tm = gen -> Timer_Attempt tm = attempt ->
     holds def (MkFlight ts fs ms aws cs (<[Timer_ID tm := tm]> tms) (N + 1) buf) d' -> Q d') ->
  outcome B Q (timerAt purpose after key nd gen attempt d).
Proof.
  intros Hd HQ. unfold timerAt. rewrite (holds_alloc _ _ _ _ _ _ _ _ _ Hd). cbv zeta.
  match goal with |- outcome _ _ (emit _ (DTimer ?x) _) =>
    eapply ensures_weaken; [apply (emit_holds B _ _ _ (DTimer x) _ Hd); done|]; intros d' Hd';
    apply (HQ d' x); try done end.
  fly Hd'. by rewrite Z.max_r in Hd' by lia.
Qed.

Lemma schedule_ok n key owner index item rs gen attempt ts fs ms aws cs tms N buf d B Q :
  holds def (MkFlight ts fs ms aws cs tms N buf) d ->
  (forall d' t tms' N', attempt_of key (n_ID n) owner index t ->
     t_Attempt t = attempt -> (gen <> 0 -> t_Generation t = gen) ->
     (forall ts0 aws0, armed ts0 aws0 tms N -> armed (<[key := t]> ts0) aws0 tms' N') ->
     holds def (MkFlight (<[key := t]> ts) fs (next_maps (n_ID n) owner index ms) aws cs tms' N' buf) d' -> Q d') ->
  outcome B Q (schedule n key owner index item rs gen attempt d).
Proof.
  intros Hd HQ. unfold schedule. cbv zeta. eapply emit_then; [exact Hd|done|done|done|]. intros d1 Hd1.
  fly Hd1.
  match type of Hd1 with holds _ (MkFlight (<[_ := ?t]> _) _ _ _ _ _ ?N1 _) _ => 
    set (t0 := t) in *; set (N0 := N1) in * end.
  assert (HA : forall ts0 aws0, armed ts0 aws0 tms N -> armed (<[key := t0]> ts0) aws0 tms N0).
  { intros ts0 aws0 HA. apply armed_task; [done| |done|eapply armed_sub; [done| |done]; lia].
    unfold t0. cbn [t_Generation scheduled_task Scheduled_Generation]. rewrite (holds_alloc _ _ _ _ _ _ _ _ _ Hd).
    pose proof (ar_N _ _ _ _ HA). destruct (Z.eqb_spec gen 0); lia. }
  assert (Hgen : gen <> 0 -> t_Generation t0 = gen) by (intros Hg; unfold t0; cbn; by destruct (Z.eqb_spec gen 0)).
  destruct (0 <? n_Timeout n).
  - eapply timerAt_ok; [exact Hd1|]. intros d2 tm Hid _ _ _ _ Hd2.
    eapply (HQ d2 t0); [by split|done|exact Hgen| |exact Hd2]. intros ts0 aws0 HA0. apply armed_set; auto.
  - by apply (HQ d1 t0 tms N0).
Qed.

Lemma startChild_ok n key owner index item ts fs ms aws cs tms N buf d Q :
  holds def (MkFlight ts fs ms aws cs tms N buf) d -> key <> "" ->
  (forall d', ended def d' -> Q d') ->
  (forall d' c N', cs_Node c = n_ID n -> cs_Owner c = owner -> cs_Index c = index -> N <= N' ->
     holds def (MkFlight ts fs (next_maps (n_ID n) owner index ms) aws (<[key := c]> cs) tms N' buf) d' -> Q d') ->
  ensures Q (startChild n key owner index item d).
Proof.
  intros Hd Hk HE HQ. unfold startChild. cbv zeta.
  assert (HF : forall reason msg nd, ensures Q (fail_ reason msg nd d)).
  { intros. eapply ensures_weaken; [apply fail_ends, Hd|done]. }
  case_match; [apply HF|]. destruct (negb _); [apply HF|].
  match goal with |- outcome _ _ (emit _ (DChild ?x) _) => set (x0 := x) end.
  assert (Hkey : InstanceKey x0 = key).
  { unfold InstanceKey, x0. cbn [Child_Key Child_Node]. destruct (String.eqb_spec key (n_ID n)) as [->|]; [done|].
    by destruct (String.eqb_spec key ""). }
  eapply ensures_weaken; [apply (emit_holds _ _ _ _ (DChild x0) _ Hd); done|]. intros d' Hd'.
  fly Hd'. rewrite Hkey in Hd'.
  eapply HQ; [..|exact Hd']; try done. lia.
Qed.

Lemma complete0_ends f d : holds def f d -> ensures (ended def) (complete0 d).
Proof.
  intros [Hdef _ _]. unfold complete0. cbv zeta.
  assert (HE : forall out, ensures (ended def) (emit ExecutionCompleted (DCompleted {| Completed_Output := out |}) d))
    by (intros; by apply emit_ends).
  assert (HF : forall msg, ensures (ended def) (fail_ ReasonExpression msg "" d)) by (intros; by apply fail_ends).
  destruct (OutputProgram _) as [p|]; [|by destruct (bool_decide _); apply HE].
  destruct (eval p _) as [err|v]; [apply HF|]. destruct (marshal_any v) as [out|]; [|apply HF].
  destruct (isNull _); [apply HE|]. destruct (negb _); [apply HF|apply HE].
Qed.

(** ** Routing *)

Section Routing.
Context (HV : valid def) (enter : string -> Op).
Context (Henter : forall id f d, holds def f d -> idle f -> ensures (settled def) (enter id d)).

Lemma advance_ok n dyn f d : holds def f d -> idle f -> ensures (settled def) (advance enter n dyn d).
Proof.
  intros Hd Hf. unfold advance. cbv zeta. case_match; [by eapply ends_settled, complete0_ends|eauto].
Qed.

Lemma slice_get_ok {A} (l : list A) (i : nat) x : l !! i = Some x -> slice_get l (Z.of_nat i) = Ok x.
Proof. intros E. unfold slice_get. rewrite decide_True by lia. by rewrite Nat2Z.id, E. Qed.

Lemma route_ok n (i : nat) r to f d :
  n_Rules n !! i = Some r -> holds def f d -> idle f -> ensures (settled def) (route_ enter n (Z.of_nat i) to d).
Proof.
  intros Hr Hd Hf. unfold route_. rewrite (slice_get_ok _ _ _ Hr). cbn [res_bind].
  eapply emit_then; [exact Hd|done|done|done|]. intros d1 Hd1.
  case_match; [by eapply ends_settled, complete0_ends|by eapply Henter].
Qed.

(** The rules from [i] on; the default is among them or at index [dflt]. *)
Lemma choose_from_ok n env (i : nat) rules dflt f d :
  choice_ok n -> drop i (n_Rules n) = rules ->
  (exists j r, dflt = Z.of_nat j /\ n_Rules n !! j = Some r) \/ (exists r, r ∈ rules /\ ru_Default r = true) ->
  holds def f d -> idle f -> ensures (settled def) (choose_from enter n env (Z.of_nat i) rules dflt d).
Proof.
  intros (Hlen & _ & Hprog) Hdrop Hdflt Hd Hf. revert i dflt Hdrop Hdflt.
  induction rules as [|r rules IH]; intros i dflt Hdrop Hdflt; cbn [choose_from].
  { destruct Hdflt as [(j & r & -> & Hr)|(r & Hr%elem_of_nil & _)]; [|done].
    rewrite (slice_get_ok _ _ _ Hr). cbn [res_bind]. by eapply route_ok. }
  assert (Hi : n_Rules n !! i = Some r).
  { rewrite <- (Nat.add_0_r i), <- lookup_drop, Hdrop. done. }
  assert (Hdrop' : drop (S i) (n_Rules n) = rules).
  { rewrite <- Nat.add_1_r, <- drop_drop, Hdrop. done. }
  replace (Z.of_nat i + 1) with (Z.of_nat (S i)) by lia.
  destruct (ru_Default r) eqn:Ed; [apply IH; [done|left; eauto]|].
  assert (Hnext : ensures (settled def) (choose_from enter n env (Z.of_nat (S i)) rules dflt d)).
  { apply IH; [done|]. destruct Hdflt as [?|(r' & [->|Hr]%elem_of_cons & E)]; [by left|congruence|right; eauto]. }
  destruct (Hprog i r Hi Ed) as [p Hp]. unfold RulePrograms. rewrite (slice_get_ok _ _ _ Hp). cbn [res_bind deref].
  destruct (match_ p env) as [err|[]]; [|by eapply route_ok|done]. case_match; [|done].
  eapply emit_then; [exact Hd|done|done|done|]. intros d1 Hd1. by eapply fail_settled.
Qed.

Lemma choose_ok n f d : choice_ok n -> holds def f d -> idle f -> ensures (settled def) (choose enter n d).
Proof.
  intros Hc Hd Hf. unfold choose. apply (choose_from_ok n _ 0 _ _ f); [done|done| |done|done]. right.
  destruct Hc as (_ & Hone & _).
  destruct (filter (fun r => ru_Default r = true) (n_Rules n)) as [|r l] eqn:E; [done|].
  exists r. apply and_comm, (list_elem_of_filter (fun r => ru_Default r = true)). rewrite E. by left.
Qed.

(** ** Fan-outs *)

Lemma next_maps_empty nd owner i : next_maps nd owner i ∅ = ∅.
Proof. unfold next_maps, item_of. rewrite lookup_empty. by destruct (String.eqb _ _). Qed.

Lemma valid_node id n : node def id = Some n -> n_ID n = id /\ n_ID n <> "" /\ node_ok def n.
Proof.
  intros E. destruct (va_id _ HV _ _ E) as (Hid & Hin & Htok). split; [done|]. split; [|by apply HV].
  rewrite Hid. by intros ->.
Qed.

Lemma fanout_branch n b : at_node def n NodeFanout -> b ∈ n_Branches n -> branch_ok def (n_ID n) b /\ b <> "".
Proof.
  intros [E Hty] Hb. destruct (valid_node _ _ E) as (_ & _ & Hok).
  pose proof (fo_branch _ _ (no_fanout _ _ Hok Hty) b Hb) as HB. split; [done|].
  destruct HB as (bn & Hbn & _). apply valid_node in Hbn as (<- & ? & _). done.
Qed.

Lemma fan_branches_ok n branches fan ts cs tms N buf d :
  fan_inv def n fan branches ts cs -> branches ⊆ n_Branches n ->
  (exists b, b ∈ n_Branches n /\ fan_Branches fan !! b = Some BranchPending) -> armed ts ∅ tms N ->
  holds def (MkFlight ts {[n_ID n := fan]} ∅ ∅ cs tms N buf) d ->
  ensures (settled def) (fan_branches n branches d).
Proof.
  revert ts cs tms N d. induction branches as [|b branches IH]; intros ts cs tms N d HI Hsub Hpd HA Hd;
    cbn [fan_branches]; [right; eauto using rest, at_fan|].
  assert (Hb : b ∈ n_Branches n) by (apply Hsub; by left).
  assert (Hsub' : branches ⊆ n_Branches n) by (intros x Hx; apply Hsub; by right).
  destruct (fanout_branch n b (fi_node _ _ _ _ _ _ HI) Hb) as [(bn & Hbn & _) Hne].
  destruct (valid_node _ _ Hbn) as (Hid & _ & _).
  eapply emit_then; [exact Hd|done|done|done|]. intros d1 Hd1. fly Hd1. rewrite (ho_def _ _ _ Hd1), Hbn. cbn [res_bind deref].
  apply (ensures_bind _ (fun d' => ended def d' \/ live d' /\ exists ts' cs' tms' N',
    fan_inv def n fan branches ts' cs' /\ armed ts' ∅ tms' N' /\
    holds def (MkFlight ts' {[n_ID n := fan]} ∅ ∅ cs' tms' N' buf) d')).
  - case_match.
    + eapply startChild_ok; [exact Hd1|done|by left|]. intros d' c N' Hnd Ho _ HN Hd'. right. split; [apply Hd'|].
      rewrite next_maps_empty in Hd'. do 4 eexists. split; [|split; [|exact Hd']].
      * eapply fan_inv_child; [done|done|congruence|done].
      * by eapply armed_sub.
    + eapply schedule_ok; [exact Hd1|]. intros d' t tms' N' [_ Hnd Ho _ _] _ _ HA' Hd'. right. split; [apply Hd'|].
      rewrite next_maps_empty in Hd'. do 4 eexists. split; [|split; [|exact Hd']].
      * eapply fan_inv_task; [done|done|congruence|done].
      * by apply HA'.
  - intros d' [He|(Hl & ts' & cs' & tms' & N' & HI' & HA' & Hd')].
    + rewrite (en_final _ _ He). by left.
    + unfold live in Hl. rewrite Hl. by eapply IH.
Qed.

Lemma pending_branches (l : list string) b :
  foldl (fun m b => <[b := BranchPending]> m) (∅ : gmap string BranchStatus) l !! b =
  if bool_decide (b ∈ l) then Some BranchPending else None.
Proof.
  induction l as [|x l IH] using rev_ind; [done|]. rewrite foldl_app. cbn [foldl].
  destruct (decide (x = b)) as [->|Hne].
  - rewrite lookup_insert_eq, bool_decide_eq_true_2; [done|]. apply elem_of_app. right. by left.
  - rewrite lookup_insert_ne, IH by done. erewrite bool_decide_ext; [done|].
    rewrite elem_of_app, list_elem_of_singleton. naive_solver.
Qed.

Lemma fanout_ok_ n f d : at_node def n NodeFanout -> holds def f d -> idle f -> ensures (settled def) (fanout n d).
Proof.
  intros Hn Hd (tms & N & buf & -> & HA). unfold fanout.
  eapply emit_then; [exact Hd|done|done|done|]. intros d1 Hd1. fly Hd1.
  assert (HB : n_Branches n <> []).
  { destruct Hn as [E Hty]. destruct (valid_node _ _ E) as (_ & _ & Hok). apply (no_fanout _ _ Hok Hty). }
  eapply fan_branches_ok; [|done| |exact HA|exact Hd1].
  - split; cbn [fan_Join fan_Branches]; try done; [by rewrite (ho_def _ _ _ Hd)|..].
    + intros b Hb. rewrite pending_branches, bool_decide_eq_true_2 by done. eauto.
    + intros b Hb _. by left.
  - destruct (n_Branches n) as [|b l] eqn:E; [done|]. exists b. split; [by left|].
    cbn [fan_Branches Fanout_Branches]. rewrite pending_branches, bool_decide_eq_true_2 by (by left). done.
Qed.

(** ** Awaits *)

Lemma take_first_None (p : Buffered -> bool) l : take_first p l = None -> forall b, b ∈ l -> p b = false.
Proof.
  intros Hn b Hb. destruct (p b) eqn:E; [|done]. destruct (take_first_Some p l b Hb E) as [? Hs]. congruence.
Qed.

Lemma consume_ok n a tms N buf d :
  at_node def n NodeAwait -> a_Signal a = n_Signal n -> armed ∅ {[n_ID n := a]} tms N ->
  holds def (MkFlight ∅ ∅ ∅ {[n_ID n := a]} ∅ tms N buf) d -> ensures (settled def) (consume enter n d).
Proof.
  intros Hn Hs HA Hd. unfold consume.
  assert (Hbuf : s_Buffered (d_st d) = buf). { destruct Hd as [_ _ Hf]. by injection Hf as _ _ _ _ _ _ _ ->. }
  rewrite Hbuf. destruct (take_first _ buf) as [[b r]|] eqn:Et.
  - apply take_first_inv in Et as [Hb Hname]. eapply emit_then; [exact Hd|done|done| |].
    { cbn [applicable]. exists b. rewrite Hbuf. done. }
    intros d1 Hd1. fly Hd1. rewrite lookup_singleton_eq, delete_singleton_eq in Hd1. eapply advance_ok; [exact Hd1|].
    do 3 eexists. split; [done|]. by eapply armed_delete, armed_empty.
  - right. eexists. split; [exact Hd|]. split; [|exact HA]. apply at_await; [done|done|].
    intros b Hb E. apply (take_first_None _ _ Et) in Hb. by apply String.eqb_neq in Hb.
Qed.

(** Waiting, for the first time or again. *)
Lemma await_from n aws tms N buf d :
  at_node def n NodeAwait -> (forall x, <[n_ID n := x]> aws = {[n_ID n := x]}) -> armed ∅ ∅ tms N ->
  holds def (MkFlight ∅ ∅ ∅ aws ∅ tms N buf) d -> ensures (settled def) (await enter n d).
Proof.
  intros Hn Haws HA Hd. unfold await. rewrite (holds_alloc _ _ _ _ _ _ _ _ _ Hd). cbv zeta.
  eapply emit_then; [exact Hd|done|done|done|]. intros d1 Hd1. fly Hd1. rewrite Haws in Hd1.
  match goal with |- outcome _ _ (res_bind (emit _ (DTimer ?x) _) _) => set (tm := x) end.
  eapply (emit_then _ _ _ _ (DTimer tm)); [exact Hd1|done|done|done|]. intros d2 Hd2. cbn [flight_step] in Hd2. fly Hd2.
  rewrite Z.max_r in Hd2 by (unfold tm; cbn [Timer_N]; lia).
  eapply consume_ok; [done| | |exact Hd2]; [done|]. by apply (armed_waiting _ _ _ _ tm).
Qed.

Lemma await_ok n f d : at_node def n NodeAwait -> holds def f d -> idle f -> ensures (settled def) (await enter n d).
Proof.
  intros Hn Hd (tms & N & buf & -> & HA). eapply await_from; [done| |done|exact Hd]. intros. apply insert_empty.
Qed.

(** ** Maps *)

Lemma next_maps_item nd i m : m_Next m = i -> next_maps nd nd i {[nd := m]} = {[nd := set_m_Next (i + 1) m]}.
Proof.
  intros <-. unfold next_maps, item_of. rewrite String.eqb_refl, lookup_singleton_eq, insert_singleton_eq.
  by rewrite Z.max_r by lia.
Qed.

Lemma holds_map n ts fs m aws cs tms N buf d :
  holds def (MkFlight ts fs {[n_ID n := m]} aws cs tms N buf) d -> s_Maps (d_st d) !! n_ID n = Some m.
Proof. intros [_ _ Hf]. injection Hf as _ _ -> _ _ _ _ _. apply lookup_singleton_eq. Qed.

Lemma item_key_not_empty nd i : nd <> "" -> item_key nd i <> "".
Proof. by destruct nd. Qed.

Lemma map_loop_ok fuel n m ts cs tms N buf d :
  map_inv def n m ts cs -> m_Done m < len (m_Items m) -> armed ts ∅ tms N ->
  holds def (MkFlight ts ∅ {[n_ID n := m]} ∅ cs tms N buf) d -> ensures (settled def) (map_loop fuel n d).
Proof.
  revert m ts cs tms N d. induction fuel as [|fuel IH]; intros m ts cs tms N d HI Hlt HA Hd; cbn [map_loop];
    rewrite (holds_map _ _ _ _ _ _ _ _ _ _ Hd); cbn [deref res_bind];
    (destruct ((m_Next m <? _) && _) eqn:Ec; [|right; eexists; split; [exact Hd|]; split; [apply at_map; [done|]|done];
      apply (map_inv_flight _ _ _ _ _ HI); apply andb_false_iff in Ec as [Hx|Hx]; revert Hx; unfold DefaultMapParallel;
      repeat case_match; lia]); [done|].
  apply andb_true_iff in Ec as [Ec%Z.ltb_lt _].
  destruct (mi_node _ _ _ _ _ HI) as [Hnode Hty]. destruct (valid_node _ _ Hnode) as (_ & Hne & _).
  assert (H0 : 0 <= m_Next m) by (destruct HI; lia).
  destruct (lookup_lt_is_Some_2 (m_Items m) (Z.to_nat (m_Next m))) as [item Hitem]; [unfold len in Ec; lia|].
  apply slice_get_ok in Hitem. rewrite Z2Nat.id in Hitem by done. rewrite Hitem. cbn [res_bind].
  apply (ensures_bind _ (fun d' => ended def d' \/ live d' /\ exists ts' cs' tms' N',
    map_inv def n (set_m_Next (m_Next m + 1) m) ts' cs' /\ armed ts' ∅ tms' N' /\
    holds def (MkFlight ts' ∅ {[n_ID n := set_m_Next (m_Next m + 1) m]} ∅ cs' tms' N' buf) d')).
  - destruct (String.eqb_spec (n_Flow n) "") as [Hf|Hf]; cbn [negb].
    + eapply schedule_ok; [exact Hd|]. intros d' t tms' N' [_ Hnd Ho Hi _] _ _ HA' Hd'. right. split; [apply Hd'|].
      rewrite next_maps_item in Hd' by done. do 4 eexists. split; [by eapply map_inv_task|]. split; [by apply HA'|done].
    + eapply startChild_ok; [exact Hd|by apply item_key_not_empty|by left|]. intros d' c N' Hnd Ho Hi HN Hd'. right.
      split; [apply Hd'|]. rewrite next_maps_item in Hd' by done. do 4 eexists. split; [by eapply map_inv_child|].
      split; [by eapply armed_sub|done].
  - intros d' [He|(Hl & ts' & cs' & tms' & N' & HI' & HA' & Hd')].
    + rewrite (en_final _ _ He). by left.
    + unfold live in Hl. rewrite Hl. by eapply IH.
Qed.

Lemma mapProgress_ok n m ts cs tms N buf d :
  map_inv def n m ts cs -> armed ts ∅ tms N ->
  holds def (MkFlight ts ∅ {[n_ID n := m]} ∅ cs tms N buf) d -> ensures (settled def) (mapProgress enter n d).
Proof.
  intros HI HA Hd. unfold mapProgress. rewrite (holds_map _ _ _ _ _ _ _ _ _ _ Hd). cbn [deref res_bind].
  destruct (Z.eqb_spec (m_Done m) (len (m_Items m))) as [E|E]; cycle 1.
  { eapply map_loop_ok; [done| |done|done]. destruct HI. lia. }
  destruct (map_inv_over _ _ _ _ _ HI) as [-> ->]; [lia|].
  eapply emit_then; [exact Hd|done|done| |].
  { cbn [applicable MapDone_Node]. rewrite (holds_map _ _ _ _ _ _ _ _ _ _ Hd). eauto. }
  intros d1 Hd1. fly Hd1. rewrite delete_singleton_eq in Hd1. eapply advance_ok; [exact Hd1|]. by do 3 eexists.
Qed.

Lemma marshal_items_benign l : match marshal_items l with Ok _ => True | Err e => benign e end.
Proof.
  induction l as [|x l IH]; cbn [marshal_items]; [done|]. destruct (marshal_any x); [|by apply not_elem_of_nil].
  by destruct (marshal_items l).
Qed.

Lemma mapStart_ok n f d : at_node def n NodeMap -> holds def f d -> idle f -> ensures (settled def) (mapStart enter n d).
Proof.
  intros [Hn Hty] Hd (tms & N & buf & -> & HA). unfold mapStart.
  destruct (valid_node _ _ Hn) as (_ & _ & Hok). destruct (no_map _ _ Hok Hty) as [[over Hov] _].
  unfold OverProgram. rewrite Hov. cbn [deref res_bind].
  assert (HR : forall l, ensures (settled def) (let? items := marshal_items l in
    let? d := emit MapStarted (DMap {|
      Map_Node := n_ID n; Map_Items := items; Map_MaxParallel := n_MaxParallel n |}) d in mapProgress enter n d)).
  { intros l. pose proof (marshal_items_benign l). destruct (marshal_items l) as [items|e]; [|done]. cbn [res_bind].
    eapply emit_then; [exact Hd|done|done|done|]. intros d1 Hd1. fly Hd1. rewrite insert_empty in Hd1.
    eapply mapProgress_ok; [|exact HA|exact Hd1].
    split; cbn [Map_Items m_Outputs m_Items m_Done m_Next]; try done; [by rewrite length_replicate|by case_match|].
    unfold len. lia. }
  destruct (eval over _) as [err|v]; [by eapply fail_settled|]. destruct v; try apply HR; by eapply fail_settled.
Qed.

(** ** Entering *)

Lemma enter_body_ok id f d : holds def f d -> idle f -> ensures (settled def) (enter_body enter id d).
Proof.
  intros Hd Hf. unfold enter_body. rewrite (ho_def _ _ _ Hd). destruct (node def id) as [n|] eqn:En; [|by eapply fail_settled].
  destruct (valid_node _ _ En) as (Hid & Hne & Hok). rewrite <- Hid in En.
  destruct (_ <? _); [by eapply fail_settled|].
  eapply emit_then; [exact Hd|done|done|done|]. intros d1 Hd1.
  assert (Hf1 : idle (flight_step (DEntered {| Entered_Node := id |}) f)) by done. revert Hd1 Hf1.
  generalize (flight_step (DEntered {| Entered_Node := id |}) f). intros f1 Hd1 Hf1.
  destruct (String.eqb_spec (n_Type n) NodeTask) as [Ht|_].
  { destruct Hf1 as (tms & N & buf & -> & HA). eapply schedule_ok; [exact Hd1|].
    intros d2 t tms' N' [_ Hnd Ho _ _] _ _ HA' Hd2. rewrite next_maps_empty, insert_empty in Hd2.
    eapply settled_rest; [exact Hd2|by apply at_task|]. by apply (HA' ∅). }
  destruct (String.eqb_spec (n_Type n) NodeChoice) as [Ht|_]; [eapply choose_ok; [by apply Hok|done|done]|].
  destruct (String.eqb_spec (n_Type n) NodeFanout) as [Ht|_]; [by eapply fanout_ok_|].
  destruct (String.eqb_spec (n_Type n) NodeAwait) as [Ht|_]; [by eapply await_ok|].
  destruct (String.eqb_spec (n_Type n) NodeMap) as [Ht|_]; [by eapply mapStart_ok|].
  destruct (String.eqb_spec (n_Type n) NodeSubflow) as [Ht|_]; [|by eapply fail_settled].
  destruct Hf1 as (tms & N & buf & -> & HA). eapply startChild_ok; [exact Hd1|done|by left|].
  intros d2 c N' Hnd Ho _ HN Hd2. rewrite next_maps_empty, insert_empty in Hd2.
  eapply settled_rest; [exact Hd2|by apply at_subflow|]. by eapply armed_sub.
Qed.
End Routing.

Lemma enter_fuel_ok fuel id f d : valid def -> holds def f d -> idle f -> ensures (settled def) (enter_fuel fuel id d).
Proof.
  intros HV. revert id f d. induction fuel as [|fuel IH]; intros id f d Hd Hf; cbn [enter_fuel]; [done|].
  by eapply enter_body_ok.
Qed.

Lemma enter_ok id f d : valid def -> holds def f d -> idle f -> ensures (settled def) (enter id d).
Proof. apply enter_fuel_ok. Qed.
End Enter.
