(* ===== verification/ShapeOps.v ===== *)
(** * From rest to rest

    Every command leads an execution of a valid flow from rest to rest, or ends
    it, and fails only with benign errors: joins, maps, instances, timers,
    signals and children, one operation after the other. *)

From S2P Require Import Prelude Json Hash Names Expr Flow FlowValidate FlowValid Event Cmd Reduce State.
From S2P Require Import StateFacts View Decide JoinPolicy Writes Numbering DecideRun DecideOps.
From S2P Require Import Flight Shape ShapeEnter.

Section Settle.
Context (def : Flow) (HV : valid def).

(** ** Instances that go on *)

Definition same_instance (t t' : Task) : Prop :=
  t_Node t' = t_Node t /\ t_Owner t' = t_Owner t /\ t_Index t' = t_Index t.

Lemma fan_inv_update n fan ts cs k t t' :
  fan_inv def n fan [] ts cs -> ts !! k = Some t -> same_instance t t' -> fan_inv def n fan [] (<[k := t']> ts) cs.
Proof.
  intros [Hn Hj Hb Ht Hc Hp] E (Hnd & Ho & _). split; try done.
  - intros k' x [[<- <-]|[_ Ex]]%lookup_insert_Some; [|eauto]. destruct (Ht k t E) as (? & ? & ?). by rewrite Hnd, Ho.
  - intros b Hin Hpd. destruct (Hp b Hin Hpd) as [?|[[x Hx]|?]]; [by left| |by right; right]. right. left.
    destruct (decide (k = b)) as [->|]; [rewrite lookup_insert_eq|rewrite lookup_insert_ne by done]; eauto.
Qed.

Lemma map_inv_update n m ts cs k t t' :
  map_inv def n m ts cs -> ts !! k = Some t -> same_instance t t' -> map_inv def n m (<[k := t']> ts) cs.
Proof.
  intros [Hn Ho Hk Ht Hc Hcnt Hd Hx] E (Hnd & How & Hi). split; try done.
  - case_match; [done|]. subst ts. by apply lookup_empty_Some in E.
  - intros k' x [[<- <-]|[_ Ex]]%lookup_insert_Some; [|eauto]. rewrite Hnd, How, Hi. eauto.
  - by rewrite map_size_insert_Some by eauto.
Qed.

Lemma place_update ts fs ms aws cs tms N buf k t t' tms' N' :
  place def (MkFlight ts fs ms aws cs tms N buf) -> ts !! k = Some t -> same_instance t t' ->
  place def (MkFlight (<[k := t']> ts) fs ms aws cs tms' N' buf).
Proof.
  intros HP E HS. inversion HP; subst; try (by apply lookup_empty_Some in E).
  - apply lookup_singleton_Some in E as [<- <-]. rewrite insert_singleton_eq. destruct HS as (? & ? & _).
    apply at_task; congruence.
  - apply at_fan; [by eapply fan_inv_update|done].
  - apply at_map; [by eapply map_inv_update|]. left. intros Em%(f_equal (.!! k)). by rewrite lookup_insert_eq in Em.
Qed.

(** What is known of an instance in flight. *)
Lemma place_task ts fs ms aws cs tms N buf k t :
  place def (MkFlight ts fs ms aws cs tms N buf) -> ts !! k = Some t ->
  (exists n, node def (t_Node t) = Some n /\ n_ID n = t_Node t) /\
  next_maps (t_Node t) (t_Owner t) (t_Index t) ms = ms /\
  (forall m, item_of ms (t_Node t) (t_Owner t) = Some m -> in_range (t_Index t) m).
Proof.
  intros HP E. inversion HP; subst; try (by apply lookup_empty_Some in E).
  - apply lookup_singleton_Some in E as [<- <-]. rewrite next_maps_empty. split; [|split; [done|]].
    + exists n. split; [|done]. match goal with H : t_Node _ = _, Hn : at_node _ _ _ |- _ => rewrite H; by destruct Hn end.
    + unfold item_of. rewrite lookup_empty. by case_match.
  - rewrite next_maps_empty. match goal with H : fan_inv _ _ _ _ _ _ |- _ => destruct H as [Hn _ _ Ht _ _] end.
    destruct (Ht k t E) as (Hk & Hnd & _). destruct (fanout_branch def HV n k Hn Hk) as [(bn & Hbn & _) _].
    split; [|split; [done|]].
    + exists bn. rewrite Hnd. split; [done|]. by apply (valid_node def HV).
    + unfold item_of. rewrite lookup_empty. by case_match.
  - match goal with H : map_inv _ _ _ _ _ |- _ => destruct H as [[Hn _] Ho _ Ht _ _ _ Hx] end.
    destruct (Ht k t E) as (Hnd & How & Hi & _). unfold next_maps, item_of.
    rewrite Hnd, How, String.eqb_refl, lookup_singleton_eq. split; [eauto|]. split.
    + rewrite insert_singleton_eq, Z.max_l by lia. by destruct m.
    + intros m' [= <-]. unfold in_range, len in *. rewrite Ho. lia.
Qed.

(** ** Instances that settle *)

Definition settle_fan (nd : string) (st : BranchStatus) (fan : Fan) : Fan :=
  {| fan_Join := fan_Join fan; fan_Branches := <[nd := st]> (fan_Branches fan) |}.

Lemma fan_inv_settle_task n fan ts cs k t st :
  fan_inv def n fan [] ts cs -> ts !! k = Some t -> st <> BranchPending ->
  fan_inv def n (settle_fan (t_Node t) st fan) [] (delete k ts) cs.
Proof.
  intros [Hn Hj Hb Ht Hc Hp] E Hst. destruct (Ht k t E) as (Hk & Hnd & _). rewrite Hnd.
  split; cbn [settle_fan fan_Join fan_Branches]; try done.
  - intros b Hin. destruct (decide (k = b)) as [->|]; [rewrite lookup_insert_eq|rewrite lookup_insert_ne by done]; eauto.
  - intros k' x [_ Ex]%lookup_delete_Some. eauto.
  - intros b Hin. destruct (decide (k = b)) as [->|Hne]; [rewrite lookup_insert_eq; by intros [= ?]|].
    rewrite lookup_insert_ne, lookup_delete_ne by done. eauto.
Qed.

Lemma fan_inv_settle_child n fan ts cs k c st :
  fan_inv def n fan [] ts cs -> cs !! k = Some c -> st <> BranchPending ->
  fan_inv def n (settle_fan k st fan) [] ts (delete k cs).
Proof.
  intros [Hn Hj Hb Ht Hc Hp] E Hst. destruct (Hc k c E) as (Hk & _).
  split; cbn [settle_fan fan_Join fan_Branches]; try done.
  - intros b Hin. destruct (decide (k = b)) as [->|]; [rewrite lookup_insert_eq|rewrite lookup_insert_ne by done]; eauto.
  - intros k' x [_ Ex]%lookup_delete_Some. eauto.
  - intros b Hin. destruct (decide (k = b)) as [->|Hne]; [rewrite lookup_insert_eq; by intros [= ?]|].
    rewrite lookup_insert_ne, lookup_delete_ne by done. eauto.
Qed.

Definition item_settled (i : Z) (out : RawMessage) (m : MapRun) : MapRun :=
  m |> set_m_Outputs (<[Z.to_nat i := out]> (m_Outputs m)) |> set_m_Done (m_Done m + 1).

Lemma map_size_delete_pred {A} (m : gmap string A) k x : m !! k = Some x -> Z.of_nat (size (delete k m)) = Z.of_nat (size m) - 1.
Proof.
  intros E. rewrite map_size_delete, E. assert (size m <> 0%nat); [|lia].
  intros Hz%map_size_empty_inv. subst m. by apply lookup_empty_Some in E.
Qed.

Lemma map_inv_settle_task n m ts cs k t i out :
  map_inv def n m ts cs -> ts !! k = Some t -> map_inv def n (item_settled i out m) (delete k ts) cs.
Proof.
  intros [Hn Ho Hk Ht Hc Hcnt Hd Hx] E. split; cbn [item_settled set_m_Outputs set_m_Done m_Outputs m_Items m_Next m_Done]; try done.
  - by rewrite length_insert.
  - case_match; [done|]. subst ts. apply delete_empty.
  - intros k' x [_ Ex]%lookup_delete_Some. eauto.
  - rewrite (map_size_delete_pred _ _ _ E). lia.
  - lia.
Qed.

Lemma map_inv_settle_child n m ts cs k c i out :
  map_inv def n m ts cs -> cs !! k = Some c -> map_inv def n (item_settled i out m) ts (delete k cs).
Proof.
  intros [Hn Ho Hk Ht Hc Hcnt Hd Hx] E. split; cbn [item_settled set_m_Outputs set_m_Done m_Outputs m_Items m_Next m_Done]; try done.
  - by rewrite length_insert.
  - case_match; [subst cs; apply delete_empty|done].
  - intros k' x [_ Ex]%lookup_delete_Some. eauto.
  - rewrite (map_size_delete_pred _ _ _ E). lia.
  - lia.
Qed.
End Settle.

(** ** Reading the state *)

Lemma holds_parts def ts fs ms aws cs tms N buf d :
  holds def (MkFlight ts fs ms aws cs tms N buf) d ->
  s_Tasks (d_st d) = ts /\ s_Fans (d_st d) = fs /\ s_Maps (d_st d) = ms /\ s_Awaits (d_st d) = aws /\
  s_Children (d_st d) = cs /\ s_Timers (d_st d) = tms /\ s_Buffered (d_st d) = buf.
Proof. intros [_ _ Hf]. by injection Hf as -> -> -> -> -> -> _ ->. Qed.

Ltac parts Hd :=
  let H := fresh in pose proof (holds_parts _ _ _ _ _ _ _ _ _ _ Hd) as H;
  destruct H as (Ets & Efs & Ems & Eaws & Ecs & Etms & Ebuf).

Section Ops.
Context `{Evaluator} (def : Flow) (HV : valid def).

(** ** Joins and maps that close *)

(** Cancelling everything a fan-out or map owns. *)
Lemma cancel_owned_ok keys owner reason ts fs ms cs tms N buf d Q :
  (forall k t, ts !! k = Some t -> t_Owner t = owner) -> NoDup keys -> (forall k, k ∈ keys <-> is_Some (ts !! k)) ->
  holds def (MkFlight ts fs ms ∅ cs tms N buf) d ->
  (forall d' fs', dom fs' = dom fs -> holds def (MkFlight ∅ fs' ms ∅ cs tms N buf) d' -> Q d') ->
  ensures Q (each keys (fun k d =>
    let? t := deref (s_Tasks (d_st d) !! k) in
    if String.eqb (t_Owner t) owner then
      emit NodeCancelled (DNodeCancel {|
        NodeCancel_Key := k; NodeCancel_Node := t_Node t; NodeCancel_Reason := reason |}) d
    else Ok d) d).
Proof.
  revert ts fs d. induction keys as [|k keys IH]; intros ts fs d Hown Hnd Hk Hd HQ; unfold each; cbn [res_fold].
  { apply (HQ d fs); [done|]. assert (ts = ∅) as ->; [|done]. apply map_empty. intros k.
    apply eq_None_not_Some. rewrite <- Hk. apply not_elem_of_nil. }
  apply NoDup_cons in Hnd as [Hnk Hnd]. destruct (proj1 (Hk k)) as [t Et]; [by left|].
  parts Hd. rewrite Ets, Et. cbn [deref res_bind]. rewrite (Hown k t Et), String.eqb_refl.
  eapply emit_then; [exact Hd|done|done|done|]. intros d1 Hd1. fly Hd1. rewrite Et, (Hown k t Et) in Hd1.
  set (fs1 := match fs !! owner with Some fan => <[owner := settle_fan (t_Node t) BranchCancelled fan]> fs | None => fs end).
  assert (Hdom : dom fs1 = dom fs).
  { unfold fs1. destruct (fs !! owner) eqn:Ef; [|done]. by rewrite dom_insert_lookup_L by eauto. }
  apply (IH (delete k ts) fs1).
  - intros k' t' [_ E']%lookup_delete_Some. eauto.
  - done.
  - intros k'. rewrite lookup_delete_is_Some, <- Hk, elem_of_cons. naive_solver.
  - unfold fs1. by destruct (fs !! owner).
  - intros d' fs' E' Hd'. apply (HQ d' fs'); [congruence|done].
Qed.

Lemma other_children_owned owner (cs : gmap string ChildState) :
  (forall k c, cs !! k = Some c -> cs_Owner c = owner) -> other_children owner cs = ∅.
Proof.
  intros Hown. apply map_empty. intros k. unfold other_children. apply map_lookup_filter_None. right.
  intros c Hc Hne. apply Hne, (Hown k c Hc).
Qed.

Lemma closeJoin_ok n join succ failed ok fan ts cs tms N buf d :
  fan_inv def n fan [] ts cs -> armed ts ∅ tms N ->
  holds def (MkFlight ts {[n_ID n := fan]} ∅ ∅ cs tms N buf) d ->
  ensures (settled def) (closeJoin (n_ID n) join succ failed ok d).
Proof.
  intros HI HA Hd. unfold closeJoin. cbv zeta.
  apply (ensures_bind _ (fun d' => exists fs', dom fs' = {[n_ID n]} /\ holds def (MkFlight ∅ fs' ∅ ∅ cs tms N buf) d')).
  { parts Hd. rewrite Ets. eapply cancel_owned_ok; [| | |exact Hd|].
    - intros k t Et. by apply (fi_task _ _ _ _ _ _ HI) in Et as (_ & _ & ?).
    - apply sorted_keys_NoDup.
    - intros k. apply elem_of_sorted_keys.
    - intros d' fs' E Hd'. exists fs'. split; [|done]. by rewrite E, dom_singleton_L. }
  intros d1 (fs1 & Edom & Hd1). eapply emit_then; [exact Hd1|done|done|done|]. intros d2 Hd2. fly Hd2.
  eapply emit_then; [exact Hd2|done|done|done|]. intros d3 Hd3. fly Hd3.
  assert (Hf1 : is_Some (fs1 !! n_ID n)). { apply elem_of_dom. rewrite Edom. by apply elem_of_singleton. }
  destruct Hf1 as [fan1 Ef1]. rewrite Ef1, other_children_owned in Hd3.
  2: { intros k c Ec. by apply (fi_child _ _ _ _ _ _ HI) in Ec as (_ & _ & ?). }
  assert (delete (n_ID n) fs1 = ∅) as Edel.
  { apply dom_empty_iff_L. rewrite dom_delete_L, Edom. set_solver. }
  rewrite Edel in Hd3.
  assert (Hidle : idle (MkFlight ∅ ∅ ∅ ∅ ∅ tms N buf)) by (do 3 eexists; split; [done|by eapply armed_empty]).
  repeat case_match; eauto using enter_ok, fail_settled. eapply advance_ok; [|exact Hd3|done]. intros. by eapply enter_ok.
Qed.

Lemma join_pending kind q total succ pending : join_decision kind q total succ pending = None -> pending <> 0.
Proof.
  intros Hj ->. unfold join_decision in Hj. cbv zeta in Hj. rewrite andb_false_r, Z.add_0_r in Hj.
  by destruct (_ <=? succ).
Qed.

Lemma filter_len_pos {A} (P : A -> Prop) `{!forall x, Decision (P x)} l : len (filter P l) <> 0 -> exists x, x ∈ l /\ P x.
Proof.
  destruct (filter P l) as [|x l'] eqn:E; [done|]. intros _. exists x. apply and_comm, (list_elem_of_filter P). rewrite E. by left.
Qed.

(** The join of a fan-out waits for branches of it. *)
Lemma fan_join n :
  at_node def n NodeFanout -> exists j, node def (JoinOf def (n_ID n)) = Some j /\ WaitFor def (n_ID j) ⊆ n_Branches n.
Proof.
  intros [Hn Hty]. destruct (valid_node def HV _ _ Hn) as (_ & _ & Hok).
  destruct (fo_join _ _ (no_fanout _ _ Hok Hty)) as (j & Hj & Hjt & Hjo).
  destruct (valid_node def HV _ _ Hj) as (Hid & _ & Hjok). unfold JoinOf. rewrite Hjo. cbn [default].
  exists j. rewrite Hid. split; [done|]. rewrite <- Hid.
  destruct (no_join _ _ Hjok Hjt) as (fan & fn & H1 & H2 & _ & Huniq & _ & _ & Hsub & _).
  rewrite (Huniq _ Hjo) in Hn. rewrite Hn in H2. injection H2 as <-. done.
Qed.

Lemma evalJoin_ok n fan ts cs tms N buf d :
  fan_inv def n fan [] ts cs -> armed ts ∅ tms N ->
  holds def (MkFlight ts {[n_ID n := fan]} ∅ ∅ cs tms N buf) d -> ensures (settled def) (evalJoin (n_ID n) d).
Proof.
  intros HI HA Hd. unfold evalJoin. parts Hd. rewrite Efs, lookup_singleton_eq. cbn [deref res_bind].
  rewrite (ho_def _ _ _ Hd), (fi_join _ _ _ _ _ _ HI).
  destruct (fan_join n (fi_node _ _ _ _ _ _ HI)) as (j & -> & Hsub). cbn [deref res_bind]. cbv zeta.
  rewrite tally_spec. destruct (JoinKind j) as [kind q].
  destruct (join_decision _ _ _ _ _) as [ok|] eqn:Ej; [by eapply closeJoin_ok|].
  apply join_pending, filter_len_pos in Ej as (b & Hb & Hpd). right. eexists. split; [exact Hd|]. split; [|exact HA].
  apply at_fan; [done|]. exists b. split; [by apply Hsub|]. apply Hsub, (fi_branches _ _ _ _ _ _ HI) in Hb as [st Est].
  unfold JoinPolicy.ended in Hpd. rewrite Est in *. by destruct st.
Qed.

Lemma abortMap_ok n m i ts cs tms N buf d :
  (forall k t, ts !! k = Some t -> t_Owner t = n_ID n) -> (forall k c, cs !! k = Some c -> cs_Owner c = n_ID n) ->
  armed ts ∅ tms N -> holds def (MkFlight ts ∅ {[n_ID n := m]} ∅ cs tms N buf) d ->
  ensures (settled def) (abortMap n i d).
Proof.
  intros Ht Hc HA Hd. unfold abortMap.
  apply (ensures_bind _ (fun d' => holds def (MkFlight ∅ ∅ {[n_ID n := m]} ∅ cs tms N buf) d')).
  { parts Hd. rewrite Ets. eapply cancel_owned_ok; [exact Ht| | |exact Hd|].
    - apply sorted_keys_NoDup.
    - intros k. apply elem_of_sorted_keys.
    - intros d' fs' E%dom_empty_iff_L Hd'. by rewrite E in Hd'. }
  intros d1 Hd1. eapply emit_then; [exact Hd1|done|done|done|]. intros d2 Hd2. fly Hd2.
  rewrite (other_children_owned _ _ Hc), delete_singleton_eq in Hd2. eapply enter_ok; [done|exact Hd2|].
  do 3 eexists. split; [done|by eapply armed_empty].
Qed.

(** ** Instances *)

Lemma is_fan_at ts fs ms aws cs tms N buf d owner :
  holds def (MkFlight ts fs ms aws cs tms N buf) d -> is_fan d owner = bool_decide (is_Some (fs !! owner)).
Proof. intros Hd. parts Hd. unfold is_fan. by rewrite Efs. Qed.

Lemma is_item_at ts fs ms aws cs tms N buf d nd owner :
  holds def (MkFlight ts fs ms aws cs tms N buf) d ->
  is_item d nd owner = bool_decide (is_Some (ms !! owner)) && String.eqb nd owner.
Proof. intros Hd. parts Hd. unfold is_item. by rewrite Ems. Qed.

Lemma enter_any id f d : holds def f d -> idle f -> ensures (settled def) (enter id d).
Proof. by apply enter_ok. Qed.

Lemma Terminal_live f d : holds def f d -> Terminal (s_Status (d_st d)) = false.
Proof. by intros [_ Hl _]. Qed.

Lemma idle_armed tms N buf ts aws : armed ts aws tms N -> idle (MkFlight ∅ ∅ ∅ ∅ ∅ tms N buf).
Proof. intros HA. do 3 eexists. split; [done|by eapply armed_empty]. Qed.

Lemma item_of_empty nd owner : item_of ∅ nd owner = None.
Proof. unfold item_of. rewrite lookup_empty. by destruct (String.eqb _ _). Qed.

Lemma item_of_self nd m : item_of {[nd := m]} nd nd = Some m.
Proof. unfold item_of. by rewrite String.eqb_refl, lookup_singleton_eq. Qed.

(** A completion that was accepted. *)
Lemma nodeDone_ok x t n dyn f d :
  holds def f d -> rest def f -> fl_tasks f !! NodeDone_Key x = Some t -> node def (t_Node t) = Some n ->
  CheckWrites def (d_st d) (NodeDone_Writes x) = Ok tt ->
  ensures (settled def) (let? d := emit NodeCompleted (DNodeDone x) d in
    match overBudget d with
    | Some over => fail_ ReasonBudget over (t_Node t) d
    | None => afterSettle t n dyn d
    end).
Proof.
  intros Hd [HP HA] Et Hn HC. destruct f as [ts fs ms aws cs tms N buf]. cbn [fl_tasks fl_awaits fl_timers fl_N] in *.
  destruct (place_task def HV _ _ _ _ _ _ _ _ _ _ HP Et) as (_ & _ & Hr).
  eapply emit_then; [exact Hd|done|done| |].
  { parts Hd. cbn [applicable]. exists t. by rewrite Ets, Ems. }
  intros d1 Hd1. destruct (overBudget d1); [by eapply fail_settled|].
  unfold afterSettle. rewrite (Terminal_live _ _ Hd1). unfold flight_step in Hd1. cbn [fl_tasks fl_maps] in Hd1. rewrite Et in Hd1.
  inversion HP; subst; try (by apply lookup_empty_Some in Et).
  - apply lookup_singleton_Some in Et as [Ek <-]. match goal with H : t_Owner _ = "" |- _ => rewrite H in * end.
    rewrite item_of_empty in Hd1. fly Hd1. rewrite Ek, lookup_singleton_eq, delete_singleton_eq, lookup_empty in Hd1.
    rewrite (is_fan_at _ _ _ _ _ _ _ _ _ _ Hd1), (is_item_at _ _ _ _ _ _ _ _ _ _ _ Hd1), !lookup_empty.
    rewrite !bool_decide_eq_false_2 by (by intros [? ?]). cbn [andb].
    eapply advance_ok; [apply enter_any|exact Hd1|by eapply idle_armed].
  - match goal with H : fan_inv _ _ _ _ _ _ |- _ => rename H into HI end.
    destruct (fi_task _ _ _ _ _ _ HI _ _ Et) as (_ & _ & Ho). rewrite Ho in *.
    rewrite item_of_empty in Hd1. fly Hd1. rewrite Et, Ho, lookup_singleton_eq, insert_singleton_eq in Hd1.
    rewrite (is_fan_at _ _ _ _ _ _ _ _ _ _ Hd1), lookup_singleton_eq, bool_decide_eq_true_2 by eauto.
    eapply evalJoin_ok; [| |exact Hd1]; [by apply (fan_inv_settle_task _ _ _ _ _ _ _ BranchCompleted HI Et)|].
    by apply armed_settle.
  - match goal with H : map_inv _ _ _ _ _ |- _ => rename H into HI end.
    destruct (mi_task _ _ _ _ _ HI _ _ Et) as (Hnd & Ho & _ & _).
    rewrite Hnd, Ho, item_of_self in Hd1. fly Hd1. rewrite Et, Ho, lookup_empty, insert_singleton_eq in Hd1.
    rewrite (is_fan_at _ _ _ _ _ _ _ _ _ _ Hd1), (is_item_at _ _ _ _ _ _ _ _ _ _ _ Hd1), Hnd, Ho, lookup_empty.
    rewrite lookup_singleton_eq, String.eqb_refl, bool_decide_eq_false_2, bool_decide_eq_true_2; [|eauto|by intros [? ?]].
    cbn [andb]. assert (n0 = n) as ->. { rewrite Hnd, (proj1 (mi_node _ _ _ _ _ HI)) in Hn. congruence. }
    eapply mapProgress_ok; [done|apply enter_any| | |exact Hd1].
    + by eapply map_inv_settle_task.
    + by apply armed_settle.
Qed.

(** Another attempt of an instance in flight, whatever happened to it since. *)
Lemma reschedule_ok n t t0 key gen attempt rs ts fs ms aws cs tms N buf tms' N' d :
  place def (MkFlight ts fs ms aws cs tms' N' buf) -> ts !! key = Some t -> t_Key t = key ->
  node def (t_Node t) = Some n -> same_instance t t0 ->
  armed (delete key ts) aws tms N -> holds def (MkFlight (<[key := t0]> ts) fs ms aws cs tms N buf) d ->
  ensures (settled def) (schedule n key (t_Owner t) (t_Index t) (t_Item t) rs gen attempt d).
Proof.
  intros HP Et Hk Hn (Hs1 & Hs2 & Hs3) HA Hd.
  destruct (place_task def HV _ _ _ _ _ _ _ _ _ _ HP Et) as ((n' & Hn' & Hid) & Hnext & _).
  rewrite Hn in Hn'. injection Hn' as <-. eapply schedule_ok; [exact Hd|]. rewrite Hid, Hnext.
  intros d' t' tms1 N1 [Ek Hnd Ho Hi Hst] _ _ HA' Hd'. rewrite insert_insert_eq in Hd'.
  eapply settled_rest; [exact Hd'| |].
  - eapply place_update; [exact HP|exact Et|]. by repeat split.
  - cbn [fl_tasks fl_awaits fl_timers fl_N]. rewrite <- insert_delete_eq. by apply HA'.
Qed.

(** An instance that failed for good: its owner reacts. *)
Lemma nodeFail_ok x t n reason msg f d :
  holds def f d -> rest def f -> fl_tasks f !! NodeFail_Key x = Some t -> node def (t_Node t) = Some n ->
  NodeFail_WillRetry x = false ->
  ensures (settled def) (let? d := emit NodeFailed (DNodeFail x) d in
    if is_fan d (t_Owner t) then evalJoin (t_Owner t) d
    else if negb (String.eqb (n_OnFailure n) "") then
      if is_item d (t_Node t) (t_Owner t) then abortMap n (t_Index t) d
      else enter (n_OnFailure n) d
    else fail_ reason msg (t_Node t) d).
Proof.
  intros Hd [HP HA] Et Hn Hw. destruct f as [ts fs ms aws cs tms N buf]. cbn [fl_tasks fl_awaits fl_timers fl_N] in *.
  eapply emit_then; [exact Hd|done|done|done|]. intros d1 Hd1.
  unfold flight_step in Hd1. cbn [fl_tasks] in Hd1. rewrite Et, Hw in Hd1. fly Hd1. rewrite Et in Hd1.
  pose proof (armed_settle _ _ _ _ (NodeFail_Key x) HA) as HA1.
  inversion HP; subst; try (by apply lookup_empty_Some in Et).
  - apply lookup_singleton_Some in Et as [Ek <-]. match goal with H : t_Owner _ = "" |- _ => rewrite H in * end.
    rewrite Ek, delete_singleton_eq, lookup_empty in Hd1.
    rewrite (is_fan_at _ _ _ _ _ _ _ _ _ _ Hd1), (is_item_at _ _ _ _ _ _ _ _ _ _ _ Hd1), !lookup_empty.
    rewrite !bool_decide_eq_false_2 by (by intros [? ?]). cbn [andb].
    destruct (negb _); [eapply enter_any; [exact Hd1|by eapply idle_armed]|by eapply fail_settled].
  - match goal with H : fan_inv _ _ _ _ _ _ |- _ => rename H into HI end.
    destruct (fi_task _ _ _ _ _ _ HI _ _ Et) as (_ & _ & Ho). rewrite Ho, lookup_singleton_eq, insert_singleton_eq in Hd1.
    rewrite Ho, (is_fan_at _ _ _ _ _ _ _ _ _ _ Hd1), lookup_singleton_eq, bool_decide_eq_true_2 by eauto.
    eapply evalJoin_ok; [|exact HA1|exact Hd1]. by apply (fan_inv_settle_task _ _ _ _ _ _ _ BranchFailed HI Et).
  - match goal with H : map_inv _ _ _ _ _ |- _ => rename H into HI end.
    destruct (mi_task _ _ _ _ _ HI _ _ Et) as (Hnd & Ho & _ & _). rewrite Ho, lookup_empty in Hd1.
    rewrite (is_fan_at _ _ _ _ _ _ _ _ _ _ Hd1), (is_item_at _ _ _ _ _ _ _ _ _ _ _ Hd1), Hnd, Ho, lookup_empty.
    rewrite lookup_singleton_eq, String.eqb_refl, bool_decide_eq_false_2, bool_decide_eq_true_2; [|eauto|by intros [? ?]].
    cbn [andb]. destruct (negb _); [|by eapply fail_settled].
    assert (n0 = n) as ->. { rewrite Hnd, (proj1 (mi_node _ _ _ _ _ HI)) in Hn. congruence. }
    eapply abortMap_ok; [| |exact HA1|exact Hd1].
    + intros k t' [_ E']%lookup_delete_Some. by apply (mi_task _ _ _ _ _ HI) in E' as (_ & ? & _).
    + intros k c E'. by apply (mi_child _ _ _ _ _ HI) in E' as (_ & ? & _).
Qed.

Lemma taskFailed_ok tc msg retryable reason usage f d :
  holds def f d -> rest def f -> fl_tasks f !! t_Key tc = Some tc ->
  ensures (settled def) (taskFailed tc msg retryable reason usage d).
Proof.
  intros Hd HR Et. pose proof HR as [HP HA]. destruct f as [ts fs ms aws cs tms N buf].
  cbn [fl_tasks fl_awaits fl_timers fl_N] in *.
  destruct (place_task def HV _ _ _ _ _ _ _ _ _ _ HP Et) as ((n & Hn & Hid) & _ & _).
  unfold taskFailed. rewrite (ho_def _ _ _ Hd), Hn. cbn [deref res_bind]. cbv zeta.
  destruct (overBudgetWith usage d) as [over|].
  { eapply emit_then; [exact Hd|done|done|done|]. intros d1 Hd1. by eapply fail_settled. }
  destruct (retryable && _ && _) eqn:Ew; cycle 1.
  { by apply (nodeFail_ok _ tc n reason (Sprintf "node %q failed: %s" [AStr (t_Node tc); AText msg]) _ _ Hd HR). }
  eapply emit_then; [exact Hd|done|done|done|]. intros d1 Hd1. unfold flight_step in Hd1.
  cbn [fl_tasks NodeFail_Key NodeFail_WillRetry] in Hd1. rewrite Et in Hd1. fly Hd1.
  destruct (_ <=? 0).
  - eapply reschedule_ok; [exact HP|exact Et|done|done| | |exact Hd1]; [done|].
    by apply armed_settle.
  - eapply timerAt_ok; [exact Hd1|]. intros d2 tm Hti Hp HK Hg Hat Hd2. eapply settled_rest; [exact Hd2| |].
    + by eapply place_update.
    + destruct (ar_key _ _ _ _ HA _ _ Et). by apply armed_retrying.
Qed.
End Ops.
