(* ===== verification/ShapeCmds.v ===== *)
(** * Commands keep executions at one place

    The commands of an execution of a valid flow, one by one, then whole
    decisions, continuations and aborts: what [Decide] promises about the
    states of a life. *)

From S2P Require Import Prelude Json Hash Names Expr Flow FlowValidate FlowValid FlowGraph Event Cmd Reduce State StateFacts View.
From S2P Require Import Decide Writes JoinPolicy Numbering DecideRun DecideOps DecideProps LogProps Flight Shape ShapeEnter ShapeOps.

(** ** Benign errors of the parts that emit nothing *)

Definition benignly {A} (r : result A) : Prop := match r with Ok _ => True | Err e => benign e end.

Lemma plain_benign msg : benign (plain msg).
Proof. apply not_elem_of_nil. Qed.

Lemma wrap_benign k e : k <> ErrApply -> benign e -> benign (wrap k e).
Proof. destruct e; simpl; try done. intros Hk He. apply not_elem_of_cons. done. Qed.

Lemma Reduce_benign r c v : benignly (Reduce r c v).
Proof.
  unfold Reduce, reduceAppend, reduceMerge, reduceSum, errReducer, benignly.
  repeat (case_match; simplify_eq/=; try done); by set_solver.
Qed.

Lemma CheckWrites_benign def st w : benignly (CheckWrites def st w).
Proof.
  unfold CheckWrites. generalize (sorted_keys w). intros keys. generalize tt.
  induction keys as [|k keys IH]; intros []; cbn [res_fold]; [done|].
  destruct (f_Channels def !! k) as [ch|]; [|apply plain_benign].
  pose proof (Reduce_benign (ReducerOrDefault ch) (raw_at (s_Channels st) k) (raw_at w k)) as HB.
  destruct (Reduce _ _ _) as [?|[]]; by cbn [res_bind].
Qed.

Section Cmds.
Context `{Evaluator} (def : Flow) (HV : valid def).

Lemma invalid_benign Q e : benign e -> ensures Q (invalid e).
Proof. intros. by apply wrap_benign. Qed.

(** ** Instances *)

Lemma rest_key f k t : rest def f -> fl_tasks f !! k = Some t -> t_Key t = k.
Proof. intros [_ HA]. apply HA. Qed.

Lemma current_ok ref statuses f d t :
  holds def f d -> rest def f -> current ref statuses d = Some t ->
  fl_tasks f !! t_Key t = Some t /\ t_Key t = ref_Key ref /\ t_Status t ∈ statuses.
Proof.
  intros Hd HR Hc. unfold current in Hc. destruct f as [ts fs ms aws cs tms N buf]. parts Hd. rewrite Ets in Hc.
  destruct (ts !! ref_Key ref) as [t'|] eqn:E; [|done]. destruct (_ || _); [done|].
  case_bool_decide as Hst; [|done]. injection Hc as ->. rewrite (rest_key _ _ _ HR E). done.
Qed.

Lemma rest_settled f d : holds def f d -> rest def f -> ensures (settled def) (Ok d).
Proof. right. eauto. Qed.

Lemma complete_ok p f d : holds def f d -> rest def f -> ensures (settled def) (complete p d).
Proof.
  intros Hd HR. unfold complete. destruct (current _ _ d) as [t|] eqn:Ec; [|by eapply rest_settled].
  destruct (current_ok _ _ _ _ _ Hd HR Ec) as (Et & _ & _).
  assert (Hn : exists n, node def (t_Node t) = Some n).
  { destruct f, HR as [HP _]. destruct (place_task def HV _ _ _ _ _ _ _ _ _ _ HP Et) as ((n & ? & _) & _). eauto. }
  destruct Hn as [n Hn]. rewrite (ho_def _ _ _ Hd), Hn. cbn [deref res_bind]. cbv zeta.
  set (output := if isNull _ then _ else _).
  destruct (checkCompletion n t output p d) as [[[problem retryable]|]|e] eqn:Ecc; cbn [res_bind].
  - by eapply taskFailed_ok.
  - eapply nodeDone_ok; [done|exact Hd|done|done|done|]. cbn [NodeDone_Writes].
    unfold checkCompletion in Ecc. rewrite (ho_def _ _ _ Hd) in Ecc. destruct (_ && _); [done|].
    destruct (CheckWrites _ _ _) as [[]|[]]; done.
  - unfold checkCompletion in Ecc. destruct (_ && _); [done|].
    pose proof (CheckWrites_benign (d_def d) (d_st d) (CompleteData_Writes p)) as HB.
    destruct (CheckWrites _ _ _) as [[]|[]]; repeat case_match; simplify_eq; done.
Qed.

Lemma failTask_ok p f d : holds def f d -> rest def f -> ensures (settled def) (failTask p d).
Proof.
  intros Hd HR. unfold failTask. destruct (current _ _ d) as [t|] eqn:Ec; [|by eapply rest_settled].
  destruct (current_ok _ _ _ _ _ Hd HR Ec) as (Et & _ & _). by eapply taskFailed_ok.
Qed.

Lemma interrupt_ok p f d : holds def f d -> rest def f -> ensures (settled def) (interrupt p d).
Proof.
  intros Hd HR. unfold interrupt. destruct (current _ _ d) as [t|] eqn:Ec; [|by eapply rest_settled].
  destruct (current_ok _ _ _ _ _ Hd HR Ec) as (Et & _ & _). pose proof HR as [HP HA].
  destruct f as [ts fs ms aws cs tms N buf]. cbn [fl_tasks fl_awaits fl_timers fl_N] in *.
  eapply emit_then; [exact Hd|done|done|parts Hd; cbn [applicable Interrupted_Key]; rewrite Ets; eauto|].
  intros d1 Hd1. destruct (overBudget d1); [by eapply fail_settled|].
  unfold flight_step in Hd1. cbn [fl_tasks Interrupted_Key] in Hd1. rewrite Et in Hd1. fly Hd1.
  eapply settled_rest; [exact Hd1|by eapply place_update|].
  destruct (ar_key _ _ _ _ HA _ _ Et). by apply armed_task.
Qed.

Lemma resumable_ok p st t : resumable p st = Some t -> exists k, s_Tasks st !! k = Some t.
Proof.
  unfold resumable. intros Hh%head_Some_elem_of. apply list_elem_of_omap in Hh as (k & _ & Hk).
  destruct (s_Tasks st !! k) as [c|] eqn:E; [|done]. destruct (_ && _); [|done]. injection Hk as ->. eauto.
Qed.

Lemma resume_ok p f d : holds def f d -> rest def f -> ensures (settled def) (resume p d).
Proof.
  intros Hd HR. unfold resume. destruct (resumable p _) as [t|] eqn:Er; [|by eapply rest_settled].
  apply resumable_ok in Er as [k Ek]. pose proof HR as [HP HA]. destruct f as [ts fs ms aws cs tms N buf].
  cbn [fl_tasks fl_awaits fl_timers fl_N] in *. parts Hd. rewrite Ets in Ek. pose proof (ar_key _ _ _ _ HA _ _ Ek) as [HK _]. subst k.
  destruct (place_task def HV _ _ _ _ _ _ _ _ _ _ HP Ek) as ((n & Hn & _) & _ & _).
  rewrite (ho_def _ _ _ Hd), Hn. cbn [deref res_bind]. cbv zeta.
  eapply (reschedule_ok def HV n t t); [exact HP|exact Ek|done|done|done|by apply armed_settle|].
  by rewrite insert_id.
Qed.

(** ** Timers *)

(** A timer fires: its place stays, and it may have been what wakes it up. *)
Lemma place_timers ts fs ms aws cs tms N buf tms' N' :
  place def (MkFlight ts fs ms aws cs tms N buf) -> place def (MkFlight ts fs ms aws cs tms' N' buf).
Proof. intros HP. inversion HP; subst; eauto using place. Qed.

Lemma place_awaits ts fs ms aws cs tms N buf nd a :
  place def (MkFlight ts fs ms aws cs tms N buf) -> aws !! nd = Some a ->
  exists n, n_ID n = nd /\ at_node def n NodeAwait /\ a_Signal a = n_Signal n /\
    ts = ∅ /\ fs = ∅ /\ ms = ∅ /\ aws = {[nd := a]} /\ cs = ∅.
Proof.
  intros HP E. inversion HP; subst; try (by apply lookup_empty_Some in E).
  apply lookup_singleton_Some in E as [<- <-]. by exists n.
Qed.

Lemma retry_ok tc f d :
  holds def f d -> rest def f -> fl_timers f !! Timer_ID tc = Some tc -> Timer_Purpose tc = TimerRetry ->
  ensures (settled def) (let? d := emit TimerFired (DFired {| Fired_ID := Timer_ID tc |}) d in
    match s_Tasks (d_st d) !! Timer_Key tc with
    | None => Ok d
    | Some t =>
        if negb (t_Generation t =? Timer_Generation tc) || negb (bool_decide (t_Status t = TaskRetrying))
           || negb (t_Attempt t =? Timer_Attempt tc - 1) then Ok d
        else
          let? n := deref (node (d_def d) (t_Node t)) in
          schedule n (t_Key t) (t_Owner t) (t_Index t) (t_Item t) (task_resumption t)
            (t_Generation t) (Timer_Attempt tc) d
    end).
Proof.
  intros Hd [HP HA] Htc Hp. destruct f as [ts fs ms aws cs tms N buf]. cbn [fl_tasks fl_awaits fl_timers fl_N] in *.
  eapply emit_then; [exact Hd|done|done|done|]. intros d1 Hd1. fly Hd1. parts Hd1. rewrite Ets. clear Etms Ebuf.
  assert (Hidle : (forall t, ts !! Timer_Key tc = Some t -> t_Status t = TaskRetrying ->
    Timer_Generation tc = t_Generation t -> Timer_Attempt tc <> t_Attempt t + 1) -> ensures (settled def) (Ok d1)).
  { intros Hno. eapply settled_rest; [exact Hd1|by eapply place_timers|]. cbn [fl_tasks fl_awaits fl_timers fl_N].
    apply armed_fired; [|intros nd a tm _ E2 Hp2; simplify_eq; by rewrite Hp in Hp2|done].
    intros k t tm Et Hst E2 _ HK Hg. simplify_eq. by apply Hno. }
  destruct (ts !! Timer_Key tc) as [t|] eqn:Et; [|by apply Hidle].
  destruct (negb _ || negb _ || negb _) eqn:Eb.
  { apply Hidle. intros t' [= <-] Hst Hg Hat. rewrite Hg, Z.eqb_refl, bool_decide_eq_true_2, Hat in Eb by done.
    cbn [negb orb] in Eb. rewrite negb_true_iff, Z.eqb_neq in Eb. lia. }
  destruct (place_task def HV _ _ _ _ _ _ _ _ _ _ HP Et) as ((n & Hn & _) & _ & _).
  rewrite (ho_def _ _ _ Hd1), Hn. cbn [deref res_bind].
  pose proof (ar_key _ _ _ _ HA _ _ Et) as [HK _]. rewrite HK.
  eapply (reschedule_ok def HV n t t); [exact HP|exact Et|done|done|done| |by rewrite insert_id].
  apply armed_fired; [| |by apply armed_settle].
  - intros k t' tm [Hne _]%lookup_delete_Some _ E2 _ HK2. by simplify_eq.
  - intros nd a tm _ E2 Hp2. simplify_eq. by rewrite Hp in Hp2.
Qed.

Lemma awaitTimeout_ok tc f d :
  holds def f d -> rest def f -> fl_timers f !! Timer_ID tc = Some tc -> Timer_Purpose tc = TimerAwait ->
  ensures (settled def) (let? d := emit TimerFired (DFired {| Fired_ID := Timer_ID tc |}) d in awaitTimeout tc d).
Proof.
  intros Hd [HP HA] Htc Hp. destruct f as [ts fs ms aws cs tms N buf]. cbn [fl_tasks fl_awaits fl_timers fl_N] in *.
  eapply emit_then; [exact Hd|done|done|done|]. intros d1 Hd1. fly Hd1. unfold awaitTimeout.
  parts Hd1. rewrite Eaws. clear Etms Ebuf.
  assert (Hidle : (forall a, aws !! Timer_Node tc = Some a -> a_TimerID a <> Timer_ID tc) -> ensures (settled def) (Ok d1)).
  { intros Hno. eapply settled_rest; [exact Hd1|by eapply place_timers|]. cbn [fl_tasks fl_awaits fl_timers fl_N].
    apply armed_fired; [| |done]; [intros k t tm _ _ E2 Hp2; simplify_eq; by rewrite Hp in Hp2|].
    intros nd a tm Ea E2 _ Hid Hnd. simplify_eq. by apply (Hno a). }
  destruct (aws !! Timer_Node tc) as [a|] eqn:Ea; [|by apply Hidle].
  destruct (String.eqb_spec (a_TimerID a) (Timer_ID tc)) as [Hid|Hid]; cbn [negb]; [|apply Hidle; by intros ? [= <-]].
  destruct (place_awaits _ _ _ _ _ _ _ _ _ _ HP Ea) as (n & Hn & [Hnode _] & _ & -> & -> & -> & -> & ->).
  rewrite <- Hn, (ho_def _ _ _ Hd1), Hnode. cbn [deref res_bind].
  eapply emit_then; [exact Hd1|done|done|done|]. intros d2 Hd2. fly Hd2. rewrite Hn, lookup_singleton_eq, delete_singleton_eq in Hd2.
  destruct (String.eqb _ _); [by eapply fail_settled|]. eapply enter_ok; [done|exact Hd2|].
  eapply idle_armed. by eapply armed_delete, armed_delete, armed_empty.
Qed.

Lemma timer_ok p f d : holds def f d -> rest def f -> ensures (settled def) (timer p d).
Proof.
  intros Hd HR. unfold timer. pose proof HR as [HP HA].
  destruct (s_Timers (d_st d) !! _) as [tc|] eqn:Etc; [|by eapply rest_settled].
  assert (Ht : fl_timers f !! Timer_ID tc = Some tc).
  { destruct f as [ts fs ms aws cs tms N buf]. parts Hd. cbn [fl_timers] in *. rewrite Etms in Etc.
    by destruct (ar_timer _ _ _ _ HA _ _ Etc) as [-> _]. }
  destruct (String.eqb_spec (Timer_Purpose tc) TimerRetry) as [Hp|Hp]; [by eapply retry_ok|].
  destruct (String.eqb_spec (Timer_Purpose tc) TimerAwait) as [Hp2|Hp2].
  { destruct (String.eqb_spec (Timer_Purpose tc) TimerTimeout) as [Hp3|_]; [by rewrite Hp2 in Hp3|]. by eapply awaitTimeout_ok. }
  eapply emit_then; [exact Hd|done|done|done|]. intros d1 Hd1.
  assert (HR1 : rest def (flight_step (DFired {| Fired_ID := Timer_ID tc |}) f)).
  { destruct f as [ts fs ms aws cs tms N buf]. cbn [fl_tasks fl_awaits fl_timers fl_N] in *. 
    split; [by eapply place_timers|]. change (armed ts aws (delete (Timer_ID tc) tms) N).
    apply armed_fired; [| |done]; intros ? ? tm; intros; assert (tm = tc) by congruence; congruence. }
  destruct (String.eqb _ TimerTimeout); [|by eapply rest_settled].
  destruct (current _ _ d1) as [t|] eqn:Ec; [|by eapply rest_settled].
  destruct (current_ok _ _ _ _ _ Hd1 HR1 Ec) as (Et & _ & _). by eapply taskFailed_ok.
Qed.

(** ** Signals *)

Lemma place_signal ts fs ms aws cs tms N buf b :
  place def (MkFlight ts fs ms aws cs tms N buf) -> (forall nd a, aws !! nd = Some a -> a_Signal a <> b_Name b) ->
  place def (MkFlight ts fs ms aws cs tms N (buf ++ [b])).
Proof.
  intros HP Hb. inversion HP as [| ? ? ? ? ? Hn Hs Hbuf | | | ]; subst; eauto using place.
  apply at_await; [done|done|]. intros b' [Hin|Hin%list_elem_of_singleton]%elem_of_app; [by apply Hbuf|]. subst b'.
  rewrite <- Hs. intros E. apply (Hb (n_ID n) a); [apply lookup_singleton_eq|done].
Qed.

Lemma signal_ok p f d : holds def f d -> rest def f -> ensures (settled def) (signal p d).
Proof.
  intros Hd [HP HA]. unfold signal. destruct (CheckToken _ _); [apply invalid_benign, plain_benign|].
  destruct (bool_decide _); [by eapply rest_settled|]. destruct f as [ts fs ms aws cs tms N buf].
  cbn [fl_tasks fl_awaits fl_timers fl_N] in *.
  eapply emit_then; [exact Hd|done|done|done|]. intros d1 Hd1. fly Hd1. parts Hd1. rewrite Eaws.
  destruct (List.find _ _) as [nd|] eqn:Ef.
  - apply find_some in Ef as [_ Ea]. destruct (aws !! nd) as [a|] eqn:E; [|done].
    destruct (place_awaits _ _ _ _ _ _ _ _ _ _ HP E) as (n & Hn & Hnode & Hs & -> & -> & -> & -> & ->).
    rewrite (ho_def _ _ _ Hd1), <- Hn, (proj1 Hnode). cbn [deref res_bind]. subst nd.
    eapply consume_ok; [by intros; eapply enter_ok|done|exact Hs|exact HA|exact Hd1].
  - eapply settled_rest; [exact Hd1| |done]. apply place_signal; [done|]. intros nd a E Hs.
    pose proof (find_none _ _ Ef nd) as Hnone. cbn beta in Hnone. rewrite E, Hs, String.eqb_refl in Hnone.
    discriminate Hnone. apply list_elem_of_In, elem_of_sorted_keys. eauto.
Qed.

(** ** Children *)

Lemma find_child_ok id st k c : find_child id st = Some (k, c) -> s_Children st !! k = Some c.
Proof.
  unfold find_child. intros Hh%head_Some_elem_of. apply list_elem_of_omap in Hh as (k' & _ & Hk).
  destruct (s_Children st !! k') as [c'|] eqn:E; [|done]. destruct (String.eqb _ _); [|done]. by injection Hk as <- <-.
Qed.

Lemma place_child ts fs ms aws cs tms N buf k c :
  place def (MkFlight ts fs ms aws cs tms N buf) -> cs !! k = Some c ->
  k <> "" /\ NodeOf c k = cs_Node c /\ (exists n, node def (cs_Node c) = Some n) /\
  forall m, item_of ms (cs_Node c) (cs_Owner c) = Some m -> in_range (cs_Index c) m.
Proof.
  intros HP E. assert (HN : cs_Node c <> "" -> NodeOf c k = cs_Node c) by (unfold NodeOf; by destruct (String.eqb_spec (cs_Node c) "")).
  inversion HP as [|n0 a0|n c' ? ? ? [Hn _] Hnd Ho|n fan ? ? ? ? ? HI _|n m ? ? ? ? ? HI _]; subst; try (by apply lookup_empty_Some in E).
  - apply lookup_singleton_Some in E as [<- <-]. destruct (valid_node def HV _ _ Hn) as (_ & Hne & _).
    rewrite item_of_empty. rewrite Hnd in *. do 3 (split; [eauto|]). done.
  - destruct (fi_child _ _ _ _ _ _ HI _ _ E) as (Hb & Hnd & _). rewrite item_of_empty.
    destruct (fanout_branch def HV _ _ (fi_node _ _ _ _ _ _ HI) Hb) as [(bn & Hbn & _) Hne].
    rewrite Hnd in *. do 3 (split; [eauto|]). done.
  - destruct (mi_child _ _ _ _ _ HI _ _ E) as (Hnd & Ho & Hi & ->). destruct (mi_node _ _ _ _ _ HI) as [Hn _].
    destruct (valid_node def HV _ _ Hn) as (_ & Hne & _). rewrite Ho, Hnd in *.
    split; [by apply item_key_not_empty|]. split; [auto|]. split; [eauto|]. rewrite item_of_self. intros m' [= <-].
    unfold in_range, len. rewrite (mi_outputs _ _ _ _ _ HI). pose proof (mi_next _ _ _ _ _ HI). unfold len in *. lia.
Qed.

(** The end of child [key], recorded: its owner reacts. *)
Lemma childEnded_ok x key cc e1 e2 f d :
  holds def f d -> rest def f -> fl_children f !! key = Some cc -> child_key x = key -> ChildDone_Node x = cs_Node cc ->
  let nd := cs_Node cc in
  ensures (settled def) (let? d := emit ChildCompleted (DChildDone x) d in
    match overBudget d with
    | Some over => fail_ ReasonBudget over nd d
    | None =>
        if is_fan d (cs_Owner cc) then evalJoin (cs_Owner cc) d
        else
          let? n := deref (node (d_def d) nd) in
          if is_item d nd (cs_Owner cc) then
            if child_ok x then mapProgress enter n d
            else if negb (String.eqb (n_OnFailure n) "") then abortMap n (cs_Index cc) d
            else fail_ ReasonChild e1 nd d
          else if negb (child_ok x) then
            if negb (String.eqb (n_OnFailure n) "") then enter (n_OnFailure n) d
            else fail_ ReasonChild e2 nd d
          else advance enter n "" d
    end).
Proof.
  intros Hd [HP HA] Ec Hkey Hnode nd. destruct f as [ts fs ms aws cs tms N buf].
  cbn [fl_tasks fl_awaits fl_timers fl_N fl_children] in *.
  destruct (place_child _ _ _ _ _ _ _ _ _ _ HP Ec) as (_ & _ & [n0 Hn0] & Hr).
  eapply emit_then; [exact Hd|done|done| |].
  { parts Hd. cbn [applicable]. rewrite Hkey, Hnode, Ems, Ecs. intros _ c m Ec' Hm. simplify_eq. auto. }
  intros d1 Hd1. destruct (overBudget d1); [by eapply fail_settled|]. unfold nd in *.
  rewrite (ho_def _ _ _ Hd1), Hn0. cbn [deref res_bind].
  unfold flight_step in Hd1. cbn [fl_children fl_maps] in Hd1. rewrite Hkey, Hnode, Ec in Hd1.
  inversion HP as [|? a0|n c' ? ? ? [Hn _] Hnd Ho|n fan ? ? ? ? ? HI _|n m ? ? ? ? ? HI _]; subst; try (by apply lookup_empty_Some in Ec).
  - apply lookup_singleton_Some in Ec as [Ek <-]. rewrite Ho, item_of_empty, <- Ek in *. fly Hd1.
    rewrite delete_singleton_eq, lookup_empty in Hd1.
    rewrite (is_fan_at _ _ _ _ _ _ _ _ _ _ _ Hd1), (is_item_at _ _ _ _ _ _ _ _ _ _ _ _ Hd1), !lookup_empty.
    rewrite !bool_decide_eq_false_2 by (by intros [? ?]). cbn [andb].
    assert (Hidle : idle (MkFlight ∅ ∅ ∅ ∅ ∅ tms N buf)) by (by eapply idle_armed).
    repeat case_match; eauto using enter_ok, fail_settled. eapply advance_ok; [apply enter_any, HV|exact Hd1|done].
  - destruct (fi_child _ _ _ _ _ _ HI _ _ Ec) as (_ & Hnd & Ho). rewrite Ho, item_of_empty in *. fly Hd1.
    rewrite lookup_singleton_eq, insert_singleton_eq in Hd1.
    rewrite (is_fan_at _ _ _ _ _ _ _ _ _ _ _ Hd1), lookup_singleton_eq, bool_decide_eq_true_2 by eauto.
    eapply evalJoin_ok; [done| |exact HA|exact Hd1]. rewrite Hnd.
    apply (fan_inv_settle_child _ _ _ _ _ _ _ _ HI Ec). by destruct (child_ok x).
  - destruct (mi_child _ _ _ _ _ HI _ _ Ec) as (Hnd & Ho & _ & _). rewrite Hnd, Ho, item_of_self in *.
    assert (Hd2 : exists m', holds def (MkFlight ts ∅ {[n_ID n := m']} ∅ (delete (child_key x) cs) tms N buf) d1 /\
      (child_ok x = true -> map_inv def n m' ts (delete (child_key x) cs))).
    { destruct (child_ok x); fly Hd1; [rewrite insert_singleton_eq in Hd1|]; eexists; (split; [exact Hd1|]); [|done].
      intros _. by eapply map_inv_settle_child. }
    destruct Hd2 as (m' & Hd2 & HI').
    rewrite (is_fan_at _ _ _ _ _ _ _ _ _ _ _ Hd2), (is_item_at _ _ _ _ _ _ _ _ _ _ _ _ Hd2), lookup_empty.
    rewrite lookup_singleton_eq, String.eqb_refl, bool_decide_eq_false_2, bool_decide_eq_true_2; [|eauto|by intros [? ?]].
    cbn [andb]. assert (n0 = n) as ->. { rewrite (proj1 (mi_node _ _ _ _ _ HI)) in Hn0. congruence. }
    destruct (child_ok x); [eapply mapProgress_ok; [done|apply enter_any, HV|by apply HI'|exact HA|exact Hd2]|].
    destruct (negb _); [|by eapply fail_settled]. eapply abortMap_ok; [done| | |exact HA|exact Hd2].
    + intros k t Et. by apply (mi_task _ _ _ _ _ HI) in Et as (_ & ? & _).
    + intros k c [_ E']%lookup_delete_Some. by apply (mi_child _ _ _ _ _ HI) in E' as (_ & ? & _).
Qed.

Lemma childDone_ok p f d : holds def f d -> rest def f -> ensures (settled def) (childDone p d).
Proof.
  intros Hd HR. unfold childDone. destruct (find_child _ _) as [[key cc]|] eqn:Ef; [|by eapply rest_settled].
  apply find_child_ok in Ef. pose proof HR as [HP HA]. destruct f as [ts fs ms aws cs tms N buf]. parts Hd.
  rewrite Ecs in Ef. destruct (place_child _ _ _ _ _ _ _ _ _ _ HP Ef) as (Hne & HN & _). cbv zeta. rewrite HN.
  match goal with |- outcome _ _ (res_bind (emit _ (DChildDone ?y) _) _) => set (x := y);
    change (String.eqb (ChildDoneData_Status p) (status_string StatusCompleted)) with (child_ok x) end.
  eapply (childEnded_ok x key cc); [exact Hd|done|done| |done].
  unfold child_key, x. cbn [ChildDone_Key ChildDone_Node]. destruct (String.eqb_spec key (cs_Node cc)) as [->|]; [done|].
  by destruct (String.eqb_spec key "").
Qed.

(** ** Updates, cancellations, starts *)

Lemma update_ok w f d : holds def f d -> rest def f -> ensures (settled def) (update w d).
Proof.
  intros Hd HR. unfold update. destruct (bool_decide _); [apply invalid_benign, plain_benign|].
  destruct (bool_decide _); [by eapply rest_settled|].
  pose proof (CheckWrites_benign (d_def d) (d_st d) w) as HB. destruct (CheckWrites _ _ _) as [[]|e] eqn:EC; [|by apply invalid_benign].
  eapply ensures_weaken; [eapply emit_holds; [exact Hd|done|done|]|].
  - cbn [applicable Update_Writes]. by rewrite <- (ho_def _ _ _ Hd).
  - intros d' Hd'. right. by exists f.
Qed.

Lemma cancel_ok p f d : holds def f d -> ensures (settled def) (cancel p d).
Proof. intros [Hd _ _]. by apply ends_settled, emit_ends. Qed.

Lemma attrs_benign input : benignly (attrs def input).
Proof.
  unfold attrs. destruct (bool_decide _); [done|].
  assert (HK : forall k, k ∈ sorted_keys (f_SearchAttributes def) -> is_Some (f_attrs def !! k)).
  { intros k Hk. by apply (va_attrs _ HV), elem_of_sorted_keys. }
  revert HK. generalize (sorted_keys (f_SearchAttributes def)) as keys, (∅ : gmap string Text) as out.
  intros keys. induction keys as [|k keys IH]; intros out HK; cbn [res_fold]; [done|].
  destruct (HK k) as [prog Hp]; [by left|]. unfold AttrProgram at 1. rewrite Hp. cbn [deref res_bind].
  assert (HK' : forall k', k' ∈ keys -> is_Some (f_attrs def !! k')) by (intros; apply HK; by right).
  destruct (eval prog _) as [?|[]]; cbn [res_bind]; by apply IH.
Qed.

Lemma FlowHash_benign : benignly (FlowHash def).
Proof. unfold FlowHash. case_match; [done|]. apply not_elem_of_nil. Qed.

(** A start of an execution that does not exist. *)
Lemma start_new_ok c f d :
  holds def f d -> idle f -> Exists (d_st d) = false -> 0 <= s_Events (d_st d) ->
  ensures (fun d' => settled def d' /\ Exists (d_st d') = true) (start c d).
Proof.
  intros Hd Hf Hex Hev. unfold start, Payload. destruct (decode_StartData _) as [p|].
  2: { apply invalid_benign, not_elem_of_nil. }
  rewrite Hex. cbv zeta. set (input := if isNull _ then _ else _). destruct (negb _); [apply invalid_benign, plain_benign|].
  rewrite (ho_def _ _ _ Hd). pose proof FlowHash_benign as HH. destruct (FlowHash def) as [hash|e]; [|done]. cbn [res_bind].
  pose proof (attrs_benign input) as HA. destruct (attrs def input) as [at_|e]; [|done]. cbn [res_bind].
  match goal with |- outcome _ _ (res_bind (emit _ (DStarted ?x) _) _) => set (x0 := x) end.
  pose proof (emit_holds benign def f ExecutionStarted (DStarted x0) d Hd eq_refl eq_refl I) as HE.
  destruct (emit ExecutionStarted (DStarted x0) d) as [d1|e] eqn:E; [|done]. cbn [ensures res_bind] in *.
  destruct (emit_index ExecutionStarted (DStarted x0) d d1 (conj eq_refl eq_refl) E) as (Hev1 & _).
  rewrite (ho_def _ _ _ HE). pose proof (enter_ok def (StartNode def) _ d1 HV HE Hf) as Hent. pose proof (enter_good (StartNode def) d1) as HG.
  destruct (enter (StartNode def) d1) as [d2|e]; [|done]. split; [exact Hent|].
  destruct HG as (HI & _). apply inners_emits, emits_indexed in HI as (evs & _ & _ & Hn). unfold Exists, len in *. lia.
Qed.

Lemma dispatch_ok c f d : holds def f d -> rest def f -> ensures (settled def) (dispatch c d).
Proof.
  intros Hd HR. assert (HD : forall P (dec : Json -> option P) (fn : P -> Op),
    (forall p, ensures (settled def) (fn p d)) -> ensures (settled def) (decode c dec fn d)).
  { intros P dec fn Hf. unfold decode, Payload. destruct (dec _); [apply Hf|]. apply invalid_benign, not_elem_of_nil. }
  unfold dispatch. destruct (c_Type c); try (apply HD; intros);
    eauto using complete_ok, failTask_ok, interrupt_ok, resume_ok, signal_ok, cancel_ok, timer_ok, childDone_ok, update_ok;
    by apply not_elem_of_cons; split; [|apply not_elem_of_nil].
Qed.

(** ** Decisions *)

(** A state between two decisions. *)
Record standing (s : State) : Prop := {
  sd_events : 0 <= s_Events s;
  sd_new : Exists s = false -> Terminal (s_Status s) = false /\ idle (flight s);
  sd_live : Exists s = true -> Terminal (s_Status s) = false -> rest def (flight s);
  sd_over : Terminal (s_Status s) = true -> flight s = ground (flight s) }.

Lemma settled_standing d : settled def d -> 0 < s_Events (d_st d) -> standing (d_st d).
Proof.
  intros HS Hev. assert (Ex : Exists (d_st d) = true) by (by apply Z.ltb_lt).
  split; [lia|by rewrite Ex|..]; destruct HS as [[_ Ht Hf]|(f & [_ Hl Hf] & HR)]; unfold live in *; try congruence.
Qed.

Lemma NewState_standing id : standing (NewState id).
Proof.
  split; [done| |done|done]. intros _. split; [done|]. exists ∅, 0, []. split; [done|].
  split; [done|..]; by intros ? ? ?%lookup_empty_Some.
Qed.

Lemma emits_events d d' : Emits d d' -> s_Events (d_st d) <= s_Events (d_st d').
Proof. intros (evs & _ & _ & Hn)%emits_indexed. unfold len in Hn. lia. Qed.

Ltac other_error := by apply not_elem_of_cons; split; [|apply not_elem_of_nil].

Lemma Decide_standing st c now :
  standing st -> match Decide def st c now with Ok (_, st') => standing st' | Err e => benign e end.
Proof.
  intros HS. pose proof HS as [Hev Hnew Hlive _]. unfold Decide. cbv zeta. set (d := new_decider def st now (c_ID c)).
  assert (Hstart : match decided (start c d) with Ok (_, st') => standing st' | Err e => benign e end).
  { destruct (Exists st) eqn:Ex.
    - unfold start, Payload. destruct (decode_StartData _); [|other_error].
      change (d_st d) with st. rewrite Ex. unfold CheckJoin. destruct (String.eqb _ _); [done|]. set_solver.
    - destruct (Hnew eq_refl) as [Hl Hf]. pose proof (start_new_ok c (flight st) d) as HO.
      destruct (start c d) as [d'|e]; [|by apply HO].
      destruct HO as [HO Ex']; [done..|]. apply settled_standing; [done|by apply Z.ltb_lt]. }
  destruct (c_Type c) eqn:Et; [exact Hstart|..].
  all: destruct (Exists st) eqn:Ex; cbn [negb]; [|other_error].
  all: destruct (Terminal (s_Status st)) eqn:Etm; [try exact HS; other_error|].
  all: pose proof (dispatch_ok c (flight st) d) as HO; pose proof (dispatch_fine c d) as HF;
    destruct (dispatch c d) as [d'|e]; [|by apply HO; auto]; apply settled_standing; [by apply HO; auto|].
  all: destruct HF as (HE%steady_sends%sends_emits%emits_events & _); apply Z.ltb_lt in Ex; cbn [new_decider d_st d] in HE; lia.
Qed.

(** ** Continuations and aborts *)

(** What the JSON form of a state does to its map runs. *)
Definition reload_run (m : MapRun) : MapRun := {|
  m_Items := reloaded <$> m_Items m; m_Outputs := reloaded <$> m_Outputs m;
  m_Done := m_Done m; m_Next := m_Next m; m_MaxParallel := m_MaxParallel m |}.

Lemma map_inv_reload n m ts cs : map_inv def n m ts cs -> map_inv def n (reload_run m) ts cs.
Proof.
  intros []. split; cbn [reload_run m_Items m_Outputs m_Done m_Next]; try done; [by rewrite !length_fmap|].
  unfold len. by rewrite length_fmap.
Qed.

Lemma rest_reload f : rest def f -> rest def (set_fl_maps (reload_run <$> fl_maps f) f).
Proof.
  intros [HP HA]. split; [|done]. destruct HP; cbn [set_fl_maps fl_maps]; rewrite ?fmap_empty; eauto using place.
  unfold set_fl_maps. cbn [fl_maps]. rewrite map_fmap_singleton. eauto using place, map_inv_reload.
Qed.

Lemma finish_flight ev s : flight (finish ev s) = flight s.
Proof. by destruct (finish_frame ev s) as (x & up & -> & _). Qed.

Lemma Continue_standing st seg cmdID now evs st' :
  standing st -> Continue def st seg cmdID now = Ok (evs, st') -> standing st'.
Proof.
  intros HS HC. destruct (Continue_inv _ _ _ _ _ _ _ HC) as [[_ ->]|(Ex & Et & ev & _ & _ & _ & _ & ->)]; [done|].
  pose proof (rest_reload _ (rest_reload _ (sd_live _ HS Ex Et))) as HR. set (s1 := set_Base _ _).
  change (rest def (flight s1)) in HR. rewrite <- (finish_flight ev s1) in HR. 
  apply Z.ltb_lt in Ex. assert (Hev : 0 < s_Events (finish ev s1)).
  { destruct (finish_frame ev s1) as (x & up & -> & _). cbn. lia. }
  assert (Htm : Terminal (s_Status (finish ev s1)) = false).
  { destruct (finish_frame ev s1) as (x & up & -> & Hx & _). exact (eq_trans Hx Et). }
  split; [lia| |done|congruence]. intros Ex'. apply Z.ltb_ge in Ex'. lia.
Qed.

Lemma Abort_standing st cmdID reason msg now evs st' :
  standing st -> Abort def st None cmdID reason msg now = Ok (evs, st') -> standing st'.
Proof.
  intros HS. unfold Abort, invalid. destruct (Exists st) eqn:Ex; [|done]. cbn [res_bind new_decider d_st].
  destruct (Terminal (s_Status st)) eqn:Et; [by intros [= _ <-]|].
  pose proof (fail_ends def reason msg "" (new_decider def st now cmdID) eq_refl) as HE.
  pose proof (fail_good reason msg "" (new_decider def st now cmdID)) as HG.
  destruct (fail_ _ _ _ _) as [d'|e]; [|done]. intros [= _ <-]. apply settled_standing; [by left|].
  destruct HG as (HI%inners_emits%emits_events & _). apply Z.ltb_lt in Ex. cbn [new_decider d_st] in HI. lia.
Qed.

Lemma Step_standing st evs st' : standing st -> Step def st evs st' -> standing st'.
Proof.
  intros HS [c now HD|seg cmdID now HC|cmdID reason msg now HA];
    [|by eapply Continue_standing|by eapply Abort_standing].
  pose proof (Decide_standing st c now HS) as HO. by rewrite HD in HO.
Qed.
End Cmds.

(** ** Forks, and what executions of a valid flow promise

    A fork restarts everything in flight in the state it was forked from; it
    comes to rest like any decision. *)

Section Fork.
Context `{Evaluator} (def : Flow) (HV : valid def).

(** ** Instances *)

(** Instances under their keys, retrying only while they are still to be
    restarted. *)
Record restarting (keys : list string) (ts : gmap string Task) (tms : gmap string Timer) (N : Z) : Prop := {
  rs_N : 0 <= N;
  rs_key k t : ts !! k = Some t -> t_Key t = k /\ t_Generation t <> 0;
  rs_timer k tm : tms !! k = Some tm -> Timer_ID tm = k /\ exists i, k = timer_id i /\ i <= N;
  rs_retry k t : ts !! k = Some t -> t_Status t = TaskRetrying -> k ∈ keys }.

Lemma restarting_armed ts tms N : restarting [] ts tms N -> armed ts ∅ tms N.
Proof.
  intros [H0 Hk Ht Hr]. split; [done|done|done| |by intros ? ? ?%lookup_empty_Some].
  intros k t E Hs. by apply (Hr k t E), elem_of_nil in Hs.
Qed.

Lemma restarting_timers keys ts tms N : restarting keys ts tms N -> armed ∅ ∅ tms N.
Proof. intros [H0 _ Ht _]. split; try done; by intros ? ? ?%lookup_empty_Some. Qed.

Lemma rekick_tasks_ok keys ts fs ms aws cs tms N buf d Q :
  place def (MkFlight ts fs ms aws cs tms N buf) -> restarting keys ts tms N ->
  (forall k, k ∈ keys -> is_Some (ts !! k)) -> holds def (MkFlight ts fs ms aws cs tms N buf) d ->
  (forall d' ts' tms' N', place def (MkFlight ts' fs ms aws cs tms' N' buf) -> restarting [] ts' tms' N' ->
     holds def (MkFlight ts' fs ms aws cs tms' N' buf) d' -> Q d') ->
  ensures Q (each keys rekick_task d).
Proof.
  revert ts tms N d. induction keys as [|k keys IH]; intros ts tms N d HP HR Hk Hd HQ; unfold each; cbn [res_fold].
  { by apply (HQ d ts tms N). }
  destruct (Hk k) as [t Et]; [by left|]. parts Hd.
  assert (Hk' : forall k', k' ∈ keys -> is_Some (ts !! k')) by (intros; apply Hk; by right).
  apply (ensures_bind _ (fun d' => exists ts' tms' N', place def (MkFlight ts' fs ms aws cs tms' N' buf) /\
    restarting keys ts' tms' N' /\ (forall k', k' ∈ keys -> is_Some (ts' !! k')) /\
    holds def (MkFlight ts' fs ms aws cs tms' N' buf) d')).
  2: { intros d1 (ts1 & tms1 & N1 & HP1 & HR1 & Hk1 & Hd1). by eapply IH. }
  unfold rekick_task. rewrite Ets, Et. cbn [deref res_bind]. case_bool_decide as Hst.
  { exists ts, tms, N. split; [done|]. split; [|done]. destruct HR as [H0 H1 H2 H3]. split; [done|done|done|].
    intros k' t' E' Hs'. apply (H3 k' t' E') in Hs' as Hin. apply elem_of_cons in Hin as [->|?]; [|done]. congruence. }
  destruct (place_task def HV _ _ _ _ _ _ _ _ _ _ HP Et) as ((n & Hn & Hid) & Hnext & _).
  rewrite (ho_def _ _ _ Hd), Hn. cbn [deref res_bind]. pose proof (rs_key _ _ _ _ HR _ _ Et) as [HK _]. rewrite HK.
  eapply schedule_ok; [exact Hd|]. rewrite Hid, Hnext. intros d' t' tms1 N1 [Ek Hnd Ho Hi Hs] _ _ HA Hd'.
  exists (<[k := t']> ts), tms1, N1. split; [eapply place_update; [exact HP|exact Et|by repeat split]|].
  split; [|split; [|exact Hd']].
  - pose proof (HA ∅ ∅ (restarting_timers _ _ _ _ HR)) as HA1. split; [apply HA1| |apply HA1|].
    + intros k' x [[<- <-]|[_ E']]%lookup_insert_Some; [|by apply (rs_key _ _ _ _ HR)].
      apply (ar_key _ _ _ _ HA1 k t'). apply lookup_insert_eq.
    + intros k' x [[<- <-]|[Hne E']]%lookup_insert_Some Hs'; [congruence|].
      apply (rs_retry _ _ _ _ HR k' x E') in Hs' as [->|?]%elem_of_cons; done.
  - intros k' Hin. rewrite lookup_insert_is_Some'. auto.
Qed.

(** ** Children *)

Definition same_child (c c' : ChildState) : Prop :=
  cs_Node c' = cs_Node c /\ cs_Owner c' = cs_Owner c /\ cs_Index c' = cs_Index c.

Lemma fan_inv_child_update n fan ts cs k c c' :
  fan_inv def n fan [] ts cs -> cs !! k = Some c -> same_child c c' -> fan_inv def n fan [] ts (<[k := c']> cs).
Proof.
  intros [Hn Hj Hb Ht Hc Hp] E (Hnd & Ho & _). split; try done.
  - intros k' x [[<- <-]|[_ Ex]]%lookup_insert_Some; [|eauto]. destruct (Hc k c E) as (? & ? & ?). by rewrite Hnd, Ho.
  - intros b Hin Hpd. destruct (Hp b Hin Hpd) as [?|[?|[x Hx]]]; [by left|by right; left|]. right. right.
    destruct (decide (k = b)) as [->|]; [rewrite lookup_insert_eq|rewrite lookup_insert_ne by done]; eauto.
Qed.

Lemma map_inv_child_update n m ts cs k c c' :
  map_inv def n m ts cs -> cs !! k = Some c -> same_child c c' -> map_inv def n m ts (<[k := c']> cs).
Proof.
  intros [Hn Ho Hk Ht Hc Hcnt Hd Hx] E (Hnd & How & Hi). split; try done.
  - case_match; [|done]. subst cs. by apply lookup_empty_Some in E.
  - intros k' x [[<- <-]|[_ Ex]]%lookup_insert_Some; [|eauto]. rewrite Hnd, How, Hi. eauto.
  - by rewrite map_size_insert_Some by eauto.
Qed.

Lemma place_child_update ts fs ms aws cs tms N buf k c c' N' :
  place def (MkFlight ts fs ms aws cs tms N buf) -> cs !! k = Some c -> same_child c c' ->
  place def (MkFlight ts fs ms aws (<[k := c']> cs) tms N' buf) /\
  next_maps (cs_Node c) (cs_Owner c) (cs_Index c) ms = ms.
Proof.
  intros HP E HS.
  inversion HP as [|? a0|n x ? ? ? Hn Hnd Ho|n fan ? ? ? ? ? HI Hpd|n m ? ? ? ? ? HI _]; subst; try (by apply lookup_empty_Some in E).
  - apply lookup_singleton_Some in E as [<- <-]. rewrite insert_singleton_eq, next_maps_empty. destruct HS as (? & ? & _).
    split; [|done]. apply at_subflow; congruence.
  - rewrite next_maps_empty. split; [|done]. apply at_fan; [by eapply fan_inv_child_update|done].
  - split.
    + apply at_map; [by eapply map_inv_child_update|]. right. intros Em%(f_equal (.!! k)). by rewrite lookup_insert_eq in Em.
    + destruct (mi_child _ _ _ _ _ HI _ _ E) as (Hnd & Ho & Hi & _). unfold next_maps.
      rewrite Hnd, Ho, item_of_self, insert_singleton_eq, Z.max_l by lia. by destruct m.
Qed.

(** The item of a child of a map: its index is one of the items. *)
Lemma child_item ts fs ms aws cs tms N buf k c :
  place def (MkFlight ts fs ms aws cs tms N buf) -> cs !! k = Some c -> exists item,
  match ms !! cs_Owner c with
  | Some m => if cs_Index c <? len (m_Items m) then slice_get (m_Items m) (cs_Index c) else Ok None
  | None => Ok None
  end = Ok item.
Proof.
  intros HP E.
  inversion HP as [|? a0|n x ? ? ? Hn Hnd Ho|n fan ? ? ? ? ? HI Hpd|n m ? ? ? ? ? HI _]; subst;
    rewrite ?lookup_empty; eauto; try (by apply lookup_empty_Some in E).
  destruct (mi_child _ _ _ _ _ HI _ _ E) as (_ & -> & Hi & _). rewrite lookup_singleton_eq.
  destruct (Z.ltb_spec (cs_Index c) (len (m_Items m))) as [Hlt|]; [|eauto]. unfold len in Hlt.
  destruct (lookup_lt_is_Some_2 (m_Items m) (Z.to_nat (cs_Index c))) as [item Hit]; [lia|].
  exists item. apply slice_get_ok in Hit. by rewrite Z2Nat.id in Hit by lia.
Qed.

Lemma rekick_ended keys d : Terminal (s_Status (d_st d)) = true -> each keys rekick_child d = Ok d.
Proof.
  intros Ht. induction keys as [|k keys IH]; [done|]. unfold each in *. cbn [res_fold]. unfold rekick_child at 1.
  rewrite Ht. exact IH.
Qed.

Lemma rekick_children_ok keys f d :
  holds def f d -> rest def f -> (forall k, k ∈ keys -> is_Some (fl_children f !! k)) ->
  ensures (settled def) (each keys rekick_child d).
Proof.
  revert f d. induction keys as [|k keys IH]; intros f d Hd HR Hk; [by eapply rest_settled|].
  change (each (k :: keys) rekick_child d) with (let? d1 := rekick_child k d in each keys rekick_child d1).
  destruct (Hk k) as [c Ec]; [by left|]. unfold rekick_child at 1. rewrite (Terminal_live _ _ _ Hd).
  destruct f as [ts fs ms aws cs tms N buf]. cbn [fl_children] in *. parts Hd. destruct HR as [HP HA].
  rewrite Ecs, Ec, Ems. cbn [deref res_bind]. destruct (child_item _ _ _ _ _ _ _ _ _ _ HP Ec) as [item ->]. cbn [res_bind].
  destruct (place_child def HV _ _ _ _ _ _ _ _ _ _ HP Ec) as (Hne & HN & [n Hn] & _).
  rewrite HN, (ho_def _ _ _ Hd), Hn. cbn [deref res_bind]. destruct (valid_node def HV _ _ Hn) as (Hid & _ & _).
  apply (ensures_bind _ (fun d' => ended def d' \/ exists f', holds def f' d' /\ rest def f' /\
    forall k, k ∈ keys -> is_Some (fl_children f' !! k))).
  - eapply startChild_ok; [exact Hd|done|by left|]. intros d' c' N' Hnd Ho Hi HNN Hd'. right.
    destruct (place_child_update _ _ _ _ _ _ _ _ _ _ c' N' HP Ec) as [HP' Hnext]; [split; [congruence|done]|].
    rewrite Hid, Hnext in Hd'. eexists. split; [exact Hd'|]. split; [split; [done|by eapply armed_sub]|].
    intros k' Hin. cbn [fl_children]. rewrite lookup_insert_is_Some'. right. apply Hk. by right.
  - intros d' [He|(f' & Hd' & HR' & Hk')]; [|by eapply IH]. rewrite rekick_ended by apply He. by left.
Qed.

(** ** The whole fork *)

Lemma rekick_ok ts fs ms aws cs N buf d :
  place def (MkFlight ts fs ms aws cs ∅ N buf) -> (forall k t, ts !! k = Some t -> t_Key t = k /\ t_Generation t <> 0) -> 0 <= N ->
  holds def (MkFlight ts fs ms aws cs ∅ N buf) d -> ensures (settled def) (rekick d).
Proof.
  intros HP HK H0 Hd. unfold rekick. parts Hd. rewrite Ets.
  apply (ensures_bind _ (fun d' => exists ts' tms' N', place def (MkFlight ts' fs ms aws cs tms' N' buf) /\
    restarting [] ts' tms' N' /\ holds def (MkFlight ts' fs ms aws cs tms' N' buf) d')).
  { eapply rekick_tasks_ok; [exact HP| | |exact Hd|].
    - split; [done|done|by intros ? ? ?%lookup_empty_Some|]. intros k t E _. apply elem_of_sorted_keys. eauto.
    - intros k. apply elem_of_sorted_keys.
    - eauto 8. }
  intros d1 (ts1 & tms1 & N1 & HP1 & HR1 & Hd1).
  apply (ensures_bind _ (settled def)).
  - clear Ets Efs Ems Eaws Ecs Etms Ebuf. parts Hd1. rewrite Eaws.
    destruct (decide (aws = ∅)) as [->|Hne].
    { eapply settled_rest; [exact Hd1|exact HP1|]. by apply restarting_armed. }
    apply map_choose in Hne as (nd & a & Ea).
    destruct (place_awaits def _ _ _ _ _ _ _ _ _ _ HP1 Ea) as (n & <- & Hn & _ & -> & -> & -> & -> & ->).
    assert (sorted_keys {[n_ID n := a]} = [n_ID n]) as ->.
    { apply Permutation_singleton_r. rewrite sorted_keys_perm, dom_singleton_L. by rewrite elements_singleton. }
    unfold each. cbn [res_fold]. unfold rekick_await. rewrite (ho_def _ _ _ Hd1), (proj1 Hn). cbn [deref res_bind].
    eapply (ensures_bind _ (settled def)); [|by intros d2 ?].
    eapply await_from; [apply enter_any, HV|exact Hn| |by eapply restarting_timers|exact Hd1]. intros. apply insert_singleton_eq.
  - intros d2 HS. cbv zeta. destruct HS as [He|(f & Hd2 & HR2)].
    + rewrite rekick_ended by (cbn; apply He). left. by destruct He.
    + eapply rekick_children_ok; [|exact HR2|]; [by destruct Hd2|]. intros k Hin%elem_of_sorted_keys.
      by destruct Hd2 as [_ _ <-].
Qed.

(** The state a fork starts from: that of its source, without the timers. *)
Lemma emit_forked st src now cmdID x :
  Forked_State x = Some (reload src) -> exists d,
  emit ExecutionForked (DForked x) (new_decider def st now cmdID) = Ok d /\ d_def d = def /\
  Terminal (s_Status (d_st d)) = Terminal (s_Status src) /\ s_Events (d_st d) = 1 /\
  flight (d_st d) = (flight src |> set_fl_maps (reload_run <$> s_Maps src) |> set_fl_timers ∅).
Proof.
  intros Hx. unfold emit, Apply, emit_event. cbn [expected_index ev_Data wrap_apply res_bind ev_Index].
  rewrite bool_decide_eq_true_2 by done. cbn [Z.eqb negb andb]. unfold apply_. cbn [ev_Data]. unfold applyForked.
  rewrite Hx. cbn [Unmarshal res_bind wrap_apply]. eexists. split; [reflexivity|]. split; [done|].
  cbn [set_d_out set_d_st d_st].
  match goal with |- context [finish ?e ?s] => destruct (finish_frame e s) as (y & up & -> & Hy & _) end.
  split; [exact Hy|]. split; done.
Qed.

Lemma rekick_events d d' : rekick d = Ok d' -> s_Events (d_st d) <= s_Events (d_st d').
Proof.
  assert (HT : forall k d, emits_to d (rekick_task k d)).
  { intros k d0. unfold rekick_task. apply emits_pure; [apply deref_fuel|]. intros t _. destruct (bool_decide _); [constructor|].
    apply emits_pure; [apply deref_fuel|]. intros n _. apply good_emits, schedule_good. }
  assert (HW : forall k d, emits_to d (rekick_await k d)).
  { intros k d0. unfold rekick_await. apply emits_pure; [apply deref_fuel|]. intros n _. apply good_emits, await_good'. }
  assert (HE : forall keys f d d', (forall k d, emits_to d (f k d)) -> each keys f d = Ok d' ->
    s_Events (d_st d) <= s_Events (d_st d')).
  { intros keys f d0 d1 Hf E. pose proof (emits_each keys f d0 Hf) as HI. rewrite E in HI. by apply emits_events, inners_emits. }
  intros (d1 & E1 & (d2 & E2 & E3)%res_bind_ok)%res_bind_ok.
  apply HE in E1, E2; [|done..]. apply HE in E3; [|apply rekick_child_emits]. cbn [set_d_inherited d_st] in E3. lia.
Qed.

Lemma DecideFork_standing st src from seq cmdID writes now :
  standing def src -> Exists src = true -> Exists st = false ->
  match DecideFork def st src from seq cmdID writes now with Ok (_, st') => standing def st' | Err e => benign e end.
Proof.
  intros HS Exs Ex. unfold DecideFork. rewrite Ex. unfold MarshalState. destruct (bool_decide _); [|apply not_elem_of_nil].
  cbn [res_bind]. match goal with |- context [emit _ (DForked ?x) _] => destruct (emit_forked st src now cmdID x eq_refl)
    as (d & -> & Hdef & Hterm & Hev & Hfl) end. cbn [res_bind].
  rewrite Hterm. destruct (Terminal (s_Status src)) eqn:Et.
  { destruct (bool_decide _); [|by apply (wrap_benign ErrInvalid), plain_benign]. cbn [res_bind decided]. rewrite Hterm.
    cbn [decided res_bind]. split; [lia|unfold Exists; by rewrite Hev|by rewrite Hterm|]. intros _. rewrite Hfl.
    pose proof (sd_over _ _ HS Et) as Hg. injection Hg as E1 E2 E3 E4 E5 E6. unfold flight, set_fl_maps, set_fl_timers, ground.
    cbn [fl_tasks fl_fans fl_maps fl_awaits fl_children fl_timers fl_N fl_buffered]. by rewrite E1, E2, E3, E4, E5, fmap_empty. }
  pose proof (rest_reload def _ (sd_live _ _ HS Exs Et)) as [HP HA].
  assert (Hgo : forall d1, holds def (flight (d_st d)) d1 -> s_Events (d_st d1) = 1 \/ s_Events (d_st d1) = 2 ->
    match (if Terminal (s_Status (d_st d1)) then decided (Ok d1) else decided (rekick d1)) with
    | Ok (_, st') => standing def st' | Err e => benign e end).
  { intros d1 Hd1 Hev1. rewrite (Terminal_live _ _ _ Hd1).
    assert (HK : ensures (settled def) (rekick d1)).
    { rewrite Hfl in Hd1. eapply rekick_ok; [|apply HA|apply HA|exact Hd1]. eapply place_timers. exact HP. }
    destruct (rekick d1) as [d2|e] eqn:Er; [|exact HK]. apply settled_standing; [exact HK|].
    apply rekick_events in Er. lia. }
  assert (Hd : holds def (flight (d_st d)) d) by (split; [done|exact Hterm|done]).
  destruct (bool_decide _); [apply Hgo; auto|].
  pose proof (CheckWrites_benign def (d_st d) writes) as HB. destruct (CheckWrites _ _ _) as [[]|e] eqn:EC; cycle 1.
  { by apply (wrap_benign ErrInvalid). }
  match goal with |- context [emit _ (DUpdate ?x) _] => 
    pose proof (emit_holds benign def _ ChannelsUpdated (DUpdate x) d Hd eq_refl eq_refl EC) as HE;
    pose proof (emit_index ChannelsUpdated (DUpdate x) d) as HI end.
  destruct (emit _ _ d) as [d1|e]; [|exact HE]. destruct (HI d1) as (HI1 & _); [done|done|]. cbn [res_bind].
  apply Hgo; [exact HE|]. right. lia.
Qed.
End Fork.
