(* ===== verification/Executions.v ===== *)
(** * What executions of a validated flow promise

    The states an execution of a flow goes through, by commands, continuations,
    aborts and forks, when the flow passed validation: the execution is at one
    place of the flow, nothing in it waits for ever, and no command makes the
    engine panic or write an event it cannot read back. *)

From S2P Require Import Prelude Json Hash Names Expr Flow FlowValidate FlowValid FlowGraph Event Cmd Reduce.
From S2P Require Import State StateFacts View Decide JoinPolicy Writes Numbering DecideRun DecideOps.
From S2P Require Import DecideProps Flight Shape ShapeEnter ShapeOps ShapeCmds.

Section Executions.
Context `{Evaluator}.
Context (expr_Compile : string -> bool -> Text + list Expr.Op) (schema_Compile : Json -> option Text).

(** The states of the executions of a flow: new ones, what a step leads to, and
    forks of any of them. *)
Inductive Lineage (def : Flow) : State -> Prop :=
| lineage_new id : Lineage def (NewState id)
| lineage_step st evs st' : Lineage def st -> Step def st evs st' -> Lineage def st'
| lineage_fork id src from seq cmdID writes now evs st' :
    Lineage def src -> Exists src = true ->
    DecideFork def (NewState id) src from seq cmdID writes now = Ok (evs, st') -> Lineage def st'.

Lemma life_lineage def id log st : Life def id log st -> Lineage def st.
Proof. induction 1; eauto using Lineage. Qed.

Lemma lineage_standing def st : valid def -> Lineage def st -> standing def st.
Proof.
  intros HV. induction 1 as [id|st evs st' _ IH HS|id src from seq cmdID writes now evs st' _ IH Hex HF].
  - apply NewState_standing.
  - by eapply Step_standing.
  - pose proof (DecideFork_standing def HV (NewState id) src from seq cmdID writes now IH Hex eq_refl) as HO.
    by rewrite HF in HO.
Qed.

(** Nothing in a flight at rest waits for ever. *)
Lemma rest_awake def f :
  rest def f ->
  (fl_tasks f <> ∅ \/ fl_children f <> ∅ \/ fl_awaits f <> ∅) /\
  (forall k t, fl_tasks f !! k = Some t -> t_Status t = TaskRetrying -> retry_timer (fl_timers f) t) /\
  (forall nd a, fl_awaits f !! nd = Some a ->
    await_timer (fl_timers f) nd a /\ forall b, b ∈ fl_buffered f -> b_Name b <> a_Signal a) /\
  (forall nd fan, fl_fans f !! nd = Some fan -> exists b, fan_Branches fan !! b = Some BranchPending /\
    ((exists t, fl_tasks f !! b = Some t /\ t_Owner t = nd) \/
     (exists c, fl_children f !! b = Some c /\ cs_Owner c = nd))) /\
  (forall nd m, fl_maps f !! nd = Some m ->
    (exists k t, fl_tasks f !! k = Some t /\ t_Owner t = nd) \/
    (exists k c, fl_children f !! k = Some c /\ cs_Owner c = nd)).
Proof.
  intros [HP HA]. split; [|split; [exact (ar_retry _ _ _ _ HA)|split; [|split]]];
    destruct HP as [n t tms N buf|n a tms N buf Hn Hs Hb|n c tms N buf|n fan ts cs tms N buf HI (b & Hb & Hp)|n m ts cs tms N buf HI Hne];
    cbn [fl_tasks fl_fans fl_maps fl_awaits fl_children fl_timers fl_buffered] in *;
    try (by intros ? ? ?%lookup_empty_Some).
  - left. apply map_non_empty_singleton.
  - right. right. apply map_non_empty_singleton.
  - right. left. apply map_non_empty_singleton.
  - destruct (fi_pending _ _ _ _ _ _ HI b Hb Hp) as [[]%elem_of_nil|[[t Ht]|[c Hc]]]; [left|right; left].
    + intros ->. by apply lookup_empty_Some in Ht.
    + intros ->. by apply lookup_empty_Some in Hc.
  - tauto.
  - intros nd a' [<- <-]%lookup_singleton_Some. rewrite Hs. split; [|done].
    apply (ar_await _ _ _ _ HA). apply lookup_singleton_eq.
  - intros nd fan' [<- <-]%lookup_singleton_Some. exists b. split; [done|].
    destruct (fi_pending _ _ _ _ _ _ HI b Hb Hp) as [[]%elem_of_nil|[[t Ht]|[c Hc]]]; [left|right].
    + exists t. split; [done|]. by apply (fi_task _ _ _ _ _ _ HI) in Ht as (_ & _ & ?).
    + exists c. split; [done|]. by apply (fi_child _ _ _ _ _ _ HI) in Hc as (_ & _ & ?).
  - intros nd m' [<- <-]%lookup_singleton_Some. destruct Hne as [(k & t & Ht)%map_choose|(k & c & Hc)%map_choose]; [left|right].
    + exists k, t. split; [done|]. by apply (mi_task _ _ _ _ _ HI) in Ht as (_ & ? & _).
    + exists k, c. split; [done|]. by apply (mi_child _ _ _ _ _ HI) in Hc as (_ & ? & _).
Qed.

(** The next attempt of an instance. *)
Definition next_attempt (t t' : Task) : Prop :=
  t_Status t' = TaskScheduled /\ t_Generation t' = t_Generation t /\ t_Attempt t' = t_Attempt t + 1 /\
  t_Node t' = t_Node t /\ t_Owner t' = t_Owner t /\ t_Index t' = t_Index t.

Lemma timer_retries def f d k t id tm :
  valid def -> holds def f d -> rest def f -> fl_tasks f !! k = Some t -> t_Status t = TaskRetrying ->
  fl_timers f !! id = Some tm -> Timer_Purpose tm = TimerRetry -> Timer_Key tm = t_Key t ->
  Timer_Generation tm = t_Generation t -> Timer_Attempt tm = t_Attempt t + 1 ->
  surely (fun d' => exists t', s_Tasks (d_st d') !! k = Some t' /\ next_attempt t t')
    (timer {| TimerData_TimerID := id |} d).
Proof.
  intros HV Hd [HP HA] Et Hst Etm Hp HK Hg Hat. destruct f as [ts fs ms aws cs tms N buf].
  cbn [fl_tasks fl_timers fl_awaits fl_N] in *. destruct (ar_key _ _ _ _ HA _ _ Et) as [<- Hgen].
  unfold timer. parts Hd. cbn [TimerData_TimerID]. rewrite Etms, Etm, Hp. cbn [String.eqb Ascii.eqb Bool.eqb TimerRetry].
  eapply emit_then; [exact Hd|done|done|done|]. intros d1 Hd1. fly Hd1.
  rewrite (proj1 (holds_parts _ _ _ _ _ _ _ _ _ _ Hd1)), HK, Et, Hg, Hst, Hat, Z.eqb_refl.
  rewrite bool_decide_eq_true_2 by done. replace (t_Attempt t =? t_Attempt t + 1 - 1) with true by (symmetry; apply Z.eqb_eq; lia).
  cbn [negb orb]. destruct (place_task def HV _ _ _ _ _ _ _ _ _ _ HP Et) as ((n & Hn & Hid) & _ & _).
  rewrite (ho_def _ _ _ Hd1), Hn. cbn [deref res_bind].
  eapply schedule_ok; [exact Hd1|]. intros d2 t' tms' N' [Hk' Hnd Ho Hi Hs] Ha' Hg' _ Hd2. exists t'.
  rewrite (proj1 (holds_parts _ _ _ _ _ _ _ _ _ _ Hd2)), lookup_insert_eq. split; [done|]. split; [done|].
  split; [auto|]. split; [done|]. split; [congruence|done].
Qed.

Section Validated.
Context (f def : Flow) (Hvalid : FlowValidate.Validate expr_Compile schema_Compile f = Ok ([], def)).
Context (st : State) (HL : Lineage def st) (Hex : Exists st = true) (Hlive : Terminal (s_Status st) = false).

Lemma lineage_rest : rest def (flight st).
Proof. apply sd_live; [|done|done]. eapply lineage_standing; [|done]. by eapply Validate_valid. Qed.

(** C13. An execution of a validated flow that is not over is at exactly one place: one
    task, one await or one subflow outside any fan-out; or one fan-out, with at
    most one instance or child per branch and every pending branch in flight; or
    one map, whose items in flight are those scheduled and not done. *)
Theorem in_one_place : place def (flight st).
Proof. apply lineage_rest. Qed.

(** C11. An execution of a validated flow that is not over always has something in flight,
    and nothing in flight waits for ever: an instance that retries has its retry
    timer, an await has its timer and its signal is not buffered already, a
    fan-out has a branch and a map an item in flight. *)
Theorem never_stranded :
  (s_Tasks st <> ∅ \/ s_Children st <> ∅ \/ s_Awaits st <> ∅) /\
  (forall k t, s_Tasks st !! k = Some t -> t_Status t = TaskRetrying -> retry_timer (s_Timers st) t) /\
  (forall nd a, s_Awaits st !! nd = Some a ->
    await_timer (s_Timers st) nd a /\ forall b, b ∈ s_Buffered st -> b_Name b <> a_Signal a) /\
  (forall nd fan, s_Fans st !! nd = Some fan -> exists b, fan_Branches fan !! b = Some BranchPending /\
    ((exists t, s_Tasks st !! b = Some t /\ t_Owner t = nd) \/
     (exists c, s_Children st !! b = Some c /\ cs_Owner c = nd))) /\
  (forall nd m, s_Maps st !! nd = Some m ->
    (exists k t, s_Tasks st !! k = Some t /\ t_Owner t = nd) \/
    (exists k c, s_Children st !! k = Some c /\ cs_Owner c = nd)).
Proof. exact (rest_awake def (flight st) lineage_rest). Qed.

(** C12. An instance that waits for its retry is woken up: a timer of the execution is
    such that its firing, at any time and whoever delivers it, schedules the next
    attempt of that very instance, without an error. *)
Theorem retry_wakes_up k t :
  s_Tasks st !! k = Some t -> t_Status t = TaskRetrying -> exists id, is_Some (s_Timers st !! id) /\
  forall c now, c_Type c = CTimer -> Payload decode_TimerData c = Ok {| TimerData_TimerID := id |} ->
  exists evs st' t', Decide def st c now = Ok (evs, st') /\ s_Tasks st' !! k = Some t' /\ next_attempt t t'.
Proof.
  intros Et Hst. pose proof lineage_rest as HR. pose proof (Validate_valid _ _ _ _ Hvalid) as HV.
  destruct (ar_retry _ _ _ _ (rest_armed _ _ HR) k t Et Hst) as (id & tm & Etm & Hp & HK & Hg & Hat).
  exists id. split; [by exists tm|]. intros c now Hc Hpl. unfold Decide, dispatch, decode.
  rewrite Hc, Hex, Hlive, Hpl. cbn [negb]. set (d := new_decider def st now (c_ID c)).
  pose proof (timer_retries def (flight st) d k t id tm HV) as HT.
  destruct (timer _ d) as [d'|e]; [|by exfalso; apply HT].
  destruct HT as (t' & Et' & Hn); try done. by exists (d_out d'), (d_st d'), t'.
Qed.
End Validated.

(** C3. No command, whatever its type and payload, makes the engine panic on an execution of
    a validated flow, nor emit an event its own fold refuses: a decision that
    fails returns an ordinary error, and the log stays readable. *)
Theorem decide_never_panics f def st c now e :
  FlowValidate.Validate expr_Compile schema_Compile f = Ok ([], def) -> Lineage def st ->
  Decide def st c now = Err e -> exists ks msg, e = Error ks msg /\ ErrApply ∉ ks.
Proof.
  intros HV%Validate_valid HL HD. pose proof (Decide_standing def HV st c now (lineage_standing def st HV HL)) as HO.
  pose proof (Decide_fuel def st c now) as HF. rewrite HD in *. destruct e as [ks msg|what|]; [eauto|done|done].
Qed.
End Executions.
