(* ===== verification/Server.v ===== *)
(** * Programs that talk to the server

    The engine, the loader, the event log and the snapshots are programs that
    call the NATS server (streams, buckets, object stores), the process's own
    cache, and the message they handle.  A program is a finite tree of calls
    ([Prog]); each call has a type of answers.  Programs of several engines
    interleave call by call (see [Cluster]). *)

From S2P Require Import Prelude Json Names Flow Event Cmd Reduce State View Wire Codec.

(** ** What is stored *)

(** [ArchivedEvent]: one event of an archive object. *)
Record ArchivedEvent := { ar_Seq : Z; ar_DecisionEnd : bool; ar_Event : EventBytes }.

(** The bytes of a command: [None] if they are not one. *)
Abbreviation CmdBytes := (option Command).

(** The content of the objects of the blobs store. *)
Inductive Object :=
| ODecision (b : DecisionBytes)
| OCommand (b : CmdBytes)
| OJob (j : Job)
| OState (b : Encoded).

(** A message of the events stream. *)
Record Msg := { msg_Header : Header; msg_Data : DecisionBytes }.

(** The value of a snapshot key: a state, or the name of the object that holds a
    large one ([snapshot.pointer]). *)
Inductive SnapValue :=
| SState (b : Encoded)
| SPointer (name : string).

(** [statecache.Entry]. *)
Record Entry := { en_State : State; en_Def : option Flow }.

(** *** The index of executions *)

(** [projection.Summary]. *)
Record Summary := {
  su_ExecID : string; su_Flow : string; su_FlowHash : string; su_Status : Status; su_Created : Z; su_Updated : Z;
  su_Attrs : gmap string Text; su_Parent : option ParentRef; su_ForkedFrom : string; su_Error : Text;
  su_Reason : string; su_LastSeq : Z; su_Archived : bool; su_Quarantined : bool; su_QuarantineReason : Text }.

(** [projection.QuarantineMark]. *)
Record QuarantineMark := { qm_Seq : Z; qm_Reason : Text }.

(** The values of the index: empty, a summary or a mark. *)
Inductive IndexValue :=
| IEmpty
| ISummary (s : Summary)
| IMark (m : QuarantineMark).

(** *** Jobs *)

(** What a handler makes of a job: raw bytes, which are JSON or not (then with the
    syntax error of the decoder), or a Go value that encodes or does not. *)
Inductive RawBytes := RNil | REmpty | RValid (j : Json) | RInvalid (why : Text).
Inductive Output :=
| ONil
| ORaw (b : RawBytes)
| OValue (j : result Json).

(** [worker.Result]. *)
Record JobResult := { jr_Output : Output; jr_Writes : gmap string Output; jr_Next : string; jr_Usage : gmap string float64 }.

(** The errors a handler returns: the constructors of the package, and errors of
    its own, which may wrap any number of others ([errors.Join]). *)
Inductive HandlerError :=
| HError (msg : Text)
| HWrap (msg : Text) (es : list HandlerError)
| HPermanent (e : HandlerError)
| HUsage (usage : gmap string float64) (e : HandlerError)
| HInterrupt (payload : Output).

(** The end of a handler: a result (which may be nil), an error, or a panic. *)
Inductive JobEnded :=
| HResult (r : option JobResult)
| HFailed (e : HandlerError)
| HPanic (what : Text).

(** [semValue]: the expiry of each holder. *)
Definition Holders : Type := gmap string Z.

(** *** Clients *)

(** A dead letter as stored: with the traceparent among its headers, and its
    body. *)
Record Letter := { lt_Letter : DeadLetter; lt_Trace : string; lt_Body : TriggerBody }.

(** [engine.ScheduleSpec]. *)
Record ScheduleSpec := { sp_Flow : string; sp_Version : string; sp_Input : RawMessage }.

(** A message of the command stream that schedules starts; [None] is a body that
    is not a specification. *)
Record ScheduleMsg := { sm_Cron : string; sm_Target : string; sm_TZ : string; sm_Spec : option ScheduleSpec }.

(** What a wait for a reply ends with: a message (a reply or not), the end of the
    poll, the end of the caller's context, or an error of the subscription. *)
Inductive NextAnswer :=
| Replied (r : option Reply)
| PollEnded
| CtxEnded (e : error)
| SubError (e : error).

(** A message of a watch, with its sequence and how many follow; [WatchEnded]
    when the iterator stopped, with the error of the context if that ended. *)
Inductive WatchAnswer :=
| WatchMsg (subject : string) (m : Msg) (metadata : option (Z * Z))
| WatchEnded (ctx : option error).

(** *** Resources *)

(** [jetstream.StreamConfig]: the fields packtrail sets, and the rest, which the
    server fills in. *)
Record StreamConfig := {
  sc_Name : string; sc_Subjects : list string; sc_WorkQueue : bool; sc_File : bool; sc_Compressed : bool; sc_AllowDirect : bool;
  sc_DiscardNew : bool; sc_AllowMsgSchedules : bool; sc_AllowRollup : bool; sc_Duplicates : Z; sc_MaxAge : Z;
  sc_Metadata : gmap string string; sc_Description : string; sc_Replicas : Z; sc_Rest : list (string * Json) }.

(** [jetstream.KeyValueConfig], [jetstream.ObjectStoreConfig]. *)
Record KvConfig := {
  kc_Bucket : string; kc_History : Z; kc_File : bool; kc_Compressed : bool; kc_TTL : Z; kc_Replicas : Z; kc_Rest : list (string * Json) }.
Record ObjConfig := { oc_Bucket : string; oc_File : bool; oc_Compressed : bool; oc_Replicas : Z; oc_Rest : list (string * Json) }.

(** The answer to the creation of a key. *)
Inductive CreateAnswer := KeyCreated | KeyExists | CreateError (e : error).

(** [dispatch.head]: the state at the head of a log. *)
Record Head := { hd_seq : Z; hd_st : State }.

(** ** Calls *)

(** The answer to a publish: stored at a sequence, refused because the subject's
    last sequence is not the expected one (error 10071), or any other error,
    after which the message may or may not be stored. *)
Inductive PubAnswer :=
| PubAck (seq : Z)
| PubWrongSeq
| PubError (e : error).

(** The answer to a read of an object. *)
Inductive GetAnswer (A : Type) :=
| Got (a : A)
| NotThere
| GetError (e : error).
Arguments Got {A} a.
Arguments NotThere {A}.
Arguments GetError {A} e.

(** Calls whose effects no other part of the model reads: messages to other
    parts, schedules, blobs, keys. *)
Inductive Chore :=
| PublishCommand (c : Command) (id trace blob : string)
| ScheduleCommand (x timer : string) (at_ : Z) (c : Command)
| PublishJob (j : Job) (id blob : string)
| PublishStop (s : Stop)
| PublishResult (subject : string) (c : Command) (trace blob : string)
| ScheduleCopy (kind id : string) (at_ busy : Z) (j : Job)
| Broadcast (kind x : string)
| OpenResults
| ResultPut (key : string) (e : CacheEntry)
| BlobDeleteExec (x : string)
| BlobEraseExec (x : string)
| EraseSnapshot (x : string)
| PurgeTimers (x : string)
| RedispatchExec (x : string)
| PublishSchedule (name : string) (m : ScheduleMsg)
| PurgeSchedule (name : string)
| Republish (l : Letter)
| DlqDelete (seq : Z).

Inductive Call :=
| Now                                                   (* the clock *)
| EvPublish (x : string) (expected : Z) (m : Msg)       (* events stream *)
| EvDirectGet (x : string) (from : Z)
| EvFirst (x : string)
| EvLast (x : string)
| EvPurge (x : string) (before : option Z)
| DispatchFloor (x : string)                            (* ack floor of the dispatcher of x *)
| BlobPut (x : string) (o : Object)                     (* under a name never used before *)
| BlobGet (name : string)
| SnapBlobPut (x : string) (b : Encoded)                (* under "<x>/snapshot" *)
| SnapGet (x : string)                                  (* snapshots bucket *)
| SnapPut (x : string) (v : SnapValue)
| SnapPurge (x : string)
| ArchGet (name : string)                               (* archive store *)
| ArchInfo (name : string)
| ArchPut (name : string) (l : list ArchivedEvent)
| ArchErase (name : string)
| FlowsGet (name hash : string)                         (* the registry *)
| CacheGet (x : string)                                 (* the process's cache *)
| CacheDecided (x : string) (s : State)
| CachePut (x : string) (e : Entry)
| CacheDrop (x : string)
| Perform (c : Chore)
| KvGet (key : string)                                  (* the index bucket *)
| KvPut (key : string) (v : IndexValue)
| KvUpdate (key : string) (v : IndexValue) (revision : Z)
| KvDelete (key : string)
| KvErase (key : string)
| KvList (pattern : string)
| ResultGet (key : string)                              (* the result cache *)
| QuarantineHas (x : string)                            (* the dispatcher's own memory *)
| QuarantineSet (x : string) (b : bool)
| HeadView (x : string) (seq : Z)
| HeadPut (x : string) (h : Head)
| HeadDrop (x : string)
| EvLastTypes (x : string)                              (* a worker: the last decision *)
| SemGet (key : string)                                 (* the semaphores bucket *)
| SemPut (key : string) (v : Holders) (revision : Z)    (* created, for revision 0 *)
| WaiterClaim (key : string)                            (* the worker's own memory *)
| WaiterRelease (key : string)
| Wait (delay : Z)                                      (* false: shutting down *)
| RunJob (j : Job) (deliveries : Z)                     (* the handler, if the context of the job decodes *)
| Attach                                                (* a client: binds to its namespace *)
| Attached                                              (* whether it ever did *)
| CtxErr                                                (* the error of the caller's context, once it ended *)
| NewID                                                 (* an identifier never used before *)
| OpenInbox
| NextReply (inbox : string)
| Reconnects
| WatchOpen (x : string) (from : Z)                     (* an ordered consumer; x = "" is every execution *)
| WatchNext
| SendEvent (ev : FoldEvent)                            (* to the caller's channel; false: its context ended *)
| SendEnded (x : string) (s : Status) (seq : Z)
| EventsEnd                                             (* the last sequence of the events stream *)
| DlqInfo                                               (* first and last sequence of the dead letters *)
| DlqGet (seq : Z)
| ScheduleList                                          (* the schedules, by subject *)
| ServerVersion                                         (* the connection *)
| ClusterName
| StreamLookup (name : string)                          (* [None]: no such stream *)
| StreamUpsert (c : StreamConfig)
| KvStatus (bucket : string)                            (* [None]: absent, or its status cannot be read *)
| KvUpsert (c : KvConfig)
| ObjStatus (bucket : string)
| ObjUpsert (c : ObjConfig)
| FlowCreate (key text : string)                        (* the flows bucket *)
| FlowEntry (key : string)                              (* [None]: no such key, or an invalid one *)
| FlowPut (key text : string)
| FlowKeys
| FlowCached (key : string)                             (* the process's own memory of flows *)
| FlowRemember (key : string) (def : Flow)
| StorePut (key : string) (v : RawMessage)              (* the store bucket *)
| StoreGet (key : string)
| StoreDelete (key : string)
| StoreKeys (pattern : string)
| EventSubjects                                         (* the subjects of the events stream *)
| SendReply (subject : string) (r : Reply)              (* the message being handled *)
| PublishDLQ (d : DeadLetter) (dedup : string)
| Ack
| NakWithDelay (d : Z)
| Term.

Definition Answer (c : Call) : Type :=
  match c with
  | Now => Z
  | EvPublish _ _ _ => PubAnswer
  | EvDirectGet _ _ => result (list (Z * Msg) * bool)
  | EvFirst _ | EvLast _ => result (option Z)
  | EvPurge _ _ => result unit
  | DispatchFloor _ => result (option Z)
  | BlobPut _ _ => result string
  | BlobGet _ => GetAnswer Object
  | SnapBlobPut _ _ => result unit
  | SnapGet _ => result (option SnapValue)
  | SnapPut _ _ => result unit
  | SnapPurge _ => result unit
  | ArchGet _ => GetAnswer (list ArchivedEvent)
  | ArchInfo _ => GetAnswer unit
  | ArchPut _ _ => result unit
  | ArchErase _ => result unit
  | FlowsGet _ _ => result Flow
  | CacheGet _ => option Entry
  | CacheDecided _ _ | CachePut _ _ | CacheDrop _ => unit
  | Perform _ => result unit
  | KvGet _ => result (option (IndexValue * Z))
  | KvPut _ _ | KvUpdate _ _ _ | KvDelete _ | KvErase _ => result unit
  | KvList _ => result (list string)
  | ResultGet _ => GetAnswer (option CacheEntry)
  | QuarantineHas _ => bool
  | QuarantineSet _ _ | HeadPut _ _ | HeadDrop _ => unit
  | HeadView _ _ => option Head
  | EvLastTypes _ => result (option (list string))
  | SemGet _ => result (option (Holders * Z))
  | SemPut _ _ _ => result unit
  | WaiterClaim _ => bool
  | WaiterRelease _ => unit
  | Wait _ => bool
  | RunJob _ _ => JobEnded * bool
  | Attach => result unit
  | Attached => bool
  | CtxErr => option error
  | NewID => string
  | OpenInbox => result string
  | NextReply _ => NextAnswer
  | Reconnects => Z
  | WatchOpen _ _ => result unit
  | WatchNext => WatchAnswer
  | SendEvent _ | SendEnded _ _ _ => bool
  | EventsEnd => result Z
  | DlqInfo => result (Z * Z)
  | DlqGet _ => result (option Letter)
  | ScheduleList => result (list (string * ScheduleMsg))
  | ServerVersion | ClusterName => string
  | StreamLookup _ => result (option StreamConfig)
  | StreamUpsert _ => result StreamConfig
  | KvStatus _ => option KvConfig
  | ObjStatus _ => option ObjConfig
  | KvUpsert _ | ObjUpsert _ => result unit
  | FlowCreate _ _ => CreateAnswer
  | FlowEntry _ => result (option string)
  | FlowPut _ _ => result unit
  | FlowKeys => result (list string)
  | FlowCached _ => option Flow
  | FlowRemember _ _ => unit
  | StorePut _ _ | StoreDelete _ => result unit
  | StoreGet _ => result (option RawMessage)
  | StoreKeys _ => result (list string)
  | EventSubjects => result (list string)
  | SendReply _ _ => result unit
  | PublishDLQ _ _ => result unit
  | Ack | NakWithDelay _ | Term => unit
  end.

(** ** Programs *)

Inductive Prog (A : Type) :=
| Ret (a : A)
| Do (c : Call) (k : Answer c -> Prog A).
Arguments Ret {A} a.
Arguments Do {A} c k.

Fixpoint pbind {A B} (p : Prog A) (k : A -> Prog B) : Prog B :=
  match p with
  | Ret a => k a
  | Do c k' => Do c (fun r => pbind (k' r) k)
  end.

Definition call (c : Call) : Prog (Answer c) := Do c Ret.

(** Programs that may fail: an error ends the rest. *)
Definition fbind {A B} (p : Prog (result A)) (k : A -> Prog (result B)) : Prog (result B) :=
  pbind p (fun r => match r with Ok a => k a | Err e => Ret (Err e) end).

Declare Scope prog_scope.
Delimit Scope prog_scope with prog.
Global Open Scope prog_scope.
Notation "'let!' x ':=' p 'in' k" := (pbind p (fun x => k))
  (at level 10, x pattern, p at level 100, k at level 200) : prog_scope.
Notation "'try!' x ':=' p 'in' k" := (fbind p (fun x => k))
  (at level 10, x pattern, p at level 100, k at level 200) : prog_scope.

Definition ok {A} (a : A) : Prog (result A) := Ret (Ok a).
Definition failed {A} (e : error) : Prog (result A) := Ret (Err e).
Definition lift {A} (r : result A) : Prog (result A) := Ret r.

(** Loops that wait end with their outcome, or are cut off. *)
Inductive Looped (A : Type) := Done (a : A) | CutOff.
Arguments Done {A} a.
Arguments CutOff {A}.

(** [fmt.Errorf("...: %w", err)]: more text, the same sentinels. *)
Definition wrapf (fmt : string) (e : error) : error :=
  match e with Error ks msg => Error ks (Sprintf fmt [AText msg]) | other => other end.
Definition annotate {A} (fmt : string) (r : result A) : result A :=
  match r with Ok a => Ok a | Err e => Err (wrapf fmt e) end.

(** ** Configuration

    What the processes are started with ([infra.Infra], [snapshot.Store],
    [engine.Engine]). [cf_Snaps] says whether the loader has a snapshot store; [cf_Size] is the length of the encoding of an object, which
    the model does not compute; [cf_Rounds] bounds the batches a reader asks for
    (the code has no bound: see [read_range]). *)
Record Config := {
  cf_Names : Names.Names;
  cf_Partitions : Z;
  cf_BlobThreshold : Z;
  cf_Snaps : bool;
  cf_SnapEvery : Z;
  cf_MaxEvents : Z;
  cf_HistoryLimit : Z;
  cf_Redispatch : bool;
  cf_Size : Object -> Z;
  cf_Rounds : nat }.
