(* ===== verification/Projection.v ===== *)
(** * The index of executions ([internal/projection/projection.go])

    Summaries of executions under [x.<id>], and membership keys by status
    ([s.<status>.<id>]), flow ([f.<flow>.<id>]) and search attribute
    ([a.<name>.<hash>.<id>]); quarantined executions under [q.<id>].  Programs
    over the calls of a key-value bucket; a key that is not there is not an
    error of a deletion. *)

From S2P Require Import Prelude Json Hash GoStrings Names Flow Event Cmd Reduce State View Wire Codec Server.

Definition statuses : list Status :=
  [StatusRunning; StatusWaiting; StatusCompleted; StatusFailed; StatusCancelled].

Definition SummaryOf (st : State) : Summary := {|
  su_ExecID := s_ExecID st; su_Flow := s_Flow st; su_FlowHash := s_FlowHash st; su_Status := s_Status st;
  su_Created := s_Created st; su_Updated := s_Updated st; su_Attrs := s_Attrs st; su_Parent := s_Parent st;
  su_ForkedFrom := s_ForkedFrom st; su_Error := s_Error st; su_Reason := s_Reason st; su_LastSeq := s_LastSeq st;
  su_Archived := false; su_Quarantined := false; su_QuarantineReason := "" |}.

Definition AttrHash (v : string) : string := hex (take 8 (sha256 (bytes_of v))).

(** ** Keys *)

Definition summaryKey (x : string) : string := "x." +:+ x.
Definition statusKey (s : Status) (x : string) : string := "s." +:+ status_string s +:+ "." +:+ x.
Definition flowKey (flow x : string) : string := "f." +:+ flow +:+ "." +:+ x.
Definition attrKey (name value x : string) : string := "a." +:+ name +:+ "." +:+ AttrHash value +:+ "." +:+ x.
Definition quarantineKey (x : string) : string := "q." +:+ x.

(** ** Writing *)

Section Projection.
Context `{Evaluator}.

Fixpoint for_each {A} (l : list A) (f : A -> Prog (result unit)) : Prog (result unit) :=
  match l with
  | [] => ok tt
  | a :: l' => try! _ := f a in for_each l' f
  end.

(** [index]; [json.Marshal] of a summary does not fail. *)
Definition index (st : State) (created : bool) (status : Prog (result unit)) : Prog (result unit) :=
  try! _ := call (KvPut (summaryKey (s_ExecID st)) (ISummary (SummaryOf st))) in
  try! _ :=
    (if (created : bool) then
       try! _ := call (KvPut (flowKey (s_Flow st) (s_ExecID st)) IEmpty) in
       for_each (sorted_keys (s_Attrs st)) (fun k =>
         if negb (ValidToken k) then ok tt
         else call (KvPut (attrKey k (render (default (TStr "") (s_Attrs st !! k))) (s_ExecID st)) IEmpty))
     else ok tt) in
  status.

Definition moveStatus (x : string) (status : Status) : Prog (result unit) :=
  for_each statuses (fun s =>
    if bool_decide (s = status) then call (KvPut (statusKey s x) IEmpty) else call (KvDelete (statusKey s x))).

Definition Index (st : State) (created statusChanged : bool) : Prog (result unit) :=
  index st created (if created || statusChanged then moveStatus (s_ExecID st) (s_Status st) else ok tt).

Definition IndexFrom (st : State) (created : bool) (prev : Status) : Prog (result unit) :=
  index st created
    (if negb created && bool_decide (prev = s_Status st) then ok tt
     else
       try! _ := call (KvPut (statusKey (s_Status st) (s_ExecID st)) IEmpty) in
       if created then ok tt else call (KvDelete (statusKey prev (s_ExecID st)))).

(** A summary is decoded from the bytes of its key. *)
Definition as_summary (v : IndexValue) : result Summary :=
  match v with ISummary s => Ok s | _ => Err (Error [ErrUndecodable] "unexpected value") end.

Definition updateSummary (x : string) (fn : Summary -> Summary) : Prog (result unit) :=
  try! e := call (KvGet (summaryKey x)) in
  match e with
  | None => ok tt
  | Some (v, _) =>
      try! sum := lift (as_summary v) in
      call (KvPut (summaryKey x) (ISummary (fn sum)))
  end.

Definition Quarantine (x : string) (seq : Z) (reason : Text) : Prog (result unit) :=
  try! _ := call (KvPut (quarantineKey x) (IMark {| qm_Seq := seq; qm_Reason := reason |})) in
  updateSummary x (fun s => {|
    su_ExecID := su_ExecID s; su_Flow := su_Flow s; su_FlowHash := su_FlowHash s; su_Status := su_Status s;
    su_Created := su_Created s; su_Updated := su_Updated s; su_Attrs := su_Attrs s; su_Parent := su_Parent s;
    su_ForkedFrom := su_ForkedFrom s; su_Error := su_Error s; su_Reason := su_Reason s; su_LastSeq := su_LastSeq s;
    su_Archived := su_Archived s; su_Quarantined := true; su_QuarantineReason := reason |}).

(** [Mark]: bytes that are not a mark count as one without a sequence. *)
Definition Mark (x : string) : Prog (result (option QuarantineMark)) :=
  try! e := call (KvGet (quarantineKey x)) in
  ok (match e with
      | None => None
      | Some (IMark m, _) => Some m
      | Some (_, _) => Some {| qm_Seq := 0; qm_Reason := "" |}
      end).

Definition IsQuarantined (x : string) : Prog (result bool) :=
  try! m := Mark x in ok (bool_decide (is_Some m)).

Definition Unquarantine (x : string) : Prog (result unit) := call (KvErase (quarantineKey x)).

Definition SetTerminal (x : string) (status : Status) (reason : string) (errMsg : Text) (at_ : Z) : Prog (result unit) :=
  try! _ := updateSummary x (fun s => {|
    su_ExecID := su_ExecID s; su_Flow := su_Flow s; su_FlowHash := su_FlowHash s; su_Status := status;
    su_Created := su_Created s; su_Updated := at_; su_Attrs := su_Attrs s; su_Parent := su_Parent s;
    su_ForkedFrom := su_ForkedFrom s; su_Error := errMsg; su_Reason := reason; su_LastSeq := su_LastSeq s;
    su_Archived := su_Archived s; su_Quarantined := su_Quarantined s; su_QuarantineReason := su_QuarantineReason s |}) in
  moveStatus x status.

(** The membership keys of a summary. *)
Definition membership_keys (s : Summary) (x : string) : list string :=
  flowKey (su_Flow s) x ::
  omap (fun k => if ValidToken k then Some (attrKey k (render (default (TStr "") (su_Attrs s !! k))) x) else None) (sorted_keys (su_Attrs s)).

Definition DeleteIndex (x : string) : Prog (result unit) :=
  try! e := call (KvGet (summaryKey x)) in
  try! members := match e with
                  | None => ok []
                  | Some (v, _) => try! s := lift (as_summary v) in ok (membership_keys s x)
                  end in
  for_each ((quarantineKey x :: ((fun s => statusKey s x) <$> statuses)) ++ members ++ [summaryKey x])
    (fun k => call (KvErase k)).

Definition MarkArchived (x : string) : Prog (result unit) :=
  try! e := call (KvGet (summaryKey x)) in
  match e with
  | None => ok tt
  | Some (v, rev) =>
      try! s := lift (as_summary v) in
      call (KvUpdate (summaryKey x) (ISummary {|
        su_ExecID := su_ExecID s; su_Flow := su_Flow s; su_FlowHash := su_FlowHash s; su_Status := su_Status s;
        su_Created := su_Created s; su_Updated := su_Updated s; su_Attrs := su_Attrs s; su_Parent := su_Parent s;
        su_ForkedFrom := su_ForkedFrom s; su_Error := su_Error s; su_Reason := su_Reason s; su_LastSeq := su_LastSeq s;
        su_Archived := true; su_Quarantined := su_Quarantined s; su_QuarantineReason := su_QuarantineReason s |}) rev)
  end.

(** ** Reading *)

(** [Filter]; an empty field matches everything. *)
Record Filter := { fi_Status : string; fi_Flow : string; fi_Attr : string; fi_Value : string; fi_Limit : Z }.

Definition bad_token (v : string) : bool := negb (String.eqb v "") && negb (ValidToken v).

Definition pattern (f : Filter) : result string :=
  if bad_token (fi_Status f) || bad_token (fi_Flow f) || bad_token (fi_Attr f) then
    Err (Error [ErrInvalidFilter] "projection: invalid filter")
  else if negb (String.eqb (fi_Attr f) "") then
    Ok ("a." +:+ fi_Attr f +:+ "." +:+ AttrHash (fi_Value f) +:+ ".*")
  else if negb (String.eqb (fi_Status f) "") then
    if bool_decide (fi_Status f ∈ status_string <$> statuses) then Ok ("s." +:+ fi_Status f +:+ ".*")
    else Err (Error [ErrInvalidFilter] (Sprintf "%w: unknown status %q" [AStr (fi_Status f)]))
  else if negb (String.eqb (fi_Flow f) "") then Ok ("f." +:+ fi_Flow f +:+ ".*")
  else Ok "x.*".

Definition matches (f : Filter) (s : Summary) : bool :=
  (String.eqb (fi_Status f) "" || String.eqb (status_string (su_Status s)) (fi_Status f)) &&
  (String.eqb (fi_Flow f) "" || String.eqb (su_Flow s) (fi_Flow f)) &&
  (String.eqb (fi_Attr f) "" || String.eqb (render (default (TStr "") (su_Attrs s !! fi_Attr f))) (fi_Value f)).

(** [lastToken]: what follows the last dot. *)
Definition lastToken (k : string) : string := List.last (split_at (ascii_of 46) k) "".

Definition listIDs (pat : string) : Prog (result (list string)) :=
  try! keys := call (KvList pat) in ok (lastToken <$> keys).

Definition GetSummary (x : string) : Prog (result (option Summary)) :=
  try! e := call (KvGet (summaryKey x)) in
  match e with
  | None => ok None
  | Some (v, _) => try! s := lift (as_summary v) in ok (Some s)
  end.

Definition Quarantined : Prog (result (list string)) := listIDs "q.*".

(** The summaries that can be read and match. *)
Fixpoint collect (f : Filter) (ids : list string) : Prog (list Summary) :=
  match ids with
  | [] => Ret []
  | x :: ids' =>
      let! r := GetSummary x in
      let! rest := collect f ids' in
      Ret (match r with
           | Ok (Some s) => if matches f s then s :: rest else rest
           | _ => rest
           end)
  end.

(** [sort.Slice]: newest first; the order of equal times is not specified by the
    code, insertion keeps them in place. *)
Fixpoint insert_newest (s : Summary) (l : list Summary) : list Summary :=
  match l with
  | [] => [s]
  | t :: l' => if su_Created t <? su_Created s then s :: l else t :: insert_newest s l'
  end.
Fixpoint newest_first (l : list Summary) : list Summary :=
  match l with [] => [] | s :: l' => insert_newest s (newest_first l') end.

Definition limit (n : Z) (l : list Summary) : list Summary := if 0 <? n then take (Z.to_nat n) l else l.

Definition List_ (f : Filter) : Prog (result (list Summary)) :=
  try! pat := lift (pattern f) in
  try! ids := listIDs pat in
  let! out := collect f ids in
  ok (limit (fi_Limit f) (newest_first out)).
End Projection.
