(* ===== verification/IndexProps.v ===== *)
(** * The index finds executions

    The programs of [Projection] against a bucket that works, in any order that
    the dispatcher, a rebuild and the operators make of them ([IndexOp],
    [index_step]), cut off when a process stops: an execution whose state was
    indexed is filed under its status, and only under it, under its flow and its
    attributes; and a search returns the summaries of the executions that match,
    newest first. *)

From S2P Require Import Prelude Json Hash GoStrings Names Flow Event Cmd Reduce State StateFacts View Decide DecideRun Wire Codec NamesProps.
From S2P Require Import Server Projection.

(** ** A bucket *)

Record Bucket := { bk_rev : Z; bk_m : gmap string (IndexValue * Z) }.

Definition bput (k : string) (v : IndexValue) (b : Bucket) : Bucket :=
  {| bk_rev := bk_rev b + 1; bk_m := <[k := (v, bk_rev b + 1)]> (bk_m b) |}.
Definition bdel (k : string) (b : Bucket) : Bucket := {| bk_rev := bk_rev b; bk_m := delete k (bk_m b) |}.

Definition dot : Ascii.ascii := ascii_of 46.

(** Subjects match token by token; [*] matches any token. *)
Fixpoint tokens_match (ps ks : list string) : bool :=
  match ps, ks with
  | [], [] => true
  | p :: ps', k :: ks' => (String.eqb p "*" || String.eqb p k) && tokens_match ps' ks'
  | _, _ => false
  end.
Definition subject_match (pat key : string) : bool := tokens_match (split_at dot pat) (split_at dot key).

Definition bucket_serve (b : Bucket) (c : Call) : option (Answer c * Bucket) :=
  match c return option (Answer c * Bucket) with
  | KvGet k => Some (Ok (bk_m b !! k), b)
  | KvPut k v => Some (Ok tt, bput k v b)
  | KvUpdate k v rev =>
      Some (if bool_decide (snd <$> bk_m b !! k = Some rev) then (Ok tt, bput k v b)
            else (Err (plain "wrong last sequence"), b))
  | KvDelete k | KvErase k => Some (Ok tt, bdel k b)
  | KvList pat => Some (Ok (List.filter (subject_match pat) (map_to_list (bk_m b)).*1), b)
  | _ => None
  end.

Fixpoint bucket_exec {A} (p : Prog A) (b : Bucket) : option (A * Bucket) :=
  match p with
  | Ret a => Some (a, b)
  | Do c k => match bucket_serve b c with Some (r, b') => bucket_exec (k r) b' | None => None end
  end.

Lemma exec_bind {A B} (p : Prog A) (k : A -> Prog B) b :
  bucket_exec (pbind p k) b = match bucket_exec p b with Some (a, b') => bucket_exec (k a) b' | None => None end.
Proof. revert b. induction p as [a|c k' IH]; intros b; [done|]. cbn. destruct (bucket_serve b c) as [[r b']|]; [apply IH|done]. Qed.

Lemma exec_fbind {A B} (p : Prog (result A)) (k : A -> Prog (result B)) b :
  bucket_exec (fbind p k) b =
  match bucket_exec p b with Some (Ok a, b') => bucket_exec (k a) b' | Some (Err e, b') => Some (Err e, b') | None => None end.
Proof. unfold fbind. rewrite exec_bind. by destruct (bucket_exec p b) as [[[]]|]. Qed.

Lemma exec_for_each {A} (l : list A) (f : A -> Prog (result unit)) (g : A -> Bucket -> Bucket) b :
  (forall a b, bucket_exec (f a) b = Some (Ok tt, g a b)) ->
  bucket_exec (for_each l f) b = Some (Ok tt, foldl (fun b a => g a b) b l).
Proof.
  intros Hf. revert b. induction l as [|a l IH]; intros b; [done|]. cbn [for_each foldl]. by rewrite exec_fbind, Hf, IH.
Qed.

(** ** Keys *)

Lemma no_sep_intro sep s : sep ∉ String.list_ascii_of_string s -> no_sep sep s.
Proof.
  induction s as [|a s IH]; [done|]. cbn [String.list_ascii_of_string]. rewrite not_elem_of_cons. intros [Hne Hs].
  unfold no_sep in *. cbn [split_at]. destruct (Ascii.eqb_spec a sep); [congruence|]. by rewrite IH.
Qed.

Lemma token_no_sep s : ValidToken s = true -> no_sep dot s.
Proof. intros Hs. apply no_sep_intro. by apply token_no_dot. Qed.

Lemma hex_digit_no_dot i : dot ∉ String.list_ascii_of_string (char_at "0123456789abcdef" i).
Proof.
  unfold char_at. assert (HC : forall n, match String.get n "0123456789abcdef" with Some a => a <> dot | None => True end).
  { intros n. do 16 (destruct n as [|n]; [done|]). by destruct n. }
  specialize (HC (Z.to_nat i)). revert HC. destruct (String.get _ _) as [a|]; intros HC; [|by apply not_elem_of_nil].
  cbn. apply not_elem_of_cons. split; [intros E; by destruct HC|apply not_elem_of_nil].
Qed.

Lemma hex_no_sep bs : no_sep dot (hex bs).
Proof.
  apply no_sep_intro. induction bs as [|b bs IH]; [by apply not_elem_of_nil|]. unfold hex. cbn [foldr].
  rewrite !list_ascii_app, !not_elem_of_app. auto using hex_digit_no_dot.
Qed.

Lemma split_dot a b : no_sep dot a -> split_at dot (a +:+ "." +:+ b) = a :: split_at dot b.
Proof. apply (split_at_app dot). Qed.

Lemma prefix_tokens (p : string) b : no_sep dot p -> split_at dot ((p +:+ ".") +:+ b) = p :: split_at dot b.
Proof. intros Hp. rewrite <- string_app_assoc. by apply split_dot. Qed.

Lemma status_no_sep z : no_sep dot (status_string z).
Proof. by destruct z. Qed.

Lemma summaryKey_tokens x : ValidToken x = true -> split_at dot (summaryKey x) = ["x"; x].
Proof. intros Hx. unfold summaryKey. rewrite (prefix_tokens "x") by done. by rewrite token_no_sep. Qed.
Lemma statusKey_tokens z x : ValidToken x = true -> split_at dot (statusKey z x) = ["s"; status_string z; x].
Proof.
  intros Hx. unfold statusKey. rewrite (prefix_tokens "s") by done. rewrite split_dot by apply status_no_sep. by rewrite token_no_sep.
Qed.
Lemma flowKey_tokens f x : ValidToken f = true -> ValidToken x = true -> split_at dot (flowKey f x) = ["f"; f; x].
Proof.
  intros Hf Hx. unfold flowKey. rewrite (prefix_tokens "f") by done. rewrite split_dot by (by apply token_no_sep). by rewrite token_no_sep.
Qed.
Lemma attrKey_tokens k v x :
  ValidToken k = true -> ValidToken x = true -> split_at dot (attrKey k v x) = ["a"; k; AttrHash v; x].
Proof.
  intros Hk Hx. unfold attrKey. rewrite (prefix_tokens "a") by done. rewrite split_dot by (by apply token_no_sep).
  rewrite split_dot by apply hex_no_sep. by rewrite token_no_sep.
Qed.

(** The last token of a key is the execution's id. *)
Lemma split_at_both sep p r : split_at sep (p +:+ String sep r) = split_at sep p ++ split_at sep r.
Proof.
  induction p as [|a p IH]; [change ("" +:+ String sep r) with (String sep r); cbn; by rewrite Ascii.eqb_refl|].
  change (String a p +:+ String sep r) with (String a (p +:+ String sep r)). cbn [split_at]. rewrite IH.
  destruct (Ascii.eqb a sep); [done|]. pose proof (split_at_nonempty sep p). by destruct (split_at sep p).
Qed.

Lemma lastToken_dotted p x : ValidToken x = true -> lastToken (p +:+ "." +:+ x) = x.
Proof.
  intros Hx. unfold lastToken. fold dot. rewrite (split_at_both dot p x : split_at dot (p +:+ "." +:+ x) = _).
  rewrite (token_no_sep _ Hx). by rewrite List.last_last.
Qed.

Lemma summaryKey_last x : ValidToken x = true -> lastToken (summaryKey x) = x.
Proof. apply (lastToken_dotted "x"). Qed.
Lemma statusKey_last z x : ValidToken x = true -> lastToken (statusKey z x) = x.
Proof. intros Hx. unfold statusKey. rewrite string_app_assoc. by apply lastToken_dotted. Qed.
Lemma flowKey_last f x : ValidToken x = true -> lastToken (flowKey f x) = x.
Proof. intros Hx. unfold flowKey. rewrite string_app_assoc. by apply lastToken_dotted. Qed.
Lemma attrKey_last k v x : ValidToken x = true -> lastToken (attrKey k v x) = x.
Proof. intros Hx. unfold attrKey. rewrite !string_app_assoc, <- (string_app_assoc _ "." x). by apply lastToken_dotted. Qed.

Lemma statusKey_inj z1 z2 x : statusKey z1 x = statusKey z2 x -> z1 = z2.
Proof. by destruct z1, z2. Qed.

(** The first letter of a key. *)
Definition marked_with (c : string) (k : string) : bool := String.eqb (String.substring 0 1 k) c.

(** ** Filing *)

Section Index.
Context `{Evaluator}.

Definition stored (b : Bucket) (k : string) (v : IndexValue) : Prop := fst <$> bk_m b !! k = Some v.
Definition present (b : Bucket) (k : string) : Prop := is_Some (bk_m b !! k).

Lemma present_put k v b k' : present (bput k v b) k' <-> k' = k \/ present b k'.
Proof.
  unfold present. cbn. destruct (decide (k = k')) as [->|Hne]; [rewrite lookup_insert_eq|rewrite lookup_insert_ne by done].
  - split; [by left|by eexists].
  - split; [by right|by intros [->|]].
Qed.

Lemma present_del k b k' : present (bdel k b) k' <-> k' <> k /\ present b k'.
Proof. unfold present. cbn. rewrite <- !not_eq_None_Some, lookup_delete_None. naive_solver. Qed.

(** Execution [x] is filed with summary [s]: under its status and no other, its
    flow and its attributes. *)
Record filed (b : Bucket) (x : string) (s : Summary) : Prop := {
  fl_summary : stored b (summaryKey x) (ISummary s);
  fl_status : forall z, present b (statusKey z x) <-> z = su_Status s;
  fl_flow : present b (flowKey (su_Flow s) x);
  fl_attrs : forall k v, su_Attrs s !! k = Some v -> ValidToken k = true -> present b (attrKey k (render v) x) }.

(** What the index must be like before a state is indexed: the status keys are
    those of the state, of the state before the decision, or one that a close left
    behind; an execution that is not new has its other keys. *)
Definition indexable (b : Bucket) (st : State) (created : bool) (prev : Status) (left : option Status) : Prop :=
  let x := s_ExecID st in
  (forall z, present b (statusKey z x) -> z = s_Status st \/ (created = false /\ z = prev) \/ left = Some z) /\
  (created = false ->
    (prev = s_Status st -> left = None -> present b (statusKey prev x)) /\ present b (flowKey (s_Flow st) x) /\
    forall k v, s_Attrs st !! k = Some v -> ValidToken k = true -> present b (attrKey k (render v) x)).

(** The bucket after its attributes are put. *)
Definition put_attrs (st : State) (b : Bucket) : Bucket :=
  foldl (fun b k => if negb (ValidToken k) then b
                    else bput (attrKey k (render (default (TStr "") (s_Attrs st !! k))) (s_ExecID st)) IEmpty b)
    b (sorted_keys (s_Attrs st)).

Definition after_status (st : State) (created : bool) (prev : Status) (b : Bucket) : Bucket :=
  if negb created && bool_decide (prev = s_Status st) then b
  else
    let b := bput (statusKey (s_Status st) (s_ExecID st)) IEmpty b in
    if created then b else bdel (statusKey prev (s_ExecID st)) b.

Definition after_index (st : State) (created : bool) (prev : Status) (b : Bucket) : Bucket :=
  let b := bput (summaryKey (s_ExecID st)) (ISummary (SummaryOf st)) b in
  let b := if created then put_attrs st (bput (flowKey (s_Flow st) (s_ExecID st)) IEmpty b) else b in
  after_status st created prev b.

Lemma exec_IndexFrom st created prev b :
  bucket_exec (IndexFrom st created prev) b = Some (Ok tt, after_index st created prev b).
Proof.
  unfold IndexFrom, index, after_index. rewrite exec_fbind. cbn [bucket_exec bucket_serve call]. rewrite exec_fbind.
  assert (HS : forall b, bucket_exec (if negb created && bool_decide (prev = s_Status st) then ok tt
    else try! _ := call (KvPut (statusKey (s_Status st) (s_ExecID st)) IEmpty) in
         if created then ok tt else call (KvDelete (statusKey prev (s_ExecID st)))) b
    = Some (Ok tt, after_status st created prev b)).
  { intros b0. unfold after_status. destruct (_ && _); [done|]. by destruct created. }
  destruct created; [|apply HS]. rewrite exec_fbind. cbn [bucket_exec bucket_serve call].
  rewrite (exec_for_each _ _ (fun k b => if negb (ValidToken k) then b
    else bput (attrKey k (render (default (TStr "") (s_Attrs st !! k))) (s_ExecID st)) IEmpty b)); [apply HS|].
  intros k b0. by destruct (negb (ValidToken k)).
Qed.

(** *** What indexing changes *)

Lemma put_attrs_other st b k : marked_with "a" k = false -> bk_m (put_attrs st b) !! k = bk_m b !! k.
Proof.
  intros Hk. unfold put_attrs. revert b. induction (sorted_keys (s_Attrs st)) as [|a l IH]; intros b; [done|]. cbn [foldl].
  rewrite IH. destruct (negb _); [done|]. cbn. apply lookup_insert_ne. by intros <-.
Qed.

Lemma put_attrs_kept st b k : present b k -> present (put_attrs st b) k.
Proof.
  unfold put_attrs. revert b. induction (sorted_keys (s_Attrs st)) as [|a l IH]; intros b Hb; [done|]. cbn [foldl]. apply IH.
  destruct (negb _); [done|]. apply present_put. by right.
Qed.

Lemma put_attrs_present st b k v :
  s_Attrs st !! k = Some v -> ValidToken k = true -> present (put_attrs st b) (attrKey k (render v) (s_ExecID st)).
Proof.
  intros Hk Hv. unfold put_attrs. assert (Hin : k ∈ sorted_keys (s_Attrs st)) by (apply elem_of_sorted_keys; eauto).
  revert b Hin. generalize (sorted_keys (s_Attrs st)). intros l. induction l as [|a l IH]; intros b; [by intros ?%elem_of_nil|].
  cbn [foldl]. destruct (decide (k ∈ l)) as [Hl|Hl]; [by intros _; apply IH|]. intros [->|]%elem_of_cons; [|done].
  rewrite Hv, Hk. cbn [negb default]. clear IH Hl.
  assert (HP : forall b, present b (attrKey a (render v) (s_ExecID st)) -> present (foldl (fun b k => if negb (ValidToken k) then b
    else bput (attrKey k (render (default (TStr "") (s_Attrs st !! k))) (s_ExecID st)) IEmpty b) b l) (attrKey a (render v) (s_ExecID st))).
  { induction l as [|a' l IH]; intros b0 Hb; [done|]. cbn [foldl]. apply IH. destruct (negb _); [done|]. apply present_put. by right. }
  apply HP, present_put. by left.
Qed.

(** The parts of an execution's entry that indexing a state writes once. *)
Definition memberships (b : Bucket) (st : State) : Prop :=
  present b (flowKey (s_Flow st) (s_ExecID st)) /\
  forall k v, s_Attrs st !! k = Some v -> ValidToken k = true -> present b (attrKey k (render v) (s_ExecID st)).

Definition before_status (st : State) (created : bool) (b : Bucket) : Bucket :=
  let b := bput (summaryKey (s_ExecID st)) (ISummary (SummaryOf st)) b in
  if created then put_attrs st (bput (flowKey (s_Flow st) (s_ExecID st)) IEmpty b) else b.

Lemma before_status_kept st created b z :
  bk_m (before_status st created b) !! statusKey z (s_ExecID st) = bk_m b !! statusKey z (s_ExecID st).
Proof.
  unfold before_status. destruct created; [rewrite put_attrs_other by done|]; cbn; by rewrite !lookup_insert_ne.
Qed.

Lemma before_status_summary st created b :
  stored (before_status st created b) (summaryKey (s_ExecID st)) (ISummary (SummaryOf st)).
Proof.
  unfold stored, before_status. destruct created; [rewrite put_attrs_other by done; cbn; rewrite lookup_insert_ne by done|cbn];
    by rewrite lookup_insert_eq.
Qed.

Lemma before_status_members st created b :
  (created = false -> memberships b st) -> memberships (before_status st created b) st.
Proof.
  intros Hold. unfold before_status, memberships. destruct created.
  - split; [apply put_attrs_kept, present_put; by left|]. intros k v Hk Hv. by apply put_attrs_present.
  - destruct (Hold eq_refl) as [Hf Ha]. split; [apply present_put; by right|]. intros k v Hk Hv. apply present_put. right. by apply Ha.
Qed.

Lemma after_status_other st created prev b k :
  marked_with "s" k = false -> bk_m (after_status st created prev b) !! k = bk_m b !! k.
Proof.
  intros Hk. assert (Hne : forall z x, statusKey z x <> k) by (intros z x <-; discriminate Hk).
  unfold after_status. destruct (_ && _); [done|]. destruct created; cbn [bdel bput bk_m];
    rewrite ?lookup_delete_ne, ?lookup_insert_ne by apply Hne; done.
Qed.

(** The status keys after indexing: unchanged when nothing is to be written,
    otherwise that of the state is there and that of the state before is not. *)
Lemma after_status_present st created prev b z :
  present (after_status st created prev b) (statusKey z (s_ExecID st)) <->
  if negb created && bool_decide (prev = s_Status st) then present b (statusKey z (s_ExecID st))
  else (created = true \/ z <> prev) /\ (z = s_Status st \/ present b (statusKey z (s_ExecID st))).
Proof.
  unfold after_status. destruct (negb created && bool_decide (prev = s_Status st)) eqn:E; [done|].
  assert (HK : forall z', statusKey z (s_ExecID st) = statusKey z' (s_ExecID st) <-> z = z')
    by (intros z'; split; [apply statusKey_inj|by intros ->]).
  destruct created; rewrite ?present_del, present_put, !HK; naive_solver.
Qed.

(** What is filed once a state was indexed. *)
Definition settled_status (st : State) (created : bool) (prev : Status) (left : option Status) : bool :=
  match left with
  | None => true
  | Some z => (created || negb (bool_decide (prev = s_Status st))) && bool_decide (s_Status st = z)
  end.

Lemma after_index_filed st created prev left b :
  indexable b st created prev left ->
  stored (after_index st created prev b) (summaryKey (s_ExecID st)) (ISummary (SummaryOf st)) /\
  memberships (after_index st created prev b) st /\
  (forall z, present (after_index st created prev b) (statusKey z (s_ExecID st)) -> z = s_Status st \/ left = Some z) /\
  (settled_status st created prev left = true ->
     forall z, present (after_index st created prev b) (statusKey z (s_ExecID st)) <-> z = s_Status st).
Proof.
  intros [Hz Hold]. change (after_index st created prev b) with (after_status st created prev (before_status st created b)).
  set (b2 := before_status st created b).
  assert (H2p : forall z, present b2 (statusKey z (s_ExecID st)) <-> present b (statusKey z (s_ExecID st)))
    by (intros z; unfold present, b2; by rewrite before_status_kept).
  assert (HM : memberships b2 st) by (apply before_status_members; intros Hc; apply (Hold Hc)).
  split; [|split; [|split]].
  - unfold stored. rewrite after_status_other by done. apply before_status_summary.
  - destruct HM as [Hf Ha]. split; [unfold present; by rewrite after_status_other|].
    intros k v Hk Hv. unfold present. rewrite after_status_other by done. by apply Ha.
  - intros z. rewrite after_status_present. destruct (negb created && _) eqn:E; rewrite H2p.
    + apply andb_prop in E as [->%negb_true_iff ->%bool_decide_eq_true]. intros HP. destruct (Hz z HP) as [?|[[_ ?]|?]]; auto.
    + intros [Hc [->|HP]]; [by left|]. destruct (Hz z HP) as [?|[[-> ?]|?]]; auto. by destruct Hc.
  - intros HS z. rewrite after_status_present. destruct (negb created && _) eqn:E; rewrite H2p.
    + apply andb_prop in E as [->%negb_true_iff Hp]. unfold settled_status in HS. rewrite Hp in HS.
      apply bool_decide_eq_true in Hp as ->. destruct left; [done|]. split.
      * intros HP. destruct (Hz z HP) as [?|[[_ ?]|?]]; done.
      * intros ->. by apply (Hold eq_refl).
    + assert (Hp : created = false -> prev <> s_Status st) by (intros ->; intros ->; by rewrite bool_decide_eq_true_2 in E).
      split.
      * intros [Hc [->|HP]]; [done|]. destruct (Hz z HP) as [?|[[-> ?]|Hl]]; [done|by destruct Hc|]. rewrite Hl in HS. cbn in HS.
        apply andb_prop in HS as [_ HS]. by apply bool_decide_eq_true in HS.
      * intros ->. split; [|by left]. destruct created; [by left|]. right. intros <-. by apply Hp.
Qed.

(** ** Histories of the index *)

(** What the processes of a cluster do to the index. *)
Inductive IndexOp :=
| OpIndex (st : State) (created : bool) (prev : Status)    (* the dispatcher, for a decision *)
| OpRebuild (st : State)                                   (* [RebuildIndex] *)
| OpQuarantine (x : string) (seq : Z) (reason : Text)
| OpUnquarantine (x : string)
| OpArchived (x : string)
| OpTerminal (x : string) (status : Status) (reason : string) (msg : Text) (at_ : Z)
| OpDelete (x : string).

Definition op_exec (o : IndexOp) : string :=
  match o with
  | OpIndex st _ _ | OpRebuild st => s_ExecID st
  | OpQuarantine x _ _ | OpUnquarantine x | OpArchived x | OpTerminal x _ _ _ _ | OpDelete x => x
  end.

Definition op_prog (o : IndexOp) : Prog (result unit) :=
  match o with
  | OpIndex st created prev => IndexFrom st created prev
  | OpRebuild st => Index st true true
  | OpQuarantine x seq reason => Quarantine x seq reason
  | OpUnquarantine x => Unquarantine x
  | OpArchived x => MarkArchived x
  | OpTerminal x status reason msg at_ => SetTerminal x status reason msg at_
  | OpDelete x => DeleteIndex x
  end.

(** What the index holds of an execution: nothing (but perhaps the status a close
    left); the entry of a state, with its summary; an entry whose writing was cut
    off; or one whose deletion was.  The entry of a state is listed under its
    status, under the status it was closed with, or (while what was quarantined
    is handled again) under either. *)
Inductive Listing := LState | LClosed (z : Status) | LEither (z : Status).
Inductive IndexEntry :=
| Unfiled (left : option Status)
| Filed (st : State) (sum : Summary) (l : Listing)
| Pending (st : State) (created : bool) (prev : Status) (left : option Status)
| Deleting.

Definition left_of (e : IndexEntry) : option Status :=
  match e with
  | Unfiled l | Pending _ _ _ l => l
  | Filed _ _ LState | Deleting => None
  | Filed _ _ (LClosed z | LEither z) => Some z
  end.

(** A state of the same execution, flow and attributes. *)
Definition same_entry (st st' : State) : Prop :=
  s_ExecID st' = s_ExecID st /\ s_Flow st' = s_Flow st /\ s_Attrs st' = s_Attrs st.

(** What may be done to an execution: the dispatcher indexes the first decision as
    a new execution, then each decision from the status before it; or again the
    one it indexed last, or the one whose indexing was cut off. *)
Definition allowed (e : IndexEntry) (o : IndexOp) : Prop :=
  match o with
  | OpIndex st _ _ | OpRebuild st => s_Status st ∈ statuses
  | OpTerminal _ z _ _ _ => z ∈ statuses
  | _ => True
  end /\
  match o, e with
  | OpIndex st created prev, Unfiled _ => created = true
  | OpIndex st created prev, Filed st0 _ _ => st = st0 \/ (created = false /\ prev = s_Status st0 /\ same_entry st0 st)
  | OpIndex st created prev, Pending st0 created0 prev0 _ => st = st0 /\ created = created0 /\ prev = prev0
  | OpRebuild st, Unfiled _ => True
  | OpRebuild st, (Filed st0 _ _ | Pending st0 _ _ _) => st = st0
  | OpDelete _, _ => True
  | _, Deleting => False
  | _, _ => True
  end.

(** The changes to a summary. *)
Definition with_flags (archived quarantined : bool) (reason : Text) (s : Summary) : Summary := {|
  su_ExecID := su_ExecID s; su_Flow := su_Flow s; su_FlowHash := su_FlowHash s; su_Status := su_Status s;
  su_Created := su_Created s; su_Updated := su_Updated s; su_Attrs := su_Attrs s; su_Parent := su_Parent s;
  su_ForkedFrom := su_ForkedFrom s; su_Error := su_Error s; su_Reason := su_Reason s; su_LastSeq := su_LastSeq s;
  su_Archived := archived; su_Quarantined := quarantined; su_QuarantineReason := reason |}.
Definition with_end (status : Status) (reason : string) (msg : Text) (at_ : Z) (s : Summary) : Summary := {|
  su_ExecID := su_ExecID s; su_Flow := su_Flow s; su_FlowHash := su_FlowHash s; su_Status := status;
  su_Created := su_Created s; su_Updated := at_; su_Attrs := su_Attrs s; su_Parent := su_Parent s;
  su_ForkedFrom := su_ForkedFrom s; su_Error := msg; su_Reason := reason; su_LastSeq := su_LastSeq s;
  su_Archived := su_Archived s; su_Quarantined := su_Quarantined s; su_QuarantineReason := su_QuarantineReason s |}.

(** The entry after an operation. *)
Definition entry_after (e : IndexEntry) (o : IndexOp) : IndexEntry :=
  match o, e with
  | OpIndex st created prev, _ =>
      Filed st (SummaryOf st) (match left_of e with
                               | Some z => if settled_status st created prev (Some z) then LState else LEither z
                               | None => LState
                               end)
  | OpRebuild st, _ => Filed st (SummaryOf st) LState
  | OpQuarantine _ _ reason, Filed st sum l => Filed st (with_flags (su_Archived sum) true reason sum) l
  | OpArchived _, Filed st sum l => Filed st (with_flags true (su_Quarantined sum) (su_QuarantineReason sum) sum) l
  | OpTerminal _ z reason msg at_, Filed st sum _ => Filed st (with_end z reason msg at_ sum) (LClosed z)
  | OpTerminal _ z _ _ _, Unfiled _ => Unfiled (Some z)
  | OpTerminal _ z _ _ _, Pending st created prev _ => Pending st created prev (Some z)
  | OpDelete _, _ => Unfiled None
  | _, _ => e
  end.

(** The entry after an operation that was cut off: the process stopped. *)
Definition entry_cut (e : IndexEntry) (o : IndexOp) : option IndexEntry :=
  match o with
  | OpIndex st created prev => Some (Pending st created prev (left_of e))
  | OpDelete _ => Some Deleting
  | _ => None
  end.

(** The bucket after at most [n] calls. *)
Fixpoint bucket_upto {A} (n : nat) (p : Prog A) (b : Bucket) : Bucket :=
  match n, p with
  | S n, Do c k => match bucket_serve b c with Some (r, b') => bucket_upto n (k r) b' | None => b end
  | _, _ => b
  end.

Definition Ledger : Type := string -> IndexEntry.
Definition note (x : string) (e : IndexEntry) (m : Ledger) : Ledger := fun y => if String.eqb y x then e else m y.

Inductive index_step : Bucket * Ledger -> Bucket * Ledger -> Prop :=
| index_done b m o b' :
    ValidToken (op_exec o) = true -> allowed (m (op_exec o)) o -> bucket_exec (op_prog o) b = Some (Ok tt, b') ->
    index_step (b, m) (b', note (op_exec o) (entry_after (m (op_exec o)) o) m)
| index_cut b m o n e :
    ValidToken (op_exec o) = true -> allowed (m (op_exec o)) o -> entry_cut (m (op_exec o)) o = Some e ->
    index_step (b, m) (bucket_upto n (op_prog o) b, note (op_exec o) e m).

Definition index_start : Bucket * Ledger := ({| bk_rev := 0; bk_m := ∅ |}, fun _ => Unfiled None).
Definition index_reached (b : Bucket) (m : Ledger) : Prop := rtc index_step index_start (b, m).

(** What an entry says of the bucket. *)
Definition listed (b : Bucket) (x : string) (st : State) (sum : Summary) (l : Listing) : Prop :=
  match l with
  | LState => with_flags false false "" sum = SummaryOf st /\ forall z, present b (statusKey z x) <-> z = s_Status st
  | LClosed z0 => su_Status sum = z0 /\ forall z, present b (statusKey z x) <-> z = z0
  | LEither z0 => with_flags false false "" sum = SummaryOf st /\ forall z, present b (statusKey z x) -> z = s_Status st \/ z = z0
  end.

Definition entry_holds (b : Bucket) (x : string) (e : IndexEntry) : Prop :=
  match e with
  | Unfiled o => forall z, present b (statusKey z x) -> o = Some z
  | Filed st sum l =>
      s_ExecID st = x /\ stored b (summaryKey x) (ISummary sum) /\ su_Flow sum = s_Flow st /\ su_Attrs sum = s_Attrs st /\
      memberships b st /\ listed b x st sum l
  | Pending st created prev o => s_ExecID st = x /\ indexable b st created prev o
  | Deleting => True
  end.

(** *** Other executions *)

(** Programs all of whose calls satisfy a predicate. *)
Fixpoint every {A} (P : Call -> Prop) (p : Prog A) : Prop :=
  match p with Ret _ => True | Do c k => P c /\ forall r, every P (k r) end.

Lemma every_bind {A B} P (p : Prog A) (k : A -> Prog B) : every P p -> (forall a, every P (k a)) -> every P (pbind p k).
Proof. induction p as [a|c k' IH]; cbn; [auto|]. intros [Hc Hk] HK. split; [done|]. auto. Qed.
Lemma every_fbind {A B} P (p : Prog (result A)) (k : A -> Prog (result B)) :
  every P p -> (forall a, every P (k a)) -> every P (fbind p k).
Proof. intros Hp HK. apply every_bind; [done|]. by intros [a|e]. Qed.
Lemma every_each {A} P (l : list A) f : (forall a, a ∈ l -> every P (f a)) -> every P (for_each l f).
Proof.
  induction l as [|a l IH]; intros Hf; [exact I|]. cbn [for_each]. apply every_fbind; [apply Hf, list_elem_of_here|].
  intros _. apply IH. intros a' Ha. by apply Hf, list_elem_of_further.
Qed.
Lemma every_call (P : Call -> Prop) c : P c -> every P (call c).
Proof. by split. Qed.

Ltac each_call :=
  repeat match goal with
    | |- every _ (fbind _ _) => apply every_fbind; [|intros ?]
    | |- every _ (pbind _ _) => apply every_bind; [|intros ?]
    | |- every _ (for_each _ _) => apply every_each; intros ? ?
    | |- every _ (call _) => apply every_call
    | |- every _ (ok _) => exact I
    | |- every _ (lift _) => exact I
    | |- every _ (if ?b then _ else _) => destruct b
    | |- every _ (match ?x with _ => _ end) => destruct x
    end.

(** What every call keeps, a run keeps, cut off or not. *)
Lemma upto_keeps (P : Call -> Prop) (I : Bucket -> Prop) {A} n (p : Prog A) b :
  every P p -> (forall b c r b', P c -> bucket_serve b c = Some (r, b') -> I b -> I b') -> I b -> I (bucket_upto n p b).
Proof.
  intros Hp HI. revert p b Hp. induction n as [|n IH]; intros [a|c k'] b Hp Hb; try done. cbn [bucket_upto]. destruct Hp as [Hc Hp].
  destruct (bucket_serve b c) as [[r b']|] eqn:ES; [|done]. apply IH; [apply Hp|]. by eapply HI.
Qed.

Lemma exec_upto {A} (p : Prog A) b a b' : bucket_exec p b = Some (a, b') -> exists n, b' = bucket_upto n p b.
Proof.
  revert b. induction p as [a0|c k IH]; intros b; cbn [bucket_exec].
  - intros [= _ <-]. by exists 0%nat.
  - destruct (bucket_serve b c) as [[r b1]|] eqn:ES; [|done]. intros [n Hn]%IH. exists (S n). cbn. by rewrite ES.
Qed.

(** A call that changes only keys of [x]. *)
Definition touches (x : string) (c : Call) : Prop :=
  match c with
  | KvPut k _ | KvUpdate k _ _ | KvDelete k | KvErase k => lastToken k = x
  | KvGet _ | KvList _ => True
  | _ => False
  end.

Lemma quarantineKey_last x : ValidToken x = true -> lastToken (quarantineKey x) = x.
Proof. apply (lastToken_dotted "q"). Qed.

Lemma serve_frame x b c r b' k :
  touches x c -> bucket_serve b c = Some (r, b') -> lastToken k <> x -> bk_m b' !! k = bk_m b !! k.
Proof.
  intros Hc HS Hk. destruct c; try done; cbn in Hc, HS.
  all: try (injection HS as _ <-; cbn; first [done|rewrite lookup_insert_ne by congruence; done|rewrite lookup_delete_ne by congruence; done]).
  case_bool_decide; injection HS as _ <-; [|done]. cbn. by rewrite lookup_insert_ne by congruence.
Qed.

Lemma upto_frame {A} x n (p : Prog A) b k :
  every (touches x) p -> lastToken k <> x -> bk_m (bucket_upto n p b) !! k = bk_m b !! k.
Proof.
  intros Hp Hk. apply (upto_keeps (touches x) (fun b' => bk_m b' !! k = bk_m b !! k)); [done| |done].
  intros b1 c r b2 Hc HS Hb. rewrite (serve_frame x _ _ _ _ _ Hc HS Hk). done.
Qed.

Lemma delete_touches x : ValidToken x = true -> every (touches x) (DeleteIndex x).
Proof.
  intros Hx. split; [done|]. intros [e|err]; [|exact I].
  assert (HE : forall members, (forall k, k ∈ members -> lastToken k = x) ->
    every (touches x) (for_each ((quarantineKey x :: ((fun s => statusKey s x) <$> statuses)) ++ members ++ [summaryKey x]) (fun k => call (KvErase k)))).
  { intros members Hm. apply every_each. intros k Hk. apply every_call. cbn [touches].
    apply elem_of_app in Hk as [[->|(z & -> & _)%list_elem_of_fmap]%elem_of_cons|[Hk| ->%list_elem_of_singleton]%elem_of_app];
      auto using quarantineKey_last, statusKey_last, summaryKey_last. }
  cbn [pbind]. destruct e as [[v rev]|]; [|apply HE; by intros k ?%not_elem_of_nil]. cbn [fbind pbind].
  destruct (as_summary v) as [s|err]; [|exact I]. apply HE. unfold membership_keys.
  intros k [->|(a & Ha & HK)%list_elem_of_omap]%elem_of_cons; [by apply flowKey_last|].
  destruct (ValidToken a); [|done]. injection HK as <-. by apply attrKey_last.
Qed.

Lemma op_touches o : ValidToken (op_exec o) = true -> every (touches (op_exec o)) (op_prog o).
Proof.
  intros Hx. destruct o; cbn [op_exec op_prog] in *; [..|by apply delete_touches];
    unfold IndexFrom, Index, index, Quarantine, Unquarantine, MarkArchived, SetTerminal, moveStatus, updateSummary;
    each_call; cbn [touches]; auto using summaryKey_last, statusKey_last, flowKey_last, attrKey_last, quarantineKey_last.
Qed.

Lemma entry_frame b b' y e :
  ValidToken y = true -> (forall k, lastToken k = y -> bk_m b' !! k = bk_m b !! k) -> entry_holds b y e -> entry_holds b' y e.
Proof.
  intros Hy HK.
  assert (HZ : forall z, present b' (statusKey z y) <-> present b (statusKey z y))
    by (intros z; unfold present; by rewrite HK by (by apply statusKey_last)).
  destruct e as [left|st sum l|st created prev left|]; cbn [entry_holds]; [| | |done].
  - intros He z Hz%HZ. by apply He.
  - intros (Hx & Hs & Hf & Ha & HM & HL). subst y. split; [done|]. unfold stored. rewrite HK by (by apply summaryKey_last).
    split; [done|]. split; [done|]. split; [done|]. split.
    + destruct HM as [HM1 HM2]. split; [unfold present; by rewrite HK by (by apply flowKey_last)|].
      intros k v Hk Hv. unfold present. rewrite HK by (by apply attrKey_last). by apply HM2.
    + destruct l; cbn [listed] in *; (split; [exact (proj1 HL)|]); intros w; rewrite HZ; by apply HL.
  - intros (Hx & Hz & Hold). subst y. split; [done|]. split; [intros z Hp%HZ; by apply Hz|]. intros Hc.
    destruct (Hold Hc) as (H1 & H2 & H3). split; [intros Hp Hl; apply HZ; by apply H1|]. split.
    + unfold present. by rewrite HK by (by apply flowKey_last).
    + intros k v Hk Hv. unfold present. rewrite HK by (by apply attrKey_last). by apply H3.
Qed.

(** *** Operations that run to their end *)

(** An entry can be indexed as the dispatcher does. *)
Lemma entry_indexable b e st created prev :
  entry_holds b (s_ExecID st) e -> allowed e (OpIndex st created prev) -> indexable b st created prev (left_of e).
Proof.
  intros He [_ Ha]. revert He Ha.
  destruct e as [left|st0 sum l|st0 created0 prev0 left|]; cbn [entry_holds allowed left_of]; [| | |done].
  - intros He ->. split; [|done]. intros z Hz. right; right. by apply He.
  - intros (Hx & _ & _ & _ & [HM1 HM2] & HL) HA.
    assert (HE : s_Flow st = s_Flow st0 /\ s_Attrs st = s_Attrs st0 /\ (st = st0 \/ created = false /\ prev = s_Status st0))
      by (destruct HA as [->|(-> & -> & _ & ? & ?)]; auto).
    destruct HE as (HF & HAt & HP). rewrite Hx in HM1, HM2. split.
    + intros z Hz. destruct l as [|z0|z0]; cbn [listed] in HL; destruct HL as [_ HL]; apply HL in Hz; try (destruct Hz as [Hz|Hz]);
        subst z; auto; destruct HP as [->|[-> ->]]; auto.
    + intros ->. rewrite HF, HAt. split; [|done]. intros Hp Hl. destruct l; [|done..]. apply HL. destruct HP as [->|[_ ->]]; done.
  - intros (Hx & HI) (-> & -> & ->). done.
Qed.

Lemma index_holds b b' e st created prev :
  entry_holds b (s_ExecID st) e -> allowed e (OpIndex st created prev) ->
  bucket_exec (IndexFrom st created prev) b = Some (Ok tt, b') ->
  entry_holds b' (s_ExecID st) (entry_after e (OpIndex st created prev)).
Proof.
  intros He Ha HX. rewrite exec_IndexFrom in HX. injection HX as <-.
  destruct (after_index_filed _ _ _ _ _ (entry_indexable _ _ _ _ _ He Ha)) as (Hs & HM & Hz & HS).
  cbn [entry_holds entry_after]. split; [done|]. split; [done|]. split; [done|]. split; [done|]. split; [done|]. destruct (left_of e) as [z0|]; [|split; [done|]; by apply HS].
  destruct (settled_status st created prev (Some z0)) eqn:E; [split; [done|]; by apply HS|]. split; [done|].
  intros z Hp. destruct (Hz z Hp) as [?|[= ->]]; auto.
Qed.

(** The status keys after [moveStatus]. *)
Definition moved (x : string) (status : Status) (b : Bucket) : Bucket :=
  foldl (fun b s => if bool_decide (s = status) then bput (statusKey s x) IEmpty b else bdel (statusKey s x) b) b statuses.

Lemma exec_moveStatus x status b : bucket_exec (moveStatus x status) b = Some (Ok tt, moved x status b).
Proof.
  unfold moveStatus, moved.
  apply (exec_for_each _ _ (fun s b => if bool_decide (s = status) then bput (statusKey s x) IEmpty b else bdel (statusKey s x) b)).
  intros s b0. by destruct (bool_decide (s = status)).
Qed.

Lemma moved_fold x status l b :
  (forall k, (forall z, k <> statusKey z x) -> bk_m (foldl (fun b s => if bool_decide (s = status) then bput (statusKey s x) IEmpty b
     else bdel (statusKey s x) b) b l) !! k = bk_m b !! k) /\
  (forall z, present (foldl (fun b s => if bool_decide (s = status) then bput (statusKey s x) IEmpty b else bdel (statusKey s x) b) b l)
     (statusKey z x) <-> if bool_decide (z ∈ l) then z = status else present b (statusKey z x)).
Proof.
  revert b. induction l as [|s l IH]; intros b; cbn [foldl]; [split; [done|]; intros z; by rewrite bool_decide_eq_false_2 by apply not_elem_of_nil|].
  destruct (IH (if bool_decide (s = status) then bput (statusKey s x) IEmpty b else bdel (statusKey s x) b)) as [H1 H2]. split.
  - intros k Hk. rewrite H1 by done. case_bool_decide; cbn; [by rewrite lookup_insert_ne by (by intros E; apply (Hk s))|].
    by rewrite lookup_delete_ne by (by intros E; apply (Hk s)).
  - intros z. rewrite H2. destruct (decide (z ∈ l)) as [Hz|Hz].
    + rewrite !bool_decide_eq_true_2; [done|by apply list_elem_of_further|done].
    + rewrite (bool_decide_eq_false_2 (z ∈ l)) by done. destruct (decide (z = s)) as [->|Hne].
      * rewrite (bool_decide_eq_true_2 (s ∈ s :: l)) by apply list_elem_of_here.
        case_bool_decide as Hs; [rewrite present_put|rewrite present_del]; naive_solver.
      * rewrite (bool_decide_eq_false_2 (z ∈ s :: l)) by (by rewrite elem_of_cons; intros [?|?]).
        assert (HK : statusKey z x <> statusKey s x) by (by intros ?%statusKey_inj).
        case_bool_decide; [rewrite present_put|rewrite present_del]; naive_solver.
Qed.

Lemma moved_other x status b k : marked_with "s" k = false -> bk_m (moved x status b) !! k = bk_m b !! k.
Proof. intros Hk. apply moved_fold. by intros z ->. Qed.
Lemma moved_present x status b z :
  status ∈ statuses -> ~ present b (statusKey SNone x) -> present (moved x status b) (statusKey z x) <-> z = status.
Proof.
  intros Hin Hn. unfold moved. rewrite (proj2 (moved_fold x status statuses b) z). case_bool_decide as Hz; [done|].
  assert (z = SNone) as -> by (destruct z; [done|..]; by destruct Hz; apply list_elem_of_In; cbn; tauto).
  split; [done|]. intros E. subst status. apply list_elem_of_In in Hin. cbn in Hin. naive_solver.
Qed.

(** *** Other operations on an entry *)

(** Only the summary and the mark of an execution change. *)
Definition summary_only (b b' : Bucket) (x : string) : Prop :=
  forall k, k <> summaryKey x -> k <> quarantineKey x -> bk_m b' !! k = bk_m b !! k.

Lemma summary_only_entry b b' x e e' :
  summary_only b b' x -> entry_holds b x e ->
  match e with
  | Filed st sum l => exists sum', e' = Filed st sum' l /\ with_flags false false "" sum' = with_flags false false "" sum /\
                        stored b' (summaryKey x) (ISummary sum')
  | _ => e' = e
  end -> entry_holds b' x e'.
Proof.
  intros HO He.
  assert (HP : forall k, marked_with "s" k = true \/ marked_with "f" k = true \/ marked_with "a" k = true ->
    (present b' k <-> present b k)) by (intros k Hk; unfold present; rewrite HO; [done|by intros ->; naive_solver..]).
  assert (HZ : forall z, present b' (statusKey z x) <-> present b (statusKey z x)) by (intros z; apply HP; by left).
  destruct e as [left|st sum l|st created prev left|]; cbn [entry_holds] in *.
  - intros ->. intros z Hz%HZ. by apply He.
  - intros (sum' & -> & Hs' & HS). destruct He as (Hx & _ & Hf & Ha & [HM1 HM2] & HL). subst x.
    pose proof (f_equal su_Flow Hs') as Hf'. pose proof (f_equal su_Attrs Hs') as Ha'. pose proof (f_equal su_Status Hs') as Hst'.
    cbn in Hf', Ha', Hst'.
    split; [done|]. split; [done|]. split; [congruence|]. split; [congruence|]. split.
    + split; [apply HP; [by right; left|done]|]. intros k v Hk Hv. apply HP; [by right; right|]. by apply HM2.
    + destruct l; cbn [listed] in *; (split; [rewrite ?Hs', ?Hst'; exact (proj1 HL)|]); intros w; rewrite HZ; by apply HL.
  - intros ->. destruct He as (Hx & Hz & Hold). subst x. split; [done|]. split; [intros z Hz'%HZ; by apply Hz|]. intros Hc.
    destruct (Hold Hc) as (H1 & H2 & H3). split; [intros Hp Hl; apply HZ; by apply H1|]. split; [apply HP; [by right; left|done]|].
    intros k v Hk Hv. apply HP; [by right; right|]. by apply H3.
  - by intros ->.
Qed.

(** Changing the summary. *)
Lemma update_exec x fn b b' :
  bucket_exec (updateSummary x fn) b = Some (Ok tt, b') ->
  (forall k, k <> summaryKey x -> bk_m b' !! k = bk_m b !! k) /\
  forall s, stored b (summaryKey x) (ISummary s) -> stored b' (summaryKey x) (ISummary (fn s)).
Proof.
  unfold updateSummary, stored. rewrite exec_fbind. cbn [bucket_exec bucket_serve call].
  destruct (bk_m b !! summaryKey x) as [[v rev]|] eqn:E.
  - rewrite exec_fbind. cbn [bucket_exec lift]. destruct (as_summary v) as [s|e] eqn:Ev; [|done].
    cbn [bucket_exec bucket_serve call]. intros [= <-]. split.
    + intros k Hk. cbn. by rewrite lookup_insert_ne.
    + intros s' [= ->]. injection Ev as ->. cbn. by rewrite lookup_insert_eq.
  - intros [= <-]. split; [done|]. by intros s.
Qed.

Lemma quarantine_holds b b' e x seq reason :
  entry_holds b x e -> bucket_exec (Quarantine x seq reason) b = Some (Ok tt, b') ->
  entry_holds b' x (entry_after e (OpQuarantine x seq reason)).
Proof.
  intros He. unfold Quarantine. rewrite exec_fbind. cbn [bucket_exec bucket_serve call]. intros HX%update_exec. destruct HX as [HO HS].
  eapply summary_only_entry; [|exact He|].
  - intros k H1 H2. rewrite HO by done. cbn. by rewrite lookup_insert_ne.
  - destruct e as [|st sum l| |]; try done. exists (with_flags (su_Archived sum) true reason sum). split; [done|]. split; [done|].
    apply (HS sum). destruct He as (_ & Hs & _). unfold stored in *. cbn. by rewrite lookup_insert_ne.
Qed.

Lemma unquarantine_holds b b' e x :
  entry_holds b x e -> bucket_exec (Unquarantine x) b = Some (Ok tt, b') -> entry_holds b' x (entry_after e (OpUnquarantine x)).
Proof.
  intros He. unfold Unquarantine. cbn [bucket_exec bucket_serve call]. intros [= <-].
  eapply summary_only_entry; [|exact He|].
  - intros k H1 H2. cbn. by rewrite lookup_delete_ne.
  - destruct e as [|st sum l| |]; try done. exists sum. split; [done|]. split; [done|].
    destruct He as (_ & Hs & _). unfold stored in *. cbn. by rewrite lookup_delete_ne.
Qed.

Lemma archived_holds b b' e x :
  entry_holds b x e -> bucket_exec (MarkArchived x) b = Some (Ok tt, b') -> entry_holds b' x (entry_after e (OpArchived x)).
Proof.
  intros He. unfold MarkArchived. rewrite exec_fbind. cbn [bucket_exec bucket_serve call].
  destruct (bk_m b !! summaryKey x) as [[v rev]|] eqn:E.
  - rewrite exec_fbind. cbn [bucket_exec lift]. destruct (as_summary v) as [s|err] eqn:Ev; [|done].
    cbn [bucket_exec bucket_serve call]. rewrite bool_decide_eq_true_2 by (by rewrite E). intros [= <-].
    eapply summary_only_entry; [|exact He|].
    + intros k H1 H2. cbn. by rewrite lookup_insert_ne.
    + destruct e as [|st sum l| |]; try done. exists (with_flags true (su_Quarantined sum) (su_QuarantineReason sum) sum). split; [done|]. split; [done|].
      destruct He as (_ & Hs & _). unfold stored in *. rewrite E in Hs. injection Hs as ->. injection Ev as <-. cbn. by rewrite lookup_insert_eq.
  - intros [= <-]. eapply summary_only_entry; [|exact He|]; [done|]. destruct e as [|st sum l| |]; try done.
    destruct He as (_ & Hs & _). unfold stored in Hs. by rewrite E in Hs.
Qed.

Lemma terminal_holds b b' e x z reason msg at_ :
  z ∈ statuses -> ~ present b (statusKey SNone x) -> e <> Deleting ->
  entry_holds b x e -> bucket_exec (SetTerminal x z reason msg at_) b = Some (Ok tt, b') ->
  entry_holds b' x (entry_after e (OpTerminal x z reason msg at_)).
Proof.
  intros Hz Hn Hd He. unfold SetTerminal. rewrite exec_fbind. destruct (bucket_exec (updateSummary _ _) b) as [[[[]|err] b1]|] eqn:E; [|done..].
  rewrite exec_moveStatus. intros [= <-]. apply update_exec in E as [HO HS].
  assert (HN : ~ present b1 (statusKey SNone x)) by (unfold present; by rewrite HO by done).
  assert (HP : forall w, present (moved x z b1) (statusKey w x) <-> w = z) by (intros w; by apply moved_present).
  assert (HK : forall k, marked_with "s" k = false -> k <> summaryKey x -> bk_m (moved x z b1) !! k = bk_m b !! k)
    by (intros k Hk Hne; rewrite moved_other by done; by apply HO).
  destruct e as [left|st sum l|st created prev left|]; cbn [entry_holds entry_after] in *; [| | |done].
  - intros w Hw%HP. congruence.
  - destruct He as (Hx & Hs & Hf & Ha & [HM1 HM2] & HL). subst x. split; [done|]. split; [|split; [done|split; [done|]]].
    + unfold stored. rewrite moved_other by done. by apply (HS sum).
    + split; [|by split]. split; [unfold present; by rewrite HK|]. intros k v Hk Hv. unfold present. rewrite HK by done. by apply HM2.
  - destruct He as (Hx & Hi & Hold). subst x. split; [done|]. split; [intros w Hw%HP; right; right; congruence|]. intros Hc.
    destruct (Hold Hc) as (_ & H2 & H3). split; [done|]. split; [unfold present; by rewrite HK|].
    intros k v Hk Hv. unfold present. rewrite HK by done. by apply H3.
Qed.

(** [Index] with every flag, as a rebuild calls it. *)
Lemma rebuild_holds b b' e st :
  s_Status st ∈ statuses -> ~ present b (statusKey SNone (s_ExecID st)) ->
  bucket_exec (Index st true true) b = Some (Ok tt, b') ->
  entry_holds b' (s_ExecID st) (entry_after e (OpRebuild st)).
Proof.
  intros Hz Hn HX. assert (E : b' = moved (s_ExecID st) (s_Status st) (before_status st true b)).
  { revert HX. unfold Index, index, before_status. cbn [orb]. rewrite exec_fbind. cbn [bucket_exec bucket_serve call].
    rewrite exec_fbind, exec_fbind. cbn [bucket_exec bucket_serve call].
    rewrite (exec_for_each _ _ (fun k b => if negb (ValidToken k) then b
      else bput (attrKey k (render (default (TStr "") (s_Attrs st !! k))) (s_ExecID st)) IEmpty b)).
    2: { intros k b0. by destruct (negb (ValidToken k)). }
    rewrite exec_moveStatus. by intros [= <-]. }
  subst b'. clear HX. cbn [entry_holds entry_after]. split; [done|]. split; [|split; [done|split; [done|split]]].
  - unfold stored. rewrite moved_other by done. apply before_status_summary.
  - destruct (before_status_members st true b) as [H1 H2]; [done|]. split; [unfold present; by rewrite moved_other|].
    intros k v Hk Hv. unfold present. rewrite moved_other by done. by apply H2.
  - split; [done|]. intros w. apply moved_present; [done|]. unfold present. by rewrite before_status_kept.
Qed.

Lemma erased_present l b k : present (foldl (fun b k => bdel k b) b l) k <-> (k ∉ l) /\ present b k.
Proof.
  revert b. induction l as [|k' l IH]; intros b; cbn [foldl]; [split; [intros ?; split; [apply not_elem_of_nil|done]|by intros [_ ?]]|].
  rewrite IH, present_del, not_elem_of_cons. naive_solver.
Qed.

Lemma erase_all_status x members b b' :
  ~ present b (statusKey SNone x) ->
  bucket_exec (for_each ((quarantineKey x :: ((fun s => statusKey s x) <$> statuses)) ++ members ++ [summaryKey x])
    (fun k => call (KvErase k))) b = Some (Ok tt, b') ->
  forall z, ~ present b' (statusKey z x).
Proof.
  intros Hn. remember ((quarantineKey x :: ((fun s => statusKey s x) <$> statuses)) ++ members ++ [summaryKey x]) as l eqn:El.
  rewrite (exec_for_each _ _ (fun k b => bdel k b)) by (intros; reflexivity). intros [= <-] z. rewrite erased_present, El. intros [Hk Hp].
  destruct z; [by destruct Hn|..]; apply Hk, elem_of_app; left; apply list_elem_of_further, list_elem_of_fmap; eexists; (split; [reflexivity|]);
    apply list_elem_of_In; cbn; tauto.
Qed.

Lemma delete_holds b b' x e :
  ~ present b (statusKey SNone x) -> bucket_exec (DeleteIndex x) b = Some (Ok tt, b') -> entry_holds b' x (entry_after e (OpDelete x)).
Proof.
  intros Hn HX z Hz. exfalso. revert HX. unfold DeleteIndex. rewrite exec_fbind. cbn [bucket_exec bucket_serve call]. rewrite exec_fbind.
  destruct (bk_m b !! summaryKey x) as [[v rev]|].
  - rewrite exec_fbind. cbn [bucket_exec lift]. destruct (as_summary v) as [s|err]; [|done]. cbn [bucket_exec ok]. intros HX.
    by eapply erase_all_status.
  - cbn [bucket_exec ok]. intros HX. by eapply erase_all_status.
Qed.

(** *** Operations that are cut off *)

Definition index_call (st : State) (created : bool) (prev : Status) (c : Call) : Prop :=
  match c with
  | KvPut k _ => marked_with "s" k = false \/ k = statusKey (s_Status st) (s_ExecID st)
  | KvDelete k => created = false /\ prev <> s_Status st /\ k = statusKey prev (s_ExecID st)
  | _ => False
  end.

Lemma IndexFrom_calls st created prev : every (index_call st created prev) (IndexFrom st created prev).
Proof.
  unfold IndexFrom, index. apply every_fbind; [apply every_call; by left|intros _].
  apply every_fbind; [each_call; by left|intros _].
  destruct (negb created && _) eqn:E; [exact I|]. apply every_fbind; [apply every_call; by right|intros _].
  destruct created; [exact I|]. apply every_call. split; [done|]. split; [|done]. intros ->.
  by rewrite bool_decide_eq_true_2 in E.
Qed.

Lemma indexable_call st created prev left b c r b' :
  index_call st created prev c -> bucket_serve b c = Some (r, b') -> indexable b st created prev left ->
  indexable b' st created prev left.
Proof.
  intros Hc HS [Hz Hold]. destruct c; try done; cbn in Hc, HS; injection HS as _ <-.
  - assert (HP : forall k', present b k' -> present (bput key v b) k') by (intros k' ?; apply present_put; by right).
    split; [|intros E; destruct (Hold E) as (H1 & H2 & H3); split; [intros; by apply HP, H1|]; split; [by apply HP|]; intros; by apply HP, H3].
    intros z [E|Hp]%present_put; [|by apply Hz]. destruct Hc as [Hc|Hc].
    + subst key. discriminate Hc.
    + left. rewrite Hc in E. by apply statusKey_inj in E.
  - destruct Hc as (-> & Hne & ->).
    assert (HP : forall k', marked_with "s" k' = false -> present b k' -> present (bdel (statusKey prev (s_ExecID st)) b) k')
      by (intros k' Hk ?; apply present_del; split; [by intros ->|done]).
    split; [intros z [_ Hp]%present_del; by apply Hz|]. intros E. destruct (Hold E) as (H1 & H2 & H3). split; [done|].
    split; [by apply HP|]. intros k v Hk Hv. apply HP; [done|]. by apply H3.
Qed.

(** *** Every history *)

(** No key stands for an execution without a status. *)
Definition real_status (x : string) (c : Call) : Prop :=
  match c with KvPut k _ | KvUpdate k _ _ => k <> statusKey SNone x | _ => True end.

Lemma real_status_serve x b c r b' :
  real_status x c -> bucket_serve b c = Some (r, b') -> ~ present b (statusKey SNone x) -> ~ present b' (statusKey SNone x).
Proof.
  intros Hc HS Hn. destruct c; try done; cbn in Hc, HS; try (by injection HS as _ <-).
  - injection HS as _ <-. rewrite present_put. by intros [?|?].
  - case_bool_decide; injection HS as _ <-; [|done]. rewrite present_put. by intros [?|?].
  - injection HS as _ <-. rewrite present_del. by intros [_ ?].
  - injection HS as _ <-. rewrite present_del. by intros [_ ?].
Qed.

Lemma real_key x z : z ∈ statuses -> statusKey z x <> statusKey SNone x.
Proof. intros Hz ->%statusKey_inj. apply list_elem_of_In in Hz. cbn in Hz. naive_solver. Qed.

Lemma op_real e o : allowed e o -> every (real_status (op_exec o)) (op_prog o).
Proof.
  intros [Hz _]. destruct o; cbn [op_exec op_prog] in *;
    unfold IndexFrom, Index, index, Quarantine, Unquarantine, MarkArchived, SetTerminal, moveStatus, updateSummary, DeleteIndex;
    each_call; cbn [real_status]; try done; try (by apply real_key); try (subst; by apply real_key).
Qed.

Definition index_inv (b : Bucket) (m : Ledger) : Prop :=
  forall x, ValidToken x = true -> entry_holds b x (m x) /\ ~ present b (statusKey SNone x).

Lemma done_holds b m o b' :
  index_inv b m -> ValidToken (op_exec o) = true -> allowed (m (op_exec o)) o ->
  bucket_exec (op_prog o) b = Some (Ok tt, b') -> entry_holds b' (op_exec o) (entry_after (m (op_exec o)) o).
Proof.
  intros HI Hx Ha HX. destruct (HI _ Hx) as [He Hn]. destruct o; cbn [op_exec op_prog] in *.
  - by eapply index_holds.
  - eapply rebuild_holds; [apply Ha|done|exact HX].
  - by eapply quarantine_holds.
  - by eapply unquarantine_holds.
  - by eapply archived_holds.
  - eapply terminal_holds; [apply Ha|done| |exact He|exact HX]. destruct Ha as [_ Ha]. by intros E; rewrite E in Ha.
  - by eapply delete_holds.
Qed.

Lemma cut_holds b m o n e :
  index_inv b m -> ValidToken (op_exec o) = true -> allowed (m (op_exec o)) o -> entry_cut (m (op_exec o)) o = Some e ->
  entry_holds (bucket_upto n (op_prog o) b) (op_exec o) e.
Proof.
  intros HI Hx Ha HE. destruct (HI _ Hx) as [He Hn]. destruct o; try done; injection HE as <-; [|done].
  cbn [entry_holds op_exec op_prog] in *. split; [done|].
  apply (upto_keeps (index_call st created prev) (fun b' => indexable b' st created prev (left_of (m (s_ExecID st))))).
  - apply IndexFrom_calls.
  - intros b1 c r b2. apply indexable_call.
  - by apply entry_indexable.
Qed.

(** The bucket after an operation, cut off or not, with the new entry. *)
Lemma note_inv b m o n e :
  index_inv b m -> ValidToken (op_exec o) = true -> allowed (m (op_exec o)) o ->
  entry_holds (bucket_upto n (op_prog o) b) (op_exec o) e ->
  index_inv (bucket_upto n (op_prog o) b) (note (op_exec o) e m).
Proof.
  intros HI Hx Ha He y Hy. unfold note. destruct (String.eqb_spec y (op_exec o)) as [->|Hne].
  - split; [done|]. apply (upto_keeps (real_status (op_exec o)) (fun b' => ~ present b' (statusKey SNone (op_exec o)))).
    + by eapply op_real.
    + intros b1 c r b2. apply real_status_serve.
    + apply (HI _ Hx).
  - assert (HF : forall k, lastToken k = y -> bk_m (bucket_upto n (op_prog o) b) !! k = bk_m b !! k)
      by (intros k <-; by apply (upto_frame (op_exec o)); [apply op_touches|]).
    destruct (HI y Hy) as [Hey Hny]. split; [by eapply entry_frame|]. unfold present. by rewrite HF by (by apply statusKey_last).
Qed.

Lemma step_inv bm bm' : index_step bm bm' -> index_inv (fst bm) (snd bm) -> index_inv (fst bm') (snd bm').
Proof.
  intros [b m o b' Hx Ha HX|b m o n e Hx Ha HE] HI; cbn [fst snd] in *.
  - pose proof (done_holds _ _ _ _ HI Hx Ha HX) as He. destruct (exec_upto _ _ _ _ HX) as [n ->]. by apply note_inv.
  - apply note_inv; try done. by eapply cut_holds.
Qed.

Lemma index_reached_inv b m : index_reached b m -> index_inv b m.
Proof.
  intros HR. apply (rtc_ind_r (R := index_step) (fun bm => index_inv (fst bm) (snd bm)) index_start) in HR; [done| |].
  - intros x Hx. split; [intros z [? Hz]; done|]. intros [? Hz]. done.
  - intros bm bm' _ HS HI. by eapply step_inv.
Qed.

(** Folding decisions that do not open an execution or continue it keeps its
    entry. *)
Lemma apply_same_entry def s ev s' :
  Apply def s ev = Ok s' -> match ev_Data ev with DStarted _ | DForked _ | DContinued _ => False | _ => True end -> same_entry s s'.
Proof.
  unfold Apply. intros (n & _ & HA)%res_bind_ok Hb. destruct (_ && _); [done|].
  apply res_bind_ok in HA as (s1 & Hw & [= <-]). destruct (apply_ def s ev) as [s2|e] eqn:Ha; [|done]. injection Hw as ->.
  destruct (finish_frame ev s1) as (y & up & -> & _). unfold same_entry. cbn.
  destruct ev as [ty v tm ix c tr data sq de]. cbn [ev_Data] in Hb. destruct data; try done; apply_cases Ha; done.
Qed.

Lemma replay_same_entry def s evs s' :
  replay def s evs = Ok s' ->
  Forall (fun ev => match ev_Data ev with DStarted _ | DForked _ | DContinued _ => False | _ => True end) evs -> same_entry s s'.
Proof.
  unfold replay. revert s. induction evs as [|ev evs IH]; intros s; cbn [res_fold]; [by intros [= <-]|].
  intros (s1 & Ha & Hr)%res_bind_ok [Hb HF]%Forall_cons. destruct (apply_same_entry _ _ _ _ Ha Hb) as (H1 & H2 & H3).
  destruct (IH _ Hr HF) as (H4 & H5 & H6). unfold same_entry. split_and!; congruence.
Qed.


(** ** Searching *)

(** What is read under an id. *)
Definition read_summary (b : Bucket) (x : string) : option Summary :=
  match bk_m b !! summaryKey x with Some (ISummary s, _) => Some s | _ => None end.

Lemma exec_collect f ids b :
  bucket_exec (collect f ids) b =
  Some (omap (fun x => match read_summary b x with Some s => if matches f s then Some s else None | None => None end) ids, b).
Proof.
  induction ids as [|x ids IH]; [done|]. cbn [collect]. rewrite exec_bind. unfold GetSummary. rewrite exec_fbind.
  cbn [bucket_exec bucket_serve call omap list_omap]. unfold read_summary at 1.
  destruct (bk_m b !! summaryKey x) as [[[|s|m] r]|]; cbn [as_summary lift fbind pbind bucket_exec ok]; rewrite exec_bind, IH; try done.
  cbn [bucket_exec]. by destruct (matches f s).
Qed.

Lemma newest_first_perm l : newest_first l ≡ₚ l.
Proof.
  assert (HI : forall s l, insert_newest s l ≡ₚ s :: l).
  { intros s l0. induction l0 as [|t l0 IH]; cbn [insert_newest]; [done|]. destruct (_ <? _); [done|]. rewrite IH. apply perm_swap. }
  induction l as [|s l IH]; [done|]. cbn [newest_first]. by rewrite HI, IH.
Qed.

Definition newer (s t : Summary) : Prop := su_Created t <= su_Created s.

Lemma insert_newest_sorted s l : StronglySorted newer l -> StronglySorted newer (insert_newest s l).
Proof.
  induction 1 as [|t l HS IH HF]; cbn [insert_newest]; [by repeat constructor|]. destruct (Z.ltb_spec (su_Created t) (su_Created s)).
  - constructor; [by constructor|]. constructor; [unfold newer; lia|]. eapply Forall_impl; [exact HF|]. unfold newer. lia.
  - constructor; [done|]. clear HS IH. induction l as [|u l IH]; cbn [insert_newest].
    + constructor; [done|constructor].
    + apply Forall_cons in HF as [Hu HF]. destruct (_ <? _); repeat constructor; auto.
Qed.

Lemma newest_first_sorted l : StronglySorted newer (newest_first l).
Proof. induction l; [constructor|]. by apply insert_newest_sorted. Qed.

(** The key a filter looks an execution up under. *)
Definition filter_key (f : Filter) (x : string) (s : Summary) : string :=
  if negb (String.eqb (fi_Attr f) "") then attrKey (fi_Attr f) (fi_Value f) x
  else if negb (String.eqb (fi_Status f) "") then statusKey (su_Status s) x
  else if negb (String.eqb (fi_Flow f) "") then flowKey (fi_Flow f) x
  else summaryKey x.

Lemma bad_token_valid v : bad_token v = false -> v <> "" -> ValidToken v = true.
Proof. unfold bad_token. intros Hb Hv. apply String.eqb_neq in Hv. rewrite Hv in Hb. by apply negb_false_iff. Qed.

Lemma star_match a : String.eqb "*" "*" || String.eqb "*" a = true.
Proof. done. Qed.

Lemma same_match a : String.eqb a "*" || String.eqb a a = true.
Proof. by rewrite String.eqb_refl, orb_true_r. Qed.

Lemma pattern_key f x s pat :
  ValidToken x = true -> pattern f = Ok pat -> matches f s = true -> subject_match pat (filter_key f x s) = true.
Proof.
  intros Hx. unfold pattern, matches, filter_key, subject_match.
  destruct (bad_token (fi_Status f)) eqn:E1; [done|]. destruct (bad_token (fi_Flow f)) eqn:E2; [done|].
  destruct (bad_token (fi_Attr f)) eqn:E3; [done|]. cbn [orb].
  destruct (String.eqb_spec (fi_Attr f) "") as [Ea|Ea]; cbn [negb orb].
  2: { intros [= <-] _. pose proof (bad_token_valid _ E3 Ea) as Hv. rewrite attrKey_tokens by done.
       change (split_at dot _) with (split_at dot (("a" +:+ ".") +:+ (fi_Attr f +:+ "." +:+ (AttrHash (fi_Value f) +:+ "." +:+ "*")))) at 1.
       rewrite prefix_tokens by done.
       rewrite split_dot by (by apply token_no_sep). rewrite (split_dot (AttrHash (fi_Value f)) "*") by apply hex_no_sep.
       cbn [tokens_match]. by rewrite !same_match. }
  destruct (String.eqb_spec (fi_Status f) "") as [Es|Es]; cbn [negb orb].
  2: { case_bool_decide; [|done]. intros [= <-] Hm. apply andb_prop in Hm as [[Hm _]%andb_prop _].
       apply String.eqb_eq in Hm. rewrite statusKey_tokens by done.
       change (split_at dot _) with (split_at dot (("s" +:+ ".") +:+ (fi_Status f +:+ "." +:+ "*"))) at 1.
       rewrite prefix_tokens by done. rewrite (split_dot (fi_Status f) "*") by (apply token_no_sep; by apply bad_token_valid).
       rewrite Hm. cbn [tokens_match]. by rewrite !same_match. }
  destruct (String.eqb_spec (fi_Flow f) "") as [Ef|Ef]; cbn [negb orb]; intros [= <-] _.
  - by rewrite summaryKey_tokens.
  - pose proof (bad_token_valid _ E2 Ef) as Hv. rewrite flowKey_tokens by done.
    change (split_at dot _) with (split_at dot (("f" +:+ ".") +:+ (fi_Flow f +:+ "." +:+ "*"))) at 1.
    rewrite prefix_tokens by done. rewrite (split_dot (fi_Flow f) "*") by (by apply token_no_sep).
    cbn [tokens_match]. by rewrite !same_match.
Qed.

Lemma filter_key_last f x s : ValidToken x = true -> lastToken (filter_key f x s) = x.
Proof.
  intros Hx. unfold filter_key. destruct (negb _); [by apply attrKey_last|]. destruct (negb _); [by apply statusKey_last|].
  destruct (negb _); [by apply flowKey_last|by apply summaryKey_last].
Qed.

Lemma filter_key_present f b x s :
  filed b x s -> matches f s = true -> bad_token (fi_Attr f) = false ->
  (fi_Attr f = "" \/ is_Some (su_Attrs s !! fi_Attr f)) -> present b (filter_key f x s).
Proof.
  intros [Hs Hz Hf Ha] Hm Hb Hk. unfold filter_key, matches in *. apply andb_prop in Hm as [[_ Hfl]%andb_prop Hat].
  destruct (String.eqb_spec (fi_Attr f) "") as [|Ea]; cbn [negb].
  2: { destruct Hk as [?|[v Hv]]; [done|]. rewrite Hv in Hat. cbn [default orb] in Hat. apply String.eqb_eq in Hat. rewrite <- Hat.
       apply Ha; [done|]. by apply bad_token_valid. }
  destruct (negb _); [by apply Hz|]. destruct (String.eqb_spec (fi_Flow f) "") as [|Ef]; cbn [negb].
  - unfold present. unfold stored in Hs. destruct (bk_m b !! summaryKey x); [eauto|done].
  - apply String.eqb_eq in Hfl. by rewrite <- Hfl.
Qed.

(** C29. A search without a limit returns the executions that
    match: every summary in the answer is stored and matches the filter, every
    filed execution that matches (and has the attribute the filter names) is in
    it, and they come newest first. *)
Theorem search_finds_matching f b pat :
  pattern f = Ok pat -> fi_Limit f <= 0 ->
  exists l, bucket_exec (List_ f) b = Some (Ok l, b) /\ StronglySorted newer l /\
    (forall s, s ∈ l -> matches f s = true /\ exists x, stored b (summaryKey x) (ISummary s)) /\
    (forall x s, ValidToken x = true -> filed b x s -> matches f s = true ->
      (fi_Attr f = "" \/ is_Some (su_Attrs s !! fi_Attr f)) -> s ∈ l).
Proof.
  intros HP HL. assert (Hba : bad_token (fi_Attr f) = false).
  { revert HP. unfold pattern. destruct (bad_token (fi_Attr f)); [|done]. by rewrite !orb_true_r. }
  unfold List_. rewrite HP. cbn [lift fbind pbind]. unfold listIDs. 
  eexists. split; [|split; [|split]].
  - rewrite exec_fbind, exec_fbind. cbn [bucket_exec bucket_serve call ok]. rewrite exec_bind, exec_collect. cbn [bucket_exec ok].
    unfold limit. apply Z.ltb_ge in HL. rewrite HL. reflexivity.
  - apply newest_first_sorted.
  - intros s. rewrite newest_first_perm, list_elem_of_omap. intros (x & _ & Hs).
    destruct (read_summary b x) as [s'|] eqn:Er; [|done]. destruct (matches f s') eqn:Em; [|done]. injection Hs as ->.
    split; [done|]. exists x. unfold stored, read_summary in *. destruct (bk_m b !! summaryKey x) as [[[] ?]|]; try done.
    by injection Er as ->.
  - intros x s Hx HF Hm Hk. rewrite newest_first_perm, list_elem_of_omap. exists x. split.
    + apply list_elem_of_fmap. exists (filter_key f x s). split; [by rewrite filter_key_last|].
      apply list_elem_of_In, List.filter_In. split; [|by eapply pattern_key]. apply list_elem_of_In.
      destruct (filter_key_present f b x s HF Hm Hba Hk) as [[v r] Hv]. apply list_elem_of_fmap. exists (filter_key f x s, (v, r)).
      split; [done|]. by apply elem_of_map_to_list.
    + pose proof (fl_summary _ _ _ HF) as Hs. unfold stored, read_summary in *.
      destruct (bk_m b !! summaryKey x) as [[v r]|]; [|done]. cbn in Hs. injection Hs as ->. by rewrite Hm.
Qed.
End Index.
