(* ===== verification/Sending.v ===== *)
(** * Sending commands ([wire.PublishCmd], [wire.ScheduleCmd])

    A command is published to the partition of its execution, under its id as
    the deduplication id; a body too large for a message is kept as an object. *)

From S2P Require Import Prelude Json Hash GoStrings Names Flow Event Cmd CmdCodec Reduce State View Wire Codec Server.

Section Sending.
Context (cfg : Config).

(** [blob.Offload] of another body than a decision: the name of the object, empty
    for a body sent inline. *)
Definition offload_object (x : string) (o : Object) : Prog (result string) :=
  if cf_Size cfg o <=? cf_BlobThreshold cfg then ok ""
  else
    let! r := call (BlobPut x o) in
    lift (annotate "blob: put: %w" r).

Definition PublishCmd (c : Command) (traceparent : string) : Prog (result unit) :=
  match Cmd.Validate c with
  | Some why => failed (Error [] why)
  | None =>
      try! blob := offload_object (c_ExecID c) (OCommand (Some c)) in
      let! r := call (Perform (PublishCommand c (msgID c) traceparent blob)) in
      lift (annotate "wire: publish %s command: %w" r)
  end.

Definition ScheduleCmd (x timer : string) (at_ : Z) (c : Command) : Prog (result unit) :=
  let! r := call (Perform (ScheduleCommand x timer at_ c)) in
  lift (annotate "wire: schedule %s command: %w" r).
End Sending.
