(* ===== verification/EventLog.v ===== *)
(** * Event log, claim check, snapshots ([internal/eventlog], [internal/blob], [internal/snapshot])

    [Append] stores a decision as one message after the sequence the decider
    expects; [Read] and [Scan] read decisions back in batches; bodies too large
    for a message are kept as objects; snapshots keep the encoded state of an
    execution. *)

From S2P Require Import Prelude Json Names Flow Event Cmd Reduce State Codec Server.

Section EventLog.
Context (cfg : Config).

(** ** Claim check ([blob.Offload], [blob.Resolve]) *)

Definition Offload (x : string) (body : DecisionBytes) (h : Header) : Prog (result (DecisionBytes * Header)) :=
  if cf_Size cfg (ODecision body) <=? cf_BlobThreshold cfg then ok (body, h)
  else
    let! r := call (BlobPut x (ODecision body)) in
    match r with
    | Err e => failed (wrapf "blob: put: %w" e)
    | Ok name => ok (None, set_h_Blob name h)
    end.

(** The object that holds a body. *)
Definition resolve_object (name : string) : Prog (result Object) :=
  let! r := call (BlobGet name) in
  match r with
  | Got o => ok o
  | NotThere => failed (Error [ErrObjectNotFound] (Sprintf "blob: get %s: %w" [AStr name]))
  | GetError e => failed (wrapf "blob: get: %w" e)
  end.

Definition Resolve (body : DecisionBytes) (h : Header) : Prog (result DecisionBytes) :=
  if String.eqb (h_Blob h) "" then ok body
  else try! o := resolve_object (h_Blob h) in
       ok (match o with ODecision b => b | _ => None end).

(** ** The log of an execution *)

Definition MaxEvents : Z := 1000.

Definition Append (x : string) (expected : Z) (evs : list FoldEvent) : Prog (result Z) :=
  if bool_decide (evs = []) then ok expected
  else if MaxEvents <? len evs then
    failed (plain (Sprintf "eventlog: decision produced %d events, more than the limit %d"
                     [AInt (len evs); AInt MaxEvents]))
  else
    try! (body, h) := lift (EncodeDecision evs) in
    try! (body, h) := Offload x body h in
    let! a := call (EvPublish x expected {| msg_Header := h; msg_Data := body |}) in
    match a with
    | PubAck seq => ok seq
    | PubWrongSeq => failed (Error [ErrAppendConflict] "eventlog: concurrent append (expected sequence mismatch)")
    | PubError e => failed (wrapf "eventlog: append: %w" e)
    end.

(** The events of the decision stored at [seq]: all carry it, the last one ends
    the decision. *)
Definition stamp (seq : Z) (last : bool) (ev : FoldEvent) : FoldEvent := {|
  ev_Type := ev_Type ev; ev_Version := ev_Version ev; ev_Time := ev_Time ev; ev_Index := ev_Index ev;
  ev_CmdID := ev_CmdID ev; ev_Trace := ev_Trace ev; ev_Data := ev_Data ev; ev_Seq := seq;
  ev_DecisionEnd := last || ev_DecisionEnd ev |}.

Fixpoint stamped (seq : Z) (evs : list FoldEvent) : list FoldEvent :=
  match evs with
  | [] => []
  | [ev] => [stamp seq true ev]
  | ev :: evs' => stamp seq false ev :: stamped seq evs'
  end.

Definition decode_message (m : Msg) (seq : Z) : Prog (result (list FoldEvent)) :=
  try! body := Resolve (msg_Data m) (msg_Header m) in
  match DecodeDecision body with
  | Err e => failed (wrapf "eventlog: seq %d: %w" e)
  | Ok evs => ok (stamped seq evs)
  end.

(** [DecodeEach]: the events of a delivered decision that decode. *)
Definition DecodeEach (m : Msg) (seq : Z) : Prog (result (list FoldEvent)) :=
  try! body := Resolve (msg_Data m) (msg_Header m) in
  match SplitDecision body with
  | Err e => failed e
  | Ok raws => ok (omap (fun r => match Decode r with Ok ev => Some (stamp seq false ev) | Err _ => None end) raws)
  end.

Section Scan.
Context {S : Type} (fn : S -> list FoldEvent -> Prog (S * bool)).

(** The messages of a batch, decoded and handed to [fn] in order: where to
    resume, and whether [fn] asked to stop. *)
Fixpoint scan_messages (msgs : list (Z * Msg)) (next : Z) (acc : S) : Prog (result (Z * bool * S)) :=
  match msgs with
  | [] => ok (next, false, acc)
  | (seq, m) :: msgs' =>
      try! evs := decode_message m seq in
      let! (acc, go) := fn acc evs in
      if (go : bool) then scan_messages msgs' (seq + 1) acc else ok (seq + 1, true, acc)
  end.

Definition readBatch (x : string) (from : Z) (acc : S) : Prog (result (Z * bool * bool * S)) :=
  let! r := call (EvDirectGet x from) in
  match r with
  | Err e => failed (wrapf "eventlog: read %s: %w" e)
  | Ok (msgs, more) =>
      try! (next, stop, acc) := scan_messages msgs from acc in
      ok (next, more, stop, acc)
  end.

Fixpoint scan_rounds (rounds : nat) (x : string) (from : Z) (acc : S) : Prog (result S) :=
  match rounds with
  | O => failed OutOfFuel
  | Datatypes.S rounds =>
      try! (next, more, stop, acc) := readBatch x from acc in
      if stop || negb more then ok acc else scan_rounds rounds x next acc
  end.

Definition ScanDecisions (x : string) (from : Z) (acc : S) : Prog (result S) :=
  scan_rounds (cf_Rounds cfg) x (if from =? 0 then 1 else from) acc.
End Scan.

(** [Scan]: [fn] event by event, until it returns false. *)
Fixpoint scan_events {S} (fn : S -> FoldEvent -> S * bool) (acc : S) (evs : list FoldEvent) : S * bool :=
  match evs with
  | [] => (acc, true)
  | ev :: evs' => let (acc, go) := fn acc ev in if (go : bool) then scan_events fn acc evs' else (acc, false)
  end.
Definition Scan {S} (fn : S -> FoldEvent -> S * bool) (x : string) (from : Z) (acc : S) : Prog (result S) :=
  ScanDecisions (fun acc evs => Ret (scan_events fn acc evs)) x from acc.

(** [Read]: the events with a sequence in [from, to], [to = 0] for all. *)
Definition Read (x : string) (from to : Z) : Prog (result (list FoldEvent)) :=
  Scan (fun out ev => if (0 <? to) && (to <? ev_Seq ev) then (out, false) else (out ++ [ev], true)) x from [].

Definition seq_or_zero (r : result (option Z)) : result Z :=
  match r with Ok o => Ok (default 0 o) | Err e => Err e end.
Definition LastSeq (x : string) : Prog (result Z) := let! r := call (EvLast x) in lift (seq_or_zero r).
Definition FirstSeq (x : string) : Prog (result Z) := let! r := call (EvFirst x) in lift (seq_or_zero r).
Definition PurgeBefore (x : string) (seq : Z) : Prog (result unit) := call (EvPurge x (Some seq)).
Definition Purge (x : string) : Prog (result unit) := call (EvPurge x None).

(** ** Snapshots *)

Definition DefaultEvery : Z := 100.

(** [snapshot.New]. *)
Definition snap_every : Z := if cf_SnapEvery cfg =? 0 then DefaultEvery else cf_SnapEvery cfg.

(** [Due]; integer division truncates. *)
Definition Due (before after : Z) : bool :=
  (0 <? snap_every) && (Z.quot before snap_every <? Z.quot after snap_every).

Definition snapshot_object (x : string) : string := x +:+ "/snapshot".

Definition saveBlob (x : string) (b : Encoded) : Prog (result SnapValue) :=
  let! r := call (SnapBlobPut x b) in
  match r with
  | Err e => failed (wrapf "snapshot %s: %w" e)
  | Ok _ => ok (SPointer (snapshot_object x))
  end.

Definition SaveSnapshot (st : State) : Prog (result unit) :=
  try! b := lift (MarshalState st) in
  try! v := (if cf_BlobThreshold cfg <? cf_Size cfg (OState b) then saveBlob (s_ExecID st) b else ok (SState b)) in
  call (SnapPut (s_ExecID st) v).

Definition LoadSnapshot (x : string) : Prog (result (option State)) :=
  let! r := call (SnapGet x) in
  match r with
  | Err e => failed e
  | Ok None => ok None
  | Ok (Some v) =>
      try! b := match v with
                | SState b => ok b
                | SPointer name =>
                    let! r := call (BlobGet name) in
                    match r with
                    | Got (OState b) => ok b
                    | Got _ => ok None
                    | NotThere => failed (Error [ErrObjectNotFound] (Sprintf "snapshot %s: %w" [AStr x]))
                    | GetError e => failed (wrapf "snapshot %s: %w" e)
                    end
                end in
      match Unmarshal b with
      | Ok st => ok (Some st)
      | Err e => failed (wrapf "snapshot %s: %w" e)
      end
  end.

Definition DeleteSnapshot (x : string) : Prog (result unit) := call (SnapPurge x).
End EventLog.
