(* ===== verification/Loader.v ===== *)
(** * Loading executions ([internal/loader/loader.go])

    A state is rebuilt from a snapshot and the tail of the log, from the log
    alone, or from the archived segments of a history that was continued as
    new. *)

From S2P Require Import Prelude Json Names Flow Event Cmd Reduce State Codec Server EventLog.

Section Loader.
Context (cfg : Config).

(** A state and its definition; the definition of a missing execution is nil. *)
Abbreviation Loaded := (State * option Flow)%type.

(** [snapshotFor]: any trouble with a snapshot only means not using it. *)
Definition snapshotFor (x : string) (upTo : Z) : Prog (option State) :=
  if negb (cf_Snaps cfg) then Ret None
  else
    let! r := LoadSnapshot x in
    Ret (match r with
         | Ok (Some st) => if (0 <? upTo) && (upTo <? s_LastSeq st) then None else Some st
         | _ => None
         end).

(** The loader's loop: apply, then remember the sequence. *)
Definition load_step (def : Flow) (st : State) (ev : FoldEvent) : result State :=
  let? st := Apply (Some def) st ev in Ok (set_LastSeq (ev_Seq ev) st).

Definition continues (x : string) (st : State) (evs : list FoldEvent) : Prog bool :=
  match evs with
  | ev :: _ => if negb (ev_Index ev =? 0) then Ret (ev_Index ev =? s_Events st + 1)
               else let! r := FirstSeq x in
                    Ret (match r with Ok first => negb (first =? 0) && (first <=? s_LastSeq st) | Err _ => false end)
  | [] => let! r := FirstSeq x in
          Ret (match r with Ok first => negb (first =? 0) && (first <=? s_LastSeq st) | Err _ => false end)
  end.

Definition bases (ev : FoldEvent) : bool :=
  match ev_Type ev with ExecutionStarted | ExecutionForked | ExecutionContinued => true | _ => false end.

(** [lastBase]: the events from the last one that bases a state, if there is one. *)
Fixpoint from_lastBase (evs : list FoldEvent) : option (list FoldEvent) :=
  match evs with
  | [] => None
  | ev :: evs' => match from_lastBase evs' with
                  | Some l => Some l
                  | None => if bases ev then Some evs else None
                  end
  end.

Definition defOfState (b : Encoded) : Prog (result Flow) :=
  try! st := lift (Unmarshal b) in call (FlowsGet (s_Flow st) (s_FlowHash st)).

Definition DefOf (first : FoldEvent) : Prog (result Flow) :=
  match ev_Data first with
  | DStarted d => call (FlowsGet (Started_Flow d) (Started_FlowHash d))
  | DForked d => defOfState (Forked_State d)
  | DContinued d => defOfState (Continued_State d)
  | _ => failed (plain (Sprintf "loader: log starts with %s" [AStr (type_string (ev_Type first))]))
  end.

(** ** Archives *)

Definition not_archived : error := Error [ErrNotArchived] "loader: execution is not archived".

Fixpoint unarchive (raw : list ArchivedEvent) : result (list FoldEvent) :=
  match raw with
  | [] => Ok []
  | r :: raw' =>
      let? ev := Decode (ar_Event r) in
      let? evs := unarchive raw' in
      Ok ({| ev_Type := ev_Type ev; ev_Version := ev_Version ev; ev_Time := ev_Time ev; ev_Index := ev_Index ev;
             ev_CmdID := ev_CmdID ev; ev_Trace := ev_Trace ev; ev_Data := ev_Data ev; ev_Seq := ar_Seq r;
             ev_DecisionEnd := ar_DecisionEnd r |} :: evs)
  end.

Definition ArchiveObject (name : string) : Prog (result (list FoldEvent)) :=
  let! r := call (ArchGet name) in
  match r with
  | NotThere => failed not_archived
  | GetError e => failed e
  | Got raw => lift (unarchive raw)
  end.

Definition Archived (x : string) : Prog (result (list FoldEvent)) := ArchiveObject x.

Definition SegmentObject (x : string) (first : Z) : string := x +:+ ".seg." +:+ Itoa first.

Definition IsArchived (x : string) : Prog (result bool) :=
  let! r := call (ArchInfo x) in
  lift (match r with Got _ => Ok true | NotThere => Ok false | GetError e => Err e end).

(** The events from the last continuation on, and that continuation. *)
Fixpoint from_lastContinued (evs : list FoldEvent) : option (FoldEvent * list FoldEvent) :=
  match evs with
  | [] => None
  | ev :: evs' => match from_lastContinued evs' with
                  | Some r => Some r
                  | None => if bool_decide (ev_Type ev = ExecutionContinued) then Some (ev, evs) else None
                  end
  end.

Fixpoint segment_events (segs : list Segment) : Prog (result (list FoldEvent)) :=
  match segs with
  | [] => ok []
  | seg :: segs' =>
      let! part := ArchiveObject (Segment_Object seg) in
      match part with
      | Err e => failed (wrapf "loader: history segment %s: %w" e)
      | Ok part => try! rest := segment_events segs' in ok (part ++ rest)
      end
  end.

Definition withSegments (evs : list FoldEvent) : Prog (result (list FoldEvent)) :=
  match from_lastContinued evs with
  | None => ok evs
  | Some (ev, tail) =>
      match ev_Data ev with
      | DContinued d =>
          try! st := lift (Unmarshal (Continued_State d)) in
          try! out := segment_events (s_Segments st) in
          ok (out ++ tail)
      | _ => failed (plain "loader: ExecutionContinued without payload")
      end
  end.

(** The events of a log up to a sequence. *)
Fixpoint up_to (upTo : Z) (evs : list FoldEvent) : list FoldEvent :=
  match evs with
  | [] => []
  | ev :: evs' => if (0 <? upTo) && (upTo <? ev_Seq ev) then [] else ev :: up_to upTo evs'
  end.

Definition foldUpTo (x : string) (evs : list FoldEvent) (upTo : Z) : Prog (result Loaded) :=
  match evs with
  | [] => ok (NewState x, None)
  | first :: _ =>
      try! def := DefOf first in
      try! st := lift (res_fold (load_step def) (NewState x) (up_to upTo evs)) in
      ok (st, Some def)
  end.

Definition LoadArchived (x : string) (upTo : Z) : Prog (result Loaded) :=
  try! evs := Archived x in
  match evs with
  | [] => failed not_archived
  | first :: _ =>
      try! evs := (if (0 <? upTo) && (upTo <? ev_Seq first) then withSegments evs else ok evs) in
      foldUpTo x evs upTo
  end.

Definition History (x : string) : Prog (result (list FoldEvent)) :=
  try! evs := Read cfg x 1 0 in
  try! evs := (match evs with [] => Archived x | _ => ok evs end) in
  withSegments evs.

(** ** Loading *)

Definition loadFromHistory (x : string) (upTo : Z) : Prog (result Loaded) :=
  try! live := Read cfg x 1 0 in
  match live with
  | [] => ok (NewState x, None)
  | _ => try! evs := withSegments live in foldUpTo x evs upTo
  end.

(** The end of [Load]: the definition, then the events on the state. *)
Definition load_fold (x : string) (st : option State) (evs : list FoldEvent) : Prog (result Loaded) :=
  try! def := match st, evs with
              | Some st, _ => call (FlowsGet (s_Flow st) (s_FlowHash st))
              | None, first :: _ => DefOf first
              | None, [] => failed (Panic "index out of range")
              end in
  try! st := lift (res_fold (load_step def) (default (NewState x) st) evs) in
  ok (st, Some def).

Definition Load (x : string) (upTo : Z) : Prog (result Loaded) :=
  let! st := snapshotFor x upTo in
  try! evs := Read cfg x (match st with Some st => s_LastSeq st + 1 | None => 1 end) upTo in
  try! (st, evs) :=
    match st with
    | None => ok (None, evs)
    | Some s =>
        let! cont := continues x s evs in
        if (cont : bool) then ok (Some s, evs) else try! evs := Read cfg x 1 upTo in ok (None, evs)
    end in
  if bool_decide (st = None) && bool_decide (evs = []) then
    if 0 <? upTo then loadFromHistory x upTo else ok (NewState x, None)
  else
    match from_lastBase evs with
    | Some evs => load_fold x None evs
    | None => match st with
              | None => loadFromHistory x upTo
              | Some _ => load_fold x st evs
              end
    end.
End Loader.
