(* ===== verification/Dispatch.v ===== *)
(** * The dispatcher ([internal/dispatch/dispatch.go], [quarantine.go])

    Turns the events of the log into effects: jobs for workers, timers, child
    executions, the notification of a parent, cached results, the index.  The
    events of one decision are handled together; an execution whose events can
    never be handled is quarantined, and its events are skipped until it is
    released, except the one that ends it. *)

From S2P Require Import Prelude Json Hash GoStrings Names Flow Event Cmd CmdCodec Reduce State View Wire Codec.
From S2P Require Import Server Projection Sending EventLog Loader.

Definition retryFirst : Z := Second.
Definition retryCap : Z := 30 * Second.
Definition notFoundGrace : Z := 3.
Definition maxHeads : Z := 1024.
Definition ctlQuarantine : string := "quarantine".
Definition ctlRelease : string := "release".

(** A delivered message of the events stream: its metadata, if it can be read,
    are the delivery count and the stream sequence. *)
Record EvDelivery := { ed_Subject : string; ed_Msg : Msg; ed_Metadata : option (Z * Z) }.

Definition ev_delivered (m : EvDelivery) : Z := match ed_Metadata m with Some (n, _) => n | None => 0 end.
Definition ev_sequence (m : EvDelivery) : Z := match ed_Metadata m with Some (_, s) => s | None => 0 end.

Definition backoff (delivered : Z) : Z :=
  Z.min (Z.shiftl retryFirst (Z.min (Z.max delivered 1 - 1) 5)) retryCap.

(** [execOf]: what follows the last dot of a subject. *)
Definition execOf (subject : string) : string := lastToken subject.

(** ** Which failures are final *)

Definition Deterministic (e : error) : bool :=
  errors_is e ErrUndecodable || errors_is e ErrApply || errors_is e ErrInvalid || errors_is e ErrUnknownFlow ||
  errors_is e ErrObjectNotFound || errors_is e ErrBadRequest.

Definition quarantinable (e : error) (delivered : Z) : bool :=
  if errors_is e ErrObjectNotFound || errors_is e ErrUnknownFlow then notFoundGrace <=? delivered else Deterministic e.

(** ** The dispatcher's own memory *)

(** Heads of logs, while the dispatcher is behind them. *)
Abbreviation Heads := (gmap string Head).

Definition live (h : Head) (s : Scheduled) : bool :=
  negb (Terminal (s_Status (hd_st h))) &&
  match s_Tasks (hd_st h) !! Scheduled_Key s with
  | None => false
  | Some t => (t_Generation t =? Scheduled_Generation s) && (t_Attempt t =? Scheduled_Attempt s) &&
              bool_decide (t_Status t = TaskScheduled)
  end.

Definition headView (x : string) (seq : Z) (hs : Heads) : option Head * Heads :=
  match hs !! x with
  | Some h => if hd_seq h <? seq then (None, delete x hs) else (Some h, hs)
  | None => (None, delete x hs)
  end.
Definition putHead (x : string) (h : Head) (hs : Heads) : Heads :=
  <[x := h]> (if maxHeads <=? Z.of_nat (size hs) then ∅ else hs).
Definition dropHead (x : string) (hs : Heads) : Heads := delete x hs.

(** The executions whose events are skipped. *)
Definition markQuarantined (x : string) (q : gset string) : gset string := {[x]} ∪ q.
Definition unmarkQuarantined (x : string) (q : gset string) : gset string := q ∖ {[x]}.
Definition isQuarantined (x : string) (q : gset string) : bool := bool_decide (x ∈ q).

(** ** Stop notices *)

Definition stop_of_task (t : Task) : StopTask :=
  {| sk_Key := t_Key t; sk_Generation := t_Generation t; sk_Attempt := t_Attempt t |}.
Definition add_stop (t : StopTask) (stop : Stop) : Stop :=
  {| sp_ExecID := sp_ExecID stop; sp_All := sp_All stop; sp_Tasks := sp_Tasks stop ++ [t] |}.

(** [stopsOf], on the state before the event. *)
Definition stopsOf (st : State) (ev : FoldEvent) (stop : Stop) : Stop :=
  match ev_Data ev with
  | DCompleted _ | DFailed _ | DCancelled _ =>
      if bool_decide (map_Exists (fun _ t => t_Status t = TaskScheduled) (s_Tasks st))
      then {| sp_ExecID := sp_ExecID stop; sp_All := true; sp_Tasks := sp_Tasks stop |} else stop
  | DNodeCancel d =>
      match s_Tasks st !! NodeCancel_Key d with
      | Some t => if bool_decide (t_Status t = TaskScheduled) then add_stop (stop_of_task t) stop else stop
      | None => stop
      end
  | DNodeFail d =>
      if String.eqb (NodeFail_Reason d) ReasonTimeout
      then add_stop {| sk_Key := NodeFail_Key d; sk_Generation := NodeFail_Generation d; sk_Attempt := NodeFail_Attempt d |} stop
      else stop
  | _ => stop
  end.

(** [publishStop]: best effort. *)
Definition publishStop (stop : Stop) : Prog unit :=
  if negb (sp_All stop) && bool_decide (sp_Tasks stop = []) then Ret tt
  else let! _ := call (Perform (PublishStop stop)) in Ret tt.

Section Dispatch.
Context `{Evaluator}.
(** The bytes [json.Marshal] writes for a value. *)
Context (json_text : Json -> string).
Context (cfg : Config).

(** ** Jobs *)

Definition tokenHash (s : string) : string := hex (take 8 (sha256 (bytes_of s))).

(** The members of the struct [CacheKey] hashes. *)
Definition cache_identity (flowHash node : string) (v : Context_) : Json :=
  object [
    ("F", text flowHash); ("N", text node); ("I", Some (marshal_raw (cx_Input v)));
    ("C", raws (cx_Channels v)); ("R", raws (cx_Results v)); ("S", raws (cx_Signals v));
    ("It", Some (marshal_raw (cx_Item v))); ("Re", Some (marshal_raw (cx_Resume v)));
    ("Idx", Some (match cx_Index v with Some i => JNum (NInt i) | None => JNull end));
    ("In", cx_Interrupt v); ("By", text_omitempty (cx_ResumedBy v))].

Definition CacheKey (flowHash node : string) (v : Context_) : string :=
  hex (take 16 (sha256 (bytes_of (json_text (cache_identity flowHash node v))))).

Definition CmdSubjectOf (x : string) : result string :=
  let? p := Partition x (cf_Partitions cfg) in Ok (CmdSubject (cf_Names cfg) p x).

(** [json.Marshal] of a view. *)
Definition marshal_view (v : Context_) : result Context_ :=
  if bool_decide (map_Forall (fun _ f => f_finite f = true) (cx_Counters v)) then Ok v
  else Err (plain "json: unsupported value").

Definition publishJob (j : Job) : Prog (result unit) :=
  try! blob := offload_object cfg (jb_ExecID j) (OJob j) in
  let! r := call (Perform (PublishJob j (JobMsgID (jb_ExecID j) (jb_Key j) (jb_Generation j) (jb_Attempt j)) blob)) in
  lift (annotate "dispatch: publish job: %w" r).

(** [endedAtHead]: the attempt is over at the head of the log. *)
Definition endedAtHead (x : string) (seq : Z) (s : Scheduled) : Prog (result bool) :=
  let! hv := call (HeadView x seq) in
  match hv with
  | Some h => ok (negb (live h s))
  | None =>
      let! r := LastSeq x in
      match r with
      | Err e => let! _ := call (HeadDrop x) in failed e
      | Ok last =>
          if last <=? seq then let! _ := call (HeadDrop x) in ok false
          else
            try! (st, _) := Load cfg x 0 in
            let h := {| hd_seq := s_LastSeq st; hd_st := st |} in
            let! _ := call (HeadPut x h) in
            ok (negb (live h s))
      end
  end.

(** The completion a cached result stands for. *)
Definition cached_payload (j : Job) (ce : CacheEntry) : CmdPayload :=
  PComplete {|
    CompleteData_TaskRef := {| ref_Key := jb_Key j; ref_Generation := jb_Generation j; ref_Attempt := jb_Attempt j |};
    CompleteData_Output := ce_Output ce; CompleteData_Writes := ce_Writes ce; CompleteData_Next := ce_Next ce;
    CompleteData_Usage := ce_Usage ce; CompleteData_CacheKey := jb_CacheKey j; CompleteData_Cached := true |}.

Definition cachedResult (j : Job) : Prog (result bool) :=
  try! _ := call (Perform OpenResults) in
  let! entry := call (ResultGet (jb_CacheKey j)) in
  match entry with
  | Got (Some ce) =>
      let! now := call Now in
      if ce_Expires ce <? now then ok false
      else
        try! c := lift (New (CmdID (jb_ExecID j) (jb_Key j) (jb_Generation j) (jb_Attempt j)) CComplete (jb_ExecID j)
                          (Some (cached_payload j ce))) in
        try! _ := PublishCmd cfg c (jb_Traceparent j) in
        ok true
  | _ => ok false
  end.

(** The concurrency limit of a job: an expression that fails, or gives null, sets none. *)
Definition job_concurrency (n : Node) (nodeID : string) (env : VEnv) : result (option JobConcurrency) :=
  match ConcurrencyProgram n with
  | None => Ok None
  | Some p =>
      match eval p env with
      | inl _ | inr JNull => Ok None
      | inr v =>
          let? c := deref (n_Concurrency n) in
          Ok (Some {| jc_Key := nodeID +:+ "." +:+ tokenHash (render (Sprintf "%v" [AJson v])); jc_Max := co_Max c |})
      end
  end.

(** The job of an attempt, before its cache key and its limit. *)
Definition job_of (st : State) (ev : FoldEvent) (s : Scheduled) (view : Context_) (n : Node) (reply : string) : Job := {|
  jb_ExecID := s_ExecID st; jb_Flow := s_Flow st; jb_FlowHash := s_FlowHash st; jb_Node := Scheduled_Node s;
  jb_Kind := Scheduled_Kind s; jb_Key := Scheduled_Key s; jb_Index := Scheduled_Index s;
  jb_Generation := Scheduled_Generation s; jb_Attempt := Scheduled_Attempt s; jb_Context := Some view;
  jb_Meta := MetaJSON n; jb_Reply := reply; jb_CacheKey := ""; jb_Concurrency := None; jb_Traceparent := ev_Trace ev |}.

(** The end of [job]: a cached result, or a job. *)
Definition job_for (n : Node) (env : VEnv) (view : Context_) (j : Job) : Prog (result unit) :=
  let cached := bool_decide (is_Some (n_Cache n)) in
  let j := if cached then set_jb_CacheKey (CacheKey (jb_FlowHash j) (jb_Node j) view) j else j in
  try! hit := (if cached then cachedResult j else ok false) in
  if (hit : bool) then ok tt
  else
    try! limit := lift (job_concurrency n (jb_Node j) env) in
    publishJob (set_jb_Concurrency limit j).

Definition job (ent : Entry) (ev : FoldEvent) (s : Scheduled) : Prog (result unit) :=
  let st := en_State ent in
  match s_Tasks st !! Scheduled_Key s with
  | None => ok tt
  | Some t =>
      if negb (t_Generation t =? Scheduled_Generation s) || negb (t_Attempt t =? Scheduled_Attempt s) then ok tt
      else
        try! over := endedAtHead (s_ExecID st) (ev_Seq ev) s in
        if (over : bool) then ok tt
        else
          try! view := lift (marshal_view (ContextView st (Some t))) in
          try! def := lift (deref (en_Def ent)) in
          try! n := lift (deref (node def (Scheduled_Node s))) in
          try! reply := lift (CmdSubjectOf (s_ExecID st)) in
          job_for n (Env st (Some t)) view (job_of st ev s view n reply)
  end.

(** [storeCache]: a failed write only costs a later miss. *)
Definition storeCache (def : option Flow) (done : NodeDone) : Prog (result unit) :=
  if String.eqb (NodeDone_CacheKey done) "" || NodeDone_Cached done then ok tt
  else
    try! def := lift (deref def) in
    match node def (NodeDone_Node done) with
    | None => ok tt
    | Some n =>
        match n_Cache n with
        | None => ok tt
        | Some c =>
            let! now := call Now in
            try! _ := lift (floats_omitempty (NodeDone_Usage done)) in
            try! _ := call (Perform OpenResults) in
            let! _ := call (Perform (ResultPut (NodeDone_CacheKey done) {|
              ce_Output := NodeDone_Output done; ce_Writes := NodeDone_Writes done; ce_Next := NodeDone_Next done;
              ce_Usage := NodeDone_Usage done; ce_Expires := now + ca_TTL c |})) in
            ok tt
        end
    end.

(** ** Timers *)

Definition schedule (x timerID : string) (at_ : Z) (c : Command) : Prog (result unit) :=
  let! r := ScheduleCmd x timerID at_ c in
  lift (annotate "dispatch: schedule timer: %w" r).

Definition timer (x : string) (t : Timer) : Prog (result unit) :=
  try! c := lift (New ("timer." +:+ x +:+ "." +:+ Timer_ID t) CTimer x (Some (PTimer {| TimerData_TimerID := Timer_ID t |}))) in
  schedule x (Timer_ID t) (Timer_At t) c.

(** ** Children and termination *)

Definition startChild (st : State) (ev : FoldEvent) (c : Child) : Prog (result unit) :=
  try! start := lift (New ("start." +:+ Child_ChildID c) CStart (Child_ChildID c) (Some (PStart {|
    StartData_Flow := Child_Flow c; StartData_Version := ""; StartData_Input := Child_Input c;
    StartData_Parent := Some {| pr_ExecID := s_ExecID st; pr_Node := Child_Node c; pr_ChildN := Child_ChildN c |} |}))) in
  PublishCmd cfg start (ev_Trace ev).

Definition cancelChildren (children : list string) (reason trace : string) : Prog (result unit) :=
  for_each children (fun child =>
    try! c := lift (New ("parent-closed." +:+ child) CCancel child (Some (PCancel {| CancelData_Reason := reason |}))) in
    PublishCmd cfg c trace).

(** [purgeTimers]: best effort. *)
Definition purgeTimers (x : string) : Prog unit :=
  let! _ := call (Perform (PurgeTimers x)) in Ret tt.

Definition notifyParent (st : State) (trace : string) : Prog (result unit) :=
  match s_Parent st with
  | None => ok tt
  | Some p =>
      try! c := lift (New ("child-done." +:+ s_ExecID st) CChildDone (pr_ExecID p) (Some (PChildDone {|
        ChildDoneData_ChildID := s_ExecID st; ChildDoneData_Status := status_string (s_Status st);
        ChildDoneData_Output := s_Output st; ChildDoneData_Error := render (s_Error st);
        ChildDoneData_Counters := s_Counters st |}))) in
      PublishCmd cfg c trace
  end.

(** The expiry of an execution: archived, or deleted when the flow says so. *)
Definition scheduleExpiry (x : string) (def : Flow) (at_ : Z) : Prog (result unit) :=
  let delete := DeletesOnExpire def in
  let name := if delete then "delete" else "archive" in
  try! c := lift (New (name +:+ "." +:+ x) (if delete then CDelete else CArchive) x None) in
  schedule x TimerExpire at_ c.

Definition children_of (ev : FoldEvent) : list string :=
  match ev_Data ev with
  | DFailed d => Failed_CancelChildren d
  | DCancelled d => Cancelled_CancelChildren d
  | _ => []
  end.

Definition terminal (ent : Entry) (ev : FoldEvent) : Prog (result unit) :=
  let st := en_State ent in
  try! _ := cancelChildren (children_of ev) "parent closed" (ev_Trace ev) in
  try! _ := notifyParent st (ev_Trace ev) in
  let! _ := purgeTimers (s_ExecID st) in
  match en_Def ent with
  | None => ok tt
  | Some def => if 0 <? f_Retention def then scheduleExpiry (s_ExecID st) def (ev_Time ev + f_Retention def) else ok tt
  end.

(** ** The effects of an event *)

Definition effects (ent : Entry) (ev : FoldEvent) : Prog (result unit) :=
  match ev_Data ev with
  | DScheduled s => job ent ev s
  | DTimer t => timer (s_ExecID (en_State ent)) t
  | DChild c => startChild (en_State ent) ev c
  | DNodeDone d => storeCache (en_Def ent) d
  | DJoin d => cancelChildren (Join_CancelChildren d) "join settled" (ev_Trace ev)
  | DMapAbort d => cancelChildren (MapAbort_CancelChildren d) "map aborted" (ev_Trace ev)
  | DCompleted _ | DFailed _ | DCancelled _ => terminal ent ev
  | _ => ok tt
  end.

(** ** Decisions *)

(** [stateBefore]: the state before a decision; none when the execution was
    archived meanwhile. *)
Definition stateBefore (cached : option Entry) (x : string) (ev : FoldEvent) : Prog (result (option Entry)) :=
  let current := match cached with
                 | Some ent => if (s_Events (en_State ent) =? ev_Index ev - 1) && (s_LastSeq (en_State ent) <? ev_Seq ev)
                               then Some ent else None
                 | None => None
                 end in
  match current with
  | Some ent => ok (Some ent)
  | None =>
      if bool_decide (ev_Type ev = ExecutionContinued) then
        try! def := DefOf ev in ok (Some {| en_State := NewState x; en_Def := Some def |})
      else
        try! (st, def) := (if negb (ev_Index ev =? 1) then Load cfg x (ev_Seq ev - 1) else ok (NewState x, None)) in
        match def with
        | Some _ => ok (Some {| en_State := st; en_Def := def |})
        | None =>
            if negb (bool_decide (ev_Type ev = ExecutionStarted)) && negb (bool_decide (ev_Type ev = ExecutionForked))
            then ok None
            else try! def := DefOf ev in ok (Some {| en_State := st; en_Def := Some def |})
        end
  end.

(** The loop of [applyDecision]: each event is folded into the state, then its
    effects are run. *)
Fixpoint apply_events (ent : Entry) (stop : Stop) (evs : list FoldEvent) : Prog (result (Entry * Stop)) :=
  match evs with
  | [] => ok (ent, stop)
  | ev :: evs' =>
      let stop := stopsOf (en_State ent) ev stop in
      try! st := lift (Apply (en_Def ent) (en_State ent) ev) in
      let ent := {| en_State := set_LastSeq (ev_Seq ev) st; en_Def := en_Def ent |} in
      try! _ := effects ent ev in
      apply_events ent stop evs'
  end.

(** A decision that was handled: the entry after it, what it stops, and what the
    index has to know of the state before it. *)
Record Handled := { hn_Entry : Entry; hn_Stop : Stop; hn_Created : bool; hn_Prev : Status }.

Definition handle_events (cached : option Entry) (x : string) (evs : list FoldEvent) : Prog (result (option Handled)) :=
  match evs with
  | [] => failed (Panic "index out of range")
  | first :: _ =>
      try! before := stateBefore cached x first in
      match before with
      | None => ok None
      | Some ent =>
          let prev := s_Status (en_State ent) in
          let created := negb (Exists (en_State ent)) in
          try! (ent, stop) := apply_events ent {| sp_ExecID := x; sp_All := false; sp_Tasks := [] |} evs in
          ok (Some {| hn_Entry := ent; hn_Stop := stop; hn_Created := created; hn_Prev := prev |})
      end
  end.

(** The end of [applyDecision]. *)
Definition finish (h : Handled) : Prog (result unit) :=
  let! _ := publishStop (hn_Stop h) in
  IndexFrom (en_State (hn_Entry h)) (hn_Created h) (hn_Prev h).

(** [applyDecision] on the dispatcher's cache.  States are folded in place; the
    entry is stored or dropped before anyone else looks it up. *)
Definition applyDecision (x : string) (evs : list FoldEvent) : Prog (result unit) :=
  let! cached := call (CacheGet x) in
  let! r := handle_events cached x evs in
  match r with
  | Err e => let! _ := call (CacheDrop x) in failed e
  | Ok None => ok tt
  | Ok (Some h) =>
      let! _ := call (CachePut x (hn_Entry h)) in
      finish h
  end.

(** [applyDecision] on the cache of a replay, which holds this execution only. *)
Definition replayDecision (cache : option Entry) (x : string) (evs : list FoldEvent) : Prog (option Entry * result unit) :=
  let! r := handle_events cache x evs in
  match r with
  | Err e => Ret (None, Err e)
  | Ok None => Ret (cache, Ok tt)
  | Ok (Some h) => let! r := finish h in Ret (Some (hn_Entry h), r)
  end.

(** [Log.Decode], [Log.DecodeEach] of a delivered message. *)
Definition no_metadata : error := plain "nats: message was not a JetStream message".
Definition decode_delivery (m : EvDelivery) : Prog (result (list FoldEvent)) :=
  match ed_Metadata m with None => failed no_metadata | Some (_, seq) => decode_message (ed_Msg m) seq end.
Definition decode_each (m : EvDelivery) : Prog (result (list FoldEvent)) :=
  match ed_Metadata m with None => failed no_metadata | Some (_, seq) => DecodeEach (ed_Msg m) seq end.

Definition process (m : EvDelivery) : Prog (result unit) :=
  try! evs := decode_delivery m in
  applyDecision (execOf (ed_Subject m)) evs.

(** ** Quarantine *)

Definition skip (x : string) : Prog (result bool) :=
  let! marked := call (QuarantineHas x) in
  if negb (marked : bool) then ok false
  else
    try! q := IsQuarantined x in
    let! _ := (if (q : bool) then Ret tt
               else let! _ := call (QuarantineSet x false) in call (CacheDrop x)) in
    ok q.

(** [dispatch.Quarantine]. *)
Definition Quarantine (x : string) (seq : Z) (reason : Text) : Prog (result unit) :=
  try! _ := Projection.Quarantine x seq reason in
  call (Perform (Broadcast ctlQuarantine x)).

Definition quarantine (m : EvDelivery) (x : string) (cause : error) : Prog (result unit) :=
  let seq := ev_sequence m in
  let reason := Sprintf "event %d: %v" [AInt seq; AText (error_text cause)] in
  let d := {| dl_Kind := DLQDispatch; dl_Key := x; dl_Flow := ""; dl_Reason := reason; dl_Deliveries := ev_delivered m;
              dl_Subject := ed_Subject m |} in
  try! _ := call (PublishDLQ d ("dispatch." +:+ Itoa seq)) in
  try! _ := Quarantine x seq reason in
  let! _ := call (QuarantineSet x true) in
  let! _ := call (CacheDrop x) in
  ok tt.

Definition isTerminal (ev : FoldEvent) : bool :=
  match ev_Data ev with DCompleted _ | DFailed _ | DCancelled _ => true | _ => false end.

(** [stateBeforeMark]. *)
Definition stateBeforeMark (x : string) : Prog (result (option (State * option Flow))) :=
  try! mark := Mark x in
  match mark with
  | None => ok None
  | Some m =>
      if qm_Seq m <=? 1 then ok None
      else
        let! r := Load cfg x (qm_Seq m - 1) in
        ok (match r with
            | Ok (st, def) => if Exists st then Some (st, def) else None
            | Err _ => None
            end)
  end.

(** What is kept of a terminal event. *)
Definition close_state (st : State) (ev : FoldEvent) : State :=
  match ev_Data ev with
  | DCompleted d => set_Output (Completed_Output d) (set_Status StatusCompleted st)
  | DFailed d => set_Reason (Failed_Reason d) (set_Error (Failed_Error d) (set_Status StatusFailed st))
  | DCancelled d => set_Reason (Cancelled_Reason d) (set_Status StatusCancelled st)
  | _ => st
  end.

Definition closeWith (x : string) (st : State) (def : option Flow) (ev : FoldEvent) : Prog (result unit) :=
  let st := close_state st ev in
  try! _ := terminal {| en_State := st; en_Def := def |} ev in
  SetTerminal x (s_Status st) (s_Reason st) (s_Error st) (ev_Time ev).

(** What the first event of a log says of an execution. *)
Definition opening_state (st : State) (ev : FoldEvent) : State :=
  match ev_Data ev with
  | DStarted d => set_Flow (Started_Flow d) (set_Parent (Started_Parent d) st)
  | DForked d => match Unmarshal (Forked_State d) with
                 | Ok src => set_Flow (s_Flow src) (set_Parent (s_Parent src) st)
                 | Err _ => st
                 end
  | _ => st
  end.

Definition closeQuarantined (x : string) (ev : FoldEvent) : Prog (result unit) :=
  try! known := stateBeforeMark x in
  match known with
  | Some (st, def) => closeWith x st def ev
  | None =>
      try! (st, def) := ScanDecisions cfg (fun acc evs =>
          match evs with
          | [] => Ret (acc, true)
          | first :: _ =>
              let! r := DefOf first in
              Ret ((opening_state (fst acc) first, match r with Ok def => Some def | Err _ => None end), false)
          end) x 1 (NewState x, None) in
      closeWith x st def ev
  end.

Definition handleQuarantined (m : EvDelivery) (x : string) : Prog unit :=
  let! r := decode_each m in
  match r with
  | Err e => if quarantinable e (ev_delivered m) then call Ack else call (NakWithDelay (backoff (ev_delivered m)))
  | Ok evs =>
      match List.find isTerminal evs with
      | None => call Ack
      | Some ev =>
          let! r := closeQuarantined x ev in
          match r with
          | Ok _ => call Ack
          | Err _ => call (NakWithDelay (backoff (ev_delivered m)))
          end
      end
  end.

(** ** Handling a message *)

Definition handle (m : EvDelivery) : Prog unit :=
  let x := execOf (ed_Subject m) in
  let! r := skip x in
  match r with
  | Err _ => call (NakWithDelay retryFirst)
  | Ok true => handleQuarantined m x
  | Ok false =>
      let! r := process m in
      match r with
      | Ok _ => call Ack
      | Err e =>
          let! q := IsQuarantined x in
          match q with
          | Ok true =>
              let! _ := call (QuarantineSet x true) in
              handleQuarantined m x
          | _ =>
              let! done := (if quarantinable e (ev_delivered m) then
                              let! r := quarantine m x e in Ret (match r with Ok _ => true | Err _ => false end)
                            else Ret false) in
              if (done : bool) then call Ack else call (NakWithDelay (backoff (ev_delivered m)))
          end
      end
  end.

(** ** Releasing an execution *)

Record Replayed := { ry_Cache : option Entry; ry_Last : Z; ry_Error : result unit }.

Definition replayFrom (cache : option Entry) (x : string) (from : Z) : Prog (Replayed * result unit) :=
  let start := {| ry_Cache := cache; ry_Last := from - 1; ry_Error := Ok tt |} in
  let! r := ScanDecisions cfg (fun acc evs =>
      let! (cache, r) := replayDecision (ry_Cache acc) x evs in
      Ret (match r with
           | Err _ => ({| ry_Cache := cache; ry_Last := ry_Last acc; ry_Error := r |}, false)
           | Ok _ => ({| ry_Cache := cache; ry_Last := match evs with ev :: _ => ev_Seq ev | [] => ry_Last acc end;
                         ry_Error := Ok tt |}, true)
           end)) x from start in
  Ret (match r with
       | Ok acc => (acc, ry_Error acc)
       | Err e => (start, Err e)
       end).

Definition Replay (x : string) : Prog (result unit) :=
  try! mark := Mark x in
  match mark with
  | None => ok tt
  | Some m =>
      let! _ := call (CacheDrop x) in
      let! (done, r) := replayFrom None x (Z.max (qm_Seq m) 1) in
      match r with
      | Err e => failed (wrapf "dispatch: replay %s: %w" e)
      | Ok _ =>
          try! _ := Unquarantine x in
          try! _ := call (Perform (Broadcast ctlRelease x)) in
          let! _ := call (QuarantineSet x false) in
          let! (_, r) := replayFrom (ry_Cache done) x (ry_Last done + 1) in
          lift r
      end
  end.

(** [loadQuarantined]: what is marked when a partition starts is skipped. *)
Fixpoint mark_all (ids : list string) : Prog unit :=
  match ids with
  | [] => Ret tt
  | x :: ids' => let! _ := call (QuarantineSet x true) in mark_all ids'
  end.
Definition loadQuarantined : Prog unit :=
  let! r := Quarantined in
  match r with Err _ => Ret tt | Ok ids => mark_all ids end.

(** What a control notice does ([WatchControl]). *)
Definition on_control (kind x : string) : Prog unit :=
  let! _ := call (QuarantineSet x (String.eqb kind ctlQuarantine)) in
  call (CacheDrop x).
End Dispatch.
