(* ===== verification/Engine.v ===== *)
(** * The engine ([internal/engine/engine.go])

    For every command: load the state (cache, or snapshot and log), decide,
    append the events with optimistic concurrency, keep the state, answer and
    settle the message.  Logging and metrics are left out. *)

From S2P Require Import Prelude Json Hash Names Expr Flow Event Cmd CmdCodec Reduce State View Wire Decide Codec.
From S2P Require Import Server Projection Sending EventLog Loader.

(** ** Constants *)

Definition maxConflicts : nat := 8.
Definition nakDelay : Z := Second.
Definition maxNakDelay : Z := 30 * Second.
Definition maxDeliver : Z := 64.
Definition deadLetterSpare : Z := 8.
Definition notFoundGrace : Z := 3.

(** [infra.ProtocolVersion], [infra.DedupWindow]. *)
Definition ProtocolVersion : string := "1".
Definition DedupWindow : Z := 10 * 60 * Second.

(** [retryDelay]: 1s, 2s, 4s ... 30s. *)
Definition retryDelay (delivered : Z) : Z :=
  let shift := Z.min (Z.max delivered 1 - 1) 5 in
  Z.min (Z.shiftl nakDelay shift) maxNakDelay.

(** [isNotFound]: what a lagging replica can answer for something just written. *)
Definition isNotFound (e : error) : bool :=
  errors_is e ErrUnknownFlow || errors_is e ErrObjectNotFound || errors_is e ErrNotFound.

(** [errors.Join]: the first error, matching the sentinels of all. *)
Fixpoint errors_join (rs : list (result unit)) : result unit :=
  match rs with
  | [] => Ok tt
  | Ok _ :: rs' => errors_join rs'
  | Err e :: rs' =>
      match e, errors_join rs' with
      | Error ks msg, Err (Error ks' msg') => Err (Error (ks ++ ks') (Sprintf "%s\n%s" [AText msg; AText msg']))
      | _, _ => Err e
      end
  end.

(** ** Replies and dead letters *)

Definition refusal (code : string) (e : Text) : Reply :=
  {| rp_OK := false; rp_Seq := 0; rp_Joined := false; rp_Code := code; rp_Error := e |}.
Definition success (seq : Z) (joined : bool) : Reply :=
  {| rp_OK := true; rp_Seq := seq; rp_Joined := joined; rp_Code := ""; rp_Error := TStr "" |}.

(** A delivered command message; [dv_Metadata] is the number of deliveries and
    the stream sequence. *)
Record Delivery := {
  dv_Protocol : string; dv_Trace : string; dv_Blob : string; dv_Data : CmdBytes;
  dv_Metadata : option (Z * Z); dv_Subject : string }.

Definition delivered (m : Delivery) : Z := match dv_Metadata m with Some (n, _) => n | None => 0 end.

(** [reply]: best effort. *)
Definition reply (c : Command) (r : Reply) : Prog unit :=
  if String.eqb (c_Reply c) "" then Ret tt
  else let! _ := call (SendReply (c_Reply c) r) in Ret tt.

(** [deadLetterAs]: record, then terminate; redeliver if the record fails. *)
Definition deadLetterAs (m : Delivery) (d : DeadLetter) (dedup : string) : Prog unit :=
  let d := {| dl_Kind := dl_Kind d; dl_Key := dl_Key d; dl_Flow := dl_Flow d; dl_Reason := dl_Reason d;
              dl_Deliveries := match dv_Metadata m with Some (n, _) => n | None => dl_Deliveries d end;
              dl_Subject := dv_Subject m |} in
  let! r := call (PublishDLQ d dedup) in
  match r with
  | Err _ => call (NakWithDelay nakDelay)
  | Ok _ => call Term
  end.

Definition deadLetter (m : Delivery) (x : string) (reason : Text) : Prog unit :=
  let seq := match dv_Metadata m with Some (_, s) => s | None => 0 end in
  deadLetterAs m {| dl_Kind := DLQCommand; dl_Key := x; dl_Flow := ""; dl_Reason := reason; dl_Deliveries := 0;
                    dl_Subject := "" |} ("cmd." +:+ Itoa seq).

(** [answer]: reply on success and on a rejection; a rejection that was answered
    ends the command. *)
Definition answer (c : Command) (r : result (Z * bool)) : Prog bool :=
  if String.eqb (c_Reply c) "" then Ret false
  else
    match r with
    | Ok (seq, appended) =>
        let! _ := reply c (success seq (bool_decide (c_Type c = CStart) && negb appended)) in Ret false
    | Err e =>
        if errors_is e ErrConflict then
          let! _ := reply c (refusal ReplyConflict (error_text e)) in Ret true
        else if errors_is e ErrInvalid then
          let! _ := reply c (refusal ReplyInvalid (error_text e)) in Ret true
        else if errors_is e ErrRejected then
          let! _ := reply c (refusal ReplyRejected (error_text e)) in Ret true
        else Ret false
    end.

(** [ackOrRetry]: settle the message by the outcome. *)
Definition ackOrRetry (m : Delivery) (c : Command) (r : option error) : Prog unit :=
  let n := delivered m in
  match r with
  | None => call Ack
  | Some e =>
      if errors_is e ErrRejected then call Ack
      else if isNotFound e && (n <? notFoundGrace) then call (NakWithDelay (retryDelay n))
      else if errors_is e ErrInvalid || errors_is e ErrUnknownFlow || errors_is e ErrObjectNotFound then
        let! _ := reply c (refusal ReplyFailed (error_text e)) in
        deadLetter m (c_ExecID c) (error_text e)
      else if errors_is e ErrNotFound then
        let! _ := reply c (refusal ReplyNotFound (error_text e)) in
        let! a := IsArchived (c_ExecID c) in
        match a with
        | Ok true => call Ack
        | _ => deadLetter m (c_ExecID c) (error_text e)
        end
      else if maxDeliver <=? n then
        let why := Sprintf "delivery attempts exhausted: %s" [AText (error_text e)] in
        let! _ := reply c (refusal ReplyFailed why) in
        deadLetter m (c_ExecID c) why
      else call (NakWithDelay (retryDelay n))
  end.

Section Engine.
Context `{Evaluator}.
Context (cfg : Config).

Definition maxEvents : Z := if 0 <? cf_MaxEvents cfg then cf_MaxEvents cfg else MaxEvents.

(** ** Deciding *)

Definition load (x : string) : Prog (result Entry) :=
  let! cached := call (CacheGet x) in
  match cached with
  | Some ent => ok ent
  | None => try! (st, def) := Load cfg x 0 in ok {| en_State := st; en_Def := def |}
  end.

(** What a decision gives: the events, the state after them, the definition. *)
Abbreviation Decided := (list FoldEvent * State * option Flow)%type.

Definition invalid_payload {A} (r : result A) : result A :=
  match r with Ok a => Ok a | Err e => Err (wrap ErrInvalid e) end.

Definition decideStart (st : State) (c : Command) (now : Z) : Prog (result Decided) :=
  try! p := lift (invalid_payload (Payload decode_StartData c)) in
  if Exists st then try! _ := lift (CheckJoin st (StartData_Flow p)) in ok ([], st, None)
  else
    try! archived := IsArchived (c_ExecID c) in
    if (archived : bool) then
      try! (old, _) := LoadArchived (c_ExecID c) 0 in
      try! _ := lift (CheckJoin old (StartData_Flow p)) in ok ([], st, None)
    else
      try! def := call (FlowsGet (StartData_Flow p) (StartData_Version p)) in
      try! (evs, st) := lift (Decide def st c now) in
      ok (evs, st, Some def).

Definition decideFork (st : State) (c : Command) (now : Z) : Prog (result Decided) :=
  if Exists st then ok ([], st, None)
  else
    try! p := lift (invalid_payload (Payload decode_ForkData c)) in
    let! r := Load cfg (ForkData_From p) (ForkData_Seq p) in
    let! r := match r with
              | Ok (src, _) => if Exists src then Ret r else LoadArchived (ForkData_From p) (ForkData_Seq p)
              | Err _ => Ret r
              end in
    match r with
    | Err e => if errors_is e ErrNotArchived then
                 failed (Error [ErrInvalid] (Sprintf "%w: fork source %s does not exist" [AStr (ForkData_From p)]))
               else failed e
    | Ok (src, def) =>
        try! def := lift (deref def) in
        try! (evs, st) :=
          lift (DecideFork def st src (ForkData_From p) (ForkData_Seq p) (c_ID c) (ForkData_Writes p) now) in
        ok (evs, st, Some def)
    end.

(** Every other command.  A missing execution has no definition; with one, an
    execution that exists always has it. *)
Definition decideOther (ent : Entry) (c : Command) (now : Z) : result Decided :=
  match en_Def ent with
  | Some def => let? (evs, st) := Decide def (en_State ent) c now in Ok (evs, st, Some def)
  | None => if Exists (en_State ent) then Err (Panic "nil pointer dereference")
            else Err (Error [ErrNotFound] (Sprintf "%s" [AStr (s_ExecID (en_State ent))]))
  end.

(** [decide]: the decided entry, the sequence the append expects, the events.
    The decision is made in place: an entry of the cache shares its state. *)
Definition decide (c : Command) : Prog (result (Entry * Z * list FoldEvent)) :=
  try! ent := load (c_ExecID c) in
  let expected := s_LastSeq (en_State ent) in
  let! now := call Now in
  try! (evs, st, def) :=
    match c_Type c with
    | CStart => decideStart (en_State ent) c now
    | CFork => decideFork (en_State ent) c now
    | _ => lift (decideOther ent c now)
    end in
  let! _ := call (CacheDecided (c_ExecID c) st) in
  ok ({| en_State := st; en_Def := def |}, expected, evs).

(** [abortTooLarge]: the failure of the execution instead of the decision. *)
Definition abortTooLarge (c : Command) (evs : list FoldEvent) : Prog (result (Entry * list FoldEvent)) :=
  let! _ := call (CacheDrop (c_ExecID c)) in
  try! ent := load (c_ExecID c) in
  let first := if Exists (en_State ent) then None else head evs in
  try! def :=
    match en_Def ent, first with
    | Some def, _ => ok def
    | None, Some ev => DefOf ev
    | None, None => failed (Panic "nil pointer dereference")
    end in
  let! now := call Now in
  try! (out, st) := lift (Abort def (en_State ent) first (c_ID c) ReasonDecisionTooLarge
    (Sprintf "command %s (%s) produced %d events, more than the %d a decision may append"
       [AStr (c_ID c); AInt (len evs); AInt maxEvents]) now) in
  ok ({| en_State := st; en_Def := Some def |}, out).

Definition fitDecision (c : Command) (ent : Entry) (evs : list FoldEvent) (trace : string)
  : Prog (result (Entry * list FoldEvent)) :=
  try! (ent, evs) := (if maxEvents <? len evs then abortTooLarge c evs else ok (ent, evs)) in
  ok (ent, set_Trace trace <$> evs).

(** ** After an append *)

(** [putArchive]: events as one object of the archive store. *)
Fixpoint archive_events (evs : list FoldEvent) : result (list ArchivedEvent) :=
  match evs with
  | [] => Ok []
  | ev :: evs' =>
      let? body := Encode ev in
      let? raw := archive_events evs' in
      Ok ({| ar_Seq := ev_Seq ev; ar_DecisionEnd := ev_DecisionEnd ev; ar_Event := body |} :: raw)
  end.

Definition putArchive (name : string) (evs : list FoldEvent) : Prog (result unit) :=
  try! raw := lift (archive_events evs) in
  let! r := call (ArchPut name raw) in
  lift (annotate "engine: archive %s: %w" r).

(** [dispatchedUpTo]: the ack floor of the dispatcher, 0 if unknown. *)
Definition dispatchedUpTo (x : string) : Prog (result Z) :=
  let! r := call (DispatchFloor x) in lift (seq_or_zero r).

(** The end of [continueAsNew]: the new state is kept, and what came before it is
    purged, as far as the dispatcher has processed it. *)
Definition keepContinued (x : string) (def : option Flow) (next : State) (seq : Z) : Prog (result unit) :=
  let! _ := call (CachePut x {| en_State := next; en_Def := def |}) in
  let! _ := SaveSnapshot cfg next in
  try! floor := dispatchedUpTo x in
  if floor =? 0 then ok tt else PurgeBefore x (Z.min seq (floor + 1)).

(** The middle of [continueAsNew]: decide on a copy and append. *)
Definition appendContinued (x : string) (ent : Entry) (segment : Segment) : Prog (result unit) :=
  let st := en_State ent in
  try! next := lift (Clone st) in
  let cmdID := "continue." +:+ x +:+ "." +:+ Itoa (s_Events st + 1) in
  let! now := call Now in
  try! def := lift (deref (en_Def ent)) in
  try! (out, next) := lift (Continue def next segment cmdID now) in
  if bool_decide (out = []) then ok tt
  else
    let! a := Append cfg x (s_LastSeq st) out in
    match a with
    | Err e => if errors_is e ErrAppendConflict then let! _ := call (CacheDrop x) in ok tt
               else failed e
    | Ok seq => keepContinued x (en_Def ent) (set_LastSeq seq next) seq
    end.

Definition continueAsNew (x : string) (ent : Entry) : Prog (result unit) :=
  let st := en_State ent in
  if Terminal (s_Status st) then ok tt
  else
    try! evs := Read cfg x 1 (s_LastSeq st) in
    match List.filter (fun ev => s_Base st <=? ev_Index ev) evs with
    | [] => ok tt
    | first :: rest =>
        let last := List.last rest first in
        let segment := {|
          Segment_Object := SegmentObject x (ev_Index first);
          Segment_FirstIndex := ev_Index first; Segment_LastIndex := ev_Index last;
          Segment_FirstSeq := ev_Seq first; Segment_LastSeq := ev_Seq last |} in
        try! _ := putArchive (Segment_Object segment) (first :: rest) in
        appendContinued x ent segment
    end.

(** [afterAppend]: failures are logged only. *)
Definition afterAppend (x : string) (ent : Entry) (before : Z) : Prog unit :=
  let st := en_State ent in
  let! _ := (if Due cfg before (s_Events st) then SaveSnapshot cfg st else ok tt) in
  let! _ := (if (0 <? cf_HistoryLimit cfg) && (cf_HistoryLimit cfg <=? s_Events st - s_Base st)
             then continueAsNew x ent else ok tt) in
  Ret tt.

(** [apply]: decide and append, again after a conflict. *)
Fixpoint apply_rounds (n : nat) (c : Command) (trace : string) : Prog (result (Z * bool)) :=
  let x := c_ExecID c in
  match n with
  | O => failed (plain (Sprintf "engine: %s: too many concurrent appends" [AStr x]))
  | S n =>
      let! r := decide c in
      match r with
      | Err e => let! _ := call (CacheDrop x) in failed e
      | Ok (ent, expected, evs) =>
          if bool_decide (evs = []) then ok (expected, false)
          else
            try! (ent, evs) := fitDecision c ent evs trace in
            let before := s_Events (en_State ent) - len evs in
            let! a := Append cfg x expected evs in
            match a with
            | Err e =>
                let! _ := call (CacheDrop x) in
                if errors_is e ErrAppendConflict then apply_rounds n c trace else failed e
            | Ok last =>
                let ent := {| en_State := set_LastSeq last (en_State ent); en_Def := en_Def ent |} in
                let! _ := call (CachePut x ent) in
                let! _ := afterAppend x ent before in
                ok (last, true)
            end
      end
  end.

Definition apply (c : Command) (trace : string) : Prog (result (Z * bool)) := apply_rounds maxConflicts c trace.

(** ** Archival and deletion *)

Definition scheduleArchiveExpiry (x : string) (def : option Flow) : Prog (result unit) :=
  match def with
  | None => ok tt
  | Some f => if f_ArchiveRetention f <=? 0 then ok tt
              else
                try! c := lift (CmdCodec.New ("delete." +:+ x) CDelete x None) in
                let! now := call Now in
                ScheduleCmd x TimerDelete (now + f_ArchiveRetention f) c
  end.

Definition Archive (x : string) : Prog (result unit) :=
  try! (st, def) := Load cfg x 0 in
  if negb (Exists st) || negb (Terminal (s_Status st)) then ok tt
  else
    try! evs := Read cfg x 1 0 in
    try! _ := putArchive x evs in
    try! _ := scheduleArchiveExpiry x def in
    try! _ := Purge x in
    let! _ := call (CacheDrop x) in
    let! e1 := DeleteSnapshot x in
    let! e2 := call (Perform (BlobDeleteExec x)) in
    let! e3 := MarkArchived x in
    lift (errors_join [e1; e2; e3]).

(** [deleteArchive]: the segments, then the execution's own object. *)
Fixpoint erase_all (names : list string) : Prog (result unit) :=
  match names with
  | [] => ok tt
  | n :: names' => try! _ := call (ArchErase n) in erase_all names'
  end.
Definition deleteArchive (x : string) (st : option State) : Prog (result unit) :=
  erase_all ((match st with Some s => Segment_Object <$> s_Segments s | None => [] end) ++ [x]).

(** What [Delete] answers: an error, [TooRecentError] with the time from which
    the execution may be deleted, or done. *)
Inductive DeleteOutcome :=
| DeleteDone
| TooRecent (until : Z)
| DeleteError (e : error).

Definition delete_outcome (r : result unit) : DeleteOutcome :=
  match r with Ok _ => DeleteDone | Err e => DeleteError e end.

Definition Delete (x : string) : Prog DeleteOutcome :=
  let! r := Load cfg x 0 in
  match r with
  | Err e => Ret (DeleteError e)
  | Ok (st, _) =>
      if Exists st && negb (Terminal (s_Status st)) then Ret DeleteDone
      else
        let! found :=
          (if Exists st then ok (Some st)
           else
             let! r := LoadArchived x 0 in
             lift (match r with
                   | Ok (st, _) => Ok (Some st)
                   | Err e => if errors_is e ErrNotArchived then Ok None else Err e
                   end)) in
        match found with
        | Err e => Ret (DeleteError e)
        | Ok st =>
            let! recent :=
              match st with
              | None => Ret None
              | Some s =>
                  let! now := call Now in
                  let until := s_Updated s + DedupWindow in
                  Ret (if now <? until then Some until else None)
              end in
            match recent with
            | Some until => Ret (TooRecent until)
            | None =>
                let! _ := call (CacheDrop x) in
                let! e1 := DeleteIndex x in
                let! e2 := call (Perform (BlobEraseExec x)) in
                let! e3 := call (Perform (EraseSnapshot x)) in
                let! e4 := call (Perform (PurgeTimers x)) in
                let! r :=
                  (try! _ := lift (errors_join [e1; e2; e3; e4]) in
                   try! _ := deleteArchive x st in
                   Purge x) in
                Ret (delete_outcome r)
            end
        end
  end.

Definition deleteOrPostpone (x : string) : Prog (result unit) :=
  let! r := Delete x in
  match r with
  | DeleteDone => ok tt
  | DeleteError e => failed e
  | TooRecent until =>
      try! c := lift (CmdCodec.New ("delete." +:+ x) CDelete x None) in
      ScheduleCmd x TimerDelete until c
  end.

(** ** Handling a message *)

Definition err_of {A} (r : result A) : option error := match r with Ok _ => None | Err e => Some e end.

Definition no_command : Command :=
  {| c_ID := ""; c_Type := COther ""; c_ExecID := ""; c_Time := 0; c_Data := None; c_Reply := "" |}.

(** [cmd.Decode]: the envelope, validated. *)
Definition decode_command (b : CmdBytes) : result Command :=
  match b with
  | None => Err (plain "cmd: decode")
  | Some c => match Cmd.Validate c with Some t => Err (plain t) | None => Ok c end
  end.

Definition command_body (m : Delivery) : Prog (result CmdBytes) :=
  if String.eqb (dv_Blob m) "" then ok (dv_Data m)
  else try! o := resolve_object (dv_Blob m) in ok (match o with OCommand b => b | _ => None end).

Definition handle (m : Delivery) : Prog unit :=
  if negb (String.eqb (dv_Protocol m) "") && negb (String.eqb (dv_Protocol m) ProtocolVersion) then
    deadLetter m "" (Sprintf "unsupported protocol version %s" [AStr (dv_Protocol m)])
  else
    let! body := command_body m in
    match body with
    | Err e => ackOrRetry m no_command (Some (wrapf "command body: %w" e))
    | Ok body =>
        match decode_command body with
        | Err e => deadLetter m "" (Sprintf "undecodable command: %v" [AText (error_text e)])
        | Ok c =>
            match c_Type c with
            | CArchive => let! r := Archive (c_ExecID c) in ackOrRetry m c (err_of r)
            | CDelete => let! r := deleteOrPostpone (c_ExecID c) in ackOrRetry m c (err_of r)
            | CRedispatch =>
                let! r := (if cf_Redispatch cfg then call (Perform (RedispatchExec (c_ExecID c))) else ok tt) in
                ackOrRetry m c (err_of r)
            | _ =>
                let! r := apply c (dv_Trace m) in
                let! answered := answer c r in
                if (answered : bool) then call Ack else ackOrRetry m c (err_of r)
            end
        end
    end.
End Engine.
