(* ===== verification/Deliveries.v ===== *)
(** * What becomes of a delivered command

    Over every run of [handle], whatever the server answers: the message is
    settled once, at the end, and terminated only after its dead letter is
    recorded; a caller is answered at most once; a command is acknowledged only
    when its decision is recorded as it was made, when there was nothing to
    record, or when it was refused for good and its sender told. *)

From S2P Require Import Prelude Json Hash GoStrings Names Expr Flow Event Cmd Reduce State View Decide DecideRun Codec.
From S2P Require Import Wire Server Projection Sending EventLog Loader Engine.

(** ** Runs *)

(** A call and its answer. *)
Record Exchange := { x_call : Call; x_answer : Answer x_call }.

(** [tr] are the exchanges of a run of [p] that ends with [a]. *)
Fixpoint Runs {A} (p : Prog A) (tr : list Exchange) (a : A) : Prop :=
  match p with
  | Ret a' => tr = [] /\ a' = a
  | Do c k => exists r tr', tr = {| x_call := c; x_answer := r |} :: tr' /\ Runs (k r) tr' a
  end.

Lemma runs_bind {A B} (p : Prog A) (k : A -> Prog B) tr b :
  Runs (pbind p k) tr b -> exists tr1 a tr2, Runs p tr1 a /\ Runs (k a) tr2 b /\ tr = tr1 ++ tr2.
Proof.
  revert tr. induction p as [a|c k' IH]; intros tr; cbn [pbind Runs].
  - intros HR. exists [], a, tr. done.
  - intros (r & tr' & -> & HR). destruct (IH _ _ HR) as (tr1 & a & tr2 & H1 & H2 & ->).
    eexists ({| x_call := c; x_answer := r |} :: tr1), a, tr2. split; [|done]. cbn. eauto.
Qed.

Lemma runs_call (c : Call) tr r : Runs (call c) tr r -> tr = [{| x_call := c; x_answer := r |}].
Proof. intros (r' & tr' & -> & -> & ->). done. Qed.

(** Programs all of whose calls satisfy a predicate. *)
Fixpoint only (P : Call -> bool) {A} (p : Prog A) : Prop :=
  match p with
  | Ret _ => True
  | Do c k => P c = true /\ forall r, only P (k r)
  end.

Lemma only_bind P {A B} (p : Prog A) (k : A -> Prog B) : only P p -> (forall a, only P (k a)) -> only P (pbind p k).
Proof.
  intros HP HK. induction p as [a|c k' IH]; cbn [pbind only] in *; [done|]. destruct HP as [Hc Hk]. split; [done|].
  intros r. by apply IH.
Qed.

Lemma only_fbind P {A B} (p : Prog (result A)) (k : A -> Prog (result B)) :
  only P p -> (forall a, only P (k a)) -> only P (fbind p k).
Proof. intros HP HK. apply only_bind; [done|]. by intros [a|e]. Qed.

Lemma only_runs P {A} (p : Prog A) tr a : only P p -> Runs p tr a -> Forall (fun e => P (x_call e) = true) tr.
Proof.
  revert tr. induction p as [a'|c k IH]; intros tr; cbn [only Runs].
  - by intros _ [-> _].
  - intros [Hc Hk] (r & tr' & -> & HR). constructor; [done|]. by eapply IH.
Qed.

(** Every exchange of a trace is as [P] wants it, given those before it. *)
Fixpoint follows (P : list Exchange -> Exchange -> Prop) (past tr : list Exchange) : Prop :=
  match tr with
  | [] => True
  | e :: tr => P past e /\ follows P (past ++ [e]) tr
  end.

Lemma follows_app P past t1 t2 : follows P past (t1 ++ t2) <-> follows P past t1 /\ follows P (past ++ t1) t2.
Proof.
  revert past. induction t1 as [|e t1 IH]; intros past; cbn [follows app].
  - rewrite app_nil_r. tauto.
  - rewrite IH, <- app_assoc. tauto.
Qed.

Lemma follows_split P past tr before e after : follows P past tr -> tr = before ++ e :: after -> P (past ++ before) e.
Proof. intros HF ->. apply follows_app in HF as [_ [HP _]]. done. Qed.

Lemma follows_all (P : list Exchange -> Exchange -> Prop) past tr :
  Forall (fun e => forall past, P past e) tr -> follows P past tr.
Proof. intros HF. revert past. induction HF as [|e tr He _ IH]; intros past; [done|]. by split. Qed.

(** ** Programs that leave the message alone *)

(** Calls that are neither to the message, nor to its sender, nor a dead letter,
    nor a mark of quarantine in the index. *)
Definition marks (key : string) : bool := match key with String a _ => Ascii.eqb a (ascii_of 113) | _ => false end.
Definition internal (c : Call) : bool :=
  match c with
  | SendReply _ _ | PublishDLQ _ _ | Ack | NakWithDelay _ | Term => false
  | KvPut key _ => negb (marks key)
  | _ => true
  end.

(** Calls that read the streams and the stores. *)
Definition reads (c : Call) : bool :=
  match c with
  | Now | EvDirectGet _ _ | EvFirst _ | EvLast _ | BlobGet _ | SnapGet _ | ArchGet _ | ArchInfo _ | FlowsGet _ _ => true
  | _ => false
  end.

Lemma only_weaken (P Q : Call -> bool) {A} (p : Prog A) : (forall c, P c = true -> Q c = true) -> only P p -> only Q p.
Proof. intros HPQ. induction p as [a|c k IH]; cbn [only]; [done|]. intros [Hc Hk]. auto. Qed.

Lemma reads_internal {A} (p : Prog A) : only reads p -> only internal p.
Proof. apply only_weaken. by intros []. Qed.

Create HintDb silent.

Ltac silent :=
  repeat match goal with
    | |- only _ (pbind _ _) => apply only_bind; [|intros ?]
    | |- only _ (fbind _ _) => apply only_fbind; [|intros ?]
    | |- only _ (Ret _) => exact I
    | |- only _ (ok _) => exact I
    | |- only _ (failed _) => exact I
    | |- only _ (lift _) => exact I
    | |- only _ (call _) => split; [reflexivity|intros; exact I]
    | |- only _ (if ?b then _ else _) => destruct b
    | |- only _ (match ?x with _ => _ end) => destruct x
    | |- only _ (let x := _ in _) => cbv zeta
    | |- only internal _ => apply reads_internal; solve [eauto with silent]
    | _ => progress (eauto with silent)
    end.

Lemma resolve_object_silent n : only reads (resolve_object n).
Proof. unfold resolve_object. silent. Qed.
#[export] Hint Resolve resolve_object_silent : silent.

Lemma decode_message_silent m q : only reads (decode_message m q).
Proof. unfold decode_message, Resolve. silent. Qed.
#[export] Hint Resolve decode_message_silent : silent.

Lemma scan_messages_only P {S} (fn : S -> list FoldEvent -> Prog (S * bool)) msgs next acc :
  (forall m q, only P (decode_message m q)) -> (forall acc evs, only P (fn acc evs)) ->
  only P (scan_messages fn msgs next acc).
Proof. intros Hd Hf. revert next acc. induction msgs as [|[q m] msgs IH]; intros; cbn [scan_messages]; silent. Qed.

Lemma scan_rounds_only P {S} (fn : S -> list FoldEvent -> Prog (S * bool)) rounds x from acc :
  (forall x from, P (EvDirectGet x from) = true) -> (forall m q, only P (decode_message m q)) ->
  (forall acc evs, only P (fn acc evs)) -> only P (scan_rounds fn rounds x from acc).
Proof.
  intros Hg Hd Hf. revert from acc. induction rounds as [|n IH]; intros; cbn [scan_rounds]; [exact I|]. unfold readBatch.
  apply only_fbind; [|intros [[[? ?] ?] ?]; silent]. apply only_bind; [by split|]. intros [[msgs more]|e]; [|exact I].
  apply only_fbind; [by apply scan_messages_only|]. intros [[? ?] ?]. exact I.
Qed.

Lemma for_each_only P {A} (l : list A) f : (forall a, only P (f a)) -> only P (for_each l f).
Proof. intros Hf. induction l; cbn [for_each]; silent. Qed.

Section Silent.
Context `{Evaluator}.
Context (cfg : Config).

Lemma Read_silent x from to : only reads (Read cfg x from to).
Proof. apply scan_rounds_only; [done|apply decode_message_silent|done]. Qed.
Hint Resolve Read_silent : silent.

Lemma FirstSeq_silent x : only reads (FirstSeq x).
Proof. unfold FirstSeq. silent. Qed.
Hint Resolve FirstSeq_silent : silent.

Lemma SaveSnapshot_silent st : only internal (SaveSnapshot cfg st).
Proof. unfold SaveSnapshot, saveBlob. silent. Qed.
Hint Resolve SaveSnapshot_silent : silent.

Lemma Append_silent x expected evs : only internal (Append cfg x expected evs).
Proof. unfold Append, Offload. silent. Qed.
Hint Resolve Append_silent : silent.

Lemma snapshotFor_silent x upTo : only reads (snapshotFor cfg x upTo).
Proof. unfold snapshotFor, LoadSnapshot. silent. Qed.
Hint Resolve snapshotFor_silent : silent.

Lemma DefOf_silent ev : only reads (DefOf ev).
Proof. unfold DefOf, defOfState. silent. Qed.
Hint Resolve DefOf_silent : silent.

Lemma ArchiveObject_silent n : only reads (ArchiveObject n).
Proof. unfold ArchiveObject. silent. Qed.
Hint Resolve ArchiveObject_silent : silent.

Lemma segment_events_silent segs : only reads (segment_events segs).
Proof. induction segs; cbn [segment_events]; silent. Qed.
Hint Resolve segment_events_silent : silent.

Lemma withSegments_silent evs : only reads (withSegments evs).
Proof. unfold withSegments. silent. Qed.
Hint Resolve withSegments_silent : silent.

Lemma foldUpTo_silent x evs upTo : only reads (foldUpTo x evs upTo).
Proof. unfold foldUpTo. silent. Qed.
Hint Resolve foldUpTo_silent : silent.

Lemma LoadArchived_silent x upTo : only reads (LoadArchived x upTo).
Proof. unfold LoadArchived, Archived. silent. Qed.
Hint Resolve LoadArchived_silent : silent.

Lemma Load_silent x upTo : only reads (Load cfg x upTo).
Proof. unfold Load, loadFromHistory, load_fold, continues. silent. Qed.
Hint Resolve Load_silent : silent.

Lemma IsArchived_silent x : only reads (IsArchived x).
Proof. unfold IsArchived. silent. Qed.
Hint Resolve IsArchived_silent : silent.

Lemma putArchive_silent n evs : only internal (putArchive n evs).
Proof. unfold putArchive. silent. Qed.
Hint Resolve putArchive_silent : silent.

Lemma afterAppend_silent x ent before : only internal (afterAppend cfg x ent before).
Proof.
  unfold afterAppend, continueAsNew, appendContinued, keepContinued, dispatchedUpTo, PurgeBefore. silent.
Qed.
Hint Resolve afterAppend_silent : silent.

Lemma load_silent x : only internal (load cfg x).
Proof. unfold load. silent. Qed.
Hint Resolve load_silent : silent.

Lemma decide_silent c : only internal (Engine.decide cfg c).
Proof. unfold Engine.decide, decideStart, decideFork. silent. Qed.
Hint Resolve decide_silent : silent.

Lemma fitDecision_silent c ent evs trace : only internal (fitDecision cfg c ent evs trace).
Proof. unfold fitDecision, abortTooLarge. silent. Qed.
Hint Resolve fitDecision_silent : silent.

Lemma apply_silent c trace : only internal (Engine.apply cfg c trace).
Proof. unfold Engine.apply. generalize maxConflicts. intros n. induction n as [|n IH]; cbn [apply_rounds]; silent. Qed.

Lemma ScheduleCmd_silent x timer at_ c : only internal (ScheduleCmd x timer at_ c).
Proof. unfold ScheduleCmd. silent. Qed.
Hint Resolve ScheduleCmd_silent : silent.

Lemma MarkArchived_silent x : only internal (MarkArchived x).
Proof. unfold MarkArchived. silent. Qed.
Hint Resolve MarkArchived_silent : silent.

Lemma DeleteIndex_silent x : only internal (DeleteIndex x).
Proof.
  unfold DeleteIndex. apply only_fbind; [silent|intros e]. apply only_fbind; [silent|intros ms].
  apply for_each_only. intros. silent.
Qed.
Hint Resolve DeleteIndex_silent : silent.

Lemma Archive_silent x : only internal (Archive cfg x).
Proof. unfold Archive, scheduleArchiveExpiry, Purge, DeleteSnapshot. silent. Qed.

Lemma erase_all_silent names : only internal (erase_all names).
Proof. induction names; cbn [erase_all]; silent. Qed.
Hint Resolve erase_all_silent : silent.

Lemma Delete_silent x : only internal (Delete cfg x).
Proof. unfold Delete, deleteArchive, Purge. silent. Qed.
End Silent.

(** ** Settling *)

Definition settling (c : Call) : bool := match c with Ack | NakWithDelay _ | Term => true | _ => false end.
Definition replying (c : Call) : bool := match c with SendReply _ _ => true | _ => false end.

(** The exchanges of a handler with [n] answers left to give. *)
Inductive Settles : nat -> list Exchange -> Prop :=
| settles_ack n r : Settles n [{| x_call := Ack; x_answer := r |}]
| settles_nak n d r : nakDelay <= d <= maxNakDelay -> Settles n [{| x_call := NakWithDelay d; x_answer := r |}]
| settles_term n d k u r :
    Settles n [{| x_call := PublishDLQ d k; x_answer := Ok u |}; {| x_call := Term; x_answer := r |}]
| settles_again n d k e tr : Settles n tr -> Settles n ({| x_call := PublishDLQ d k; x_answer := Err e |} :: tr)
| settles_reply n s rp r tr : Settles n tr -> Settles (S n) ({| x_call := SendReply s rp; x_answer := r |} :: tr)
| settles_internal n e tr : internal (x_call e) = true -> Settles n tr -> Settles n (e :: tr).

Lemma settles_app n l tr : Forall (fun e => internal (x_call e) = true) l -> Settles n tr -> Settles n (l ++ tr).
Proof. induction 1; intros HS; [done|]. simpl. apply settles_internal; auto. Qed.

Lemma settles_more n tr : Settles n tr -> Settles (S n) tr.
Proof. induction 1; by constructor. Qed.

(** A settlement after [before]: redelivery within bounds, termination only
    once the dead letter is recorded. *)
Definition settles_after (before : list Exchange) (c : Call) : Prop :=
  match c with
  | Ack => True
  | NakWithDelay d => nakDelay <= d <= maxNakDelay
  | Term => exists d k, last before = Some {| x_call := PublishDLQ d k; x_answer := Ok tt |}
  | _ => False
  end.

Lemma after_more e before c : settles_after before c -> settles_after (e :: before) c.
Proof. destruct c; try done. intros (d & k & HL). exists d, k. simpl. by rewrite last_cons, HL. Qed.

(** What the grammar says of the calls. *)
Lemma settles_split n tr :
  Settles n tr ->
  exists before s, tr = before ++ [s] /\ settles_after before (x_call s) /\
    Forall (fun e => settling (x_call e) = false) before /\
    (length (List.filter (fun e => replying (x_call e)) tr) <= n)%nat.
Proof.
  induction 1 as [n r|n d r Hd|n d k [] r|n d k e tr _ IH|n s rp r tr _ IH|n e tr Hi _ IH].
  - eexists [], _. split_and!; [done|done|constructor|simpl; lia].
  - eexists [], _. split_and!; [done|done|constructor|simpl; lia].
  - eexists [_], _. cbn. split_and!; [done|by eexists _, _|by constructor|lia].
  - destruct IH as (b & s & -> & HL & HF & Hn). eexists (_ :: b), s. split_and!; [done|by apply after_more|by constructor|done].
  - destruct IH as (b & s' & -> & HL & HF & Hn). eexists (_ :: b), s'.
    split_and!; [done|by apply after_more|by constructor|simpl; lia].
  - destruct IH as (b & s & -> & HL & HF & Hn). exists (e :: b), s.
    split_and!; [done|by apply after_more|constructor; [by destruct (x_call e)|done]|by destruct e as [[]]].
Qed.

Lemma retryDelay_bounds n : nakDelay <= retryDelay n <= maxNakDelay.
Proof.
  unfold retryDelay. set (k := Z.min (Z.max n 1 - 1) 5). assert (0 <= k <= 5) as Hk by lia. clearbody k.
  rewrite Z.shiftl_mul_pow2 by lia. assert (1 <= 2 ^ k) by (apply Z.pow_le_mono_r with (b := 0) (c := k) (a := 2); lia).
  unfold nakDelay, maxNakDelay, Second. lia.
Qed.

(** Programs after which a handler settles. *)
Definition settling_prog (n : nat) (p : Prog unit) : Prop := forall tr, Runs p tr tt -> Settles n tr.

Lemma settling_after {A} n (p : Prog A) k :
  only internal p -> (forall a, settling_prog n (k a)) -> settling_prog n (pbind p k).
Proof.
  intros HP HK tr (tr1 & a & tr2 & H1 & H2 & ->)%runs_bind. apply settles_app; [by eapply only_runs|by eapply HK].
Qed.

Lemma settling_reply {A} n c rp (k : unit -> Prog A) tr a :
  Runs (pbind (reply c rp) k) tr a -> (forall tr', Runs (k tt) tr' a -> Settles n tr') -> Settles (S n) tr.
Proof.
  unfold reply. intros HR HK. destruct (String.eqb _ _); simpl in HR; [apply settles_more; auto|].
  destruct HR as (r & tr' & -> & HR). constructor. auto.
Qed.

Lemma deadLetter_settles n m x why : settling_prog n (deadLetter m x why).
Proof.
  intros tr (r & tr' & -> & HR). destruct r; destruct HR as (u & t & -> & -> & _).
  - constructor.
  - constructor. constructor. unfold nakDelay, maxNakDelay, Second. lia.
Qed.

Lemma ackOrRetry_settles m c r : settling_prog 1 (ackOrRetry m c r).
Proof.
  intros tr. unfold ackOrRetry. destruct r as [e|]; [|intros (u & t & -> & -> & _); constructor].
  destruct (errors_is e ErrRejected); [intros (u & t & -> & -> & _); constructor|].
  destruct (_ && _); [intros (u & t & -> & -> & _); constructor; apply retryDelay_bounds|].
  destruct (_ || _); [intros HR; eapply settling_reply; [exact HR|]; apply deadLetter_settles|].
  destruct (errors_is e ErrNotFound).
  - intros HR. eapply settling_reply; [exact HR|]. apply settling_after; [apply IsArchived_silent|].
    intros [[]|e']; try apply deadLetter_settles. intros ? (u & t & -> & -> & _). constructor.
  - destruct (_ <=? _); [intros HR; eapply settling_reply; [exact HR|]; apply deadLetter_settles|].
    intros (u & t & -> & -> & _). constructor. apply retryDelay_bounds.
Qed.

Section Handle.
Context `{Evaluator}.
Context (cfg : Config).

Lemma command_body_silent m : only internal (command_body m).
Proof. unfold command_body. silent. Qed.

Lemma deleteOrPostpone_silent x : only internal (deleteOrPostpone cfg x).
Proof. unfold deleteOrPostpone. apply only_bind; [apply Delete_silent|]. intros. silent. apply ScheduleCmd_silent. Qed.

Lemma answered_settles m c r :
  settling_prog 1 (let! answered := answer c r in if answered then call Ack else ackOrRetry m c (err_of r)).
Proof.
  intros tr. unfold answer. destruct (String.eqb (c_Reply c) "") eqn:Er; [apply ackOrRetry_settles|].
  assert (HA : forall k, Settles k [{| x_call := Ack; x_answer := tt |}]) by constructor.
  assert (HD : forall rp tr', Runs (let! a := (let! _ := reply c rp in Ret true) in
      if a : bool then call Ack else ackOrRetry m c (err_of r)) tr' tt -> Settles 1 tr').
  { unfold reply. rewrite Er. cbn. intros rp tr' (x & t1 & -> & u & t2 & -> & -> & _). constructor. by destruct u. }
  destruct r as [[seq app]|e].
  - unfold reply. rewrite Er. cbn. intros (x & t1 & -> & u & t2 & -> & -> & _). constructor. by destruct u.
  - destruct (errors_is e ErrConflict); [apply HD|]. destruct (errors_is e ErrInvalid); [apply HD|].
    destruct (errors_is e ErrRejected); [apply HD|]. apply ackOrRetry_settles.
Qed.

Lemma handle_settles m : settling_prog 1 (handle cfg m).
Proof.
  unfold handle. destruct (_ && _); [apply deadLetter_settles|]. apply settling_after; [apply command_body_silent|].
  intros [body|e]; [|apply ackOrRetry_settles]. destruct (decode_command body) as [c|]; [|apply deadLetter_settles].
  destruct (c_Type c).
  all: try (apply settling_after; [apply apply_silent|intros r; apply answered_settles]).
  all: apply settling_after; [|intros; apply ackOrRetry_settles].
  all: try apply Archive_silent; try apply deleteOrPostpone_silent. silent.
Qed.

(** C8. However the server answers, the handling of a command settles
    its message exactly once, as the last thing it does: it is terminated only
    right after its dead letter was recorded, and redelivered only after a delay
    within the bounds; and its sender is answered at most once. *)
Theorem settles_once m tr :
  Runs (handle cfg m) tr tt ->
  exists before s, tr = before ++ [s] /\ settles_after before (x_call s) /\
    Forall (fun e => settling (x_call e) = false) before /\
    (length (List.filter (fun e => replying (x_call e)) tr) <= 1)%nat.
Proof. intros HR. apply settles_split. by apply (handle_settles m). Qed.

(** ** Acknowledged commands *)

(** [tr] holds a run of [p] that ends with [a]. *)
Definition within {A} (p : Prog A) (a : A) (tr : list Exchange) : Prop :=
  exists before mid after, tr = before ++ mid ++ after /\ Runs p mid a.

Lemma within_left {A} (p : Prog A) a t1 t2 : within p a t1 -> within p a (t1 ++ t2).
Proof. intros (b & m & f & -> & HR). exists b, m, (f ++ t2). by rewrite <- !app_assoc. Qed.
Lemma within_right {A} (p : Prog A) a t1 t2 : within p a t2 -> within p a (t1 ++ t2).
Proof. intros (b & m & f & -> & HR). exists (t1 ++ b), m, f. by rewrite <- !app_assoc. Qed.
Lemma within_run {A} (p : Prog A) a tr : Runs p tr a -> within p a tr.
Proof. intros HR. exists [], tr, []. by rewrite app_nil_r. Qed.

Hint Resolve within_left within_right within_run : core.

(** Something holds of the parts of a run that decides, then settles. *)
Definition ended_with {A} (p : Prog (result A)) (good : A -> list Exchange -> list Exchange -> Prop)
    (bad : error -> list Exchange -> Prop) (tr : list Exchange) : Prop :=
  exists t1 t2 r, tr = t1 ++ t2 /\ Runs p t1 r /\ match r with Ok a => good a t1 t2 | Err e => bad e t2 end.

(** The decision [evs] of [x] was appended after [expected] at [seq]: the message
    that the server took holds its encoding, or the name of the object that does. *)
Definition recorded (x : string) (expected : Z) (evs : list FoldEvent) (seq : Z) (tr : list Exchange) : Prop :=
  exists body h body' h' t1, EncodeDecision evs = Ok (body, h) /\ Runs (Offload cfg x body h) t1 (Ok (body', h')) /\
    tr = t1 ++ [{| x_call := EvPublish x expected {| msg_Header := h'; msg_Data := body' |}; x_answer := PubAck seq |}].

(** A run of [apply] ended without an error: the last decision it took gave
    nothing to append; or what it gave, or the abort that replaces a decision which
    is too large, was recorded; or it was too large for an execution that meanwhile
    had ended. *)
Definition carried_out (c : Command) (trace : string) (seq : Z) (appended : bool) (tr : list Exchange) : Prop :=
  exists before td ent expected evs after, tr = before ++ td ++ after /\
    Runs (Engine.decide cfg c) td (Ok (ent, expected, evs)) /\
    if appended then
      exists tf ent' evs' ta rest, after = tf ++ ta ++ rest /\
        Runs (fitDecision cfg c ent evs trace) tf (Ok (ent', evs')) /\
        (recorded (c_ExecID c) expected evs' seq ta \/
         maxEvents cfg < len evs /\ evs' = [] /\ seq = expected /\ Terminal (s_Status (en_State ent')) = true)
    else evs = [] /\ seq = expected.

Lemma carried_out_right c trace q b t1 t2 : carried_out c trace q b t2 -> carried_out c trace q b (t1 ++ t2).
Proof. intros (b0 & td & ent & ex & evs & af & -> & HR). exists (t1 ++ b0), td, ent, ex, evs, af. by rewrite app_assoc. Qed.

Lemma Append_recorded x e evs tr q :
  evs <> [] -> Runs (Append cfg x e evs) tr (Ok q) -> recorded x e evs q tr.
Proof.
  intros Hne. unfold Append. rewrite bool_decide_eq_false_2 by done. destruct (_ <? _); [by intros [_ ?]|].
  destruct (EncodeDecision evs) as [[body h]|] eqn:E; [|by intros [_ ?]]. cbn [lift fbind pbind].
  intros (t1 & r & t2 & H1 & HR & ->)%runs_bind. destruct r as [[body' h']|]; [|by destruct HR].
  destruct HR as (r & t & -> & HR). destruct r; [|by destruct HR..]. destruct HR as [-> [= ->]]. by exists body, h, body', h', t1.
Qed.

Lemma Abort_nothing def st first cmdID reason msg now st' :
  Abort def st first cmdID reason msg now = Ok ([], st') -> Terminal (s_Status st') = true.
Proof.
  unfold Abort. destruct (Exists st) eqn:Ex; [|destruct first as [ev|]; [|done]].
  - cbn [res_bind d_st]. destruct (Terminal _) eqn:Et; [by intros [= <-]|]. intros (d & Hf & Ho & _)%decided_inv.
    unfold fail_ in Hf. apply emit_inv in Hf as (st1 & _ & ->). done.
  - intros (d1 & (st1 & _ & ->)%emit_inv & HR)%res_bind_ok. destruct (Terminal _) eqn:Et; [done|].
    apply decided_inv in HR as (d & Hf & Ho & _). unfold fail_ in Hf. apply emit_inv in Hf as (st2 & _ & ->). done.
Qed.

Lemma abortTooLarge_nothing c evs tr ent :
  Runs (abortTooLarge cfg c evs) tr (Ok (ent, [])) -> Terminal (s_Status (en_State ent)) = true.
Proof.
  intros (r & t & -> & HR). cbn [pbind] in HR. apply runs_bind in HR as (t1 & r1 & t2 & _ & HR & ->). destruct r1 as [ent1|]; [|by destruct HR].
  cbn [pbind] in HR. apply runs_bind in HR as (t3 & r3 & t4 & _ & HR & ->). destruct r3 as [def|]; [|by destruct HR].
  destruct HR as (now & t & -> & HR). cbn [pbind] in HR. revert HR.
  match goal with |- context [Abort ?d ?s ?f ?i ?r ?m ?n] => destruct (Abort d s f i r m n) as [[out st]|] eqn:E end; [|by intros [_ ?]].
  intros [_ [= <- ->]]. by eapply Abort_nothing.
Qed.

Lemma fitDecision_nothing c ent evs trace tr ent' :
  evs <> [] -> Runs (fitDecision cfg c ent evs trace) tr (Ok (ent', [])) ->
  maxEvents cfg < len evs /\ Terminal (s_Status (en_State ent')) = true.
Proof.
  intros Hne (t1 & r1 & t2 & H1 & HR & ->)%runs_bind. destruct r1 as [[ent1 evs1]|]; [|by destruct HR].
  destruct HR as [-> [= -> Hm]]. apply fmap_nil_inv in Hm as ->. destruct (Z.ltb_spec (maxEvents cfg) (len evs)).
  - split; [done|]. by eapply abortTooLarge_nothing.
  - destruct H1 as [_ [= _ ->]]. done.
Qed.

Lemma apply_carried_out c trace tr q b :
  Runs (Engine.apply cfg c trace) tr (Ok (q, b)) -> carried_out c trace q b tr.
Proof.
  unfold Engine.apply. generalize maxConflicts. intros n. revert tr. induction n as [|n IH]; intros tr; cbn [apply_rounds]; [by intros [_ ?]|].
  intros (t1 & r1 & t2 & H1 & HR & ->)%runs_bind. destruct r1 as [[[ent expected] evs]|e].
  2: { destruct HR as (u & t & -> & HR). by destruct HR. }
  destruct (bool_decide_reflect (evs = [])) as [->|Hne].
  { destruct HR as [-> [= -> <-]]. by exists [], t1, ent, q, [], []. }
  apply runs_bind in HR as (t3 & r2 & t4 & H2 & HR & ->). destruct r2 as [[ent' evs']|]; [|by destruct HR].
  apply runs_bind in HR as (t5 & r3 & t6 & H3 & HR & ->). destruct r3 as [last|e].
  - destruct HR as (u & t & -> & HR). cbn [pbind] in HR. apply runs_bind in HR as (t7 & u' & t8 & _ & HR & ->). destruct HR as [-> [= -> <-]].
    eexists [], t1, ent, expected, evs, _. split; [reflexivity|]. split; [done|]. eexists t3, ent', evs', t5, _.
    split; [reflexivity|]. split; [done|]. destruct (base.decide (evs' = [])) as [->|He']; [|left; by apply Append_recorded].
    right. destruct (fitDecision_nothing _ _ _ _ _ _ Hne H2). destruct H3 as [_ [= ->]]. done.
  - destruct HR as (u & t & -> & HR). destruct (errors_is e ErrAppendConflict); [|by destruct HR].
    apply carried_out_right, carried_out_right, carried_out_right. apply (carried_out_right _ _ _ _ [_]). by apply IH.
Qed.

(** The sender of a command that asked for it was answered. *)
Definition told (c : Command) (rp : Reply) (tr : list Exchange) : Prop :=
  c_Reply c <> "" -> exists r, {| x_call := SendReply (c_Reply c) rp; x_answer := r |} ∈ tr.

(** An error that ends a command for good: a rejection, or a command meant for an
    execution that is archived. *)
Definition final (c : Command) (e : error) (tr : list Exchange) : Prop :=
  errors_is e ErrRejected = true \/ errors_is e ErrNotFound = true /\ within (IsArchived (c_ExecID c)) (Ok true) tr.

(** The error of [apply] ends the command, and the sender who asked for an answer
    was told of the refusal; an error that is in conflict or invalid ends it only
    for such a sender. *)
Definition refused (c : Command) (e : error) (tr : list Exchange) : Prop :=
  (final c e tr \/ c_Reply c <> "" /\ (errors_is e ErrConflict = true \/ errors_is e ErrInvalid = true)) /\
  exists rp, rp_OK rp = false /\ told c rp tr.

Definition acked (tr : list Exchange) : Prop := {| x_call := Ack; x_answer := tt |} ∈ tr.

Lemma not_acked P {A} (p : Prog A) tr a : only P p -> P Ack = false -> Runs p tr a -> ~ acked tr.
Proof. intros HP Ha HR Hin. pose proof (only_runs _ _ _ _ HP HR) as HF. rewrite Forall_forall in HF. specialize (HF _ Hin). simpl in HF. congruence. Qed.

Definition not_ack (c : Call) : bool := match c with Ack => false | _ => true end.

Lemma reply_no_ack c rp : only not_ack (reply c rp).
Proof. unfold reply. silent. Qed.
Lemma deadLetter_no_ack m x why : only not_ack (deadLetter m x why).
Proof. unfold deadLetter, deadLetterAs. silent. Qed.
Hint Resolve reply_no_ack deadLetter_no_ack : silent.

(** [p] acknowledges only what ended. *)
Definition acks_only (P : list Exchange -> Prop) (p : Prog unit) : Prop := forall tr, Runs p tr tt -> acked tr -> P tr.

Lemma no_ack_only P p : only not_ack p -> acks_only P p.
Proof. intros Hp tr HR Ha. by destruct (not_acked _ _ _ _ Hp eq_refl HR). Qed.

Lemma reply_told c rp tr : Runs (reply c rp) tr tt -> told c rp tr.
Proof.
  unfold reply, told. intros HR Hr. apply String.eqb_neq in Hr. rewrite Hr in HR. destruct HR as (r & t & -> & _).
  exists r. apply list_elem_of_here.
Qed.

Lemma told_left c rp t1 t2 : told c rp t1 -> told c rp (t1 ++ t2).
Proof. intros HT Hr. destruct (HT Hr) as [r Hin]. exists r. apply elem_of_app. by left. Qed.

(** A refusal that [ackOrRetry] itself tells the sender of. *)
Lemma ackOrRetry_acked m c e :
  acks_only (fun tr => final c e tr /\ (errors_is e ErrRejected = true \/ exists rp, rp_OK rp = false /\ told c rp tr))
    (ackOrRetry m c (Some e)).
Proof.
  unfold ackOrRetry. destruct (errors_is e ErrRejected) eqn:Er; [intros tr _ _; split; left; done|].
  destruct (_ && _); [apply no_ack_only; silent|]. destruct (_ || _); [apply no_ack_only; silent|].
  destruct (errors_is e ErrNotFound) eqn:En; [|destruct (_ <=? _); apply no_ack_only; silent].
  intros tr (t1 & [] & t2 & H1 & HR & ->)%runs_bind. apply runs_bind in HR as (t3 & a & t4 & H3 & HR & ->). intros Ha.
  assert (HQ : a = Ok true \/ Runs (deadLetter m (c_ExecID c) (error_text e)) t4 tt) by (destruct a as [[]|]; auto).
  destruct HQ as [->|HQ].
  { split; [right; split; [done|]; auto|]. right. eexists. split; [|by eapply told_left, reply_told]. done. }
  exfalso. assert (HI : only not_ack (IsArchived (c_ExecID c))) by (unfold IsArchived; silent).
  apply elem_of_app in Ha as [Ha|[Ha|Ha]%elem_of_app].
  - by eapply (not_acked not_ack); [apply reply_no_ack| |exact H1|].
  - by eapply (not_acked not_ack); [exact HI| |exact H3|].
  - by eapply (not_acked not_ack); [apply deadLetter_no_ack| |exact HQ|].
Qed.

Lemma answer_acked m c e :
  acks_only (refused c e) (let! answered := answer c (Err e) in if answered then call Ack else ackOrRetry m c (Some e)).
Proof.
  unfold answer. destruct (String.eqb_spec (c_Reply c) "") as [Hr|Hr].
  { intros tr HR Ha. destruct (ackOrRetry_acked _ _ _ _ HR Ha) as [HF _]. split; [by left|]. exists (refusal ReplyFailed ""). split; [done|]. by intros ?. }
  assert (HD : forall code t, final c e [] \/ errors_is e ErrConflict = true \/ errors_is e ErrInvalid = true ->
    acks_only (refused c e) (let! a := (let! _ := reply c (refusal code t) in Ret true) in
      if a : bool then call Ack else ackOrRetry m c (Some e))).
  { intros code t He tr HR _. apply runs_bind in HR as (t1 & a & t2 & H1 & _ & ->).
    apply runs_bind in H1 as (t3 & [] & t4 & H3 & _ & ->). split; [|exists (refusal code t); split; [done|]; by apply told_left, told_left, reply_told].
    destruct He as [[He|[_ (b & q & f & ? & He)]]|He]; [by left; left| |by right]. exfalso. destruct b, q; try discriminate.
    by destruct He as (? & ? & ? & _). }
  destruct (errors_is e ErrConflict) eqn:E1; [apply HD; auto|]. destruct (errors_is e ErrInvalid) eqn:E2; [apply HD; auto|].
  destruct (errors_is e ErrRejected) eqn:E3; [apply HD; left; by left|].
  intros tr HR Ha. destruct (ackOrRetry_acked _ _ _ _ HR Ha) as [HF [?|HT]]; [congruence|]. split; [by left|done].
Qed.

(** How a command may end: a housekeeping operation was done, or a decision was
    carried out and its sender told; or the error is final. *)
Definition done_with (c : Command) (trace : string) (tr : list Exchange) : Prop :=
  match c_Type c with
  | CArchive => ended_with (Archive cfg (c_ExecID c)) (fun _ _ _ => True) (final c) tr
  | CDelete => ended_with (deleteOrPostpone cfg (c_ExecID c)) (fun _ _ _ => True) (final c) tr
  | CRedispatch =>
      ended_with (if cf_Redispatch cfg then call (Perform (RedispatchExec (c_ExecID c))) else ok tt) (fun _ _ _ => True) (final c) tr
  | _ =>
      ended_with (Engine.apply cfg c trace)
        (fun '(seq, appended) t1 t2 => carried_out c trace seq appended t1 /\
           told c (success seq (bool_decide (c_Type c = CStart) && negb appended)) t2)
        (refused c) tr
  end.

Lemma housekeeping_done {A} (p : Prog (result A)) m c tr :
  only internal p -> Runs (let! r := p in ackOrRetry m c (err_of r)) tr tt -> acked tr ->
  ended_with p (fun _ _ _ => True) (final c) tr.
Proof.
  intros HP (t1 & r & t2 & H1 & HR & ->)%runs_bind Ha. exists t1, t2, r. split; [done|]. split; [done|]. destruct r as [a|e]; [done|].
  apply elem_of_app in Ha as [Ha|Ha]; [by eapply (not_acked internal) in Ha; [|exact HP| |exact H1]|].
  by destruct (ackOrRetry_acked _ _ _ _ HR Ha).
Qed.

Lemma answer_told c q b tr a : Runs (answer c (Ok (q, b))) tr a -> told c (success q (bool_decide (c_Type c = CStart) && negb b)) tr.
Proof.
  unfold answer. destruct (String.eqb_spec (c_Reply c) ""); [by intros _ ?|]. intros (t1 & [] & t2 & H1 & _ & ->)%runs_bind.
  by apply told_left, reply_told.
Qed.

Lemma decided_done m c trace tr :
  Runs (let! r := Engine.apply cfg c trace in let! answered := answer c r in
        if answered : bool then call Ack else ackOrRetry m c (err_of r)) tr tt -> acked tr ->
  ended_with (Engine.apply cfg c trace)
    (fun '(seq, appended) t1 t2 => carried_out c trace seq appended t1 /\
       told c (success seq (bool_decide (c_Type c = CStart) && negb appended)) t2) (refused c) tr.
Proof.
  intros (t1 & r & t2 & H1 & HR & ->)%runs_bind Ha. exists t1, t2, r. split; [done|]. split; [done|]. destruct r as [[q b]|e].
  - split; [by apply apply_carried_out|]. apply runs_bind in HR as (t3 & a & t4 & H3 & _ & ->). by eapply told_left, answer_told.
  - apply (answer_acked m); [done|]. apply elem_of_app in Ha as [Ha|Ha]; [|done].
    by eapply (not_acked internal) in Ha; [|apply apply_silent| |exact H1].
Qed.

(** C7. A command is acknowledged only when it needs no further
    delivery.  Its body was read (from its message or from the object that holds
    it) and decoded, and: its decision was appended at the sequence reported to
    the sender, as the encoding of just the events that deciding gave (of an abort
    if these were too many); or deciding gave nothing to append; or it was refused
    (rejected, meant for an archived execution, or invalid or in conflict with a
    sender who asked for an answer), and a sender who asked was told; a
    housekeeping command ended without an error or with a final one.  (A body that
    cannot be read is acknowledged only if the error says it was rejected, or not
    found and the execution without a name archived.) *)
Theorem acked_means_done m tr :
  Runs (handle cfg m) tr tt -> acked tr ->
  (dv_Protocol m = "" \/ dv_Protocol m = ProtocolVersion) /\
  ended_with (command_body m)
    (fun body _ t2 => exists c, decode_command body = Ok c /\ done_with c (dv_Trace m) t2)
    (fun e t2 => final no_command (wrapf "command body: %w" e) t2) tr.
Proof.
  unfold handle. intros HR Ha. destruct (_ && _) eqn:EP.
  { destruct (not_acked _ _ _ _ (deadLetter_no_ack _ _ _) eq_refl HR Ha). }
  split. { apply andb_false_iff in EP as [EP|EP]; apply negb_false_iff, String.eqb_eq in EP; auto. }
  apply runs_bind in HR as (t1 & r & t2 & H1 & HR & ->). exists t1, t2, r. split; [done|]. split; [done|].
  apply elem_of_app in Ha as [Ha|Ha]; [by eapply (not_acked internal) in Ha; [|apply command_body_silent| |exact H1]|].
  destruct r as [body|e]; [|by destruct (ackOrRetry_acked _ _ _ _ HR Ha)].
  destruct (decode_command body) as [c|e]; [|by destruct (not_acked _ _ _ _ (deadLetter_no_ack _ _ _) eq_refl HR Ha)].
  exists c. split; [done|]. unfold done_with. destruct (c_Type c) eqn:Et.
  all: try (pose proof (decided_done m c (dv_Trace m) t2) as HD; rewrite Et in HD; by apply HD).
  all: eapply housekeeping_done; [|exact HR|exact Ha]; [try apply Archive_silent; try apply deleteOrPostpone_silent].
  silent.
Qed.
End Handle.
