(* ===== verification/DispatchProps.v ===== *)
(** * What the dispatcher does

    Over every run of the dispatcher, whatever the server answers: an event is
    settled once; it is acknowledged only when its effects were performed, or its
    execution is known to be quarantined; an execution is quarantined only for a
    failure that retrying cannot fix; a job is sent only for an attempt that is
    still wanted, also when handlers that share the memory of heads run at the same
    time. *)

From S2P Require Import Prelude Json Hash GoStrings Names Flow Event Cmd CmdCodec Reduce State View Wire Codec.
From S2P Require Import Server Projection Sending EventLog Loader Dispatch Deliveries.

(** ** Runs *)

Lemma runs_fbind {A B} (p : Prog (result A)) (k : A -> Prog (result B)) tr r :
  Runs (fbind p k) tr r ->
  (exists e, r = Err e /\ Runs p tr (Err e)) \/
  (exists a t1 t2, tr = t1 ++ t2 /\ Runs p t1 (Ok a) /\ Runs (k a) t2 r).
Proof.
  intros (t1 & [a|e] & t2 & H1 & H2 & ->)%runs_bind; [right; eauto 10|]. left. exists e. destruct H2 as [-> <-].
  by rewrite app_nil_r.
Qed.

Lemma runs_ok {A B} (p : Prog (result A)) (k : A -> Prog (result B)) tr b :
  Runs (fbind p k) tr (Ok b) -> exists a t1 t2, tr = t1 ++ t2 /\ Runs p t1 (Ok a) /\ Runs (k a) t2 (Ok b).
Proof. by intros [(e & ? & _)|?]%runs_fbind. Qed.

Lemma runs_lift {A} (r : result A) tr b : Runs (lift r) tr b -> tr = [] /\ b = r.
Proof. by intros [-> ->]. Qed.

(** Splits the runs of a sequence that succeeded. *)
Ltac run_ok H := let t1 := fresh "t" in let t2 := fresh "t" in let a := fresh "a" in
  apply runs_ok in H as (a & t1 & t2 & -> & ? & H).

(** ** Settling *)

Definition quiet (c : Call) : bool := negb (settling c).

Lemma internal_quiet {A} (p : Prog A) : only internal p -> only quiet p.
Proof. apply only_weaken. by intros []. Qed.

Section Quiet.
Context `{Evaluator}.
Context (json_text : Json -> string) (cfg : Config).

Lemma PublishCmd_silent c trace : only internal (PublishCmd cfg c trace).
Proof. unfold PublishCmd, offload_object. silent. Qed.
Hint Resolve PublishCmd_silent ScheduleCmd_silent Load_silent DefOf_silent : silent.

Lemma updateSummary_silent x fn : only internal (updateSummary x fn).
Proof. unfold updateSummary. silent. Qed.
Hint Resolve updateSummary_silent : silent.

Lemma IndexFrom_silent st created prev : only internal (IndexFrom st created prev).
Proof.
  unfold IndexFrom, index. apply only_fbind; [silent|intros _]. apply only_fbind; [|intros _; silent].
  destruct created; [|exact I]. apply only_fbind; [silent|intros _]. apply for_each_only. intros. silent.
Qed.

Lemma SetTerminal_silent x s reason e at_ : only internal (SetTerminal x s reason e at_).
Proof. unfold SetTerminal. apply only_fbind; [silent|intros _]. apply for_each_only. intros. silent. Qed.

Lemma IsQuarantined_silent x : only internal (IsQuarantined x).
Proof. unfold IsQuarantined, Mark. silent. Qed.

Lemma cancelChildren_silent children reason trace : only internal (cancelChildren cfg children reason trace).
Proof. apply for_each_only. intros. silent. Qed.
Hint Resolve cancelChildren_silent : silent.

Lemma terminal_silent ent ev : only internal (terminal cfg ent ev).
Proof. unfold terminal, notifyParent, purgeTimers, scheduleExpiry, schedule. silent. Qed.
Hint Resolve terminal_silent : silent.

Lemma job_silent ent ev s : only internal (job json_text cfg ent ev s).
Proof.
  unfold job, endedAtHead, LastSeq, job_for, cachedResult, publishJob, offload_object. silent.
Qed.
Hint Resolve job_silent : silent.

Lemma effects_silent ent ev : only internal (effects json_text cfg ent ev).
Proof. unfold effects, timer, schedule, startChild, storeCache. silent. Qed.
Hint Resolve effects_silent : silent.

Lemma apply_events_silent evs ent stop : only internal (apply_events json_text cfg ent stop evs).
Proof. revert ent stop. induction evs as [|ev evs IH]; intros; cbn [apply_events]; silent. Qed.
Hint Resolve apply_events_silent : silent.

Lemma handle_events_silent cached x evs : only internal (handle_events json_text cfg cached x evs).
Proof. unfold handle_events, stateBefore. silent. Qed.

Lemma applyDecision_silent x evs : only internal (applyDecision json_text cfg x evs).
Proof.
  unfold applyDecision, finish, publishStop. apply only_bind; [silent|intros cached].
  apply only_bind; [apply handle_events_silent|]. intros [[h|]|e]; [|exact I|silent].
  apply only_bind; [silent|intros _]. apply only_bind; [silent|intros _]. apply IndexFrom_silent.
Qed.

Lemma process_silent m : only internal (process json_text cfg m).
Proof. unfold process, decode_delivery. apply only_fbind; [silent|]. intros. apply applyDecision_silent. Qed.

Lemma skip_silent x : only internal (skip x).
Proof.
  unfold skip. apply only_bind; [silent|]. intros []; [|exact I]. apply only_fbind; [apply IsQuarantined_silent|]. intros. silent.
Qed.

Lemma closeWith_silent x st def ev : only internal (closeWith cfg x st def ev).
Proof. unfold closeWith. apply only_fbind; [silent|]. intros. apply SetTerminal_silent. Qed.
Hint Resolve closeWith_silent : silent.

Lemma closeQuarantined_silent x ev : only internal (closeQuarantined cfg x ev).
Proof.
  unfold closeQuarantined. apply only_fbind; [unfold stateBeforeMark, Mark; silent|]. intros [[st def]|]; [silent|].
  apply only_fbind; [|intros [st def]; silent].
  apply scan_rounds_only; [done|intros; apply reads_internal, decode_message_silent|]. intros acc [|first evs]; silent.
Qed.

Lemma quarantine_quiet m x e : only quiet (quarantine m x e).
Proof.
  unfold quarantine, Quarantine, Projection.Quarantine. apply only_fbind; [silent|intros _]. apply only_fbind; [|intros _; silent].
  apply only_fbind; [|intros _; silent]. apply only_fbind; [silent|intros _]. apply internal_quiet. silent.
Qed.

(** How a run of a handler ends. *)
Definition settled (tr : list Exchange) : Prop :=
  exists before s, tr = before ++ [s] /\ Forall (fun e => settling (x_call e) = false) before /\
    (x_call s = Ack \/ exists d, x_call s = NakWithDelay d /\ retryFirst <= d <= retryCap).

Definition settles (p : Prog unit) : Prop := forall tr, Runs p tr tt -> settled tr.

Lemma settles_quiet {A} (p : Prog A) k : only quiet p -> (forall a, settles (k a)) -> settles (pbind p k).
Proof.
  intros HP HK tr (t1 & a & t2 & H1 & H2 & ->)%runs_bind. destruct (HK _ _ H2) as (b & s & -> & HF & Hs).
  exists (t1 ++ b), s. split; [by rewrite app_assoc|]. split; [|done]. apply Forall_app. split; [|done].
  eapply Forall_impl; [by eapply only_runs|]. intros e He. by apply negb_true_iff.
Qed.

Lemma settles_silent {A} (p : Prog A) k : only internal p -> (forall a, settles (k a)) -> settles (pbind p k).
Proof. intros HP. by apply settles_quiet, internal_quiet. Qed.

Lemma ack_settles : settles (call Ack).
Proof. intros tr ->%runs_call. eexists [], _. split; [done|]. split; [constructor|by left]. Qed.

Lemma nak_settles d : retryFirst <= d <= retryCap -> settles (call (NakWithDelay d)).
Proof. intros Hd tr ->%runs_call. eexists [], _. split; [done|]. split; [constructor|right; by exists d]. Qed.

Lemma backoff_range n : retryFirst <= backoff n <= retryCap.
Proof.
  unfold backoff. set (k := Z.min (Z.max n 1 - 1) 5). assert (0 <= k <= 5) as Hk by lia. clearbody k.
  rewrite Z.shiftl_mul_pow2 by lia. assert (1 <= 2 ^ k) by (apply Z.pow_le_mono_r with (b := 0) (c := k) (a := 2); lia).
  unfold retryFirst, retryCap, Second. lia.
Qed.

Lemma retry_settles n : settles (call (NakWithDelay (backoff n))).
Proof. apply nak_settles, backoff_range. Qed.

Lemma handleQuarantined_settles m x : settles (handleQuarantined cfg m x).
Proof.
  apply settles_silent; [unfold decode_each, DecodeEach, Resolve; silent|]. intros [evs|e].
  - destruct (List.find _ _); [|apply ack_settles]. apply settles_silent; [apply closeQuarantined_silent|].
    intros []; [apply ack_settles|apply retry_settles].
  - destruct (quarantinable _ _); [apply ack_settles|apply retry_settles].
Qed.

(** Whatever the server answers, the dispatcher settles the
    message of a decision exactly once, at the end: it acknowledges it, or asks
    for it again after one to thirty seconds; it never drops it. *)
Theorem event_settled_once m tr : Runs (handle json_text cfg m) tr tt -> settled tr.
Proof.
  revert tr. apply settles_silent; [apply skip_silent|]. intros [[]|e].
  - apply handleQuarantined_settles.
  - apply settles_silent; [apply process_silent|]. intros [u|e]; [apply ack_settles|].
    apply settles_silent; [apply IsQuarantined_silent|]. intros q.
    assert (HN : settles (let! done := (if quarantinable e (ev_delivered m) then
        let! r := quarantine m (execOf (ed_Subject m)) e in Ret (match r with Ok _ => true | Err _ => false end)
      else Ret false) in if (done : bool) then call Ack else call (NakWithDelay (backoff (ev_delivered m))))).
    { apply settles_quiet; [destruct (quarantinable _ _); [|exact I]; apply only_bind; [apply quarantine_quiet|by intros]|].
      intros []; [apply ack_settles|apply retry_settles]. }
    destruct q as [[]|]; [|exact HN..]. apply settles_silent; [silent|]. intros _. apply handleQuarantined_settles.
  - apply nak_settles. unfold retryFirst, retryCap, Second. lia.
Qed.

(** ** Acknowledging *)

(** An acknowledged decision of a quarantined execution: its body is unreadable
    for good, no event that can be read ends the execution, or the effects of the
    one that does were performed. *)
Definition skipped (m : EvDelivery) (x : string) (tr : list Exchange) : Prop :=
  (exists e, within (decode_each m) (Err e) tr /\ quarantinable e (ev_delivered m) = true) \/
  (exists evs, within (decode_each m) (Ok evs) tr /\
    match List.find isTerminal evs with Some ev => within (closeQuarantined cfg x ev) (Ok tt) tr | None => True end).

(** The dispatcher has read, or stored, the mark of the execution. *)
Definition mark_read (x : string) (tr : list Exchange) : Prop :=
  exists v, {| x_call := KvGet (quarantineKey x); x_answer := Ok (Some v) |} ∈ tr.
Definition mark_stored (m : EvDelivery) (x : string) (tr : list Exchange) : Prop :=
  exists reason d k,
    {| x_call := PublishDLQ d k; x_answer := Ok tt |} ∈ tr /\ dl_Key d = x /\
    {| x_call := KvPut (quarantineKey x) (IMark {| qm_Seq := ev_sequence m; qm_Reason := reason |}); x_answer := Ok tt |} ∈ tr.

Lemma skipped_right m x t1 t2 : skipped m x t2 -> skipped m x (t1 ++ t2).
Proof.
  intros [(e & Hd & Hq)|(evs & Hd & Hc)]; [left; exists e|right; exists evs]; (split; [by apply within_right|]); [done|].
  destruct (List.find _ _); [by apply within_right|done].
Qed.

Lemma quiet_not_acked {A} (p : Prog A) tr a : only quiet p -> Runs p tr a -> ~ acked tr.
Proof. intros HP. by apply (not_acked quiet). Qed.

Lemma silent_not_acked {A} (p : Prog A) tr a : only internal p -> Runs p tr a -> ~ acked tr.
Proof. intros HP. by apply (not_acked internal). Qed.

Lemma nak_not_acked d tr : Runs (call (NakWithDelay d)) tr tt -> ~ acked tr.
Proof. intros ->%runs_call Ha. by apply list_elem_of_singleton in Ha. Qed.

Lemma acked_after {A} (p : Prog A) tr t a : only quiet p -> Runs p tr a -> acked (tr ++ t) -> acked t.
Proof. intros HP HR [Ha|Ha]%elem_of_app; [|done]. by destruct (quiet_not_acked _ _ _ HP HR). Qed.

Lemma decode_each_silent m : only internal (decode_each m).
Proof. unfold decode_each, DecodeEach, Resolve. silent. Qed.

Lemma handleQuarantined_acked m x tr : Runs (handleQuarantined cfg m x) tr tt -> acked tr -> skipped m x tr.
Proof.
  intros (t1 & r & t2 & H1 & H2 & ->)%runs_bind Ha.
  apply (acked_after _ _ _ _ (internal_quiet _ (decode_each_silent m)) H1) in Ha. destruct r as [evs|e].
  - right. exists evs. split; [by apply within_left, within_run|]. destruct (List.find isTerminal evs) as [ev|]; [|done].
    apply within_right. apply runs_bind in H2 as (t3 & r & t4 & H3 & H4 & ->).
    apply (acked_after _ _ _ _ (internal_quiet _ (closeQuarantined_silent x ev)) H3) in Ha.
    destruct r as [[]|e]; [by apply within_left, within_run|]. by apply nak_not_acked in H4.
  - left. exists e. split; [by apply within_left, within_run|]. destruct (quarantinable _ _); [done|]. by apply nak_not_acked in H2.
Qed.

Lemma IsQuarantined_mark x tr : Runs (IsQuarantined x) tr (Ok true) -> mark_read x tr.
Proof.
  unfold IsQuarantined, Mark. intros HR. run_ok HR. destruct HR as [-> [= Hq]]. apply bool_decide_eq_true in Hq.
  run_ok H0. apply runs_call in H1 as ->. destruct H0 as [-> [= <-]]. destruct a0 as [v|]; [|by destruct Hq].
  exists v. rewrite !app_nil_r. apply list_elem_of_here.
Qed.

Lemma mark_read_left x t1 t2 : mark_read x t1 -> mark_read x (t1 ++ t2).
Proof. intros (v & Hv). exists v. apply elem_of_app. by left. Qed.
Lemma mark_read_right x t1 t2 : mark_read x t2 -> mark_read x (t1 ++ t2).
Proof. intros (v & Hv). exists v. apply elem_of_app. by right. Qed.

Lemma skip_mark x tr : Runs (skip x) tr (Ok true) -> mark_read x tr.
Proof.
  intros (t1 & b & t2 & H1 & H2 & ->)%runs_bind. apply mark_read_right. destruct b; [|by destruct H2].
  cbn [negb] in H2. run_ok H2. apply mark_read_left. destruct a.
  - by apply IsQuarantined_mark.
  - apply runs_bind in H2 as (t3 & u & t4 & _ & [_ ?] & _). done.
Qed.

Lemma quarantine_stored m x e tr : Runs (quarantine m x e) tr (Ok tt) -> mark_stored m x tr.
Proof.
  unfold quarantine, Quarantine, Projection.Quarantine. intros HR. run_ok HR. apply runs_call in H0 as ->. destruct a.
  run_ok HR. run_ok H0. run_ok H1. apply runs_call in H2 as ->. destruct a1.
  eexists _, _, _. split; [apply elem_of_app; left; apply list_elem_of_here|]. split; [done|].
  apply elem_of_app; right. apply elem_of_app; left. apply elem_of_app; left. apply elem_of_app; left. apply list_elem_of_here.
Qed.

(** What lets the dispatcher acknowledge the message of a decision. *)
Definition accounted (m : EvDelivery) (x : string) (tr : list Exchange) : Prop :=
  within (process json_text cfg m) (Ok tt) tr \/
  mark_read x tr /\ skipped m x tr \/
  mark_stored m x tr /\
    exists e, within (process json_text cfg m) (Err e) tr /\ quarantinable e (ev_delivered m) = true.

(** C9. The dispatcher acknowledges a decision only when
    nothing of it is lost: its effects were all performed and the index was
    updated; or the index says that its execution is quarantined, and if the
    decision ends the execution its closing effects were performed; or handling
    it failed for good, and the failure is recorded as a dead letter and the
    execution as quarantined from that decision on. *)
Theorem acked_event_accounted m tr :
  Runs (handle json_text cfg m) tr tt -> acked tr -> accounted m (execOf (ed_Subject m)) tr.
Proof.
  set (x := execOf (ed_Subject m)). intros (t1 & r & t2 & H1 & H2 & ->)%runs_bind Ha. fold x in H1, H2.
  apply (acked_after _ _ _ _ (internal_quiet _ (skip_silent x)) H1) in Ha. destruct r as [[]|e].
  - right; left. split; [by apply mark_read_left, skip_mark|]. apply handleQuarantined_acked in H2; [|done].
    by apply skipped_right.
  - apply runs_bind in H2 as (t3 & r & t4 & H3 & H4 & ->).
    apply (acked_after _ _ _ _ (internal_quiet _ (process_silent m)) H3) in Ha.
    destruct r as [[]|e]; [left; by apply within_right, within_left, within_run|].
    apply runs_bind in H4 as (t5 & q & t6 & H5 & H6 & ->).
    apply (acked_after _ _ _ _ (internal_quiet _ (IsQuarantined_silent x)) H5) in Ha.
    assert (HE : q = Ok true \/ Runs (let! done := (if quarantinable e (ev_delivered m) then
        let! r := quarantine m x e in Ret (match r with Ok _ => true | Err _ => false end) else Ret false) in
        if (done : bool) then call Ack else call (NakWithDelay (backoff (ev_delivered m)))) t6 tt)
      by (destruct q as [[]|]; auto).
    destruct HE as [->|HN].
    + right; left. apply IsQuarantined_mark in H5. split; [by apply mark_read_right, mark_read_right, mark_read_left|].
      destruct H6 as (u & t & -> & H6). apply elem_of_cons in Ha as [|Ha]; [done|]. 
      apply handleQuarantined_acked in H6; [|done]. do 3 apply skipped_right. by apply (skipped_right _ _ [_]).
    + right; right. apply runs_bind in HN as (t7 & done & t8 & H7 & H8 & ->).
      destruct (quarantinable e (ev_delivered m)) eqn:Eq; [|destruct H7 as [-> <-]; by apply nak_not_acked in H8].
      apply runs_bind in H7 as (t9 & r & t10 & H9 & [-> <-] & ->). rewrite app_nil_r in *.
      apply (acked_after _ _ _ _ (quarantine_quiet m x e) H9) in Ha.
      destruct r as [[]|]; [|by apply nak_not_acked in H8]. split.
      * apply quarantine_stored in H9 as (reason & d & k & Hd & Hk & Hm). exists reason, d, k.
        split; [|split; [done|]]; rewrite !elem_of_app; tauto.
      * exists e. split; [by apply within_right, within_left, within_run|done].
  - by apply nak_not_acked in H2.
Qed.
End Quiet.

(** ** Effects *)

Section Effects.
Context `{Evaluator}.
Context (json_text : Json -> string) (cfg : Config).

(** A command was published, and the engine reads the payload it was made with. *)
Definition carries (c : Command) (t : CmdType) (x : string) (p : CmdPayload) : Prop :=
  c_Type c = t /\ c_ExecID c = x /\ (in_range p -> Payload (decode_like p) c = Ok (recode p)).
Definition sent (t : CmdType) (x : string) (p : CmdPayload) (tr : list Exchange) : Prop :=
  exists c trace blob, carries c t x p /\ Cmd.Validate c = None /\
    {| x_call := Perform (PublishCommand c (msgID c) trace blob); x_answer := Ok tt |} ∈ tr.

Lemma sent_left t x p t1 t2 : sent t x p t1 -> sent t x p (t1 ++ t2).
Proof. intros (c & tc & b & Hc & Hv & Hin). exists c, tc, b. split; [done|]. split; [done|]. apply elem_of_app. by left. Qed.
Lemma sent_right t x p t1 t2 : sent t x p t2 -> sent t x p (t1 ++ t2).
Proof. intros (c & tc & b & Hc & Hv & Hin). exists c, tc, b. split; [done|]. split; [done|]. apply elem_of_app. by right. Qed.

Lemma New_carries id t x p c : New id t x (Some p) = Ok c -> carries c t x p.
Proof.
  intros HN. split; [|split]; [..|intros Hr; by eapply New_payload];
    unfold New in HN; destruct (encode_payload p); [by injection HN as <-|done|by injection HN as <-|done].
Qed.

Lemma annotate_ok {A} fmt (r : result A) a : annotate fmt r = Ok a -> r = Ok a.
Proof. by destruct r. Qed.

Lemma PublishCmd_sent c trace tr :
  Runs (PublishCmd cfg c trace) tr (Ok tt) ->
  Cmd.Validate c = None /\ exists blob, {| x_call := Perform (PublishCommand c (msgID c) trace blob); x_answer := Ok tt |} ∈ tr.
Proof.
  unfold PublishCmd. destruct (Cmd.Validate c); [by intros [_ ?]|]. intros HR. split; [done|]. run_ok HR.
  exists a. apply elem_of_app; right. destruct HR as (r & t' & -> & [-> Hr]). apply annotate_ok in Hr as ->. apply list_elem_of_here.
Qed.

Lemma publish_sent id t x p trace tr :
  Runs (try! c := lift (New id t x (Some p)) in PublishCmd cfg c trace) tr (Ok tt) -> sent t x p tr.
Proof.
  intros HR. run_ok HR. apply runs_lift in H0 as [-> HN]. symmetry in HN. apply PublishCmd_sent in HR as (Hv & b & Hin).
  exists a, trace, b. split; [by eapply New_carries|done].
Qed.

Lemma for_each_done {A} (l : list A) f tr : Runs (for_each l f) tr (Ok tt) -> Forall (fun a => within (f a) (Ok tt) tr) l.
Proof.
  revert tr. induction l as [|a l IH]; intros tr; cbn [for_each]; [constructor|]. intros HR. run_ok HR. destruct a0. constructor.
  - by apply within_left, within_run.
  - apply IH in HR. eapply Forall_impl; [exact HR|]. intros. by apply within_right.
Qed.

Lemma within_sent t x p (q : Prog (result unit)) tr :
  (forall tr, Runs q tr (Ok tt) -> sent t x p tr) -> within q (Ok tt) tr -> sent t x p tr.
Proof. intros HQ (t1 & t2 & t3 & -> & HR). by apply sent_right, sent_left, HQ. Qed.

Definition cancel (reason : string) : CmdPayload := PCancel {| CancelData_Reason := reason |}.

Lemma cancelChildren_sent children reason trace tr :
  Runs (cancelChildren cfg children reason trace) tr (Ok tt) -> Forall (fun x => sent CCancel x (cancel reason) tr) children.
Proof.
  intros HR%for_each_done. eapply Forall_impl; [exact HR|]. intros x. cbn beta. apply within_sent. intros. by eapply publish_sent.
Qed.

(** A command was scheduled at a time, under a timer of the execution. *)
Definition scheduled (x timer : string) (at_ : Z) (c : Command) (tr : list Exchange) : Prop :=
  {| x_call := Perform (ScheduleCommand x timer at_ c); x_answer := Ok tt |} ∈ tr.

Lemma schedule_scheduled x timer at_ c tr : Runs (schedule x timer at_ c) tr (Ok tt) -> scheduled x timer at_ c tr.
Proof.
  intros (t1 & r & t2 & H1 & [-> Hr] & ->)%runs_bind. apply annotate_ok in Hr as ->.
  destruct H1 as (r & t' & -> & [-> Hr]). apply annotate_ok in Hr as ->. apply list_elem_of_here.
Qed.

(** What the parent of an execution is told. *)
Definition outcome (st : State) : CmdPayload := PChildDone {|
  ChildDoneData_ChildID := s_ExecID st; ChildDoneData_Status := status_string (s_Status st);
  ChildDoneData_Output := s_Output st; ChildDoneData_Error := render (s_Error st);
  ChildDoneData_Counters := s_Counters st |}.

(** The effects of the end of an execution. *)
Definition closed (ent : Entry) (ev : FoldEvent) (tr : list Exchange) : Prop :=
  let st := en_State ent in
  Forall (fun x => sent CCancel x (cancel "parent closed") tr) (children_of ev) /\
  (forall p, s_Parent st = Some p -> sent CChildDone (pr_ExecID p) (outcome st) tr) /\
  (forall def, en_Def ent = Some def -> 0 < f_Retention def -> exists c,
    scheduled (s_ExecID st) TimerExpire (ev_Time ev + f_Retention def) c tr /\
    c_Type c = (if DeletesOnExpire def then CDelete else CArchive) /\ c_ExecID c = s_ExecID st).

(** The job of an attempt, or the result the cache has for it. *)
Definition offered (x : string) (s : Scheduled) (tr : list Exchange) : Prop :=
  (exists j blob, jb_ExecID j = x /\ jb_Key j = Scheduled_Key s /\ jb_Generation j = Scheduled_Generation s /\
    jb_Attempt j = Scheduled_Attempt s /\
    {| x_call := Perform (PublishJob j (JobMsgID x (Scheduled_Key s) (Scheduled_Generation s) (Scheduled_Attempt s)) blob);
       x_answer := Ok tt |} ∈ tr) \/
  (exists j ce, jb_Key j = Scheduled_Key s /\ jb_Generation j = Scheduled_Generation s /\
    jb_Attempt j = Scheduled_Attempt s /\ sent CComplete x (cached_payload j ce) tr).

(** What an event asks for was done, in the state after it. *)
Definition effected (ent : Entry) (ev : FoldEvent) (tr : list Exchange) : Prop :=
  let st := en_State ent in
  match ev_Data ev with
  | DScheduled s =>
      forall t, s_Tasks st !! Scheduled_Key s = Some t -> t_Generation t = Scheduled_Generation s ->
        t_Attempt t = Scheduled_Attempt s ->
        offered (s_ExecID st) s tr \/ within (endedAtHead cfg (s_ExecID st) (ev_Seq ev) s) (Ok true) tr
  | DTimer t => exists c, scheduled (s_ExecID st) (Timer_ID t) (Timer_At t) c tr /\
      carries c CTimer (s_ExecID st) (PTimer {| TimerData_TimerID := Timer_ID t |})
  | DChild c => sent CStart (Child_ChildID c) (PStart {|
      StartData_Flow := Child_Flow c; StartData_Version := ""; StartData_Input := Child_Input c;
      StartData_Parent := Some {| pr_ExecID := s_ExecID st; pr_Node := Child_Node c; pr_ChildN := Child_ChildN c |} |}) tr
  | DJoin d => Forall (fun x => sent CCancel x (cancel "join settled") tr) (Join_CancelChildren d)
  | DMapAbort d => Forall (fun x => sent CCancel x (cancel "map aborted") tr) (MapAbort_CancelChildren d)
  | DCompleted _ | DFailed _ | DCancelled _ => closed ent ev tr
  | _ => True
  end.

Lemma sent_in t x p t0 tr t2 : sent t x p tr -> sent t x p (t0 ++ tr ++ t2).
Proof. intros. by apply sent_right, sent_left. Qed.
Lemma within_in {A} (p : Prog A) a t0 tr t2 : within p a tr -> within p a (t0 ++ tr ++ t2).
Proof. intros. by apply within_right, within_left. Qed.
Lemma call_in (e : Exchange) t0 tr t2 : e ∈ tr -> e ∈ t0 ++ tr ++ t2.
Proof. rewrite !elem_of_app. tauto. Qed.

Lemma all_sent_in t p l t0 tr t2 : Forall (fun x => sent t x p tr) l -> Forall (fun x => sent t x p (t0 ++ tr ++ t2)) l.
Proof. intros HF. eapply Forall_impl; [exact HF|]. intros. by apply sent_in. Qed.

Lemma closed_in ent ev t0 tr t2 : closed ent ev tr -> closed ent ev (t0 ++ tr ++ t2).
Proof.
  intros (HC & HP & HE). split; [by apply all_sent_in|]. split; [intros p Hp; by apply sent_in, HP|].
  intros def Hd Hr. destruct (HE def Hd Hr) as (c & Hc & Hx). exists c. split; [by apply call_in|done].
Qed.

Lemma offered_in x s t0 tr t2 : offered x s tr -> offered x s (t0 ++ tr ++ t2).
Proof.
  intros [(j & b & ? & ? & ? & ? & Hin)|(j & ce & ? & ? & ? & Hs)]; [left; exists j, b|right; exists j, ce].
  - split_and!; try done. by apply call_in.
  - split_and!; try done. by apply sent_in.
Qed.

Lemma offered_right x s t0 tr : offered x s tr -> offered x s (t0 ++ tr).
Proof. intros HO. rewrite <- (app_nil_r tr). by apply offered_in. Qed.

Lemma effected_in ent ev t0 tr t2 : effected ent ev tr -> effected ent ev (t0 ++ tr ++ t2).
Proof.
  unfold effected. destruct (ev_Data ev); try done; try apply closed_in; try apply all_sent_in; try apply sent_in.
  - intros HO t Ht Hg Ha. destruct (HO t Ht Hg Ha); [left; by apply offered_in|right; by apply within_in].
  - intros (c & Hc & Hx). exists c. split; [by apply call_in|done].
Qed.

Lemma terminal_closed ent ev tr : Runs (terminal cfg ent ev) tr (Ok tt) -> closed ent ev tr.
Proof.
  unfold terminal. intros HR. run_ok HR. destruct a. apply cancelChildren_sent in H0. run_ok HR. destruct a.
  apply runs_bind in HR as (t3 & u & t4 & _ & HR & ->). split; [|split].
  - eapply Forall_impl; [exact H0|]. intros. by apply sent_left.
  - intros p Hp. apply sent_right, sent_left. unfold notifyParent in H1. rewrite Hp in H1. by eapply publish_sent.
  - intros def Hd Hr. rewrite Hd in HR. apply Z.ltb_lt in Hr. rewrite Hr in HR. unfold scheduleExpiry in HR. run_ok HR.
    apply runs_lift in H2 as [-> HN]. injection HN as ->. exists (Build_Command
      ((if DeletesOnExpire def then "delete" else "archive") +:+ "." +:+ s_ExecID (en_State ent))
      (if DeletesOnExpire def then CDelete else CArchive) (s_ExecID (en_State ent)) 0 None "").
    apply schedule_scheduled in HR. split; [|done]. do 3 (apply elem_of_app; right). exact HR.
Qed.

Lemma publishJob_offered j tr :
  Runs (publishJob cfg j) tr (Ok tt) -> exists blob,
    {| x_call := Perform (PublishJob j (JobMsgID (jb_ExecID j) (jb_Key j) (jb_Generation j) (jb_Attempt j)) blob); x_answer := Ok tt |} ∈ tr.
Proof.
  unfold publishJob. intros HR. run_ok HR. exists a. apply elem_of_app; right.
  destruct HR as (r & t' & -> & [-> Hr]). apply annotate_ok in Hr as ->. apply list_elem_of_here.
Qed.

Lemma cachedResult_sent j tr :
  Runs (cachedResult cfg j) tr (Ok true) -> exists ce, sent CComplete (jb_ExecID j) (cached_payload j ce) tr.
Proof.
  unfold cachedResult. intros HR. run_ok HR. apply runs_bind in HR as (t1 & entry & t2 & _ & HR & ->).
  destruct entry as [[ce|]| |]; try by destruct HR. apply runs_bind in HR as (t3 & now & t4 & _ & HR & ->).
  destruct (_ <? _); [by destruct HR|]. exists ce. do 3 apply sent_right.
  run_ok HR. apply runs_lift in H1 as [-> HN]. symmetry in HN. run_ok HR. destruct a1.
  apply PublishCmd_sent in H1 as (Hv & b & Hin). eexists a0, _, b.
  split; [by eapply New_carries|]. split; [done|]. apply elem_of_app; right. apply elem_of_app; left. exact Hin.
Qed.

Lemma job_for_offered n env v j s tr :
  jb_Key j = Scheduled_Key s -> jb_Generation j = Scheduled_Generation s -> jb_Attempt j = Scheduled_Attempt s ->
  Runs (job_for json_text cfg n env v j) tr (Ok tt) -> offered (jb_ExecID j) s tr.
Proof.
  intros Hk Hg Ha. unfold job_for. set (j' := if bool_decide _ then _ else j). 
  assert (Hj : jb_ExecID j' = jb_ExecID j /\ jb_Key j' = Scheduled_Key s /\ jb_Generation j' = Scheduled_Generation s /\
    jb_Attempt j' = Scheduled_Attempt s) by (unfold j'; case_bool_decide; done).
  clearbody j'. destruct Hj as (Hx & Hk' & Hg' & Ha'). intros HR. run_ok HR. destruct a.
  - right. destruct (bool_decide _); [|by destruct H0]. apply cachedResult_sent in H0 as (ce & Hs). exists j', ce.
    split_and!; try done. rewrite Hx in Hs. by apply sent_left.
  - left. run_ok HR. apply publishJob_offered in HR as (b & Hin). destruct j'. cbn in *. subst. eexists _, b.
    split_and!; [..|do 2 (apply elem_of_app; right); exact Hin]; done.
Qed.

Lemma job_offered ent ev s tr t :
  s_Tasks (en_State ent) !! Scheduled_Key s = Some t -> t_Generation t = Scheduled_Generation s ->
  t_Attempt t = Scheduled_Attempt s -> Runs (job json_text cfg ent ev s) tr (Ok tt) ->
  offered (s_ExecID (en_State ent)) s tr \/ within (endedAtHead cfg (s_ExecID (en_State ent)) (ev_Seq ev) s) (Ok true) tr.
Proof.
  intros Ht Hg Ha. unfold job. rewrite Ht, Hg, Ha, !Z.eqb_refl. cbn [negb orb]. intros HR. run_ok HR. destruct a.
  - right. by apply within_left, within_run.
  - left. do 4 (run_ok HR). do 5 apply offered_right. by apply (job_for_offered _ _ _ _ s) in HR.
Qed.

Lemma effects_effected ent ev tr : Runs (effects json_text cfg ent ev) tr (Ok tt) -> effected ent ev tr.
Proof.
  unfold effects, effected. destruct (ev_Data ev); try done; intros HR;
    try (by apply terminal_closed); try (by eapply cancelChildren_sent).
  - intros t Ht Hg Ha. by eapply job_offered.
  - by eapply publish_sent.
  - unfold timer in HR. run_ok HR. apply runs_lift in H0 as [-> HN]. symmetry in HN. exists a.
    split; [by apply schedule_scheduled|by eapply New_carries].
Qed.

(** ** Decisions *)

Definition dispatch_step (def : option Flow) (st : State) (ev : FoldEvent) : result State :=
  let? st := Apply def st ev in Ok (set_LastSeq (ev_Seq ev) st).

Lemma apply_events_effected evs ent stop tr ent' stop' :
  Runs (apply_events json_text cfg ent stop evs) tr (Ok (ent', stop')) ->
  en_Def ent' = en_Def ent /\
  res_fold (dispatch_step (en_Def ent)) (en_State ent) evs = Ok (en_State ent') /\
  forall evs1 ev evs2, evs = evs1 ++ ev :: evs2 -> exists st,
    res_fold (dispatch_step (en_Def ent)) (en_State ent) (evs1 ++ [ev]) = Ok st /\
    effected {| en_State := st; en_Def := en_Def ent |} ev tr.
Proof.
  revert ent stop tr. induction evs as [|ev evs IH]; intros ent stop tr; cbn [apply_events res_fold].
  { intros [-> [= -> _]]. split; [done|]. split; [done|]. by intros [] ? ?. }
  intros HR. run_ok HR. apply runs_lift in H0 as [-> HA]. symmetry in HA. run_ok HR. destruct a0.
  apply effects_effected in H0. destruct (IH _ _ _ HR) as (Hd & Hf & HE). cbn [en_Def en_State] in *.
  assert (HS : dispatch_step (en_Def ent) (en_State ent) ev = Ok (set_LastSeq (ev_Seq ev) a)) by (unfold dispatch_step; by rewrite HA).
  split; [done|]. rewrite HS. split; [done|]. intros [|ev1 evs1] ev2 evs2 [= -> ->].
  - cbn [app res_fold]. rewrite HS. eexists. split; [done|]. by apply (effected_in _ _ []).
  - destruct (HE evs1 ev2 evs2 eq_refl) as (st & Hs & He). exists st. cbn [app res_fold]. rewrite HS. split; [done|].
    cbn [app]. rewrite <- (app_nil_r (_ ++ _)), <- app_assoc. by apply effected_in.
Qed.

(** C10. Handling a decision that succeeds has done all of it:
    unless the execution is gone, every event was folded into the state before
    the decision, what each event asks for was done in the state after it (the
    job of an attempt, unless the attempt is over at the head of the log or its
    result was cached; the command of a timer at its time; the start of a child
    with its parent; the cancellation of children; the notice to the parent of an
    execution that ended, and its expiry), every command sent is valid and is read
    by the engine with the payload meant, and the state after the decision is
    kept and indexed. *)
Theorem decision_dispatched x evs tr :
  Runs (applyDecision json_text cfg x evs) tr (Ok tt) ->
  exists cached first, head evs = Some first /\
    (within (stateBefore cfg cached x first) (Ok None) tr \/
     exists ent st, within (stateBefore cfg cached x first) (Ok (Some ent)) tr /\
       res_fold (dispatch_step (en_Def ent)) (en_State ent) evs = Ok st /\
       {| x_call := CachePut x {| en_State := st; en_Def := en_Def ent |}; x_answer := tt |} ∈ tr /\
       {| x_call := KvPut (summaryKey (s_ExecID st)) (ISummary (SummaryOf st)); x_answer := Ok tt |} ∈ tr /\
       forall evs1 ev evs2, evs = evs1 ++ ev :: evs2 -> exists st1,
         res_fold (dispatch_step (en_Def ent)) (en_State ent) (evs1 ++ [ev]) = Ok st1 /\
         effected {| en_State := st1; en_Def := en_Def ent |} ev tr).
Proof.
  intros (t1 & cached & t2 & _ & HR & ->)%runs_bind. apply runs_bind in HR as (t3 & r & t4 & H1 & HR & ->). exists cached.
  destruct evs as [|first evs]; [destruct H1 as [-> <-]; destruct HR as (? & ? & -> & [_ ?]); done|].
  exists first. split; [done|]. destruct r as [o|e]; [|by destruct HR as (? & ? & -> & [_ ?])].
  cbn [handle_events] in H1. run_ok H1. destruct a as [ent|].
  - right. run_ok H1. destruct a as [ent' stop]. destruct H1 as [-> [= <-]]. rewrite app_nil_r.
    destruct (apply_events_effected _ _ _ _ _ _ H2) as (Hd & Hf & HE). destruct ent' as [st def]. cbn [en_State en_Def] in *. subst def.
    exists ent, st. split; [by apply within_right, within_left, within_left, within_run|]. split; [done|].
    destruct HR as (u & t9 & -> & HR). destruct u. cbn [pbind hn_Entry] in HR. unfold finish in HR.
    apply runs_bind in HR as (t5 & u & t6 & _ & HR & ->). cbn [hn_Entry en_State] in HR. unfold IndexFrom, index in HR.
    run_ok HR. apply runs_call in H1 as ->. destruct a. split; [|split].
    + rewrite !elem_of_app. right; right. apply list_elem_of_here.
    + apply elem_of_app; right. apply elem_of_app; right. apply elem_of_cons; right. apply elem_of_app; right.
      apply list_elem_of_here.
    + intros evs1 ev evs2 Hev. destruct (HE evs1 ev evs2 Hev) as (st1 & Hs & He). exists st1. split; [done|].
      rewrite <- !app_assoc. rewrite (app_assoc t1). by apply effected_in.
  - left. by apply within_right, within_left, within_left, within_run.
Qed.
End Effects.

(** ** Who is quarantined, and which jobs are sent *)

Section Guards.
Context `{Evaluator}.
Context (json_text : Json -> string) (cfg : Config).

(** A mark of quarantine was written. *)
Definition marked (tr : list Exchange) : Prop :=
  exists key v r, marks key = true /\ {| x_call := KvPut key v; x_answer := r |} ∈ tr.

Definition unmarking (c : Call) : bool := match c with KvPut key _ => negb (marks key) | _ => true end.

Lemma internal_unmarking {A} (p : Prog A) : only internal p -> only unmarking p.
Proof. apply only_weaken. by intros []. Qed.

Lemma unmarked {A} (p : Prog A) tr a : only unmarking p -> Runs p tr a -> ~ marked tr.
Proof.
  intros HP HR (key & v & r & Hk & Hin). pose proof (only_runs _ _ _ _ HP HR) as HF. rewrite Forall_forall in HF.
  specialize (HF _ Hin). simpl in HF. by rewrite Hk in HF.
Qed.

Lemma marked_after {A} (p : Prog A) tr t a : only unmarking p -> Runs p tr a -> marked (tr ++ t) -> marked t.
Proof.
  intros HP HR (key & v & r & Hk & [Hin|Hin]%elem_of_app); [|by exists key, v, r]. destruct (unmarked _ _ _ HP HR).
  by exists key, v, r.
Qed.

Lemma handleQuarantined_unmarking m x : only unmarking (handleQuarantined cfg m x).
Proof.
  unfold handleQuarantined. apply only_bind; [apply internal_unmarking, decode_each_silent|]. intros [evs|e].
  - destruct (List.find _ _); [|silent]. apply only_bind; [apply internal_unmarking, closeQuarantined_silent|]. intros. silent.
  - silent.
Qed.

(** The dispatcher quarantines an execution only when
    handling one of its decisions failed in a way that retrying cannot fix, and a
    failure that may come from a replica that lags only from the third delivery
    on; any other failure is retried. *)
Theorem quarantined_only_final m tr :
  Runs (handle json_text cfg m) tr tt -> marked tr ->
  exists e, within (process json_text cfg m) (Err e) tr /\ Deterministic e = true /\
    (errors_is e ErrObjectNotFound || errors_is e ErrUnknownFlow = true -> notFoundGrace <= ev_delivered m).
Proof.
  set (x := execOf (ed_Subject m)). intros (t1 & r & t2 & H1 & H2 & ->)%runs_bind Hm. fold x in H1, H2.
  apply (marked_after _ _ _ _ (internal_unmarking _ (skip_silent x)) H1) in Hm.
  assert (HN : forall d t, Runs (call (NakWithDelay d)) t tt -> ~ marked t) by (intros d t; apply unmarked; silent).
  destruct r as [[]|e]; [by destruct (unmarked _ _ _ (handleQuarantined_unmarking m x) H2)| |by destruct (HN _ _ H2)].
  apply runs_bind in H2 as (t3 & r & t4 & H3 & H4 & ->).
  apply (marked_after _ _ _ _ (internal_unmarking _ (process_silent json_text cfg m)) H3) in Hm.
  destruct r as [[]|e]; [by eapply (unmarked (call Ack)) in Hm; [|silent|exact H4]|].
  exists e. split; [by apply within_right, within_left, within_run|].
  apply runs_bind in H4 as (t5 & q & t6 & H5 & H6 & ->).
  apply (marked_after _ _ _ _ (internal_unmarking _ (IsQuarantined_silent x)) H5) in Hm.
  destruct (quarantinable e (ev_delivered m)) eqn:Eq.
  - unfold quarantinable in Eq. destruct (errors_is e ErrObjectNotFound || errors_is e ErrUnknownFlow) eqn:Ek; [|done].
    apply Z.leb_le in Eq. split; [|done]. unfold Deterministic. apply orb_prop in Ek as [-> | ->]; by rewrite ?orb_true_r.
  - exfalso. assert (only unmarking (match q with
      | Ok true => let! _ := call (QuarantineSet x true) in handleQuarantined cfg m x
      | _ => let! done := Ret false in if (done : bool) then call Ack else call (NakWithDelay (backoff (ev_delivered m)))
      end)) as Ho; [|by destruct (unmarked _ _ _ Ho H6)].
    destruct q as [[]|]; [|silent..]. apply only_bind; [silent|intros _; apply handleQuarantined_unmarking].
Qed.

(** The attempt runs in a state. *)
Definition runs_in (st : State) (s : Scheduled) : Prop :=
  Terminal (s_Status st) = false /\
  exists t, s_Tasks st !! Scheduled_Key s = Some t /\ t_Generation t = Scheduled_Generation s /\
    t_Attempt t = Scheduled_Attempt s /\ t_Status t = TaskScheduled.

Lemma live_runs h s : live h s = true -> runs_in (hd_st h) s.
Proof.
  unfold live. intros [Ht%negb_true_iff HL]%andb_prop. split; [done|]. destruct (s_Tasks _ !! _) as [t|]; [|done]. exists t.
  apply andb_prop in HL as [[Hg%Z.eqb_eq Ha%Z.eqb_eq]%andb_prop Hs%bool_decide_eq_true]. done.
Qed.

(** The state was loaded from the head of the log just now. *)
Definition loaded (x : string) (h : Head) (tr : list Exchange) : Prop :=
  exists t1 t2 def, tr = t1 ++ t2 /\ Runs (Load cfg x 0) t2 (Ok (hd_st h, def)) /\ hd_seq h = s_LastSeq (hd_st h).

Definition no_job (c : Call) : bool := match c with Perform (PublishJob _ _ _) => false | _ => true end.
Definition job_sent (j : Job) (tr : list Exchange) : Prop :=
  exists id blob r, {| x_call := Perform (PublishJob j id blob); x_answer := r |} ∈ tr.

Lemma no_job_sent {A} (p : Prog A) tr a j : only no_job p -> Runs p tr a -> job_sent j tr -> False.
Proof.
  intros HP HR (id & b & r & Hin). pose proof (only_runs _ _ _ _ HP HR) as HF. rewrite Forall_forall in HF. by specialize (HF _ Hin).
Qed.

Lemma nothing_sent j : ~ job_sent j [].
Proof. by intros (? & ? & ? & Hin%elem_of_nil). Qed.

Lemma job_sent_app j t1 t2 : job_sent j (t1 ++ t2) -> job_sent j t1 \/ job_sent j t2.
Proof. intros (id & b & r & [Hin|Hin]%elem_of_app); [left|right]; by exists id, b, r. Qed.

(** Why [endedAtHead] let an attempt through: a state of the head in memory, the
    last sequence of the log, or the state at the head. *)
Lemma endedAtHead_false x seq s tr :
  Runs (endedAtHead cfg x seq s) tr (Ok false) ->
  (exists h, {| x_call := HeadView x seq; x_answer := Some h |} ∈ tr /\ live h s = true) \/
  (exists last, {| x_call := EvLast x; x_answer := Ok last |} ∈ tr /\ default 0 last <= seq) \/
  (exists last t1 t2 t3 st def, tr = t1 ++ {| x_call := EvLast x; x_answer := Ok last |} :: t2 ++ t3 /\
     seq < default 0 last /\ Runs (Load cfg x 0) t2 (Ok (st, def)) /\ runs_in st s).
Proof.
  intros (hv & t & -> & HR). destruct hv as [h|].
  - destruct HR as [-> [= Hl]]. left. exists h. split; [apply list_elem_of_here|by apply negb_false_iff].
  - right. cbn [pbind] in HR. apply runs_bind in HR as (t1 & r & t2 & (l & t' & -> & [-> Hl]) & HR & ->).
    destruct r as [last|e]; [|by destruct HR as (? & ? & -> & [_ ?])]. destruct l as [l|]; [|done]. injection Hl as <-.
    destruct (Z.leb_spec (default 0 l) seq) as [Hle|Hgt].
    + left. exists l. split; [|done]. apply elem_of_cons; right. apply list_elem_of_here.
    + right. run_ok HR. destruct a as [st def]. destruct HR as (u & t' & -> & [-> [= Hl]]).
      eexists l, [_], t, [_], st, def. split; [reflexivity|]. split; [done|]. split; [done|].
      by apply (live_runs {| hd_seq := s_LastSeq st; hd_st := st |}), negb_false_iff.
Qed.

Lemma endedAtHead_no_job x seq s : only no_job (endedAtHead cfg x seq s).
Proof.
  apply only_bind; [silent|]. intros [h|]; [silent|]. apply only_bind; [unfold LastSeq; silent|]. intros [last|e]; [|silent].
  destruct (_ <=? _); [silent|]. apply only_fbind; [|intros []; silent]. eapply only_weaken; [|apply Load_silent]. by intros [].
Qed.

Lemma job_for_same n env v j0 tr r j :
  Runs (job_for json_text cfg n env v j0) tr r -> job_sent j tr ->
  jb_ExecID j = jb_ExecID j0 /\ jb_Key j = jb_Key j0 /\ jb_Generation j = jb_Generation j0 /\ jb_Attempt j = jb_Attempt j0.
Proof.
  pose proof (nothing_sent j) as Hnil. unfold job_for. set (j' := if bool_decide _ then _ else j0). intros HR Hs.
  assert (Hj : jb_ExecID j' = jb_ExecID j0 /\ jb_Key j' = jb_Key j0 /\ jb_Generation j' = jb_Generation j0 /\
    jb_Attempt j' = jb_Attempt j0) by (unfold j'; case_bool_decide; done). clearbody j'.
  assert (HC : only no_job (if bool_decide (is_Some (n_Cache n)) then cachedResult cfg j' else ok false)).
  { unfold cachedResult, PublishCmd, offload_object. silent. }
  apply runs_bind in HR as (t1 & hit & t2 & H1 & HR & ->).
  apply job_sent_app in Hs as [Hs|Hs]; [by eapply no_job_sent in Hs|].
  destruct hit as [[]|]; [by destruct HR as [-> _]| |by destruct HR as [-> _]].
  apply runs_bind in HR as (t3 & lim & t4 & [-> _] & HR & ->). cbn [app] in Hs.
  destruct lim as [lim|]; [|by destruct HR as [-> _]].
  apply runs_bind in HR as (t5 & blob & t6 & H5 & HR & ->).
  apply job_sent_app in Hs as [Hs|Hs]; [eapply no_job_sent in Hs; [done| |exact H5]; unfold offload_object; silent|].
  destruct blob as [blob|]; [|by destruct HR as [-> _]].
  destruct HR as (r' & t' & -> & [-> _]). destruct Hs as (id & b & r1 & Hin%list_elem_of_singleton).
  injection Hin as -> _ _ _. done.
Qed.

(** *** What precedes a job, and a head that is kept *)

(** The job is for the attempt that the event schedules, which is the current one
    of its task in the state after the event. *)
Definition of_attempt (ent : Entry) (ev : FoldEvent) (s : Scheduled) (j : Job) : Prop :=
  ev_Data ev = DScheduled s /\
  (exists st st', Apply (en_Def ent) st ev = Ok st' /\ en_State ent = set_LastSeq (ev_Seq ev) st') /\
  jb_ExecID j = s_ExecID (en_State ent) /\ jb_Key j = Scheduled_Key s /\
  jb_Generation j = Scheduled_Generation s /\ jb_Attempt j = Scheduled_Attempt s /\
  exists t, s_Tasks (en_State ent) !! Scheduled_Key s = Some t /\ t_Generation t = jb_Generation j /\ t_Attempt t = jb_Attempt j.

Definition careful (past : list Exchange) (e : Exchange) : Prop :=
  match x_call e with
  | HeadPut x h => loaded x h past
  | Perform (PublishJob j _ _) =>
      exists ent ev s t t1 t2, past = t ++ t1 ++ t2 /\ of_attempt ent ev s j /\
        Runs (endedAtHead cfg (jb_ExecID j) (ev_Seq ev) s) t1 (Ok false)
  | _ => True
  end.
Definition checked {A} (p : Prog A) : Prop := forall past tr a, Runs p tr a -> follows careful past tr.

Lemma checked_bind {A B} (p : Prog A) (k : A -> Prog B) : checked p -> (forall a, checked (k a)) -> checked (pbind p k).
Proof. intros HP HK past tr b (t1 & a & t2 & H1 & H2 & ->)%runs_bind. apply follows_app. split; [by eapply HP|by eapply HK]. Qed.
Lemma checked_fbind {A B} (p : Prog (result A)) (k : A -> Prog (result B)) :
  checked p -> (forall a, checked (k a)) -> checked (fbind p k).
Proof. intros HP HK. apply checked_bind; [done|]. intros [a|e]; [done|]. by intros past tr b [-> _]. Qed.

Definition ordinary (c : Call) : bool := match c with HeadPut _ _ | Perform (PublishJob _ _ _) => false | _ => true end.
Lemma checked_only {A} (p : Prog A) : only ordinary p -> checked p.
Proof.
  intros HP past tr a HR. apply follows_all. eapply Forall_impl; [by eapply only_runs|]. intros [c r] Hc past'.
  unfold careful. cbn in *. destruct c; try done. by destruct c.
Qed.
Lemma reads_ordinary {A} (p : Prog A) : only reads p -> only ordinary p.
Proof. apply only_weaken. by intros []. Qed.

Create HintDb careful.
Ltac careful_step :=
  match goal with
  | |- checked (pbind _ _) => apply checked_bind; [|intros ?]
  | |- checked (fbind _ _) => apply checked_fbind; [|intros ?]
  | |- checked (if ?b then _ else _) => destruct b
  | |- checked (match ?x with _ => _ end) => destruct x
  | |- _ => solve [eauto with careful] || (apply checked_only; solve [silent])
  end.
Ltac careful := repeat careful_step.
Hint Extern 1 (only ordinary _) => apply reads_ordinary; solve [eauto with silent] : silent.
Hint Resolve Load_silent DefOf_silent : silent.

Lemma endedAtHead_careful x seq s : checked (endedAtHead cfg x seq s).
Proof.
  apply checked_bind; [apply checked_only; silent|]. intros [h|]; [by apply checked_only|].
  apply checked_bind; [apply checked_only; unfold LastSeq; silent|]. intros [last|e]; [|apply checked_only; silent].
  destruct (_ <=? _); [apply checked_only; silent|]. intros past tr r [(e & -> & HL)|HR]%runs_fbind.
  { eapply checked_only; [|exact HL]. apply reads_ordinary, Load_silent. }
  destruct HR as ([st def] & t1 & t2 & -> & HL & (u & t' & -> & [-> _])). apply follows_app. split.
  - eapply checked_only; [|exact HL]. apply reads_ordinary, Load_silent.
  - split; [|exact I]. cbn. exists past, t1, def. done.
Qed.

Lemma follows_intro (P : list Exchange -> Exchange -> Prop) past tr :
  (forall b e a, tr = b ++ e :: a -> P (past ++ b) e) -> follows P past tr.
Proof.
  revert past. induction tr as [|e tr IH]; intros past HP; [exact I|]. split.
  - rewrite <- (app_nil_r past). by apply (HP [] e tr).
  - apply IH. intros b e' a ->. rewrite <- app_assoc. by apply (HP (e :: b) e' a).
Qed.

Lemma job_careful ent ev s :
  ev_Data ev = DScheduled s ->
  (exists st st', Apply (en_Def ent) st ev = Ok st' /\ en_State ent = set_LastSeq (ev_Seq ev) st') ->
  checked (job json_text cfg ent ev s).
Proof.
  intros Hd Hf. unfold job. destruct (s_Tasks _ !! _) as [t|] eqn:Et; [|by apply checked_only].
  destruct (Z.eqb_spec (t_Generation t) (Scheduled_Generation s)) as [Eg|]; [|by apply checked_only].
  destruct (Z.eqb_spec (t_Attempt t) (Scheduled_Attempt s)) as [Ea|]; [|by apply checked_only]. cbn [negb orb].
  intros past tr r (t1 & over & t2 & H1 & HR & ->)%runs_bind. apply follows_app. split; [by eapply endedAtHead_careful|].
  destruct over as [[]|]; [by destruct HR as [-> _]| |by destruct HR as [-> _]].
  apply runs_bind in HR as (t3 & view & t4 & [-> _] & HR & ->). destruct view as [view|]; [|by destruct HR as [-> _]].
  apply runs_bind in HR as (t5 & def & t6 & [-> _] & HR & ->). destruct def as [def|]; [|by destruct HR as [-> _]].
  apply runs_bind in HR as (t7 & n & t8 & [-> _] & HR & ->). destruct n as [n|]; [|by destruct HR as [-> _]].
  apply runs_bind in HR as (t9 & sub & t10 & [-> _] & HR & ->). destruct sub as [sub|]; [|by destruct HR as [-> _]].
  cbn [app]. apply follows_intro. intros b [c rc] after Hsplit. unfold careful. cbn [x_call].
  assert (HO : only (fun c => match c with HeadPut _ _ => false | _ => true end) (job_for json_text cfg n (Env (en_State ent) (Some t))
    view (job_of (en_State ent) ev s view n sub))).
  { unfold job_for, cachedResult, PublishCmd, publishJob, offload_object. silent. }
  pose proof (only_runs _ _ _ _ HO HR) as HF. rewrite Hsplit, Forall_app, Forall_cons in HF. destruct HF as (_ & Hc & _). cbn in Hc.
  destruct c; try done. destruct c; try done.
  destruct (job_for_same _ _ _ _ _ _ j HR) as (Hx & Hk & Hg & Ha).
  { eexists _, _, rc. rewrite Hsplit. apply elem_of_app; right. apply list_elem_of_here. }
  cbn in Hx, Hk, Hg, Ha. exists ent, ev, s, past, t1, b. split; [by rewrite app_assoc|].
  split; [|by rewrite Hx]. split; [done|]. split; [done|]. do 4 (split; [done|]). exists t. split_and!; congruence.
Qed.
Ltac plain := apply checked_only; solve [silent].

Lemma PublishCmd_careful c trace : checked (PublishCmd cfg c trace).
Proof. unfold PublishCmd, offload_object. plain. Qed.
Lemma ScheduleCmd_careful x timer at_ c : checked (ScheduleCmd x timer at_ c).
Proof. unfold ScheduleCmd. plain. Qed.
Lemma schedule_careful x timer at_ c : checked (Dispatch.schedule x timer at_ c).
Proof. unfold Dispatch.schedule, ScheduleCmd. plain. Qed.
Hint Resolve schedule_careful : careful.
Lemma for_each_careful {A} (l : list A) f : (forall a, checked (f a)) -> checked (for_each l f).
Proof. intros Hf. induction l; cbn [for_each]; [plain|]. apply checked_fbind; [done|]. by intros. Qed.
Hint Resolve PublishCmd_careful ScheduleCmd_careful : careful.

Lemma cancelChildren_careful children reason trace : checked (cancelChildren cfg children reason trace).
Proof. apply for_each_careful. intros a. careful. Qed.
Hint Resolve cancelChildren_careful : careful.

Lemma effects_careful ent ev :
  (exists st st', Apply (en_Def ent) st ev = Ok st' /\ en_State ent = set_LastSeq (ev_Seq ev) st') ->
  checked (effects json_text cfg ent ev).
Proof.
  intros Hf. unfold effects, timer, startChild, storeCache, terminal, notifyParent, purgeTimers, scheduleExpiry.
  destruct (ev_Data ev) eqn:Hd; try (by apply job_careful); careful.
Qed.

Lemma apply_events_careful evs ent stop : checked (apply_events json_text cfg ent stop evs).
Proof.
  revert ent stop. induction evs as [|ev evs IH]; intros; cbn [apply_events]; [plain|].
  destruct (Apply (en_Def ent) (en_State ent) ev) as [st|e] eqn:Ea; [|by intros past tr a [-> _]]. cbn [lift fbind pbind].
  apply checked_fbind; [apply effects_careful; cbn; eauto|]. intros _. apply IH.
Qed.

Lemma handle_events_careful cached x evs : checked (handle_events json_text cfg cached x evs).
Proof.
  unfold handle_events. destruct evs as [|first evs]; [plain|]. apply checked_fbind.
  - apply checked_only, reads_ordinary. unfold stateBefore. silent.
  - intros [ent|]; [|plain]. apply checked_fbind; [apply apply_events_careful|]. intros [ent' stop]. plain.
Qed.

Lemma IndexFrom_ordinary st created prev : only ordinary (IndexFrom st created prev).
Proof.
  unfold IndexFrom, index. apply only_fbind; [silent|intros _]. apply only_fbind; [|intros _; silent].
  destruct created; [|exact I]. apply only_fbind; [silent|intros _]. apply for_each_only. intros. silent.
Qed.
Lemma SetTerminal_ordinary x z reason e at_ : only ordinary (SetTerminal x z reason e at_).
Proof.
  unfold SetTerminal, updateSummary. apply only_fbind; [silent|intros _]. apply for_each_only. intros. silent.
Qed.

Lemma finish_careful h : checked (finish h).
Proof. apply checked_bind; [unfold publishStop; plain|]. intros _. apply checked_only, IndexFrom_ordinary. Qed.

Lemma process_careful m : checked (process json_text cfg m).
Proof.
  apply checked_fbind; [apply checked_only, reads_ordinary; unfold decode_delivery; silent|]. intros evs.
  apply checked_bind; [plain|]. intros cached. apply checked_bind; [apply handle_events_careful|].
  intros [[h|]|e]; [|plain..]. apply checked_bind; [plain|]. intros _. apply finish_careful.
Qed.

Lemma handleQuarantined_careful m x : checked (handleQuarantined cfg m x).
Proof.
  apply checked_bind; [apply checked_only, reads_ordinary; unfold decode_each, DecodeEach, Resolve; silent|].
  assert (HC : forall st def ev, checked (closeWith cfg x st def ev)).
  { intros. unfold closeWith, terminal, notifyParent, purgeTimers, scheduleExpiry. apply checked_fbind; [careful|].
    intros _. apply checked_only, SetTerminal_ordinary. }
  intros [evs|e]; [|plain]. destruct (List.find _ _) as [ev|]; [|plain]. apply checked_bind; [|intros; plain].
  unfold closeQuarantined. apply checked_fbind.
  - unfold stateBeforeMark, Mark. plain.
  - intros [[st def]|]; [apply HC|]. apply checked_fbind; [|intros [st def]; apply HC].
    apply checked_only, reads_ordinary. apply scan_rounds_only; [done|apply decode_message_silent|]. intros acc [|first evs']; silent.
Qed.

Lemma handle_careful m : checked (Dispatch.handle json_text cfg m).
Proof.
  assert (HS : checked (skip (execOf (ed_Subject m)))) by (unfold skip, IsQuarantined, Mark; plain).
  apply checked_bind; [done|]. intros [[]|e]; [apply handleQuarantined_careful| |plain].
  apply checked_bind; [apply process_careful|]. intros [u|e]; [plain|].
  apply checked_bind; [unfold IsQuarantined, Mark; plain|].
  intros [[]|e']; [apply checked_bind; [plain|]; intros; apply handleQuarantined_careful|..];
    (apply checked_bind; [unfold quarantine, Quarantine, Projection.Quarantine, updateSummary; plain|]; intros []; plain).
Qed.

Lemma scan_rounds_careful {S} (fn : S -> list FoldEvent -> Prog (S * bool)) rounds x from acc :
  (forall acc evs, checked (fn acc evs)) -> checked (scan_rounds fn rounds x from acc).
Proof.
  intros Hf.
  assert (HM : forall msgs next acc, checked (scan_messages fn msgs next acc)).
  { intros msgs. induction msgs as [|[q m] msgs IH]; intros; cbn [scan_messages]; [plain|].
    apply checked_fbind; [apply checked_only, reads_ordinary, decode_message_silent|]. intros evs.
    apply checked_bind; [apply Hf|]. intros [acc' []]; [apply IH|plain]. }
  revert from acc. induction rounds as [|n IH]; intros; cbn [scan_rounds]; [plain|]. apply checked_fbind.
  - unfold readBatch. apply checked_bind; [plain|]. intros [[msgs more]|e]; [|plain].
    apply checked_fbind; [apply HM|]. intros [[? ?] ?]. plain.
  - intros [[[next more] stop] acc']. destruct (_ || _); [plain|]. apply IH.
Qed.

Lemma replayFrom_careful cache x from : checked (replayFrom json_text cfg cache x from).
Proof.
  unfold replayFrom, ScanDecisions. apply checked_bind; [|intros []; plain]. apply scan_rounds_careful. intros acc evs.
  apply checked_bind; [|intros [c r]; plain]. unfold replayDecision. apply checked_bind; [apply handle_events_careful|].
  intros [[h|]|e]; [|plain..]. apply checked_bind; [apply finish_careful|]. intros. plain.
Qed.

Lemma Replay_careful x : checked (Replay json_text cfg x).
Proof.
  apply checked_fbind; [unfold Mark; plain|]. intros [m|]; [|plain]. apply checked_bind; [plain|]. intros _.
  apply checked_bind; [apply replayFrom_careful|]. intros [done r]. destruct r as [u|e]; [|plain].
  apply checked_fbind; [unfold Unquarantine; plain|]. intros _. apply checked_fbind; [plain|]. intros _.
  apply checked_bind; [plain|]. intros _. apply checked_bind; [apply replayFrom_careful|]. intros [done' r']. plain.
Qed.

(** *** The dispatcher's memory of heads *)

(** The exchanges of a dispatcher, each with the number of the handler that made
    it; its handlers (of messages, and of releases) run at the same time. *)
Abbreviation Interleaving := (list (nat * Exchange)).
Definition of_handler (i : nat) (H : Interleaving) : list Exchange :=
  snd <$> List.filter (fun ie => Nat.eqb (fst ie) i) H.

(** The exchanges of a handler so far. *)
Definition handling (tr : list Exchange) : Prop :=
  (exists m rest, Runs (Dispatch.handle json_text cfg m) (tr ++ rest) tt) \/
  (exists x rest r, Runs (Replay json_text cfg x) (tr ++ rest) r).

(** The memory all handlers share, which [headView], [putHead] and [dropHead]
    read and change under its lock. *)
Definition heads_step (hs : Heads) (e : Exchange) : Heads :=
  match x_call e with
  | HeadView x seq => snd (headView x seq hs)
  | HeadPut x h => putHead x h hs
  | HeadDrop x => delete x hs
  | _ => hs
  end.
Definition heads_answered (hs : Heads) (e : Exchange) : Prop :=
  match x_call e as c return Answer c -> Prop with
  | HeadView x seq => fun r => r = fst (headView x seq hs)
  | _ => fun _ => True
  end (x_answer e).
Fixpoint keeps_heads (hs : Heads) (tr : list Exchange) : Prop :=
  match tr with
  | [] => True
  | e :: tr => heads_answered hs e /\ keeps_heads (heads_step hs e) tr
  end.

Lemma keeps_heads_at hs l1 e l2 : keeps_heads hs (l1 ++ e :: l2) -> heads_answered (foldl heads_step hs l1) e.
Proof. revert hs. induction l1 as [|e1 l1 IH]; intros hs; cbn [app keeps_heads foldl]; [by intros [? _]|]. intros [_ HK]. by apply IH. Qed.

(** A head in memory was put there. *)
Lemma heads_origin tr x h :
  foldl heads_step ∅ tr !! x = Some h -> exists l1 e l2, tr = l1 ++ e :: l2 /\ x_call e = HeadPut x h.
Proof.
  induction tr as [|e tr IH] using rev_ind; [done|]. rewrite foldl_app. cbn [foldl].
  assert (HB : foldl heads_step ∅ tr !! x = Some h -> exists l1 e0 l2, tr ++ [e] = l1 ++ e0 :: l2 /\ x_call e0 = HeadPut x h).
  { intros (l1 & e0 & l2 & -> & He)%IH. exists l1, e0, (l2 ++ [e]). by rewrite <- app_assoc. }
  unfold heads_step at 1. destruct (x_call e) eqn:Ec; try exact HB.
  - unfold headView. destruct (_ !! x0) as [h0|]; [destruct (_ <? _)|]; cbn [snd]; try exact HB;
      (rewrite lookup_delete_Some; intros [_ Hl]; by apply HB).
  - unfold putHead. rewrite lookup_insert_Some. intros [[-> ->]|[_ Hl]]; [by exists tr, e, []|].
    destruct (_ <=? _) in Hl; [done|]. by apply HB.
  - rewrite lookup_delete_Some. intros [_ Hl]. by apply HB.
Qed.

Lemma of_handler_app i H1 H2 : of_handler i (H1 ++ H2) = of_handler i H1 ++ of_handler i H2.
Proof. unfold of_handler. by rewrite List.filter_app, fmap_app. Qed.
Lemma of_handler_here i e hist : of_handler i ((i, e) :: hist) = e :: of_handler i hist.
Proof. unfold of_handler. cbn. by rewrite Nat.eqb_refl. Qed.

Lemma of_handler_in i e hist : e ∈ of_handler i hist -> exists H1 H2, hist = H1 ++ (i, e) :: H2.
Proof.
  unfold of_handler. intros ([k e'] & -> & Hin)%list_elem_of_fmap. apply list_elem_of_In, List.filter_In in Hin as [Hin Hk].
  apply Nat.eqb_eq in Hk. cbn in Hk. subst k. apply list_elem_of_In, list_elem_of_split in Hin as (H1 & H2 & ->). by exists H1, H2.
Qed.

Lemma careful_at H1 i e H2 : handling (of_handler i (H1 ++ (i, e) :: H2)) -> careful (of_handler i H1) e.
Proof.
  rewrite of_handler_app, of_handler_here.
  assert (HC : forall rest, follows careful [] ((of_handler i H1 ++ e :: of_handler i H2) ++ rest) -> careful (of_handler i H1) e).
  { intros rest HF. rewrite <- app_assoc in HF. by apply (follows_split _ _ _ _ _ _ HF eq_refl). }
  intros [(m & rest & HR)|(x & rest & r & HR)]; eapply HC.
  - by eapply handle_careful.
  - by eapply Replay_careful.
Qed.


(** An attempt of an execution one of whose counters has
    overflowed to an infinity is never offered to a worker: unless the attempt is
    over at the head of the log, handling its event fails, because the view does
    not encode, and the failure is one that never quarantines the execution. The
    decision is retried for ever, and its partition waits behind it. *)
Theorem infinite_counter_stalls ent ev s t k c tr r :
  s_Tasks (en_State ent) !! Scheduled_Key s = Some t -> t_Generation t = Scheduled_Generation s ->
  t_Attempt t = Scheduled_Attempt s -> s_Counters (en_State ent) !! k = Some c -> f_finite c = false ->
  Runs (effects json_text cfg ent ev) tr r -> ev_Data ev = DScheduled s ->
  exists over, Runs (endedAtHead cfg (s_ExecID (en_State ent)) (ev_Seq ev) s) tr over /\
    match over with
    | Ok true => r = Ok tt
    | Ok false => exists e, r = Err e /\ forall n, quarantinable e n = false
    | Err e => r = Err e
    end.
Proof.
  intros Ht Hg Ha Hk Hc HR Hd. unfold effects in HR. rewrite Hd in HR. unfold job in HR.
  rewrite Ht, Hg, Ha, !Z.eqb_refl in HR. cbn [negb orb] in HR.
  assert (HM : marshal_view (ContextView (en_State ent) (Some t)) = Err (plain "json: unsupported value")).
  { unfold marshal_view. rewrite bool_decide_eq_false_2; [done|]. intros HF.
    assert (cx_Counters (ContextView (en_State ent) (Some t)) = s_Counters (en_State ent)) as E
      by (unfold ContextView; by destruct (item_map _ _ _)).
    rewrite E in HF. specialize (HF _ _ Hk). cbn in HF. congruence. }
  apply runs_bind in HR as (t1 & over & t2 & H1 & HR & ->). exists over. rewrite HM in HR.
  destruct over as [[]|e]; destruct HR as [-> <-]; rewrite app_nil_r; (split; [done|]); [done| |done]. eauto.
Qed.

Lemma CmdID_length x key gen attempt :
  Z.of_nat (String.length x) + Z.of_nat (String.length key) + 5 <= Z.of_nat (String.length (CmdID x key gen attempt)).
Proof. unfold CmdID. rewrite !string_length_app. cbn [String.length]. lia. Qed.

(** C40. An execution id and an instance key that are both valid can
    be too long together: the command that completes the attempt gets an id over
    the limit, publishing it fails without a message being sent, and the failure
    is one the dispatcher retries for ever. *)
Theorem long_ids_refused x key gen attempt p c trace tr r :
  251 < Z.of_nat (String.length x) + Z.of_nat (String.length key) ->
  New (CmdID x key gen attempt) CComplete x (Some p) = Ok c -> Runs (PublishCmd cfg c trace) tr r ->
  tr = [] /\ exists e, r = Err e /\ forall n, quarantinable e n = false.
Proof.
  intros Hl HN. pose proof (CmdID_length x key gen attempt) as Hi. unfold PublishCmd.
  assert (c_ID c = CmdID x key gen attempt) as Hc by (unfold New in HN; destruct (encode_payload p); [by injection HN as <-|done]).
  destruct (Cmd.Validate c) as [why|] eqn:EV; [intros [-> <-]; eauto|]. exfalso. revert EV. unfold Cmd.Validate. rewrite Hc.
  destruct (String.eqb_spec (CmdID x key gen attempt) "") as [|_]; [done|].
  destruct (Z.ltb_spec maxIDLen (Z.of_nat (String.length (CmdID x key gen attempt)))) as [|Hm]; [done|]. unfold maxIDLen in Hm. lia.
Qed.
End Guards.
