(* ===== verification/Triggers.v ===== *)
(** * Cron firings and message triggers ([internal/engine/cron.go])

    A schedule that fires, or a message on a trigger's subject, becomes the start
    of an execution whose id is a function of the firing or of the message. *)

From S2P Require Import Prelude Json Hash GoStrings Names Flow Event Cmd CmdCodec Reduce State View Wire Cron Numbering Codec NamesProps.
From S2P Require Import CronProps Server Projection Sending EventLog Loader Engine Deliveries DispatchProps.

Section Triggers.
Context (cfg : Config).

(** ** Cron *)

(** A fired schedule; [fd_Spec] is [inl] with the decoder's error for a body that is
    not a specification. *)
Record FiredDelivery := { fd_Subject : string; fd_Spec : Text + ScheduleSpec; fd_Metadata : option (Z * Z) }.

(** What a dead letter records of a message. *)
Definition letter_of (subject : string) (md : option (Z * Z)) : Delivery := {|
  dv_Protocol := ""; dv_Trace := ""; dv_Blob := ""; dv_Data := None; dv_Metadata := md; dv_Subject := subject |}.

(** The execution of a firing. *)
Definition cron_exec (name : string) (seq : Z) : string :=
  let execID := name +:+ "-" +:+ Itoa seq in
  if ValidToken execID then execID else "cron-" +:+ Itoa seq.

Definition handleCron (m : FiredDelivery) : Prog unit :=
  let name := lastToken (fd_Subject m) in
  match fd_Metadata m with
  | None => call (NakWithDelay nakDelay)
  | Some (n, seq) =>
      match fd_Spec m with
      | inl why => deadLetter (letter_of (fd_Subject m) (fd_Metadata m)) name (Sprintf "invalid schedule spec: %s" [AText why])
      | inr spec =>
          let execID := cron_exec name seq in
          let! r :=
            (try! c := lift (New ("cron." +:+ execID) CStart execID (Some (PStart {|
               StartData_Flow := sp_Flow spec; StartData_Version := sp_Version spec; StartData_Input := sp_Input spec;
               StartData_Parent := None |}))) in
             PublishCmd cfg c "") in
          match r with
          | Err _ => call (NakWithDelay nakDelay)
          | Ok _ => call Ack
          end
      end
  end.

(** ** Message triggers *)

Definition startFromTrigger (flow execID : string) (data : TriggerBody) : Prog (result unit) :=
  try! c := lift (TriggerStart flow execID data) in PublishCmd cfg c "".

(** A message of a trigger's stream; [tm_MsgID] is empty without the header. *)
Record TriggerDelivery := { tm_Subject : string; tm_MsgID : string; tm_Data : TriggerBody; tm_Metadata : option (Z * Z) }.

(** [triggerDeliveries]: a limit of its own, or the engine's. *)
Definition triggerDeliveries (triggerMaxDeliver : Z) : Z := if 0 <? triggerMaxDeliver then triggerMaxDeliver else maxDeliver.

Definition trigger_exec (flow stream msgID : string) (seq : Z) : string :=
  if String.eqb msgID "" then TriggerSeqExecID flow stream seq else TriggerMsgExecID flow msgID.

(** The handler of [RunTrigger]. *)
Definition handleTrigger (flow stream : string) (triggerMaxDeliver : Z) (m : TriggerDelivery) : Prog unit :=
  match tm_Metadata m with
  | None => call (NakWithDelay nakDelay)
  | Some (n, seq) =>
      let execID := trigger_exec flow stream (tm_MsgID m) seq in
      let! r := startFromTrigger flow execID (tm_Data m) in
      match r with
      | Ok _ => call Ack
      | Err e =>
          if triggerDeliveries triggerMaxDeliver <=? n then
            deadLetterAs (letter_of (tm_Subject m) (tm_Metadata m))
              {| dl_Kind := DLQTrigger; dl_Key := execID; dl_Flow := flow;
                 dl_Reason := Sprintf "delivery attempts exhausted: %s" [AText (error_text e)]; dl_Deliveries := 0; dl_Subject := "" |}
              ("trigger." +:+ flow +:+ "." +:+ stream +:+ "." +:+ Itoa seq)
          else call (NakWithDelay (retryDelay n))
      end
  end.

(** The handler of [runCoreTrigger]: nothing settles a message outside of a
    stream. *)
Definition handleCoreTrigger (flow msgID : string) (data : TriggerBody) : Prog unit :=
  let! fresh := call NewID in
  let execID := if String.eqb msgID "" then TriggerMsgExecID flow ("core" +:+ nul +:+ fresh) else TriggerMsgExecID flow msgID in
  let! _ := startFromTrigger flow execID data in
  Ret tt.
End Triggers.

(** ** What a firing and a trigger message start

    Every delivery of a firing, or of a message, asks for the same execution; two
    firings never ask for the same one. *)

(** ** Ids *)

Lemma Itoa_no_dash n : 0 <= n -> dash ∉ String.list_ascii_of_string (Itoa n).
Proof.
  intros Hn. assert (Itoa n = pretty (Z.to_N n)) as -> by (by destruct n).
  intros Hin. pose proof (pretty_digits (Z.to_N n)) as HD. unfold str_forall in HD. rewrite Forall_forall in HD. by apply HD in Hin.
Qed.

Lemma last_dash_both a1 a2 n1 n2 :
  0 <= n1 -> 0 <= n2 -> a1 +:+ "-" +:+ Itoa n1 = a2 +:+ "-" +:+ Itoa n2 -> n1 = n2.
Proof.
  intros H1 H2 E. apply (f_equal String.list_ascii_of_string) in E. rewrite !list_ascii_app in E. simpl in E.
  destruct (last_sep_both _ _ _ _ _ E (Itoa_no_dash _ H1) (Itoa_no_dash _ H2)) as [_ ?%list_ascii_inj%Itoa_inj]. done.
Qed.

(** The sequence of the firing is in the id. *)
Lemma cron_exec_inj name1 name2 n1 n2 : 0 <= n1 -> 0 <= n2 -> cron_exec name1 n1 = cron_exec name2 n2 -> n1 = n2.
Proof.
  intros H1 H2. unfold cron_exec. assert (HC : forall n, "cron-" +:+ Itoa n = "cron" +:+ "-" +:+ Itoa n) by done. rewrite !HC.
  repeat case_match; intros E; by eapply last_dash_both.
Qed.

Lemma cron_exec_valid name n : 0 <= n < 2 ^ 63 -> ValidToken (cron_exec name n) = true.
Proof.
  intros Hn. unfold cron_exec. destruct (ValidToken (name +:+ _)) eqn:E; [done|]. apply valid_token_intro.
  - rewrite all_token_chars_app, Itoa_token. done.
  - rewrite string_length_app. assert (String.length (Itoa n) <= 19)%nat by (apply Itoa_length; lia). simpl. lia.
Qed.

(** ** Commands published *)

(** Every command that a run publishes has the id and the execution. *)
Definition publishes_only (id x : string) (tr : list Exchange) : Prop :=
  forall c mid trace blob r, {| x_call := Perform (PublishCommand c mid trace blob); x_answer := r |} ∈ tr ->
    c_ID c = id /\ c_ExecID c = x.

Definition not_command (c : Call) : bool := match c with Perform (PublishCommand _ _ _ _) => false | _ => true end.

Lemma no_commands {A} (p : Prog A) tr a id x : only not_command p -> Runs p tr a -> publishes_only id x tr.
Proof.
  intros HP HR c mid trace blob r Hin. apply (only_runs _ _ _ _ HP) in HR. rewrite Forall_forall in HR. by apply HR in Hin.
Qed.

Lemma publishes_app id x t1 t2 : publishes_only id x t1 -> publishes_only id x t2 -> publishes_only id x (t1 ++ t2).
Proof. intros H1 H2 c mid trace blob r [Hin|Hin]%elem_of_app; [by eapply H1|by eapply H2]. Qed.

Section Props.
Context (cfg : Config).

Lemma PublishCmd_publishes c trace tr r : Runs (PublishCmd cfg c trace) tr r -> publishes_only (c_ID c) (c_ExecID c) tr.
Proof.
  unfold PublishCmd. destruct (Cmd.Validate c); [intros [-> _] ? ? ? ? ? Hin; by apply not_elem_of_nil in Hin|].
  intros (t1 & o & t2 & H1 & H2 & ->)%runs_bind. apply publishes_app.
  - eapply no_commands; [|exact H1]. unfold offload_object. destruct (_ <=? _); [exact I|]. by repeat split.
  - destruct o as [blob|e]; [|destruct H2 as [-> _]; intros ? ? ? ? ? Hin; by apply not_elem_of_nil in Hin].
    destruct H2 as (a & t3 & -> & -> & _). intros c' mid trace' blob' r' Hin. apply list_elem_of_singleton in Hin.
    by injection Hin as -> -> -> ->.
Qed.

(** The run of a start: what it published, and that it did when it succeeded. *)
Lemma start_run id x p trace tr r :
  Runs (try! c := lift (New id CStart x (Some p)) in PublishCmd cfg c trace) tr r ->
  publishes_only id x tr /\ (r = Ok tt -> sent CStart x p tr) /\ Forall (fun e => settling (x_call e) = false) tr.
Proof.
  intros HR. split; [|split].
  - apply runs_fbind in HR as [(e & -> & HR)|(c & t1 & t2 & -> & H1 & H2)].
    + apply runs_lift in HR as [-> _]. intros ? ? ? ? ? Hin. by apply not_elem_of_nil in Hin.
    + apply runs_lift in H1 as [-> HN]. apply PublishCmd_publishes in H2. unfold New in HN.
      destruct (encode_payload p); [|done]. by injection HN as ->.
  - intros ->. by eapply publish_sent.
  - eapply Forall_impl; [eapply (only_runs internal); [|exact HR]|by intros [[]]].
    apply only_fbind; [exact I|intros c; apply PublishCmd_silent].
Qed.

(** How a delivery of a firing or of a trigger message ends. *)
Definition start_settled (x : string) (p : CmdPayload) (dead : DeadLetter -> Prop) (tr : list Exchange) : Prop :=
  exists before s, tr = before ++ [s] /\ Forall (fun e => settling (x_call e) = false) before /\
    match x_call s with
    | Ack => sent CStart x p before
    | NakWithDelay d => nakDelay <= d <= maxNakDelay
    | Term => exists d k, {| x_call := PublishDLQ d k; x_answer := Ok tt |} ∈ before /\ dead d
    | _ => False
    end.

Lemma settled_end x p dead t c r :
  Forall (fun e => settling (x_call e) = false) t ->
  match c with
  | Ack => sent CStart x p t
  | NakWithDelay d => nakDelay <= d <= maxNakDelay
  | Term => exists d k, {| x_call := PublishDLQ d k; x_answer := Ok tt |} ∈ t /\ dead d
  | _ => False
  end -> start_settled x p dead (t ++ [{| x_call := c; x_answer := r |}]).
Proof. intros HF HC. exists t, {| x_call := c; x_answer := r |}. done. Qed.

Lemma deadLetterAs_end x p (dead : DeadLetter -> Prop) before m d k tr :
  Forall (fun e => settling (x_call e) = false) before ->
  (forall n subject, dead {| dl_Kind := dl_Kind d; dl_Key := dl_Key d; dl_Flow := dl_Flow d; dl_Reason := dl_Reason d;
                             dl_Deliveries := n; dl_Subject := subject |}) ->
  Runs (deadLetterAs m d k) tr tt -> start_settled x p dead (before ++ tr).
Proof.
  intros HF HD HR. unfold deadLetterAs in HR. set (d' := {| dl_Kind := _ |}) in HR. destruct HR as (r & t & -> & HR).
  change (before ++ ?e :: t) with (before ++ [e] ++ t). rewrite app_assoc.
  destruct r as [[]|e]; destruct HR as (u & t' & -> & -> & _); apply settled_end; try (apply Forall_app; by repeat constructor).
  - exists d', k. split; [apply elem_of_app; right; apply list_elem_of_here|apply HD].
  - unfold nakDelay, maxNakDelay, Second. lia.
Qed.

(** The start that a specification asks for. *)
Definition spec_start (spec : ScheduleSpec) : CmdPayload :=
  PStart {| StartData_Flow := sp_Flow spec; StartData_Version := sp_Version spec; StartData_Input := sp_Input spec;
            StartData_Parent := None |}.

(** C23. Each delivery of a firing asks for the start of the same
    execution with the same command id, which is a valid id that no other firing
    has, whatever the names of the schedules; the delivery is acknowledged only
    after that start was published (with the flow, version and input of the
    schedule), and otherwise asked for again. *)
Theorem cron_starts_once m n seq spec tr :
  fd_Metadata m = Some (n, seq) -> fd_Spec m = inr spec -> 0 <= seq < 2 ^ 63 -> Runs (handleCron cfg m) tr tt ->
  let x := cron_exec (lastToken (fd_Subject m)) seq in
  publishes_only ("cron." +:+ x) x tr /\ start_settled x (spec_start spec) (fun _ => False) tr /\ ValidToken x = true /\
  forall name seq', 0 <= seq' -> cron_exec name seq' = x -> seq' = seq.
Proof.
  intros Hm Hs Hq HR x. unfold handleCron in HR. rewrite Hm, Hs in HR. fold x in HR.
  apply runs_bind in HR as (t1 & r & t2 & H1 & H2 & ->). apply start_run in H1 as (HP & HS & HF).
  split; [|split; [|split; [by apply cron_exec_valid|intros name seq' Hq'; apply cron_exec_inj; lia]]].
  - apply publishes_app; [done|]. eapply no_commands; [|exact H2]. by destruct r; split.
  - destruct r as [[]|e]; apply runs_call in H2 as ->; apply settled_end; [done|by apply HS|done|].
    unfold nakDelay, maxNakDelay, Second. lia.
Qed.

(** Each delivery of a message of a trigger's stream asks for the start of the same
    execution; it is acknowledged only after the start was published, terminated
    only when its deliveries are exhausted and a dead letter names the flow and the
    execution it was meant to start, and otherwise asked for again. *)
Theorem trigger_starts_once flow stream limit m n seq tr :
  tm_Metadata m = Some (n, seq) -> Runs (handleTrigger cfg flow stream limit m) tr tt ->
  let x := trigger_exec flow stream (tm_MsgID m) seq in
  exists p, TriggerStart flow x (tm_Data m) = New ("trigger." +:+ x) CStart x (Some p) /\
    publishes_only ("trigger." +:+ x) x tr /\
    start_settled x p (fun d => dl_Kind d = DLQTrigger /\ dl_Key d = x /\ dl_Flow d = flow /\ triggerDeliveries limit <= n) tr.
Proof.
  intros Hm HR x. unfold handleTrigger in HR. rewrite Hm in HR. cbv zeta in HR. fold x in HR.
  unfold startFromTrigger, TriggerStart in *. eexists. split; [reflexivity|].
  apply runs_bind in HR as (t1 & r & t2 & H1 & H2 & ->). apply start_run in H1 as (HP & HS & HF).
  destruct r as [[]|e].
  - apply runs_call in H2 as ->. split; [apply publishes_app; [done|]|apply settled_end; [done|by apply HS]].
    intros ? ? ? ? ? Hin. by apply list_elem_of_singleton in Hin.
  - destruct (Z.leb_spec (triggerDeliveries limit) n) as [Hl|Hl].
    + split; [apply publishes_app; [done|]; eapply no_commands; [|exact H2]; apply only_bind; [by split|by intros []; split]|].
      eapply deadLetterAs_end; [done| |exact H2]. by intros.
    + apply runs_call in H2 as ->. split; [apply publishes_app; [done|]; intros ? ? ? ? ? Hin; by apply list_elem_of_singleton in Hin|].
      apply settled_end; [done|]. apply retryDelay_bounds.
Qed.
End Props.
