(* ===== verification/Worker.v ===== *)
(** * Workers ([worker/])

    A worker takes the jobs of one kind, runs a handler on each and answers with
    a command.  The per-key concurrency limit is a counting semaphore kept in a
    bucket and updated by compare-and-swap; a job whose key is busy waits or is
    handed back. *)

From S2P Require Import Prelude Json Hash GoStrings Names Flow Event Cmd CmdCodec Reduce State View Wire Codec.
From S2P Require Import Server Sending EventLog.

(** ** Configuration ([worker.go]) *)

Definition DefaultConcurrency : Z := 4.
Definition DefaultAckWait : Z := 30 * Second.
Definition DefaultMaxDeliver : Z := 5.
Definition minAckWait : Z := Second.
Definition DefaultMaxAckPending : Z := 10000.
Definition Millisecond : Z := 1000000.
Definition semRetryFirst : Z := 50 * Millisecond.
Definition semRetryCap : Z := Second.
Definition DefaultLiveCheck : Z := 5 * Second.
Definition blobNotFoundTries : Z := 3.

(** The settings of a [Worker]; 0 where the code leaves a duration unset. *)
Record WorkerConfig := {
  wk_kind : string; wk_ns : string; wk_concurrency : Z; wk_ackWait : Z; wk_maxDeliver : Z; wk_maxAckPending : Z;
  wk_reconfigure : bool; wk_drain : Z; wk_blobTimeout : Z; wk_liveCheck : Z }.

Inductive Option_ :=
| WithNamespace (ns : string)
| WithConcurrency (n : Z)
| WithAckWait (d : Z)
| WithMaxDeliver (n : Z)
| WithMaxAckPending (n : Z)
| WithReconfigure
| WithDrainTimeout (d : Z)
| WithBlobTimeout (d : Z)
| WithLiveCheck (d : Z).

Definition WorkerConfig_eta (w : WorkerConfig) : WorkerConfig :=
  Build_WorkerConfig (wk_kind w) (wk_ns w) (wk_concurrency w) (wk_ackWait w) (wk_maxDeliver w) (wk_maxAckPending w)
    (wk_reconfigure w) (wk_drain w) (wk_blobTimeout w) (wk_liveCheck w).
Definition set_wk_ns (v : string) (w : WorkerConfig) : WorkerConfig := ltac:(assign WorkerConfig_eta w wk_ns v).
Definition set_wk_concurrency (v : Z) (w : WorkerConfig) : WorkerConfig := ltac:(assign WorkerConfig_eta w wk_concurrency v).
Definition set_wk_ackWait (v : Z) (w : WorkerConfig) : WorkerConfig := ltac:(assign WorkerConfig_eta w wk_ackWait v).
Definition set_wk_maxDeliver (v : Z) (w : WorkerConfig) : WorkerConfig := ltac:(assign WorkerConfig_eta w wk_maxDeliver v).
Definition set_wk_maxAckPending (v : Z) (w : WorkerConfig) : WorkerConfig := ltac:(assign WorkerConfig_eta w wk_maxAckPending v).
Definition set_wk_reconfigure (v : bool) (w : WorkerConfig) : WorkerConfig := ltac:(assign WorkerConfig_eta w wk_reconfigure v).
Definition set_wk_drain (v : Z) (w : WorkerConfig) : WorkerConfig := ltac:(assign WorkerConfig_eta w wk_drain v).
Definition set_wk_blobTimeout (v : Z) (w : WorkerConfig) : WorkerConfig := ltac:(assign WorkerConfig_eta w wk_blobTimeout v).
Definition set_wk_liveCheck (v : Z) (w : WorkerConfig) : WorkerConfig := ltac:(assign WorkerConfig_eta w wk_liveCheck v).

Definition positive (n : Z) (set : Z -> WorkerConfig -> WorkerConfig) (w : WorkerConfig) : WorkerConfig :=
  if 0 <? n then set n w else w.

Definition with_option (o : Option_) (w : WorkerConfig) : result WorkerConfig :=
  match o with
  | WithNamespace ns =>
      if negb (ValidPrefix ns) then Err (plain (Sprintf "worker: invalid namespace %q" [AStr ns])) else Ok (set_wk_ns ns w)
  | WithConcurrency n => Ok (positive n set_wk_concurrency w)
  | WithAckWait d => Ok (set_wk_ackWait (Z.max d minAckWait) w)
  | WithMaxDeliver n => Ok (positive n set_wk_maxDeliver w)
  | WithMaxAckPending n => Ok (positive n set_wk_maxAckPending w)
  | WithReconfigure => Ok (set_wk_reconfigure true w)
  | WithDrainTimeout d => Ok (positive d set_wk_drain w)
  | WithBlobTimeout d => Ok (positive d set_wk_blobTimeout w)
  | WithLiveCheck d =>
      if d <? 0 then Err (plain "worker: live check interval must not be negative") else Ok (set_wk_liveCheck d w)
  end.

(** [worker.New], with a connection and a handler. *)
Definition NewWorker (kind : string) (opts : list Option_) : result WorkerConfig :=
  match CheckToken "worker kind" kind with
  | Some t => Err (plain (Sprintf "worker: %w" [AText t]))
  | None =>
      res_fold (fun w o => with_option o w) {|
        wk_kind := kind; wk_ns := Default; wk_concurrency := DefaultConcurrency; wk_ackWait := DefaultAckWait;
        wk_maxDeliver := DefaultMaxDeliver; wk_maxAckPending := DefaultMaxAckPending; wk_reconfigure := false;
        wk_drain := 0; wk_blobTimeout := 0; wk_liveCheck := DefaultLiveCheck |} opts
  end.

(** The deliveries a job gets, from the settings of the shared consumer
    ([Run], [OnReady]). *)
Definition effMaxDeliver (w : WorkerConfig) (consumer : Z) : Z :=
  if 1 <? consumer then consumer - 1 else wk_maxDeliver w.

(** [ackWaitEff]: what the shared consumer says, if it says anything. *)
Definition ackWaitEff (w : WorkerConfig) (consumer : Z) : Z := if 0 <? consumer then consumer else wk_ackWait w.

(** ** Errors of handlers ([job.go]) *)

Fixpoint handler_text (e : HandlerError) : Text :=
  match e with
  | HError msg => msg
  | HWrap msg _ => msg
  | HPermanent e => handler_text e
  | HUsage _ e => handler_text e
  | HInterrupt _ => TStr "worker: interrupted"
  end.

Fixpoint IsPermanent (e : HandlerError) : bool :=
  match e with
  | HPermanent _ => true
  | HWrap _ es => existsb IsPermanent es
  | HUsage _ e => IsPermanent e
  | HError _ | HInterrupt _ => false
  end.

(** The first that [errors.As] finds among the errors that one wraps. *)
Definition first_of {A} (f : HandlerError -> option A) : list HandlerError -> option A :=
  foldr (fun e rest => match f e with Some a => Some a | None => rest end) None.

(** [usageOf]: the outermost usage; none is the nil map. *)
Fixpoint usageOf (e : HandlerError) : option (gmap string float64) :=
  match e with
  | HUsage u _ => Some u
  | HWrap _ es => first_of usageOf es
  | HPermanent e => usageOf e
  | HError _ | HInterrupt _ => None
  end.

(** [errors.As(err, &intr)]. *)
Fixpoint interruptOf (e : HandlerError) : option Output :=
  match e with
  | HInterrupt p => Some p
  | HWrap _ es => first_of interruptOf es
  | HPermanent e | HUsage _ e => interruptOf e
  | HError _ => None
  end.

(** [WithUsage], [Permanent]: nil stays nil. *)
Definition WithUsage (e : option HandlerError) (u : gmap string float64) : option HandlerError := HUsage u <$> e.
Definition Permanent (e : option HandlerError) : option HandlerError := HPermanent <$> e.

Definition marshalOutput (v : Output) : Text + RawBytes :=
  match v with
  | ONil => inr RNil
  | ORaw b => inr b
  | OValue (Ok j) => inr (RValid j)
  | OValue (Err e) => inl (Sprintf "worker: encode output: %w" [AText (error_text e)])
  end.

(** ** From the end of a handler to a command ([worker.go]) *)

(** The error of a [json.RawMessage] that is not JSON. *)
Definition not_json (why : Text) : error :=
  plain (Sprintf "json: error calling MarshalJSON for type json.RawMessage: %v" [AText why]).

(** A field of a payload that is left out when empty. *)
Definition raw_field (b : RawBytes) : result RawMessage :=
  match b with RNil | REmpty => Ok None | RValid j => Ok (Some j) | RInvalid why => Err (not_json why) end.

(** A member of the map of writes. *)
Definition raw_write (b : RawBytes) : result RawMessage :=
  match b with
  | RNil => Ok (Some JNull)
  | RValid j => Ok (Some j)
  | REmpty => Err (not_json "unexpected end of JSON input")
  | RInvalid why => Err (not_json why)
  end.

(** An encoding that is part of [cmd.New]. *)
Definition encoding (t : CmdType) {A} (r : result A) : result A :=
  match r with Ok a => Ok a | Err e => Err (cannot_encode t e) end.

Definition failCmd (id x : string) (ref : TaskRef) (msg : string) (usage : option (gmap string float64)) : result Command :=
  let data u := PFail {| FailData_TaskRef := ref; FailData_Error := msg; FailData_Retryable := false; FailData_Reason := "";
                         FailData_Usage := u |} in
  match New id CFail x (Some (data (default ∅ usage))), usage with
  | Err _, Some _ => New id CFail x (Some (data ∅))
  | r, _ => r
  end.

Section Commands.
(** The text of a message. *)
Context `{Evaluator}.

(** The writes of a result: encoded one by one, the first failure (in the order of
    the map, which the code leaves open: here that of the keys) ends it. *)
Definition encode_writes (writes : gmap string Output) : Text + list (string * RawBytes) :=
  foldr (fun k acc =>
    match marshalOutput (default ONil (writes !! k)), acc with
    | inl t, _ => inl t
    | inr _, inl t => inl t
    | inr b, inr l => inr ((k, b) :: l)
    end) (inr []) (sorted_keys writes).

Definition write_map (l : list (string * RawBytes)) : result (gmap string RawMessage) :=
  foldr (fun kb acc => let? r := raw_write (snd kb) in let? m := acc in Ok (<[fst kb := r]> m)) (Ok ∅) l.

Definition completeCmd (id : string) (j : Job) (ref : TaskRef) (res : option JobResult) : result Command :=
  let res := default {| jr_Output := ONil; jr_Writes := ∅; jr_Next := ""; jr_Usage := ∅ |} res in
  match marshalOutput (jr_Output res) with
  | inl t => failCmd id (jb_ExecID j) ref (render t) (Some (jr_Usage res))
  | inr out =>
      match encode_writes (jr_Writes res) with
      | inl t => failCmd id (jb_ExecID j) ref (render t) (Some (jr_Usage res))
      | inr l =>
          let? o := encoding CComplete (raw_field out) in
          let? writes := encoding CComplete (write_map l) in
          New id CComplete (jb_ExecID j) (Some (PComplete {|
            CompleteData_TaskRef := ref; CompleteData_Output := o; CompleteData_Writes := writes;
            CompleteData_Next := jr_Next res; CompleteData_Usage := jr_Usage res;
            CompleteData_CacheKey := jb_CacheKey j; CompleteData_Cached := false |}))
      end
  end.

(** The end of a handler as [call] returns it: a panic is an error. *)
Definition call_result (e : JobEnded) : option JobResult * option HandlerError :=
  match e with
  | HResult r => (r, None)
  | HFailed e => (None, Some e)
  | HPanic what => (None, Some (HError (Sprintf "handler panic: %v" [AText what])))
  end.

Definition answerCmd (id : string) (j : Job) (ref : TaskRef) (res : option JobResult) (herr : option HandlerError) : result Command :=
  match herr with
  | Some e =>
      match interruptOf e with
      | Some payload =>
          match marshalOutput payload with
          | inl t => failCmd id (jb_ExecID j) ref (render t) (usageOf e)
          | inr p =>
              let? p := encoding CInterrupt (raw_field p) in
              New id CInterrupt (jb_ExecID j) (Some (PInterrupt {|
                InterruptData_TaskRef := ref; InterruptData_Payload := p; InterruptData_Usage := default ∅ (usageOf e) |}))
          end
      | None =>
          New id CFail (jb_ExecID j) (Some (PFail {|
            FailData_TaskRef := ref; FailData_Error := render (handler_text e); FailData_Retryable := negb (IsPermanent e);
            FailData_Reason := ""; FailData_Usage := default ∅ (usageOf e) |}))
      end
  | None => completeCmd id j ref res
  end.

(** [resultCmd]: what cannot be encoded fails the attempt. *)
Definition resultCmd (id : string) (j : Job) (ref : TaskRef) (res : option JobResult) (herr : option HandlerError) : result Command :=
  match answerCmd id j ref res herr with
  | Ok c => Ok c
  | Err e =>
      let usage := match herr, res with
                   | Some he, _ => usageOf he
                   | None, Some r => Some (jr_Usage r)
                   | None, None => None
                   end in
      failCmd id (jb_ExecID j) ref (render (error_text e)) usage
  end.

Definition job_ref (j : Job) : TaskRef :=
  {| ref_Key := jb_Key j; ref_Generation := jb_Generation j; ref_Attempt := jb_Attempt j |}.
Definition job_id (j : Job) : string := CmdID (jb_ExecID j) (jb_Key j) (jb_Generation j) (jb_Attempt j).

Definition outcome (c : Command) : string :=
  match c_Type c with
  | CComplete => "completed"
  | CInterrupt => "interrupted"
  | CFail => match decode_FailData (marshal_raw (c_Data c)) with
             | Some f => if FailData_Retryable f then "retryable_failed" else "failed"
             | None => "failed"
             end
  | _ => ""
  end.
End Commands.

(** ** The semaphore of a concurrency key ([semaphore.go]) *)

Definition busyDelayFirst : Z := Second.
Definition busyDelayCap : Z := 8 * Second.
Definition busyMaxShift : Z := 3.
Definition semCASAttempts : nat := 16.
Definition semLeaseFactor : Z := 3.

(** [casSem]: [fn] on the value, stored if nobody stored another one meanwhile. *)
Fixpoint cas_rounds (n : nat) (key : string) (fn : Holders -> Prog (option Holders)) : Prog bool :=
  match n with
  | O => Ret false
  | S n =>
      let! r := call (SemGet key) in
      match r with
      | Err _ => Ret false
      | Ok e =>
          let '(v, rev) := default (∅, 0) e in
          let! v' := fn v in
          match v' with
          | None => Ret false
          | Some v' =>
              let! r := call (SemPut key v' rev) in
              match r with Ok _ => Ret true | Err _ => cas_rounds n key fn end
          end
      end
  end.
Definition casSem (key : string) (fn : Holders -> Prog (option Holders)) : Prog bool := cas_rounds semCASAttempts key fn.

(** The holders whose lease has not ended. *)
Definition unexpired (now : Z) (v : Holders) : Holders := filter (fun he => snd he >= now) v.

(** The updates of a slot: take, renew, give back. *)
Definition take_slot (holder : string) (max lease now : Z) (v : Holders) : option Holders :=
  let v := unexpired now v in
  if bool_decide (v !! holder = None) && (max <=? Z.of_nat (size v)) then None else Some (<[holder := now + lease]> v).
Definition renew_slot (holder : string) (lease now : Z) (v : Holders) : option Holders :=
  if bool_decide (v !! holder = None) then None else Some (<[holder := now + lease]> v).

Definition acquire_slot (key holder : string) (max lease : Z) : Prog bool :=
  casSem key (fun v => let! now := call Now in Ret (take_slot holder max lease now v)).
Definition renewSlot (key holder : string) (lease : Z) : Prog bool :=
  casSem key (fun v => if bool_decide (v !! holder = None) then Ret None
                       else let! now := call Now in Ret (renew_slot holder lease now v)).
Definition release_slot (key holder : string) : Prog bool := casSem key (fun v => Ret (Some (delete holder v))).

Definition holder_of (j : Job) : string := JobMsgID (jb_ExecID j) (jb_Key j) (jb_Generation j) (jb_Attempt j).

Definition limited (j : Job) : option JobConcurrency :=
  match jb_Concurrency j with Some c => if jc_Max c <=? 0 then None else Some c | None => None end.

Definition busyID (j : Job) : string := hex (take 12 (sha256 (bytes_of (holder_of j)))).

(** A delivered job: [jd_Data] is what its body decodes to ([None]: not a job; the
    model leaves the text of the decoder's error out); [jd_Busy] is the count in its header, 0 without one (only
    [handBack] writes it, so it is never negative). *)
Record JobDelivery := {
  jd_Protocol : string; jd_Blob : string; jd_Data : option Job; jd_Busy : N; jd_Metadata : option (Z * Z); jd_Subject : string }.

(** The jobs that wait for a busy key, in the memory of the process: one per key
    ([WaiterClaim], [WaiterRelease]). *)
Definition claimWaiter (key : string) (waiting : gset string) : bool * gset string :=
  if bool_decide (key ∈ waiting) then (false, waiting) else (true, {[ key ]} ∪ waiting).
Definition releaseWaiter (key : string) (waiting : gset string) : gset string := waiting ∖ {[ key ]}.

Section Worker.
Context `{Evaluator}.
Context (cfg : Config).
(** The effective settings, and how often a loop that waits may go round. *)
Context (maxDeliver ackWait : Z) (rounds : nat).

Definition lease : Z := ackWait * semLeaseFactor.

(** [acquire]. *)
Definition acquire (j : Job) : Prog bool :=
  match limited j with
  | None => Ret true
  | Some c => acquire_slot (jc_Key c) (holder_of j) (jc_Max c) lease
  end.
Definition release (j : Job) : Prog unit :=
  match limited j with
  | None => Ret tt
  | Some c => let! _ := release_slot (jc_Key c) (holder_of j) in Ret tt
  end.

Definition busy_delay (n : Z) : Z := Z.min (Z.shiftl busyDelayFirst (Z.min (n - 1) busyMaxShift)) busyDelayCap.

(** [handBack]: a copy of the job later, and the original acknowledged. *)
Definition handBack (m : JobDelivery) (j : Job) : Prog bool :=
  let n := Z.of_N (jd_Busy m) + 1 in
  let! now := call Now in
  let! r := call (Perform (ScheduleCopy (jb_Kind j) (busyID j) (now + busy_delay n) n j)) in
  match r with
  | Err _ => Ret false
  | Ok _ => let! _ := call Ack in Ret true
  end.

Fixpoint wait_rounds (n : nat) (delay : Z) (j : Job) : Prog (Looped bool) :=
  match n with
  | O => Ret CutOff
  | S n =>
      let! got := acquire j in
      if (got : bool) then Ret (Done true)
      else
        let! go := call (Wait delay) in
        if (go : bool) then wait_rounds n (Z.min (delay * 2) semRetryCap) j else Ret (Done false)
  end.
Definition waitSlot (j : Job) : Prog (Looped bool) := wait_rounds rounds semRetryFirst j.

(** [slot]: the job gets a slot, or was handed back. *)
Definition slot (m : JobDelivery) (j : Job) : Prog (Looped bool) :=
  match limited j with
  | None => Ret (Done true)
  | Some c =>
      let! got := acquire j in
      if (got : bool) then Ret (Done true)
      else
        let! waiter := call (WaiterClaim (jc_Key c)) in
        let! back := (if (waiter : bool) then Ret false else handBack m j) in
        if (back : bool) then Ret (Done false)
        else
          let! got := waitSlot j in
          let! r := match got with
                    | Done false =>
                        let! back := handBack m j in
                        let! _ := (if (back : bool) then Ret tt else call (NakWithDelay 0)) in
                        Ret got
                    | _ => Ret got
                    end in
          let! _ := (if (waiter : bool) then call (WaiterRelease (jc_Key c)) else Ret tt) in
          Ret r
  end.

(** ** Handling a job ([worker.go]) *)

(** [resolve]: the body, an object that is gone, or a shutdown. *)
Inductive Resolved :=
| Body (b : option Job)
| Gone (e : error)
| Stopping.

Fixpoint resolve_rounds (n : nat) (delay missing : Z) (m : JobDelivery) : Prog (Looped Resolved) :=
  match n with
  | O => Ret CutOff
  | S n =>
      if String.eqb (jd_Blob m) "" then Ret (Done (Body (jd_Data m)))
      else
        let! r := resolve_object (jd_Blob m) in
        match r with
        | Ok o => Ret (Done (Body (match o with OJob j => Some j | _ => None end)))
        | Err e =>
            let missing := if errors_is e ErrObjectNotFound then missing + 1 else missing in
            if errors_is e ErrObjectNotFound && (blobNotFoundTries <=? missing) then Ret (Done (Gone e))
            else
              let! go := call (Wait delay) in
              if (go : bool) then resolve_rounds n (Z.min (delay * 2) semRetryCap) missing m else Ret (Done Stopping)
        end
  end.
Definition resolve (m : JobDelivery) : Prog (Looped Resolved) := resolve_rounds rounds semRetryFirst 0 m.

(** [publish]: the answer, on the subject the job names. *)
Definition publish (j : Job) (c : Command) : Prog (result unit) :=
  try! blob := offload_object cfg (jb_ExecID j) (OCommand (Some c)) in
  call (Perform (PublishResult (jb_Reply j) c (jb_Traceparent j) blob)).

Definition deadLetterJob (m : JobDelivery) (n seq : Z) (x : string) (reason : Text) : Prog unit :=
  let! r := call (PublishDLQ {| dl_Kind := DLQJob; dl_Key := x; dl_Flow := ""; dl_Reason := reason; dl_Deliveries := n;
                                dl_Subject := jd_Subject m |} ("job." +:+ Itoa seq)) in
  match r with
  | Err _ => call (NakWithDelay Second)
  | Ok _ => call Term
  end.

Definition exhausted_text : string := "job delivery attempts exhausted".
Definition exhausted (m : JobDelivery) (n seq : Z) (j : Job) : Prog unit :=
  let! r :=
    (try! c := lift (New (job_id j) CFail (jb_ExecID j) (Some (PFail {|
       FailData_TaskRef := job_ref j; FailData_Error := exhausted_text; FailData_Retryable := false;
       FailData_Reason := ReasonDeliveryFailed; FailData_Usage := ∅ |}))) in
     publish j c) in
  match r with
  | Err _ => call (NakWithDelay Second)
  | Ok _ => deadLetterJob m n seq (jb_ExecID j) exhausted_text
  end.

(** [run]: the command that answers a job.  The handler is not called on a job
    whose context does not decode. *)
Definition run_answer (j : Job) (e : JobEnded) : result Command :=
  match jb_Context j with
  | None => failCmd (job_id j) (jb_ExecID j) (job_ref j) "undecodable context" None
  | Some _ => let '(res, herr) := call_result e in resultCmd (job_id j) j (job_ref j) res herr
  end.

(** An answer that could not be built is the zero command. *)
Definition zero_command : Command :=
  {| c_ID := ""; c_Type := COther ""; c_ExecID := ""; c_Time := 0; c_Data := None; c_Reply := "" |}.

Definition run_job (m : JobDelivery) (n : Z) (j : Job) : Prog unit :=
  let! (e, cancelled) := call (RunJob j n) in
  if (cancelled : bool) then call Ack
  else
    let! r := publish j (match run_answer j e with Ok c => c | Err _ => zero_command end) in
    match r with
    | Err _ => call (NakWithDelay Second)
    | Ok _ => call Ack
    end.

Definition handleJob (m : JobDelivery) : Prog unit :=
  match jd_Metadata m with
  | None => call (NakWithDelay 0)
  | Some (n, seq) =>
      if negb (String.eqb (jd_Protocol m) "") && negb (String.eqb (jd_Protocol m) "1") then
        deadLetterJob m n seq "" (Sprintf "unsupported protocol version %s" [AStr (jd_Protocol m)])
      else
        let! body := resolve m in
        match body with
        | CutOff => Ret tt
        | Done (Gone e) => deadLetterJob m n seq "" (Sprintf "job body: %s" [AText (error_text e)])
        | Done Stopping => call (NakWithDelay 0)
        | Done (Body None) => deadLetterJob m n seq "" "undecodable job"
        | Done (Body (Some j)) =>
            if maxDeliver <? n then exhausted m n seq j
            else
              let! s := slot m j in
              match s with
              | Done true => let! _ := run_job m n j in release j
              | _ => Ret tt
              end
        end
  end.

(** ** Stopping jobs ([cancel.go]) *)

(** [event.Type.Terminal], of the name of a type. *)
Definition terminal_name (t : string) : bool :=
  existsb (String.eqb t) [type_string ExecutionCompleted; type_string ExecutionFailed; type_string ExecutionCancelled].

(** [executionEnded]: ended, gone. *)
Definition executionEnded (x : string) : Prog (result (bool * bool)) :=
  let! r := call (EvLastTypes x) in
  lift (match r with
        | Err e => Err e
        | Ok None => Ok (false, true)
        | Ok (Some types) => Ok (existsb terminal_name types, false)
        end).

(** [watchLive]: whether the watch cancels the job; it ends with the job. *)
Fixpoint watch_rounds (n : nat) (interval missing : Z) (x : string) : Prog (Looped bool) :=
  match n with
  | O => Ret CutOff
  | S n =>
      let! go := call (Wait interval) in
      if negb (go : bool) then Ret (Done false)
      else
        let! r := executionEnded x in
        match r with
        | Err _ => watch_rounds n interval missing x
        | Ok (ended, gone) =>
            let missing := if (gone : bool) then missing + 1 else 0 in
            if ended || (2 <=? missing) then Ret (Done true) else watch_rounds n interval missing x
        end
  end.
Definition watchLive (interval : Z) (j : Job) : Prog (Looped bool) :=
  if interval <=? 0 then Ret (Done false) else watch_rounds rounds interval 0 (jb_ExecID j).
End Worker.

(** The running jobs of a process, by execution; a job is known by its number. *)
Record runningJob := { rj_id : Z; rj_key : string; rj_generation : Z; rj_attempt : Z }.
Definition RunningJobs : Type := gmap string (list runningJob).

Definition add_job (x : string) (r : runningJob) (js : RunningJobs) : RunningJobs :=
  <[x := default [] (js !! x) ++ [r]]> js.
Definition remove_job (x : string) (r : runningJob) (js : RunningJobs) : RunningJobs :=
  match List.filter (fun y => negb (rj_id y =? rj_id r)) (default [] (js !! x)) with
  | [] => delete x js
  | l => <[x := l]> js
  end.
(** [stop]: the jobs that are cancelled. *)
Definition stopped_jobs (s : Stop) (js : RunningJobs) : list runningJob :=
  List.filter (fun r => Matches s (rj_key r) (rj_generation r) (rj_attempt r)) (default [] (js !! sp_ExecID s)).
