(* ===== verification/WorkerProps.v ===== *)
(** * What a worker promises

    Every end of a handler is answered with a command for the attempt of the job;
    a delivered job is settled once, and acknowledged only when it is answered,
    handed back or no longer wanted. *)

From S2P Require Import Prelude Json Hash GoStrings Names Flow Event Cmd CmdCodec Reduce State View Wire Codec.
From S2P Require Import Server Sending EventLog Deliveries DispatchProps Worker.

(** ** Answers *)

(** The JSON of an output and of a write; [None] if it does not encode. *)
Definition output_json (v : Output) : option RawMessage :=
  match marshalOutput v with
  | inr b => match raw_field b with Ok r => Some r | Err _ => None end
  | inl _ => None
  end.
Definition write_json (v : Output) : option RawMessage :=
  match marshalOutput v with
  | inr b => match raw_write b with Ok r => Some r | Err _ => None end
  | inl _ => None
  end.

Definition finite_usage (u : gmap string float64) : Prop := map_Forall (fun _ f => f_finite f = true) u.
Definition empty_result : JobResult := {| jr_Output := ONil; jr_Writes := ∅; jr_Next := ""; jr_Usage := ∅ |}.

(** The end of a handler can be told. *)
Definition encodes (e : JobEnded) : Prop :=
  match e with
  | HResult r =>
      let res := default empty_result r in
      is_Some (output_json (jr_Output res)) /\ map_Forall (fun _ v => is_Some (write_json v)) (jr_Writes res) /\
      finite_usage (jr_Usage res)
  | HFailed e =>
      finite_usage (default ∅ (usageOf e)) /\ match interruptOf e with Some v => is_Some (output_json v) | None => True end
  | HPanic _ => True
  end.

#[export] Instance encodes_dec e : Decision (encodes e).
Proof. destruct e as [r|he|w]; cbn; [apply _| |apply _]. destruct (interruptOf he); apply _. Defined.

(** The command that tells it, and whether the attempt may be retried. *)
Definition tells (e : JobEnded) : CmdType :=
  match e with
  | HResult _ => CComplete
  | HFailed e => match interruptOf e with Some _ => CInterrupt | None => CFail end
  | HPanic _ => CFail
  end.
Definition retryable (e : JobEnded) : bool :=
  match e with
  | HResult _ => false
  | HFailed e => negb (IsPermanent e)
  | HPanic _ => true
  end.

Definition usage_of (e : JobEnded) : gmap string float64 :=
  match e with
  | HResult r => jr_Usage (default empty_result r)
  | HFailed e => default ∅ (usageOf e)
  | HPanic _ => ∅
  end.
(** The usage a failure reports: none if it does not encode. *)
Definition usage_told (u : gmap string float64) : gmap string float64 := if bool_decide (finite_usage u) then u else ∅.

(** What the payload of the answer says of the job and of its end. *)
Definition says (j : Job) (e : JobEnded) (p : CmdPayload) : Prop :=
  match p with
  | PComplete d => exists r, e = HResult r /\ let res := default empty_result r in
      CompleteData_TaskRef d = job_ref j /\ output_json (jr_Output res) = Some (CompleteData_Output d) /\
      (forall k, CompleteData_Writes d !! k = jr_Writes res !! k ≫= write_json) /\
      CompleteData_Next d = jr_Next res /\ CompleteData_Usage d = jr_Usage res /\
      CompleteData_CacheKey d = jb_CacheKey j /\ CompleteData_Cached d = false
  | PInterrupt d => exists he v, e = HFailed he /\ interruptOf he = Some v /\
      InterruptData_TaskRef d = job_ref j /\ output_json v = Some (InterruptData_Payload d) /\
      InterruptData_Usage d = default ∅ (usageOf he)
  | PFail d => FailData_TaskRef d = job_ref j /\ FailData_Reason d = "" /\
      FailData_Retryable d = bool_decide (encodes e) && bool_decide (tells e = CFail) && retryable e /\
      FailData_Usage d = usage_told (usage_of e)
  | _ => False
  end.

Lemma New_encoded id t x p j : encode_payload p = Ok j ->
  exists c, New id t x (Some p) = Ok c /\ c_ID c = id /\ c_Type c = t /\ carries c t x p.
Proof.
  intros HE. assert (HN : exists c, New id t x (Some p) = Ok c) by (unfold New; rewrite HE; by eexists).
  destruct HN as [c HN]. exists c. split; [done|]. split; [|split; [|by eapply New_carries]].
  all: unfold New in HN; rewrite HE in HN; by injection HN as <-.
Qed.

Lemma floats_finite u : finite_usage u -> exists o, floats_omitempty u = Ok o.
Proof. intros HF. unfold floats_omitempty. rewrite (bool_decide_eq_true_2 _ HF). case_bool_decide; by eexists. Qed.

Lemma floats_infinite u : ~ finite_usage u -> exists e, floats_omitempty u = Err e.
Proof.
  intros HF. unfold floats_omitempty. rewrite (bool_decide_eq_false_2 _ HF). case_bool_decide; [|by eexists]. subst.
  destruct HF. apply map_Forall_empty.
Qed.

Lemma finite_empty : finite_usage ∅.
Proof. apply map_Forall_empty. Qed.

(** The failure of an answer that cannot be encoded. *)
Lemma failCmd_total id x ref msg usage : exists c d,
  failCmd id x ref msg usage = Ok c /\ c_ID c = id /\ c_Type c = CFail /\ carries c CFail x (PFail d) /\
  FailData_TaskRef d = ref /\ FailData_Reason d = "" /\ FailData_Retryable d = false /\
  FailData_Usage d = usage_told (default ∅ usage).
Proof.
  pose (data u := {| FailData_TaskRef := ref; FailData_Error := msg; FailData_Retryable := false; FailData_Reason := "";
                     FailData_Usage := u |}).
  assert (HN : forall u, finite_usage u -> exists c, New id CFail x (Some (PFail (data u))) = Ok c /\ c_ID c = id /\
      c_Type c = CFail /\ carries c CFail x (PFail (data u))).
  { intros u [o Ho]%floats_finite. eapply New_encoded. cbn. by rewrite Ho. }
  unfold failCmd, usage_told. fold (data (default ∅ usage)) (data ∅). case_bool_decide as HF.
  - destruct (HN _ HF) as (c & -> & H1 & H2 & H3). exists c, (data (default ∅ usage)). by destruct usage.
  - destruct (HN _ finite_empty) as (c & HC & H1 & H2 & H3). exists c, (data ∅).
    assert (HE : exists e, New id CFail x (Some (PFail (data (default ∅ usage)))) = Err e).
    { destruct (floats_infinite _ HF) as [e He]. unfold New. cbn. rewrite He. by eexists. }
    destruct HE as [e ->]. destruct usage; [done|]. destruct HF. apply finite_empty.
Qed.

(** *** Writes *)

Section Writes.
Context (writes : gmap string Output).
Let encode_keys : list string -> Text + list (string * RawBytes) :=
  foldr (fun k acc =>
    match marshalOutput (default ONil (writes !! k)), acc with
    | inl t, _ => inl t
    | inr _, inl t => inl t
    | inr b, inr l => inr ((k, b) :: l)
    end) (inr []).

Lemma encode_keys_ok ks :
  Forall (fun k => is_Some (write_json (default ONil (writes !! k)))) ks ->
  exists l m, encode_keys ks = inr l /\ write_map l = Ok m.
Proof.
  induction 1 as [|k ks Hk _ (l & m & Hl & Hm)]; [by exists [], ∅|]. unfold write_json in Hk. cbn. fold (encode_keys ks).
  rewrite Hl. destruct (marshalOutput _) as [t|b]; [by destruct Hk|]. destruct (raw_write b) as [r|e] eqn:Er; [|by destruct Hk].
  exists ((k, b) :: l), (<[k:=r]> m). split; [done|]. cbn. fold (write_map l). by rewrite Er, Hm.
Qed.

Lemma encode_keys_inv ks l m :
  NoDup ks -> encode_keys ks = inr l -> write_map l = Ok m ->
  (forall k, k ∈ ks -> exists r, m !! k = Some r /\ write_json (default ONil (writes !! k)) = Some r) /\
  (forall k, k ∉ ks -> m !! k = None).
Proof.
  revert l m. induction ks as [|k ks IH]; intros l m HN.
  { intros [= <-] [= <-]. split; [by intros ? ?%not_elem_of_nil|]. intros. apply lookup_empty. }
  apply NoDup_cons in HN as [Hk HN]. cbn. fold (encode_keys ks).
  destruct (marshalOutput _) as [t|b] eqn:Eb; [done|]. destruct (encode_keys ks) as [t|l'] eqn:El; [done|]. intros [= <-].
  cbn. fold (write_map l'). destruct (raw_write b) as [r|] eqn:Er; [|done]. destruct (write_map l') as [m'|] eqn:Em; [|done].
  intros [= <-]. destruct (IH l' m' HN eq_refl Em) as [H1 H2]. split.
  - intros k' [->|Hk']%elem_of_cons.
    + exists r. rewrite lookup_insert_eq. unfold write_json. by rewrite Eb, Er.
    + rewrite lookup_insert_ne by (by intros ->). by apply H1.
  - intros k' [Hne Hk']%not_elem_of_cons. rewrite lookup_insert_ne by done. by apply H2.
Qed.

Lemma writes_ok : map_Forall (fun _ v => is_Some (write_json v)) writes ->
  exists l m, encode_writes writes = inr l /\ write_map l = Ok m.
Proof.
  intros HF. apply encode_keys_ok, Forall_forall. intros k [v Hv]%elem_of_sorted_keys. rewrite Hv. by apply (HF k).
Qed.

Lemma writes_inv l m : encode_writes writes = inr l -> write_map l = Ok m ->
  (forall k, m !! k = writes !! k ≫= write_json) /\ map_Forall (fun _ v => is_Some (write_json v)) writes.
Proof.
  intros Hl Hm. destruct (encode_keys_inv _ _ _ (sorted_keys_NoDup writes) Hl Hm) as [H1 H2]. split.
  - intros k. destruct (decide (k ∈ sorted_keys writes)) as [Hk|Hk].
    + destruct (H1 k Hk) as (r & -> & Hr). apply elem_of_sorted_keys in Hk as [v Hv]. rewrite Hv in *. done.
    + rewrite H2 by done. destruct (writes !! k) as [v|] eqn:Hv; [|done]. destruct Hk. apply elem_of_sorted_keys. by exists v.
  - intros k v Hv. destruct (H1 k) as (r & _ & Hr); [apply elem_of_sorted_keys; by exists v|]. rewrite Hv in Hr. by exists r.
Qed.
End Writes.

(** *** Every end is answered *)

Section Answers.
Context `{Evaluator}.

(** [r] is a command that answers the job. *)
Definition answered (j : Job) (e : JobEnded) (r : result Command) : Prop :=
  exists c p, r = Ok c /\ c_ID c = job_id j /\ carries c (c_Type c) (jb_ExecID j) p /\ says j e p /\
    c_Type c = (if bool_decide (encodes e) then tells e else CFail).

Lemma answer_made j e t p enc :
  encode_payload p = Ok enc -> says j e p -> t = (if bool_decide (encodes e) then tells e else CFail) ->
  answered j e (New (job_id j) t (jb_ExecID j) (Some p)).
Proof.
  intros HE HS ->. destruct (New_encoded (job_id j) (if bool_decide (encodes e) then tells e else CFail) (jb_ExecID j) p enc HE)
    as (c & HN & H1 & H2 & H3).
  exists c, p. split; [done|]. split; [done|]. rewrite H2. done.
Qed.

Lemma fail_answered j e msg usage :
  ~ encodes e -> default ∅ usage = usage_of e ->
  answered j e (failCmd (job_id j) (jb_ExecID j) (job_ref j) msg usage).
Proof.
  intros HE HU. destruct (failCmd_total (job_id j) (jb_ExecID j) (job_ref j) msg usage)
    as (c & d & HC & H1 & H2 & H3 & H4 & H5 & H6 & H7).
  exists c, (PFail d). rewrite H2, (bool_decide_eq_false_2 _ HE). split_and!; try done. cbn.
  rewrite (bool_decide_eq_false_2 _ HE), H7, HU. done.
Qed.

(** What is left of [resultCmd] when the answer failed. *)
Lemma result_failed j e res herr err :
  answerCmd (job_id j) j (job_ref j) res herr = Err err -> ~ encodes e ->
  default ∅ (match herr, res with Some he, _ => usageOf he | None, Some r => Some (jr_Usage r) | None, None => None end) = usage_of e ->
  answered j e (resultCmd (job_id j) j (job_ref j) res herr).
Proof. intros HA HE HU. unfold resultCmd. rewrite HA. by apply fail_answered. Qed.

Lemma result_made j e res herr c :
  answerCmd (job_id j) j (job_ref j) res herr = Ok c ->
  answered j e (answerCmd (job_id j) j (job_ref j) res herr) -> answered j e (resultCmd (job_id j) j (job_ref j) res herr).
Proof. intros HA. unfold resultCmd. by rewrite HA. Qed.

Lemma answered_result j e res herr :
  answered j e (answerCmd (job_id j) j (job_ref j) res herr) -> answered j e (resultCmd (job_id j) j (job_ref j) res herr).
Proof. intros HA. destruct HA as (c & p & HC & HA). eapply result_made; [done|]. by exists c, p. Qed.

Lemma complete_answered j r : answered j (HResult r) (resultCmd (job_id j) j (job_ref j) r None).
Proof.
  set (e := HResult r). set (res := default empty_result r).
  assert (HF : forall msg, ~ encodes e -> answered j e (failCmd (job_id j) (jb_ExecID j) (job_ref j) msg (Some (jr_Usage res))))
    by (intros; by apply fail_answered).
  assert (HX : forall err, answerCmd (job_id j) j (job_ref j) r None = Err err -> ~ encodes e ->
      answered j e (resultCmd (job_id j) j (job_ref j) r None))
    by (intros err HA HE; eapply result_failed; [exact HA|exact HE|by destruct r]).
  cbn [answerCmd] in HX. pose proof (answered_result j e r None) as HR. cbn [answerCmd] in HR.
  unfold completeCmd in HX, HR. fold empty_result in HX, HR. fold res in HX, HR. unfold encodes in *. cbn [e] in *. fold res in HF, HX.
  destruct (marshalOutput (jr_Output res)) as [t|out] eqn:Eo.
  { apply HR, HF. intros ([v Hv] & _). unfold output_json in Hv. by rewrite Eo in Hv. }
  destruct (encode_writes (jr_Writes res)) as [t|l] eqn:Ew.
  { apply HR, HF. intros (_ & (l & m & Hl & _)%writes_ok & _). by rewrite Ew in Hl. }
  destruct (raw_field out) as [o|err] eqn:Ef; cbn [encoding res_bind] in HX, HR.
  2: { eapply HX; [done|]. intros ([v Hv] & _). unfold output_json in Hv. by rewrite Eo, Ef in Hv. }
  destruct (write_map l) as [m|err] eqn:Em; cbn [encoding res_bind] in HX, HR.
  2: { eapply HX; [done|]. intros (_ & (l' & m & Hl & Hm)%writes_ok & _). rewrite Ew in Hl. injection Hl as <-. by rewrite Em in Hm. }
  destruct (writes_inv _ _ _ Ew Em) as [Hm HW].
  assert (Ho : output_json (jr_Output res) = Some o) by (unfold output_json; by rewrite Eo, Ef).
  destruct (decide (finite_usage (jr_Usage res))) as [HU|HU].
  - destruct (floats_finite _ HU) as [u Hu]. apply HR. eapply answer_made; [cbn; by rewrite Hu| |].
    + exists r. by split_and!.
    + rewrite bool_decide_eq_true_2; [done|]. split; [by exists o|done].
  - destruct (floats_infinite _ HU) as [u Hu]. eapply HX; [unfold New; cbn; by rewrite Hu|]. by intros (_ & _ & ?).
Qed.
Lemma interrupt_answered j he v : interruptOf he = Some v ->
  answered j (HFailed he) (resultCmd (job_id j) j (job_ref j) None (Some he)).
Proof.
  intros HI. set (e := HFailed he).
  assert (HX : forall err, answerCmd (job_id j) j (job_ref j) None (Some he) = Err err -> ~ encodes e ->
      answered j e (resultCmd (job_id j) j (job_ref j) None (Some he)))
    by (intros err HA HE; by eapply result_failed).
  pose proof (answered_result j e None (Some he)) as HR. unfold answerCmd in HX, HR. rewrite HI in HX, HR.
  assert (HE : encodes e <-> finite_usage (default ∅ (usageOf he)) /\ is_Some (output_json v)) by (cbn; by rewrite HI).
  unfold output_json in HE. destruct (marshalOutput v) as [t|b] eqn:Eb.
  { apply HR, fail_answered; [|done]. rewrite HE. by intros (_ & ? & ?). }
  destruct (raw_field b) as [r|err] eqn:Er; cbn [encoding res_bind] in HX, HR.
  2: { eapply HX; [done|]. rewrite HE. by intros (_ & ? & ?). }
  destruct (decide (finite_usage (default ∅ (usageOf he)))) as [HU|HU].
  - destruct (floats_finite _ HU) as [u Hu]. apply HR. eapply answer_made; [cbn; by rewrite Hu| |].
    + exists he, v. split_and!; try done. unfold output_json. by rewrite Eb, Er.
    + rewrite bool_decide_eq_true_2 by (rewrite HE; split; [done|by exists r]). cbn. by rewrite HI.
  - destruct (floats_infinite _ HU) as [u Hu]. eapply HX; [unfold New; cbn; by rewrite Hu|]. rewrite HE. by intros (? & _).
Qed.

Lemma failure_answered j e he :
  interruptOf he = None -> usage_of e = default ∅ (usageOf he) -> tells e = CFail -> retryable e = negb (IsPermanent he) ->
  (encodes e <-> finite_usage (default ∅ (usageOf he))) ->
  answered j e (resultCmd (job_id j) j (job_ref j) None (Some he)).
Proof.
  intros HI Hu Ht Hr HE. destruct (decide (finite_usage (default ∅ (usageOf he)))) as [HU|HU].
  - apply answered_result. unfold answerCmd. rewrite HI. destruct (floats_finite _ HU) as [u Hf].
    eapply answer_made; [cbn; by rewrite Hf| |].
    + cbn. rewrite (bool_decide_eq_true_2 (encodes e)) by (by apply HE). rewrite (bool_decide_eq_true_2 (tells e = CFail)) by done.
      rewrite Hr, Hu. unfold usage_told. by rewrite (bool_decide_eq_true_2 _ HU).
    + rewrite (bool_decide_eq_true_2 (encodes e)) by (by apply HE). done.
  - destruct (floats_infinite _ HU) as [u Hf]. eapply result_failed; [|by rewrite HE|done].
    unfold answerCmd, New. rewrite HI. cbn. by rewrite Hf.
Qed.

(** [r] is the failure of a job whose context cannot be read. *)
Definition not_run (j : Job) (r : result Command) : Prop :=
  exists c d, r = Ok c /\ c_ID c = job_id j /\ c_Type c = CFail /\ carries c CFail (jb_ExecID j) (PFail d) /\
    FailData_TaskRef d = job_ref j /\ FailData_Retryable d = false /\ FailData_Usage d = ∅.

Lemma handler_answered j e :
  let '(res, herr) := call_result e in answered j e (resultCmd (job_id j) j (job_ref j) res herr).
Proof.
  destruct e as [r|he|what]; cbn [call_result].
  - apply complete_answered.
  - destruct (interruptOf he) as [v|] eqn:HI; [by eapply interrupt_answered|]. apply failure_answered; try done.
    + cbn. by rewrite HI.
    + cbn. rewrite HI. tauto.
  - by apply failure_answered.
Qed.

Lemma run_answered j e :
  match jb_Context j with Some _ => answered j e (run_answer j e) | None => not_run j (run_answer j e) end.
Proof.
  unfold run_answer. destruct (jb_Context j) as [c|]; [pose proof (handler_answered j e); by destruct (call_result e)|].
  destruct (failCmd_total (job_id j) (jb_ExecID j) (job_ref j) "undecodable context" None)
    as (c & d & HC & H1 & H2 & H3 & H4 & _ & H5 & H6).
  exists c, d. by split_and!.
Qed.

Lemma run_answer_ok j e : exists c, run_answer j e = Ok c.
Proof.
  pose proof (run_answered j e) as HA. destruct (jb_Context j); destruct HA as (c0 & ? & HC & _); by exists c0.
Qed.

(** C18. However a handler ends (a result, an error, an interrupt
    or a panic), the worker has a command that answers the attempt of the job: a
    completion with the output and the writes, an interrupt with its payload, or
    a failure that may be retried unless the error was permanent.  What cannot be
    encoded (a NaN in the usage, bytes that are not JSON) becomes a failure that is
    not retried.  The engine reads from the command the reference of the attempt,
    and the usage whenever it can be encoded.  A job whose context does not decode
    fails, without a retry. *)
Theorem job_always_answered j e :
  match jb_Context j with Some _ => answered j e (run_answer j e) | None => not_run j (run_answer j e) end.
Proof. apply run_answered. Qed.
End Answers.

(** ** Settling a job *)

(** The waits of a run that were not cut short by a shutdown. *)
Definition waited (e : Exchange) : bool :=
  match x_call e as c return Answer c -> bool with
  | Wait _ => fun b => b
  | _ => fun _ => false
  end (x_answer e).
Definition waits (tr : list Exchange) : nat := length (List.filter waited tr).

Lemma waits_app t1 t2 : waits (t1 ++ t2) = (waits t1 + waits t2)%nat.
Proof. unfold waits. by rewrite List.filter_app, length_app. Qed.

(** The job that a run reads from its message: its body, or the object it names. *)
Definition body_of (m : JobDelivery) (tr : list Exchange) (j : Job) : Prop :=
  if String.eqb (jd_Blob m) "" then jd_Data m = Some j
  else {| x_call := BlobGet (jd_Blob m); x_answer := Got (OJob j) |} ∈ tr.
Definition supported (m : JobDelivery) : bool := String.eqb (jd_Protocol m) "" || String.eqb (jd_Protocol m) "1".
Definition job_read (m : JobDelivery) (tr : list Exchange) (j : Job) : Prop :=
  is_Some (jd_Metadata m) /\ supported m = true /\ body_of m tr j.

Definition Quiet (tr : list Exchange) : Prop := Forall (fun e => quiet (x_call e) = true) tr.

Lemma quiet_run {A} (p : Prog A) tr a : only quiet p -> Runs p tr a -> Quiet tr.
Proof. apply only_runs. Qed.

Section Settled.
Context `{Evaluator}.

(** The worker published [c] as the answer to [j]. *)
Definition reported (j : Job) (c : Command) (tr : list Exchange) : Prop :=
  exists trace blob, {| x_call := Perform (PublishResult (jb_Reply j) c trace blob); x_answer := Ok tt |} ∈ tr.

(** The command that gives a job up. *)
Definition gives_up (j : Job) (c : Command) : Prop :=
  c_ID c = job_id j /\ carries c CFail (jb_ExecID j) (PFail {|
    FailData_TaskRef := job_ref j; FailData_Error := exhausted_text; FailData_Retryable := false;
    FailData_Reason := ReasonDeliveryFailed; FailData_Usage := ∅ |}).

(** What must precede a settlement of the message of a job, if one was read. *)
Definition justified (job : option Job) (before : list Exchange) (c : Call) : Prop :=
  match c with
  | Ack => exists j, job = Some j /\
      ((exists n e c, {| x_call := RunJob j n; x_answer := (e, false) |} ∈ before /\ run_answer j e = Ok c /\ reported j c before) \/
       (exists n e, {| x_call := RunJob j n; x_answer := (e, true) |} ∈ before) \/
       (exists at_ busy, 0 < busy /\
          {| x_call := Perform (ScheduleCopy (jb_Kind j) (busyID j) at_ busy j); x_answer := Ok tt |} ∈ before))
  | NakWithDelay d => d = 0 \/ d = Second
  | Term =>
      (exists d k, {| x_call := PublishDLQ d k; x_answer := Ok tt |} ∈ before) /\
      (forall j, job = Some j -> exists c, gives_up j c /\ reported j c before)
  | _ => False
  end.

Definition settled_job (job : option Job) (tr : list Exchange) : Prop :=
  exists before s after, tr = before ++ s :: after /\ Quiet before /\ Quiet after /\ justified job before (x_call s).

Lemma reported_more j c t tr : reported j c tr -> reported j c (t ++ tr).
Proof. intros (tc & b & Hin). exists tc, b. apply elem_of_app. by right. Qed.

Lemma justified_more job t before c : justified job before c -> justified job (t ++ before) c.
Proof.
  destruct c; try done.
  - intros (j & Hj & HJ). exists j. split; [done|]. destruct HJ as [(n & e & c & Hr & Ha & Hp)|[(n & e & Hr)|(a & b & Hb & Hr)]].
    + left. exists n, e, c. split; [apply elem_of_app; by right|]. split; [done|by apply reported_more].
    + right; left. exists n, e. apply elem_of_app. by right.
    + right; right. exists a, b. split; [done|]. apply elem_of_app. by right.
  - intros [(d & k & Hd) HJ]. split; [exists d, k; apply elem_of_app; by right|].
    intros j Hj. destruct (HJ j Hj) as (c & Hc & Hr). exists c. split; [done|by apply reported_more].
Qed.

Lemma settled_later job t1 t2 : Quiet t1 -> settled_job job t2 -> settled_job job (t1 ++ t2).
Proof.
  intros HQ (b & s & a & -> & Hb & Ha & HJ). exists (t1 ++ b), s, a.
  split; [by rewrite <- app_assoc|]. split; [by apply Forall_app|]. split; [done|by apply justified_more].
Qed.

Lemma settled_before job t1 t2 : settled_job job t1 -> Quiet t2 -> settled_job job (t1 ++ t2).
Proof.
  intros (b & s & a & -> & Hb & Ha & HJ) HQ. exists b, s, (a ++ t2).
  split; [by rewrite <- app_assoc|]. split; [done|]. split; [by apply Forall_app|done].
Qed.

Lemma settled_call job before c r : Quiet before -> justified job before c -> settled_job job (before ++ [{| x_call := c; x_answer := r |}]).
Proof. intros HQ HJ. exists before, {| x_call := c; x_answer := r |}, []. split_and!; [done|done|constructor|done]. Qed.

Lemma nak_settled job d tr : d = 0 \/ d = Second -> Runs (call (NakWithDelay d)) tr tt -> settled_job job tr.
Proof. intros Hd ->%runs_call. by apply (settled_call _ []); [constructor|]. Qed.

(** *** The semaphore leaves the message alone *)

Lemma cas_rounds_quiet n key fn : (forall v, only quiet (fn v)) -> only quiet (cas_rounds n key fn).
Proof.
  intros HF. induction n as [|n IH]; cbn [cas_rounds]; [exact I|]. apply only_bind; [by split|]. intros [e|]; [|exact I].
  destruct (default (∅, 0) e) as [v rev]. apply only_bind; [apply HF|]. intros [v'|]; [|exact I].
  apply only_bind; [by split|]. by intros [].
Qed.

Context (cfg : Config) (maxDeliver ackWait : Z) (rounds : nat).

Lemma acquire_quiet j : only quiet (acquire ackWait j).
Proof. unfold acquire. destruct (limited j); [|exact I]. apply cas_rounds_quiet. intros. by split. Qed.

Lemma release_quiet j : only quiet (release j).
Proof. unfold release. destruct (limited j); [|exact I]. apply only_bind; [apply cas_rounds_quiet; by intros|by intros]. Qed.

Lemma publish_quiet j c : only quiet (publish cfg j c).
Proof. apply internal_quiet. unfold publish, offload_object. silent. Qed.

Lemma publish_reported j c tr : Runs (publish cfg j c) tr (Ok tt) -> reported j c tr.
Proof.
  intros HR. run_ok HR. apply runs_call in HR as ->. exists (jb_Traceparent j), a. apply elem_of_app. right. apply list_elem_of_here.
Qed.

Lemma handBack_run m j tr back :
  Runs (handBack m j) tr back -> if back then settled_job (Some j) tr else Quiet tr.
Proof.
  unfold handBack. intros (now & t1 & -> & r & t2 & -> & HR). destruct r as [[]|e].
  - destruct HR as (u & t3 & -> & -> & <-).
    apply (settled_call (Some j) [_; _]); [by repeat constructor|]. exists j. split; [done|]. right; right.
    eexists _, _. split; [|apply list_elem_of_further, list_elem_of_here]. lia.
  - destruct HR as [-> <-]. by repeat constructor.
Qed.

Lemma wait_rounds_run n delay j tr r :
  Runs (wait_rounds ackWait n delay j) tr r -> Quiet tr /\ (r = CutOff -> (n <= waits tr)%nat).
Proof.
  revert delay tr. induction n as [|n IH]; intros delay tr; cbn [wait_rounds].
  - intros [-> <-]. split; [constructor|simpl; lia].
  - intros (t1 & got & t2 & H1 & H2 & ->)%runs_bind. apply (quiet_run _ _ _ (acquire_quiet j)) in H1.
    destruct got; [destruct H2 as [-> <-]; rewrite app_nil_r; done|].
    destruct H2 as (go & t3 & -> & H3). destruct go.
    + apply IH in H3 as [HQ HW]. split; [apply Forall_app; split; [done|by constructor]|].
      intros Hr. specialize (HW Hr). rewrite waits_app. change (waits (_ :: t3)) with (S (waits t3)). lia.
    + destruct H3 as [-> <-]. split; [apply Forall_app; split; [done|by repeat constructor]|done].
Qed.

Lemma slot_run m j tr r :
  Runs (slot ackWait rounds m j) tr r ->
  match r with
  | Done true => Quiet tr
  | Done false => settled_job (Some j) tr
  | CutOff => (rounds <= waits tr)%nat
  end.
Proof.
  unfold slot. destruct (limited j) as [c|]; [|intros [-> <-]; constructor].
  intros (t1 & got & t2 & H1 & H2 & ->)%runs_bind. apply (quiet_run _ _ _ (acquire_quiet j)) in H1.
  destruct got; [destruct H2 as [-> <-]; by rewrite app_nil_r|].
  apply runs_bind in H2 as (t3 & waiter & t2' & H3 & H2 & ->). apply runs_call in H3 as ->.
  apply runs_bind in H2 as (t4 & back & t5 & H4 & H5 & ->). cbn [app].
  assert (HQ1 : Quiet (t1 ++ [{| x_call := WaiterClaim (jc_Key c); x_answer := waiter |}])) by (apply Forall_app; by repeat constructor).
  replace (t1 ++ _ :: t4 ++ t5) with ((t1 ++ [{| x_call := WaiterClaim (jc_Key c); x_answer := waiter |}]) ++ t4 ++ t5)
    by (by rewrite <- app_assoc).
  assert (HB : if back then settled_job (Some j) t4 else Quiet t4).
  { destruct waiter; [destruct H4 as [-> <-]; by apply Forall_nil|]. by apply handBack_run in H4. }
  destruct back; [destruct H5 as [-> <-]; rewrite app_nil_r; by apply settled_later|].
  apply runs_bind in H5 as (t6 & got & t7 & H6 & H7 & ->). apply wait_rounds_run in H6 as [HQ6 HW].
  apply runs_bind in H7 as (t8 & r' & t9 & H8 & H9 & ->). apply runs_bind in H9 as (t10 & u & t11 & H10 & [-> <-] & ->).
  rewrite app_nil_r. assert (HQ10 : Quiet t10) by (destruct waiter; [apply runs_call in H10 as ->; by repeat constructor|by destruct H10 as [-> _]; constructor]).
  destruct got as [[]|].
  - destruct H8 as [-> <-]. apply Forall_app; split; [done|]. apply Forall_app; split; [done|]. by apply Forall_app.
  - apply runs_bind in H8 as (t12 & b & t13 & H12 & H13 & ->). apply handBack_run in H12.
    apply runs_bind in H13 as (t14 & v & t15 & H14 & [-> <-] & ->). rewrite app_nil_r.
    apply settled_later; [done|]. apply settled_later; [done|]. apply settled_later; [done|]. apply settled_before; [|done].
    destruct b; [destruct H14 as [-> _]; by rewrite app_nil_r|]. apply settled_later; [done|]. destruct v. eapply nak_settled; [by left|exact H14].
  - destruct H8 as [-> <-]. rewrite !waits_app. specialize (HW eq_refl). lia.
Qed.

(** *** Reading the body *)

Lemma resolve_rounds_quiet n delay missing m : only quiet (resolve_rounds n delay missing m).
Proof.
  revert delay missing. induction n as [|n IH]; intros delay missing; cbn [resolve_rounds]; [exact I|].
  destruct (String.eqb _ _); [exact I|]. apply only_bind; [apply internal_quiet; unfold resolve_object; silent|].
  intros [o|e]; [exact I|]. cbv zeta. destruct (_ && _); [exact I|]. apply only_bind; [by split|]. by intros [].
Qed.

(** The object that an exchange brought. *)
Definition got_object (e : Exchange) : option Object :=
  match x_call e as c return Answer c -> option Object with
  | BlobGet _ => fun a => match a with Got o => Some o | _ => None end
  | _ => fun _ => None
  end (x_answer e).

Lemma resolve_object_body m t r :
  String.eqb (jd_Blob m) "" = false -> Runs (resolve_object (jd_Blob m)) t r ->
  forall j, body_of m t j <-> r = Ok (OJob j).
Proof.
  intros Hb (a & t' & -> & HR) j. unfold body_of. rewrite Hb.
  assert (HI : forall t', t' = [] -> {| x_call := BlobGet (jd_Blob m); x_answer := Got (OJob j) |} ∈
      {| x_call := BlobGet (jd_Blob m); x_answer := a |} :: t' <-> a = Got (OJob j)).
  { intros ? ->. rewrite list_elem_of_singleton. split; [|by intros ->]. intros HE%(f_equal got_object). destruct a; by simplify_eq/=. }
  rewrite HI by (by destruct a, HR). destruct a as [o| |e]; destruct HR as [-> <-]; by split; intros; simplify_eq.
Qed.

Lemma body_app m t1 t2 j :
  String.eqb (jd_Blob m) "" = false -> (body_of m (t1 ++ t2) j <-> body_of m t1 j \/ body_of m t2 j).
Proof. intros Hb. unfold body_of. rewrite Hb. apply elem_of_app. Qed.

Lemma body_later m t1 t2 j : body_of m t1 j -> body_of m (t1 ++ t2) j.
Proof. unfold body_of. destruct (String.eqb _ _); [done|]. intros. apply elem_of_app. by left. Qed.

Lemma wait_no_body m d b j : String.eqb (jd_Blob m) "" = false -> ~ body_of m [{| x_call := Wait d; x_answer := b |}] j.
Proof. intros Hb. unfold body_of. rewrite Hb. intros Hin%list_elem_of_singleton. by apply (f_equal x_call) in Hin. Qed.

Lemma resolve_rounds_run n delay missing m tr r :
  Runs (resolve_rounds n delay missing m) tr r ->
  match r with
  | Done (Body (Some j)) => body_of m tr j
  | Done _ => forall j, ~ body_of m tr j
  | CutOff => (n <= waits tr)%nat
  end.
Proof.
  revert delay missing tr. induction n as [|n IH]; intros delay missing tr; cbn [resolve_rounds].
  { intros [-> <-]. simpl. lia. }
  destruct (String.eqb (jd_Blob m) "") eqn:Hb.
  { intros [-> <-]. unfold body_of. rewrite Hb. destruct (jd_Data m); [done|]. by intros. }
  intros (t1 & o & t2 & H1 & H2 & ->)%runs_bind. pose proof (resolve_object_body _ _ _ Hb H1) as HB.
  destruct o as [o|e].
  - destruct H2 as [-> <-]. rewrite app_nil_r. destruct o; try (intros j; rewrite HB; congruence). by apply HB.
  - assert (HN : forall j, ~ body_of m t1 j) by (intros j; by rewrite HB). cbv zeta in H2.
    destruct (_ && _); [destruct H2 as [-> <-]; by rewrite app_nil_r|].
    apply runs_bind in H2 as (t3 & go & t4 & H3 & H4 & ->). apply runs_call in H3 as ->.
    assert (HX : forall t j, body_of m (t1 ++ [{| x_call := Wait delay; x_answer := go |}] ++ t) j <-> body_of m t j).
    { intros t j. rewrite !body_app by done. pose proof (HN j). pose proof (wait_no_body m delay go j Hb). tauto. }
    destruct go.
    + apply IH in H4. destruct r as [[[j|]|e'|]|]; try (intros j; rewrite HX; by apply H4); [by apply HX|].
      rewrite !waits_app. change (waits [_]) with 1%nat. lia.
    + destruct H4 as [-> <-]. intros j. rewrite HX. unfold body_of. rewrite Hb. apply not_elem_of_nil.
Qed.

(** *** The handling of a job *)

Lemma deadLetterJob_settled job before m n seq x reason tr :
  Quiet before -> (forall j, job = Some j -> exists c, gives_up j c /\ reported j c before) ->
  Runs (deadLetterJob m n seq x reason) tr tt -> settled_job job (before ++ tr).
Proof.
  intros HQ HG (r & t1 & -> & HR). destruct r as [[]|e].
  - destruct HR as ([] & t2 & -> & -> & _). set (dlq := {| x_call := PublishDLQ _ _ |}).
    change (before ++ dlq :: ?l) with (before ++ [dlq] ++ l). rewrite app_assoc.
    apply settled_call; [apply Forall_app; by repeat constructor|]. split.
    + eexists _, _. apply elem_of_app. right. apply list_elem_of_here.
    + intros j Hj. destruct (HG j Hj) as (c & Hc & tc & b & Hin). exists c. split; [done|]. exists tc, b. apply elem_of_app. by left.
  - apply settled_later; [done|]. apply (settled_later _ [_]); [by repeat constructor|]. eapply nak_settled; [by right|exact HR].
Qed.

Lemma unread_settled m n seq x reason tr : Runs (deadLetterJob m n seq x reason) tr tt -> settled_job None tr.
Proof. intros HR. by eapply (deadLetterJob_settled None []); [constructor| |]. Qed.

Lemma exhausted_settled m n seq j tr : Runs (exhausted cfg m n seq j) tr tt -> settled_job (Some j) tr.
Proof.
  intros (t1 & r & t2 & H1 & H2 & ->)%runs_bind.
  assert (HQ : Quiet t1) by (eapply quiet_run; [|exact H1]; apply only_fbind; [exact I|intros c; apply publish_quiet]).
  destruct r as [[]|e]; [|apply settled_later; [done|]; eapply nak_settled; [by right|exact H2]].
  eapply deadLetterJob_settled; [done| |exact H2]. intros ? [= <-]. run_ok H1. apply runs_lift in H0 as [-> HN].
  exists a. split; [|by eapply publish_reported]. symmetry in HN.
  pose proof (New_carries _ _ _ _ _ HN) as HC. split; [|done]. unfold New in HN. cbn in HN. by injection HN as <-.
Qed.

Lemma run_job_settled m n j tr : Runs (run_job cfg m n j) tr tt -> settled_job (Some j) tr.
Proof.
  unfold run_job. intros (t1 & [e cancelled] & t2 & H1 & H2 & ->)%runs_bind. apply runs_call in H1 as ->.
  destruct cancelled.
  - apply runs_call in H2 as ->. apply settled_call; [by repeat constructor|]. exists j. split; [done|]. right; left.
    exists n, e. apply list_elem_of_here.
  - destruct (run_answer_ok j e) as [c HC]. rewrite HC in H2.
    apply runs_bind in H2 as (t3 & r & t4 & H3 & H4 & ->). pose proof (quiet_run _ _ _ (publish_quiet j c) H3) as HQ.
    destruct r as [[]|err].
    + apply runs_call in H4 as ->. rewrite app_assoc. apply settled_call; [apply Forall_app; by repeat constructor|].
      exists j. split; [done|]. left. exists n, e, c. split; [apply list_elem_of_here|]. split; [done|].
      by apply reported_more, publish_reported.
    + apply settled_later; [by repeat constructor|]. apply settled_later; [done|]. eapply nak_settled; [by right|exact H4].
Qed.

(** Runs that read no object. *)
Definition unread (c : Call) : bool := match c with BlobGet _ => false | _ => true end.

Lemma body_unread {A} m (p : Prog A) a t1 t2 j : only unread p -> Runs p t2 a -> body_of m (t1 ++ t2) j -> body_of m t1 j.
Proof.
  intros HP HR. apply (only_runs _ _ _ _ HP) in HR. unfold body_of. destruct (String.eqb _ _); [done|].
  intros [Hin|Hin]%elem_of_app; [done|]. rewrite Forall_forall in HR. by apply HR in Hin.
Qed.

Lemma deadLetterJob_unread m n seq x reason : only unread (deadLetterJob m n seq x reason).
Proof. apply only_bind; [by split|]. by intros []; split. Qed.

(** C17. A delivered job is settled exactly once, whatever the server
    answers, provided the loops that wait are not cut off (the run waited less
    often than the bound allows).  It is acknowledged only after its answer was
    published, a copy of it was scheduled because its key is busy, or the job was
    cancelled; it is terminated only after a dead letter was recorded, and, if the
    job could be read, after its node was failed; otherwise it is delivered
    again. *)
Theorem job_settled_once m tr :
  Runs (handleJob cfg maxDeliver ackWait rounds m) tr tt -> (waits tr < rounds)%nat ->
  exists job, settled_job job tr /\ match job with Some j => job_read m tr j | None => forall j, ~ job_read m tr j end.
Proof.
  unfold handleJob, job_read. destruct (jd_Metadata m) as [[n seq]|] eqn:EM.
  2: { intros HR _. exists None. split; [eapply nak_settled; [by left|exact HR]|]. by intros j [[? ?] _]. }
  fold (supported m). replace (negb (String.eqb (jd_Protocol m) "") && negb (String.eqb (jd_Protocol m) "1")) with (negb (supported m))
    by apply negb_orb.
  destruct (supported m); cbn [negb].
  2: { intros HR _. exists None. split; [by eapply unread_settled|]. by intros j (_ & ? & _). }
  intros (t1 & r & t2 & H1 & H2 & ->)%runs_bind. rewrite waits_app. intros HW.
  pose proof (quiet_run _ _ _ (resolve_rounds_quiet _ _ _ _) H1) as HQ. apply resolve_rounds_run in H1.
  assert (HN : forall (p : Prog unit), only unread p -> Runs p t2 tt -> (forall j, ~ body_of m t1 j) -> forall j,
      ~ (is_Some (Some (n, seq)) /\ true = true /\ body_of m (t1 ++ t2) j)).
  { intros p HP HR HB j (_ & _ & Hj). eapply HB, body_unread; [exact HP|exact HR|exact Hj]. }
  destruct r as [[[j|]|e|]|]; [| | | |lia].
  - exists (Some j). split; [|split_and!; [by eexists|done|by apply body_later]]. apply settled_later; [done|].
    destruct (maxDeliver <? n); [by eapply exhausted_settled|].
    apply runs_bind in H2 as (t3 & s & t4 & H3 & H4 & ->). apply slot_run in H3. rewrite waits_app in HW.
    destruct s as [[]|]; [|destruct H4 as [-> _]; by rewrite app_nil_r|lia].
    apply settled_later; [done|]. apply runs_bind in H4 as (t5 & [] & t6 & H5 & H6 & ->).
    apply settled_before; [by eapply run_job_settled|by eapply quiet_run; [apply release_quiet|]].
  - exists None. split; [apply settled_later; [done|by eapply unread_settled]|]. by eapply HN; [apply deadLetterJob_unread| |].
  - exists None. split; [apply settled_later; [done|by eapply unread_settled]|]. by eapply HN; [apply deadLetterJob_unread| |].
  - exists None. split; [apply settled_later; [done|eapply nak_settled; [by left|exact H2]]|]. eapply HN; [|exact H2|done]. by split.
Qed.
End Settled.
