(* ===== verification/Semaphore.v ===== *)
(** * The semaphore of a key ([worker/semaphore.go])

    Any number of workers take, renew and give back slots of one concurrency key,
    call by call, against a bucket whose reads may be stale, whose updates may
    be stored and still reported as failed, and whose values expire.  The value
    is only ever replaced by a compare-and-swap on its revision, so the values
    form a chain of updates and expirations, and the jobs that hold a slot whose
    lease has not ended are never more than the limit.

    A slot is held under the id of an attempt of a job.  A job that is delivered
    twice holds one slot, and the end of either delivery gives it back: a holder
    is counted while no release under its id was under way since it was granted.
    Clocks differ: every reading, of a worker or of the server, is within [skew]
    of the time. *)

From S2P Require Import Prelude Json Hash GoStrings Names Flow Event Cmd CmdCodec Reduce State View Wire Codec.
From S2P Require Import Server Sending EventLog Worker.

(** The age at which the bucket drops a value ([internal/infra/provision.go]). *)
Definition semMaxAge : Z := 24 * 3600 * Second.

Section Semaphore.
Context (key : string) (max skew : Z).

(** ** The system *)

(** What a worker does to the semaphore on behalf of a job, with its ack wait. *)
Inductive SlotTask :=
| TAcquire (ackWait : Z) (j : Job)
| TRenew (ackWait : Z) (j : Job)
| TRelease (j : Job).

Definition task_job (t : SlotTask) : Job := match t with TAcquire _ j | TRenew _ j | TRelease j => j end.

(** The limit of the jobs of the key. *)
Definition of_key (j : Job) : Prop := limited j = Some {| jc_Key := key; jc_Max := max |}.

(** The lease a task gives ends, on every clock, before the bucket drops the
    value that holds it. *)
Definition short_lease (t : SlotTask) : Prop :=
  match t with TAcquire aw _ | TRenew aw _ => lease aw + 2 * skew < semMaxAge | TRelease _ => True end.

Definition task_prog (t : SlotTask) : Prog bool :=
  match t with
  | TAcquire ackWait j => acquire ackWait j
  | TRenew ackWait j => renewSlot key (holder_of j) (lease ackWait)
  | TRelease j => let! _ := release j in Ret true
  end.

(** A revision of the key: what it holds and when it was stored.  A value that
    the bucket dropped is followed by a revision without one. *)
Record Revision := { rv_value : option Holders; rv_time : Z }.

(** A task, what is left of it, and how many revisions there were at its last
    step. *)
Record Running := { rn_task : SlotTask; rn_left : Prog bool; rn_seen : nat }.

(** The revisions of the key, from 1; the time; the tasks. *)
Record SemSystem := { ss_values : list Revision; ss_time : Z; ss_tasks : list Running }.

Definition revision (values : list Revision) (rev : nat) : option Revision :=
  match rev with O => None | S i => values !! i end.
Definition value_at (values : list Revision) (rev : nat) : Holders := default ∅ (revision values rev ≫= rv_value).

(** The revision that a writer names: 0 when there is no value. *)
Definition rev_number (values : list Revision) (rev : nat) : Z :=
  match revision values rev ≫= rv_value with Some _ => Z.of_nat rev | None => 0 end.

(** What a read may find: the value of any revision so far. *)
Definition found (values : list Revision) (rev : nat) : option (Holders * Z) :=
  (fun v => (v, Z.of_nat rev)) <$> (revision values rev ≫= rv_value).

(** The answers to a call at a time, with the revisions after it: an update
    that names the last revision may be stored and still fail, any other fails. *)
Definition answers (values : list Revision) (time : Z) (c : Call) : Answer c -> list Revision -> Prop :=
  match c with
  | Now => fun t values' => values' = values /\ Z.abs (t - time) <= skew
  | SemGet k => fun r values' => k = key /\ values' = values /\
      ((exists rev, (rev <= length values)%nat /\ r = Ok (found values rev)) \/ exists e, r = Err e)
  | SemPut k v rev => fun r values' => k = key /\
      (rev = rev_number values (length values) /\ values' = values ++ [{| rv_value := Some v; rv_time := time |}] \/
       values' = values /\ exists e, r = Err e)
  | _ => fun _ _ => False
  end.

(** The value of the last revision may be dropped: it is old on the server's
    clock. *)
Definition old (values : list Revision) (time : Z) : Prop :=
  exists r, last values = Some r /\ is_Some (rv_value r) /\ rv_time r + semMaxAge <= time + 2 * skew.

Inductive sem_step (s : SemSystem) : SemSystem -> Prop :=
| sem_start t :
    of_key (task_job t) -> short_lease t ->
    sem_step s {| ss_values := ss_values s; ss_time := ss_time s;
      ss_tasks := ss_tasks s ++ [{| rn_task := t; rn_left := task_prog t; rn_seen := length (ss_values s) |}] |}
| sem_call i t c k n r values :
    ss_tasks s !! i = Some {| rn_task := t; rn_left := Do c k; rn_seen := n |} ->
    answers (ss_values s) (ss_time s) c r values ->
    sem_step s {| ss_values := values; ss_time := ss_time s;
      ss_tasks := <[i := {| rn_task := t; rn_left := k r; rn_seen := length values |}]> (ss_tasks s) |}
| sem_expire :
    old (ss_values s) (ss_time s) ->
    sem_step s {| ss_values := ss_values s ++ [{| rv_value := None; rv_time := ss_time s |}]; ss_time := ss_time s;
      ss_tasks := ss_tasks s |}
| sem_tick time :
    ss_time s <= time -> sem_step s {| ss_values := ss_values s; ss_time := time; ss_tasks := ss_tasks s |}.

Definition sem_initial : SemSystem := {| ss_values := []; ss_time := 0; ss_tasks := [] |}.
Definition sem_reached (s : SemSystem) : Prop := rtc sem_step sem_initial s.

(** ** The updates of a value *)

(** What every worker may rely on at some moment; it only grows. *)
Record SemWorld := { sw_values : list Revision; sw_time : Z }.
Definition sem_world (s : SemSystem) : SemWorld := {| sw_values := ss_values s; sw_time := ss_time s |}.

Record sem_grown (w w' : SemWorld) : Prop := {
  grown_values : sw_values w `prefix_of` sw_values w';
  grown_time : sw_time w <= sw_time w' }.

#[local] Instance sem_grown_preorder : PreOrder sem_grown.
Proof. split; [intros w; split; done|]. intros w1 w2 w3 [H1 H2] [H3 H4]. split; [by etrans|lia]. Qed.

(** What a task may do to a value: take or renew a slot, or give back the slot
    of its job. *)
Inductive change (t : SlotTask) (w : SemWorld) (v : Holders) : Holders -> Prop :=
| change_take h lease now v' :
    now <= sw_time w + skew -> now + lease + skew < sw_time w + semMaxAge ->
    take_slot h max lease now v = Some v' -> change t w v v'
| change_renew h lease now v' :
    now + lease + skew < sw_time w + semMaxAge -> renew_slot h lease now v = Some v' -> change t w v v'
| change_release j : t = TRelease j -> change t w v (delete (holder_of j) v).

Lemma change_grown t w w' v v' : sem_grown w w' -> change t w v v' -> change t w' v v'.
Proof.
  intros [H1 H2] [h l now v'' Hn Hl Ht|h l now v'' Hl Hr|j Hj].
  - eapply change_take; [..|done]; lia.
  - eapply change_renew; [|done]; lia.
  - by apply change_release.
Qed.

Lemma revision_prefix l l' n : l `prefix_of` l' -> (n <= length l)%nat -> revision l' n = revision l n.
Proof. intros [k ->] Hn. destruct n as [|n]; [done|]. simpl. by rewrite lookup_app_l by lia. Qed.
Lemma value_at_prefix l l' n : l `prefix_of` l' -> (n <= length l)%nat -> value_at l' n = value_at l n.
Proof. intros Hl Hn. unfold value_at. by rewrite (revision_prefix l l'). Qed.
Lemma rev_number_prefix l l' n : l `prefix_of` l' -> (n <= length l)%nat -> rev_number l' n = rev_number l n.
Proof. intros Hl Hn. unfold rev_number. by rewrite (revision_prefix l l'). Qed.

(** Two revisions of one number have one value. *)
Lemma rev_number_value l m n : rev_number l m = rev_number l n -> value_at l m = value_at l n.
Proof.
  unfold rev_number, value_at. destruct (revision l m ≫= rv_value) eqn:Em, (revision l n ≫= rv_value) eqn:En; try done.
  - intros E%Nat2Z.inj. subst. congruence.
  - intros E. by destruct m.
  - intros E. by destruct n.
Qed.

(** ** Programs that update the value properly *)

(** [p] only stores updates that the task [t] may do to a value it read, and ends
    with [Q], whatever the others do meanwhile. *)
Fixpoint fits {A} (t : SlotTask) (Q : SemWorld -> A -> Prop) (w : SemWorld) (p : Prog A) : Prop :=
  match p with
  | Ret a => Q w a
  | Do c k =>
      match c with
      | SemPut k v rev => k = key /\ exists n, (n <= length (sw_values w))%nat /\ rev = rev_number (sw_values w) n /\
                            change t w (value_at (sw_values w) n) v
      | _ => True
      end /\
      forall w' r values, sem_grown w w' -> answers (sw_values w') (sw_time w') c r values ->
        fits t Q {| sw_values := values; sw_time := sw_time w' |} (k r)
  end.

Lemma fits_grown {A} t (Q : SemWorld -> A -> Prop) w w' p :
  (forall w w' a, sem_grown w w' -> Q w a -> Q w' a) -> sem_grown w w' -> fits t Q w p -> fits t Q w' p.
Proof.
  intros HQ HG. destruct p as [a|c k]; cbn; [by apply HQ|]. intros [Hs Hk]. split.
  - destruct c; try done. destruct Hs as (Hkey & n & Hn & Hr & Hc). split; [done|]. exists n.
    pose proof (prefix_length _ _ (grown_values _ _ HG)). split; [lia|].
    rewrite (value_at_prefix _ _ _ (grown_values _ _ HG) Hn), (rev_number_prefix _ _ _ (grown_values _ _ HG) Hn).
    split; [done|]. by eapply change_grown.
  - intros w'' r values HG'. apply Hk. by etrans.
Qed.

Lemma answers_grown w c r values :
  answers (sw_values w) (sw_time w) c r values -> sem_grown w {| sw_values := values; sw_time := sw_time w |}.
Proof.
  intros HA. destruct c; try done; cbn in HA.
  - by destruct HA as [-> _].
  - by destruct HA as (_ & -> & _).
  - destruct HA as (_ & [[_ ->]|[-> _]]); [|done]. split; [by apply prefix_app_r|done].
Qed.

Lemma fits_bind {A B} t (Q : SemWorld -> A -> Prop) (Q' : SemWorld -> B -> Prop) w p k :
  fits t Q w p -> (forall w' a, sem_grown w w' -> Q w' a -> fits t Q' w' (k a)) -> fits t Q' w (pbind p k).
Proof.
  revert w. induction p as [a|c k' IH]; intros w; cbn [pbind fits].
  - intros HQ HK. by apply HK.
  - intros [Hs Hk] HK. split; [done|]. intros w' r values HG HA. apply IH; [by apply Hk|].
    intros w'' a HG'. apply HK. etrans; [exact HG|]. etrans; [by eapply answers_grown|done].
Qed.

(** A value that was stored. *)
Definition stored (P : Holders -> Prop) (w : SemWorld) : Prop :=
  exists n, (n <= length (sw_values w))%nat /\ P (value_at (sw_values w) n).

Lemma stored_grown P w w' : sem_grown w w' -> stored P w -> stored P w'.
Proof.
  intros HG (n & Hn & HP). exists n. pose proof (prefix_length _ _ (grown_values _ _ HG)). split; [lia|].
  by rewrite (value_at_prefix _ _ _ (grown_values _ _ HG) Hn).
Qed.

Definition proper (t : SlotTask) (P : Holders -> Prop) (v : Holders) (w : SemWorld) (o : option Holders) : Prop :=
  match o with Some v' => change t w v v' /\ P v' | None => True end.

Lemma found_value l n : default (∅, 0) (found l n) = (value_at l n, rev_number l n).
Proof. unfold found, value_at, rev_number. by destruct (_ ≫= _). Qed.

Lemma cas_fits t P w0 w n fn :
  (forall w v, sem_grown w0 w -> fits t (proper t P v) w (fn v)) -> sem_grown w0 w ->
  fits t (fun w b => b = true -> stored P w) w (cas_rounds n key fn).
Proof.
  intros HF. revert w. induction n as [|n IH]; intros w HG0; cbn [cas_rounds]; [done|]. cbn [pbind call fits].
  split; [done|]. intros w1 r values HG1 (_ & -> & [(rev & Hrev & ->)|[e ->]]); [|done]. rewrite found_value.
  set (w2 := {| sw_values := sw_values w1; sw_time := _ |}). assert (sem_grown w0 w2) by (etrans; [exact HG0|by destruct w1]).
  eapply fits_bind; [by apply HF|].
  intros w3 [v'|] HG2 HP; [|done]. destruct HP as [HC HP].
  pose proof (prefix_length _ _ (grown_values _ _ HG2)) as HL. cbn [sw_values w2] in HL.
  cbn [pbind call fits]. split.
  - split; [done|]. exists rev. split; [lia|].
    rewrite (value_at_prefix _ _ _ (grown_values _ _ HG2) Hrev), (rev_number_prefix _ _ _ (grown_values _ _ HG2) Hrev). done.
  - intros w4 r values HG3 (_ & HA). destruct r as [u|e].
    2: { apply IH. etrans; [eassumption|]. etrans; [eassumption|]. etrans; [eassumption|].
         destruct HA as [[_ ->]|[-> _]]; split; cbn; try done. by apply prefix_app_r. }
    destruct HA as [[Hl ->]|[_ [e ?]]]; [|done]. intros _. exists (S (length (sw_values w4))). cbn.
    rewrite length_app. split; [simpl; lia|]. unfold value_at. cbn [revision]. by rewrite list_lookup_middle.
Qed.

Definition held (h : string) (v : Holders) : Prop := is_Some (v !! h).

Lemma take_held h lease now v v' : take_slot h max lease now v = Some v' -> held h v'.
Proof. unfold take_slot. destruct (_ && _); [done|]. intros [= <-]. exists (now + lease). apply lookup_insert_eq. Qed.

(** What a task that ended has achieved. *)
Definition achieved (t : SlotTask) (w : SemWorld) (b : bool) : Prop :=
  match t with TAcquire _ j => b = true -> stored (held (holder_of j)) w | _ => True end.

Lemma achieved_grown t w w' b : sem_grown w w' -> achieved t w b -> achieved t w' b.
Proof. intros HG. destruct t; try done. cbn. intros HA Hb. by eapply stored_grown, HA. Qed.

Lemma fits_weaken {A} t (Q Q' : SemWorld -> A -> Prop) w p :
  fits t Q w p -> (forall w a, Q w a -> Q' w a) -> fits t Q' w p.
Proof. revert w. induction p as [a|c k IH]; intros w; cbn [fits]; [auto|]. intros [Hs Hk] HQ. split; [done|]. auto. Qed.

Lemma task_fits t w : of_key (task_job t) -> short_lease t -> fits t (achieved t) w (task_prog t).
Proof.
  intros HK HL. destruct t as [aw j|aw j|j]; cbn [task_prog task_job short_lease] in *.
  - unfold acquire. rewrite HK. apply (cas_fits _ _ w); [|done]. intros w' v _. cbn. split; [done|].
    intros w'' now values HG [-> Hnow]. unfold proper. destruct (take_slot _ _ _ _ _) as [v'|] eqn:ET; [|done].
    split; [|by eapply take_held]. eapply change_take; [..|exact ET]; cbn; lia.
  - eapply fits_weaken; [apply (cas_fits _ (fun _ => True) w); [|done]|done]. intros w' v _. case_bool_decide; [done|].
    cbn. split; [done|]. intros w'' now values HG [-> Hnow]. unfold proper.
    destruct (renew_slot _ _ _ _) as [v'|] eqn:ET; [|done]. split; [|done]. eapply change_renew; [|exact ET]. cbn. lia.
  - unfold release. rewrite HK. eapply (fits_bind _ (fun _ _ => True)); [|done].
    eapply (fits_bind _ (fun _ _ => True)); [|done]. eapply fits_weaken; [apply (cas_fits _ (fun _ => True) w); [|done]|done].
    intros w' v HG. split; [|done]. by apply change_release.
Qed.

(** ** The chain of values *)

(** The value of a revision follows from the one before: by a task that was still
    running when it was stored, or because the bucket dropped it. *)
Inductive linked (s : SemSystem) (n : nat) : Prop :=
| linked_change x :
    x ∈ ss_tasks s -> (n < rn_seen x)%nat ->
    change (rn_task x) (sem_world s) (value_at (ss_values s) n) (value_at (ss_values s) (S n)) -> linked s n
| linked_drop r :
    revision (ss_values s) n = Some r -> rv_time r + semMaxAge <= ss_time s + 2 * skew ->
    value_at (ss_values s) (S n) = ∅ -> linked s n.

(** A lease ends before the bucket drops its value. *)
Definition timely (r : Revision) : Prop :=
  forall v h e, rv_value r = Some v -> v !! h = Some e -> e + skew < rv_time r + semMaxAge.

(** What is left of every task fits. *)
Definition tasks_fit (w : SemWorld) : list Running -> Prop :=
  Forall (fun x => fits (rn_task x) (achieved (rn_task x)) w (rn_left x) /\ (rn_seen x <= length (sw_values w))%nat).

Record sem_inv (s : SemSystem) : Prop := {
  inv_chain : forall n, (n < length (ss_values s))%nat -> linked s n;
  inv_times : Forall (fun r => rv_time r <= ss_time s) (ss_values s);
  inv_timely : Forall timely (ss_values s);
  inv_tasks : tasks_fit (sem_world s) (ss_tasks s) }.

(** What a step keeps: the revisions, and every task, which has seen as much. *)
Record sem_later (s s' : SemSystem) : Prop := {
  later_world : sem_grown (sem_world s) (sem_world s');
  later_tasks : forall x, x ∈ ss_tasks s ->
    exists x', x' ∈ ss_tasks s' /\ rn_task x' = rn_task x /\ (rn_seen x <= rn_seen x')%nat }.

Lemma linked_later s s' n : sem_later s s' -> (n < length (ss_values s))%nat -> linked s n -> linked s' n.
Proof.
  intros [HG HT] Hn. pose proof (grown_values _ _ HG) as HP. cbn in HP.
  intros [x Hx Hs HC|r Hr Ho Hv].
  - destruct (HT x Hx) as (x' & Hx' & Ht & Hs'). eapply (linked_change _ _ x'); [done|lia|].
    rewrite Ht, !(value_at_prefix _ _ _ HP) by lia. by eapply change_grown.
  - eapply (linked_drop _ _ r).
    + rewrite (revision_prefix _ _ _ HP) by lia. done.
    + pose proof (grown_time _ _ HG) as HX. cbn in HX. lia.
    + by rewrite (value_at_prefix _ _ _ HP) by lia.
Qed.

Lemma tasks_later s s' : sem_later s s' -> tasks_fit (sem_world s) (ss_tasks s) -> tasks_fit (sem_world s') (ss_tasks s).
Proof.
  intros [HG _] HF. eapply Forall_impl; [exact HF|]. intros x [Hx Hn]. split.
  - eapply fits_grown; [intros; by eapply achieved_grown|exact HG|done].
  - pose proof (prefix_length _ _ (grown_values _ _ HG)). lia.
Qed.

Lemma times_later (l : list Revision) t t' : t <= t' -> Forall (fun r => rv_time r <= t) l -> Forall (fun r => rv_time r <= t') l.
Proof. intros Ht HF. eapply Forall_impl; [exact HF|]. cbn. lia. Qed.

Lemma step_later s s' : sem_inv s -> sem_step s s' -> sem_later s s'.
Proof.
  intros HI [t HK HL|i t c k n r values Ht HA|Ho|time Htime].
  - split; [done|]. intros x Hx. exists x. split; [apply elem_of_app; by left|]. done.
  - pose proof (answers_grown (sem_world s) _ _ _ HA) as HG. split; [exact HG|]. cbn [ss_tasks]. intros x Hx.
    apply list_elem_of_lookup in Hx as [m Hm]. destruct (decide (m = i)) as [->|Hne].
    + rewrite Ht in Hm. injection Hm as <-. eexists. split; [|split].
      * apply list_elem_of_lookup. exists i. apply list_lookup_insert_eq. by eapply lookup_lt_Some.
      * done.
      * cbn. pose proof (Forall_lookup_1 _ _ _ _ (inv_tasks _ HI) Ht) as [_ Hseen]. cbn in Hseen.
        pose proof (prefix_length _ _ (grown_values _ _ HG)) as HL. cbn in HL. lia.
    + exists x. split; [|done]. apply list_elem_of_lookup. exists m. by rewrite list_lookup_insert_ne.
  - split; [split; [by apply prefix_app_r|done]|]. intros x Hx. by exists x.
  - split; [split; done|]. intros x Hx. by exists x.
Qed.

Lemma last_value l r : value_at (l ++ [r]) (S (length l)) = default ∅ (rv_value r).
Proof. unfold value_at. cbn [revision]. by rewrite list_lookup_middle. Qed.

Lemma change_timely t w v v' time :
  change t w v v' -> sw_time w <= time -> (forall h e, v !! h = Some e -> e + skew < time + semMaxAge) ->
  forall h e, v' !! h = Some e -> e + skew < time + semMaxAge.
Proof.
  intros HC Ht HV h e. destruct HC as [h' l now v'' Hn Hl HT|h' l now v'' Hl HR|j Hj].
  - unfold take_slot, Holders in *. destruct (_ && _); [done|]. injection HT as <-. destruct (decide (h' = h)) as [->|].
    + rewrite lookup_insert_eq. intros [= <-]. lia.
    + rewrite lookup_insert_ne by done. unfold unexpired. rewrite map_lookup_filter_Some. intros [He _]. by eapply HV.
  - unfold renew_slot, Holders in *. case_bool_decide; [done|]. injection HR as <-. destruct (decide (h' = h)) as [->|].
    + rewrite lookup_insert_eq. intros [= <-]. lia.
    + rewrite lookup_insert_ne by done. by apply HV.
  - intros [_ He]%lookup_delete_Some. by eapply HV.
Qed.

Lemma value_timely s n h e :
  sem_inv s -> (n <= length (ss_values s))%nat -> value_at (ss_values s) n !! h = Some e -> e + skew < ss_time s + semMaxAge.
Proof.
  intros HI Hn. unfold value_at. destruct (revision (ss_values s) n) as [r|] eqn:Er; cbn; [|done].
  destruct n as [|n]; [done|]. cbn in Er. destruct (rv_value r) as [v|] eqn:Ev; cbn; [|done]. intros He.
  pose proof (Forall_lookup_1 _ _ _ _ (inv_timely _ HI) Er _ _ _ Ev He). pose proof (Forall_lookup_1 _ _ _ _ (inv_times _ HI) Er).
  cbn in *. lia.
Qed.

(** A step that stores nothing, and one that stores a revision. *)
Lemma inv_same s s' :
  sem_inv s -> sem_later s s' -> ss_values s' = ss_values s -> tasks_fit (sem_world s') (ss_tasks s') -> sem_inv s'.
Proof.
  intros HI HL HV HT. split; [| | |exact HT]; rewrite ?HV.
  - intros n Hn. eapply linked_later; [exact HL|done|]. by apply (inv_chain _ HI).
  - eapply times_later; [|apply HI]. exact (grown_time _ _ (later_world _ _ HL)).
  - apply HI.
Qed.

Lemma inv_snoc s s' r :
  sem_inv s -> sem_later s s' -> ss_values s' = ss_values s ++ [r] -> linked s' (length (ss_values s)) ->
  rv_time r <= ss_time s' -> timely r -> tasks_fit (sem_world s') (ss_tasks s') -> sem_inv s'.
Proof.
  intros HI HL HV Hlast Ht Hr HT. split; [| | |exact HT]; rewrite ?HV.
  - intros n Hn. rewrite length_app in Hn. cbn in Hn.
    destruct (decide (n = length (ss_values s))) as [->|]; [done|]. eapply linked_later; [done|lia|]. apply (inv_chain _ HI). lia.
  - apply Forall_app. split; [|by apply Forall_singleton].
    eapply times_later; [|apply HI]. exact (grown_time _ _ (later_world _ _ HL)).
  - apply Forall_app. split; [apply HI|]. by apply Forall_singleton.
Qed.

(** What a call stores. *)
Lemma call_stores t w {A} (Q : SemWorld -> A -> Prop) c k (r : Answer c) values :
  fits t Q w (Do c k) -> answers (sw_values w) (sw_time w) c r values ->
  values = sw_values w \/ exists v, values = sw_values w ++ [{| rv_value := Some v; rv_time := sw_time w |}] /\
    change t w (value_at (sw_values w) (length (sw_values w))) v.
Proof.
  intros [Hs _] HA. destruct c; try done; cbn in HA.
  - destruct HA as [-> _]. by left.
  - destruct HA as (_ & -> & _). by left.
  - destruct HA as (_ & [[Hr ->]|[-> _]]); [|by left]. right. destruct Hs as (_ & m & Hm & Hrev & Hch).
    exists v. split; [done|]. rewrite <- (rev_number_value _ m) by congruence. done.
Qed.

Lemma call_inv s i t c k n r values :
  let s' := {| ss_values := values; ss_time := ss_time s;
               ss_tasks := <[i := {| rn_task := t; rn_left := k r; rn_seen := length values |}]> (ss_tasks s) |} in
  sem_later s s' -> ss_tasks s !! i = Some {| rn_task := t; rn_left := Do c k; rn_seen := n |} ->
  answers (ss_values s) (ss_time s) c r values -> sem_inv s -> sem_inv s'.
Proof.
  intros s' HL Ht HA HI. pose proof (Forall_lookup_1 _ _ _ _ (inv_tasks _ HI) Ht) as [HF _]. cbn [rn_task rn_left] in HF.
  assert (HT : tasks_fit (sem_world s') (ss_tasks s')).
  { apply Forall_insert; [exact (tasks_later _ _ HL (inv_tasks _ HI))|]. split; [|done]. by apply (proj2 HF (sem_world s)). }
  destruct (call_stores _ _ _ _ _ _ _ HF HA) as [HV|(v & HV & HC)]; [by eapply inv_same|].
  eapply inv_snoc; [done|exact HL|exact HV| |done| |done].
  - eapply linked_change; cbn [ss_tasks ss_values s'].
    + apply list_elem_of_lookup. exists i. apply list_lookup_insert_eq. by eapply lookup_lt_Some.
    + cbn. rewrite HV, length_app. cbn. lia.
    + cbn [rn_task]. rewrite HV. cbn [sw_values sem_world] in *.
      rewrite last_value, (value_at_prefix (ss_values s)) by (done || by apply prefix_app_r).
      eapply change_grown; [exact (later_world _ _ HL)|exact HC].
  - intros v' h e [= <-]. eapply change_timely; [exact HC|done|]. intros h' e'. by apply value_timely.
Qed.

Lemma expire_inv s :
  let s' := {| ss_values := ss_values s ++ [{| rv_value := None; rv_time := ss_time s |}]; ss_time := ss_time s;
               ss_tasks := ss_tasks s |} in
  sem_later s s' -> old (ss_values s) (ss_time s) -> sem_inv s -> sem_inv s'.
Proof.
  intros s' HL (r & Hlast & Hr & Hold) HI.
  eapply inv_snoc; [done|exact HL|done| |done|done|exact (tasks_later _ _ HL (inv_tasks _ HI))].
  eapply (linked_drop _ _ r); cbn [ss_values ss_time s']; [|done|by rewrite last_value].
  rewrite (revision_prefix (ss_values s)) by (done || by apply prefix_app_r). rewrite last_lookup in Hlast.
  destruct (length (ss_values s)) as [|m] eqn:El; [|done]. by apply nil_length_inv in El as E; rewrite E in Hlast.
Qed.

Lemma sem_step_inv s s' : sem_step s s' -> sem_inv s -> sem_inv s'.
Proof.
  intros HS HI. pose proof (step_later _ _ HI HS) as HL. destruct HS as [t HK Hlease|i t c k n r values Ht HA|Ho|time Htime].
  - eapply inv_same; [done|exact HL|done|]. apply Forall_app. split; [exact (tasks_later _ _ HL (inv_tasks _ HI))|].
    apply Forall_singleton. split; [|done]. by apply task_fits.
  - by eapply call_inv.
  - by apply expire_inv.
  - eapply inv_same; [done|exact HL|done|]. exact (tasks_later _ _ HL (inv_tasks _ HI)).
Qed.

Lemma reached_inv s : sem_reached s -> sem_inv s.
Proof.
  intros HR. apply (rtc_ind_r (R := sem_step) sem_inv sem_initial); [|intros; by eapply sem_step_inv|exact HR].
  split; try constructor. intros n Hn; simpl in Hn; lia.
Qed.

(** ** Slots *)

Lemma unexpired_lookup now v h e : unexpired now v !! h = Some e <-> v !! h = Some e /\ now <= e.
Proof. unfold unexpired, Holders. rewrite map_lookup_filter_Some. simpl. intuition lia. Qed.

Lemma unexpired_size now v : (size (unexpired now v) <= size v)%nat.
Proof. apply map_size_filter. Qed.

(** An update keeps within the limit. *)
Lemma change_size t w v v' : 0 < max -> change t w v v' -> Z.of_nat (size v) <= max -> Z.of_nat (size v') <= max.
Proof.
  intros Hm [h l now v'' Hn Hl Ht|h l now v'' Hl Hr|j Hj] HV.
  - unfold take_slot in Ht. pose proof (unexpired_size now v). set (u := unexpired now v) in *. unfold Holders in *.
    case_bool_decide as Hh; cbn [andb] in Ht.
    + destruct (max <=? Z.of_nat (size u)) eqn:El; [done|]. injection Ht as <-. rewrite map_size_insert_None by done. lia.
    + injection Ht as <-. destruct (u !! h) as [e|] eqn:Eh; [|done]. rewrite map_size_insert_Some by (by eexists). lia.
  - unfold renew_slot, Holders in *. case_bool_decide as Hh; [done|]. injection Hr as <-.
    destruct (v !! h) as [e|] eqn:Eh; [|done]. by rewrite map_size_insert_Some by (by eexists).
  - unfold Holders in *. rewrite map_size_delete. destruct (v !! holder_of j); simpl; lia.
Qed.

(** An update loses a slot only when it gives it back, or when some clock is past
    its lease. *)
Lemma change_keeps t w v v' h e :
  change t w v v' -> v !! h = Some e -> sw_time w + skew <= e -> (forall j, t = TRelease j -> holder_of j <> h) -> held h v'.
Proof.
  intros [h' l now v'' Hn Hl Ht|h' l now v'' Hl Hr|j Hj] Hv He Hnr; unfold held.
  - unfold take_slot, Holders in *. destruct (_ && _); [done|]. injection Ht as <-. destruct (decide (h' = h)) as [->|];
      [rewrite lookup_insert_eq; by eexists|]. rewrite lookup_insert_ne by done. exists e. apply unexpired_lookup. split; [done|lia].
  - unfold renew_slot, Holders in *. case_bool_decide; [done|]. injection Hr as <-. destruct (decide (h' = h)) as [->|];
      [rewrite lookup_insert_eq; by eexists|]. rewrite lookup_insert_ne by done. by exists e.
  - unfold Holders in *. rewrite lookup_delete_ne by (by apply Hnr). by exists e.
Qed.

(** [h] was granted a slot at a revision, every release under its id had ended
    before, and no clock is past a lease it was given since. *)
Definition holds (s : SemSystem) (h : string) : Prop :=
  exists n, (n <= length (ss_values s))%nat /\ held h (value_at (ss_values s) n) /\
    (forall n' e, (n <= n' <= length (ss_values s))%nat -> value_at (ss_values s) n' !! h = Some e -> ss_time s + skew <= e) /\
    (forall x j, x ∈ ss_tasks s -> rn_task x = TRelease j -> holder_of j = h ->
       (exists b, rn_left x = Ret b) /\ (rn_seen x <= n)%nat).

Lemma linked_keeps s n h e :
  sem_inv s -> (n < length (ss_values s))%nat -> value_at (ss_values s) n !! h = Some e -> ss_time s + skew <= e ->
  (forall x j, x ∈ ss_tasks s -> rn_task x = TRelease j -> holder_of j = h -> (rn_seen x <= n)%nat) ->
  held h (value_at (ss_values s) (S n)).
Proof.
  intros HI Hn Hv He HR. destruct (inv_chain _ HI n Hn) as [x Hx Hs HC|r Hr Hold _].
  - eapply change_keeps; [exact HC|exact Hv|exact He|]. intros j Hj Hh. specialize (HR x j Hx Hj Hh). lia.
  - exfalso. unfold value_at in Hv. rewrite Hr in Hv. cbn in Hv. destruct n as [|n]; [done|]. cbn in Hr.
    destruct (rv_value r) as [v|] eqn:Ev; [|done]. cbn in Hv.
    pose proof (Forall_lookup_1 _ _ _ _ (inv_timely _ HI) Hr _ _ _ Ev Hv). lia.
Qed.

Lemma holds_now s h : sem_inv s -> holds s h -> held h (value_at (ss_values s) (length (ss_values s))).
Proof.
  intros HI (n & Hn & Hh & HE & HR).
  assert (HX : forall d, (n + d <= length (ss_values s))%nat -> held h (value_at (ss_values s) (n + d))).
  { induction d as [|d IH]; intros Hd; [by rewrite Nat.add_0_r|]. destruct IH as [e He]; [lia|]. rewrite Nat.add_succ_r.
    eapply linked_keeps; [done|lia|exact He| |].
    - apply (HE (n + d)%nat); [lia|done].
    - intros x j Hx Hj Hxh. destruct (HR x j Hx Hj Hxh) as [_ Hs]. lia. }
  specialize (HX (length (ss_values s) - n)%nat). replace (n + (length (ss_values s) - n))%nat with (length (ss_values s)) in HX by lia.
  by apply HX.
Qed.

Lemma sizes_bounded s n : 0 < max -> sem_inv s -> (n <= length (ss_values s))%nat -> Z.of_nat (size (value_at (ss_values s) n)) <= max.
Proof.
  intros Hm HI. induction n as [|n IH]; intros Hn; [cbn; unfold Holders; rewrite map_size_empty; lia|].
  destruct (inv_chain _ HI n ltac:(lia)) as [x Hx Hs HC|r Hr Hold Hv].
  - eapply change_size; [done|exact HC|apply IH; lia].
  - rewrite Hv. unfold Holders. rewrite map_size_empty. lia.
Qed.

(** C19. However many workers compete for the slots of a concurrency key,
    in whatever order their calls reach the server, with stale reads, updates that
    are stored but reported as failed, and values that the bucket drops after a
    day: no stored value has more holders than the limit; a job that was granted a
    slot is in a stored value; and the holders of a slot are never more than the
    limit.  A holder counts from its grant, as long as no clock is past its lease
    and no release under its id was still running at the grant or started since:
    the second delivery of a job shares the slot of the first, and loses it when
    the first gives it back.  The leases, three ack waits, are shorter than the
    bucket's day. *)
Theorem slots_bounded s :
  0 < max -> sem_reached s ->
  (forall n, (n <= length (ss_values s))%nat -> Z.of_nat (size (value_at (ss_values s) n)) <= max) /\
  (forall aw j n, {| rn_task := TAcquire aw j; rn_left := Ret true; rn_seen := n |} ∈ ss_tasks s ->
     stored (held (holder_of j)) (sem_world s)) /\
  (forall hs : gset string, (forall h, h ∈ hs -> holds s h) -> Z.of_nat (size hs) <= max).
Proof.
  intros Hm HI%reached_inv. split; [intros n Hn; by apply sizes_bounded|]. split.
  - intros aw j n Hin. apply inv_tasks in HI. unfold tasks_fit in HI; rewrite Forall_forall in HI. by apply (HI _ Hin).
  - intros hs HH. set (v := value_at (ss_values s) (length (ss_values s))).
    pose proof (sizes_bounded s _ Hm HI (Nat.le_refl _)) as HS. fold v in HS. unfold Holders in v.
    enough (hs ⊆ dom v) as HD by (apply subseteq_size in HD; unfold Holders in *; rewrite size_dom in HD; lia).
    intros h Hh. apply elem_of_dom. by apply holds_now, HH.
Qed.
End Semaphore.
