(* ===== verification/Runner.v ===== *)
(** * The runner of a consumer ([internal/consume/consume.go])

    One loop asks the server for as many messages as there are free slots, a
    goroutine handles each message and gives its slot back, and a shutdown stops
    the loop and waits for what is in flight.  Every step between two
    synchronisations (the mutex, the channel of slots, the wait group) is one
    action; any interleaving of the loop, the handlers and the shutdown is a list
    of actions. *)

From S2P Require Import Prelude Json Hash GoStrings Names Flow Event Cmd CmdCodec Reduce State View Wire Codec Server Sending EventLog Worker.

(** ** Configuration *)

Definition DefaultDrain : Z := 30 * Second.
Definition DefaultPullExpiry : Z := 5 * Second.
Definition ConsumeAckWait : Z := 5 * Second.
Definition minHeartbeat : Z := 100 * Millisecond.
Definition pinnedTTL : Z := 2 * Second.

(** The defaults [Run] fills in: the drain budget, the ack wait and the life of a
    pull request. *)
Record RunConfig := { rc_Drain : Z; rc_AckWait : Z; rc_PullExpiry : Z; rc_Concurrency : Z }.
Definition run_defaults (c : RunConfig) : RunConfig := {|
  rc_Drain := if rc_Drain c <=? 0 then DefaultDrain else rc_Drain c;
  rc_AckWait := if rc_AckWait c <=? 0 then ConsumeAckWait else rc_AckWait c;
  rc_PullExpiry := if rc_PullExpiry c <=? 0 then DefaultPullExpiry else rc_PullExpiry c;
  rc_Concurrency := rc_Concurrency c |}.

(** The interval of heartbeats, from the ack wait the consumer really has. *)
Definition heartbeat (c : RunConfig) (effective : Z) : Z :=
  let ackWait := if effective <=? 0 then rc_AckWait (run_defaults c) else effective in
  Z.max (Z.quot ackWait 3) minHeartbeat.

(** ** State *)

(** A list without the first occurrence of an element. *)
Fixpoint take_out (m : Z) (l : list Z) : option (list Z) :=
  match l with
  | [] => None
  | x :: l => if x =? m then Some l else (x ::.) <$> take_out m l
  end.

Lemma take_out_perm m l l' : take_out m l = Some l' -> l ≡ₚ m :: l'.
Proof.
  revert l'. induction l as [|x l IH]; intros l'; cbn; [done|]. destruct (Z.eqb_spec x m) as [->|]; [by intros [= ->]|].
  intros (l1 & HT & ->)%fmap_Some. rewrite (IH _ HT). apply Permutation_swap.
Qed.

Lemma take_out_in m l : m ∈ l -> exists l', take_out m l = Some l'.
Proof.
  induction l as [|x l IH]; [by intros ?%not_elem_of_nil|]. intros Hin. cbn. destruct (Z.eqb_spec x m) as [->|Hne]; [by eexists|].
  apply elem_of_cons in Hin as [->|Hin]; [done|]. destruct (IH Hin) as [l' ->]. by eexists.
Qed.

(** Where the goroutine that pulls is: [fetchLoop] and [fetchBatch] with the slots
    it took and the messages it got, [consumeSerial], or the end of [Run]. *)
Inductive Phase :=
| PAcquire
| PGrow (want : Z)
| PFetch (want : Z)
| PBatch (want got : Z)
| PGiveBack (n : Z)
| PConsume
| PDrain
| PEnded.

(** How a message left the process: the handler returned, it panicked and the
    message was given back, or it came too late and was given back. *)
Inductive Left_ := Handled_ | Panicked | TooLate.

(** [runner]: a message is named by a number; [rn_ending] are the handlers that
    returned and still hold their slot. *)
Record Runner := {
  rn_Phase : Phase; rn_Sem : Z; rn_Inflight : Z; rn_Stopping : bool; rn_Done : bool; rn_Cancelled : bool;
  rn_Running : list Z; rn_Ending : list Z; rn_Left : list (Z * Left_) }.

Definition at_ (p : Phase) (r : Runner) : Runner := {|
  rn_Phase := p; rn_Sem := rn_Sem r; rn_Inflight := rn_Inflight r; rn_Stopping := rn_Stopping r; rn_Done := rn_Done r;
  rn_Cancelled := rn_Cancelled r; rn_Running := rn_Running r; rn_Ending := rn_Ending r; rn_Left := rn_Left r |}.
Definition slots (d : Z) (r : Runner) : Runner := {|
  rn_Phase := rn_Phase r; rn_Sem := rn_Sem r + d; rn_Inflight := rn_Inflight r; rn_Stopping := rn_Stopping r; rn_Done := rn_Done r;
  rn_Cancelled := rn_Cancelled r; rn_Running := rn_Running r; rn_Ending := rn_Ending r; rn_Left := rn_Left r |}.

(** A message is handed to its handler, or given back. *)
Definition begin (m : Z) (r : Runner) : Runner := {|
  rn_Phase := rn_Phase r; rn_Sem := rn_Sem r; rn_Inflight := rn_Inflight r + 1; rn_Stopping := rn_Stopping r; rn_Done := rn_Done r;
  rn_Cancelled := rn_Cancelled r; rn_Running := m :: rn_Running r; rn_Ending := rn_Ending r; rn_Left := rn_Left r |}.
Definition leave (m : Z) (how : Left_) (r : Runner) : Runner := {|
  rn_Phase := rn_Phase r; rn_Sem := rn_Sem r; rn_Inflight := rn_Inflight r; rn_Stopping := rn_Stopping r; rn_Done := rn_Done r;
  rn_Cancelled := rn_Cancelled r; rn_Running := rn_Running r; rn_Ending := rn_Ending r; rn_Left := (m, how) :: rn_Left r |}.

(** [fence], and the end of the context. *)
Definition fence (r : Runner) : Runner := {|
  rn_Phase := rn_Phase r; rn_Sem := rn_Sem r; rn_Inflight := rn_Inflight r; rn_Stopping := true; rn_Done := rn_Done r;
  rn_Cancelled := rn_Cancelled r; rn_Running := rn_Running r; rn_Ending := rn_Ending r; rn_Left := rn_Left r |}.
Definition ctx_done (r : Runner) : Runner := {|
  rn_Phase := rn_Phase r; rn_Sem := rn_Sem r; rn_Inflight := rn_Inflight r; rn_Stopping := rn_Stopping r; rn_Done := true;
  rn_Cancelled := rn_Cancelled r; rn_Running := rn_Running r; rn_Ending := rn_Ending r; rn_Left := rn_Left r |}.
Definition proc_cancel (r : Runner) : Runner := {|
  rn_Phase := rn_Phase r; rn_Sem := rn_Sem r; rn_Inflight := rn_Inflight r; rn_Stopping := rn_Stopping r; rn_Done := rn_Done r;
  rn_Cancelled := true; rn_Running := rn_Running r; rn_Ending := rn_Ending r; rn_Left := rn_Left r |}.

Section Runner.
(** [Concurrency]: at most one means strictly serial. *)
Context (conc : Z).

Definition serial : bool := conc <=? 1.

Definition start_runner : Runner := {|
  rn_Phase := if serial then PConsume else PAcquire; rn_Sem := 0; rn_Inflight := 0; rn_Stopping := false; rn_Done := false;
  rn_Cancelled := false; rn_Running := []; rn_Ending := []; rn_Left := [] |}.

(** The handler of [m] returned (or panicked): [handle]'s deferred calls. *)
Definition returns (m : Z) (how : Left_) (r : Runner) : option Runner :=
  running ← take_out m (rn_Running r);
  Some {| rn_Phase := rn_Phase r; rn_Sem := rn_Sem r; rn_Inflight := rn_Inflight r - 1; rn_Stopping := rn_Stopping r; rn_Done := rn_Done r;
     rn_Cancelled := rn_Cancelled r; rn_Running := running; rn_Ending := if serial then rn_Ending r else m :: rn_Ending r;
     rn_Left := (m, how) :: rn_Left r |}.

(** The goroutine of [m] gives its slot back. *)
Definition gives_back (m : Z) (r : Runner) : option Runner :=
  ending ← take_out m (rn_Ending r);
  if rn_Sem r <=? 0 then None
  else Some {| rn_Phase := rn_Phase r; rn_Sem := rn_Sem r - 1; rn_Inflight := rn_Inflight r; rn_Stopping := rn_Stopping r; rn_Done := rn_Done r;
     rn_Cancelled := rn_Cancelled r; rn_Running := rn_Running r; rn_Ending := ending; rn_Left := rn_Left r |}.

Inductive Action :=
| CtxDone                        (* the caller ends the context *)
| Take                           (* a slot for the next message *)
| StopPulling                    (* the loop sees the end of the context *)
| Grow                           (* another slot, if one is free *)
| Fetch (ok : bool)              (* [cons.Fetch] *)
| Next (m : Z)                   (* a message of the batch *)
| BatchEnd
| GiveBack                       (* a slot no message took *)
| Deliver (m : Z)                (* a message of [cons.Consume] *)
| Return (m : Z) (how : bool)    (* a handler returns ([false]: panics) *)
| Release (m : Z)                (* its goroutine gives the slot back *)
| DrainOver                      (* the drain budget is used up *)
| Drained.                       (* no handler is left *)

(** What an action does; [None] if the goroutine that would take it is elsewhere
    or blocked.  A fetch yields at most as many messages as were asked for, and
    [Consume] calls its handler for one message at a time. *)
Definition action (r : Runner) (a : Action) : option Runner :=
  match a, rn_Phase r with
  | CtxDone, _ => Some (ctx_done r)
  | Take, PAcquire => if rn_Sem r <? conc then Some (at_ (PGrow 1) (slots 1 r)) else None
  | StopPulling, (PAcquire | PConsume) => if rn_Done r then Some (at_ PDrain (fence r)) else None
  | Grow, PGrow want =>
      Some (if (want <? conc) && (rn_Sem r <? conc) then at_ (PGrow (want + 1)) (slots 1 r) else at_ (PFetch want) r)
  | Fetch ok, PFetch want => Some (at_ (if ok then PBatch want 0 else PGiveBack want) r)
  | Next m, PBatch want got =>
      if want <=? got then None
      else if rn_Stopping r then Some (at_ (PBatch want (got + 1)) (slots (-1) (leave m TooLate r)))
      else Some (at_ (PBatch want (got + 1)) (begin m r))
  | BatchEnd, PBatch want got => Some (at_ (PGiveBack (want - got)) r)
  | GiveBack, PGiveBack n =>
      if n <=? 0 then Some (at_ PAcquire r)
      else if rn_Sem r <=? 0 then None
      else Some (at_ (PGiveBack (n - 1)) (slots (-1) r))
  | Deliver m, (PConsume | PDrain | PEnded) =>
      if negb serial || negb (length (rn_Running r) =? 0)%nat then None
      else Some (if rn_Stopping r then leave m TooLate r else begin m r)
  | Return m ok, _ => returns m (if ok then Handled_ else Panicked) r
  | Release m, _ => gives_back m r
  | DrainOver, PDrain => Some (proc_cancel r)
  | Drained, PDrain => if rn_Inflight r =? 0 then Some (at_ PEnded r) else None
  | _, _ => None
  end.

Fixpoint actions (r : Runner) (acts : list Action) : option Runner :=
  match acts with
  | [] => Some r
  | a :: acts => r' ← action r a; actions r' acts
  end.

(** The messages the process received. *)
Definition received (a : Action) : list Z := match a with Next m | Deliver m => [m] | _ => [] end.

(** ** Invariant *)

(** The slots the loop itself holds. *)
Definition phase_slots (p : Phase) : Z :=
  match p with PGrow want | PFetch want => want | PBatch want got => want - got | PGiveBack n => n | _ => 0 end.

Definition phase_ok (p : Phase) : Prop :=
  match p with
  | PGrow want | PFetch want => 1 <= want <= conc
  | PBatch want got => 0 <= got <= want
  | PGiveBack n => 0 <= n
  | PConsume => serial = true
  | _ => True
  end.

Record RunnerInv (ms : list Z) (r : Runner) : Prop := {
  ri_phase : phase_ok (rn_Phase r);
  ri_slots : rn_Sem r = if serial then 0 else Z.of_nat (length (rn_Running r)) + Z.of_nat (length (rn_Ending r)) + phase_slots (rn_Phase r);
  ri_bound : rn_Sem r <= Z.max conc 0;
  ri_serial : serial = true -> rn_Ending r = [] /\ (length (rn_Running r) <= 1)%nat /\
    match rn_Phase r with PConsume | PDrain | PEnded => True | _ => False end;
  ri_inflight : rn_Inflight r = Z.of_nat (length (rn_Running r));
  ri_stopping : rn_Stopping r = match rn_Phase r with PDrain | PEnded => true | _ => false end;
  ri_ended : rn_Phase r = PEnded -> rn_Running r = [];
  ri_messages : ms ≡ₚ rn_Running r ++ (fst <$> rn_Left r) }.

Lemma runner_start : RunnerInv [] start_runner.
Proof. unfold start_runner. constructor; cbn; destruct serial eqn:E; cbn; intros; try done; try lia; auto. Qed.

(** The cases of an action that is possible. *)
Ltac action_cases HA :=
  repeat match type of HA with context [if ?b then _ else _] => destruct b eqn:? end; try discriminate HA;
  injection HA as <-.

Lemma returns_inv ms r m how r' : RunnerInv ms r -> returns m how r = Some r' -> RunnerInv ms r'.
Proof.
  intros [Hp Hs Hb Hser Hi Hst He Hm] HA. apply bind_Some in HA as (l & HT%take_out_perm & [= <-]).
  pose proof (Permutation_length HT) as HL. cbn in HL. constructor; cbn; try done.
  - destruct serial; cbn; lia.
  - intros E. destruct (Hser E) as (-> & Hl & Hph). rewrite E. split; [done|]. split; [lia|done].
  - lia.
  - intros E. rewrite (He E) in HL. done.
  - rewrite Hm, HT. apply Permutation_middle.
Qed.

Lemma gives_back_inv ms r m r' : RunnerInv ms r -> gives_back m r = Some r' -> RunnerInv ms r'.
Proof.
  intros [Hp Hs Hb Hser Hi Hst He Hm] HA. apply bind_Some in HA as (l & HT%take_out_perm & HA). action_cases HA.
  pose proof (Permutation_length HT) as HL. cbn in HL. constructor; cbn; try done; try lia.
  - destruct serial eqn:E; [|lia]. by destruct (Hser eq_refl) as (E1 & _ & _); rewrite E1 in HL.
  - intros E. by destruct (Hser E) as (E1 & _ & _); rewrite E1 in HL.
Qed.

Lemma one_more ms m (l1 l2 : list Z) : ms ≡ₚ l1 ++ l2 -> ms ++ [m] ≡ₚ m :: l1 ++ l2 /\ ms ++ [m] ≡ₚ l1 ++ m :: l2.
Proof.
  intros HP. assert (ms ++ [m] ≡ₚ m :: l1 ++ l2) as HM by (rewrite HP; symmetry; apply Permutation_cons_append).
  split; [done|]. rewrite HM. apply Permutation_middle.
Qed.

Lemma action_inv ms r a r' : RunnerInv ms r -> action r a = Some r' -> RunnerInv (ms ++ received a) r'.
Proof.
  intros HI HA. destruct a; cbn [received]; rewrite ?app_nil_r; unfold action in HA.
  10: by eapply returns_inv. 10: by eapply gives_back_inv.
  all: destruct HI as [Hp Hs Hb Hser Hi Hst He Hm].
  all: destruct (rn_Phase r) eqn:EP; try discriminate HA; cbn in *.
  all: unfold serial in *; action_cases HA; constructor; cbn; rewrite ?EP in *; cbn; unfold serial; intros; repeat case_match; try done; try lia; try tauto.
  all: try by apply one_more.
  - split_and!; try done; [tauto|]. destruct (length (rn_Running r)); [lia|done].
  - apply nil_length_inv; lia.
  - apply nil_length_inv; lia.
Qed.

Lemma actions_inv ms r acts r' : RunnerInv ms r -> actions r acts = Some r' -> RunnerInv (ms ++ mjoin (received <$> acts)) r'.
Proof.
  revert ms r. induction acts as [|a acts IH]; intros ms r HI; cbn; [intros [= <-]; by rewrite app_nil_r|].
  intros (r1 & HA & HR)%bind_Some. rewrite app_assoc. eapply IH; [by eapply action_inv|done].
Qed.

(** After the fence, handlers only end. *)
Lemma stopping_shrinks r a r' : rn_Stopping r = true -> action r a = Some r' ->
  (exists l, rn_Running r ≡ₚ l ++ rn_Running r') /\ rn_Stopping r' = true.
Proof.
  intros Est HA. destruct a; unfold action in HA.
  10: { apply bind_Some in HA as (l & HT%take_out_perm & [= <-]). split; [by exists [m]|done]. }
  10: { apply bind_Some in HA as (l & _ & HA). action_cases HA. split; [by exists []|done]. }
  all: destruct (rn_Phase r) eqn:EP; try discriminate HA; rewrite ?Est in HA; action_cases HA; (split; [by exists []|done]).
Qed.

(** C26. However the loop that pulls, the handlers and a shutdown
    interleave: no more handlers run at once than the concurrency allows; every
    message received is being handled or left the process once, handled or given
    back; giving a slot back never blocks; once a shutdown has begun no handler
    starts; and the runner ends only when no handler is in flight. *)
Theorem runner_bounded acts r :
  actions start_runner acts = Some r ->
  Z.of_nat (length (rn_Running r)) <= Z.max conc 1 /\
  mjoin (received <$> acts) ≡ₚ rn_Running r ++ (fst <$> rn_Left r) /\
  (forall m, m ∈ rn_Ending r -> is_Some (action r (Release m))) /\
  (forall n, rn_Phase r = PGiveBack n -> is_Some (action r GiveBack)) /\
  (rn_Stopping r = true -> forall a r', action r a = Some r' ->
    (exists l, rn_Running r ≡ₚ l ++ rn_Running r') /\ rn_Stopping r' = true) /\
  (rn_Phase r = PEnded -> rn_Running r = [] /\ rn_Inflight r = 0).
Proof.
  intros HA. destruct (actions_inv [] _ _ _ runner_start HA) as [Hp Hs Hb Hser Hi Hst He Hm].
  assert (HN : forall m, m ∈ rn_Ending r -> 0 < Z.of_nat (length (rn_Ending r))) by (intros m Hin; destruct (rn_Ending r); [by apply not_elem_of_nil in Hin|cbn; lia]).
  assert (HS : serial = false \/ serial = true /\ conc <= 1) by (unfold serial; destruct (Z.leb_spec conc 1); auto).
  assert (HP : 0 <= phase_slots (rn_Phase r)) by (destruct (rn_Phase r); cbn in *; lia).
  split_and!; try done.
  - destruct HS as [E|[E Hc]]; rewrite E in *; [lia|]. destruct (Hser eq_refl) as (_ & Hl & _). lia.
  - intros m Hin. cbn. unfold gives_back. destruct (take_out_in _ _ Hin) as [l ->]. cbn. apply HN in Hin.
    destruct HS as [E|[E _]]; rewrite E in *; [|by destruct (Hser eq_refl) as (E1 & _); rewrite E1 in Hin].
    destruct (Z.leb_spec (rn_Sem r) 0); [lia|by eexists].
  - intros n E. cbn. rewrite E in *. cbn in *. destruct (Z.leb_spec n 0); [by eexists|].
    destruct HS as [Es|[Es _]]; rewrite Es in *; [|by destruct (Hser eq_refl) as (_ & _ & [])].
    destruct (Z.leb_spec (rn_Sem r) 0); [lia|by eexists].
  - intros Est a r'. by apply stopping_shrinks.
  - intros E. by rewrite Hi, (He E).
Qed.

(** A shutdown ends once the handlers in flight return, in the order they please. *)
Theorem drain_ends acts r : actions start_runner acts = Some r -> rn_Phase r = PDrain ->
  exists r', actions r (((fun m => Return m true) <$> rn_Running r) ++ [Drained]) = Some r' /\ rn_Phase r' = PEnded.
Proof.
  intros HA. pose proof (actions_inv [] _ _ _ runner_start HA) as HI. clear HA. revert HI. generalize ([] ++ mjoin (received <$> acts)) as ms.
  intros ms. remember (rn_Running r) as l eqn:El. revert r El. induction l as [|m l IH]; intros r El HI EP; cbn.
  - rewrite EP, (ri_inflight _ _ HI), <- El. cbn. by eexists.
  - assert (exists r1, action r (Return m true) = Some r1 /\ rn_Running r1 = l /\ rn_Phase r1 = PDrain) as (r1 & HA & E1 & EP1).
    { cbn. unfold returns. rewrite <- El. cbn. rewrite Z.eqb_refl. cbn. by eexists. }
    cbn in HA. rewrite HA. cbn. apply IH; [done| |done]. by eapply returns_inv.
Qed.
End Runner.
