(* ===== verification/Ready.v ===== *)
(** * Readiness ([internal/ready/ready.go])

    A run has parts, each of which reports once that it pulls; the channel handed
    out is closed exactly while a run is on and all of its parts reported.  The
    callbacks of a run are closures over its number: those of a run that ended may
    still be called. *)

From S2P Require Import Prelude.

(** ** The signal *)

(** [Signal], with what its closures captured: [sg_Runs] the number of each run
    begun, [sg_Called] the callbacks that were called; a channel is named by a
    number, and [sg_Closed] are those closed so far. *)
Record Signal := {
  sg_Ch : Z; sg_Up : bool; sg_Run : Z; sg_Left : Z;
  sg_Runs : list Z; sg_Called : gset (nat * nat); sg_Closed : list Z }.

Definition new_signal : Signal :=
  {| sg_Ch := 0; sg_Up := false; sg_Run := 0; sg_Left := 0; sg_Runs := []; sg_Called := ∅; sg_Closed := [] |}.

(** [open]: closes the channel. *)
Definition open_ (s : Signal) : Signal :=
  if sg_Up s then s
  else {| sg_Ch := sg_Ch s; sg_Up := true; sg_Run := sg_Run s; sg_Left := sg_Left s; sg_Runs := sg_Runs s; sg_Called := sg_Called s;
          sg_Closed := sg_Ch s :: sg_Closed s |}.

(** [reset]: a new channel in place of a closed one. *)
Definition reset (s : Signal) : Signal :=
  if sg_Up s then
    {| sg_Ch := sg_Ch s + 1; sg_Up := false; sg_Run := sg_Run s; sg_Left := sg_Left s; sg_Runs := sg_Runs s; sg_Called := sg_Called s;
       sg_Closed := sg_Closed s |}
  else s.

(** [run] is a 64-bit counter. *)
Definition next_run (r : Z) : Z := (r + 1) mod 2 ^ 64.

Definition Begin (n : nat) (s : Signal) : Signal :=
  let s := reset s in
  let run := next_run (sg_Run s) in
  let s := {| sg_Ch := sg_Ch s; sg_Up := sg_Up s; sg_Run := run; sg_Left := Z.of_nat n; sg_Runs := sg_Runs s ++ [run];
              sg_Called := sg_Called s; sg_Closed := sg_Closed s |} in
  if (n =? 0)%nat then open_ s else s.

(** The callback of part [i] of the [k]th run, counted from 0. *)
Definition part (k i : nat) (s : Signal) : Signal :=
  match sg_Runs s !! k with
  | None => s
  | Some run =>
      if negb (sg_Run s =? run) || bool_decide ((k, i) ∈ sg_Called s) then s
      else
        let s := {| sg_Ch := sg_Ch s; sg_Up := sg_Up s; sg_Run := sg_Run s; sg_Left := sg_Left s - 1; sg_Runs := sg_Runs s;
                    sg_Called := {[ (k, i) ]} ∪ sg_Called s; sg_Closed := sg_Closed s |} in
        if sg_Left s =? 0 then open_ s else s
  end.

(** The end of the [k]th run. *)
Definition end_ (k : nat) (s : Signal) : Signal :=
  match sg_Runs s !! k with
  | None => s
  | Some run =>
      if negb (sg_Run s =? run) then s
      else reset {| sg_Ch := sg_Ch s; sg_Up := sg_Up s; sg_Run := next_run (sg_Run s); sg_Left := sg_Left s; sg_Runs := sg_Runs s;
                    sg_Called := sg_Called s; sg_Closed := sg_Closed s |}
  end.

Inductive ReadyOp := OBegin (n : nat) | OPart (k i : nat) | OEnd (k : nat).

Definition signal_op (s : Signal) (o : ReadyOp) : Signal :=
  match o with OBegin n => Begin n s | OPart k i => part k i s | OEnd k => end_ k s end.

(** ** What it promises *)

(** The run that is on, with its number of parts and those that reported. *)
Record Running_ := { ru_k : nat; ru_n : nat; ru_reported : gset nat }.
Record Promise := { pr_begun : nat; pr_now : option Running_ }.

Definition promise_op (p : Promise) (o : ReadyOp) : Promise :=
  match o with
  | OBegin n => {| pr_begun := S (pr_begun p); pr_now := Some {| ru_k := pr_begun p; ru_n := n; ru_reported := ∅ |} |}
  | OPart k i =>
      match pr_now p with
      | Some r => if (ru_k r =? k)%nat && (i <? ru_n r)%nat
                  then {| pr_begun := pr_begun p; pr_now := Some {| ru_k := k; ru_n := ru_n r; ru_reported := {[ i ]} ∪ ru_reported r |} |}
                  else p
      | None => p
      end
  | OEnd k =>
      match pr_now p with
      | Some r => if (ru_k r =? k)%nat then {| pr_begun := pr_begun p; pr_now := None |} else p
      | None => p
      end
  end.

(** Ready: a run is on and all its parts reported. *)
Definition promised (p : Promise) : bool :=
  match pr_now p with Some r => (size (ru_reported r) =? ru_n r)%nat | None => false end.

(** The callbacks of a run are those of its parts. *)
Fixpoint callable (sizes : list nat) (ops : list ReadyOp) : Prop :=
  match ops with
  | [] => True
  | OBegin n :: ops => callable (sizes ++ [n]) ops
  | OPart k i :: ops => (exists n, sizes !! k = Some n /\ (i < n)%nat) /\ callable sizes ops
  | OEnd k :: ops => is_Some (sizes !! k) /\ callable sizes ops
  end.

(** ** Refinement *)

(** The run that is on is the one whose number the signal has. *)
Definition now_ok (sizes : list nat) (s : Signal) (p : Promise) : Prop :=
  match pr_now p with
  | None => (sg_Run s ∉ sg_Runs s) /\ sg_Up s = false
  | Some r =>
      sg_Runs s !! ru_k r = Some (sg_Run s) /\ sizes !! ru_k r = Some (ru_n r) /\
      (forall i, i ∈ ru_reported r <-> (ru_k r, i) ∈ sg_Called s) /\ (forall i, i ∈ ru_reported r -> (i < ru_n r)%nat) /\
      sg_Left s = Z.of_nat (ru_n r) - Z.of_nat (size (ru_reported r)) /\
      sg_Up s = (size (ru_reported r) =? ru_n r)%nat
  end.

Record ReadyInv (sizes : list nat) (t : Z) (s : Signal) (p : Promise) : Prop := {
  rd_sizes : length sizes = pr_begun p;
  rd_runs : length (sg_Runs s) = pr_begun p;
  rd_run : 0 <= sg_Run s <= t;
  rd_older : forall run, run ∈ sg_Runs s -> run <= sg_Run s;
  rd_nodup : NoDup (sg_Runs s);
  rd_called : forall k i, (k, i) ∈ sg_Called s -> (k < pr_begun p)%nat;
  rd_now : now_ok sizes s p;
  rd_closed : NoDup (sg_Closed s);
  rd_old_channels : forall c, c ∈ sg_Closed s -> c <= sg_Ch s;
  rd_up : sg_Ch s ∈ sg_Closed s <-> sg_Up s = true }.

Definition no_promise : Promise := {| pr_begun := 0; pr_now := None |}.

Lemma new_ready : ReadyInv [] 0 new_signal no_promise.
Proof.
  constructor; cbn; try done; try (intros; set_solver).
  all: try constructor; try done; set_solver.
Qed.

(** What [open_] and [reset] keep of the channels. *)
Definition channels_ok (s : Signal) : Prop :=
  NoDup (sg_Closed s) /\ (forall c, c ∈ sg_Closed s -> c <= sg_Ch s) /\ (sg_Ch s ∈ sg_Closed s <-> sg_Up s = true).

Lemma open_channels s : channels_ok s -> channels_ok (open_ s).
Proof.
  intros (Hn & Ho & Hu). unfold open_. destruct (sg_Up s) eqn:E; [by split_and!; rewrite ?E|]. unfold channels_ok. cbn. split_and!.
  - constructor; [|done]. intros Hc. by apply Hu in Hc.
  - intros c [->|Hc]%elem_of_cons; [lia|by apply Ho].
  - split; [done|]. intros _. apply list_elem_of_here.
Qed.

Lemma reset_channels s : channels_ok s -> channels_ok (reset s) /\ sg_Up (reset s) = false.
Proof.
  intros (Hn & Ho & Hu). unfold reset. destruct (sg_Up s) eqn:E; [|by split; [split_and!; rewrite ?E|]]. split; [|done].
  unfold channels_ok. cbn. split_and!; [done|intros c Hc; apply Ho in Hc; lia|]. split; [|done]. intros Hc. apply Ho in Hc. lia.
Qed.

Lemma inv_channels sizes t s p : ReadyInv sizes t s p -> channels_ok s.
Proof. intros []. by split_and!. Qed.

Lemma open_fields s : sg_Run (open_ s) = sg_Run s /\ sg_Runs (open_ s) = sg_Runs s /\ sg_Called (open_ s) = sg_Called s /\
  sg_Left (open_ s) = sg_Left s /\ sg_Up (open_ s) = true.
Proof. unfold open_. destruct (sg_Up s) eqn:E; by rewrite ?E. Qed.

Lemma reset_fields s : sg_Run (reset s) = sg_Run s /\ sg_Runs (reset s) = sg_Runs s /\ sg_Called (reset s) = sg_Called s /\
  sg_Left (reset s) = sg_Left s.
Proof. unfold reset. by destruct (sg_Up s). Qed.

Lemma next_run_small r t : 0 <= r <= t -> t + 1 < 2 ^ 64 -> next_run r = r + 1.
Proof. intros Hr Ht. unfold next_run. apply Z.mod_small. lia. Qed.

(** The parts of the invariant that concern the numbers of the runs. *)
Definition runs_ok (begun : nat) (t : Z) (s : Signal) : Prop :=
  length (sg_Runs s) = begun /\ 0 <= sg_Run s <= t /\ (forall run, run ∈ sg_Runs s -> run <= sg_Run s) /\ NoDup (sg_Runs s) /\
  forall k i, (k, i) ∈ sg_Called s -> (k < begun)%nat.

Lemma ready_inv sizes t s p : ReadyInv sizes t s p <-> length sizes = pr_begun p /\ runs_ok (pr_begun p) t s /\ now_ok sizes s p /\ channels_ok s.
Proof.
  split.
  - intros HI. pose proof (inv_channels _ _ _ _ HI). destruct HI. by split_and!.
  - intros (? & (? & ? & ? & ? & ?) & ? & ? & ? & ?). by constructor.
Qed.

Lemma begin_inv sizes t n s p : t + 1 < 2 ^ 64 -> ReadyInv sizes t s p -> ReadyInv (sizes ++ [n]) (t + 1) (Begin n s) (promise_op p (OBegin n)).
Proof.
  intros Ht (Hl & (Hr & Hb & Ho & Hn & Hc) & _ & HC)%ready_inv. destruct (reset_channels _ HC) as [HC' Hup].
  destruct (reset_fields s) as (E1 & E2 & E3 & E4). apply ready_inv. unfold Begin. rewrite E1, (next_run_small _ t) by done.
  set (s1 := {| sg_Ch := _ |}).
  assert (HR : runs_ok (S (pr_begun p)) (t + 1) s1).
  { unfold runs_ok, s1. cbn. rewrite E2, E3, length_app. cbn. split_and!; try lia.
    - intros run [Hin|Hin%list_elem_of_singleton]%elem_of_app; [apply Ho in Hin; lia|lia].
    - apply NoDup_app. split_and!; [done| |apply NoDup_singleton]. intros run Hin ->%list_elem_of_singleton. apply Ho in Hin. lia.
    - intros k i Hk%Hc. lia. }
  assert (H1 : channels_ok s1) by (unfold channels_ok, s1; cbn; exact HC').
  assert (HK : sg_Runs s1 !! pr_begun p = Some (sg_Run s1)) by (cbn; rewrite E2, <- Hr; by apply list_lookup_middle).
  assert (HE : forall i, i ∈ (∅ : gset nat) <-> (pr_begun p, i) ∈ sg_Called s1).
  { intros i. split; [by intros ?%not_elem_of_empty|]. cbn. rewrite E3. intros Hi%Hc. lia. }
  assert (HZ : (sizes ++ [n]) !! pr_begun p = Some n) by (rewrite <- Hl; by apply list_lookup_middle).
  assert (HL : length (sizes ++ [n]) = S (pr_begun p)) by (rewrite length_app; cbn; lia).
  cbn [pr_begun promise_op]. destruct (Nat.eqb_spec n 0) as [->|Hz].
  - destruct (open_fields s1) as (O1 & O2 & O3 & O4 & O5). split_and!; [done| | |by apply open_channels].
    + unfold runs_ok. by rewrite O1, O2, O3.
    + unfold now_ok. cbn [pr_now ru_k ru_n ru_reported]. rewrite O1, O2, O3, O4, O5, size_empty. by split_and!.
  - split_and!; [done|done| |done]. unfold now_ok. cbn [pr_now ru_k ru_n ru_reported]. rewrite size_empty. split_and!; try done.
    + cbn. lia.
    + cbn. rewrite Hup. by destruct n.
Qed.

(** A callback of the run that is on. *)
Lemma current_run sizes t s p k run :
  ReadyInv sizes t s p -> sg_Runs s !! k = Some run ->
  match pr_now p with Some r => (ru_k r =? k)%nat | None => false end = (sg_Run s =? run).
Proof.
  intros HI Hk. pose proof (rd_now _ _ _ _ HI) as HN. unfold now_ok in HN. destruct (pr_now p) as [r|].
  - destruct HN as (Hr & _). destruct (Nat.eqb_spec (ru_k r) k) as [E|Hne]; symmetry.
    + apply Z.eqb_eq. congruence.
    + apply Z.eqb_neq. intros E. rewrite <- E in Hk. apply Hne. exact (NoDup_lookup _ _ _ _ (rd_nodup _ _ _ _ HI) Hr Hk).
  - destruct HN as [Hn _]. symmetry. apply Z.eqb_neq. intros E. rewrite <- E in Hk. apply Hn. by eapply list_elem_of_lookup_2.
Qed.

Lemma end_inv sizes t k s p : t + 1 < 2 ^ 64 -> is_Some (sizes !! k) -> ReadyInv sizes t s p -> ReadyInv sizes (t + 1) (end_ k s) (promise_op p (OEnd k)).
Proof.
  intros Ht Hs HI. pose proof HI as (Hl & (Hr & Hb & Ho & Hn & Hc) & HN & HC)%ready_inv. unfold end_.
  destruct (sg_Runs s !! k) as [run|] eqn:Ek.
  2: { apply lookup_ge_None in Ek. destruct Hs as [n Hs%lookup_lt_Some]. lia. }
  pose proof (current_run _ _ _ _ _ _ HI Ek) as HK. cbn [promise_op]. destruct (Z.eqb_spec (sg_Run s) run) as [E|_]; cbn [negb].
  - destruct (pr_now p) as [r|]; [|done]. rewrite HK. set (s1 := {| sg_Ch := _ |}).
    assert (channels_ok s1) as H1 by done. destruct (reset_channels _ H1) as [H2 Hup]. destruct (reset_fields s1) as (E1 & E2 & E3 & E4).
    apply ready_inv. split_and!; [done| | |done].
    + unfold runs_ok. rewrite E1, E2, E3. cbn. rewrite (next_run_small _ t) by done. split_and!; try done; [lia|lia|].
      intros run' Hin%Ho. lia.
    + unfold now_ok. cbn [pr_now]. rewrite E1, E2. split; [|done]. cbn. rewrite (next_run_small _ t) by done. intros Hin%Ho. lia.
  - assert (HP : match pr_now p with Some r => if (ru_k r =? k)%nat then {| pr_begun := pr_begun p; pr_now := None |} else p | None => p end = p)
      by (destruct (pr_now p); [by rewrite HK|done]). rewrite HP.
    apply ready_inv. split_and!; try done. unfold runs_ok. split_and!; try done; lia.
Qed.

Lemma part_inv sizes t k i n s p :
  sizes !! k = Some n -> (i < n)%nat -> ReadyInv sizes t s p -> ReadyInv sizes (t + 1) (part k i s) (promise_op p (OPart k i)).
Proof.
  intros Hs Hi HI. pose proof HI as (Hl & (Hr & Hb & Ho & Hn & Hc) & HN & HC)%ready_inv. unfold part.
  assert (HT : ReadyInv sizes (t + 1) s p) by (apply ready_inv; split_and!; try done; unfold runs_ok; split_and!; try done; lia).
  destruct (sg_Runs s !! k) as [run|] eqn:Ek.
  2: { apply lookup_ge_None in Ek. apply lookup_lt_Some in Hs. lia. }
  pose proof (current_run _ _ _ _ _ _ HI Ek) as HK. cbn [promise_op]. unfold now_ok in HN.
  destruct (pr_now p) as [r|] eqn:Ep; [|by rewrite <- HK]. rewrite <- HK.
  destruct (Nat.eqb_spec (ru_k r) k) as [<-|_]; cbn [negb orb andb]; [|done].
  destruct HN as (HNr & HNs & HNc & HNi & HNl & HNu). assert (ru_n r = n) as En by congruence. rewrite En in *.
  destruct (Nat.ltb_spec i n); [|lia]. destruct (bool_decide_reflect ((ru_k r, i) ∈ sg_Called s)) as [Hin|Hin].
  - replace ({[i]} ∪ ru_reported r) with (ru_reported r) by (apply HNc in Hin; set_solver).
    apply ready_inv. apply ready_inv in HT as (? & ? & _ & ?). by split_and!.
  - set (s1 := {| sg_Ch := _ |}).
    assert (Hz : size ({[i]} ∪ ru_reported r) = S (size (ru_reported r)))
      by (rewrite size_union, size_singleton; [done|]; rewrite <- HNc in Hin; set_solver).
    assert (HR : runs_ok (pr_begun p) (t + 1) s1).
    { unfold runs_ok, s1. cbn. split_and!; try done; try lia. intros k' i' [E%elem_of_singleton|Hk]%elem_of_union; [|by eapply Hc].
      injection E as -> _. rewrite <- Hr. by eapply lookup_lt_Some. }
    assert (HE : forall j, j ∈ {[i]} ∪ ru_reported r <-> (ru_k r, j) ∈ sg_Called s1).
    { intros j. cbn. rewrite !elem_of_union, !elem_of_singleton, HNc. split; intros [E|?]; auto; left; congruence. }
    assert (Hj : forall j, j ∈ {[i]} ∪ ru_reported r -> (j < n)%nat) by (intros j [->%elem_of_singleton|Hj]%elem_of_union; auto).
    assert (Hlt : (S (size (ru_reported r)) <= n)%nat).
    { rewrite <- Hz, <- (size_set_seq (C := gset nat) 0 n). apply subseteq_size. intros j Hj'%Hj. apply elem_of_set_seq. lia. }
    assert (H1 : channels_ok s1) by done. cbn [sg_Left s1].
    apply ready_inv. cbn [pr_begun]. destruct (Z.eqb_spec (sg_Left s - 1) 0) as [E|E].
    + destruct (open_fields s1) as (O1 & O2 & O3 & O4 & O5). split_and!; [done| | |by apply open_channels].
      * unfold runs_ok. by rewrite O1, O2, O3.
      * unfold now_ok. cbn [pr_now ru_k ru_n ru_reported]. rewrite O1, O2, O3, O4, O5, Hz. split_and!; try done.
        -- cbn. lia.
        -- symmetry. apply Nat.eqb_eq. lia.
    + split_and!; [done|done| |done]. unfold now_ok. cbn [pr_now ru_k ru_n ru_reported]. rewrite Hz. split_and!; try done.
      * cbn. lia.
      * cbn [sg_Up s1]. rewrite HNu. transitivity false; [|symmetry]; apply Nat.eqb_neq; [|lia].
        lia.
Qed.

Lemma ready_ops sizes t s p ops :
  callable sizes ops -> t + Z.of_nat (length ops) < 2 ^ 64 -> ReadyInv sizes t s p ->
  exists sizes' t', ReadyInv sizes' t' (foldl signal_op s ops) (foldl promise_op p ops).
Proof.
  revert sizes t s p. induction ops as [|o ops IH]; intros sizes t s p HC Ht HI; [by eauto|]. cbn [length] in Ht.
  destruct o as [n|k i|k]; cbn [callable] in HC; cbn [foldl signal_op].
  - eapply IH; [done| |apply (begin_inv sizes t); [lia|done]]. lia.
  - destruct HC as [(n & Hs & Hi) HC]. eapply IH; [done| |by apply (part_inv sizes t k i n)]. lia.
  - destruct HC as [Hs HC]. eapply IH; [done| |apply (end_inv sizes t); [lia|done|done]]. lia.
Qed.

(** Whatever runs begin and end, and whatever callbacks are called, also late or
    again: the signal is up exactly while a run is on and all of its parts
    reported, the channel handed out is closed exactly then, and no channel is
    closed twice. *)
Theorem ready_exact ops :
  callable [] ops -> Z.of_nat (length ops) < 2 ^ 64 ->
  let s := foldl signal_op new_signal ops in
  sg_Up s = promised (foldl promise_op no_promise ops) /\
  (sg_Ch s ∈ sg_Closed s <-> promised (foldl promise_op no_promise ops) = true) /\ NoDup (sg_Closed s).
Proof.
  intros HC Hl s. destruct (ready_ops [] 0 new_signal no_promise ops HC ltac:(lia) new_ready) as (sizes & t & HI). fold s in HI.
  assert (E : sg_Up s = promised (foldl promise_op no_promise ops)).
  { pose proof (rd_now _ _ _ _ HI) as HN. unfold now_ok, promised in *. destruct (pr_now _); [by destruct HN as (_ & _ & _ & _ & _ & ?)|by destruct HN]. }
  split; [done|]. rewrite <- E. split; [by apply HI|by apply HI].
Qed.
