(* ===== verification/Provision.v ===== *)
(** * Resources of a namespace ([internal/infra/infra.go], [provision.go])

    The check of the server, the streams, buckets and object stores, the rule that
    leaves a resource alone when its configuration already holds everything
    wanted, and the partition count, which is fixed when the namespace is first
    provisioned. *)

From S2P Require Import Prelude Json Hash GoStrings Names Flow Event Cmd CmdCodec Reduce State View Wire Cron Codec NamesProps CronProps.
From S2P Require Import Server Sending EventLog Engine Deliveries DispatchProps Worker Semaphore.

(** ** Configurations as maps *)

(** A configuration decoded from its JSON encoding ([map[string]any]); the keys of
    a map are distinct. *)
Inductive Conf :=
| CNull
| CBool (b : bool)
| CNum (f : float64)
| CText (s : string)
| CList (l : list Conf)
| CMap (kvs : list (string * Conf)).

(** Induction that goes into the values of lists and maps. *)
Section ConfInd.
Context (P : Conf -> Prop).
Context (Hnull : P CNull) (Hbool : forall b, P (CBool b)) (Hnum : forall f, P (CNum f)) (Htext : forall s, P (CText s)).
Context (Hlist : forall l, Forall P l -> P (CList l)) (Hmap : forall kvs, Forall (fun kv => P (snd kv)) kvs -> P (CMap kvs)).

Fixpoint conf_ind' (c : Conf) : P c :=
  match c with
  | CNull => Hnull
  | CBool b => Hbool b
  | CNum f => Hnum f
  | CText s => Htext s
  | CList l => Hlist l ((fix go (l : list Conf) : Forall P l :=
                           match l with [] => List.Forall_nil _ | x :: l => List.Forall_cons P x l (conf_ind' x) (go l) end) l)
  | CMap kvs => Hmap kvs ((fix go (l : list (string * Conf)) : Forall (fun kv => P (snd kv)) l :=
                             match l with [] => List.Forall_nil _ | x :: l => List.Forall_cons (fun kv => P (snd kv)) x l (conf_ind' (snd x)) (go l) end) kvs)
  end.
End ConfInd.

#[export] Instance float64_eq_dec : EqDecision float64.
Proof. solve_decision. Defined.

(** [reflect.DeepEqual]; a map is printed in the order of its keys. *)
Fixpoint deep_equal (a b : Conf) : bool :=
  match a, b with
  | CNull, CNull => true
  | CBool x, CBool y => Bool.eqb x y
  | CNum x, CNum y => bool_decide (x = y)
  | CText x, CText y => String.eqb x y
  | CList l, CList l' =>
      (fix go l l' := match l, l' with [], [] => true | x :: l, y :: l' => deep_equal x y && go l l' | _, _ => false end) l l'
  | CMap l, CMap l' =>
      (fix go l l' := match l, l' with
                      | [], [] => true
                      | (k, x) :: l, (k', y) :: l' => String.eqb k k' && deep_equal x y && go l l'
                      | _, _ => false
                      end) l l'
  | _, _ => false
  end.

Definition lookup_key (k : string) (kvs : list (string * Conf)) : option Conf := snd <$> List.find (fun kv => String.eqb (fst kv) k) kvs.

(** [dst[k] = v]. *)
Fixpoint set_key (k : string) (v : Conf) (kvs : list (string * Conf)) : list (string * Conf) :=
  match kvs with
  | [] => [(k, v)]
  | (k', v') :: kvs => if String.eqb k' k then (k, v) :: kvs else (k', v') :: set_key k v kvs
  end.

(** [overlay]: the value [src] on top of [dst], going into maps. *)
Fixpoint overlay (src dst : Conf) : Conf :=
  match src, dst with
  | CMap skvs, CMap dkvs =>
      CMap ((fix go (l : list (string * Conf)) (dkvs : list (string * Conf)) :=
               match l with
               | [] => dkvs
               | (k, v) :: l => go l (set_key k (match lookup_key k dkvs with Some dv => overlay v dv | None => v end) dkvs)
               end) skvs dkvs)
  | _, _ => src
  end.

(** [dropZeroNumbers]. *)
Definition zero_number (c : Conf) : bool := match c with CNum (S754_zero _) => true | _ => false end.
Fixpoint dropZeroNumbers (c : Conf) : Conf :=
  match c with
  | CMap kvs =>
      CMap ((fix go (l : list (string * Conf)) :=
               match l with
               | [] => []
               | (k, v) :: l => if zero_number v then go l else (k, dropZeroNumbers v) :: go l
               end) kvs)
  | _ => c
  end.

(** [covers], of the encodings; [None] if a configuration does not encode. *)
Definition covers (have want : option Conf) : bool :=
  match have, want with
  | Some h, Some w => deep_equal (overlay (dropZeroNumbers w) h) h
  | _, _ => false
  end.

(** *** What it decides *)

(** Everything [want] sets is set the same in [have]. *)
Fixpoint included (want have : Conf) : bool :=
  match want, have with
  | CMap ws, CMap hs =>
      (fix go (l : list (string * Conf)) :=
         match l with
         | [] => true
         | (k, v) :: l => match lookup_key k hs with Some hv => included v hv | None => false end && go l
         end) ws
  | _, _ => deep_equal want have
  end.

(** Keys are distinct, at every level. *)
Fixpoint distinct (c : Conf) : Prop :=
  match c with
  | CMap kvs => NoDup (fst <$> kvs) /\ (fix go (l : list (string * Conf)) := match l with [] => True | (_, v) :: l => distinct v /\ go l end) kvs
  | _ => True
  end.

(** The loops over the entries of a map. *)
Definition overlay_all (ws hs : list (string * Conf)) : list (string * Conf) :=
  foldl (fun hs kv => set_key (fst kv) (match lookup_key (fst kv) hs with Some dv => overlay (snd kv) dv | None => snd kv end) hs) hs ws.

Lemma overlay_map ws hs : overlay (CMap ws) (CMap hs) = CMap (overlay_all ws hs).
Proof. cbn [overlay]. f_equal. revert hs. induction ws as [|[k v] ws IH]; intros hs; [done|]. cbn. by rewrite IH. Qed.

Lemma included_map ws hs :
  included (CMap ws) (CMap hs) = forallb (fun kv => match lookup_key (fst kv) hs with Some hv => included (snd kv) hv | None => false end) ws.
Proof. cbn [included]. induction ws as [|[k v] ws IH]; [done|]. cbn. by rewrite IH. Qed.

Lemma distinct_map kvs : distinct (CMap kvs) <-> NoDup (fst <$> kvs) /\ Forall (fun kv => distinct (snd kv)) kvs.
Proof.
  cbn [distinct]. apply and_iff_compat_l. induction kvs as [|[k v] kvs IH]; [by split; [constructor|]|].
  rewrite Forall_cons. by rewrite IH.
Qed.

Lemma deep_equal_spec a b : deep_equal a b = true <-> a = b.
Proof.
  revert b. induction a as [|x|x|x|l IH|kvs IH] using conf_ind'; intros [|y|y|y|l'|kvs']; cbn; try (split; congruence).
  - rewrite Bool.eqb_true_iff. split; congruence.
  - rewrite bool_decide_eq_true. split; congruence.
  - rewrite String.eqb_eq. split; congruence.
  - revert l'. induction IH as [|x l Hx HF IHl]; intros [|y l']; try (split; congruence).
    rewrite andb_true_iff, Hx, IHl. split; [intros [-> [= ->]]; done|by intros [= -> ->]].
  - revert kvs'. induction IH as [|[k x] l Hx HF IHl]; intros [|[k' y] l']; try (split; congruence).
    rewrite !andb_true_iff, String.eqb_eq, IHl. cbn in Hx. rewrite Hx. split; [by intros [[-> ->] [= ->]]|by intros [= -> -> ->]].
Qed.

Lemma lookup_set k v k' kvs : lookup_key k' (set_key k v kvs) = if String.eqb k k' then Some v else lookup_key k' kvs.
Proof.
  induction kvs as [|[k1 v1] kvs IH]; unfold lookup_key in *; cbn.
  - destruct (String.eqb_spec k k'); done.
  - destruct (String.eqb_spec k1 k) as [->|Hne]; cbn.
    + by destruct (String.eqb_spec k k').
    + destruct (String.eqb_spec k1 k') as [->|]; [|done]. destruct (String.eqb_spec k k'); [congruence|done].
Qed.

Lemma set_same k v kvs : lookup_key k kvs = Some v -> set_key k v kvs = kvs.
Proof.
  unfold lookup_key. induction kvs as [|[k1 v1] kvs IH]; cbn; [done|]. destruct (String.eqb_spec k1 k) as [->|]; cbn; [by intros [= ->]|].
  intros HL. by rewrite IH.
Qed.

Lemma overlay_cons k v ws hs :
  overlay_all ((k, v) :: ws) hs = overlay_all ws (set_key k (match lookup_key k hs with Some dv => overlay v dv | None => v end) hs).
Proof. done. Qed.

(** The value of a key after the loop. *)
Lemma overlay_lookup ws hs k v : NoDup (fst <$> ws) -> (k, v) ∈ ws ->
  lookup_key k (overlay_all ws hs) = Some (match lookup_key k hs with Some dv => overlay v dv | None => v end).
Proof.
  assert (HK : forall ws hs, k ∉ (fst <$> ws) -> lookup_key k (overlay_all ws hs) = lookup_key k hs).
  { clear ws hs. intros ws. induction ws as [|[k1 v1] ws IH]; intros hs; [done|]. rewrite fmap_cons, not_elem_of_cons. intros [Hne Hk].
    rewrite overlay_cons, IH, lookup_set by done. destruct (String.eqb_spec k1 k); [by subst|done]. }
  revert hs. induction ws as [|[k1 v1] ws IH]; intros hs; [by intros _ ?%not_elem_of_nil|]. cbn [fmap list_fmap fst].
  intros [Hn HN]%NoDup_cons [[= <- <-]|Hin]%elem_of_cons.
  - by rewrite overlay_cons, HK, lookup_set, String.eqb_refl.
  - rewrite overlay_cons, IH, lookup_set by done. destruct (String.eqb_spec k1 k) as [->|]; [|done].
    exfalso. apply Hn. apply list_elem_of_fmap. by exists (k, v).
Qed.

Lemma overlay_kept ws hs : NoDup (fst <$> ws) ->
  overlay_all ws hs = hs <-> Forall (fun kv => exists hv, lookup_key (fst kv) hs = Some hv /\ overlay (snd kv) hv = hv) ws.
Proof.
  intros HN. split.
  - intros HE. apply Forall_forall. intros [k v] Hin. pose proof (overlay_lookup ws hs k v HN Hin) as HL. rewrite HE in HL. cbn.
    destruct (lookup_key k hs) as [hv|]; [|done]. exists hv. split; [done|congruence].
  - intros HF. clear HN. induction HF as [|[k v] ws (hv & Hl & Ho) HF IH]; [done|]. cbn in Hl, Ho.
    by rewrite overlay_cons, Hl, Ho, set_same.
Qed.

Lemma overlay_included w h : distinct w -> overlay w h = h <-> included w h = true.
Proof.
  revert h. induction w as [|x|x|x|l IH|ws IH] using conf_ind'; intros h Hd; try (symmetry; apply deep_equal_spec).
  destruct h as [|y|y|y|l'|hs]; try (cbn; split; congruence). apply distinct_map in Hd as [HN HD].
  rewrite overlay_map, included_map. transitivity (overlay_all ws hs = hs); [split; congruence|].
  rewrite overlay_kept by done. rewrite forallb_forall. rewrite List.Forall_forall in *. split; intros HF [k v] Hin; specialize (HF _ Hin); cbn in *.
  - destruct HF as (hv & -> & Ho). apply (IH (k, v) Hin); [by apply (HD (k, v))|done].
  - destruct (lookup_key k hs) as [hv|]; [|done]. exists hv. split; [done|]. apply (IH (k, v) Hin); [by apply (HD (k, v))|done].
Qed.

Lemma drop_map kvs : dropZeroNumbers (CMap kvs) = CMap ((fun kv => (fst kv, dropZeroNumbers (snd kv))) <$> List.filter (fun kv => negb (zero_number (snd kv))) kvs).
Proof. cbn [dropZeroNumbers]. f_equal. induction kvs as [|[k v] kvs IH]; [done|]. cbn. rewrite IH. by destruct (zero_number v). Qed.

Lemma drop_distinct c : distinct c -> distinct (dropZeroNumbers c).
Proof.
  induction c as [|x|x|x|l IH|kvs IH] using conf_ind'; try done. intros [HN HD]%distinct_map. rewrite drop_map. apply distinct_map. split.
  - rewrite <- list_fmap_compose. cbn. clear IH HD. induction kvs as [|[k v] kvs IH]; cbn; [done|]. apply NoDup_cons in HN as [Hk HN].
    destruct (zero_number v); cbn; [by apply IH|]. apply NoDup_cons. split; [|by apply IH]. intros Hin. apply Hk.
    apply list_elem_of_fmap in Hin as ([k' v'] & -> & Hin). apply list_elem_of_In, List.filter_In in Hin as [Hin _].
    apply list_elem_of_fmap. exists (k', v'). split; [done|by apply list_elem_of_In].
  - apply Forall_fmap. apply List.Forall_forall. intros [k v] [Hin _]%List.filter_In. cbn. rewrite List.Forall_forall in IH, HD.
    by apply (IH (k, v)), (HD (k, v)).
Qed.

(** A deployed configuration covers a wanted one exactly when everything the wanted
    one sets (a number that is zero sets nothing) is set the same in it. *)
Theorem covers_exact have want : distinct want -> covers (Some have) (Some want) = included (dropZeroNumbers want) have.
Proof.
  intros Hd. unfold covers. apply eq_true_iff_eq. rewrite deep_equal_spec. by apply overlay_included, drop_distinct.
Qed.

(** ** Programs *)

Definition MetaPartitions : string := "packtrail.partitions".
Definition MetaProtocol : string := "packtrail.protocol".
Definition DefaultPartitions : Z := 64.
Definition payloadMargin : Z := 16 * 1024.
Definition defaultMaxPayload : Z := 1024 * 1024.
Definition dlqMaxAge : Z := 30 * 24 * 3600 * Second.
Definition cacheMaxAge : Z := 30 * 24 * 3600 * Second.
Definition storeHistory : Z := 5.

(** [DefaultBlobThreshold], of the server's [max_payload]. *)
Definition DefaultBlobThreshold (max_payload : Z) : Z :=
  let mp := if max_payload <=? 0 then defaultMaxPayload else max_payload in
  Z.max (mp - payloadMargin) (Z.quot mp 2).

(** [CheckServer]. *)
Definition version_error (v : string) : error := plain (Sprintf "packtrail: cannot parse server version %q" [AStr v]).
Definition CheckServer (v : string) : result unit :=
  match split_at (ascii_of 46) (default v (CutPrefix v "v")) with
  | p0 :: p1 :: _ =>
      match Atoi p0, Atoi p1 with
      | Some major, Some minor =>
          if (major <? 2) || ((major =? 2) && (minor <? 12)) then
            Err (plain (Sprintf "packtrail: nats-server %s is too old: >= %d.%d is required (message schedules, pinned consumers)"
                          [AStr v; AInt 2; AInt 12]))
          else Ok tt
      | _, _ => Err (version_error v)
      end
  | _ => Err (version_error v)
  end.

Section Provision.
(** The names of the resources, and the JSON encodings of configurations, which
    are those of the client library. *)
Context (n : Names.Names).
Context (stream_map : StreamConfig -> option Conf) (kv_map : KvConfig -> option Conf) (object_map : ObjConfig -> option Conf).

(** The partition count a deployed command stream records. *)
Definition deployed (c : StreamConfig) : option Z :=
  match Atoi (default "" (sc_Metadata c !! MetaPartitions)) with
  | Some p => if p <=? 0 then None else Some p
  | None => None
  end.

Definition no_metadata (fmt : string) : error := plain (Sprintf fmt [AStr MetaPartitions]).

(** [Attach]: the partition count of the namespace. *)
Definition AttachInfra : Prog (result Z) :=
  let! r := call (StreamLookup (nm_StreamCmd n)) in
  lift (match r with
        | Err e => Err (wrapf "infra: command stream: %w" e)
        | Ok None => Err (Error [ErrNotProvisioned] "packtrail: namespace is not provisioned (run Engine.Init first)")
        | Ok (Some c) => match deployed c with Some p => Ok p | None => Err (no_metadata "infra: command stream has no valid %s metadata") end
        end).

Definition resolvePartitions (want : Z) : Prog (result Z) :=
  let! r := call (StreamLookup (nm_StreamCmd n)) in
  lift (match r with
        | Err e => Err (wrapf "packtrail: command stream: %w" e)
        | Ok None => Ok (if want <=? 0 then DefaultPartitions else want)
        | Ok (Some c) =>
            match deployed c with
            | None => Err (no_metadata "packtrail: command stream has no valid %s metadata")
            | Some have =>
                if (0 <? want) && negb (want =? have) then
                  Err (plain (Sprintf "packtrail: namespace is deployed with %d partitions, %d requested; the partition count cannot change"
                                [AInt have; AInt want]))
                else Ok have
            end
        end).

(** [streamConfigs], for a partition count; the replicas are filled in later. *)
Definition events_config : StreamConfig := {|
  sc_Name := nm_StreamEvents n; sc_Subjects := [EventsSubjects n]; sc_WorkQueue := false; sc_File := true; sc_Compressed := true;
  sc_AllowDirect := true; sc_DiscardNew := true; sc_AllowMsgSchedules := false; sc_AllowRollup := false; sc_Duplicates := 0;
  sc_MaxAge := 0; sc_Metadata := ∅; sc_Description := "packtrail events: the source of truth, one subject per execution";
  sc_Replicas := 0; sc_Rest := [] |}.
Definition cmd_config (partitions : Z) : StreamConfig := {|
  sc_Name := nm_StreamCmd n; sc_Subjects := CmdStreamSubjects n; sc_WorkQueue := true; sc_File := true; sc_Compressed := false;
  sc_AllowDirect := false; sc_DiscardNew := false; sc_AllowMsgSchedules := true; sc_AllowRollup := true;
  sc_Duplicates := DedupWindow; sc_MaxAge := 0;
  sc_Metadata := <[MetaPartitions := Itoa partitions]> {[ MetaProtocol := ProtocolVersion ]};
  sc_Description := "packtrail commands, durable timers and cron schedules"; sc_Replicas := 0; sc_Rest := [] |}.
Definition work_config : StreamConfig := {|
  sc_Name := nm_StreamWork n; sc_Subjects := [WorkSubjects n; WorkDelaySubjects n]; sc_WorkQueue := true; sc_File := true;
  sc_Compressed := false; sc_AllowDirect := false; sc_DiscardNew := false; sc_AllowMsgSchedules := true; sc_AllowRollup := true;
  sc_Duplicates := DedupWindow; sc_MaxAge := 0; sc_Metadata := ∅;
  sc_Description := "packtrail worker jobs, one subject per worker kind"; sc_Replicas := 0; sc_Rest := [] |}.
Definition dlq_config : StreamConfig := {|
  sc_Name := nm_StreamDLQ n; sc_Subjects := [DLQSubjects n]; sc_WorkQueue := false; sc_File := true; sc_Compressed := false;
  sc_AllowDirect := false; sc_DiscardNew := false; sc_AllowMsgSchedules := false; sc_AllowRollup := false; sc_Duplicates := 0;
  sc_MaxAge := dlqMaxAge; sc_Metadata := ∅; sc_Description := "packtrail dead letters"; sc_Replicas := 0; sc_Rest := [] |}.
Definition streamConfigs (partitions : Z) : list StreamConfig := [events_config; cmd_config partitions; work_config; dlq_config].

Definition bucket_config (bucket : string) (history : Z) (compressed : bool) (ttl : Z) : KvConfig :=
  {| kc_Bucket := bucket; kc_History := history; kc_File := true; kc_Compressed := compressed; kc_TTL := ttl; kc_Replicas := 0; kc_Rest := [] |}.
Definition kvConfigs : list KvConfig := [
  bucket_config (nm_BucketSnapshots n) 1 true 0; bucket_config (nm_BucketFlows n) 1 false 0; bucket_config (nm_BucketIndex n) 1 false 0;
  bucket_config (nm_BucketCache n) 1 false cacheMaxAge; bucket_config (nm_BucketSem n) 1 false semMaxAge;
  bucket_config (nm_BucketStore n) storeHistory false 0].

Definition with_replicas (r : Z) (c : StreamConfig) : StreamConfig := {|
  sc_Name := sc_Name c; sc_Subjects := sc_Subjects c; sc_WorkQueue := sc_WorkQueue c; sc_File := sc_File c; sc_Compressed := sc_Compressed c;
  sc_AllowDirect := sc_AllowDirect c; sc_DiscardNew := sc_DiscardNew c; sc_AllowMsgSchedules := sc_AllowMsgSchedules c;
  sc_AllowRollup := sc_AllowRollup c; sc_Duplicates := sc_Duplicates c; sc_MaxAge := sc_MaxAge c; sc_Metadata := sc_Metadata c;
  sc_Description := sc_Description c; sc_Replicas := r; sc_Rest := sc_Rest c |}.

(** [Replicas]: the replication asked for, 0 for none. *)
Context (replicas : Z).

Definition replicasFor (stream : string) : Prog (result Z) :=
  if 0 <? replicas then ok replicas
  else
    let! r := call (StreamLookup stream) in
    lift (match r with
          | Err e => Err (wrapf "packtrail: stream %s: %w" e)
          | Ok None => Ok 1
          | Ok (Some c) => Ok (Z.max (sc_Replicas c) 1)
          end).

Definition ensureStream (c : StreamConfig) : Prog (result StreamConfig) :=
  let! r := call (StreamLookup (sc_Name c)) in
  match r with
  | Err e => failed e
  | Ok (Some have) => if covers (stream_map have) (stream_map c) then ok have else call (StreamUpsert c)
  | Ok None => call (StreamUpsert c)
  end.

Definition verifyCapabilities (want got : StreamConfig) : result unit :=
  if sc_AllowMsgSchedules want && negb (sc_AllowMsgSchedules got) then
    Err (plain (Sprintf "packtrail: stream %s: server does not support message schedules" [AStr (sc_Name want)]))
  else Ok tt.

Definition provisionStream (c : StreamConfig) : Prog (result unit) :=
  try! r := replicasFor (sc_Name c) in
  let c := with_replicas r c in
  let! s := ensureStream c in
  try! s := lift (annotate "packtrail: stream %s: %w" s) in
  try! _ := lift (verifyCapabilities c s) in
  lift (if sc_Replicas s =? sc_Replicas c then Ok tt
        else Err (plain (Sprintf "packtrail: stream %s: requested %d replicas, server applied %d"
                           [AStr (sc_Name c); AInt (sc_Replicas c); AInt (sc_Replicas s)]))).

(** A loop that ends at the first error. *)
Fixpoint each {A} (f : A -> Prog (result unit)) (l : list A) : Prog (result unit) :=
  match l with
  | [] => ok tt
  | a :: l => try! _ := f a in each f l
  end.

Definition provisionBucket (c : KvConfig) : Prog (result unit) :=
  try! r := replicasFor ("KV_" +:+ kc_Bucket c) in
  let c := {| kc_Bucket := kc_Bucket c; kc_History := kc_History c; kc_File := kc_File c; kc_Compressed := kc_Compressed c; kc_TTL := kc_TTL c;
              kc_Replicas := r; kc_Rest := kc_Rest c |} in
  let! have := call (KvStatus (kc_Bucket c)) in
  if match have with Some h => covers (kv_map h) (kv_map c) | None => false end then ok tt
  else let! u := call (KvUpsert c) in lift (annotate "packtrail: bucket %s: %w" u).

Definition provisionObjects (bucket : string) : Prog (result unit) :=
  try! r := replicasFor ("OBJ_" +:+ bucket) in
  let c := {| oc_Bucket := bucket; oc_File := true; oc_Compressed := true; oc_Replicas := r; oc_Rest := [] |} in
  let! have := call (ObjStatus bucket) in
  if match have with Some h => covers (object_map h) (object_map c) | None => false end then ok tt
  else let! u := call (ObjUpsert c) in lift (annotate "packtrail: object store %s: %w" u).

(** [Provision]: the partition count the process goes on with. *)
Definition Provision (want : Z) : Prog (result Z) :=
  let! v := call ServerVersion in
  try! _ := lift (CheckServer v) in
  let! cluster := (if 1 <? Z.max replicas 0 then call ClusterName else Ret "x") in
  if String.eqb cluster "" then
    failed (plain (Sprintf "packtrail: %d replicas requested but the server is not clustered" [AInt (Z.max replicas 0)]))
  else
    try! p := resolvePartitions want in
    try! _ := each provisionStream (streamConfigs p) in
    try! _ := each provisionBucket kvConfigs in
    try! _ := each provisionObjects [nm_ObjectBlobs n; nm_ObjectArchive n] in
    ok p.
End Provision.

(** ** Provisioning keeps what is deployed

    Over every run of [Provision]: the partition count of a deployed namespace is
    never changed, and a stream is updated only when its configuration lacks
    something wanted. *)

Lemma Atoi_Itoa p : 0 < p < 2 ^ 63 -> Atoi (Itoa p) = Some p.
Proof.
  intros Hp. destruct p as [|p|p]; try lia. change (Itoa (Z.pos p)) with (pretty (N.pos p)). rewrite Atoi_pretty.
  destruct (Z.ltb_spec (Z.of_N (N.pos p)) (2 ^ 63)); [done|lia].
Qed.

Section ProvisionProps.
Context (prefix : string) (n : Names.Names) (Hn : Names.New prefix = Ok n).
Context (stream_map : StreamConfig -> option Conf) (kv_map : KvConfig -> option Conf) (object_map : ObjConfig -> option Conf).
Context (replicas : Z).

Abbreviation provision := (Provision n stream_map kv_map object_map replicas).

Definition upsert (c : Call) : bool := match c with StreamUpsert _ => true | _ => false end.
Definition no_upsert (c : Call) : bool := negb (upsert c).

Lemma each_only P {A} (f : A -> Prog (result unit)) l : (forall a, only P (f a)) -> only P (each f l).
Proof. intros Hf. induction l as [|a l IH]; [exact I|]. by apply only_fbind. Qed.

Lemma replicasFor_quiet s : only no_upsert (replicasFor replicas s).
Proof. unfold replicasFor. destruct (0 <? replicas); [exact I|]. by split. Qed.

(** *** What the count rests on *)

(** The answers about the command stream, in order, and the first. *)
Definition cmd_lookup (e : Exchange) : option (result (option StreamConfig)) :=
  match x_call e as c return Answer c -> option (result (option StreamConfig)) with
  | StreamLookup s => fun a => if String.eqb s (nm_StreamCmd n) then Some a else None
  | _ => fun _ => None
  end (x_answer e).
Definition first_lookup (tr : list Exchange) : option (result (option StreamConfig)) := head (omap cmd_lookup tr).

Lemma first_lookup_more t1 t2 a : first_lookup t1 = Some a -> first_lookup (t1 ++ t2) = Some a.
Proof. unfold first_lookup. rewrite omap_app. by destruct (omap cmd_lookup t1). Qed.

(** The count that is decided on an answer: the one deployed, unless the caller
    asked for another; the one asked for, or the default, if nothing is deployed. *)
Definition count_of (want : Z) (a : result (option StreamConfig)) : option Z :=
  match a with
  | Ok (Some c) => p ← deployed c; if (0 <? want) && negb (want =? p) then None else Some p
  | Ok None => Some (if want <=? 0 then DefaultPartitions else want)
  | Err _ => None
  end.

Lemma resolve_run want tr r :
  Runs (resolvePartitions n want) tr r ->
  exists a, tr = [{| x_call := StreamLookup (nm_StreamCmd n); x_answer := a |}] /\
    match r with Ok p => count_of want a = Some p | Err _ => True end.
Proof.
  intros (a & t & -> & -> & <-). exists a. split; [done|]. destruct a as [[c|]|e]; [|done|done]. unfold count_of.
  destruct (deployed c) as [p|] eqn:Ed; [|done]. cbn [mbind option_bind]. by destruct (_ && _).
Qed.

Lemma count_positive want a p : want < 2 ^ 63 -> count_of want a = Some p -> 0 < p < 2 ^ 63.
Proof.
  intros Hw. destruct a as [[c|]|e]; cbn [count_of]; [| |done].
  - unfold deployed. destruct (Atoi _) as [q|] eqn:Ea; [|done]. destruct (Z.leb_spec q 0); [done|]. cbn [mbind option_bind].
    destruct (_ && _); [done|]. intros [= <-]. split; [done|].
    unfold Atoi in Ea. cbv zeta in Ea. repeat case_match; try done; injection Ea as <-; lia.
  - intros [= <-]. unfold DefaultPartitions. destruct (Z.leb_spec want 0); lia.
Qed.

Lemma stream_names : nm_StreamEvents n <> nm_StreamCmd n /\ nm_StreamWork n <> nm_StreamCmd n /\ nm_StreamDLQ n <> nm_StreamCmd n.
Proof.
  pose proof Hn as HE. unfold Names.New in HE. case_match; [done|]. injection HE as <-. cbn.
  split_and!; intros E; apply (inj (String.app _)) in E; discriminate E.
Qed.

(** *** What is written *)

(** [e] writes a stream only right after it looked that stream up, and found none
    or one that lacks something wanted; the count it writes into the command
    stream is the one decided on the first answer about that stream. *)
Definition well_written (want : Z) (past : list Exchange) (e : Exchange) : Prop :=
  match x_call e with
  | StreamUpsert c =>
      exists before have, past = before ++ [{| x_call := StreamLookup (sc_Name c); x_answer := Ok have |}] /\
        match have with Some h => covers (stream_map h) (stream_map c) = false | None => True end /\
        (sc_Name c = nm_StreamCmd n -> exists a, first_lookup past = Some a /\ is_Some (deployed c) /\ deployed c = count_of want a)
  | _ => True
  end.

Lemma no_upsert_written want past (tr : list Exchange) :
  Forall (fun e => no_upsert (x_call e) = true) tr -> follows (well_written want) past tr.
Proof. intros HF. apply follows_all. eapply Forall_impl; [exact HF|]. intros [[] ?] H ?; try done. Qed.

Lemma quiet_written want past {A} (p : Prog A) tr a : only no_upsert p -> Runs p tr a -> follows (well_written want) past tr.
Proof. intros HP HR. apply no_upsert_written. by eapply only_runs. Qed.

Section Written.
Context (want p : Z) (Hw : want < 2 ^ 63).

(** The count was decided. *)
Definition decided (past : list Exchange) : Prop := exists a, first_lookup past = Some a /\ count_of want a = Some p.

Lemma decided_more past t : decided past -> decided (past ++ t).
Proof. intros (a & Ha & Hc). exists a. split; [by apply first_lookup_more|done]. Qed.

Lemma cmd_only past c k :
  decided past -> c ∈ streamConfigs n p -> sc_Name c = nm_StreamCmd n ->
  exists a, first_lookup past = Some a /\ is_Some (deployed (with_replicas k c)) /\ deployed (with_replicas k c) = count_of want a.
Proof.
  intros (a & Ha & HC) Hin Hnm. exists a. split; [done|]. destruct stream_names as (N1 & N2 & N3).
  pose proof (count_positive _ _ _ Hw HC) as Hp. assert (deployed (with_replicas k c) = Some p) as ->; [|by rewrite HC].
  apply list_elem_of_In in Hin as [<-|[<-|[<-|[<-|[]]]]]; try done. unfold deployed. cbn. rewrite lookup_insert_eq. cbn.
  rewrite Atoi_Itoa by done. destruct (Z.leb_spec p 0); [lia|done].
Qed.

Lemma ensureStream_written past c k tr r :
  decided past -> c ∈ streamConfigs n p -> Runs (ensureStream stream_map (with_replicas k c)) tr r ->
  follows (well_written want) past tr.
Proof.
  intros HD Hc (a & t & -> & HR). set (e := {| x_call := _; x_answer := a |}). split; [done|].
  assert (HU : forall have, a = Ok have ->
    match have with Some h => covers (stream_map h) (stream_map (with_replicas k c)) = false | None => True end ->
    forall r', follows (well_written want) (past ++ [e]) [{| x_call := StreamUpsert (with_replicas k c); x_answer := r' |}]).
  { intros have -> Hcov r'. split; [|done]. exists past, have. split; [done|]. split; [done|]. intros Hnm.
    eapply cmd_only; [by apply decided_more|done|done]. }
  cbn [pbind] in HR. destruct a as [[h|]|err].
  - destruct (covers (stream_map h) _) eqn:EC; [by destruct HR as [-> _]|]. apply runs_call in HR as ->. by eapply HU.
  - apply runs_call in HR as ->. by eapply HU.
  - by destruct HR as [-> _].
Qed.

Lemma provisionStream_written past c tr r :
  decided past -> c ∈ streamConfigs n p -> Runs (provisionStream stream_map replicas c) tr r ->
  follows (well_written want) past tr.
Proof.
  intros HD Hc (t1 & k & t2 & H1 & H2 & ->)%runs_bind. apply follows_app.
  split; [by eapply quiet_written; [apply replicasFor_quiet|]|]. destruct k as [k|]; [|by destruct H2 as [-> _]].
  apply runs_bind in H2 as (t3 & s & t4 & H3 & H4 & ->). apply follows_app.
  split; [by eapply ensureStream_written; [apply decided_more| |]|].
  eapply quiet_written; [|exact H4]. repeat (apply only_fbind; [exact I|intros ?]). exact I.
Qed.

Lemma streams_written past l tr r :
  decided past -> (forall c, c ∈ l -> c ∈ streamConfigs n p) -> Runs (each (provisionStream stream_map replicas) l) tr r ->
  follows (well_written want) past tr.
Proof.
  revert past tr. induction l as [|c l IH]; intros past tr HD Hl; cbn [each]; [by intros [-> _]|].
  intros (t1 & ra & t2 & H1 & H2 & ->)%runs_bind. apply follows_app.
  split; [eapply provisionStream_written; [done| |exact H1]; apply Hl, list_elem_of_here|].
  destruct ra as [[]|]; [|by destruct H2 as [-> _]]. apply IH; [by apply decided_more| |done].
  intros c' Hc'. by apply Hl, list_elem_of_further.
Qed.
End Written.

Lemma provisionBucket_quiet c : only no_upsert (provisionBucket kv_map replicas c).
Proof.
  unfold provisionBucket. apply only_fbind; [apply replicasFor_quiet|intros r]. apply only_bind; [by split|intros h].
  case_match; [exact I|]. apply only_bind; [by split|]. done.
Qed.
Lemma provisionObjects_quiet b : only no_upsert (provisionObjects object_map replicas b).
Proof.
  unfold provisionObjects. apply only_fbind; [apply replicasFor_quiet|intros r]. apply only_bind; [by split|intros h].
  case_match; [exact I|]. apply only_bind; [by split|]. done.
Qed.

(** The end of a run, once the count is known. *)
Lemma provision_rest want p past tr r :
  want < 2 ^ 63 -> decided want p past ->
  Runs (try! _ := each (provisionStream stream_map replicas) (streamConfigs n p) in
        try! _ := each (provisionBucket kv_map replicas) (kvConfigs n) in
        try! _ := each (provisionObjects object_map replicas) [nm_ObjectBlobs n; nm_ObjectArchive n] in ok p) tr r ->
  match r with Ok p' => p' = p | Err _ => True end /\ follows (well_written want) past tr.
Proof.
  intros Hw HD (t1 & r1 & t2 & H1 & H2 & ->)%runs_bind.
  assert (HF : follows (well_written want) past t1) by (by eapply streams_written).
  destruct r1 as [[]|e]; [|by destruct H2 as [-> <-]; rewrite app_nil_r].
  set (rest := fbind _ _) in H2. assert (only no_upsert rest) as HO.
  { apply only_fbind; [apply each_only, provisionBucket_quiet|intros _]. apply only_fbind; [apply each_only, provisionObjects_quiet|]. done. }
  split; [|apply follows_app; split; [done|]; by eapply quiet_written].
  destruct r as [p'|e]; [|done]. subst rest. run_ok H2. run_ok H2. by destruct H2 as [_ [= <-]].
Qed.

Lemma provision_follows want tr r :
  want < 2 ^ 63 -> Runs (provision want) tr r ->
  match r with Ok p => exists a, first_lookup tr = Some a /\ count_of want a = Some p | Err _ => True end /\
  follows (well_written want) [] tr.
Proof.
  intros Hw (t1 & v & t2 & H1 & H2 & ->)%runs_bind. apply runs_call in H1 as ->.
  apply runs_bind in H2 as (t3 & ck & t4 & [-> <-] & H4 & ->). rewrite app_nil_l.
  destruct (CheckServer v) as [[]|e]; [|by destruct H4 as [-> <-]].
  apply runs_bind in H4 as (t5 & cluster & t6 & H5 & H6 & ->).
  assert (HC : forall past, follows (well_written want) past t5)
    by (intros past; eapply quiet_written; [|exact H5]; destruct (1 <? _); [by split|exact I]).
  assert (HL : first_lookup ([{| x_call := ServerVersion; x_answer := v |}] ++ t5) = None).
  { destruct (1 <? _); [apply runs_call in H5 as ->|destruct H5 as [-> _]]; done. }
  destruct (String.eqb cluster ""); [destruct H6 as [-> <-]; split; [done|]; split; [done|]; rewrite app_nil_r; apply HC|].
  apply runs_bind in H6 as (t7 & p & t8 & H7 & H8 & ->). destruct (resolve_run _ _ _ H7) as (a & -> & HP).
  set (first := {| x_call := StreamLookup _; x_answer := a |}) in *.
  assert (Hfirst : first_lookup ([{| x_call := ServerVersion; x_answer := v |}] ++ t5 ++ [first]) = Some a).
  { rewrite app_assoc. unfold first_lookup in *. rewrite omap_app. destruct (omap cmd_lookup _); [|done].
    cbn. unfold cmd_lookup. cbn. by rewrite String.eqb_refl. }
  change (?x :: t5 ++ _) with ([x] ++ t5 ++ [first] ++ t8). 
  assert (HR : match p with Ok q => decided want q ([{| x_call := ServerVersion; x_answer := v |}] ++ t5 ++ [first]) | Err _ => True end)
    by (destruct p; [by exists a|done]).
  assert (HX : match r with Ok q => exists a, first_lookup (([{| x_call := ServerVersion; x_answer := v |}] ++ t5 ++ [first]) ++ t8) = Some a /\ count_of want a = Some q | Err _ => True end /\
    follows (well_written want) ([{| x_call := ServerVersion; x_answer := v |}] ++ t5 ++ [first]) t8).
  { destruct p as [p|e]; [|by destruct H8 as [-> <-]].
    apply (provision_rest want p ([{| x_call := ServerVersion; x_answer := v |}] ++ t5 ++ [first])) in H8 as [Hr Hu]; [|done|done].
    split; [|done]. destruct r; [|done]. subst. exists a. split; [by apply first_lookup_more|done]. }
  destruct HX as [HX1 HX2]. rewrite <- !app_assoc in HX1. split; [exact HX1|].
  do 3 (apply follows_app; split; [try apply HC; by split|]). rewrite app_nil_l, <- !app_assoc. exact HX2.
Qed.

(** C27. Whatever the server answers and however far provisioning gets:
    the partition count it goes on with is decided on the first answer about the
    command stream (the count deployed there, which the caller did not contradict,
    or, where there is no stream, the one asked for or the default), and every
    command stream it writes records that count; a stream is written only right
    after it was looked up, and was absent or lacked something wanted.  So the
    count of a stream that is written over is changed only if the stream looked up
    first was absent, or had another count: only when another process deployed it
    in between. *)
Theorem provision_keeps want tr r :
  want < 2 ^ 63 -> Runs (provision want) tr r ->
  match r with Ok p => exists a, first_lookup tr = Some a /\ count_of want a = Some p | Err _ => True end /\
  (forall before e after, tr = before ++ e :: after -> well_written want before e) /\
  (forall before c h a after,
     tr = before ++ {| x_call := StreamLookup (sc_Name c); x_answer := Ok (Some h) |} ::
                    {| x_call := StreamUpsert c; x_answer := a |} :: after ->
     sc_Name c = nm_StreamCmd n ->
     deployed c = deployed h \/ first_lookup tr = Some (Ok None) \/
       exists c0, first_lookup tr = Some (Ok (Some c0)) /\ deployed c0 <> deployed h).
Proof.
  intros Hw HR.
  assert (HF : match r with Ok p => exists a, first_lookup tr = Some a /\ count_of want a = Some p | Err _ => True end /\
    follows (well_written want) [] tr).
  { apply provision_follows; done. }
  destruct HF as [HP HF]. split; [done|]. assert (HW : forall before e after, tr = before ++ e :: after -> well_written want before e)
    by (intros before e after E; exact (follows_split _ [] _ _ _ _ HF E)).
  split; [exact HW|]. intros before c h a after E Hnm.
  assert (E' : tr = (before ++ [{| x_call := StreamLookup (sc_Name c); x_answer := Ok (Some h) |}]) ++
      {| x_call := StreamUpsert c; x_answer := a |} :: after) by (by rewrite <- app_assoc).
  destruct (HW _ _ _ E') as (_ & _ & _ & _ & HC). destruct (HC Hnm) as (a0 & Ha & [p Hp] & Hd).
  apply (first_lookup_more _ ({| x_call := StreamUpsert c; x_answer := a |} :: after)) in Ha. rewrite <- E' in Ha.
  rewrite Hp in Hd. destruct a0 as [[c0|]|]; [|by right; left|done].
  destruct (base.decide (deployed c0 = deployed h)) as [Hsame|Hne]; [left|right; right; by exists c0].
  cbn [count_of] in Hd. destruct (deployed c0) as [q|]; [|done]. cbn [mbind option_bind] in Hd.
  destruct (_ && _); [done|]. congruence.
Qed.
End ProvisionProps.
