(* ===== verification/Registry.v ===== *)
(** * The registry of flows ([internal/registry/registry.go], and of [flow/parse.go] [ParseJSON])

    Definitions are stored under "<name>.<hash>", created and never overwritten;
    "<name>.latest" holds the hash registered last.  A process remembers the
    definitions it parsed. *)

From S2P Require Import Prelude Json Hash GoStrings Names Expr Flow FlowValidate FlowValid FlowGraph Event Cmd CmdCodec Reduce State.
From S2P Require Import View Wire Codec NamesProps Server Projection IndexProps Sending EventLog Deliveries DispatchProps.

(** ** Parsing *)

(** [json.Unmarshal] of an encoded value into [any]: numbers become [float64], one
    out of range is an error. *)
Fixpoint unmarshal_any (j : Json) : option Json :=
  match j with
  | JNum n => let f := num_float n in if f_finite f then Some (JNum (NFloat f)) else None
  | JArr l =>
      (fix go (l : list Json) : option (list Json) :=
         match l with
         | [] => Some []
         | x :: l' => match unmarshal_any x, go l' with Some y, Some ys => Some (y :: ys) | _, _ => None end
         end) l ≫= fun l' => Some (JArr l')
  | JObj kvs =>
      (fix go (l : list (string * Json)) : option (list (string * Json)) :=
         match l with
         | [] => Some []
         | (k, x) :: l' => match unmarshal_any x, go l' with Some y, Some ys => Some ((k, y) :: ys) | _, _ => None end
         end) kvs ≫= fun kvs' => Some (JObj kvs')
  | _ => Some j
  end.

Definition jsonShape (v : Json) : Json := default v (marshal_any v ≫= unmarshal_any).

Definition set_n_OutputSchema (v : option Json) (n : Node) : Node := ltac:(assign Node_eta n n_OutputSchema v).
Definition set_f_Channels (v : gmap string Channel) (f : Flow) : Flow := ltac:(assign Flow_eta f f_Channels v).

(** [normalize]. *)
Definition normalize (f : Flow) : Flow :=
  f |> set_f_Nodes ((fun n => set_n_OutputSchema (jsonShape <$> n_OutputSchema n) n) <$> f_Nodes f)
    |> set_f_Channels ((fun c => {| ch_Reducer := ch_Reducer c; ch_Default := jsonShape <$> ch_Default c |}) <$> f_Channels f).

Section Registry.
Context `{Evaluator}.
Context (expr_Compile : string -> bool -> Text + list Op) (schema_Compile : Json -> option Text).
(** The strict JSON decoder of a definition, of [encoding/json]. *)
Context (decode_flow : string -> result Flow).

(** [Flow.Validate]: the definition, validated. *)
Definition validated (f : Flow) : result Flow :=
  match FlowValidate.Validate expr_Compile schema_Compile f with
  | Ok ([], f') => Ok f'
  | Ok (p :: _, _) => Err (plain (Sprintf "flow %s is invalid" [AStr (f_Name f)]))
  | Err e => Err e
  end.

Definition ParseJSON (data : string) : result Flow :=
  let? f := annotate "json: %w" (decode_flow data) in validated (normalize f).

(** [Flow.Clone]. *)
Definition CloneFlow (f : Flow) : result Flow :=
  match marshal_flow f with Some b => ParseJSON b | None => Err (plain "json: unsupported value") end.

(** ** Operations *)

Definition version_key (name hash : string) : string := name +:+ "." +:+ hash.
Definition latest : string := "latest".

Definition unknown_flow (t : Text) : error := Error [ErrUnknownFlow] t.

Definition RegisterFlow (def : Flow) : Prog (result string) :=
  try! def := lift (validated def) in
  match marshal_flow def with
  | None => failed (plain "json: unsupported value")
  | Some b =>
      let hash := Hash_of b in
      let key := version_key (f_Name def) hash in
      let! c := call (FlowCreate key b) in
      try! _ :=
        match c with
        | KeyCreated => ok tt
        | CreateError e => failed (wrapf "registry: store %s: %w" e)
        | KeyExists =>
            let! e := call (FlowEntry key) in
            lift (match e with
                  | Ok (Some b') => if String.eqb b' b then Ok tt
                                    else Err (plain (Sprintf "registry: %s exists with different content (hash collision)" [AStr key]))
                  | _ => Ok tt
                  end)
        end in
      let! p := call (FlowPut (version_key (f_Name def) latest) hash) in
      try! _ := lift (annotate "registry: set latest %s: %w" p) in
      ok hash
  end.

Definition LatestFlow (name : string) : Prog (result string) :=
  try! e := call (FlowEntry (version_key name latest)) in
  lift (match e with Some h => Ok h | None => Err (unknown_flow (Sprintf "%w: %s" [AStr name])) end).

Definition GetFlow (name hash : string) : Prog (result Flow) :=
  try! hash := (if String.eqb hash "" then LatestFlow name else ok hash) in
  let key := version_key name hash in
  let! c := call (FlowCached key) in
  match c with
  | Some def => ok def
  | None =>
      try! e := call (FlowEntry key) in
      match e with
      | None => failed (unknown_flow (Sprintf "%w: %s@%s" [AStr name; AStr hash]))
      | Some b =>
          try! def := lift (annotate "registry: %s: %w" (ParseJSON b)) in
          let! _ := call (FlowRemember key def) in
          ok def
      end
  end.

(** [List]: every version, by name and hash. *)
Record Version := { vn_Name : string; vn_Hash : string; vn_Latest : bool }.

(** [strings.Cut] at the first dot. *)
Fixpoint CutDot (s : string) : string * string :=
  match s with
  | EmptyString => ("", "")
  | String a s' => if Ascii.eqb a (ascii_of 46) then ("", s') else let '(x, y) := CutDot s' in (String a x, y)
  end.

Fixpoint list_keys (keys : list string) (latestOf : gmap string string) (all : list (string * string)) : Prog (gmap string string * list (string * string)) :=
  match keys with
  | [] => Ret (latestOf, all)
  | k :: keys =>
      let '(name, rest) := CutDot k in
      if String.eqb rest latest then
        let! e := call (FlowEntry k) in
        list_keys keys (match e with Ok (Some h) => <[name := h]> latestOf | _ => latestOf end) all
      else list_keys keys latestOf (all ++ [(name, rest)])
  end.

Definition version_le (a b : Version) : bool :=
  if String.eqb (vn_Name a) (vn_Name b) then String.leb (vn_Hash a) (vn_Hash b) else String.leb (vn_Name a) (vn_Name b).
Fixpoint insert_version (v : Version) (l : list Version) : list Version :=
  match l with
  | [] => [v]
  | w :: l' => if version_le v w then v :: l else w :: insert_version v l'
  end.

Definition ListFlows : Prog (result (list Version)) :=
  try! keys := call FlowKeys in
  let! (latestOf, all) := list_keys keys ∅ [] in
  ok (foldr insert_version [] ((fun nh => {| vn_Name := fst nh; vn_Hash := snd nh;
        vn_Latest := String.eqb (default "" (latestOf !! fst nh)) (snd nh) |}) <$> all)).
End Registry.

(** ** Registered versions never change

    Any number of processes register and read flows, call by call, against a
    bucket whose reads may be stale and whose writes may be stored and still
    reported as failed. *)

(** *** Keys *)

Definition ell : Ascii.ascii := ascii_of 108.

Lemma hex_digit_not_l i : ell ∉ String.list_ascii_of_string (char_at "0123456789abcdef" i).
Proof.
  unfold char_at. assert (HC : forall n, match String.get n "0123456789abcdef" with Some a => a <> ell | None => True end).
  { intros n. do 16 (destruct n as [|n]; [done|]). by destruct n. }
  specialize (HC (Z.to_nat i)). revert HC. destruct (String.get _ _) as [a|]; intros HC; [|by apply not_elem_of_nil].
  cbn. apply not_elem_of_cons. split; [intros E; by destruct HC|apply not_elem_of_nil].
Qed.

Lemma hash_not_latest b : Hash_of b <> latest.
Proof.
  assert (HL : forall bs, ell ∉ String.list_ascii_of_string (hex bs)).
  { intros bs. induction bs as [|x bs IH]; [by apply not_elem_of_nil|]. unfold hex. cbn [foldr].
    rewrite !list_ascii_app, !not_elem_of_app. auto using hex_digit_not_l. }
  intros E. apply (HL (take 8 (sha256 (bytes_of b)))). fold (Hash_of b). rewrite E. cbn. apply list_elem_of_here.
Qed.

Lemma hash_no_dot b : dot ∉ String.list_ascii_of_string (Hash_of b).
Proof.
  unfold Hash_of. generalize (take 8 (sha256 (bytes_of b))) as bs. intros bs. induction bs as [|x bs IH]; [by apply not_elem_of_nil|].
  unfold hex. cbn [foldr]. rewrite !list_ascii_app, !not_elem_of_app. auto using hex_digit_no_dot.
Qed.

(** A separator that occurs once splits a list in one way. *)
Lemma one_sep {A} (x : A) l1 d1 l2 d2 : l1 ++ x :: d1 = l2 ++ x :: d2 -> x ∉ l2 -> x ∉ d2 -> l1 = l2 /\ d1 = d2.
Proof.
  revert l2. induction l1 as [|a l1 IH]; intros [|b l2] E Hl Hd; cbn in E.
  - by injection E as ->.
  - injection E as -> ->. by apply not_elem_of_cons in Hl as [? _].
  - injection E as -> E. exfalso. apply Hd. rewrite <- E. apply elem_of_app. right. apply list_elem_of_here.
  - injection E as -> E. apply not_elem_of_cons in Hl as [_ Hl]. by destruct (IH _ E Hl Hd) as [-> ->].
Qed.

Lemma version_key_inj n1 h1 n2 h2 :
  ValidToken n2 = true -> dot ∉ String.list_ascii_of_string h2 -> version_key n1 h1 = version_key n2 h2 -> n1 = n2 /\ h1 = h2.
Proof.
  intros Hn%token_no_dot Hh E. apply (f_equal String.list_ascii_of_string) in E. unfold version_key in E. rewrite !list_ascii_app in E.
  cbn in E. destruct (one_sep _ _ _ _ _ E Hn Hh) as [E1 E2]. split; by apply (f_equal String.string_of_list_ascii) in E1, E2;
    rewrite !String.string_of_list_ascii_of_string in E1, E2.
Qed.

Section RegistryProps.
Context `{Evaluator}.
Context (expr_Compile : string -> bool -> Text + list Op) (schema_Compile : Json -> option Text).
Context (decode_flow : string -> result Flow).
Abbreviation parse := (ParseJSON expr_Compile schema_Compile decode_flow).

(** ** The system *)

(** What a process asks of the registry, and what it gets. *)
Inductive RegTask :=
| TRegister (def : Flow)
| TGet (name hash : string).
Inductive RegDone :=
| Registered (r : result string)
| Fetched (r : result Flow).

Definition reg_prog (t : RegTask) : Prog RegDone :=
  match t with
  | TRegister def => let! r := RegisterFlow expr_Compile schema_Compile def in Ret (Registered r)
  | TGet name hash => let! r := GetFlow expr_Compile schema_Compile decode_flow name hash in Ret (Fetched r)
  end.

(** Every write to the bucket so far; what each process remembers; the tasks, each
    of a process, and what is left of them. *)
Abbreviation Writes := (list (string * string)).
Record RegSystem := { rg_writes : Writes; rg_memory : gmap (nat * string) Flow; rg_tasks : list (nat * RegTask * Prog RegDone) }.

(** The answers to a call of process [pid], with the writes and memories after it:
    a key is created at most once; a write that fails may be stored all the same;
    a read finds a value the key once had, or nothing. *)
Definition reg_answers (pid : nat) (ws : Writes) (mem : gmap (nat * string) Flow) (c : Call) :
    Answer c -> Writes -> gmap (nat * string) Flow -> Prop :=
  match c with
  | FlowCreate k b => fun r ws' mem' => mem' = mem /\
      ((exists v, (k, v) ∈ ws) /\ ws' = ws /\ r <> KeyCreated \/
       (forall v, (k, v) ∉ ws) /\ r <> KeyExists /\ (ws' = ws ++ [(k, b)] \/ ws' = ws /\ r <> KeyCreated))
  | FlowPut k v => fun r ws' mem' => mem' = mem /\ (ws' = ws ++ [(k, v)] \/ ws' = ws /\ r <> Ok tt)
  | FlowEntry k => fun r ws' mem' => mem' = mem /\ ws' = ws /\ forall v, r = Ok (Some v) -> (k, v) ∈ ws
  | FlowCached k => fun r ws' mem' => mem' = mem /\ ws' = ws /\ r = mem !! (pid, k)
  | FlowRemember k def => fun r ws' mem' => mem' = <[(pid, k) := def]> mem /\ ws' = ws
  | _ => fun _ _ _ => False
  end.

Inductive reg_step (s : RegSystem) : RegSystem -> Prop :=
| reg_start pid t :
    reg_step s {| rg_writes := rg_writes s; rg_memory := rg_memory s; rg_tasks := rg_tasks s ++ [(pid, t, reg_prog t)] |}
| reg_call i pid t c k r ws mem :
    rg_tasks s !! i = Some (pid, t, Do c k) -> reg_answers pid (rg_writes s) (rg_memory s) c r ws mem ->
    reg_step s {| rg_writes := ws; rg_memory := mem; rg_tasks := <[i := (pid, t, k r)]> (rg_tasks s) |}.

Definition reg_initial : RegSystem := {| rg_writes := []; rg_memory := ∅; rg_tasks := [] |}.
Definition reg_reached (s : RegSystem) : Prop := rtc reg_step reg_initial s.

(** ** Invariant *)

(** [b] is the text of a version of [name]. *)
Definition version_of (name b : string) (ws : Writes) : Prop := (version_key name (Hash_of b), b) ∈ ws.

(** The text of a definition of that name. *)
Definition text_of (name b : string) : Prop := exists def, f_Name def = name /\ marshal_flow def = Some b.

(** A write is the text of a version under its own hash, or the hash of one under
    the key of the latest. *)
Definition write_ok (ws : Writes) (w : string * string) : Prop :=
  exists name, ValidToken name = true /\
    (fst w = version_key name (Hash_of (snd w)) /\ text_of name (snd w) \/
     fst w = version_key name latest /\ exists b, snd w = Hash_of b /\ version_of name b ws).

Record RegInv (ws : Writes) (mem : gmap (nat * string) Flow) : Prop := {
  rv_writes : forall w, w ∈ ws -> write_ok ws w;
  rv_once : forall k v v' name h, k = version_key name h -> h <> latest -> (k, v) ∈ ws -> (k, v') ∈ ws -> v = v';
  rv_memory : forall pid k def, mem !! (pid, k) = Some def -> exists v, (k, v) ∈ ws /\ parse v = Ok def }.

(** What a completed task rests on. *)
Definition reg_post (t : RegTask) (ws : Writes) (d : RegDone) : Prop :=
  match t, d with
  | TRegister _, Registered (Ok h) => exists name b, h = Hash_of b /\ version_of name b ws /\ (version_key name latest, h) ∈ ws
  | TGet name hash, Fetched (Ok def) => exists h v, (hash = "" \/ h = hash) /\ (version_key name h, v) ∈ ws /\ parse v = Ok def
  | _, _ => True
  end.

(** [p] writes to the registry only what the invariant allows, and ends with the
    promise of its task, whatever the others do meanwhile. *)
Fixpoint proper (t : RegTask) (ws : Writes) (p : Prog RegDone) : Prop :=
  match p with
  | Ret d => reg_post t ws d
  | Do c k =>
      match c with
      | FlowCreate key b => exists name, ValidToken name = true /\ key = version_key name (Hash_of b) /\ text_of name b
      | FlowPut key v => exists name b, ValidToken name = true /\ key = version_key name latest /\ v = Hash_of b /\ version_of name b ws
      | FlowRemember key def => exists v, (key, v) ∈ ws /\ parse v = Ok def
      | _ => True
      end /\
      forall ws1 mem pid r ws2 mem2, ws ⊆ ws1 -> RegInv ws1 mem -> reg_answers pid ws1 mem c r ws2 mem2 -> proper t ws2 (k r)
  end.

Lemma post_grown t ws ws' d : ws ⊆ ws' -> reg_post t ws d -> reg_post t ws' d.
Proof.
  intros Hs. destruct t as [def|name hash], d as [[h|]|[f|]]; try done; cbn.
  - intros (nm & b & Hh & Hv & Hl). exists nm, b. split; [done|]. split; by apply Hs.
  - intros (h & v & Hh & Hv & Hp). exists h, v. split; [done|]. split; [by apply Hs|done].
Qed.

Lemma proper_grown t ws ws' p : ws ⊆ ws' -> proper t ws p -> proper t ws' p.
Proof.
  intros Hs. destruct p as [d|c k]; cbn; [by apply post_grown|]. intros [Hc Hk]. split.
  - destruct c; try done.
    + destruct Hc as (nm & b & Hn & Hk' & Hv & Hb). exists nm, b. split_and!; try done. by apply Hs.
    + destruct Hc as (v & Hv & Hp). exists v. split; [by apply Hs|done].
  - intros ws1 mem pid r ws2 mem2 Hs1. apply Hk. by etrans.
Qed.

Lemma answers_grown_reg pid ws mem c r ws' mem' : reg_answers pid ws mem c r ws' mem' -> ws ⊆ ws'.
Proof.
  destruct c; try done; cbn.
  - intros [_ [(_ & -> & _)|(_ & _ & [->|[-> _]])]]; set_solver.
  - by intros (_ & -> & _).
  - intros [_ [->|[-> _]]]; set_solver.
  - by intros (_ & -> & _).
  - by intros [_ ->].
Qed.

Lemma write_ok_grown ws ws' w : ws ⊆ ws' -> write_ok ws w -> write_ok ws' w.
Proof.
  intros Hs (nm & Hn & Hw). exists nm. split; [done|]. destruct Hw as [Hw|(Hw & b & Hb & Hv)]; [by left|].
  right. split; [done|]. exists b. split; [done|by apply Hs].
Qed.

Lemma latest_no_dot : dot ∉ String.list_ascii_of_string latest.
Proof. by apply token_no_dot. Qed.

(** What the invariant needs of one more write. *)
Lemma inv_write ws mem w : RegInv ws mem -> write_ok (ws ++ [w]) w ->
  ((forall v, (fst w, v) ∉ ws) \/ exists name, ValidToken name = true /\ fst w = version_key name latest) -> RegInv (ws ++ [w]) mem.
Proof.
  intros [HW HO HM] Hw Hnew. assert (Hs : ws ⊆ ws ++ [w]) by set_solver. constructor.
  - intros w' [Hin|Hin%list_elem_of_singleton]%elem_of_app; [eapply write_ok_grown; [exact Hs|by apply HW]|by subst].
  - intros k v v' name h Hk Hh. rewrite !elem_of_app, !list_elem_of_singleton.
    assert (HN : forall v, w = (k, v) -> forall v', (k, v') ∈ ws -> False).
    { intros u -> u' Hu. destruct Hnew as [Hnew|(nm & Hn & E)]; [by apply (Hnew u')|]. cbn in E. apply Hh.
      rewrite Hk in E. by destruct (version_key_inj _ _ _ _ Hn latest_no_dot E). }
    intros [H1|H1] [H2|H2]; [by eapply HO|by destruct (HN v' (eq_sym H2) v H1)|by destruct (HN v (eq_sym H1) v' H2)|congruence].
  - intros pid k def Hm. destruct (HM _ _ _ Hm) as (v & Hv & Hp). exists v. split; [by apply Hs|done].
Qed.

Lemma step_inv_reg t pid ws mem c (k : Answer c -> Prog RegDone) r ws' mem' :
  RegInv ws mem -> proper t ws (Do c k) -> reg_answers pid ws mem c r ws' mem' -> RegInv ws' mem'.
Proof.
  intros HI [Hc _]. destruct c; try done; cbn.
  - destruct Hc as (nm & Hn & -> & Ht). intros [-> [(_ & -> & _)|(Hno & _ & [->|[-> _]])]]; try done.
    apply inv_write; [done| |by left]. exists nm. split; [done|]. by left.
  - by intros (-> & -> & _).
  - destruct Hc as (nm & b & Hn & -> & -> & Hv). intros [-> [->|[-> _]]]; [|done].
    apply inv_write; [done| |right; by exists nm]. exists nm. split; [done|]. right. split; [done|]. exists b. split; [done|].
    apply elem_of_app. by left.
  - by intros (-> & -> & _).
  - intros [-> ->]. destruct HI as [HW HO HM]. constructor; [done|done|]. intros pid' k' def'. destruct (decide ((pid', k') = (pid, key))) as [[= -> ->]|Hne].
    + rewrite lookup_insert_eq. intros [= <-]. exact Hc.
    + rewrite lookup_insert_ne by congruence. apply HM.
Qed.

(** *** The operations *)

Lemma version_stored ws mem name b v :
  ValidToken name = true -> RegInv ws mem -> (version_key name (Hash_of b), v) ∈ ws -> Hash_of v = Hash_of b /\ version_of name v ws.
Proof.
  intros Hn HI Hv. destruct (rv_writes _ _ HI _ Hv) as (nm & Hnm & [[E _]|[E _]]); cbn in E.
  - destruct (version_key_inj _ _ _ _ Hnm (hash_no_dot v) E) as [-> Eh]. split; [done|]. unfold version_of. by rewrite <- Eh.
  - destruct (version_key_inj _ _ _ _ Hnm latest_no_dot E) as [_ Eh]. by destruct (hash_not_latest b).
Qed.

Lemma put_proper def ws name b :
  ValidToken name = true -> version_of name b ws ->
  proper (TRegister def) ws
    (let! r := (let! p := call (FlowPut (version_key name latest) (Hash_of b)) in
                try! _ := lift (annotate "registry: set latest %s: %w" p) in ok (Hash_of b)) in Ret (Registered r)).
Proof.
  intros Hn Hv. split; [by exists name, b|]. intros ws1 mem pid r ws2 mem2 Hs HI HA. destruct r as [[]|e]; [|done].
  exists name, b. split; [done|]. destruct HA as [_ HA]. split.
  - destruct HA as [->|[-> _]]; [apply elem_of_app; left|]; by apply Hs.
  - destruct HA as [->|[_ ?]]; [|done]. apply elem_of_app. right. apply list_elem_of_here.
Qed.

Lemma register_proper def ws : proper (TRegister def) ws (reg_prog (TRegister def)).
Proof.
  cbn [reg_prog]. unfold RegisterFlow. destruct (validated _ _ def) as [def'|e] eqn:EV; [|done].
  assert (Hn : ValidToken (f_Name def') = true).
  { unfold validated in EV. destruct (FlowValidate.Validate _ _ def) as [[[|p ps] f']|e] eqn:E; try done. injection EV as ->.
    by apply Validate_valid in E as []. }
  cbn [lift fbind pbind]. destruct (marshal_flow def') as [b|] eqn:Eb; [|done].
  split; [exists (f_Name def'); split_and!; [done|done|by exists def']|].
  intros ws1 mem pid r ws2 mem2 Hs HI HA. destruct r as [| |e]; [| |done].
  - apply put_proper; [done|]. destruct HA as [_ [(_ & _ & ?)|(_ & _ & [->|[_ ?]])]]; try done.
    apply elem_of_app. right. apply list_elem_of_here.
  - destruct HA as [-> [((v & Hv) & -> & _)|(_ & ? & _)]]; [|done]. destruct (version_stored _ _ _ _ _ Hn HI Hv) as [Eh Hvv].
    split; [done|]. intros ws3 mem3 pid3 r3 ws4 mem4 Hs3 HI3 (-> & -> & _). rewrite <- Eh.
    assert (HP : proper (TRegister def) ws3
      (let! r := (let! p := call (FlowPut (version_key (f_Name def') latest) (Hash_of v)) in
                  try! _ := lift (annotate "registry: set latest %s: %w" p) in ok (Hash_of v)) in Ret (Registered r)))
      by (apply put_proper; [done|by apply Hs3]).
    destruct r3 as [[b'|]|e]; try exact HP. cbn [lift pbind]. by destruct (String.eqb b' b).
Qed.

(** [GetFlow], once the hash is known. *)
Definition fetch_version (name hash : string) : Prog (result Flow) :=
  let key := version_key name hash in
  let! c := call (FlowCached key) in
  match c with
  | Some def => ok def
  | None =>
      try! e := call (FlowEntry key) in
      match e with
      | None => failed (unknown_flow (Sprintf "%w: %s@%s" [AStr name; AStr hash]))
      | Some b =>
          try! def := lift (annotate "registry: %s: %w" (parse b)) in
          let! _ := call (FlowRemember key def) in
          ok def
      end
  end.

Lemma fetch_proper name hash h ws : hash = "" \/ h = hash ->
  proper (TGet name hash) ws (let! r := fetch_version name h in Ret (Fetched r)).
Proof.
  intros Hh. split; [done|]. intros ws1 mem pid r ws2 mem2 _ HI (-> & -> & ->). destruct (mem !! (pid, _)) as [def|] eqn:Em.
  - destruct (rv_memory _ _ HI _ _ _ Em) as (v & Hv & Hp). by exists h, v.
  - split; [done|]. intros ws3 mem3 pid3 r ws4 mem4 Hs3 HI3 (-> & -> & Hr). destruct r as [[b|]|e]; [|done|done].
    specialize (Hr _ eq_refl). cbn [pbind lift fbind]. destruct (parse b) as [def|e] eqn:Ep; [|done]. split; [by exists b|].
    intros ws5 mem5 pid5 r ws6 mem6 Hs5 HI5 [-> ->]. exists h, b. split; [done|]. split; [by apply Hs5|done].
Qed.

Lemma get_proper name hash ws : proper (TGet name hash) ws (reg_prog (TGet name hash)).
Proof.
  cbn [reg_prog]. unfold GetFlow. destruct (String.eqb_spec hash "") as [->|Hne].
  - split; [done|]. intros ws1 mem pid r ws2 mem2 _ HI (-> & -> & Hr). destruct r as [[h|]|e]; [|done|done].
    apply (fetch_proper name "" h). by left.
  - apply (fetch_proper name hash hash). by right.
Qed.

Lemma reg_reached_inv s : reg_reached s -> RegInv (rg_writes s) (rg_memory s) /\ Forall (fun tp => proper (snd (fst tp)) (rg_writes s) (snd tp)) (rg_tasks s).
Proof.
  unfold reg_reached. intros HR. remember reg_initial as s0 eqn:E0.
  assert (HI : RegInv (rg_writes s0) (rg_memory s0) /\ Forall (fun tp => proper (snd (fst tp)) (rg_writes s0) (snd tp)) (rg_tasks s0)).
  { subst s0. split; [|constructor]. constructor; cbn; [by intros w ?%not_elem_of_nil|by intros ? ? ? ? ? _ _ ?%not_elem_of_nil|].
    intros pid k def. by rewrite lookup_empty. }
  clear E0. induction HR as [s|s s1 s2 HS HR IH]; [done|]. apply IH. destruct HI as [HI HF]. destruct HS as [pid t|i pid t c k r ws mem Hi HA]; cbn.
  - split; [done|]. apply Forall_app. split; [done|]. constructor; [|constructor]. destruct t; [apply register_proper|apply get_proper].
  - pose proof HF as HF'. rewrite Forall_lookup in HF'. specialize (HF' _ _ Hi). cbn in HF'. split; [by eapply step_inv_reg|].
    pose proof (answers_grown_reg _ _ _ _ _ _ _ HA) as Hs. apply Forall_insert.
    + eapply Forall_impl; [exact HF|]. intros [[pid' t'] p]. by apply proper_grown.
    + eapply (proj2 HF'); [reflexivity|exact HI|exact HA].
Qed.

(** A step of the task started last. *)
Lemma reg_last s s' ts pid t c k r ws mem :
  rg_tasks s = ts ++ [(pid, t, Do c k)] -> reg_answers pid (rg_writes s) (rg_memory s) c r ws mem ->
  s' = {| rg_writes := ws; rg_memory := mem; rg_tasks := ts ++ [(pid, t, k r)] |} -> reg_step s s'.
Proof.
  intros HT HA ->. assert (HL : rg_tasks s !! length ts = Some (pid, t, Do c k)) by (rewrite HT; by apply list_lookup_middle).
  pose proof (reg_call s (length ts) pid t c k r ws mem HL HA) as HS.
  rewrite HT, insert_app_r_alt, Nat.sub_diag in HS by done. exact HS.
Qed.

(** A registration on an empty bucket goes through. *)
Lemma register_reached def def' b :
  validated expr_Compile schema_Compile def = Ok def' -> marshal_flow def' = Some b ->
  reg_reached {|
    rg_writes := [(version_key (f_Name def') (Hash_of b), b); (version_key (f_Name def') latest, Hash_of b)]; rg_memory := ∅;
    rg_tasks := [(0%nat, TRegister def, Ret (Registered (Ok (Hash_of b))))] |}.
Proof.
  intros Hv Hb. set (k := fun c => let! r := (try! _ := match c with
        | KeyCreated => ok tt
        | CreateError e => failed (wrapf "registry: store %s: %w" e)
        | KeyExists =>
            let! e := call (FlowEntry (version_key (f_Name def') (Hash_of b))) in
            lift (match e with
                  | Ok (Some b') => if String.eqb b' b then Ok tt
                                    else Err (plain (Sprintf "registry: %s exists with different content (hash collision)" [AStr (version_key (f_Name def') (Hash_of b))]))
                  | _ => Ok tt
                  end)
        end in
      let! p := call (FlowPut (version_key (f_Name def') latest) (Hash_of b)) in
      try! _ := lift (annotate "registry: set latest %s: %w" p) in ok (Hash_of b)) in Ret (Registered r)).
  assert (HP : reg_prog (TRegister def) = Do (FlowCreate (version_key (f_Name def') (Hash_of b)) b) k).
  { cbn [reg_prog]. unfold RegisterFlow. rewrite Hv. cbn [lift fbind pbind]. by rewrite Hb. }
  eapply rtc_l; [apply (reg_start reg_initial 0 (TRegister def))|]. rewrite HP.
  eapply rtc_l; [eapply (reg_last _ _ [] 0 (TRegister def) (FlowCreate (version_key (f_Name def') (Hash_of b)) b) k KeyCreated
                           [(version_key (f_Name def') (Hash_of b), b)] ∅); [reflexivity| |reflexivity]|].
  { split; [done|]. right. split; [intros v; apply not_elem_of_nil|]. split; [done|]. by left. }
  eapply rtc_l; [|apply rtc_refl].
  eapply (reg_last _ _ [] 0 (TRegister def) (FlowPut (version_key (f_Name def') latest) (Hash_of b)) _ (Ok tt)); [reflexivity| |reflexivity].
  split; [done|]. by left.
Qed.

(** A version that is stored is fetched by a process that does not remember it. *)
Lemma fetch_reached s pid name h v def :
  reg_reached s -> (version_key name h, v) ∈ rg_writes s -> rg_memory s !! (pid, version_key name h) = None -> h <> "" -> parse v = Ok def ->
  reg_reached {| rg_writes := rg_writes s; rg_memory := <[(pid, version_key name h) := def]> (rg_memory s);
    rg_tasks := rg_tasks s ++ [(pid, TGet name h, Ret (Fetched (Ok def)))] |}.
Proof.
  intros HR Hv Hm Hh Hp.
  assert (HG : reg_prog (TGet name h) = let! r := fetch_version name h in Ret (Fetched r)).
  { cbn [reg_prog]. unfold GetFlow. by rewrite (proj2 (String.eqb_neq _ _) Hh). }
  eapply rtc_r; [eapply rtc_r; [eapply rtc_r; [eapply rtc_r; [exact HR|apply (reg_start s pid (TGet name h))]|]|]|].
  - rewrite HG. eapply (reg_last _ _ (rg_tasks s) pid _ (FlowCached _) _ None); [reflexivity|split_and!; [reflexivity|reflexivity|exact (eq_sym Hm)]|reflexivity].
  - eapply (reg_last _ _ (rg_tasks s) pid _ (FlowEntry _) _ (Ok (Some v))); [reflexivity| |reflexivity].
    split_and!; [done|done|]. by intros ? [= <-].
  - cbn [fbind pbind lift]. rewrite Hp. eapply (reg_last _ _ (rg_tasks s) pid _ (FlowRemember _ _) _ tt); [reflexivity|by split|reflexivity].
Qed.

(** *** Definitions read back *)

(** What [encoding/json] promises of definitions: fields that are not exported are
    not written; what was written reads back as a definition of the same name that
    writes the same text; and what was read into an [any] reads back as itself. *)
Record FlowJson : Prop := {
  fj_public f : marshal_flow (public f) = marshal_flow f;
  fj_roundtrip f b : marshal_flow f = Some b -> exists g, decode_flow b = Ok g /\ f_Name g = f_Name f /\ marshal_flow g = Some b;
  fj_schemas b g : decode_flow b = Ok g -> Forall (fun n => jsonShape <$> n_OutputSchema n = n_OutputSchema n) (f_Nodes g);
  fj_defaults b g : decode_flow b = Ok g -> map_Forall (fun _ c => jsonShape <$> ch_Default c = ch_Default c) (f_Channels g) }.

Lemma validated_inv f f' : validated expr_Compile schema_Compile f = Ok f' -> valid f' /\ public f' = public f.
Proof.
  unfold validated. destruct (FlowValidate.Validate _ _ f) as [[[|p ps] g]|e] eqn:E; try done. intros [= <-].
  split; [by eapply Validate_valid|by eapply Validate_public].
Qed.

Lemma parse_inv v def : parse v = Ok def -> exists g, decode_flow v = Ok g /\ validated expr_Compile schema_Compile (normalize g) = Ok def.
Proof. unfold ParseJSON. intros (g & Hg & HV)%res_bind_ok. exists g. split; [by destruct (decode_flow v)|done]. Qed.

Lemma parse_valid v def : parse v = Ok def -> valid def.
Proof. intros (g & _ & HV)%parse_inv. by apply validated_inv in HV as [? _]. Qed.

Lemma normalize_same f :
  Forall (fun n => jsonShape <$> n_OutputSchema n = n_OutputSchema n) (f_Nodes f) ->
  map_Forall (fun _ c => jsonShape <$> ch_Default c = ch_Default c) (f_Channels f) -> normalize f = f.
Proof.
  intros HN HC. unfold normalize.
  assert (EN : (fun n => set_n_OutputSchema (jsonShape <$> n_OutputSchema n) n) <$> f_Nodes f = f_Nodes f).
  { etrans; [|apply list_fmap_id]. apply Forall_fmap_ext_1. eapply Forall_impl; [exact HN|]. intros n. cbn. intros ->. by destruct n. }
  assert (EC : (fun c => {| ch_Reducer := ch_Reducer c; ch_Default := jsonShape <$> ch_Default c |}) <$> f_Channels f = f_Channels f).
  { apply map_eq. intros k. rewrite lookup_fmap. destruct (f_Channels f !! k) as [c|] eqn:E; [|done]. cbn. rewrite (HC _ _ E). by destruct c. }
  rewrite EN. cbn [set_f_Nodes f_Channels]. rewrite EC. by destruct f.
Qed.

(** A definition parsed from the text of a version is that version. *)
Lemma version_identity ws mem name h v def :
  FlowJson -> RegInv ws mem -> h <> latest -> (version_key name h, v) ∈ ws -> parse v = Ok def -> f_Name def = name /\ FlowHash def = Ok h.
Proof.
  intros HJ HI Hl Hv (g & Hg & [_ HP]%validated_inv)%parse_inv.
  rewrite normalize_same in HP; [|by eapply fj_schemas|by eapply fj_defaults].
  destruct (rv_writes _ _ HI _ Hv) as (nm & Hn & [[E (d0 & <- & Hm)]|[E _]]); cbn in *.
  2: by destruct (version_key_inj _ _ _ _ Hn latest_no_dot E).
  destruct (version_key_inj _ _ _ _ Hn (hash_no_dot v) E) as [-> ->]. destruct (fj_roundtrip HJ _ _ Hm) as (g' & Hg' & En & Eg).
  assert (g' = g) as -> by congruence. split.
  - etrans; [|exact En]. change (f_Name (public def) = f_Name (public g)). by rewrite HP.
  - unfold FlowHash. by rewrite <- (fj_public HJ def), HP, (fj_public HJ), Eg.
Qed.

(** C25. However many processes register and read flows: the text
    stored under a name and hash is one and the same for ever and has that hash;
    the hash named as the latest of a flow is that of a stored version; a
    registration that succeeded stored its version and named it the latest; and
    two reads of a version, by any processes at any time, give the same
    definition, the one parsed from that text, which is valid and, where
    [encoding/json] reads back what it wrote, has the name and the hash asked for. *)
Theorem versions_immutable s name h :
  reg_reached s -> h <> latest -> h <> "" ->
  (forall v v', (version_key name h, v) ∈ rg_writes s -> (version_key name h, v') ∈ rg_writes s -> v = v' /\ Hash_of v = h) /\
  (forall g, (version_key name latest, g) ∈ rg_writes s -> exists b, g = Hash_of b /\ (version_key name g, b) ∈ rg_writes s) /\
  (forall pid def g, (pid, TRegister def, Ret (Registered (Ok g))) ∈ rg_tasks s ->
    exists nm b, g = Hash_of b /\ (version_key nm g, b) ∈ rg_writes s /\ (version_key nm latest, g) ∈ rg_writes s) /\
  (forall pid def pid' def', (pid, TGet name h, Ret (Fetched (Ok def))) ∈ rg_tasks s ->
    (pid', TGet name h, Ret (Fetched (Ok def'))) ∈ rg_tasks s ->
    def = def' /\ valid def /\ (FlowJson -> f_Name def = name /\ FlowHash def = Ok h) /\
    exists v, (version_key name h, v) ∈ rg_writes s /\ parse v = Ok def).
Proof.
  intros [HI HF]%reg_reached_inv Hl Hne. rewrite Forall_forall in HF.
  assert (HO : forall v v', (version_key name h, v) ∈ rg_writes s -> (version_key name h, v') ∈ rg_writes s -> v = v')
    by (intros v v'; by apply (rv_once _ _ HI _ v v' name h)).
  assert (HG : forall pid def, (pid, TGet name h, Ret (Fetched (Ok def))) ∈ rg_tasks s ->
    exists v, (version_key name h, v) ∈ rg_writes s /\ parse v = Ok def).
  { intros pid def Hin. apply HF in Hin as (h' & v & [?| ->] & Hv & Hp); [done|]. by exists v. }
  split_and!.
  - intros v v' Hv Hv'. split; [by apply HO|]. destruct (rv_writes _ _ HI _ Hv) as (nm & Hn & [[E _]|[E _]]); cbn in E.
    + by destruct (version_key_inj _ _ _ _ Hn (hash_no_dot v) E) as [_ ->].
    + by destruct (version_key_inj _ _ _ _ Hn latest_no_dot E) as [_ ?].
  - intros g Hg. destruct (rv_writes _ _ HI _ Hg) as (nm & Hn & [[E _]|(E & b & Eb & Hb)]); cbn in E.
    + destruct (version_key_inj _ _ _ _ Hn (hash_no_dot g) E) as [_ E']. by destruct (hash_not_latest g).
    + destruct (version_key_inj _ _ _ _ Hn latest_no_dot E) as [-> _]. cbn in Eb. exists b. split; [done|]. by rewrite Eb.
  - intros pid def g Hin. apply HF in Hin as (nm & b & -> & Hv & Hlt). by exists nm, b.
  - intros pid def pid' def' H1 H2. destruct (HG _ _ H1) as (v & Hv & Hp). destruct (HG _ _ H2) as (v' & Hv' & Hp').
    rewrite (HO _ _ Hv' Hv), Hp in Hp'. split_and!; [congruence|by eapply parse_valid| |by exists v].
    intros HJ. by apply (version_identity _ _ name h v def HJ HI Hl Hv Hp).
Qed.
End RegistryProps.
