(* ===== verification/Client.v ===== *)
(** * The client ([client.go], [client_more.go], and of [options.go] the encoding of arguments)

    Starting, driving, forking and reading executions: programs that publish
    commands, wait for the engine's reply and read the log. *)

From S2P Require Import Prelude Json Hash GoStrings Names Flow FlowValidate Event Cmd CmdCodec Reduce State View Wire Cron Decide Codec.
From S2P Require Import Server Projection Sending EventLog Loader Engine Triggers Worker.

(** ** Arguments *)

Definition invalid (t : Text) : error := Error [ErrInvalidArgument] (Sprintf "%w: %w" [AText t]).
Definition no_execution (x : string) : error := Error [ErrMissing] (Sprintf "%w: %s" [AStr x]).

(** [checkExecID], [ValidateName]. *)
Definition ValidateName (what s : string) : result unit :=
  match CheckToken what s with Some t => Err (invalid t) | None => Ok tt end.
Definition checkExecID (x : string) : result unit := ValidateName "execution id" x.

Definition ValidateCronArg (cron : string) : result unit :=
  match ValidateCron cron with Some t => Err (invalid t) | None => Ok tt end.
Definition checkSchedule (name flow cron : string) : result unit :=
  let? _ := ValidateName "schedule name" name in
  let? _ := ValidateName "flow name" flow in
  ValidateCronArg cron.

(** [marshalObject]: a payload that must be an object; [ORaw] is a
    [json.RawMessage] or a byte slice. *)
Definition marshalObject (v : Output) : result Json :=
  let object j := match j with JObj _ => Ok j | _ => Err (invalid "payload must be a JSON object") end in
  match v with
  | ONil | ORaw RNil | ORaw REmpty => Ok (JObj [])
  | ORaw (RValid j) => object j
  | ORaw (RInvalid _) => Err (invalid "payload must be a JSON object")
  | OValue (Ok j) => object j
  | OValue (Err e) => Err (invalid (error_text e))
  end.

(** [marshalAny]: here [ORaw] is a [json.RawMessage]. *)
Definition marshalAny (v : Output) : result RawMessage :=
  match v with
  | ONil => Ok None
  | ORaw (RValid j) => Ok (Some j)
  | ORaw _ => Err (invalid "invalid JSON")
  | OValue (Ok j) => Ok (Some j)
  | OValue (Err e) => Err (invalid (error_text e))
  end.

(** [encodeWrites]; the first failure is that of the first key. *)
Definition encode_write (k : string) (v : Output) : result RawMessage :=
  let failed e := Err (invalid (Sprintf "write %q: %w" [AStr k; AText (error_text e)])) in
  match v with
  | ONil => Ok (Some JNull)
  | ORaw b => match raw_write b with Ok r => Ok r | Err e => failed e end
  | OValue (Ok j) => Ok (Some j)
  | OValue (Err e) => failed e
  end.
Definition encodeWrites (writes : gmap string Output) : result (gmap string RawMessage) :=
  res_fold (fun m k => let? r := encode_write k (default ONil (writes !! k)) in Ok (<[k := r]> m)) ∅ (sorted_keys writes).

Section Client.
Context `{Evaluator}.
Context (cfg : Config).
(** How often a loop that waits may go round. *)
Context (rounds : nat).

(** ** Reads *)

(** [StateAt], [Get]. *)
Definition StateAt (x : string) (seq : Z) : Prog (result State) :=
  try! _ := lift (checkExecID x) in
  try! _ := call Attach in
  try! (st, _) := Load cfg x seq in
  if Exists st then ok st
  else
    let! r := LoadArchived x seq in
    lift (match r with
          | Ok (st, _) => Ok (set_Archived true st)
          | Err e => if errors_is e ErrNotArchived then Err (no_execution x) else Err e
          end).
Definition Get (x : string) : Prog (result State) := StateAt x 0.

(** [Client.History]. *)
Definition ReadHistory (x : string) : Prog (result (list FoldEvent)) :=
  try! _ := lift (checkExecID x) in
  try! _ := call Attach in
  let! r := History cfg x in
  lift (match r with
        | Err e => if errors_is e ErrNotArchived then Err (no_execution x) else Err e
        | Ok evs => Ok evs
        end).

(** The output an event records for a node. *)
Definition output_of (node : string) (ev : FoldEvent) : option RawMessage :=
  match ev_Data ev with
  | DNodeDone d => if String.eqb (NodeDone_Node d) node then Some (NodeDone_Output d) else None
  | DChildDone d => if String.eqb (ChildDone_Node d) node then Some (ChildDone_Output d) else None
  | DJoin d => if String.eqb (Join_Node d) node then Some (Join_Output d) else None
  | _ => None
  end.
Definition OutputHistory (x node : string) : Prog (result (list RawMessage)) :=
  try! evs := ReadHistory x in ok (omap (output_of node) evs).

Definition ListExecutions (f : Filter) : Prog (result (list Summary)) :=
  try! _ := call Attach in
  let! r := List_ f in
  lift (match r with
        | Err e => if errors_is e ErrInvalidFilter then Err (invalid (error_text e)) else Err e
        | Ok l => Ok l
        end).

Definition ListQuarantined : Prog (result (list string)) := try! _ := call Attach in Quarantined.

(** [exists]: the execution can still receive commands. *)
Definition exists_ (x : string) : Prog (result unit) :=
  try! _ := lift (checkExecID x) in
  try! _ := call Attach in
  try! seq := LastSeq x in
  if 0 <? seq then ok tt
  else
    try! archived := IsArchived x in
    failed (if (archived : bool) then Error [ErrArchived] (Sprintf "%w: %s" [AStr x]) else no_execution x).

(** ** Requests *)

Record answer := { an_seq : Z; an_joined : bool; an_lost : bool }.

Definition replyError (x : string) (r : Reply) : error :=
  if String.eqb (rp_Code r) ReplyInvalid then invalid (rp_Error r)
  else if String.eqb (rp_Code r) ReplyRejected then Error [ErrTerminal] (Sprintf "%w: %s" [AStr x])
  else if String.eqb (rp_Code r) ReplyNotFound then no_execution x
  else if String.eqb (rp_Code r) ReplyConflict then Error [ErrExecutionConflict] (Sprintf "%w: %s" [AStr x])
  else plain (Sprintf "packtrail: %s: %s" [AStr x; AText (rp_Error r)]).

Definition decodeReply (c : Command) (data : option Reply) : result answer :=
  match data with
  | None => Err (plain (Sprintf "packtrail: %s reply: %w" [AStr (cmd_type_string (c_Type c))]))
  | Some r =>
      if negb (rp_OK r) then Err (replyError (c_ExecID c) r)
      else Ok {| an_seq := rp_Seq r; an_joined := rp_Joined r; an_lost := false |}
  end.

Definition replyCheck : Z := 5 * Second.

(** [lastSeq]: 0 if the log cannot be read. *)
Definition lastSeq (x : string) : Prog Z :=
  let! r := LastSeq x in Ret (match r with Ok seq => seq | Err _ => 0 end).

Fixpoint request_rounds (n : nat) (inbox : string) (c : Command) (creates : bool) (reconnects checked : Z) : Prog (Looped (result answer)) :=
  match n with
  | O => Ret CutOff
  | S n =>
      let! a := call (NextReply inbox) in
      match a with
      | Replied data => Ret (Done (decodeReply c data))
      | CtxEnded e | SubError e => Ret (Done (Err e))
      | PollEnded =>
          let! now_reconnects := call Reconnects in
          if negb creates then request_rounds n inbox c creates reconnects checked
          else
            let! due := (if negb (now_reconnects =? reconnects) then Ret true
                         else let! now := call Now in Ret (replyCheck <=? now - checked)) in
            if (due : bool) then
              let! checked := call Now in
              let! seq := lastSeq (c_ExecID c) in
              if 0 <? seq then Ret (Done (Ok {| an_seq := seq; an_joined := false; an_lost := true |}))
              else request_rounds n inbox c creates now_reconnects checked
            else request_rounds n inbox c creates reconnects checked
      end
  end.

Definition with_reply (inbox : string) (c : Command) : Command :=
  {| c_ID := c_ID c; c_Type := c_Type c; c_ExecID := c_ExecID c; c_Time := c_Time c; c_Data := c_Data c; c_Reply := inbox |}.

(** [request]: the answer, and whether the command was published. *)
Definition request (c : Command) (trace : string) (creates : bool) : Prog (Looped (result answer) * bool) :=
  let! inbox := call OpenInbox in
  match inbox with
  | Err e => Ret (Done (Err e), false)
  | Ok inbox =>
      let! reconnects := call Reconnects in
      let! checked := call Now in
      let c := with_reply inbox c in
      let! r := PublishCmd cfg c trace in
      match r with
      | Err e => Ret (Done (Err e), false)
      | Ok _ => let! a := request_rounds rounds inbox c creates reconnects checked in Ret (a, true)
      end
  end.

(** ** Start *)

Inductive StartOption :=
| WithExecutionID (id : string)
| WithJoinExisting (join : bool)
| WithVersion (hash : string)
| WithTraceparent (tp : string).

Record startOpts := { so_id : string; so_version : string; so_trace : string; so_exclusive : bool }.

Definition start_option (o : startOpts) (opt : StartOption) : startOpts :=
  match opt with
  | WithExecutionID id => {| so_id := id; so_version := so_version o; so_trace := so_trace o; so_exclusive := so_exclusive o |}
  | WithJoinExisting join => {| so_id := so_id o; so_version := so_version o; so_trace := so_trace o; so_exclusive := negb join |}
  | WithVersion h => {| so_id := so_id o; so_version := h; so_trace := so_trace o; so_exclusive := so_exclusive o |}
  | WithTraceparent tp => {| so_id := so_id o; so_version := so_version o; so_trace := tp; so_exclusive := so_exclusive o |}
  end.

(** [checkStartedFlow]. *)
Definition checkStartedFlow (x flow : string) : Prog (result unit) :=
  try! st := Get x in
  if String.eqb (s_Flow st) flow then ok tt else failed (Error [ErrExecutionConflict] (Sprintf "%w: %s" [AStr x])).

(** What [Start] and [Fork] return: an id, and an error or none. *)
Abbreviation Outcome := (string * option error)%type.

(** The checks of [Start], up to the command. *)
Definition start_command (flow : string) (input : Output) (o : startOpts) : Prog (result Command) :=
  try! _ := lift (checkExecID (so_id o)) in
  try! _ := lift (ValidateName "flow name" flow) in
  try! b := lift (marshalObject input) in
  let! r := call (FlowsGet flow (so_version o)) in
  match r with
  | Err e => failed (if errors_is e ErrUnknownFlow then Error [ErrNoFlow] (Sprintf "%w: %s" [AStr flow]) else e)
  | Ok _ =>
      lift (New ("start." +:+ so_id o) CStart (so_id o) (Some (PStart {|
        StartData_Flow := flow; StartData_Version := so_version o; StartData_Input := Some b; StartData_Parent := None |})))
  end.

Definition start_outcome (o : startOpts) (r : result answer) (published : bool) : Outcome :=
  match r with
  | Err e =>
      if errors_is e ErrExecutionConflict then ("", Some e)
      else if published then (so_id o, Some e) else ("", Some e)
  | Ok a =>
      if an_joined a && so_exclusive o then (so_id o, Some (Error [ErrExecutionExists] (Sprintf "%w: %s" [AStr (so_id o)])))
      else (so_id o, None)
  end.

Definition Start (flow : string) (input : Output) (opts : list StartOption) : Prog (Looped Outcome) :=
  let! a := call Attach in
  match a with
  | Err e => Ret (Done ("", Some e))
  | Ok _ =>
      let o := foldl start_option {| so_id := ""; so_version := ""; so_trace := ""; so_exclusive := false |} opts in
      let! id := (if String.eqb (so_id o) "" then call NewID else Ret (so_id o)) in
      let o := start_option o (WithExecutionID id) in
      let! c := start_command flow input o in
      match c with
      | Err e => Ret (Done ("", Some e))
      | Ok c =>
          let! (r, published) := request c (so_trace o) true in
          match r with
          | CutOff => Ret CutOff
          | Done r =>
              let! r := match r with
                        | Ok a => if an_lost a then let! chk := checkStartedFlow (so_id o) flow in
                                                    Ret (match chk with Ok _ => Ok a | Err e => Err e end)
                                  else Ret r
                        | Err _ => Ret r
                        end in
              Ret (Done (start_outcome o r published))
          end
      end
  end.

(** ** Commands to an execution *)

Definition send (id : string) (t : CmdType) (x : string) (data : CmdPayload) : Prog (result unit) :=
  try! _ := exists_ x in
  try! c := lift (New id t x (Some data)) in
  PublishCmd cfg c "".

(** [Signal]; [ids] are the ids of its options, of which the last counts. *)
Definition SendSignal (x name : string) (payload : Output) (ids : list string) : Prog (result unit) :=
  try! _ := lift (ValidateName "signal name" name) in
  try! b := lift (marshalAny payload) in
  let! fresh := call NewID in
  send (List.last ids ("signal." +:+ fresh)) CSignal x (PSignal {| SignalData_Name := name; SignalData_Payload := b |}).

Definition maxResumedBy : Z := 256.
Definition Resume (x node : string) (value : Output) (by_ : list string) : Prog (result unit) :=
  try! b := lift (marshalAny value) in
  let actor := List.last by_ "" in
  if maxResumedBy <? Z.of_nat (String.length actor) then
    failed (invalid (Sprintf "resumed by: longer than %d bytes" [AInt maxResumedBy]))
  else
    let! fresh := call NewID in
    send ("resume." +:+ fresh) CResume x (PResume {| ResumeData_Node := node; ResumeData_Key := ""; ResumeData_Value := b; ResumeData_By := actor |}).

Definition CancelExec (x reason : string) : Prog (result unit) :=
  let! fresh := call NewID in
  send ("cancel." +:+ fresh) CCancel x (PCancel {| CancelData_Reason := reason |}).

Definition RequestRedispatch (x : string) : Prog (result unit) :=
  try! _ := lift (checkExecID x) in
  try! _ := call Attach in
  try! q := IsQuarantined x in
  if negb (q : bool) then failed (Error [ErrMissing] (Sprintf "%w: %s is not quarantined" [AStr x]))
  else
    let! fresh := call NewID in
    try! c := lift (New ("redispatch." +:+ fresh) CRedispatch x None) in
    PublishCmd cfg c "".

(** [Update]; [CutOff] if the wait for the reply was cut off. *)
Definition Update_ (x : string) (writes : gmap string Output) (ids : list string) : Prog (Looped (result State)) :=
  let! r :=
    (try! _ := exists_ x in
     try! data := lift (encodeWrites writes) in
     if bool_decide (data = ∅) then failed (invalid "update without writes")
     else
       let! fresh := call NewID in
       lift (match New (List.last ids ("update." +:+ fresh)) CUpdate x (Some (PUpdate {| UpdateData_Writes := data |})) with
             | Ok c => Ok c
             | Err e => Err (invalid (error_text e))
             end)) in
  match r with
  | Err e => Ret (Done (Err e))
  | Ok c =>
      let! (a, _) := request c "" false in
      match a with
      | CutOff => Ret CutOff
      | Done (Err e) => Ret (Done (Err e))
      | Done (Ok a) => let! st := StateAt x (an_seq a) in Ret (Done st)
      end
  end.

(** ** Forks *)

(** [WithForkID], [WithForkWrites]. *)
Inductive ForkOption :=
| WithForkID (id : string)
| WithForkWrites (writes : gmap string Output).
Definition fork_option (o : string * gmap string Output) (opt : ForkOption) : string * gmap string Output :=
  match opt with WithForkID id => (id, snd o) | WithForkWrites w => (fst o, w) end.

Definition checkForkWrites (x : string) (seq : Z) (writes : gmap string RawMessage) : Prog (result unit) :=
  try! (st, def) := Load cfg x seq in
  try! (st, def) := (if Exists st then ok (st, def) else LoadArchived x seq) in
  if Terminal (s_Status st) then failed (invalid "cannot edit a fork of a finished execution (fork before its end)")
  else
    match def with
    | None => failed (Panic "nil flow")
    | Some def => lift (match CheckWrites def st writes with Ok _ => Ok tt | Err e => Err (invalid (error_text e)) end)
    end.

Definition fork (x : string) (seq : Z) (opts : list ForkOption) : Prog (Looped Outcome) :=
  let! fresh := call NewID in
  let '(id, w) := foldl fork_option (fresh, ∅) opts in
  let! c :=
    (try! _ := lift (checkExecID id) in
     try! writes := lift (encodeWrites w) in
     try! _ := (if bool_decide (writes = ∅) then ok tt else checkForkWrites x seq writes) in
     lift (New ("fork." +:+ id) CFork id (Some (PFork {| ForkData_From := x; ForkData_Seq := seq; ForkData_Writes := writes |})))) in
  match c with
  | Err e => Ret (Done ("", Some e))
  | Ok c =>
      let! (r, published) := request c "" true in
      Ret (match r with
           | CutOff => CutOff
           | Done (Ok _) => Done (id, None)
           | Done (Err e) => Done (if (published : bool) then id else "", Some e)
           end)
  end.

(** The end of the first decision at or after a sequence; 0 if there is none. *)
Definition cut_after (seq : Z) (evs : list FoldEvent) : Z :=
  match List.find (fun ev => (seq <=? ev_Seq ev) && ev_DecisionEnd ev) evs with Some ev => ev_Seq ev | None => 0 end.

Definition Fork (x : string) (seq : Z) (opts : list ForkOption) : Prog (Looped Outcome) :=
  let! r := ReadHistory x in
  match r with
  | Err e => Ret (Done ("", Some e))
  | Ok evs =>
      let cut := cut_after seq evs in
      if cut =? 0 then
        Ret (Done ("", Some (invalid (Sprintf "sequence %d is not in the history of %s" [AInt seq; AStr x]))))
      else fork x cut opts
  end.

(** Where a node was last entered; 0 if it never was. *)
Definition last_entered (node : string) (evs : list FoldEvent) : Z :=
  foldl (fun at_ ev => match ev_Data ev with
                       | DEntered d => if String.eqb (Entered_Node d) node then ev_Seq ev else at_
                       | _ => at_
                       end) 0 evs.

Definition Rerun (x node : string) (opts : list ForkOption) : Prog (Looped Outcome) :=
  let! r := ReadHistory x in
  match r with
  | Err e => Ret (Done ("", Some e))
  | Ok evs =>
      let at_ := last_entered node evs in
      if at_ =? 0 then Ret (Done ("", Some (invalid (Sprintf "node %q never ran in %s" [AStr node; AStr x]))))
      else
        let cut := cut_after at_ evs in
        let! r := StateAt x cut in
        match r with
        | Err e => Ret (Done ("", Some e))
        | Ok st =>
            if negb (Open st node) then
              Ret (Done ("", Some (invalid (Sprintf "node %q of %s settled in the decision that entered it; rerun the node before it"
                                              [AStr node; AStr x]))))
            else fork x cut opts
        end
  end.

(** ** Watching *)

(** [sendDecision]: false when the watch must end. *)
Fixpoint sendDecision (evs : list FoldEvent) : Prog bool :=
  match evs with
  | [] => Ret true
  | ev :: evs =>
      let! sent := call (SendEvent ev) in
      if negb (sent : bool) then Ret false
      else if type_terminal (ev_Type ev) then Ret false else sendDecision evs
  end.

Fixpoint watch_rounds (n : nat) : Prog (Looped unit) :=
  match n with
  | O => Ret CutOff
  | S n =>
      let! m := call WatchNext in
      match m with
      | WatchEnded _ => Ret (Done tt)
      | WatchMsg _ _ None => Ret (Done tt)
      | WatchMsg _ m (Some (seq, _)) =>
          let! evs := decode_message m seq in
          match evs with
          | Err _ => Ret (Done tt)
          | Ok evs =>
              let! go := sendDecision evs in
              if (go : bool) then watch_rounds n else Ret (Done tt)
          end
      end
  end.

(** [Watch], with the goroutine it starts. *)
Definition Watch (x : string) (from : Z) : Prog (result (Looped unit)) :=
  try! _ := lift (checkExecID x) in
  try! _ := call Attach in
  try! _ := call (WatchOpen x from) in
  let! r := watch_rounds rounds in ok r.

(** [endedStatus], for the name of a terminal type. *)
Definition endedStatus (t : string) : Status :=
  if String.eqb t (type_string ExecutionCompleted) then StatusCompleted
  else if String.eqb t (type_string ExecutionFailed) then StatusFailed
  else StatusCancelled.

(** [terminalOf]: the execution and its status. *)
Definition terminalOf (subject : string) (h : Header) : option (string * Status) :=
  (fun t => (lastToken subject, endedStatus t)) <$> List.find terminal_name (Types h).

Fixpoint ended_rounds (n : nat) : Prog (Looped unit) :=
  match n with
  | O => Ret CutOff
  | S n =>
      let! m := call WatchNext in
      match m with
      | WatchEnded _ => Ret (Done tt)
      | WatchMsg _ _ None => ended_rounds n
      | WatchMsg subject m (Some (seq, _)) =>
          match terminalOf subject (msg_Header m) with
          | None => ended_rounds n
          | Some (x, st) =>
              let! sent := call (SendEnded x st seq) in
              if (sent : bool) then ended_rounds n else Ret (Done tt)
          end
      end
  end.

(** [WatchTerminal]: from a sequence, or from now. *)
Definition WatchTerminal (from : Z) : Prog (result (Looped unit)) :=
  try! _ := call Attach in
  try! next := (if from =? 0 then try! last := call EventsEnd in ok (last + 1) else ok from) in
  try! _ := call (WatchOpen "" next) in
  let! r := ended_rounds rounds in ok r.

(** ** Waiting *)

Definition waitRetry : Z := 50 * Millisecond.
Definition maxWaitRetry : Z := 2 * Second.

(** [checkpoint]. *)
Definition checkpoint (everyStep : bool) (m : Msg) (md : option (Z * Z)) : Z * bool :=
  let seq := match md with Some (seq, _) => seq | None => 0 end in
  if existsb terminal_name (Types (msg_Header m)) then (seq, true)
  else (seq, everyStep && match md with None => true | Some (_, pending) => pending =? 0 end).

(** What a step of a wait gives: a state, nothing yet, or an error. *)
Abbreviation Step := (result (option State)).

Fixpoint follow_rounds (n : nat) (x : string) (everyStep : bool) (done : State -> bool) : Prog (Looped Step) :=
  match n with
  | O => Ret CutOff
  | S n =>
      let! m := call WatchNext in
      match m with
      | WatchEnded (Some e) => Ret (Done (Err e))
      | WatchEnded None => let! _ := call (Wait waitRetry) in Ret (Done (Ok None))
      | WatchMsg _ m md =>
          let '(seq, check) := checkpoint everyStep m md in
          if negb check then follow_rounds n x everyStep done
          else
            let! r := Get x in
            match r with
            | Err e => Ret (Done (Err e))
            | Ok st =>
                if done st then Ret (Done (Ok (Some st)))
                else if s_LastSeq st <? seq then let! _ := call (Wait waitRetry) in Ret (Done (Ok None))
                else follow_rounds n x everyStep done
            end
      end
  end.

Definition follow (x : string) (from : Z) (everyStep : bool) (done : State -> bool) : Prog (Looped Step) :=
  let! r := call (WatchOpen x from) in
  match r with
  | Err e => Ret (Done (Err e))
  | Ok _ => follow_rounds rounds x everyStep done
  end.

Definition wait_done (cond : option (State -> bool)) (st : State) : bool :=
  Terminal (s_Status st) || match cond with Some c => c st | None => false end.

Definition waitStep (x : string) (cond : option (State -> bool)) : Prog (Looped Step) :=
  let! r := Get x in
  match r with
  | Err e => if errors_is e ErrMissing then follow x 0 (bool_decide (is_Some cond)) (wait_done cond) else Ret (Done (Err e))
  | Ok st =>
      if wait_done cond st then Ret (Done (Ok (Some st)))
      else follow x (s_LastSeq st + 1) (bool_decide (is_Some cond)) (wait_done cond)
  end.

(** [wait]: a retry waits for a while, or for the end of the context. *)
Definition ctx_error : Prog (result State) :=
  let! e := call CtxErr in Ret (Err (default (plain "context canceled") e)).

Fixpoint wait_loop (n : nat) (x : string) (cond : option (State -> bool)) (delay : Z) : Prog (Looped (result State)) :=
  match n with
  | O => Ret CutOff
  | S n =>
      let! r := waitStep x cond in
      match r with
      | CutOff => Ret CutOff
      | Done (Ok (Some st)) => Ret (Done (Ok st))
      | Done (Ok None) => wait_loop n x cond waitRetry
      | Done (Err e) =>
          let! ended := call CtxErr in
          match ended with
          | Some ended => Ret (Done (Err ended))
          | None =>
              let! attached := call Attached in
              if negb (attached : bool) then Ret (Done (Err e))
              else
                let! go := call (Wait delay) in
                if (go : bool) then wait_loop n x cond (Z.min (delay * 2) maxWaitRetry) else let! r := ctx_error in Ret (Done r)
          end
      end
  end.
Definition wait (x : string) (cond : option (State -> bool)) : Prog (Looped (result State)) :=
  match checkExecID x with
  | Err e => Ret (Done (Err e))
  | Ok _ => wait_loop rounds x cond waitRetry
  end.

Definition WaitEnd (x : string) : Prog (Looped (result State)) := wait x None.

(** [WaitUntil]: a state, and an error with the final state if the condition never
    held. *)
Definition WaitUntil (x : string) (cond : State -> bool) : Prog (Looped (option State * option error)) :=
  let! r := wait x (Some cond) in
  Ret (match r with
       | CutOff => CutOff
       | Done (Err e) => Done (None, Some e)
       | Done (Ok st) =>
           if cond st then Done (Some st, None)
           else Done (Some st, Some (Error [ErrTerminal] (Sprintf "%w: %s ended %s" [AStr x; AStr (status_string (s_Status st))])))
       end).

(** ** Schedules *)

Inductive ScheduleOption := ScheduleTimeZone (tz : string) | ScheduleVersion (hash : string).
Definition schedule_option (o : string * string) (opt : ScheduleOption) : string * string :=
  match opt with ScheduleTimeZone tz => (tz, snd o) | ScheduleVersion h => (fst o, h) end.

Definition Schedule (name flow cron : string) (input : Output) (opts : list ScheduleOption) : Prog (result unit) :=
  try! _ := lift (checkSchedule name flow cron) in
  try! _ := call Attach in
  let '(tz, version) := foldl schedule_option ("", "") opts in
  try! b := lift (marshalObject input) in
  let! r := call (Perform (PublishSchedule name {|
    sm_Cron := cron; sm_Target := CronSubject (cf_Names cfg) name; sm_TZ := tz;
    sm_Spec := Some {| sp_Flow := flow; sp_Version := version; sp_Input := Some b |} |})) in
  lift (annotate "packtrail: schedule %s: %w" r).

Definition Unschedule (name : string) : Prog (result unit) :=
  try! _ := lift (ValidateName "schedule name" name) in
  try! _ := call Attach in
  call (Perform (PurgeSchedule name)).

Record ScheduleInfo := {
  si_Name : string; si_Cron : string; si_TimeZone : string; si_Flow : string; si_Version : string; si_Input : RawMessage }.

Definition schedule_info (sm : string * ScheduleMsg) : option ScheduleInfo :=
  (fun spec => {| si_Name := lastToken (fst sm); si_Cron := sm_Cron (snd sm); si_TimeZone := sm_TZ (snd sm); si_Flow := sp_Flow spec;
                  si_Version := sp_Version spec; si_Input := sp_Input spec |}) <$> sm_Spec (snd sm).

Fixpoint insert_schedule (i : ScheduleInfo) (l : list ScheduleInfo) : list ScheduleInfo :=
  match l with
  | [] => [i]
  | j :: l' => if String.leb (si_Name i) (si_Name j) then i :: l else j :: insert_schedule i l'
  end.

(** [Schedules]: those whose body is a specification, by name. *)
Definition Schedules : Prog (result (list ScheduleInfo)) :=
  try! _ := call Attach in
  try! subjects := call ScheduleList in
  ok (foldr insert_schedule [] (omap schedule_info subjects)).

(** ** Dead letters *)

(** [DeadLetters], from [seq] down to [first]; [n] bounds the sequences. *)
Fixpoint letters (n : nat) (first seq limit count : Z) : Prog (list (Z * Letter)) :=
  match n with
  | O => Ret []
  | S n =>
      if (seq <? first) || (seq <=? 0) || ((0 <? limit) && (limit <=? count)) then Ret []
      else
        let! r := call (DlqGet seq) in
        match r with
        | Ok (Some l) => let! rest := letters n first (seq - 1) limit (count + 1) in Ret ((seq, l) :: rest)
        | _ => letters n first (seq - 1) limit count
        end
  end.
Definition DeadLetters (limit : Z) : Prog (result (list (Z * Letter))) :=
  try! _ := call Attach in
  try! (first, last) := call DlqInfo in
  let! l := letters (Z.to_nat last) first last limit 0 in ok l.

(** [Redrive]: a body that is not a dead letter is an error too.  [DlqInfo] is the
    request that looks the stream up. *)
Definition Redrive (seq : Z) : Prog (result unit) :=
  try! _ := call Attach in
  try! _ := call DlqInfo in
  let! r := call (DlqGet seq) in
  match r with
  | Err e => failed (Error [ErrMissing] (Sprintf "%w: dead letter %d: %w" [AInt seq; AText (error_text e)]))
  | Ok None => failed (plain "undecodable dead letter")
  | Ok (Some l) =>
      let d := lt_Letter l in
      try! _ :=
        (if String.eqb (dl_Kind d) DLQTrigger && negb (String.eqb (dl_Flow d) "") then
           try! start := lift (TriggerStart (dl_Flow d) (dl_Key d) (lt_Body l)) in
           PublishCmd cfg start (lt_Trace l)
         else call (Perform (Republish l))) in
      call (Perform (DlqDelete seq))
  end.
End Client.
