(* ===== verification/Options.v ===== *)
(** * Configuration of an engine ([options.go], and of [packtrail.go] [buildConfig], [partitions], [components])

    The options, what each checks, the configuration they add up to, and the
    loops an engine runs with it. *)

From S2P Require Import Prelude Json Hash GoStrings Names Flow FlowValidate Event Cmd CmdCodec Reduce State View Wire Cron Decide Codec.
From S2P Require Import Server Projection Sending EventLog Loader Engine Triggers Client Provision.

(** ** Options *)

(** [timeouts], with 0 for the default. *)
Record timeouts := { to_ackWait : Z; to_pullExpiry : Z; to_read : Z; to_blob : Z }.

Record scheduleDef := { sd_name : string; sd_flow : string; sd_cron : string; sd_tz : string; sd_input : Json }.

Record config := {
  cg_namespace : string; cg_flows : list Flow; cg_partitions : Z; cg_owned : list Z; cg_snapshotEvery : Z; cg_historyLimit : Z;
  cg_drain : Z; cg_cacheSize : Z; cg_blobThreshold : Z; cg_schedules : list scheduleDef; cg_noDispatch : bool; cg_noCommands : bool;
  cg_timeouts : timeouts; cg_replicas : Z }.

Definition config_eta (c : config) : config := {|
  cg_namespace := cg_namespace c; cg_flows := cg_flows c; cg_partitions := cg_partitions c; cg_owned := cg_owned c;
  cg_snapshotEvery := cg_snapshotEvery c; cg_historyLimit := cg_historyLimit c; cg_drain := cg_drain c; cg_cacheSize := cg_cacheSize c;
  cg_blobThreshold := cg_blobThreshold c; cg_schedules := cg_schedules c; cg_noDispatch := cg_noDispatch c;
  cg_noCommands := cg_noCommands c; cg_timeouts := cg_timeouts c; cg_replicas := cg_replicas c |}.
Definition set_cg_namespace (v : string) (c : config) : config := ltac:(assign config_eta c cg_namespace v).
Definition set_cg_flows (v : list Flow) (c : config) : config := ltac:(assign config_eta c cg_flows v).
Definition set_cg_partitions (v : Z) (c : config) : config := ltac:(assign config_eta c cg_partitions v).
Definition set_cg_owned (v : list Z) (c : config) : config := ltac:(assign config_eta c cg_owned v).
Definition set_cg_snapshotEvery (v : Z) (c : config) : config := ltac:(assign config_eta c cg_snapshotEvery v).
Definition set_cg_historyLimit (v : Z) (c : config) : config := ltac:(assign config_eta c cg_historyLimit v).
Definition set_cg_drain (v : Z) (c : config) : config := ltac:(assign config_eta c cg_drain v).
Definition set_cg_cacheSize (v : Z) (c : config) : config := ltac:(assign config_eta c cg_cacheSize v).
Definition set_cg_blobThreshold (v : Z) (c : config) : config := ltac:(assign config_eta c cg_blobThreshold v).
Definition set_cg_schedules (v : list scheduleDef) (c : config) : config := ltac:(assign config_eta c cg_schedules v).
Definition set_cg_noDispatch (v : bool) (c : config) : config := ltac:(assign config_eta c cg_noDispatch v).
Definition set_cg_noCommands (v : bool) (c : config) : config := ltac:(assign config_eta c cg_noCommands v).
Definition set_cg_timeouts (v : timeouts) (c : config) : config := ltac:(assign config_eta c cg_timeouts v).
Definition set_cg_replicas (v : Z) (c : config) : config := ltac:(assign config_eta c cg_replicas v).

Definition maxPartitions : Z := 1024.
Definition maxReplicas : Z := 5.
Definition DefaultHistoryLimit : Z := 10000.

Definition ValidateNamespace (ns : string) : result unit :=
  if ValidPrefix ns then Ok tt else Err (invalid (Sprintf "namespace %q must match [A-Za-z0-9_-]{1,64}" [AStr ns])).

(** [filepath.Ext]: the suffix from the last dot of the last element. *)
Definition Ext (name : string) : string :=
  match split_at (ascii_of 46) name with
  | _ :: (_ :: _) as parts => "." +:+ List.last parts ""
  | _ => ""
  end.

(** [LoadDir]: the entries of a directory, with what [ParseFile] makes of each; the
    code collects the flows in a map, whose order is arbitrary. *)
Record DirEntry := { de_Name : string; de_IsDir : bool; de_Parsed : result Flow }.
Definition load_entry (flows : list Flow) (e : DirEntry) : result (list Flow) :=
  let ext := Ext (de_Name e) in
  if de_IsDir e || (negb (String.eqb ext ".yaml") && negb (String.eqb ext ".yml")) then Ok flows
  else
    let? f := de_Parsed e in
    if existsb (fun g => String.eqb (f_Name g) (f_Name f)) flows then Err (plain (Sprintf "duplicate flow name %q" [AStr (f_Name f)]))
    else Ok (flows ++ [f]).
Definition LoadDir (entries : result (list DirEntry)) : result (list Flow) :=
  let? es := entries in res_fold load_entry [] es.

(** The options; a definition is given with what [Clone] makes of it, a text with
    what [flow.Parse] makes of it. *)
Inductive EngineOption :=
| OptNamespace (ns : string)
| OptFlow (clone : option (result Flow))
| OptFlowYAML (parsed : result Flow)
| OptFlowsDir (entries : result (list DirEntry))
| OptPartitions (n : Z)
| OptOwnedPartitions (ps : list Z)
| OptHistoryLimit (n : Z)
| OptSnapshotEvery (n : Z)
| OptDrainTimeout (d : Z)
| OptReplicas (n : Z)
| OptAckWait (d : Z)
| OptPullExpiry (d : Z)
| OptReadTimeout (d : Z)
| OptBlobTimeout (d : Z)
| OptStateCacheSize (n : Z)
| OptBlobThreshold (n : Z)
| OptSchedule (name flow cron : string) (input : Output)
| OptWithoutDispatcher
| OptWithoutCommands.

(** [fmt.Errorf("%w: %w", ErrInvalidArgument, err)]. *)
Definition as_argument {A} (r : result A) : result A := match r with Ok a => Ok a | Err e => Err (wrap ErrInvalidArgument e) end.

Definition WithNamespace (ns : string) (c : config) : result config := let? _ := ValidateNamespace ns in Ok (set_cg_namespace ns c).

(** [WithFlow] stores a copy of the definition, [None] is a nil pointer. *)
Definition WithFlow (def : option (result Flow)) (c : config) : result config :=
  match def with
  | None => Err (invalid "nil flow")
  | Some clone => let? cp := as_argument clone in Ok (set_cg_flows (cg_flows c ++ [cp]) c)
  end.
Definition WithFlowYAML (parsed : result Flow) (c : config) : result config :=
  let? def := as_argument parsed in Ok (set_cg_flows (cg_flows c ++ [def]) c).
Definition WithFlowsDir (entries : result (list DirEntry)) (c : config) : result config :=
  let? defs := as_argument (LoadDir entries) in Ok (set_cg_flows (cg_flows c ++ defs) c).

Definition WithPartitions (n : Z) (c : config) : result config :=
  if (n <=? 0) || (maxPartitions <? n) then Err (invalid (Sprintf "partitions must be in 1..%d" [AInt maxPartitions])) else Ok (set_cg_partitions n c).
Definition WithOwnedPartitions (ps : list Z) (c : config) : result config :=
  if existsb (fun p => p <? 0) ps then Err (invalid "negative partition") else Ok (set_cg_owned ps c).
Definition WithHistoryLimit (n : Z) (c : config) : result config := Ok (set_cg_historyLimit n c).
Definition WithSnapshotEvery (n : Z) (c : config) : result config := Ok (set_cg_snapshotEvery n c).
Definition WithDrainTimeout (d : Z) (c : config) : result config := Ok (if 0 <? d then set_cg_drain d c else c).
Definition WithReplicas (n : Z) (c : config) : result config :=
  if (n <? 1) || (maxReplicas <? n) then Err (invalid (Sprintf "replicas must be between 1 and %d" [AInt maxReplicas])) else Ok (set_cg_replicas n c).

Definition WithAckWait (d : Z) (c : config) : result config :=
  if d <? Second then Err (invalid "ack wait must be at least 1s")
  else let t := cg_timeouts c in
    Ok (set_cg_timeouts {| to_ackWait := d; to_pullExpiry := to_pullExpiry t; to_read := to_read t; to_blob := to_blob t |} c).
Definition WithPullExpiry (d : Z) (c : config) : result config :=
  if d <? Second then Err (invalid "pull expiry must be at least 1s")
  else let t := cg_timeouts c in
    Ok (set_cg_timeouts {| to_ackWait := to_ackWait t; to_pullExpiry := d; to_read := to_read t; to_blob := to_blob t |} c).
Definition WithReadTimeout (d : Z) (c : config) : result config :=
  if d <=? 0 then Err (invalid "read timeout must be positive")
  else let t := cg_timeouts c in
    Ok (set_cg_timeouts {| to_ackWait := to_ackWait t; to_pullExpiry := to_pullExpiry t; to_read := d; to_blob := to_blob t |} c).
Definition WithBlobTimeout (d : Z) (c : config) : result config :=
  if d <=? 0 then Err (invalid "blob timeout must be positive")
  else let t := cg_timeouts c in
    Ok (set_cg_timeouts {| to_ackWait := to_ackWait t; to_pullExpiry := to_pullExpiry t; to_read := to_read t; to_blob := d |} c).

Definition WithStateCacheSize (n : Z) (c : config) : result config := Ok (set_cg_cacheSize n c).
Definition WithBlobThreshold (n : Z) (c : config) : result config :=
  if n <=? 0 then Err (invalid "blob threshold must be positive") else Ok (set_cg_blobThreshold n c).
Definition WithSchedule (name flow cron : string) (input : Output) (c : config) : result config :=
  let? _ := checkSchedule name flow cron in
  let? b := marshalObject input in
  Ok (set_cg_schedules (cg_schedules c ++ [{| sd_name := name; sd_flow := flow; sd_cron := cron; sd_tz := ""; sd_input := b |}]) c).
Definition WithoutDispatcher (c : config) : result config := Ok (set_cg_noDispatch true c).
Definition WithoutCommands (c : config) : result config := Ok (set_cg_noCommands true c).

(** What an option does to the configuration. *)
Definition apply_option (c : config) (o : EngineOption) : result config :=
  match o with
  | OptNamespace ns => WithNamespace ns c
  | OptFlow def => WithFlow def c
  | OptFlowYAML parsed => WithFlowYAML parsed c
  | OptFlowsDir entries => WithFlowsDir entries c
  | OptPartitions n => WithPartitions n c
  | OptOwnedPartitions ps => WithOwnedPartitions ps c
  | OptHistoryLimit n => WithHistoryLimit n c
  | OptSnapshotEvery n => WithSnapshotEvery n c
  | OptDrainTimeout d => WithDrainTimeout d c
  | OptReplicas n => WithReplicas n c
  | OptAckWait d => WithAckWait d c
  | OptPullExpiry d => WithPullExpiry d c
  | OptReadTimeout d => WithReadTimeout d c
  | OptBlobTimeout d => WithBlobTimeout d c
  | OptStateCacheSize n => WithStateCacheSize n c
  | OptBlobThreshold n => WithBlobThreshold n c
  | OptSchedule name flow cron input => WithSchedule name flow cron input c
  | OptWithoutDispatcher => WithoutDispatcher c
  | OptWithoutCommands => WithoutCommands c
  end.

Definition no_config : config := {|
  cg_namespace := Default; cg_flows := []; cg_partitions := 0; cg_owned := []; cg_snapshotEvery := 0; cg_historyLimit := 0; cg_drain := 0;
  cg_cacheSize := 0; cg_blobThreshold := 0; cg_schedules := []; cg_noDispatch := false; cg_noCommands := false;
  cg_timeouts := {| to_ackWait := 0; to_pullExpiry := 0; to_read := 0; to_blob := 0 |}; cg_replicas := 0 |}.

(** The flows of a configuration have distinct names. *)
Fixpoint twice (seen : list string) (fs : list Flow) : option string :=
  match fs with
  | [] => None
  | f :: fs => if bool_decide (f_Name f ∈ seen) then Some (f_Name f) else twice (f_Name f :: seen) fs
  end.

Definition buildConfig (opts : list EngineOption) : result config :=
  let? c := res_fold apply_option no_config opts in
  match twice [] (cg_flows c) with
  | Some name => Err (invalid (Sprintf "flow %q registered twice" [AStr name]))
  | None => Ok c
  end.

(** [ValidateOptions]. *)
Definition ValidateOptions (opts : list EngineOption) : result unit := let? _ := buildConfig opts in Ok tt.

(** ** The loops of an engine *)

Definition historyLimit (n : Z) : Z := if n =? 0 then DefaultHistoryLimit else if n <? 0 then 0 else n.

(** [partitions], of the deployed count. *)
Definition partitions (c : config) (deployed : Z) : list Z :=
  match cg_owned c with
  | [] => Z.of_nat <$> seq 0 (Z.to_nat deployed)
  | owned => List.filter (fun p => p <? deployed) owned
  end.

Inductive Component :=
| CPartition (p : Z)                   (* [engine.RunPartition] *)
| CDispatch (p : Z)                    (* [dispatch.Run] *)
| CCron                                (* [engine.RunCron] *)
| CTrigger (flow : string) (i : nat).  (* [engine.RunTrigger] *)

Definition trigger_loops (f : Flow) : list Component := imap (fun i _ => CTrigger (f_Name f) i) (f_Triggers f).

Definition components (c : config) (deployed : Z) : list Component :=
  mjoin ((fun p => (if cg_noCommands c then [] else [CPartition p]) ++ (if cg_noDispatch c then [] else [CDispatch p])) <$> partitions c deployed) ++
  (if cg_noCommands c then [] else CCron :: mjoin (trigger_loops <$> cg_flows c)).

(** ** What a configuration promises *)

Create HintDb options.

Record config_ok (c : config) : Prop := {
  co_namespace : ValidPrefix (cg_namespace c) = true;
  co_partitions : 0 <= cg_partitions c <= maxPartitions;
  co_owned : Forall (fun p => 0 <= p) (cg_owned c);
  co_replicas : 0 <= cg_replicas c <= maxReplicas;
  co_ackWait : to_ackWait (cg_timeouts c) = 0 \/ Second <= to_ackWait (cg_timeouts c);
  co_pullExpiry : to_pullExpiry (cg_timeouts c) = 0 \/ Second <= to_pullExpiry (cg_timeouts c);
  co_threshold : 0 <= cg_blobThreshold c;
  co_schedules : Forall (fun s => checkSchedule (sd_name s) (sd_flow s) (sd_cron s) = Ok tt) (cg_schedules c) }.

Lemma no_config_ok : config_ok no_config.
Proof. constructor; cbn; try done; try (by left); unfold maxPartitions, maxReplicas; lia. Qed.

#[local] Hint Unfold WithNamespace WithFlow WithFlowYAML WithFlowsDir WithPartitions WithOwnedPartitions WithHistoryLimit WithSnapshotEvery
  WithDrainTimeout WithReplicas WithAckWait WithPullExpiry WithReadTimeout WithBlobTimeout WithStateCacheSize WithBlobThreshold WithSchedule
  WithoutDispatcher WithoutCommands : options.

Lemma apply_option_ok c o c' : config_ok c -> apply_option c o = Ok c' -> config_ok c'.
Proof.
  intros HC HA. destruct HC.
  destruct o as [ns|[r|]|r|es|n|ps|n|n|d|n|d|d|d|d|n|n|name flow cron input| |]; cbn [apply_option] in HA; autounfold with options in HA;
    try discriminate HA; try (case_match eqn:EB; try discriminate HA); res_inv; subst.
  all: constructor; cbn; try done; rewrite ?orb_false_iff in *; try lia; try (right; lia).
  - unfold ValidateNamespace in *. by destruct (ValidPrefix ns).
  - apply Forall_forall. intros p Hp%list_elem_of_In. destruct (Z.ltb_spec p 0) as [Hn|]; [|done].
    assert (existsb (fun p => p <? 0) ps = true) by (apply existsb_exists; exists p; split; [done|by apply Z.ltb_lt]). congruence.
  - apply Forall_app. split; [done|]. constructor; [|constructor]. by destruct x.
Qed.

Lemma twice_none seen fs : twice seen fs = None -> NoDup (f_Name <$> fs) /\ Forall (fun f => f_Name f ∉ seen) fs.
Proof.
  revert seen. induction fs as [|f fs IH]; intros seen; cbn; [by split; constructor|]. case_bool_decide; [done|].
  intros [HN HF]%IH. split.
  - apply NoDup_cons. split; [|done]. intros (g & E & Hg)%list_elem_of_fmap. rewrite Forall_forall in HF. apply HF in Hg. apply Hg.
    rewrite E. apply list_elem_of_here.
  - constructor; [done|]. eapply Forall_impl; [exact HF|]. cbn. intros g Hg Hin. apply Hg. by apply list_elem_of_further.
Qed.

Lemma buildConfig_ok opts c : buildConfig opts = Ok c -> config_ok c /\ NoDup (f_Name <$> cg_flows c).
Proof.
  intros (c' & HF & HT)%res_bind_ok. destruct (twice [] (cg_flows c')) eqn:ET; [done|]. injection HT as ->.
  split; [|by apply (twice_none [])]. clear ET. revert HF. generalize no_config_ok. generalize no_config. induction opts as [|o opts IH]; intros c0 H0; cbn.
  - by intros [= <-].
  - intros (c1 & HA & HR)%res_bind_ok. eapply IH; [|exact HR]. by eapply apply_option_ok.
Qed.

Lemma partitions_in_range c d p : Forall (fun p => 0 <= p) (cg_owned c) -> p ∈ partitions c d -> 0 <= p < d.
Proof.
  unfold partitions. intros Ho Hp. destruct (cg_owned c) as [|q owned] eqn:E.
  - apply list_elem_of_fmap in Hp as (k & -> & Hk%elem_of_seq). lia.
  - rewrite Forall_forall in Ho. apply list_elem_of_In, List.filter_In in Hp as [Hin Hlt%Z.ltb_lt]. split; [|done].
    apply Ho. by apply list_elem_of_In.
Qed.

Lemma partitions_all c d p : cg_owned c = [] -> 0 <= p < d -> p ∈ partitions c d.
Proof.
  unfold partitions. intros -> Hp. apply list_elem_of_fmap. exists (Z.to_nat p). split; [lia|]. apply elem_of_seq. lia.
Qed.

(** The loops of the partitions. *)
Lemma component_partition c d x : match x with CPartition _ | CDispatch _ => True | _ => False end -> x ∈ components c d <->
  exists p, p ∈ partitions c d /\ (x = CPartition p /\ cg_noCommands c = false \/ x = CDispatch p /\ cg_noDispatch c = false).
Proof.
  intros Hx. unfold components. rewrite elem_of_app, list_elem_of_join. split.
  - intros [(l & Hin & (p & -> & Hp)%list_elem_of_fmap)|Hin].
    + exists p. split; [done|]. destruct (cg_noCommands c), (cg_noDispatch c); set_solver.
    + exfalso. destruct (cg_noCommands c); [by apply not_elem_of_nil in Hin|]. apply elem_of_cons in Hin as [->|Hin]; [done|].
      apply list_elem_of_join in Hin as (l & Hin & (f & -> & _)%list_elem_of_fmap).
      unfold trigger_loops in Hin. apply elem_of_lookup_imap in Hin as (i & t & -> & _). done.
  - intros (p & Hp & HX). left. eexists. split; [|apply list_elem_of_fmap; exists p; split; [reflexivity|exact Hp]].
    apply elem_of_app. destruct HX as [[-> ->]|[-> ->]]; [left|right]; apply list_elem_of_here.
Qed.

(** A configuration that was accepted is well formed, and an engine started with it
    runs a command loop and a dispatcher for partitions of the namespace only, and
    for all of them unless it was restricted. *)
Theorem engine_loops opts c d :
  buildConfig opts = Ok c -> config_ok c /\ NoDup (f_Name <$> cg_flows c) /\
  (forall p, CPartition p ∈ components c d \/ CDispatch p ∈ components c d -> 0 <= p < d) /\
  (cg_owned c = [] -> forall p, 0 <= p < d ->
    (CPartition p ∈ components c d <-> cg_noCommands c = false) /\ (CDispatch p ∈ components c d <-> cg_noDispatch c = false)).
Proof.
  intros [HC HN]%buildConfig_ok. pose proof (co_owned _ HC) as Ho. split_and!; [done|done| |].
  - intros p [Hp|Hp]; apply component_partition in Hp as (q & Hq & [[[= ->] _]|[[= ->] _]]); try done; by eapply partitions_in_range.
  - intros Hno p Hp. pose proof (partitions_all c d p Hno Hp) as Hin.
    rewrite !component_partition by done. split; (split; [intros (q & _ & [[[= ->] E]|[[= ->] E]]); done|intros E; exists p; auto]).
Qed.
