(* ===== verification/Chronicle.v ===== *)
(** * The chronicle of an execution: what the event log promises

    The abstract specification of the engine: the log of an execution is a
    sequence of decisions, each made on a state that encodes like the fold of
    the decisions before it.  This file states it ([Chronicle]) and shows what
    follows for the log: it folds, its indices are dense, it starts with a start
    or a fork, only a continuation is a base in the middle of it. *)

From S2P Require Import Prelude Json Hash Names Expr Flow FlowValidate FlowValid FlowGraph Event Cmd Reduce.
From S2P Require Import State StateFacts View Decide JoinPolicy Writes Numbering DecideRun DecideOps Sim.
From S2P Require Import Codec DecideProps LogProps Flight Shape ShapeEnter ShapeOps ShapeCmds.
From S2P Require Import Server EventLog Loader.

(** ** The events of a decision *)

(** An event a state can be folded from without what precedes it. *)
Definition base_data (data : FoldData) : bool :=
  match data with DStarted _ | DForked _ | DContinued _ => true | _ => false end.
Definition typed (ev : FoldEvent) : Prop := ev_Type ev = payload_type (ev_Data ev).
Definition plain_event (ev : FoldEvent) : Prop := unstored ev /\ typed ev /\ base_data (ev_Data ev) = false.

(** The base event that opens a decision. *)
Definition base_event (ev : FoldEvent) : Prop := unstored ev /\ typed ev /\ base_data (ev_Data ev) = true.

Lemma steady_event d t data : Steady d t data -> plain_event (emit_event t data d).
Proof.
  intros [[[-> Hr] Hp] Hb]. split; [by apply emit_unstored|]. split; [done|]. by destruct data.
Qed.

Lemma steady_events d d' :
  Steadies d d' -> exists evs, d_out d' = d_out d ++ evs /\ Forall plain_event evs.
Proof.
  induction 1 as [d|d t data d1 d2 HS He _ (evs & Ho & HF)].
  { exists []. by rewrite app_nil_r. }
  pose proof (emit_inv _ _ _ _ He) as (st & _ & ->). exists (emit_event t data d :: evs). simpl in *.
  rewrite Ho, <- app_assoc. split; [done|]. constructor; [by eapply steady_event|done].
Qed.

(** The shape of a decision on state [s]: a missing execution is opened by a
    start or a fork, and one that exists is only based again by a continuation. *)
Definition opens (data : FoldData) : bool :=
  match data with DStarted _ | DForked _ => true | _ => false end.

Inductive shape (s : State) : list FoldEvent -> Prop :=
| shape_open ev evs :
    Exists s = false -> base_event ev -> opens (ev_Data ev) = true -> Forall plain_event evs -> shape s (ev :: evs)
| shape_plain evs : Exists s = true -> Forall plain_event evs -> shape s evs
| shape_continued ev d : Exists s = true -> base_event ev -> ev_Data ev = DContinued d -> shape s [ev].

(** What holds of the events of a decision that emits some. *)
Record good_decision (def : Flow) (s : State) (evs : list FoldEvent) (s' : State) : Prop := {
  gd_replay : replay def s evs = Ok s';
  gd_indexed : indexed_from (s_Events s) evs;
  gd_count : s_Events s' = s_Events s + len evs;
  gd_shape : shape s evs }.

Section Decisions.
Context `{Evaluator}.

Lemma start_inv c d d' :
  start c d = Ok d' ->
  d' = d \/ Exists (d_st d) = false /\ exists x hash d1, FlowHash (d_def d) = Ok hash /\
    Started_ExecID x = s_ExecID (d_st d) /\ Started_Flow x = f_Name (d_def d) /\ Started_FlowHash x = hash /\
    isObject (Started_Input x) = true /\ emit ExecutionStarted (DStarted x) d = Ok d1 /\ Inners d1 d'.
Proof.
  unfold start, invalid, Payload. destruct (decode_StartData _) as [p|]; [|done].
  destruct (Exists (d_st d)) eqn:Ex.
  { unfold CheckJoin. destruct (String.eqb _ _); simpl; [|done]. intros [= <-]. by left. }
  cbv zeta. destruct (isObject _) eqn:Eo; simpl; [|done]. intros HD. right. split; [done|].
  apply res_bind_ok in HD as (hash & Hh & (at_ & _ & (d1 & He & Hen)%res_bind_ok)%res_bind_ok).
  pose proof (enter_good (StartNode (d_def d1)) d1) as HG. rewrite Hen in HG. destruct HG as (HI & _).
  eexists _, hash, d1. split; [done|]. split; [|split; [|split; [|split; [|split; [exact He|done]]]]]; done.
Qed.

(** [d'] emitted events that base nothing after [d]. *)
Definition grows (d d' : decider) : Prop :=
  exists evs, d_out d' = d_out d ++ evs /\ Forall plain_event evs /\
    indexed_from (s_Events (d_st d)) evs /\ s_Events (d_st d') = s_Events (d_st d) + len evs.

Lemma grows_refl d : grows d d.
Proof. exists []. rewrite app_nil_r. split; [done|]. split; [done|]. split; [by intros i ev ?|]. unfold len. simpl. lia. Qed.

Lemma grows_trans d1 d2 d3 : grows d1 d2 -> grows d2 d3 -> grows d1 d3.
Proof.
  intros (l1 & O1 & F1 & I1 & N1) (l2 & O2 & F2 & I2 & N2). exists (l1 ++ l2). rewrite O2, O1, app_assoc.
  split; [done|]. split; [by apply Forall_app|]. split; [apply indexed_app; [done|]; by rewrite <- N1|].
  unfold len in *. rewrite length_app. lia.
Qed.

Lemma steadies_indexed d d' : Steadies d d' -> grows d d'.
Proof.
  intros HS. pose proof (steady_events _ _ HS) as (evs & Ho & HF).
  pose proof (emits_indexed _ _ (sends_emits _ _ (steady_sends _ _ HS))) as (evs' & Ho' & Hi & Hn).
  rewrite Ho in Ho'. apply app_inv_head in Ho' as <-. by exists evs.
Qed.

(** *** Decide *)

Lemma opened_indexed d t data d1 d' :
  t = payload_type data -> emit t data d = Ok d1 -> s_Events (d_st d1) = s_Events (d_st d) + 1 ->
  ev_Index (emit_event t data d) = s_Events (d_st d) + 1 -> grows d1 d' ->
  exists evs, d_out d' = d_out d ++ emit_event t data d :: evs /\ Forall plain_event evs /\
    indexed_from (s_Events (d_st d)) (emit_event t data d :: evs) /\
    s_Events (d_st d') = s_Events (d_st d) + len (emit_event t data d :: evs).
Proof.
  intros -> He Hev Hix (evs & Ho & HF & Hi & Hn).
  pose proof (emit_inv _ _ _ _ He) as (st & _ & ->). cbn [d_out d_st set_d_out set_d_st] in *. exists evs.
  rewrite Ho, <- app_assoc. split; [done|]. split; [done|]. split; [|unfold len in *; simpl; lia].
  intros [|i] ev Hl; [injection Hl as <-; rewrite Hix; lia|]. apply Hi in Hl. lia.
Qed.

Lemma Decide_good def st c now evs st' :
  Decide def st c now = Ok (evs, st') -> evs <> [] -> good_decision def st evs st'.
Proof.
  intros HD Hne. pose proof (Decide_replays _ _ _ _ _ _ HD) as [_ HR].
  pose proof (Decide_decision _ _ _ _ _ _ HD) as (d' & (HS & _) & Ho & Hs).
  pose proof (emits_indexed _ _ (sends_emits _ _ HS)) as (evs' & Ho' & Hi & Hn).
  simpl in Ho'. rewrite Ho in Ho'. subst evs' st'. simpl in Hi, Hn. split; [done|done|done|].
  destruct (decide (c_Type c = CStart)) as [Ec|Ec].
  - unfold Decide in HD. rewrite Ec in HD. apply decided_inv in HD as (d2 & HD & Ho2 & _).
    destruct (start_inv _ _ _ HD) as [->|(Ex & x & hash & d1 & _ & _ & _ & _ & Hx & He & HI)]; [by destruct Hne|].
    apply inners_steady, steady_events in HI as (evs1 & Ho1 & HF).
    pose proof (emit_inv _ _ _ _ He) as (st1 & _ & ->). simpl in Ho1. rewrite Ho1 in Ho2. subst evs.
    apply shape_open; [done| |done|done]. split; [by apply emit_unstored|done].
  - destruct (Decide_live _ _ _ _ _ _ HD Ec) as [[-> _]|(Ex & Et & d2 & HD2 & Ho2 & _)]; [done|].
    pose proof (dispatch_fine c (new_decider def st now (c_ID c))) as HF. rewrite HD2 in HF.
    destruct HF as (HF%steady_events & _). destruct HF as (evs1 & Ho1 & HF). simpl in Ho1.
    rewrite Ho1 in Ho2. subst evs1. by apply shape_plain.
Qed.

Lemma Continue_good def st seg cmdID now evs st' :
  Continue def st seg cmdID now = Ok (evs, st') -> evs <> [] -> good_decision def st evs st'.
Proof.
  intros HC Hne. pose proof (Continue_replays _ _ _ _ _ _ _ HC) as [_ HR].
  destruct (Continue_inv _ _ _ _ _ _ _ HC) as [[-> _]|(Ex & Et & ev & -> & [Ht [x Hx]] & Hi & _ & Hs)]; [done|].
  assert (Hu : unstored ev).
  { revert HC. unfold Continue. rewrite Ex, Et. simpl.
    intros (b & _ & (c & _ & (b2 & _ & (d & (st1 & _ & ->)%emit_inv & [= <-] & _)%decided_inv)%res_bind_ok)%res_bind_ok)%res_bind_ok.
    by apply emit_unstored. }
  split; [done| | |].
  - intros [|i] ev' Hl; [|done]. injection Hl as <-. simpl. lia.
  - subst st'. match goal with |- context [finish ?e ?s] => destruct (finish_frame e s) as (y & up & -> & _) end. done.
  - eapply shape_continued; [done| |done]. split; [done|]. unfold typed. by rewrite Ht, Hx.
Qed.

Lemma Abort_good def st cmdID reason msg now evs st' :
  Abort def st None cmdID reason msg now = Ok (evs, st') -> evs <> [] -> good_decision def st evs st'.
Proof.
  intros HA Hne. pose proof (Abort_replays _ _ _ _ _ _ _ _ _ HA) as [_ HR].
  revert HA. unfold Abort, invalid. destruct (Exists st) eqn:Ex; [|done]. simpl.
  destruct (Terminal _); [intros [= <- <-]; done|]. intros (d & Hf & <- & <-)%decided_inv.
  pose proof (fail_good reason msg "" (new_decider def st now cmdID)) as HG. rewrite Hf in HG.
  destruct HG as (HI%inners_steady%steadies_indexed & _). destruct HI as (evs & Ho & HF & Hi & Hn). simpl in *.
  rewrite Ho in *. split; [done|done|done|]. by apply shape_plain.
Qed.

(** *** Forks and aborted openings *)

Lemma each_grows keys (f : string -> Op) d d' :
  (forall k d, emits_to d (f k d)) -> each keys f d = Ok d' -> grows d d'.
Proof.
  intros Hf E. pose proof (emits_each keys f d Hf) as HI. rewrite E in HI.
  by apply steadies_indexed, inners_steady.
Qed.

Lemma rekick_task_emits k d : emits_to d (rekick_task k d).
Proof.
  unfold rekick_task. apply emits_pure; [apply deref_fuel|]. intros t _. destruct (bool_decide _); [constructor|].
  apply emits_pure; [apply deref_fuel|]. intros n _. apply good_emits, schedule_good.
Qed.

Lemma rekick_await_emits k d : emits_to d (rekick_await k d).
Proof. unfold rekick_await. apply emits_pure; [apply deref_fuel|]. intros n _. apply good_emits, await_good'. Qed.

Lemma rekick_grows d d' : rekick d = Ok d' -> grows d d'.
Proof.
  intros (d1 & E1 & (d2 & E2 & E3)%res_bind_ok)%res_bind_ok.
  eapply grows_trans; [by eapply each_grows, E1; apply rekick_task_emits|].
  eapply grows_trans; [by eapply each_grows, E2; apply rekick_await_emits|].
  apply each_grows in E3; [exact E3|apply rekick_child_emits].
Qed.

Lemma opened_good def st now cmdID t data d1 d' :
  t = payload_type data -> opens data = true -> portable data -> Exists st = false ->
  emit t data (new_decider def st now cmdID) = Ok d1 -> s_Events (d_st d1) = s_Events st + 1 ->
  ev_Index (emit_event t data (new_decider def st now cmdID)) = s_Events st + 1 -> grows d1 d' ->
  replay def st (d_out d') = Ok (d_st d') -> good_decision def st (d_out d') (d_st d').
Proof.
  intros Ht Ho Hp Ex He Hn Hix HG HR.
  destruct (opened_indexed _ _ _ _ _ Ht He Hn Hix HG) as (evs & Hout & HF & Hi & Hc). simpl in Hout, Hi, Hc.
  rewrite Hout in *. split; [done|done|done|]. apply shape_open; [done| |done|done].
  split; [by apply emit_unstored|]. split; [done|]. by destruct data.
Qed.

Lemma Fork_good def st src from seq cmdID writes now evs st' :
  Exists st = false -> s_Events st = 0 -> written writes ->
  DecideFork def st src from seq cmdID writes now = Ok (evs, st') -> good_decision def st evs st' /\
  exists rest, evs = emit_event ExecutionForked (DForked {| Forked_ExecID := s_ExecID st; Forked_From := from;
    Forked_Seq := seq; Forked_State := Some (reload src) |}) (new_decider def st now cmdID) :: rest.
Proof.
  intros Ex H0 Hw HD. pose proof (DecideFork_replays _ _ _ _ _ _ _ _ _ _ HD) as [_ HR].
  revert HD. unfold DecideFork, MarshalState. rewrite Ex. destruct (bool_decide _); [|done]. cbn [res_bind].
  match goal with |- context [emit _ (DForked ?x) _] => destruct (emit_forked def st src now cmdID x eq_refl)
    as (d & He & Hdef & Hterm & Hev & Hfl) end. rewrite He. cbn [res_bind].
  intros (d1 & H1 & HD)%res_bind_ok. assert (HG1 : grows d d1).
  { revert H1. destruct (bool_decide _); [intros [= <-]; apply grows_refl|]. destruct (Terminal _); [done|].
    destruct (CheckWrites _ _ _); [|done]. intros He1. eapply steadies_indexed, chain_emit; [|exact He1|constructor].
    by repeat split. }
  assert (exists d2, grows d1 d2 /\ d_out d2 = evs /\ d_st d2 = st') as (d2 & HG2 & <- & <-).
  { destruct (Terminal (s_Status (d_st d1))); apply decided_inv in HD as (d2 & HD & <- & <-); exists d2; split; try done.
    - injection HD as <-. apply grows_refl.
    - by apply rekick_grows. }
  pose proof (grows_trans _ _ _ HG1 HG2) as HG. split.
  - eapply opened_good; [| | |done|exact He| | |exact HG|done]; try done; [by rewrite Hev, H0|by rewrite H0].
  - destruct HG as (rest & -> & _). apply emit_inv in He as (st1 & _ & ->). by exists rest.
Qed.

(** An aborted opening: its first event, then the failure. *)
Lemma Abort_first_good def st first cmdID reason msg now evs st' :
  Exists st = false -> s_Events st = 0 -> base_event first -> opens (ev_Data first) = true ->
  portable (ev_Data first) ->
  Abort def st (Some first) cmdID reason msg now = Ok (evs, st') -> good_decision def st evs st'.
Proof.
  intros Ex H0 (_ & Ht & _) Ho Hp HA. pose proof (Abort_replays _ _ _ _ _ _ _ _ _ HA) as [_ HR].
  revert HA. unfold Abort. rewrite Ex. intros (d & He & HD)%res_bind_ok.
  assert (exists d2, grows d d2 /\ d_out d2 = evs /\ d_st d2 = st') as (d2 & HG2 & <- & <-).
  { destruct (Terminal (s_Status (d_st d))); apply decided_inv in HD as (d2 & HD & <- & <-); exists d2; split; try done.
    - injection HD as <-. apply grows_refl.
    - pose proof (fail_good reason msg "" d) as HG. rewrite HD in HG. by apply steadies_indexed, inners_steady, HG. }
  assert (Hn : s_Events (d_st d) = 1 /\ ev_Index (emit_event (ev_Type first) (ev_Data first) (new_decider def st now cmdID)) = 1).
  { rewrite Ht in *. destruct (ev_Data first) eqn:Ed; try discriminate Ho; cbn [payload_type] in *;
      match type of Ed with _ = _ ?y => rename y into x end.
    - destruct (emit_index ExecutionStarted (DStarted x) (new_decider def st now cmdID) d) as (-> & _ & ->); [done|done|]. simpl. lia.
    - split; [|done]. apply emit_inv in He as (s1 & Ha & ->). cbn [set_d_out set_d_st d_st]. revert Ha. clear.
      unfold Apply, emit_event. cbn [expected_index ev_Data wrap_apply res_bind ev_Index].
      rewrite bool_decide_eq_true_2 by done. cbn [Z.eqb negb andb]. unfold apply_. cbn [ev_Data]. unfold applyForked.
      destruct (Unmarshal (Forked_State x)) as [src|e]; cbn [res_bind wrap_apply]; [|done]. intros [= <-].
      match goal with |- context [finish ?e ?s] => destruct (finish_frame e s) as (y & up & -> & _) end. done. }
  destruct Hn as [Hn Hix]. eapply opened_good; [| | |done|exact He| | |exact HG2|done]; try done; rewrite H0; [by rewrite Hn|by rewrite Hix].
Qed.

Lemma Step_good def st evs st' : Step def st evs st' -> evs <> [] -> good_decision def st evs st'.
Proof. destruct 1; eauto using Decide_good, Continue_good, Abort_good. Qed.
End Decisions.

(** ** Who an execution is

    The fields that name an execution, its flow and its live log change on the
    events that base a state only. *)

Record Identity := { id_Exec : string; id_Flow : string; id_Hash : string; id_Base : Z; id_Segments : list Segment }.

Definition identity (s : State) : Identity := {|
  id_Exec := s_ExecID s; id_Flow := s_Flow s; id_Hash := s_FlowHash s; id_Base := s_Base s;
  id_Segments := s_Segments s |}.

Lemma identity_sim s t : s ≃ t -> identity s = identity t.
Proof.
  intros Hst. unfold identity.
  by rewrite (ExecID_sim _ _ Hst), (Flow_sim _ _ Hst), (FlowHash_sim _ _ Hst), (Base_sim _ _ Hst), (Segments_sim _ _ Hst).
Qed.

Definition identify (ev : FoldEvent) (i : Identity) : option Identity :=
  match ev_Data ev with
  | DStarted x => Some {| id_Exec := Started_ExecID x; id_Flow := Started_Flow x; id_Hash := Started_FlowHash x;
                          id_Base := id_Base i; id_Segments := id_Segments i |}
  | DForked x => src ← Forked_State x;
                 Some {| id_Exec := Forked_ExecID x; id_Flow := s_Flow src; id_Hash := s_FlowHash src;
                         id_Base := 0; id_Segments := [] |}
  | DContinued x => src ← Continued_State x;
                    Some {| id_Exec := s_ExecID src; id_Flow := s_Flow src; id_Hash := s_FlowHash src;
                            id_Base := ev_Index ev; id_Segments := s_Segments src |}
  | _ => Some i
  end.

Lemma finish_identity ev s : identity (finish ev s) = identity s.
Proof. by destruct (finish_frame ev s) as (x & up & -> & _). Qed.

Lemma Apply_identity def s ev s' : Apply def s ev = Ok s' -> identify ev (identity s) = Some (identity s').
Proof.
  unfold Apply. intros (n & _ & HA)%res_bind_ok. destruct (_ && _); [done|].
  apply res_bind_ok in HA as (s1 & Hw & [= <-]). rewrite finish_identity.
  destruct (apply_ def s ev) as [s2|e] eqn:Ha; [|done]. injection Hw as ->.
  destruct ev as [ty v tm ix c tr data sq de]. unfold identify. cbn [ev_Data ev_Index].
  destruct data; apply_cases Ha; done.
Qed.

Lemma replay_identity def s evs s' :
  replay def s evs = Ok s' -> Forall (fun ev => base_data (ev_Data ev) = false) evs -> identity s' = identity s.
Proof.
  unfold replay. revert s. induction evs as [|ev evs IH]; intros s; cbn [res_fold].
  { by intros [= <-]. }
  intros (s1 & Ha & Hr)%res_bind_ok [Hb HF]%Forall_cons. rewrite (IH _ Hr HF).
  apply Apply_identity in Ha. unfold identify in Ha. destruct (ev_Data ev); try discriminate Hb; congruence.
Qed.

(** ** Similar states stand alike *)

Lemma map_inv_sim def n m m' ts cs : rerun m = rerun m' -> map_inv def n m ts cs -> map_inv def n m' ts cs.
Proof.
  unfold rerun. intros [= Hi Ho Hd Hn Hp] [].
  apply (f_equal length) in Hi, Ho. rewrite !length_fmap in Hi, Ho.
  split; try done; rewrite <- ?Hn, <- ?Hd, <- ?Hi, <- ?Ho; try done. unfold len in *. by rewrite <- Hi.
Qed.

Lemma flight_sim s t : s ≃ t -> exists ms, flight t = set_fl_maps ms (flight s) /\ run_sim (s_Maps s) ms.
Proof.
  intros Hst. exists (s_Maps t). split; [|by apply Maps_sim]. unfold flight, set_fl_maps. cbn.
  by rewrite (Tasks_sim _ _ Hst), (Fans_sim _ _ Hst), (Awaits_sim _ _ Hst), (Children_sim _ _ Hst),
    (Timers_sim _ _ Hst), (N_sim _ _ Hst), (Buffered_sim _ _ Hst).
Qed.

Lemma place_sim def f ms : run_sim (fl_maps f) ms -> place def f -> place def (set_fl_maps ms f).
Proof.
  intros Hms HP. destruct HP as [n t tms N buf|n a tms N buf|n c tms N buf|n fan ts cs tms N buf|n m ts cs tms N buf HI Hne];
    unfold set_fl_maps; cbn [fl_maps fl_tasks fl_fans fl_awaits fl_children fl_timers fl_N fl_buffered] in *.
  5: { apply run_sim_singleton in Hms as (m' & -> & Hm). apply at_map; [by eapply map_inv_sim|done]. }
  all: rewrite (proj1 (run_sim_empty _ _ Hms) eq_refl); eauto using place.
Qed.

Lemma standing_sim def s t : s ≃ t -> standing def s -> standing def t.
Proof.
  intros Hst [He Hn Hl Ho]. destruct (flight_sim _ _ Hst) as (ms & Hf & Hms). unfold Exists in *.
  rewrite (Events_sim _ _ Hst), (Status_sim _ _ Hst) in *. split; [done|..]; rewrite Hf.
  - intros Ex. destruct (Hn Ex) as [Ht (tms & N & buf & Hfl & HA)]. split; [done|]. exists tms, N, buf. split; [|done].
    assert (Hm : s_Maps s = ∅) by (by injection Hfl). rewrite Hm in Hms.
    rewrite (proj1 (run_sim_empty _ _ Hms) eq_refl), Hfl. done.
  - intros Ex Ht. destruct (Hl Ex Ht) as [HP HA]. split; [by apply place_sim|exact HA].
  - intros Ht. pose proof (Ho Ht) as Hg. assert (Hm : s_Maps s = ∅) by (by injection Hg). rewrite Hm in Hms.
    rewrite (proj1 (run_sim_empty _ _ Hms) eq_refl). rewrite Hg. done.
Qed.

(** ** Registered flows

    The registry keeps definitions under their name and hash, for ever; what it
    keeps was validated. *)
Class Registry `{Evaluator} := {
  flows : string -> string -> option Flow;
  flows_identity n h def : flows n h = Some def -> f_Name def = n /\ FlowHash def = Ok h;
  flows_valid n h def : flows n h = Some def -> valid def }.

Section Chronicle.
Context `{HR : Registry}.

Definition registered (def : Flow) : Prop := exists n h, flows n h = Some def.

(** The flow of an identity. *)
Definition flow_of (i : Identity) : option Flow := flows (id_Flow i) (id_Hash i).

(** An event that bases a state of execution [x] of flow [def]. *)
Definition base_ok (def : Flow) (x : string) (ev : FoldEvent) : Prop :=
  forall i, exists i', identify ev i = Some i' /\ id_Exec i' = x /\ flow_of i' = Some def.

(** *** Decisions *)

(** A decision that opens an execution: a start, or a fork of [src]. *)
Inductive Opening (src : option State) (def : Flow) (s : State) : list FoldEvent -> State -> Prop :=
| open_start c now evs s' : Decide def s c now = Ok (evs, s') -> Opening src def s evs s'
| open_fork sr from seq cmdID writes now evs s' :
    src = Some sr -> written writes -> DecideFork def s sr from seq cmdID writes now = Ok (evs, s') ->
    Opening src def s evs s'.

(** Everything an engine appends: steps of a live execution, openings, and
    openings too large, replaced by their first event and a failure. *)
Inductive Decision (src : option State) (def : Flow) (s : State) : list FoldEvent -> State -> Prop :=
| dec_step evs s' : Step def s evs s' -> Decision src def s evs s'
| dec_open evs s' : Exists s = false -> Opening src def s evs s' -> Decision src def s evs s'
| dec_abort s1 first evs0 s0 cmdID reason msg now evs s' :
    s1 ≃ s -> Exists s = false -> Opening src def s1 (first :: evs0) s0 ->
    Abort def s (Some first) cmdID reason msg now = Ok (evs, s') -> Decision src def s evs s'.

(** [evs'] is [evs] as stored: with the trace of its command. *)
Definition traced (evs evs' : list FoldEvent) : Prop := exists trace, evs' = set_Trace trace <$> evs.

(** The archived segments of execution [x] are named after it. *)
Definition segs_named (x : string) (s : State) : Prop :=
  Forall (fun seg => exists n, Segment_Object seg = SegmentObject x n) (s_Segments s).
Definition named (x : string) (ev : FoldEvent) : Prop :=
  forall d src, ev_Data ev = DContinued d -> Continued_State d = Some src -> segs_named x src.

Definition last_seq {A} (h : list (Z * A)) : Z := match last h with Some (q, _) => q | None => 0 end.

(** [h ++ [(q, evs')]] is [h] with the decision [evs], made on a state like [t],
    appended. *)
Record Appends (x : string) (def : Flow) (h : list (Z * list FoldEvent)) (t : State) (evs : list FoldEvent)
    (q : Z) (evs' : list FoldEvent) (t' : State) : Prop := {
  ap_some : evs <> [];
  ap_seq : last_seq h < q;
  ap_traced : traced evs evs';
  ap_named : Forall (named x) evs';
  ap_fold : replay def t evs' = Ok t' }.

(** [Chronicle x d h t]: the decisions [h] of execution [x], of flow [d], fold to
    [t]. *)
Inductive Chronicle : string -> option Flow -> list (Z * list FoldEvent) -> State -> Prop :=
| chron_new x : Chronicle x None [] (NewState x)
| chron_next x d h t def s evs s' q evs' t' :
    Chronicle x d h t -> h = [] \/ d = Some def -> registered def -> s ≃ t ->
    Decision None def s evs s' -> Appends x def h t evs q evs' t' ->
    Chronicle x (Some def) (h ++ [(q, evs')]) t'
| chron_fork x d h t def from hs ts src s evs s' q evs' t' :
    Chronicle x d h t -> h = [] \/ d = Some def -> registered def -> s ≃ t ->
    Chronicle from (Some def) hs ts -> src ≃ ts -> Exists src = true ->
    Decision (Some src) def s evs s' -> Appends x def h t evs q evs' t' ->
    Chronicle x (Some def) (h ++ [(q, evs')]) t'.

(** *** The first event of an opening *)

Lemma registered_flow def hash : registered def -> FlowHash def = Ok hash -> flows (f_Name def) hash = Some def.
Proof. intros (n & h & Hf) Hh. destruct (flows_identity _ _ _ Hf) as [-> Hh']. congruence. Qed.

(** What a fork source must be. *)
Definition source_ok (def : Flow) (src : option State) : Prop :=
  forall sr, src = Some sr -> standing def sr /\ Exists sr = true /\ flow_of (identity sr) = Some def.

Lemma Opening_head src def s ev evs s' :
  registered def -> source_ok def src -> Exists s = false -> s_Events s = 0 ->
  Opening src def s (ev :: evs) s' ->
  base_event ev /\ opens (ev_Data ev) = true /\ portable (ev_Data ev) /\ base_ok def (s_ExecID s) ev.
Proof.
  intros Hreg Hsrc Ex H0 HO.
  inversion HO as [c now evs0 s0 HD|sr from seq cmdID writes now evs0 s0 Hs Hw HD]; subst.
  - unfold Decide in HD. rewrite Ex in HD. cbv zeta in HD. destruct (c_Type c); try discriminate HD.
    apply decided_inv in HD as (d & HD & Ho & _).
    destruct (start_inv _ _ _ HD) as [->|(_ & x & hash & d1 & Hh & Hx & Hf & Hfh & Hi & He & HI)]; [discriminate Ho|].
    apply inners_steady, steady_events in HI as (evs1 & Ho1 & _). apply emit_inv in He as (st1 & _ & ->).
    simpl in Ho1. rewrite Ho in Ho1. injection Ho1 as -> ->.
    split; [split; [by apply emit_unstored|done]|]. split; [done|]. split; [done|].
    intros i. eexists. split; [reflexivity|]. split; [done|]. unfold flow_of. cbn [id_Flow id_Hash].
    rewrite Hf, Hfh. by apply registered_flow.
  - destruct (Fork_good _ _ _ _ _ _ _ _ _ _ Ex H0 Hw HD) as [_ (rest & [= -> _])].
    split; [split; [by apply emit_unstored|done]|]. split; [done|]. split; [done|].
    intros i. eexists. split; [reflexivity|]. split; [done|]. by destruct (Hsrc sr eq_refl) as (_ & _ & Hf).
Qed.

(** The state a base event leads to. *)
Lemma base_ok_after def x ev s s' :
  base_ok def x ev -> Apply (Some def) s ev = Ok s' -> s_ExecID s' = x /\ flow_of (identity s') = Some def.
Proof.
  intros Hb HA%Apply_identity. destruct (Hb (identity s)) as (i & Hi & Hx & Hf). rewrite Hi in HA.
  injection HA as ->. done.
Qed.

(** An event with the same payload and index bases the same. *)
Lemma base_ok_same def x ev ev' :
  ev_Data ev' = ev_Data ev -> match ev_Data ev with DContinued _ => False | _ => True end ->
  base_ok def x ev -> base_ok def x ev'.
Proof. unfold base_ok, identify. intros -> Hc Hb i. specialize (Hb i). by destruct (ev_Data ev). Qed.

(** *** Openings that are aborted *)

Lemma Opening_data src def s ev evs s' :
  Exists s = false -> s_Events s = 0 -> Opening src def s (ev :: evs) s' ->
  ev_Type ev = payload_type (ev_Data ev) /\
  ((exists x, ev_Data ev = DStarted x) \/
   exists sr x, src = Some sr /\ ev_Data ev = DForked x /\ Forked_State x = Some (reload sr)).
Proof.
  intros Ex H0 HO. inversion HO as [c now evs0 s0 HD|sr from seq cmdID writes now evs0 s0 Hs Hw HD]; subst.
  - unfold Decide in HD. rewrite Ex in HD. cbv zeta in HD. destruct (c_Type c); try discriminate HD.
    apply decided_inv in HD as (d & HD & Ho & _).
    destruct (start_inv _ _ _ HD) as [->|(_ & x & hash & d1 & _ & _ & _ & _ & _ & He & HI)]; [discriminate Ho|].
    apply inners_steady, steady_events in HI as (evs1 & Ho1 & _). apply emit_inv in He as (st1 & _ & ->).
    simpl in Ho1. rewrite Ho in Ho1. injection Ho1 as -> ->. split; [done|]. left. by exists x.
  - destruct (Fork_good _ _ _ _ _ _ _ _ _ _ Ex H0 Hw HD) as [_ (rest & [= -> _])]. split; [done|]. right. eauto 6.
Qed.

Lemma forked_over def st src now cmdID x d :
  standing def src -> Terminal (s_Status src) = true -> Forked_State x = Some (reload src) ->
  emit ExecutionForked (DForked x) (new_decider def st now cmdID) = Ok d -> standing def (d_st d).
Proof.
  intros HS Et Hx He. destruct (emit_forked def st src now cmdID x Hx) as (d' & He' & _ & Hterm & Hev & Hfl).
  rewrite He in He'. injection He' as <-. rewrite Et in Hterm.
  split; [lia|unfold Exists; by rewrite Hev|by rewrite Hterm|]. intros _. rewrite Hfl.
  pose proof (sd_over _ _ HS Et) as Hg. injection Hg as E1 E2 E3 E4 E5 E6. unfold flight, set_fl_maps, set_fl_timers, ground.
  cbn [fl_tasks fl_fans fl_maps fl_awaits fl_children fl_timers fl_N fl_buffered]. by rewrite E1, E2, E3, E4, E5, fmap_empty.
Qed.

Lemma Abort_first_standing src def s s1 first evs0 s0 cmdID reason msg now evs s' :
  source_ok def src -> s1 ≃ s -> Exists s = false -> s_Events s = 0 ->
  Opening src def s1 (first :: evs0) s0 -> good_decision def s evs s' -> evs <> [] ->
  Abort def s (Some first) cmdID reason msg now = Ok (evs, s') -> standing def s'.
Proof.
  intros Hsrc Hs Ex H0 HO HG Hne HA.
  assert (Ex1 : Exists s1 = false) by (unfold Exists in *; by rewrite (Events_sim _ _ Hs)).
  destruct (Opening_data src def s1 first evs0 s0 Ex1) as [Ht Hdata]; [by rewrite (Events_sim _ _ Hs)|exact HO|].
  pose proof (gd_count _ _ _ _ HG) as Hc. revert HA. unfold Abort. rewrite Ex. intros (d & He & HD)%res_bind_ok.
  assert (Hev : 0 < s_Events s') by (unfold len in Hc; destruct evs; [done|]; simpl in Hc; lia).
  assert (Hdef : d_def d = def) by (by apply emit_inv in He as (st1 & _ & ->)).
  destruct (Terminal (s_Status (d_st d))) eqn:Et; apply decided_inv in HD as (d2 & HD & _ & <-).
  - injection HD as <-. rewrite Ht in He. destruct Hdata as [[x Hx]|(sr & x & -> & Hx & Hst)]; rewrite Hx in He; cbn [payload_type] in He.
    + exfalso. eapply emit_apply in He as (s2 & Ha & ->); [|by split]. unfold emit_event in Ha.
      apply_cases Ha; cbn [d_st set_d_out set_d_st] in Et;
      match type of Et with context [finish ?e ?s] => destruct (finish_frame e s) as (? & ? & E & Hy & _); rewrite E in Et end;
      cbn in Et, Hy; congruence.
    + destruct (Hsrc sr eq_refl) as (HS & _). eapply forked_over; [exact HS| |exact Hst|exact He].
      destruct (emit_forked def s sr now cmdID x Hst) as (d' & He' & _ & Hterm & _). rewrite He in He'.
      injection He' as <-. congruence.
  - pose proof (fail_ends def reason msg "" d Hdef) as HE. rewrite HD in HE. apply settled_standing; [by left|done].
Qed.

(** *** What every decision keeps *)

Lemma Continue_base def st seg cmdID now evs st' :
  flow_of (identity st) = Some def -> Continue def st seg cmdID now = Ok (evs, st') ->
  Forall (base_ok def (s_ExecID st)) evs.
Proof.
  intros Hf. unfold Continue, MarshalState. destruct (_ || _); [intros [= <- _]; constructor|].
  destruct (bool_decide _); [|done]. cbn [res_bind Unmarshal]. destruct (bool_decide _); [|done]. cbn [res_bind].
  intros (d & (st1 & _ & ->)%emit_inv & <- & _)%decided_inv. constructor; [|constructor].
  intros i. eexists. split; [reflexivity|]. split; [done|]. exact Hf.
Qed.

(** A decision that emits events, on a state of execution [x] of flow [def]. *)
Record decided_well (def : Flow) (s : State) (evs : list FoldEvent) (s' : State) : Prop := {
  dw_good : good_decision def s evs s';
  dw_standing : standing def s';
  dw_bases : Forall (fun ev => base_data (ev_Data ev) = true -> base_ok def (s_ExecID s) ev) evs }.

Definition placed (def : Flow) (s : State) : Prop :=
  standing def s /\ (Exists s = true -> flow_of (identity s) = Some def).

Lemma placed_events def s : placed def s -> Exists s = false -> s_Events s = 0.
Proof. intros [HS _] Ex. pose proof (sd_events _ _ HS). apply Z.ltb_ge in Ex. lia. Qed.

Lemma plain_bases def x evs :
  Forall plain_event evs -> Forall (fun ev => base_data (ev_Data ev) = true -> base_ok def x ev) evs.
Proof. intros HF. eapply Forall_impl; [exact HF|]. intros ev (_ & _ & Hb) Hb'. congruence. Qed.

Lemma Decide_plain def s c now evs s' :
  Exists s = true -> Decide def s c now = Ok (evs, s') -> Forall plain_event evs.
Proof.
  intros Ex HD. destruct (decide (c_Type c = CStart)) as [Ec|Ec].
  - unfold Decide in HD. rewrite Ec in HD. apply decided_inv in HD as (d2 & HD & Ho & _).
    destruct (start_inv _ _ _ HD) as [->|(Ex' & _)]; [by subst evs|]. cbn [new_decider d_st] in Ex'. congruence.
  - destruct (Decide_live _ _ _ _ _ _ HD Ec) as [[-> _]|(_ & _ & d2 & HD2 & Ho2 & _)]; [constructor|].
    pose proof (dispatch_fine c (new_decider def s now (c_ID c))) as HF. rewrite HD2 in HF.
    destruct HF as (HF%steady_events & _). destruct HF as (evs1 & Ho1 & HF). simpl in Ho1.
    rewrite Ho1 in Ho2. by subst evs1.
Qed.

Lemma Abort_failed def s cmdID reason msg now evs s' :
  Exists s = true -> Abort def s None cmdID reason msg now = Ok (evs, s') ->
  evs = [] /\ s' = s /\ Terminal (s_Status s) = true \/
  Forall plain_event evs /\ exists ev d, evs = [ev] /\ ev_Data ev = DFailed d /\ Failed_Reason d = reason.
Proof.
  intros Ex. unfold Abort. rewrite Ex. simpl. destruct (Terminal _) eqn:Et; [intros [= <- <-]; auto|].
  intros (d0 & Hfl & Ho & _)%decided_inv. right.
  pose proof (fail_good reason msg "" (new_decider def s now cmdID)) as HG'. rewrite Hfl in HG'.
  destruct HG' as (HI%inners_steady%steady_events & _). destruct HI as (evs1 & Ho1 & HF). simpl in Ho1.
  rewrite Ho in Ho1. subst evs1. split; [done|]. unfold fail_ in Hfl. apply emit_inv in Hfl as (st1 & _ & ->).
  subst evs. eexists _, _. split; [reflexivity|]. done.
Qed.

Lemma Step_well def s evs s' :
  valid def -> placed def s -> Exists s = true -> Step def s evs s' -> evs <> [] -> decided_well def s evs s'.
Proof.
  intros HV [HS Hf] Ex HD Hne. pose proof (Step_good _ _ _ _ HD Hne) as HG.
  split; [done|by eapply Step_standing|].
  destruct (gd_shape _ _ _ _ HG) as [ev evs Ex' _ _ _|evs _ HF|ev d _ _ Hd]; [congruence|by apply plain_bases|].
  destruct HD as [c now HD|seg cmdID now HD|cmdID reason msg now HA].
  - by eapply plain_bases, Decide_plain.
  - pose proof (Continue_base _ _ _ _ _ _ _ (Hf Ex) HD) as HB. eapply Forall_impl; [exact HB|]. done.
  - destruct (Abort_failed _ _ _ _ _ _ _ _ Ex HA) as [[? _]|[HF _]]; [done|by apply plain_bases].
Qed.

Lemma opened_bases def s ev evs :
  base_ok def (s_ExecID s) ev -> Exists s = false -> shape s (ev :: evs) ->
  Forall (fun ev => base_data (ev_Data ev) = true -> base_ok def (s_ExecID s) ev) (ev :: evs).
Proof.
  intros Hb Ex Hsh. inversion Hsh; subst; try congruence. constructor; [done|]. by apply plain_bases.
Qed.

Lemma Opening_well src def s evs s' :
  registered def -> source_ok def src -> placed def s -> Exists s = false ->
  Opening src def s evs s' -> evs <> [] -> decided_well def s evs s'.
Proof.
  intros Hreg Hsrc HP Ex HO Hne. pose proof (placed_events _ _ HP Ex) as H0. destruct HP as [HS _].
  assert (HV : valid def) by (destruct Hreg as (n & h & Hreg); by eapply flows_valid).
  destruct evs as [|ev evs]; [done|]. destruct (Opening_head _ _ _ _ _ _ Hreg Hsrc Ex H0 HO) as (_ & _ & _ & Hb).
  assert (good_decision def s (ev :: evs) s' /\ standing def s') as [HG HS'].
  { inversion HO as [c now evs0 s0 HD|sr from seq cmdID writes now evs0 s0 Hs Hw HD]; subst.
    - split; [by eapply Decide_good|]. eapply Step_standing; [done|exact HS|]. by eapply step_decide.
    - split; [by eapply Fork_good|]. destruct (Hsrc sr eq_refl) as (HSr & Exr & _).
      pose proof (DecideFork_standing def HV s sr from seq cmdID writes now HSr Exr Ex) as HF. by rewrite HD in HF. }
  split; [done|done|]. apply opened_bases; [done|done|]. apply HG.
Qed.

Lemma Abort_first_head def s first cmdID reason msg now evs s' :
  Exists s = false -> Abort def s (Some first) cmdID reason msg now = Ok (evs, s') ->
  exists rest, evs = emit_event (ev_Type first) (ev_Data first) (new_decider def s now cmdID) :: rest.
Proof.
  intros Ex. unfold Abort. rewrite Ex. intros (d & He & HD)%res_bind_ok.
  assert (exists d2, grows d d2 /\ d_out d2 = evs) as (d2 & (l & Ho & _) & <-).
  { destruct (Terminal (s_Status (d_st d))); apply decided_inv in HD as (d2 & HD & <- & _); exists d2; split; try done.
    - injection HD as <-. apply grows_refl.
    - pose proof (fail_good reason msg "" d) as HF. rewrite HD in HF. by apply steadies_indexed, inners_steady, HF. }
  apply emit_inv in He as (st1 & _ & ->). rewrite Ho. by exists l.
Qed.

Lemma Abort_first_well src def s s1 first evs0 s0 cmdID reason msg now evs s' :
  registered def -> source_ok def src -> placed def s -> s1 ≃ s -> Exists s = false ->
  Opening src def s1 (first :: evs0) s0 -> Abort def s (Some first) cmdID reason msg now = Ok (evs, s') ->
  evs <> [] -> decided_well def s evs s'.
Proof.
  intros Hreg Hsrc HP Hs Ex HO HA Hne. pose proof (placed_events _ _ HP Ex) as H0.
  assert (Ex1 : Exists s1 = false) by (unfold Exists in *; by rewrite (Events_sim _ _ Hs)).
  assert (H01 : s_Events s1 = 0) by (by rewrite (Events_sim _ _ Hs)).
  destruct (Opening_head _ _ _ _ _ _ Hreg Hsrc Ex1 H01 HO) as (Hbe & Hop & Hpo & Hb).
  rewrite (ExecID_sim _ _ Hs) in Hb.
  pose proof (Abort_first_good _ _ _ _ _ _ _ _ _ Ex H0 Hbe Hop Hpo HA) as HG.
  split; [done|by eapply Abort_first_standing|].
  destruct (Abort_first_head _ _ _ _ _ _ _ _ _ Ex HA) as [rest ->].
  apply opened_bases; [|done|apply HG]. eapply base_ok_same; [| |exact Hb]; [done|].
  by destruct (ev_Data first).
Qed.

Lemma Decision_well src def s evs s' :
  registered def -> source_ok def src -> placed def s -> Decision src def s evs s' -> evs <> [] ->
  decided_well def s evs s'.
Proof.
  intros Hreg Hsrc HP HD Hne.
  assert (HV : valid def) by (destruct Hreg as (n & h & Hreg); by eapply flows_valid).
  destruct HD as [evs s' HD|evs s' Ex HO|s1 first evs0 s0 cmdID reason msg now evs s' Hs Ex HO HA].
  - destruct (Exists s) eqn:Ex; [by apply Step_well|]. eapply (Opening_well src); try done.
    destruct HD as [c now HD|seg cmdID now HD|cmdID reason msg now HA]; [by econstructor| |]; exfalso.
    + unfold Continue in HD. rewrite Ex in HD. simpl in HD. by injection HD as <- _.
    + unfold Abort in HA. by rewrite Ex in HA.
  - by eapply Opening_well.
  - by eapply Abort_first_well.
Qed.
End Chronicle.
