(* ===== verification/ClientProps.v ===== *)
(** * What the client tells its caller

    The outcome of a start says whether the start was published; a wait ends
    only with a state that satisfies it, with the caller's context, or with an
    invalid id; a watch of ends agrees with the state. *)

From S2P Require Import Prelude Json Hash GoStrings Names Flow Event Cmd CmdCodec Reduce State StateFacts View Wire Cron Decide DecideRun Codec.
From S2P Require Import DecideProps Server Projection Sending EventLog Loader Engine Triggers Deliveries DispatchProps Worker Client Chronicle.

Section ClientProps.
Context `{Evaluator}.
Context (cfg : Config) (rounds : nat).

(** ** Requests *)

(** The server acknowledged the command. *)
Definition published_ok (c : Command) (tr : list Exchange) : Prop :=
  exists trace blob, {| x_call := Perform (PublishCommand c (msgID c) trace blob); x_answer := Ok tt |} ∈ tr.

(** No command was acknowledged. *)
Definition nothing_published (tr : list Exchange) : Prop :=
  forall c mid trace blob, {| x_call := Perform (PublishCommand c mid trace blob); x_answer := Ok tt |} ∈ tr -> False.

Lemma nothing_app t1 t2 : nothing_published t1 -> nothing_published t2 -> nothing_published (t1 ++ t2).
Proof. intros H1 H2 c mid tc b [Hin|Hin]%elem_of_app; [by eapply H1|by eapply H2]. Qed.

Lemma nothing_of {A} (p : Prog A) tr a : only not_command p -> Runs p tr a -> nothing_published tr.
Proof. intros HP HR c mid tc b Hin. apply (only_runs _ _ _ _ HP) in HR. rewrite Forall_forall in HR. by apply HR in Hin. Qed.

Lemma command_left c t1 t2 : published_ok c t1 -> published_ok c (t1 ++ t2).
Proof. intros (tc & b & Hin). exists tc, b. apply elem_of_app. by left. Qed.
Lemma command_right c t1 t2 : published_ok c t2 -> published_ok c (t1 ++ t2).
Proof. intros (tc & b & Hin). exists tc, b. apply elem_of_app. by right. Qed.

Lemma PublishCmd_outcome c trace tr r :
  Runs (PublishCmd cfg c trace) tr r -> match r with Ok _ => published_ok c tr | Err _ => nothing_published tr end.
Proof.
  intros HR. destruct r as [[]|e]; [apply PublishCmd_sent in HR as (_ & b & Hin); by exists trace, b|].
  unfold PublishCmd in HR. destruct (Cmd.Validate c); [destruct HR as [-> _]; intros ? ? ? ? Hin; by apply not_elem_of_nil in Hin|].
  apply runs_bind in HR as (t1 & o & t2 & H1 & H2 & ->). apply nothing_app.
  - eapply nothing_of; [|exact H1]. unfold offload_object. destruct (_ <=? _); [exact I|]. by repeat split.
  - destruct o as [blob|e']; [|destruct H2 as [-> _]; intros ? ? ? ? Hin; by apply not_elem_of_nil in Hin].
    destruct H2 as (a & t3 & -> & -> & Ha). intros c' mid tc b Hin. apply list_elem_of_singleton in Hin.
    destruct a as [[]|e']; [done|]. pose proof (f_equal (fun e => match x_call e as k return Answer k -> option (result unit) with
      | Perform _ => fun r => Some r | _ => fun _ => None end (x_answer e)) Hin) as HE. done.
Qed.

(** What an answer rests on: the engine's reply, or an event in the log. *)
Definition answered_by (inbox : string) (c : Command) (a : answer) (tr : list Exchange) : Prop :=
  if an_lost a then {| x_call := EvLast (c_ExecID c); x_answer := Ok (Some (an_seq a)) |} ∈ tr
  else exists rp, {| x_call := NextReply inbox; x_answer := Replied (Some rp) |} ∈ tr /\ rp_OK rp = true /\
         rp_Seq rp = an_seq a /\ rp_Joined rp = an_joined a.

Lemma answered_right inbox c a t1 t2 : answered_by inbox c a t2 -> answered_by inbox c a (t1 ++ t2).
Proof.
  unfold answered_by. destruct (an_lost a); [intros Hin; apply elem_of_app; by right|].
  intros (rp & Hin & HR). exists rp. split; [apply elem_of_app; by right|done].
Qed.

Lemma answered_left inbox c a t1 t2 : answered_by inbox c a t1 -> answered_by inbox c a (t1 ++ t2).
Proof.
  unfold answered_by. destruct (an_lost a); [intros Hin; apply elem_of_app; by left|].
  intros (rp & Hin & HR). exists rp. split; [apply elem_of_app; by left|done].
Qed.

Lemma lastSeq_run x tr seq : Runs (lastSeq x) tr seq -> 0 < seq -> {| x_call := EvLast x; x_answer := Ok (Some seq) |} ∈ tr.
Proof.
  unfold lastSeq, LastSeq. intros (r & t & -> & -> & <-) Hq. destruct r as [[q|]|e]; cbn in *; try lia. apply list_elem_of_here.
Qed.

Lemma request_rounds_run n inbox c creates rec chk tr r :
  Runs (request_rounds n inbox c creates rec chk) tr (Done r) -> match r with Ok a => answered_by inbox c a tr | Err _ => True end.
Proof.
  revert rec chk tr. induction n as [|n IH]; intros rec chk tr; cbn [request_rounds]; [by intros [_ ?]|].
  intros (t1 & a & t2 & H1 & H2 & ->)%runs_bind. apply runs_call in H1 as ->.
  destruct a as [data| |e|e]; [| |by destruct H2 as [_ [= <-]]..].
  - destruct H2 as [-> [= <-]]. destruct data as [rp|]; [|done]. cbn. destruct (rp_OK rp) eqn:Ek; [|done].
    exists rp. split; [apply list_elem_of_here|done].
  - apply runs_bind in H2 as (t3 & k & t4 & H3 & H4 & ->). destruct creates; cbn [negb] in H4.
    2: { apply IH in H4. destruct r; [by do 2 apply answered_right|done]. }
    apply runs_bind in H4 as (t5 & due & t6 & H5 & H6 & ->). destruct due.
    2: { apply IH in H6. destruct r; [by do 3 apply answered_right|done]. }
    apply runs_bind in H6 as (t7 & chk' & t8 & H7 & H8 & ->). apply runs_bind in H8 as (t9 & seq & t10 & H9 & H10 & ->).
    destruct (Z.ltb_spec 0 seq) as [Hq|Hq].
    + destruct H10 as [-> [= <-]]. do 4 apply answered_right. rewrite app_nil_r. by apply lastSeq_run.
    + apply IH in H10. destruct r; [by do 5 apply answered_right|done].
Qed.

(** The run of a request. *)
Lemma request_run c trace creates tr r pub :
  Runs (request cfg rounds c trace creates) tr (Done r, pub) ->
  if (pub : bool) then exists inbox, published_ok (with_reply inbox c) tr /\
    match r with Ok a => answered_by inbox (with_reply inbox c) a tr | Err _ => True end
  else nothing_published tr /\ exists e, r = Err e.
Proof.
  unfold request. intros (t1 & inbox & t2 & H1 & H2 & ->)%runs_bind. apply runs_call in H1 as ->.
  destruct inbox as [inbox|e].
  2: { destruct H2 as [-> [= <- <-]]. split; [|by eexists]. intros ? ? ? ? Hin. by apply list_elem_of_singleton in Hin. }
  apply runs_bind in H2 as (t3 & rec & t4 & H3 & H4 & ->). apply runs_call in H3 as ->.
  apply runs_bind in H4 as (t5 & chk & t6 & H5 & H6 & ->). apply runs_call in H5 as ->.
  apply runs_bind in H6 as (t7 & p & t8 & H7 & H8 & ->). apply PublishCmd_outcome in H7. destruct p as [u|e].
  - apply runs_bind in H8 as (t9 & a & t10 & H9 & [-> [= -> <-]] & ->). rewrite app_nil_r. exists inbox.
    split; [by do 3 apply command_right; apply command_left|]. apply request_rounds_run in H9.
    destruct r; [by do 4 apply answered_right|done].
  - destruct H8 as [-> [= <- <-]]. split; [|by eexists]. rewrite app_nil_r.
    repeat (apply nothing_app; [intros ? ? ? ? Hin; by apply list_elem_of_singleton in Hin|]). done.
Qed.

(** ** Starting *)

Lemma carries_reply inbox c t x p : carries c t x p -> carries (with_reply inbox c) t x p.
Proof. done. Qed.

(** The start that a call asks for. *)
Definition asks_for (flow id : string) (c : Command) : Prop :=
  c_ID c = "start." +:+ id /\
  exists version input, carries c CStart id (PStart {|
    StartData_Flow := flow; StartData_Version := version; StartData_Input := Some input; StartData_Parent := None |}).

Lemma start_command_run flow input o tr c :
  Runs (start_command flow input o) tr (Ok c) -> asks_for flow (so_id o) c /\ ValidToken (so_id o) = true.
Proof.
  unfold start_command. intros HR. run_ok HR. apply runs_lift in H0 as [-> Hx]. run_ok HR. run_ok HR.
  apply runs_bind in HR as (t7 & r & t8 & _ & HR & ->). destruct r as [f|e]; [|by destruct HR].
  apply runs_lift in HR as [-> HN]. symmetry in HN. split.
  - split; [unfold New in HN; destruct (encode_payload _); [by injection HN as <-|done]|].
    eexists _, _. by eapply New_carries.
  - unfold checkExecID, ValidateName in Hx. unfold CheckToken in Hx. by destruct (ValidToken (so_id o)).
Qed.

Lemma start_command_quiet flow input o : only not_command (start_command flow input o).
Proof. unfold start_command. repeat (apply only_fbind; [exact I|intros ?]). apply only_bind; [by split|]. by intros []. Qed.

Lemma Get_quiet x : only not_command (Get cfg x).
Proof.
  eapply (only_weaken (fun c => match c with Attach => true | _ => reads c end)); [by intros []|].
  unfold Get, StateAt. apply only_fbind; [exact I|intros _]. apply only_fbind; [by split|intros _].
  apply only_fbind; [eapply only_weaken; [|apply Load_silent]; by intros []|]. intros [st def].
  destruct (Exists st); [exact I|]. apply only_bind; [eapply only_weaken; [|apply LoadArchived_silent]; by intros []|]. done.
Qed.

(** What a successful start rests on. *)
Definition start_known (flow id : string) (tr : list Exchange) : Prop :=
  exists c inbox a, asks_for flow id c /\ published_ok (with_reply inbox c) tr /\ answered_by inbox (with_reply inbox c) a tr /\
    (an_lost a = true -> exists st, within (Get cfg id) (Ok st) tr /\ s_Flow st = flow).

Lemma start_known_right flow id t1 t2 : start_known flow id t2 -> start_known flow id (t1 ++ t2).
Proof.
  intros (c & inbox & a & Hc & Hp & Ha & Hl). exists c, inbox, a. split; [done|]. split; [by apply command_right|].
  split; [by apply answered_right|]. intros HL. destruct (Hl HL) as (st & Hw & Hf). exists st. split; [by apply within_right|done].
Qed.

Lemma checkStartedFlow_run x flow tr : Runs (checkStartedFlow cfg x flow) tr (Ok tt) -> exists st, within (Get cfg x) (Ok st) tr /\ s_Flow st = flow.
Proof.
  intros HR. run_ok HR. exists a. split; [by apply within_left, within_run|].
  destruct (String.eqb_spec (s_Flow a) flow); [done|by destruct HR].
Qed.

(** C20. What [Start] returns is true.  No error: the start of that flow
    under that id was published, and the engine replied that it exists, or an
    event of it was seen in the log and its state is of that flow.  An error with
    an id: the start was published, so it may still take effect.  An error without
    an id: the server acknowledged no command, or the id belongs to an execution
    of another flow. *)
Theorem start_tells flow input opts tr id err :
  Runs (Start cfg rounds flow input opts) tr (Done (id, err)) ->
  match err with
  | None => ValidToken id = true /\ start_known flow id tr
  | Some e =>
      if String.eqb id "" then nothing_published tr \/ errors_is e ErrExecutionConflict = true
      else exists c inbox, asks_for flow id c /\ published_ok (with_reply inbox c) tr
  end.
Proof.
  unfold Start. intros (t1 & a & t2 & H1 & H2 & ->)%runs_bind. apply runs_call in H1 as ->.
  assert (HA : forall r, nothing_published [{| x_call := Attach; x_answer := r |}])
    by (intros r ? ? ? ? Hin; by apply list_elem_of_singleton in Hin).
  destruct a as [[]|e]; [|destruct H2 as [-> [= <- <-]]; left; by rewrite app_nil_r].
  set (o0 := foldl _ _ _) in H2. apply runs_bind in H2 as (t3 & fresh & t4 & H3 & H4 & ->).
  assert (HN : nothing_published t3) by (eapply nothing_of; [|exact H3]; destruct (String.eqb _ _); [by split|exact I]).
  cbv zeta in H4. set (o := start_option _ _) in H4. assert (so_id o = fresh) as Ho by done. clearbody o.
  apply runs_bind in H4 as (t5 & c & t6 & H5 & H6 & ->).
  pose proof (nothing_of _ _ _ (start_command_quiet flow input o) H5) as HC.
  destruct c as [c|e]; [|destruct H6 as [-> [= <- <-]]; left; rewrite app_nil_r; by apply nothing_app, nothing_app].
  apply start_command_run in H5 as [Hc Hid]. apply runs_bind in H6 as (t7 & [r pub] & t8 & H7 & H8 & ->).
  assert (so_id o <> "") as Hne by (intros E; by rewrite E in Hid).
  destruct r as [r|]; [|by destruct H8]. apply request_run in H7.
  apply runs_bind in H8 as (t9 & r' & t10 & H9 & [-> [= HO]] & ->). rewrite app_nil_r.
  set (pre := [_]). rewrite !app_assoc. rewrite <- (app_assoc _ t7 t9). set (t := t7 ++ t9). set (before := (pre ++ t3) ++ t5).
  assert (HB : nothing_published before) by (apply nothing_app; [apply nothing_app; [apply HA|exact HN]|exact HC]).
  unfold start_outcome in HO. destruct pub.
  2: { destruct H7 as [Hn [e ->]]. destruct H9 as [-> <-].
       assert (id = "" /\ err = Some e) as [-> ->] by (destruct (errors_is e ErrExecutionConflict); by injection HO as <- <-).
       left. unfold t. rewrite app_nil_r. by apply nothing_app. }
  destruct H7 as (inbox & Hp & Ha).
  assert (HP : exists c inbox, asks_for flow (so_id o) c /\ published_ok (with_reply inbox c) (before ++ t))
    by (exists c, inbox; split; [done|]; by apply command_right, command_left).
  destruct r' as [a|e].
  - assert (HK : start_known flow (so_id o) (before ++ t)).
    { apply start_known_right. exists c, inbox, a.
      destruct r as [a'|e']; [|by destruct H9]. destruct (an_lost a') eqn:El.
      + apply runs_bind in H9 as (t11 & chk & t12 & H11 & [-> Hchk] & ->).
        destruct chk as [[]|]; [|done]. injection Hchk as <-. apply checkStartedFlow_run in H11 as (st & Hw & Hf).
        unfold t. rewrite app_nil_r. split; [done|]. split; [by apply command_left|]. split; [by apply answered_left|].
        intros _. exists st. split; [by apply within_right|done].
      + destruct H9 as [-> [= <-]]. unfold t. rewrite app_nil_r. split; [done|]. split; [done|]. split; [done|]. congruence. }
    destruct (an_joined a && so_exclusive o); injection HO as <- <-; [|by split].
    destruct (String.eqb_spec (so_id o) ""); done.
  - destruct (errors_is e ErrExecutionConflict) eqn:EC; injection HO as <- <-; [by right|].
    destruct (String.eqb_spec (so_id o) ""); done.
Qed.

(** ** Waiting *)

(** [st] was read in the run, and ends the wait. *)
Definition wait_read (x : string) (cond : option (State -> bool)) (st : State) (tr : list Exchange) : Prop :=
  wait_done cond st = true /\ within (Get cfg x) (Ok st) tr.

Lemma wait_read_right x cond st t1 t2 : wait_read x cond st t2 -> wait_read x cond st (t1 ++ t2).
Proof. intros [Hd Hw]. split; [done|by apply within_right]. Qed.

Lemma follow_rounds_run n x every cond tr st :
  Runs (follow_rounds cfg n x every (wait_done cond)) tr (Done (Ok (Some st))) -> wait_read x cond st tr.
Proof.
  revert tr. induction n as [|n IH]; intros tr; cbn [follow_rounds]; [by intros [_ ?]|].
  intros (t1 & m & t2 & _ & H2 & ->)%runs_bind. apply wait_read_right. destruct m as [subject m md|[e|]].
  - destruct (checkpoint every m md) as [seq check]. destruct check; cbn [negb] in H2; [|by apply IH].
    apply runs_bind in H2 as (t3 & r & t4 & H3 & H4 & ->). destruct r as [st'|e]; [|by destruct H4].
    destruct (wait_done cond st') eqn:Ed.
    + destruct H4 as [-> [= <-]]. split; [done|by apply within_left, within_run].
    + destruct (_ <? seq); [|by apply wait_read_right, IH]. by apply runs_bind in H4 as (? & ? & ? & _ & [_ ?] & _).
  - by destruct H2.
  - by apply runs_bind in H2 as (? & ? & ? & _ & [_ ?] & _).
Qed.

Lemma waitStep_run x cond tr st : Runs (waitStep cfg rounds x cond) tr (Done (Ok (Some st))) -> wait_read x cond st tr.
Proof.
  assert (HF : forall from tr, Runs (follow cfg rounds x from (bool_decide (is_Some cond)) (wait_done cond)) tr (Done (Ok (Some st))) ->
      wait_read x cond st tr).
  { intros from tr' (t1 & r & t2 & _ & H2 & ->)%runs_bind. apply wait_read_right. destruct r; [by eapply follow_rounds_run|by destruct H2]. }
  unfold waitStep. intros (t1 & r & t2 & H1 & H2 & ->)%runs_bind. destruct r as [st'|e].
  - destruct (wait_done cond st') eqn:Ed; [|by eapply wait_read_right, HF].
    destruct H2 as [-> [= <-]]. split; [done|by apply within_left, within_run].
  - destruct (errors_is e ErrMissing); [by eapply wait_read_right, HF|by destruct H2].
Qed.

(** Why a wait gives up: the context ended, before or while it waited to try again,
    or the client is not bound to a namespace. *)
Definition gives_up_wait (e : error) (tr : list Exchange) : Prop :=
  {| x_call := CtxErr; x_answer := Some e |} ∈ tr \/
  (exists d ended, {| x_call := Wait d; x_answer := false |} ∈ tr /\ {| x_call := CtxErr; x_answer := ended |} ∈ tr /\
     e = default (plain "context canceled") ended) \/
  {| x_call := Attached; x_answer := false |} ∈ tr.

Lemma gives_up_right e t1 t2 : gives_up_wait e t2 -> gives_up_wait e (t1 ++ t2).
Proof.
  intros [Hc|[(d & o & Hw & Hc & He)|Ha]]; [left|right; left; exists d, o|right; right]; rewrite ?elem_of_app; auto.
Qed.

Lemma wait_loop_run n x cond delay tr r :
  Runs (wait_loop cfg rounds n x cond delay) tr (Done r) ->
  match r with Ok st => wait_read x cond st tr | Err e => gives_up_wait e tr end.
Proof.
  revert delay tr. induction n as [|n IH]; intros delay tr; cbn [wait_loop]; [by intros [_ ?]|].
  assert (HR : forall delay t1 t2, Runs (wait_loop cfg rounds n x cond delay) t2 (Done r) ->
      match r with Ok st => wait_read x cond st (t1 ++ t2) | Err e => gives_up_wait e (t1 ++ t2) end).
  { intros delay' t1 t2 HR%IH. destruct r; [by apply wait_read_right|by apply gives_up_right]. }
  intros (t1 & s & t2 & H1 & H2 & ->)%runs_bind. destruct s as [[[st|]|e]|]; [| | |by destruct H2].
  - destruct H2 as [-> [= <-]]. rewrite app_nil_r. by apply waitStep_run.
  - by eapply HR.
  - apply runs_bind in H2 as (t3 & ended & t4 & H3 & H4 & ->). apply runs_call in H3 as ->. destruct ended as [e'|].
    { destruct H4 as [-> [= <-]]. apply gives_up_right. left. apply list_elem_of_here. }
    apply runs_bind in H4 as (t5 & att & t6 & H5 & H6 & ->). apply runs_call in H5 as ->. destruct att; cbn [negb] in H6.
    2: { destruct H6 as [-> [= <-]]. do 2 apply gives_up_right. right; right. apply list_elem_of_here. }
    apply runs_bind in H6 as (t7 & go & t8 & H7 & H8 & ->). apply runs_call in H7 as ->. destruct go.
    { rewrite !app_assoc. by eapply HR. }
    apply runs_bind in H8 as (t9 & rr & t10 & H9 & [-> [= ->]] & ->). unfold ctx_error in H9.
    apply runs_bind in H9 as (t11 & o & t12 & H11 & [-> <-] & ->). apply runs_call in H11 as ->.
    do 3 apply gives_up_right. right; left. exists delay, o. split; [apply list_elem_of_here|]. split; [|done].
    apply list_elem_of_further, list_elem_of_here.
Qed.

(** C21. A wait returns a state only if it read that state of the execution and
    the execution is over in it, or the condition the caller gave holds of it; it
    returns an error only if the id is invalid, the caller's context ended, or the
    client is not bound to its namespace (which the documentation of [Wait] leaves
    out): a read that fails is tried again. *)
Theorem wait_ends x cond tr r :
  Runs (wait cfg rounds x cond) tr (Done r) ->
  match r with
  | Ok st => wait_done cond st = true /\ within (Get cfg x) (Ok st) tr
  | Err e => checkExecID x = Err e \/ gives_up_wait e tr
  end.
Proof.
  unfold wait. destruct (checkExecID x) as [u|e] eqn:Ex; [|intros [_ [= <-]]; by left].
  intros HR%wait_loop_run. destruct r; [done|by right].
Qed.
End ClientProps.

(** ** Ends *)

Lemma terminal_name_type t : terminal_name (type_string t) = type_terminal t.
Proof. by destruct t. Qed.

Lemma find_terminal (evs : list FoldEvent) :
  List.find terminal_name (type_string ∘ ev_Type <$> evs) =
  (fun ev => type_string (ev_Type ev)) <$> List.find (fun ev => type_terminal (ev_Type ev)) evs.
Proof.
  induction evs as [|ev evs IH]; [done|]. rewrite fmap_cons. cbn [List.find]. unfold compose at 1.
  rewrite terminal_name_type, IH. by destruct (type_terminal (ev_Type ev)).
Qed.

(** The last event of a decision that ends the execution, and its status. *)
Lemma terminal_status def st (ev : FoldEvent) st' :
  typed ev -> type_terminal (ev_Type ev) = true -> Apply def st ev = Ok st' -> s_Status st' = endedStatus (type_string (ev_Type ev)).
Proof.
  intros Ht Hterm HA. unfold Apply in HA. apply res_bind_ok in HA as (i & _ & HA). destruct (_ && _); [done|].
  apply res_bind_ok in HA as (s & HA & HF). unfold typed in Ht. rewrite Ht in *.
  unfold apply_ in HA. destruct (ev_Data ev); try done; injection HA as <-; injection HF as <-; unfold finish; by destruct (IsZero _).
Qed.

Lemma find_last_terminal (evs : list FoldEvent) ev :
  (forall pre ev post, evs = pre ++ ev :: post -> type_terminal (ev_Type ev) = true -> post = []) ->
  last evs = Some ev -> type_terminal (ev_Type ev) = true -> List.find (fun ev => type_terminal (ev_Type ev)) evs = Some ev.
Proof.
  intros HU HL Ht. destruct (List.find (fun ev => type_terminal (ev_Type ev)) evs) as [ev'|] eqn:EF.
  - apply List.find_some in EF as [Hin Ht']. apply list_elem_of_In, list_elem_of_split in Hin as (pre & post & ->).
    rewrite (HU pre ev' post eq_refl Ht') in HL. rewrite last_snoc in HL. done.
  - apply last_Some in HL as [l ->]. pose proof (List.find_none _ _ EF ev) as HN. rewrite HN in Ht; [done|].
    apply in_or_app. right. by left.
Qed.

Lemma replay_last def st l ev st' : replay def st (l ++ [ev]) = Ok st' -> exists st1, Apply (Some def) st1 ev = Ok st'.
Proof.
  unfold replay. rewrite res_fold_app. destruct (res_fold _ _ l) as [st1|e]; [|done]. cbn. intros HR.
  exists st1. by destruct (Apply _ st1 ev).
Qed.

Section Ends.
Context `{Evaluator}.

(** C22. Whoever watches the headers of the log (the client's watch of ends,
    a worker that checks whether its job is still wanted) sees the end of an
    execution exactly when the decision ended it, with the status its state has
    afterwards. *)
Theorem ends_reported def id log st c now evs st' body h subject :
  Life def id log st -> Exists st = true -> Terminal (s_Status st) = false -> Decide def st c now = Ok (evs, st') ->
  EncodeDecision evs = Ok (body, h) ->
  terminalOf subject h = (if Terminal (s_Status st') then Some (lastToken subject, s_Status st') else None) /\
  existsb terminal_name (Types h) = Terminal (s_Status st').
Proof.
  intros HL Ex Ht HD HE. destruct (terminal_event_last _ _ _ _ _ _ _ _ HL Ht HD) as [HU HI].
  pose proof (Decide_plain _ _ _ _ _ _ Ex HD) as HP. apply Decide_replays in HD as [_ HR].
  assert (HF : List.find (fun ev => type_terminal (ev_Type ev)) evs = if Terminal (s_Status st') then last evs else None).
  { destruct (Terminal (s_Status st')) eqn:Es.
    - destruct (proj1 HI eq_refl) as (ev & Hl & Hev). rewrite Hl. by apply find_last_terminal.
    - destruct (List.find _ evs) as [ev|] eqn:EF; [|done]. apply List.find_some in EF as [Hin Hev].
      apply list_elem_of_In, list_elem_of_split in Hin as (pre & post & ->). rewrite (HU pre ev post eq_refl Hev) in HI.
      discriminate (proj2 HI). exists ev. by rewrite last_snoc. }
  split.
  - unfold terminalOf. rewrite (EncodeDecision_types _ _ _ HE), find_terminal, HF.
    destruct (Terminal (s_Status st')) eqn:Es; [|done]. destruct (proj1 HI eq_refl) as (ev & Hl & Hev). rewrite Hl. cbn. do 2 f_equal.
    apply last_Some in Hl as [l ->]. apply replay_last in HR as [st1 HA]. apply Forall_app in HP as [_ [HP _]%Forall_cons].
    symmetry. eapply terminal_status; [apply HP|done|exact HA].
  - rewrite (EncodeDecision_types _ _ _ HE). clear HR HE HP. destruct (Terminal (s_Status st')) eqn:Es.
    + destruct (proj1 HI eq_refl) as (ev & Hl & Hev). apply last_Some in Hl as [l ->]. apply existsb_exists.
      exists (type_string (ev_Type ev)). split; [|by rewrite terminal_name_type]. apply list_elem_of_In, list_elem_of_fmap.
      exists ev. split; [done|]. apply elem_of_app. right. apply list_elem_of_here.
    + apply not_true_iff_false. intros (t & Hin & Hn)%existsb_exists. apply list_elem_of_In, list_elem_of_fmap in Hin as (ev & -> & Hin).
      unfold compose in Hn. rewrite terminal_name_type in Hn. apply list_elem_of_In in Hin. by rewrite (List.find_none _ _ HF _ Hin) in Hn.
Qed.
End Ends.
