(* ===== verification/Facade.v ===== *)
(** * The engine as its users see it ([packtrail.go], and of [client.go] the flows)

    Setting a namespace up, archiving and deleting an execution on request,
    rebuilding the index, registering and listing flows; the store of application
    data and trace ids; and that the registry gives engines what they rely on. *)

From S2P Require Import Prelude Json Hash GoStrings Names Expr Flow FlowValidate Event Cmd CmdCodec Reduce State View Wire Cron Decide.
From S2P Require Import Codec NamesProps Server Projection IndexProps Sending EventLog Loader Engine Deliveries DispatchProps Triggers.
From S2P Require Import FlowValid FlowGraph Worker Provision Registry Client Options Chronicle ClientProps.

Section Facade.
Context `{Evaluator}.
Context (expr_Compile : string -> bool -> Text + list Expr.Op) (schema_Compile : Json -> option Text) (decode_flow : string -> result Flow).
Context (stream_map : StreamConfig -> option Conf) (kv_map : KvConfig -> option Conf) (object_map : ObjConfig -> option Conf).
Context (cfg : Config).

(** ** Set-up *)

(** [Init]: the deployed partition count; [initialized] if it already succeeded. *)
Definition init_flow (f : Flow) : Prog (result unit) :=
  let! r := RegisterFlow expr_Compile schema_Compile f in
  lift (match r with Ok _ => Ok tt | Err e => Err (wrapf "packtrail: register %s: %w" e) end).
Definition init_schedule (s : scheduleDef) : Prog (result unit) :=
  Schedule cfg (sd_name s) (sd_flow s) (sd_cron s) (ORaw (RValid (sd_input s))) [ScheduleTimeZone (sd_tz s)].

Definition Init (c : config) (initialized : option Z) : Prog (result Z) :=
  match initialized with
  | Some p => ok p
  | None =>
      try! n := lift (Names.New (cg_namespace c)) in
      try! p := Provision n stream_map kv_map object_map (cg_replicas c) (cg_partitions c) in
      try! _ := each init_flow (cg_flows c) in
      try! _ := each init_schedule (cg_schedules c) in
      ok p
  end.

(** [timeouts.apply]: what is set replaces the defaults. *)
Definition apply_timeouts (t defaults : timeouts) : timeouts :=
  let pick (v d : Z) := if 0 <? v then v else d in {|
    to_ackWait := pick (to_ackWait t) (to_ackWait defaults); to_pullExpiry := pick (to_pullExpiry t) (to_pullExpiry defaults);
    to_read := pick (to_read t) (to_read defaults); to_blob := pick (to_blob t) (to_blob defaults) |}.

(** ** Flows *)

(** [Client.Register], [Flows] and [Flow]; [None] is a nil definition. *)
Definition ClientRegister (def : option Flow) : Prog (result string) :=
  try! _ := call Attach in
  match def with
  | None => failed (invalid "nil flow")
  | Some def =>
      match CloneFlow expr_Compile schema_Compile decode_flow def with
      | Err e => failed (invalid (error_text e))
      | Ok cp => RegisterFlow expr_Compile schema_Compile cp
      end
  end.
Definition ClientFlows : Prog (result (list Version)) := try! _ := call Attach in ListFlows.
Definition ClientFlow (name version : string) : Prog (result Flow) :=
  try! _ := call Attach in
  let! r := GetFlow expr_Compile schema_Compile decode_flow name version in
  lift (match r with
        | Err e => if errors_is e ErrUnknownFlow then Err (Error [ErrNoFlow] (Sprintf "%w: %s" [AStr name])) else Err e
        | Ok def => Ok def
        end).

(** ** Executions *)

Definition not_finished (fmt x : string) (st : State) : error := invalid (Sprintf fmt [AStr x; AStr (status_string (s_Status st))]).

(** [Engine.Archive]. *)
Definition ArchiveNow (x : string) : Prog (result unit) :=
  try! _ := lift (checkExecID x) in
  try! st := Client.Get cfg x in
  if s_Archived st then ok tt
  else if negb (Terminal (s_Status st)) then failed (not_finished "%s is %s, only a finished execution can be archived" x st)
  else Engine.Archive cfg x.

(** [Engine.Delete]. *)
Definition DeleteNow (x : string) : Prog (result unit) :=
  try! _ := lift (checkExecID x) in
  try! st := Client.Get cfg x in
  if negb (Terminal (s_Status st)) then failed (not_finished "%s is %s, only a finished execution can be deleted" x st)
  else
    let! r := Engine.Delete cfg x in
    lift (match r with
          | DeleteDone => Ok tt
          | DeleteError e => Err e
          | TooRecent until => Err (invalid (Sprintf "%s finished less than %s ago, it can be deleted from %s" [AStr x; AInt DedupWindow; AInt until]))
          end).

(** [RebuildIndex]: how many executions were indexed, and an error or none. *)
Fixpoint rebuild (subjects : list string) (n : Z) : Prog (Z * option error) :=
  match subjects with
  | [] => Ret (n, None)
  | s :: subjects =>
      let! r := Load cfg (lastToken s) 0 in
      match r with
      | Ok (st, _) =>
          if negb (Exists st) then rebuild subjects n
          else
            let! i := Index st true true in
            match i with Err e => Ret (n, Some e) | Ok _ => rebuild subjects (n + 1) end
      | Err _ => rebuild subjects n
      end
  end.
Definition RebuildIndex (c : config) (initialized : option Z) : Prog (Z * option error) :=
  let! r := Init c initialized in
  match r with
  | Err e => Ret (0, Some e)
  | Ok _ =>
      let! s := call EventSubjects in
      match s with Err e => Ret (0, Some e) | Ok subjects => rebuild subjects 0 end
  end.

(** [stalledFor]: how long a consumer with pending messages went without an
    acknowledgement. *)
Definition stalledFor (created : Z) (lastAck : option Z) (pending now : Z) : Z :=
  if pending =? 0 then 0
  else now - match lastAck with Some t => if created <? t then t else created | None => created end.

(** ** Requests to remove an execution *)

(** Calls that remove something of an execution. *)
Definition removes (c : Call) : bool :=
  match c with
  | EvPurge _ _ | ArchErase _ | KvErase _ | SnapPurge _ => true
  | Perform (BlobDeleteExec _ | BlobEraseExec _ | EraseSnapshot _ | PurgeTimers _) => true
  | _ => false
  end.

Lemma get_keeps x : only (fun c => negb (removes c)) (Client.Get cfg x).
Proof.
  eapply (only_weaken (fun c => match c with Attach => true | _ => reads c end)); [by intros []|].
  unfold Client.Get, StateAt. apply only_fbind; [exact I|intros _]. apply only_fbind; [by split|intros _].
  apply only_fbind; [eapply only_weaken; [|apply Load_silent]; by intros []|]. intros [st def].
  destruct (Exists st); [exact I|]. apply only_bind; [eapply only_weaken; [|apply LoadArchived_silent]; by intros []|]. done.
Qed.

(** Nothing of an execution is removed on request unless a state of it was read in
    which it is finished. *)
Theorem removed_only_finished x tr r e :
  Runs (ArchiveNow x) tr r \/ Runs (DeleteNow x) tr r -> e ∈ tr -> removes (x_call e) = true ->
  exists st, within (Client.Get cfg x) (Ok st) tr /\ Terminal (s_Status st) = true.
Proof.
  intros HR Hin Hrm.
  assert (HG : forall (k : State -> Prog (result unit)),
    Runs (try! _ := lift (checkExecID x) in try! st := Client.Get cfg x in k st) tr r ->
    exists st t1 t2, tr = t1 ++ t2 /\ Runs (Client.Get cfg x) t1 (Ok st) /\ Runs (k st) t2 r /\ e ∈ t2).
  { intros k (t1 & u & t2 & [-> <-] & H2 & ->)%runs_bind. destruct (checkExecID x) as [[]|err]; [|by destruct H2 as [-> _]; apply not_elem_of_nil in Hin].
    apply runs_bind in H2 as (t3 & st & t4 & H3 & H4 & ->). rewrite app_nil_l in *. apply elem_of_app in Hin as [Hin|Hin].
    { pose proof (only_runs _ _ _ _ (get_keeps x) H3) as HF. rewrite Forall_forall in HF. apply HF in Hin. by rewrite Hrm in Hin. }
    destruct st as [st|err]; [|by destruct H4 as [-> _]; apply not_elem_of_nil in Hin]. by exists st, t3, t4. }
  destruct HR as [HR|HR]; apply HG in HR as (st & t1 & t2 & -> & H1 & H2 & Hin2).
  - destruct (s_Archived st); [by destruct H2 as [-> _]; apply not_elem_of_nil in Hin2|].
    destruct (Terminal (s_Status st)) eqn:Et; [|by destruct H2 as [-> _]; apply not_elem_of_nil in Hin2].
    exists st. split; [by apply within_left, within_run|done].
  - destruct (Terminal (s_Status st)) eqn:Et; [|by destruct H2 as [-> _]; apply not_elem_of_nil in Hin2].
    exists st. split; [by apply within_left, within_run|done].
Qed.
End Facade.

(** ** The store of application data and trace ids ([internal/store/store.go], [internal/wire/trace.go])

    Values live under "<namespace>.<key>", both tokens; a traceparent is split into
    its ids for log records. *)

(** ** Store *)

(** [bucket]: the key of a value, or of the namespace if [key] is empty. *)
Definition store_key (ns key : string) : result string :=
  let? _ := ValidateName "store namespace" ns in
  let? _ := (if String.eqb key "" then Ok tt else ValidateName "store key" key) in
  Ok (ns +:+ "." +:+ key).

(** [encode] checks a value as [marshalAny] does. *)
Definition store_encode (v : Output) : result RawMessage := marshalAny v.

Definition PutValue (ns key : string) (v : Output) : Prog (result unit) :=
  try! k := lift (store_key ns key) in
  try! b := lift (store_encode v) in
  call (StorePut k b).

Definition GetValue (ns key : string) : Prog (result RawMessage) :=
  try! k := lift (store_key ns key) in
  try! e := call (StoreGet k) in
  lift (match e with Some b => Ok b | None => Err (Error [ErrMissing] (Sprintf "%w: %s/%s" [AStr ns; AStr key])) end).

Definition DeleteValue (ns key : string) : Prog (result unit) :=
  try! k := lift (store_key ns key) in call (StoreDelete k).

(** [Keys]: without the namespace, sorted. *)
Definition ListKeys (ns : string) : Prog (result (list string)) :=
  try! _ := lift (store_key ns "") in
  try! keys := call (StoreKeys (ns +:+ ".*")) in
  ok (merge_sort str_le ((fun k => default k (CutPrefix k (ns +:+ "."))) <$> keys)).

(** The client's and the worker's view of it: once attached. *)
Definition StorePut_ (ns key : string) (v : Output) : Prog (result unit) := try! _ := call Attach in PutValue ns key v.
Definition StoreGet_ (ns key : string) : Prog (result RawMessage) := try! _ := call Attach in GetValue ns key.
Definition StoreDelete_ (ns key : string) : Prog (result unit) := try! _ := call Attach in DeleteValue ns key.
Definition StoreKeys_ (ns : string) : Prog (result (list string)) := try! _ := call Attach in ListKeys ns.

(** No two values share a key, whatever their namespaces. *)
Theorem store_keys_apart ns1 key1 ns2 key2 k :
  key1 <> "" -> key2 <> "" -> store_key ns1 key1 = Ok k -> store_key ns2 key2 = Ok k -> ns1 = ns2 /\ key1 = key2.
Proof.
  assert (HK : forall ns key, key <> "" -> store_key ns key = Ok k -> ValidToken key = true /\ k = ns +:+ "." +:+ key).
  { intros ns key Hk HS. apply res_bind_ok in HS as (u & _ & HS). apply res_bind_ok in HS as (u' & Hv & HS). injection HS as <-.
    split; [|done]. destruct (String.eqb_spec key ""); [done|]. unfold ValidateName, CheckToken in Hv. by destruct (ValidToken key). }
  intros H1 H2 [T1 E1]%HK [T2 E2]%HK; try done. apply dotted_inj; [done|done|congruence].
Qed.

(** ** Trace ids *)

Definition traceIDLen : nat := 32.
Definition spanIDLen : nat := 16.

Definition lower_hex (a : Ascii.ascii) : bool :=
  let c := Ascii.N_of_ascii a in ((48 <=? c) && (c <=? 57) || (97 <=? c) && (c <=? 102))%N.
Definition lowerHex (s : string) : bool := forallb lower_hex (String.list_ascii_of_string s).
Definition nonZeroHex (s : string) (n : nat) : bool :=
  (String.length s =? n)%nat && lowerHex s && existsb (fun a => negb (Ascii.eqb a (ascii_of 48))) (String.list_ascii_of_string s).

Definition TraceIDs (traceparent : string) : option (string * string) :=
  match split_at (ascii_of 45) traceparent with
  | version :: traceID :: spanID :: flags :: rest =>
      if negb (String.length version =? 2)%nat || String.eqb version "ff" || negb (String.length flags =? 2)%nat then None
      else if String.eqb version "00" && negb (length rest =? 0)%nat then None
      else if negb (lowerHex version) || negb (lowerHex flags) || negb (nonZeroHex traceID traceIDLen) || negb (nonZeroHex spanID spanIDLen) then None
      else Some (traceID, spanID)
  | _ => None
  end.

(** ** The registry serves engines

    What the bucket of flows holds, parsed, is what the class [Chronicle.Registry]
    asks for: the engines' theorems rest on what the registry's operations do. *)

Section Served.
Context `{Evaluator}.
Context (expr_Compile : string -> bool -> Text + list Expr.Op) (schema_Compile : Json -> option Text) (decode_flow : string -> result Flow).
Abbreviation parse := (ParseJSON expr_Compile schema_Compile decode_flow).
Abbreviation reached := (reg_reached expr_Compile schema_Compile decode_flow).

Definition stored_flow (ws : list (string * string)) (name h : string) : option Flow :=
  if String.eqb h latest then None
  else '(_, v) ← List.find (fun w => String.eqb (fst w) (version_key name h)) ws;
       match parse v with Ok def => Some def | Err _ => None end.

Lemma stored_flow_inv ws name h def :
  stored_flow ws name h = Some def -> h <> latest /\ exists v, (version_key name h, v) ∈ ws /\ parse v = Ok def.
Proof.
  unfold stored_flow. destruct (String.eqb_spec h latest); [done|]. intros ([k v] & [Hin Hk]%List.find_some & Hp)%bind_Some. split; [done|].
  apply String.eqb_eq in Hk as <-. exists v. split; [by apply list_elem_of_In|]. by destruct (parse v); simplify_eq/=.
Qed.

Lemma stored_flow_found s name h v def :
  reached s -> h <> latest -> (version_key name h, v) ∈ rg_writes s -> parse v = Ok def -> stored_flow (rg_writes s) name h = Some def.
Proof.
  intros [HI _]%reg_reached_inv Hl Hv Hp. unfold stored_flow. destruct (String.eqb_spec h latest); [done|].
  destruct (List.find _ _) as [[k v']|] eqn:EF.
  - apply List.find_some in EF as [Hin Hk]. apply String.eqb_eq in Hk. cbn in Hk. subst k. apply list_elem_of_In in Hin.
    cbn. by rewrite (rv_once _ _ _ _ _ HI _ v' v name h eq_refl Hl Hin Hv), Hp.
  - apply list_elem_of_In in Hv. pose proof (List.find_none _ _ EF _ Hv) as HN. cbn in HN. by rewrite String.eqb_refl in HN.
Qed.

(** The flows of a registry that was reached by registrations and reads. *)
Definition served (s : RegSystem) (HJ : FlowJson decode_flow) (HR : reached s) : Chronicle.Registry.
Proof.
  refine {| flows := stored_flow (rg_writes s) |}; intros name h def (Hl & v & Hv & Hp)%stored_flow_inv.
  - apply reg_reached_inv in HR as [HI _]. by eapply (version_identity expr_Compile schema_Compile decode_flow).
  - by eapply parse_valid.
Defined.

(** What a process fetches is what the registry serves, then and for ever. *)
Theorem fetched_served s s' pid name h def :
  reached s -> rtc (reg_step expr_Compile schema_Compile decode_flow) s s' -> h <> latest -> h <> "" ->
  (pid, TGet name h, Ret (Fetched (Ok def))) ∈ rg_tasks s -> stored_flow (rg_writes s') name h = Some def.
Proof.
  intros HR HS Hl Hne Hin. pose proof (reg_reached_inv _ _ _ _ HR) as [_ HF]. rewrite Forall_forall in HF.
  apply HF in Hin as (h' & v & [?| ->] & Hv & Hp); [done|].
  assert (Hg : rg_writes s ⊆ rg_writes s').
  { clear - HS. induction HS as [|s s1 s2 [pid t|i pid t c k r ws mem _ HA] _ IH]; [done|exact IH|]. etrans; [|exact IH]. by eapply answers_grown_reg. }
  eapply stored_flow_found; [unfold reg_reached in *; by etrans|done|by apply Hg|done].
Qed.
End Served.
