(* ===== verification/LogFold.v ===== *)
(** * Chronicles, step by step, and what folding stored decisions gives

    Each decision of a chronicle continues the state before it ([link]); hence
    the state of a chronicle is the fold of its events, the same for every
    reader, and reading stored decisions in any order either fails or gives the
    state after the last one read. *)

From S2P Require Import Prelude Json Hash Names Expr Flow FlowValidate FlowValid FlowGraph Event Cmd Reduce.
From S2P Require Import State StateFacts View Decide DecideRun Sim Codec DecideProps LogProps.
From S2P Require Import Flight Shape ShapeCmds Server EventLog Loader Chronicle.

Section LogFold.
Context `{HR : Registry}.

(** ** Links *)

Record link (x : string) (def : Flow) (t : State) (evs : list FoldEvent) (t' : State) : Prop := {
  lk_some : evs <> [];
  lk_replay : replay def t evs = Ok t';
  lk_indexed : indexed_from (s_Events t) evs;
  lk_count : s_Events t' = s_Events t + len evs;
  lk_shape : shape t evs;
  lk_bases : Forall (fun ev => base_data (ev_Data ev) = true -> base_ok def x ev) evs;
  lk_named : Forall (named x) evs }.

Lemma set_Trace_same tr ev : same_event ev (set_Trace tr ev).
Proof. done. Qed.

Lemma traced_same evs evs' : traced evs evs' -> Forall2 same_event evs evs'.
Proof. intros (tr & ->). induction evs; constructor; done. Qed.

Lemma unstored_trace tr ev : unstored ev -> unstored (set_Trace tr ev).
Proof. intros []. by split. Qed.

Lemma plain_trace tr evs : Forall plain_event evs -> Forall plain_event (set_Trace tr <$> evs).
Proof.
  intros HF. apply Forall_fmap. eapply Forall_impl; [exact HF|]. intros ev (Hu & Ht & Hb).
  split; [by apply unstored_trace|done].
Qed.

Lemma shape_trace s t tr evs : s ≃ t -> shape s evs -> shape t (set_Trace tr <$> evs).
Proof.
  intros Hst. assert (Hex : Exists t = Exists s) by (unfold Exists; by rewrite (Events_sim _ _ Hst)).
  destruct 1 as [ev evs Ex (Hu & Ht & Hb) Ho HF|evs Ex HF|ev d Ex (Hu & Ht & Hb) Hd]; cbn [fmap list_fmap].
  - apply shape_open; [congruence| |done|by apply plain_trace]. split; [by apply unstored_trace|done].
  - apply shape_plain; [congruence|]. by apply plain_trace.
  - eapply shape_continued; [congruence| |exact Hd]. split; [by apply unstored_trace|done].
Qed.

Lemma indexed_trace n tr evs : indexed_from n evs -> indexed_from n (set_Trace tr <$> evs).
Proof. intros HI i ev (ev0 & -> & Hl)%list_lookup_fmap_Some. by apply HI in Hl. Qed.

Lemma appended_sim def s t evs evs' s' t' :
  s ≃ t -> traced evs evs' -> replay def s evs = Ok s' -> replay def t evs' = Ok t' -> s' ≃ t'.
Proof.
  intros Hst Htr Hs Ht. pose proof (fold_sim (Some def) evs evs' s t Hst (traced_same _ _ Htr)) as HF.
  unfold replay in Hs, Ht. rewrite Hs, Ht in HF. exact HF.
Qed.

(** The link of a decision made on a similar state, as stored. *)
Lemma well_link x def h s t evs s' q evs' t' :
  s ≃ t -> s_ExecID t = x -> decided_well def s evs s' -> Appends x def h t evs q evs' t' -> link x def t evs' t'.
Proof.
  intros Hst Hx [HG HS HB] [Hne _ (tr & ->) Hn Hf]. split; [|done|..|done].
  - by destruct evs.
  - rewrite <- (Events_sim _ _ Hst). apply indexed_trace, HG.
  - assert (Hs : s' ≃ t').
    { eapply appended_sim; [exact Hst|by exists tr|apply HG|exact Hf]. }
    rewrite <- (Events_sim _ _ Hs), <- (Events_sim _ _ Hst), (gd_count _ _ _ _ HG). unfold len. by rewrite length_fmap.
  - eapply shape_trace; [exact Hst|]. apply HG.
  - apply Forall_fmap. eapply Forall_impl; [exact HB|]. intros ev Hb Hd i. rewrite <- Hx, <- (ExecID_sim _ _ Hst).
    by apply Hb.
Qed.

(** ** States after a link *)

Lemma link_identity x def t evs t' :
  s_ExecID t = x -> (Exists t = true -> flow_of (identity t) = Some def) -> link x def t evs t' ->
  s_ExecID t' = x /\ flow_of (identity t') = Some def.
Proof.
  intros Hx Hf HL. pose proof (lk_replay _ _ _ _ _ HL) as HRp. pose proof (lk_bases _ _ _ _ _ HL) as HB.
  destruct (lk_shape _ _ _ _ _ HL) as [ev evs Ex (_ & _ & Hb) Ho HF|evs Ex HF|ev d Ex (_ & _ & Hb) Hd].
  - apply Forall_cons in HB as [HB _]. unfold replay in HRp. cbn [res_fold] in HRp.
    apply res_bind_ok in HRp as (t1 & Ha & HRp). destruct (base_ok_after _ _ _ _ _ (HB Hb) Ha) as [Hx1 Hf1].
    assert (HI : identity t' = identity t1).
    { eapply replay_identity; [exact HRp|]. eapply Forall_impl; [exact HF|]. by intros ev' (_ & _ & ?). }
    rewrite HI. split; [|done]. change (id_Exec (identity t') = x). by rewrite HI.
  - assert (HI : identity t' = identity t).
    { eapply replay_identity; [exact HRp|]. eapply Forall_impl; [exact HF|]. by intros ev' (_ & _ & ?). }
    rewrite HI. split; [|by apply Hf]. change (id_Exec (identity t') = x). by rewrite HI.
  - apply Forall_cons in HB as [HB _]. unfold replay in HRp. cbn [res_fold] in HRp.
    apply res_bind_ok in HRp as (t1 & Ha & [= ->]). by apply (base_ok_after _ _ _ _ _ (HB Hb) Ha).
Qed.

Lemma link_exists x def t evs t' : 0 <= s_Events t -> link x def t evs t' -> Exists t' = true.
Proof.
  intros H0 HL. apply Z.ltb_lt. rewrite (lk_count _ _ _ _ _ HL). pose proof (lk_some _ _ _ _ _ HL).
  destruct evs; [done|]. unfold len. simpl. lia.
Qed.

(** ** What holds along a chronicle *)

Record annals (x : string) (d : option Flow) (h : list (Z * list FoldEvent)) (t : State) : Prop := {
  an_exec : s_ExecID t = x;
  an_def : match d with
           | None => h = [] /\ t = NewState x
           | Some def => h <> [] /\ registered def /\ placed def t /\ Exists t = true
           end }.

Lemma annals_placed x d h t def : annals x d h t -> h = [] \/ d = Some def -> placed def t.
Proof.
  intros [_ HD] Hd. destruct d as [def'|].
  - destruct Hd as [->|[= <-]]; [by destruct HD|]. by destruct HD as (_ & _ & ? & _).
  - destruct HD as [_ ->]. split; [apply NewState_standing|done].
Qed.

Lemma placed_sim def s t : s ≃ t -> placed def t -> placed def s.
Proof.
  intros Hst [HS Hf]. split; [eapply standing_sim; [symmetry; exact Hst|done]|].
  unfold Exists. rewrite (Events_sim _ _ Hst), (identity_sim _ _ Hst). exact Hf.
Qed.

Lemma annals_step src x d h t def s evs s' q evs' t' :
  annals x d h t -> h = [] \/ d = Some def -> registered def -> s ≃ t -> source_ok def src ->
  Decision src def s evs s' -> Appends x def h t evs q evs' t' ->
  link x def t evs' t' /\ annals x (Some def) (h ++ [(q, evs')]) t'.
Proof.
  intros HA Hd Hreg Hst Hsrc HD HP. pose proof (annals_placed _ _ _ _ _ HA Hd) as Ht.
  pose proof (placed_sim _ _ _ Hst Ht) as Hs.
  pose proof (Decision_well _ _ _ _ _ Hreg Hsrc Hs HD (ap_some _ _ _ _ _ _ _ _ HP)) as HW.
  pose proof (well_link _ _ _ _ _ _ _ _ _ _ Hst (an_exec _ _ _ _ HA) HW HP) as HL. split; [done|].
  destruct (link_identity _ _ _ _ _ (an_exec _ _ _ _ HA) (proj2 Ht) HL) as [Hx Hf]. split; [done|].
  split; [by destruct h|]. split; [done|]. split; [|eapply link_exists; [|exact HL]; apply sd_events with def, Ht].
  split; [|done]. eapply standing_sim; [|apply HW].
  eapply appended_sim; [exact Hst|apply HP|apply HW|apply HP].
Qed.

Lemma chronicle_annals x d h t : Chronicle x d h t -> annals x d h t.
Proof.
  induction 1 as [x|x d h t def s evs s' q evs' t' _ IH Hd Hreg Hst HD HA|
    x d h t def from hs ts src s evs s' q evs' t' _ IH Hd Hreg Hst _ IHs Hsrc Exs HD HA].
  - by split.
  - eapply annals_step in HD as [_ ?]; try done.
  - eapply annals_step in HD as [_ ?]; try done. intros sr [= <-].
    destruct (an_def _ _ _ _ IHs) as (_ & _ & HPs & _). apply (placed_sim _ _ _ Hsrc) in HPs as [HS Hf].
    split; [done|]. split; [done|]. by apply Hf.
Qed.

Lemma source_known from def hs ts src :
  Chronicle from (Some def) hs ts -> src ≃ ts -> Exists src = true -> source_ok def (Some src).
Proof.
  intros HC Hsrc Exs sr [= <-]. apply chronicle_annals in HC.
  destruct (an_def _ _ _ _ HC) as (_ & _ & HPs & _). apply (placed_sim _ _ _ Hsrc) in HPs as [HS Hf].
  split; [done|]. split; [done|]. by apply Hf.
Qed.

(** The last decision of a chronicle. *)
Lemma chronicle_snoc x d h q evs t' :
  Chronicle x d (h ++ [(q, evs)]) t' -> exists d0 t def, d = Some def /\ registered def /\
    Chronicle x d0 h t /\ (h = [] \/ d0 = Some def) /\ last_seq h < q /\ link x def t evs t'.
Proof.
  remember (h ++ [(q, evs)]) as h' eqn:Eh.
  destruct 1 as [x|x d h0 t def s evs0 s' q0 evs' t' HC Hd Hreg Hst HD HA|
    x d h0 t def from hs ts src s evs0 s' q0 evs' t' HC Hd Hreg Hst HCs Hsrc Exs HD HA].
  - by destruct h.
  - apply app_inj_tail in Eh as [-> [= -> ->]]. exists d, t, def. split; [done|]. split; [done|].
    split; [done|]. split; [done|]. split; [apply HA|].
    eapply annals_step in HD as [? _]; try done. by apply chronicle_annals.
  - apply app_inj_tail in Eh as [-> [= -> ->]]. exists d, t, def. split; [done|]. split; [done|].
    split; [done|]. split; [done|]. split; [apply HA|].
    eapply annals_step in HD as [? _]; try done; [by apply chronicle_annals|by eapply source_known].
Qed.

(** A chronicle without its last decisions. *)
Lemma chronicle_prefix x d h h' t :
  Chronicle x d (h ++ h') t -> exists d0 t0, Chronicle x d0 h t0 /\ (h = [] \/ d0 = d).
Proof.
  revert d t. induction h' as [|[q evs] h' IH] using rev_ind; intros d t.
  { rewrite app_nil_r. eauto. }
  rewrite app_assoc. intros (d0 & t0 & def & -> & _ & HC & Hd & _)%chronicle_snoc.
  destruct (IH _ _ HC) as (d1 & t1 & HC1 & Hd1). exists d1, t1. split; [done|].
  destruct Hd as [[-> _]%app_eq_nil| ->]; [by left|done].
Qed.

(** *** Numbers *)

Definition events (h : list (Z * list FoldEvent)) : list FoldEvent := concat (snd <$> h).

Lemma events_app h1 h2 : events (h1 ++ h2) = events h1 ++ events h2.
Proof. unfold events. by rewrite fmap_app, concat_app. Qed.

Lemma events_snoc h q evs : events (h ++ [(q, evs)]) = events h ++ evs.
Proof. rewrite events_app. unfold events at 2. cbn. by rewrite app_nil_r. Qed.

Lemma last_seq_snoc {A} (h : list (Z * A)) q a : last_seq (h ++ [(q, a)]) = q.
Proof. unfold last_seq. by rewrite last_snoc. Qed.

Record numbered_log (h : list (Z * list FoldEvent)) (t : State) : Prop := {
  nl_count : s_Events t = len (events h);
  nl_indexed : indexed_from 0 (events h);
  nl_some : Forall (fun d => snd d <> []) h;
  nl_seqs : Forall (fun d => 0 < fst d <= last_seq h) h }.

Lemma chronicle_numbered x d h t : Chronicle x d h t -> numbered_log h t.
Proof.
  revert d t. induction h as [|[q evs] h IH] using rev_ind; intros d t HC.
  - apply chronicle_annals, an_def in HC. destruct d; [by destruct HC|]. destruct HC as [_ ->]. split; [done|by intros i ev Hl|constructor..].
  - apply chronicle_snoc in HC as (d0 & t0 & def & -> & _ & HC & _ & Hq & HL).
    destruct (IH _ _ HC) as [Hc Hi Hs Hseq]. split.
    + rewrite events_snoc, (lk_count _ _ _ _ _ HL), Hc. unfold len. rewrite length_app. lia.
    + rewrite events_snoc. apply indexed_app; [done|]. rewrite Z.add_0_l, <- Hc. apply HL.
    + apply Forall_app. split; [done|]. constructor; [apply HL|constructor].
    + rewrite last_seq_snoc. apply Forall_app. split; [eapply Forall_impl; [exact Hseq|]; simpl; lia|].
      constructor; [|constructor]. cbn. split; [|lia]. destruct h as [|d1 h]; [exact Hq|].
      apply Forall_cons in Hseq as [Hd1 _]. lia.
Qed.

Lemma last_seq_nonneg x d h t : Chronicle x d h t -> 0 <= last_seq h.
Proof.
  intros HC%chronicle_numbered%nl_seqs. destruct h as [|d1 h]; [done|]. apply Forall_cons in HC as [? _]. lia.
Qed.

Lemma last_seq_zero x d h t : Chronicle x d h t -> last_seq h = 0 -> h = [].
Proof.
  intros HC%chronicle_numbered%nl_seqs H0. destruct h as [|d1 h]; [done|]. apply Forall_cons in HC as [? _]. lia.
Qed.

(** *** One flow, one state *)

Lemma link_opens x def id evs t' :
  link x def (NewState id) evs t' -> exists ev evs', evs = ev :: evs' /\ base_ok def x ev.
Proof.
  intros HL. pose proof (lk_bases _ _ _ _ _ HL) as HB.
  destruct (lk_shape _ _ _ _ _ HL) as [ev evs Ex (_ & _ & Hb) _ _|evs Ex|ev d Ex _ _]; try discriminate Ex.
  apply Forall_cons in HB as [HB _]. eauto.
Qed.

Lemma base_ok_flow def1 def2 x ev : base_ok def1 x ev -> base_ok def2 x ev -> def1 = def2.
Proof.
  intros H1 H2. destruct (H1 (identity (NewState x))) as (i1 & E1 & _ & F1).
  destruct (H2 (identity (NewState x))) as (i2 & E2 & _ & F2). congruence.
Qed.

Lemma chronicle_fun x d1 d2 h t1 t2 :
  Chronicle x d1 h t1 -> Chronicle x d2 h t2 -> d1 = d2 /\ t1 = t2.
Proof.
  revert d1 d2 t1 t2. induction h as [|[q evs] h IH] using rev_ind; intros d1 d2 t1 t2 H1 H2.
  - apply chronicle_annals in H1, H2. pose proof (an_def _ _ _ _ H1) as HD1. pose proof (an_def _ _ _ _ H2) as HD2.
    destruct d1, d2; destruct HD1 as [? HD1], HD2 as [? HD2]; try done. by subst.
  - apply chronicle_snoc in H1 as (e1 & u1 & f1 & -> & _ & H1 & Hf1 & _ & HL1).
    apply chronicle_snoc in H2 as (e2 & u2 & f2 & -> & _ & H2 & Hf2 & _ & HL2).
    destruct (IH _ _ _ _ H1 H2) as [-> ->]. assert (Hf : f1 = f2).
    { destruct h as [|d h]; [|destruct Hf1, Hf2; congruence].
      apply chronicle_annals in H1. pose proof (an_def _ _ _ _ H1) as HD.
      destruct e2 as [f|]; [by destruct HD as [[] _]|]. destruct HD as [_ ->].
      destruct (link_opens _ _ _ _ _ HL1) as (ev & evs' & -> & HB1).
      destruct (link_opens _ _ _ _ _ HL2) as (ev2 & evs2 & [= <- <-] & HB2).
      by eapply base_ok_flow. }
    subst f2. split; [done|]. pose proof (lk_replay _ _ _ _ _ HL1). pose proof (lk_replay _ _ _ _ _ HL2). congruence.
Qed.

(** ** Prefixes of a chronicle *)

Lemma chronicle_prefix_of x d h h0 t :
  Chronicle x d h t -> h0 `prefix_of` h -> exists d0 t0, Chronicle x d0 h0 t0 /\ (h0 = [] \/ d0 = d).
Proof. intros HC [h' ->]. by eapply chronicle_prefix. Qed.

Lemma prefix_same_events x d h t h0 :
  Chronicle x d h t -> h0 `prefix_of` h -> len (events h0) = len (events h) -> h0 = h.
Proof.
  intros HC [k ->] Hl. apply chronicle_numbered, nl_some in HC. apply Forall_app in HC as [_ Hk].
  destruct k as [|[q evs] k]; [by rewrite app_nil_r|]. apply Forall_cons in Hk as [Hne _]. simpl in Hne.
  rewrite events_app in Hl. unfold len, events in Hl. cbn in Hl. rewrite !length_app in Hl. destruct evs; [done|]. simpl in Hl. lia.
Qed.

Lemma prefix_same_seq x d h t h0 :
  Chronicle x d h t -> h0 `prefix_of` h -> last_seq h0 = last_seq h -> h0 = h.
Proof.
  intros HC [k ->]. destruct k as [|[q evs] k _] using rev_ind; [by rewrite app_nil_r|].
  rewrite app_assoc in HC. rewrite app_assoc, last_seq_snoc.
  apply chronicle_snoc in HC as (d0 & t0 & def & _ & _ & HC & _ & Hq & _). intros Hl. exfalso.
  assert (last_seq h0 <= last_seq (h0 ++ k)); [|lia]. destruct h0 as [|[q0 e0] h0 _] using rev_ind.
  { unfold last_seq at 1. simpl. by eapply last_seq_nonneg. }
  rewrite last_seq_snoc. apply chronicle_numbered, nl_seqs in HC. rewrite <- app_assoc in HC.
  apply Forall_app in HC as [_ HC]. simpl in HC. apply Forall_cons in HC as [HC _]. simpl in HC. rewrite <- app_assoc. simpl. lia.
Qed.

(** The place of a stored decision in a chronicle. *)
Lemma decision_split x d L T q evs :
  Chronicle x d L T -> (q, evs) ∈ L -> exists h da t def t',
    d = Some def /\ h ++ [(q, evs)] `prefix_of` L /\ Chronicle x da h t /\ (h = [] \/ da = Some def) /\
    link x def t evs t' /\ Chronicle x (Some def) (h ++ [(q, evs)]) t'.
Proof.
  intros HC (ha & hb & ->)%list_elem_of_split.
  assert (Hp : ha ++ [(q, evs)] `prefix_of` ha ++ (q, evs) :: hb) by (exists hb; by rewrite <- app_assoc).
  destruct (chronicle_prefix_of _ _ _ _ _ HC Hp) as (d1 & t' & HC1 & Hd).
  assert (d1 = d) as -> by (by destruct Hd as [[_ ?]%app_eq_nil|]).
  pose proof HC1 as (da & t & def & -> & _ & HCa & Hda & _ & HL)%chronicle_snoc.
  exists ha, da, t, def, t'. eauto 10.
Qed.

(** ** Folding what was read *)

(** [s] is the state of [x] as of some decision of its log [L]. *)
Definition as_of (x : string) (L : list (Z * list FoldEvent)) (s : State) : Prop :=
  exists d h t, h `prefix_of` L /\ Chronicle x d h t /\ s ≃ t /\ s_LastSeq s = last_seq h.

Lemma as_of_new x L : as_of x L (NewState x).
Proof. exists None, [], (NewState x). split; [apply prefix_nil|]. split; [constructor|]. done. Qed.

Lemma as_of_prefix x L L' s : L `prefix_of` L' -> as_of x L s -> as_of x L' s.
Proof. intros Hp (d & h & t & Hh & ?). exists d, h, t. split; [by etrans|done]. Qed.

(** A fork or a continuation sets the whole state. *)
Lemma Apply_anew def s t ev :
  match ev_Data ev with DForked _ | DContinued _ => True | _ => False end -> Apply def s ev = Apply def t ev.
Proof. unfold Apply, expected_index, apply_. by destruct (ev_Data ev). Qed.

Lemma stamped_snoc q evs ev : stamped q (evs ++ [ev]) = (stamp q false <$> evs) ++ [stamp q true ev].
Proof.
  induction evs as [|e evs IH]; [done|]. cbn [app fmap list_fmap]. rewrite <- IH. by destruct evs.
Qed.

Lemma stamped_same q evs : Forall2 same_event evs (stamped q evs).
Proof.
  destruct evs as [|ev evs _] using rev_ind; [constructor|]. rewrite stamped_snoc.
  apply Forall2_app; [|by repeat constructor]. induction evs; constructor; done.
Qed.

Lemma load_step_sim def s t ev : s ≃ t -> rsim sim (load_step def s ev) (Apply (Some def) t ev).
Proof.
  intros Hst. unfold load_step. pose proof (Apply_sim (Some def) ev s t Hst) as HA.
  destruct (Apply (Some def) s ev) as [s1|e], (Apply (Some def) t ev) as [t1|e']; done.
Qed.

Lemma load_fold_sim def s t evs s' :
  s ≃ t -> res_fold (load_step def) s evs = Ok s' -> exists t', replay def t evs = Ok t' /\ s' ≃ t'.
Proof.
  intros Hst HF. pose proof (rsim_fold sim (load_step def) (Apply (Some def)) evs s t (load_step_sim def) Hst) as HS.
  rewrite HF in HS. by apply rsim_ok in HS.
Qed.

Lemma load_fold_seq def s evs ev s' : res_fold (load_step def) s (evs ++ [ev]) = Ok s' -> s_LastSeq s' = ev_Seq ev.
Proof.
  rewrite res_fold_app. intros (s1 & _ & HF)%res_bind_ok. cbn [res_fold] in HF.
  apply res_bind_ok in HF as (s2 & HL & [= <-]). by apply res_bind_ok in HL as (s3 & _ & [= <-]).
Qed.

(** A decision, as read back, on a state like the one it was made on. *)
Lemma load_same def s t evs evs' s' q :
  s ≃ t -> Forall2 same_event evs evs' -> evs' <> [] -> replay def s evs = Ok s' ->
  exists t', res_fold (load_step def) t (stamped q evs') = Ok t' /\ s' ≃ t' /\ s_LastSeq t' = q.
Proof.
  intros Hst HF Hne Hr. assert (HF2 : Forall2 same_event evs (stamped q evs')).
  { assert (Transitive same_event) by (intros e1 e2 e3 (? & ? & ?) (? & ? & ?); repeat split; congruence).
    etrans; [exact HF|apply stamped_same]. }
  pose proof (fold_sim (Some def) _ _ s t Hst HF2) as HS1. unfold replay in Hr. rewrite Hr in HS1.
  apply rsim_ok in HS1 as (t1 & Ht1 & Hs1).
  pose proof (rsim_fold sim (load_step def) (Apply (Some def)) (stamped q evs') t t (load_step_sim def) (reflexivity _)) as HS2.
  rewrite Ht1 in HS2. destruct (res_fold (load_step def) t _) as [t'|e] eqn:E; [|done]. exists t'. split; [done|].
  split; [by etrans; [exact Hs1|symmetry]|]. destruct evs' as [|ev evs' _] using rev_ind; [done|].
  rewrite stamped_snoc in E. by apply load_fold_seq in E.
Qed.

(** Two decisions that start at the same count are the same. *)
Lemma same_start x d L T h1 h2 d1 t1 d2 t2 :
  Chronicle x d L T -> h1 `prefix_of` L -> h2 `prefix_of` L -> Chronicle x d1 h1 t1 -> Chronicle x d2 h2 t2 ->
  s_Events t1 = s_Events t2 -> h1 = h2.
Proof.
  intros HC P1 P2 C1 C2 He. pose proof (nl_count _ _ (chronicle_numbered _ _ _ _ C1)) as N1.
  pose proof (nl_count _ _ (chronicle_numbered _ _ _ _ C2)) as N2.
  destruct (prefix_weak_total _ _ _ P1 P2) as [P|P]; [|symmetry]; eapply prefix_same_events; try done; lia.
Qed.

(** Folding one stored decision on a state of the chronicle gives the state after
    it. *)
Lemma fold_decision x d L T def s0 q evs s1 :
  Chronicle x d L T -> d = Some def -> (q, evs) ∈ L -> as_of x L s0 ->
  res_fold (load_step def) s0 (stamped q evs) = Ok s1 ->
  exists h t, h ++ [(q, evs)] `prefix_of` L /\ Chronicle x (Some def) (h ++ [(q, evs)]) t /\ s1 ≃ t /\ s_LastSeq s1 = q.
Proof.
  intros HC -> Hin (d0 & h0 & t0 & Hp0 & HC0 & Hs0 & _) HF.
  destruct (decision_split _ _ _ _ _ _ HC Hin) as (h & da & t & def' & t' & [= <-] & Hp & HCa & Hda & HL & HCb).
  exists h, t'. split; [done|]. split; [done|].
  assert (Hq : s_LastSeq s1 = q).
  { pose proof (lk_some _ _ _ _ _ HL) as Hne. destruct evs as [|ev evs _] using rev_ind; [done|].
    rewrite stamped_snoc in HF. by apply load_fold_seq in HF. }
  split; [|done]. destruct (load_fold_sim _ _ _ _ _ Hs0 HF) as (t1 & Hr & Hs1). rewrite Hs1. clear Hs1.
  assert (Hr' : replay def t0 evs = Ok t1).
  { unfold replay in *. clear -Hr. revert t0 Hr. pose proof (stamped_same q evs) as HS. induction HS as [|e e' l l' He _ IH]; [done|].
    intros t0. cbn [res_fold]. rewrite (Apply_same _ _ _ _ He). destruct (Apply _ _ _); [|done]. apply IH. }
  clear Hr. pose proof (lk_replay _ _ _ _ _ HL) as Hrt. pose proof (lk_indexed _ _ _ _ _ HL) as Hi.
  pose proof (nl_count _ _ (chronicle_numbered _ _ _ _ HCa)) as Hn.
  destruct evs as [|ev evs]; [by destruct (lk_some _ _ _ _ _ HL)|]. specialize (Hi 0%nat ev eq_refl).
  unfold replay in *. cbn [res_fold] in *. apply res_bind_ok in Hr' as (u & Ha & Hr'), Hrt as (v & Hb & Hrt).
  destruct (decide (match ev_Data ev with DForked _ | DContinued _ => true | _ => false end = true)) as [Ea|Ea].
  - rewrite (Apply_anew (Some def) t0 t) in Ha by (by destruct (ev_Data ev)). congruence.
  - assert (h0 = h) as ->.
    { eapply same_start; [exact HC|done|etrans; [|exact Hp]; by eexists|exact HC0|exact HCa|].
      revert Ha. unfold Apply. assert (expected_index t0 ev = Ok (s_Events t0 + 1)) as -> by (unfold expected_index; by destruct (ev_Data ev)).
      cbn [wrap_apply res_bind]. destruct (Z.eqb_spec (ev_Index ev) 0) as [E0|_]; [unfold len in Hn; lia|].
      destruct (Z.eqb_spec (ev_Index ev) (s_Events t0 + 1)) as [E|_]; [|done]. lia. }
    destruct (chronicle_fun _ _ _ _ _ _ HC0 HCa) as [_ ->]. congruence.
Qed.

(** The events of decisions, as readers get them. *)
Definition stamped_all (D : list (Z * list FoldEvent)) : list FoldEvent :=
  concat ((fun d => stamped (fst d) (snd d)) <$> D).

(** Folding stored decisions, whatever their order, gives the state after the
    last one, or fails. *)
Lemma fold_decisions x def L T s0 D s1 :
  Chronicle x (Some def) L T -> Forall (fun d => d ∈ L) D -> as_of x L s0 ->
  res_fold (load_step def) s0 (stamped_all D) = Ok s1 -> as_of x L s1.
Proof.
  intros HC HD. revert s0. induction HD as [|[q evs] D Hin _ IH]; intros s0 Hs0.
  { by intros [= <-]. }
  unfold stamped_all. cbn. rewrite res_fold_app. intros (s2 & HF & HR2)%res_bind_ok. eapply IH; [|exact HR2].
  destruct (fold_decision _ _ _ _ _ _ _ _ _ HC eq_refl Hin Hs0 HF) as (h & t & Hp & HCh & Hst & Hq).
  exists (Some def), (h ++ [(q, evs)]), t. split; [done|]. split; [done|]. split; [done|].
  by rewrite last_seq_snoc.
Qed.

(** ** The whole log *)

(** The state of a chronicle is the fold of its events. *)
Lemma chronicle_replay x d L t :
  Chronicle x d L t -> forall def, L = [] \/ d = Some def -> replay def (NewState x) (events L) = Ok t.
Proof.
  revert d t. induction L as [|[q evs] L IH] using rev_ind; intros d t HC def Hd.
  - apply chronicle_annals, an_def in HC. destruct d; [by destruct HC|]. by destruct HC as [_ ->].
  - apply chronicle_snoc in HC as (d0 & t0 & def0 & -> & _ & HC & Hd0 & _ & HL). destruct Hd as [Hd|[= ->]]; [by destruct L|].
    rewrite events_snoc. unfold replay. rewrite res_fold_app. unfold replay in IH. rewrite (IH _ _ HC def Hd0). apply HL.
Qed.

(** An execution is opened once. *)
Lemma chronicle_opened x d q evs L t :
  Chronicle x d ((q, evs) :: L) t ->
  exists ev rest, evs = ev :: rest /\ opens (ev_Data ev) = true /\
    Forall (fun ev => opens (ev_Data ev) = false) (rest ++ events L).
Proof.
  revert d t. induction L as [|[q' evs'] L IH] using rev_ind; intros d t HC.
  - apply (chronicle_snoc x d [] q evs t) in HC as (d0 & t0 & def0 & -> & _ & HC & _ & _ & HL).
    apply chronicle_annals, an_def in HC. destruct d0; [by destruct HC|]. destruct HC as [_ ->].
    destruct (lk_shape _ _ _ _ _ HL) as [ev evs Ex _ Ho HF|evs Ex _|ev d Ex _ _]; try discriminate Ex.
    exists ev, evs. split; [done|]. split; [done|]. rewrite app_nil_r. eapply Forall_impl; [exact HF|].
    intros e (_ & _ & Hb). by destruct (ev_Data e).
  - rewrite app_comm_cons in HC. apply chronicle_snoc in HC as (d0 & t0 & def0 & -> & _ & HC & Hd0 & _ & HL).
    destruct (IH _ _ HC) as (ev & rest & -> & Ho & HF). exists ev, rest. split; [done|]. split; [done|].
    rewrite events_snoc, app_assoc. apply Forall_app. split; [done|].
    apply chronicle_annals, an_def in HC. destruct d0 as [df|]; [|by destruct HC]. destruct HC as (_ & _ & _ & Ex).
    destruct (lk_shape _ _ _ _ _ HL) as [e evs Ex' _ _ _|evs _ HFp|e d _ _ Hd]; [congruence| |].
    + eapply Forall_impl; [exact HFp|]. intros e (_ & _ & Hb). by destruct (ev_Data e).
    + constructor; [by rewrite Hd|constructor].
Qed.

Lemma shape_unstored s evs : shape s evs -> Forall unstored evs.
Proof.
  destruct 1 as [ev evs _ [Hu _] _ HF|evs _ HF|ev d _ [Hu _] _].
  - constructor; [done|]. eapply Forall_impl; [exact HF|]. by intros e (? & _).
  - eapply Forall_impl; [exact HF|]. by intros e (? & _).
  - by apply Forall_singleton.
Qed.

(** The events of a chronicle were stored by no one yet. *)
Lemma chronicle_unstored x d L t : Chronicle x d L t -> Forall unstored (events L).
Proof.
  revert d t. induction L as [|[q evs] L IH] using rev_ind; intros d t HC; [constructor|].
  apply chronicle_snoc in HC as (d0 & t0 & def0 & -> & _ & HC & _ & _ & HL). rewrite events_snoc. apply Forall_app.
  split; [by eapply IH|]. by eapply shape_unstored, lk_shape.
Qed.

(** [Fold] of events without a sequence. *)
Lemma Fold_replay def x evs : Forall unstored evs -> Fold (Some def) x evs = replay def (NewState x) evs.
Proof.
  unfold Fold, replay. generalize (NewState x). intros s HF. revert s. induction HF as [|ev evs [_ _ Hs _ _] _ IH]; intros s; [done|].
  cbn [res_fold]. unfold fold_step at 1. rewrite Hs. destruct (Apply (Some def) s ev); cbn; [apply IH|done].
Qed.

(** C34. A decision survives the event stream: traced,
    encoded member by member, stored, and decoded by another process through the
    table of payload types, it is made of the same events, its header lists their
    types, and folded on a state that encodes like the decider's it gives a state that encodes like the decider's, at the sequence
    of the message. *)
Theorem decisions_survive_encoding def s t evs s' trace body h q :
  Step def s evs s' -> s ≃ t -> EncodeDecision (set_Trace trace <$> evs) = Ok (body, h) ->
  exists t', DecodeDecision body = Ok (set_Trace trace <$> evs) /\ Types h = (type_string ∘ ev_Type <$> evs) /\
    res_fold (load_step def) t (stamped q (set_Trace trace <$> evs)) = Ok t' /\ s' ≃ t' /\ s_LastSeq t' = q.
Proof.
  intros HS Hst HE. assert (Hne : evs <> []) by (intros ->; done). pose proof (Step_good _ _ _ _ HS Hne) as [Hr _ _ Hsh].
  destruct (load_same def s t evs (set_Trace trace <$> evs) s' q) as (t' & HF & Hs & Hq); [done|by apply traced_same; exists trace|by destruct evs|done|].
  exists t'. split; [eapply EncodeDecision_unstored; [|exact HE]|].
  { apply Forall_fmap. eapply Forall_impl; [by eapply shape_unstored|]. apply unstored_trace. }
  split; [rewrite (EncodeDecision_types _ _ _ HE), <- list_fmap_compose; done|]. done.
Qed.
End LogFold.
