(* ===== verification/Reading.v ===== *)
(** * What readers of a log get

    Readers get whole decisions.  The cuts the loader and the engine make (up to
    a sequence, from the last base, from the last continuation, from the base of
    a state) keep decisions whole, and archiving keeps events as they are. *)

From S2P Require Import Prelude Json Hash Names Expr Flow FlowValidate FlowValid FlowGraph Event Cmd Reduce.
From S2P Require Import State StateFacts View Decide DecideRun Sim Codec DecideProps LogProps.
From S2P Require Import Flight Shape ShapeCmds Server EventLog Loader Engine Chronicle LogFold.

Section Reading.
Context `{HR : Registry}.

(** The decisions of [D] are decisions of [L]. *)
Abbreviation within L D := (Forall (fun d => d ∈ L) D).

(** [evs] are the events of decisions of [L]. *)
Definition whole (L : list (Z * list FoldEvent)) (evs : list FoldEvent) : Prop :=
  exists D, within L D /\ evs = stamped_all D.

Lemma stamped_all_app D1 D2 : stamped_all (D1 ++ D2) = stamped_all D1 ++ stamped_all D2.
Proof. unfold stamped_all. by rewrite fmap_app, concat_app. Qed.

Lemma stamped_all_cons q evs D : stamped_all ((q, evs) :: D) = stamped q evs ++ stamped_all D.
Proof. done. Qed.

Lemma whole_nil L : whole L [].
Proof. exists []. split; [constructor|done]. Qed.

Lemma whole_app L l1 l2 : whole L l1 -> whole L l2 -> whole L (l1 ++ l2).
Proof.
  intros (D1 & H1 & ->) (D2 & H2 & ->). exists (D1 ++ D2). split; [by apply Forall_app|].
  by rewrite stamped_all_app.
Qed.

Lemma whole_prefix L L' l : L `prefix_of` L' -> whole L l -> whole L' l.
Proof.
  intros [k ->] (D & HD & ->). exists D. split; [|done]. eapply Forall_impl; [exact HD|]. intros d Hd.
  apply elem_of_app. by left.
Qed.

Lemma whole_decision L q evs : (q, evs) ∈ L -> whole L (stamped q evs).
Proof. intros Hin. exists [(q, evs)]. split; [by repeat constructor|]. unfold stamped_all. cbn. by rewrite app_nil_r. Qed.

(** ** Solid decisions *)

(** What the decisions of a chronicle are made of. *)
Record solid (evs : list FoldEvent) : Prop := {
  so_unstored : Forall unstored evs;
  so_typed : Forall typed evs;
  so_head : exists ev rest, evs = ev :: rest /\ Forall (fun ev => base_data (ev_Data ev) = false) rest }.

Lemma plain_parts evs :
  Forall plain_event evs ->
  Forall unstored evs /\ Forall typed evs /\ Forall (fun ev => base_data (ev_Data ev) = false) evs.
Proof. intros HF. repeat split; (eapply Forall_impl; [exact HF|]); by intros ev (? & ? & ?). Qed.

Lemma link_solid x def t evs t' : link x def t evs t' -> solid evs.
Proof.
  intros HL. pose proof (lk_some _ _ _ _ _ HL) as Hne.
  destruct (lk_shape _ _ _ _ _ HL) as [ev evs _ (Hu & Ht & _) _ HF|evs _ HF|ev d _ (Hu & Ht & _) _].
  - apply plain_parts in HF as (HU & HT & HB). split; [by constructor..|]. eauto.
  - apply plain_parts in HF as (HU & HT & HB). split; [done..|]. destruct evs as [|ev evs]; [done|].
    apply Forall_cons in HB as [_ HB]. eauto.
  - split; [by apply Forall_singleton..|]. exists ev, []. split; [done|constructor].
Qed.

Lemma chronicle_solid x d L T q evs : Chronicle x d L T -> (q, evs) ∈ L -> solid evs.
Proof.
  intros HC Hin. destruct (decision_split _ _ _ _ _ _ HC Hin) as (h & da & t & def & t' & _ & _ & _ & _ & HL & _).
  by eapply link_solid.
Qed.

Abbreviation solids L := (forall q evs, (q, evs) ∈ L -> solid evs).

(** ** Cuts *)

Lemma stamped_seq q evs : Forall (fun ev => ev_Seq ev = q) (stamped q evs).
Proof.
  destruct evs as [|ev evs _] using rev_ind; [constructor|]. rewrite stamped_snoc. apply Forall_app.
  split; [|by repeat constructor]. by apply Forall_fmap, Forall_true.
Qed.

Lemma up_to_app upTo l1 l2 q :
  Forall (fun ev => ev_Seq ev = q) l1 -> l1 <> [] ->
  up_to upTo (l1 ++ l2) = if (0 <? upTo) && (upTo <? q) then [] else l1 ++ up_to upTo l2.
Proof.
  intros HF Hne. destruct l1 as [|ev l1]; [done|]. clear Hne. revert ev HF.
  induction l1 as [|ev2 l1 IH]; intros ev [Hs HF]%Forall_cons; [cbn [app up_to]; by rewrite Hs|].
  specialize (IH ev2 HF). rewrite <- app_comm_cons. cbn [up_to]. rewrite Hs, IH. by destruct (_ && _).
Qed.

Lemma stamped_some q evs : evs <> [] -> stamped q evs <> [].
Proof. destruct evs as [|? []]; done. Qed.

Lemma solid_some evs : solid evs -> evs <> [].
Proof. by intros [_ _ (ev & rest & -> & _)]. Qed.

Lemma whole_up_to L upTo evs : solids L -> whole L evs -> whole L (up_to upTo evs).
Proof.
  intros HS (D & HD & ->). induction HD as [|[q evs] D Hin HD IH]; [apply whole_nil|].
  rewrite stamped_all_cons, (up_to_app _ _ _ q);
    [|apply stamped_seq|by eapply stamped_some, solid_some, HS].
  destruct (_ && _); [apply whole_nil|]. apply whole_app; [by apply whole_decision|done].
Qed.

(** *** From the last event of some type *)

Section FromLast.
Context (p : FoldEvent -> bool).

Fixpoint from_last (evs : list FoldEvent) : option (list FoldEvent) :=
  match evs with
  | [] => None
  | ev :: evs' => match from_last evs' with
                  | Some l => Some l
                  | None => if p ev then Some evs else None
                  end
  end.

Lemma from_last_app l1 l2 :
  from_last (l1 ++ l2) = match from_last l2 with
                         | Some l => Some l
                         | None => (fun l => l ++ l2) <$> from_last l1
                         end.
Proof.
  induction l1 as [|ev l1 IH]; cbn [app from_last]; [by destruct (from_last l2)|].
  rewrite IH. destruct (from_last l2); [done|]. destruct (from_last l1); [done|]. cbn. by destruct (p ev).
Qed.

Lemma from_last_none l : Forall (fun ev => p ev = false) l -> from_last l = None.
Proof. induction 1 as [|ev l Hp _ IH]; [done|]. cbn [from_last]. by rewrite IH, Hp. Qed.

Lemma from_last_head l l' : from_last l = Some l' -> exists ev rest, l' = ev :: rest /\ p ev = true.
Proof.
  revert l'. induction l as [|ev l IH]; intros l'; [done|]. cbn [from_last].
  destruct (from_last l) as [l0|]; [intros [= <-]; by apply IH|]. destruct (p ev) eqn:E; [|done]. intros [= <-]. eauto.
Qed.

(** Only the first event of a decision is of the type looked for. *)
Definition heads (L : list (Z * list FoldEvent)) : Prop :=
  forall q evs, (q, evs) ∈ L -> exists ev rest, stamped q evs = ev :: rest /\ Forall (fun ev => p ev = false) rest.

Lemma from_last_decision L q evs l : heads L -> (q, evs) ∈ L -> from_last (stamped q evs) = Some l -> l = stamped q evs.
Proof.
  intros HH Hin. destruct (HH _ _ Hin) as (ev & rest & -> & HF). cbn [from_last].
  rewrite (from_last_none _ HF). destruct (p ev); [|done]. by intros [= <-].
Qed.

Lemma whole_from_last L evs l : heads L -> whole L evs -> from_last evs = Some l -> whole L l.
Proof.
  intros HH (D & HD & ->). revert l. induction HD as [|[q evs] D Hin HD IH]; intros l; [done|].
  rewrite stamped_all_cons, from_last_app. destruct (from_last (stamped_all D)) as [l'|].
  { intros [= <-]. by apply IH. }
  destruct (from_last (stamped q evs)) as [l1|] eqn:E1; [|done]. intros [= <-].
  rewrite (from_last_decision _ _ _ _ HH Hin E1). apply whole_app; [by apply whole_decision|]. by exists D.
Qed.
End FromLast.

Lemma solid_heads p L :
  solids L -> (forall ev, typed ev -> base_data (ev_Data ev) = false -> p ev = false) ->
  (forall q b ev, p (stamp q b ev) = p ev) -> heads p L.
Proof.
  intros HS Hp Hst q evs Hin. destruct (HS _ _ Hin) as [_ HT (ev & rest & -> & HB)].
  apply Forall_cons in HT as [_ HT]. destruct rest as [|ev2 rest].
  { cbn. exists (stamp q true ev), []. split; [done|constructor]. }
  exists (stamp q false ev), (stamped q (ev2 :: rest)). split; [done|]. clear ev Hin.
  assert (HF : Forall (fun ev => p ev = false) (ev2 :: rest)).
  { rewrite Forall_forall in HT, HB |- *. auto. }
  clear HT HB. revert HF. destruct (ev2 :: rest) as [|e l _] using rev_ind; [constructor|]. rewrite stamped_snoc.
  intros [HF [He _]%Forall_cons]%Forall_app. apply Forall_app. split.
  - apply Forall_fmap. eapply Forall_impl; [exact HF|]. intros ev Hev. cbn. by rewrite Hst.
  - constructor; [by rewrite Hst|constructor].
Qed.

Lemma from_lastBase_last evs : from_lastBase evs = from_last bases evs.
Proof. induction evs as [|ev evs IH]; cbn [from_lastBase from_last]; [done|]. by rewrite IH. Qed.

Lemma whole_lastBase L evs l : solids L -> whole L evs -> from_lastBase evs = Some l -> whole L l.
Proof.
  intros HS HW. rewrite from_lastBase_last. apply whole_from_last; [|done]. apply solid_heads; [done| |done].
  intros ev Ht Hb. unfold bases. rewrite Ht. by destruct (ev_Data ev).
Qed.

Definition continued (ev : FoldEvent) : bool := bool_decide (ev_Type ev = ExecutionContinued).

Lemma from_lastContinued_last evs ev l :
  from_lastContinued evs = Some (ev, l) -> from_last continued evs = Some l /\ exists rest, l = ev :: rest.
Proof.
  revert ev l. induction evs as [|e evs IH]; intros ev l; cbn [from_lastContinued from_last]; [done|].
  assert (Hn : from_lastContinued evs = None <-> from_last continued evs = None).
  { clear. induction evs as [|e evs IH]; cbn [from_lastContinued from_last]; [done|]. unfold continued at 2.
    destruct (from_lastContinued evs), (from_last continued evs); try (split; intros; congruence).
    - destruct IH as [_ IH]. by specialize (IH eq_refl).
    - destruct IH as [IH _]. by specialize (IH eq_refl).
    - by destruct (bool_decide _). }
  destruct (from_lastContinued evs) as [[ev1 l1]|].
  - intros [= -> ->]. destruct (IH _ _ eq_refl) as [-> ?]. done.
  - rewrite (proj1 Hn eq_refl). unfold continued. destruct (bool_decide _); [|done]. intros [= <- <-]. eauto.
Qed.

Lemma whole_lastContinued L evs ev l : solids L -> whole L evs -> from_lastContinued evs = Some (ev, l) -> whole L l.
Proof.
  intros HS HW [HF _]%from_lastContinued_last. revert HF. apply whole_from_last; [|done]. apply solid_heads; [done| |done].
  intros e Ht Hb. apply bool_decide_eq_false. rewrite Ht. by destruct (ev_Data e).
Qed.

(** *** From the base of a state *)

(** The identity of a state after a decision is the one before it, or its first
    event's. *)
Lemma link_cases x def t evs t' :
  link x def t evs t' ->
  identity t' = identity t \/
  exists ev rest, evs = ev :: rest /\ base_data (ev_Data ev) = true /\ identify ev (identity t) = Some (identity t').
Proof.
  intros HL. pose proof (lk_replay _ _ _ _ _ HL) as HRp.
  destruct (lk_shape _ _ _ _ _ HL) as [ev evs Ex (_ & _ & Hb) Ho HF|evs Ex HF|ev d Ex (_ & _ & Hb) Hd].
  - right. exists ev, evs. split; [done|]. split; [done|]. unfold replay in HRp. cbn [res_fold] in HRp.
    apply res_bind_ok in HRp as (t1 & Ha%Apply_identity & HRp). rewrite Ha. f_equal. symmetry.
    eapply replay_identity; [exact HRp|]. eapply Forall_impl; [exact HF|]. by intros ev' (_ & _ & ?).
  - left. eapply replay_identity; [exact HRp|]. eapply Forall_impl; [exact HF|]. by intros ev' (_ & _ & ?).
  - right. exists ev, []. split; [done|]. split; [done|]. unfold replay in HRp. cbn [res_fold] in HRp.
    by apply res_bind_ok in HRp as (t1 & Ha%Apply_identity & [= <-]).
Qed.

Lemma chronicle_base x d h t :
  Chronicle x d h t ->
  exists ha, ha `prefix_of` h /\ (s_Base t = 0 \/ s_Base t = len (events ha) + 1).
Proof.
  revert d t. induction h as [|[q evs] h IH] using rev_ind; intros d t HC.
  { exists []. split; [done|]. left. apply chronicle_annals, an_def in HC. destruct d; [by destruct HC|]. by destruct HC as [_ ->]. }
  pose proof HC as (d0 & t0 & def & -> & _ & HC0 & _ & _ & HL)%chronicle_snoc.
  destruct (IH _ _ HC0) as (ha & Hp & Hb). pose proof (nl_count _ _ (chronicle_numbered _ _ _ _ HC0)) as Hn.
  assert (Hp' : ha `prefix_of` h ++ [(q, evs)]) by (by apply prefix_app_r).
  destruct (link_cases _ _ _ _ _ HL) as [Hi|(ev & rest & -> & Hbd & Hi)].
  - exists ha. split; [done|]. change (s_Base t) with (id_Base (identity t)). by rewrite Hi.
  - pose proof (lk_indexed _ _ _ _ _ HL 0%nat ev eq_refl) as Hix. unfold identify in Hi.
    change (s_Base t) with (id_Base (identity t)). destruct (ev_Data ev); try discriminate Hbd.
    + exists ha. split; [done|]. apply (inj Some) in Hi. by rewrite <- Hi.
    + destruct (Forked_State _); [|done]. exists ha. split; [done|]. left. apply (inj Some) in Hi. by rewrite <- Hi.
    + destruct (Continued_State _); [|done]. exists h. split; [by eexists|]. right. apply (inj Some) in Hi. rewrite <- Hi.
      cbn [id_Base]. lia.
Qed.

Lemma chronicle_segs x d h t : Chronicle x d h t -> segs_named x t.
Proof.
  revert d t. induction h as [|[q evs] h IH] using rev_ind; intros d t HC.
  { apply chronicle_annals, an_def in HC. destruct d; [by destruct HC|]. destruct HC as [_ ->]. constructor. }
  apply chronicle_snoc in HC as (d0 & t0 & def & -> & _ & HC0 & _ & _ & HL). specialize (IH _ _ HC0).
  unfold segs_named in *. change (s_Segments t) with (id_Segments (identity t)).
  destruct (link_cases _ _ _ _ _ HL) as [Hi|(ev & rest & -> & Hbd & Hi)]; [by rewrite Hi|].
  pose proof (lk_named _ _ _ _ _ HL) as [Hn _]%Forall_cons. unfold named in Hn. unfold identify in Hi.
  destruct (ev_Data ev) eqn:Ed; try discriminate Hbd; match type of Ed with _ = _ ?x => rename x into y end.
  - apply (inj Some) in Hi. by rewrite <- Hi.
  - destruct (Forked_State _); [|done]. apply (inj Some) in Hi. rewrite <- Hi. constructor.
  - destruct (Continued_State y) as [src|] eqn:Es; [|done]. apply (inj Some) in Hi. rewrite <- Hi. by apply (Hn y).
Qed.

Lemma events_prefix h h' : h `prefix_of` h' -> len (events h) <= len (events h').
Proof. intros [k ->]. rewrite events_app. unfold len. rewrite length_app. lia. Qed.

Lemma prefix_snoc_cases {A} (h h' : list A) d : h `prefix_of` h' ++ [d] -> h `prefix_of` h' \/ h = h' ++ [d].
Proof.
  intros [k Hk]. destruct k as [|d1 k _] using rev_ind; [right; by rewrite app_nil_r in Hk|].
  rewrite app_assoc in Hk. apply app_inj_tail in Hk as [-> _]. left. by eexists.
Qed.

(** A decision lies on one side of the base of a state of its chronicle. *)
Lemma base_side x d L T st q evs :
  Chronicle x d L T -> as_of x L st -> (q, evs) ∈ L ->
  Forall (fun ev => s_Base st <= ev_Index ev) evs \/ Forall (fun ev => ev_Index ev < s_Base st) evs.
Proof.
  intros HC (d1 & h1 & t1 & Hp1 & HC1 & Hst & _) Hin. rewrite (Base_sim _ _ Hst).
  destruct (decision_split _ _ _ _ _ _ HC Hin) as (h & da & t & def & t' & _ & Hp & HCa & _ & HL & HCb).
  pose proof (nl_count _ _ (chronicle_numbered _ _ _ _ HCa)) as Hn. pose proof (lk_indexed _ _ _ _ _ HL) as Hi.
  assert (Hge : forall b, b <= s_Events t + 1 -> Forall (fun ev => b <= ev_Index ev) evs).
  { intros b Hb. apply Forall_lookup. intros i ev Hl. apply Hi in Hl. lia. }
  destruct (chronicle_base _ _ _ _ HC1) as (ha & Hpa & [->|Hb]); [left; apply Hge; unfold len in Hn; lia|].
  assert (Hpa' : ha `prefix_of` L) by (by etrans). destruct (prefix_weak_total _ _ _ Hpa' Hp) as [P|P].
  - apply prefix_snoc_cases in P as [P| ->]; [left; apply Hge; apply events_prefix in P; lia|]. right.
    rewrite Hb, events_snoc. unfold len in *. rewrite length_app. apply Forall_lookup. intros i ev Hl.
    pose proof (lookup_lt_Some _ _ _ Hl). apply Hi in Hl. lia.
  - right. apply events_prefix in P. rewrite events_snoc in P. unfold len in *. rewrite length_app in P.
    apply Forall_lookup. intros i ev Hl. pose proof (lookup_lt_Some _ _ _ Hl). apply Hi in Hl. lia.
Qed.

Lemma filter_side (p : FoldEvent -> bool) l1 l2 :
  Forall2 same_event l1 l2 -> (forall e e', same_event e e' -> p e = p e') ->
  Forall (fun ev => p ev = true) l1 \/ Forall (fun ev => p ev = false) l1 ->
  List.filter p l2 = l2 \/ List.filter p l2 = [].
Proof.
  intros HF Hp [HA|HA]; [left|right]; revert HA; induction HF as [|e e' l1 l2 He _ IH]; try done;
    intros [Ha HA]%Forall_cons; cbn; rewrite <- (Hp _ _ He), Ha, (IH HA); done.
Qed.

Lemma whole_from_base x d L T st evs :
  Chronicle x d L T -> as_of x L st -> whole L evs ->
  whole L (List.filter (fun ev => s_Base st <=? ev_Index ev) evs).
Proof.
  intros HC Has (D & HD & ->). induction HD as [|[q evs] D Hin HD IH]; [apply whole_nil|].
  rewrite stamped_all_cons, List.filter_app. apply whole_app; [|exact IH].
  destruct (filter_side (fun ev => s_Base st <=? ev_Index ev) evs (stamped q evs)) as [E|E].
  - apply stamped_same.
  - intros e e' (_ & Hi & _). by rewrite Hi.
  - destruct (base_side _ _ _ _ _ _ _ HC Has Hin) as [HF|HF]; [left|right]; (eapply Forall_impl; [exact HF|]);
      intros ev; cbn beta; rewrite ?Z.leb_le, ?Z.leb_gt; done.
  - rewrite E. by apply whole_decision.
  - rewrite E. apply whole_nil.
Qed.

(** ** Archives *)

(** An event as it was stored: what encoding keeps of it. *)
Definition storable (ev : FoldEvent) : Prop :=
  ev_Version ev = Version /\ ev_Type ev = payload_type (ev_Data ev) /\ recode_data (ev_Data ev) = ev_Data ev.

Lemma unarchive_archive evs raw : Forall storable evs -> archive_events evs = Ok raw -> unarchive raw = Ok evs.
Proof.
  intros HF. revert raw. induction HF as [|ev evs (Hv & Ht & Hd) _ IH]; intros raw; cbn [archive_events]; [by intros [= <-]|].
  intros (b & Hb & (raw' & Hr & [= <-])%res_bind_ok)%res_bind_ok. cbn [unarchive ar_Event ar_Seq ar_DecisionEnd].
  rewrite (Decode_Encode _ _ Ht (or_intror Hv) Hb), (IH _ Hr). cbn [res_bind]. rewrite Hd. destruct ev. cbn in *. by subst.
Qed.

Lemma whole_storable L evs : solids L -> whole L evs -> Forall storable evs.
Proof.
  intros HS (D & HD & ->). induction HD as [|[q evs] D Hin HD IH]; [constructor|].
  rewrite stamped_all_cons. apply Forall_app. split; [|exact IH]. destruct (HS _ _ Hin) as [HU _ _]. clear Hin HS IH HD.
  assert (HF : Forall storable evs) by (eapply Forall_impl; [exact HU|]; intros ev [? ? _ _ ?]; done).
  clear HU. destruct evs as [|ev evs _] using rev_ind; [constructor|]. rewrite stamped_snoc.
  apply Forall_app in HF as [HF [He _]%Forall_cons]. apply Forall_app. split; [|by apply Forall_singleton].
  apply Forall_fmap. eapply Forall_impl; [exact HF|]. done.
Qed.

(** ** The flow of what was read *)

Lemma stamped_cons q ev evs : exists b rest, stamped q (ev :: evs) = stamp q b ev :: rest.
Proof. destruct evs; eauto. Qed.

(** The first event of a fold that succeeds from nothing names the flow. *)
Lemma first_base x d L T def evs ev z s1 :
  Chronicle x d L T -> whole L (ev :: evs) -> Apply (Some def) (NewState z) ev = Ok s1 ->
  exists def', d = Some def' /\ base_ok def' x ev /\ base_data (ev_Data ev) = true.
Proof.
  intros HC (D & HD & HE) HA. destruct D as [|[q devs] D]; [done|]. apply Forall_cons in HD as [Hin _].
  destruct (decision_split _ _ _ _ _ _ HC Hin) as (h & da & t & def' & t' & -> & Hp & HCa & Hda & HL & HCb).
  exists def'. split; [done|]. pose proof (lk_bases _ _ _ _ _ HL) as HB. pose proof (lk_indexed _ _ _ _ _ HL) as Hi.
  rewrite stamped_all_cons in HE.
  destruct devs as [|e devs]; [by destruct (lk_some _ _ _ _ _ HL)|].
  assert (Hse : same_event e ev).
  { destruct (stamped_cons q e devs) as (b & rest & Hs). rewrite Hs in HE. by injection HE as -> _. }
  clear HE. assert (Hb : base_data (ev_Data e) = true).
  { destruct (base_data (ev_Data e)) eqn:Eb; [done|]. exfalso.
    assert (Hn : s_Events t = 0).
    { rewrite <- (Apply_same _ _ _ _ Hse) in HA. revert HA. unfold Apply.
      assert (expected_index (NewState z) e = Ok 1) as -> by (unfold expected_index; by destruct (ev_Data e)).
      cbn [wrap_apply res_bind]. specialize (Hi 0%nat e eq_refl).
      pose proof (nl_count _ _ (chronicle_numbered _ _ _ _ HCa)) as Hn. unfold len in Hn.
      destruct (Z.eqb_spec (ev_Index e) 0), (Z.eqb_spec (ev_Index e) 1); try done; lia. }
    pose proof (lk_shape _ _ _ _ _ HL) as Hsh. inversion Hsh as [ev0 evs0 Ex (_ & _ & Hb) Ho HF Heq|evs0 Ex HF Heq|ev0 d0 Ex (_ & _ & Hb) Hd Heq];
      subst; [congruence| |congruence]. unfold Exists in Ex. rewrite Hn in Ex. done. }
  apply Forall_cons in HB as [HB _]. destruct Hse as (_ & Hix & Hd). split; [|by rewrite <- Hd]. intros i. specialize (HB Hb i).
  unfold identify in *. rewrite <- Hd, <- Hix. exact HB.
Qed.

(** A base event leaves nothing of the empty state it is applied to. *)
Lemma Apply_base def y z ev : base_data (ev_Data ev) = true -> Apply def (NewState y) ev = Apply def (NewState z) ev.
Proof.
  intros Hb. unfold Apply, expected_index, apply_. destruct (ev_Data ev); try discriminate Hb; done.
Qed.

(** A state of a chronicle that exists has its flow. *)
Lemma as_of_live x d L T s :
  Chronicle x d L T -> as_of x L s -> Exists s = true ->
  exists def, d = Some def /\ registered def /\ placed def s /\ flow_of (identity s) = Some def.
Proof.
  intros HC (d1 & h & t & Hp & HC1 & Hs & _) Ex. assert (Ext : Exists t = true) by (unfold Exists in *; by rewrite <- (Events_sim _ _ Hs)).
  destruct (chronicle_prefix_of _ _ _ _ _ HC Hp) as (d2 & t2 & HC2 & Hd2).
  destruct (chronicle_fun _ _ _ _ _ _ HC1 HC2) as [-> ->]. apply chronicle_annals, an_def in HC2.
  destruct d2 as [def|]; [|by destruct HC2 as [_ ->]]. destruct HC2 as (Hne & Hreg & HP & _).
  destruct Hd2 as [|<-]; [done|]. exists def. apply (placed_sim _ _ _ Hs) in HP as [HS Hf]. split; [done|].
  split; [done|]. split; [by split|by apply Hf].
Qed.

Lemma as_of_exists x L s : as_of x L s -> s_LastSeq s <> 0 -> Exists s = true.
Proof.
  intros (d & h & t & _ & HC & Hs & Hl) Hn. apply chronicle_annals, an_def in HC. destruct d as [def|].
  - unfold Exists. rewrite (Events_sim _ _ Hs). apply HC.
  - destruct HC as [-> _]. by rewrite Hl in Hn.
Qed.

Lemma fold_last_seq x d L T def s0 D s :
  Chronicle x d L T -> within L D -> stamped_all D <> [] ->
  res_fold (load_step def) s0 (stamped_all D) = Ok s -> s_LastSeq s <> 0.
Proof.
  intros HC HD Hne HF. destruct D as [|[q devs] D _] using rev_ind; [done|]. apply Forall_app in HD as [_ [Hin _]%Forall_cons].
  pose proof (nl_seqs _ _ (chronicle_numbered _ _ _ _ HC)) as HQ. rewrite Forall_forall in HQ. specialize (HQ _ Hin). simpl in HQ.
  pose proof (solid_some _ (chronicle_solid _ _ _ _ _ _ HC Hin)) as HS.
  destruct devs as [|e devs _] using rev_ind; [done|]. rewrite stamped_all_app in HF. unfold stamped_all in HF at 2.
  cbn in HF. rewrite stamped_snoc, app_nil_r, app_assoc in HF. apply load_fold_seq in HF. cbn in HF. lia.
Qed.

(** Folding what was read, from a state of the chronicle. *)
Lemma fold_from x d L T def s0 evs s :
  Chronicle x d L T -> whole L evs -> as_of x L s0 -> evs <> [] \/ Exists s0 = true -> d = Some def ->
  res_fold (load_step def) s0 evs = Ok s -> as_of x L s /\ Exists s = true /\ flow_of (identity s) = Some def.
Proof.
  intros HC (D & HD & ->) Has0 Hne -> HF. pose proof (fold_decisions _ _ _ _ _ _ _ HC HD Has0 HF) as Has.
  assert (Ex : Exists s = true).
  { destruct Hne as [Hne|Ex0]; [by eapply as_of_exists, fold_last_seq|].
    destruct (base.decide (stamped_all D = [])) as [E|E]; [|by eapply as_of_exists, fold_last_seq].
    rewrite E in HF. by injection HF as <-. }
  split; [done|]. split; [done|]. destruct (as_of_live _ _ _ _ _ HC Has Ex) as (def' & [= <-] & _ & _ & Hf). done.
Qed.

(** From nothing, even under another id: the first event sets the whole state. *)
Lemma fold_whole x d L T def z evs s :
  Chronicle x d L T -> whole L evs -> evs <> [] -> d = Some def ->
  res_fold (load_step def) (NewState z) evs = Ok s -> as_of x L s /\ Exists s = true /\ flow_of (identity s) = Some def.
Proof.
  intros HC HW Hne Hd HF. eapply (fold_from x d L T def (NewState x)); try done; [apply as_of_new|by left|].
  destruct evs as [|ev evs]; [done|]. cbn [res_fold] in *. apply res_bind_ok in HF as (s1 & Hs1 & HF).
  pose proof Hs1 as (s0 & Ha & _)%res_bind_ok. destruct (first_base _ _ _ _ _ _ _ _ _ HC HW Ha) as (_ & _ & _ & Hb).
  unfold load_step in Hs1 |- *. rewrite (Apply_base _ x z) by done. by rewrite Hs1.
Qed.
End Reading.
