(* ===== verification/World.v ===== *)
(** * What the server keeps, and programs that keep it well

    [World] is the history of the server: every decision ever stored, and every
    object, snapshot and archive ever put, purged or not.  [explains] is what the
    engine relies on of the server: its answers come from that history, a publish
    is stored only after the sequence it expects, objects are written once.
    Replicas may lag, so a read gives any stored messages.  [safe] says of a
    program, whatever the others do between its calls, that what it stores
    extends the chronicle of the execution it is about. *)

From S2P Require Import Prelude Json Hash Names Expr Flow FlowValidate FlowValid FlowGraph Event Cmd Reduce.
From S2P Require Import State StateFacts View Decide DecideRun Sim Codec DecideProps LogProps.
From S2P Require Import Flight Shape ShapeCmds Server EventLog Loader Engine Chronicle LogFold Reading.

(** ** The history of the server *)

Record World := {
  w_log : string -> list (Z * Msg);                   (* decisions stored under an execution, oldest first *)
  w_blobs : string -> option Object;                  (* objects, by name *)
  w_snaps : string -> list SnapValue;                 (* values a snapshot key ever had *)
  w_objs : string -> list Encoded;                    (* states the snapshot object ever held *)
  w_archs : string -> list (list ArchivedEvent) }.    (* contents an archive object ever had *)

(** The decision a stored message holds, inline or as an object. *)
Definition decodes (w : World) (m : Msg) (evs : list FoldEvent) : Prop :=
  if String.eqb (h_Blob (msg_Header m)) "" then DecodeDecision (msg_Data m) = Ok evs
  else exists b, w_blobs w (h_Blob (msg_Header m)) = Some (ODecision b) /\ DecodeDecision b = Ok evs.

Definition holds_decision (w : World) (qm : Z * Msg) (d : Z * list FoldEvent) : Prop :=
  fst qm = fst d /\ decodes w (snd qm) (snd d).

(** [L] is the log of [x], decoded. *)
Definition Log (w : World) (x : string) (L : list (Z * list FoldEvent)) : Prop :=
  Forall2 (holds_decision w) (w_log w x) L.

(** Histories grow. *)
Record grown (w w' : World) : Prop := {
  gr_log x : w_log w x `prefix_of` w_log w' x;
  gr_blobs n o : w_blobs w n = Some o -> w_blobs w' n = Some o;
  gr_snaps x v : v ∈ w_snaps w x -> v ∈ w_snaps w' x;
  gr_objs x b : b ∈ w_objs w x -> b ∈ w_objs w' x;
  gr_archs n l : l ∈ w_archs w n -> l ∈ w_archs w' n }.
Infix "⊑" := grown (at level 70).

#[export] Instance grown_preorder : PreOrder grown.
Proof.
  split; [by split|]. intros w1 w2 w3 [A1 A2 A3 A4 A5] [B1 B2 B3 B4 B5]. split; eauto. intros x. etransitivity; eauto.
Qed.

Lemma decodes_grown w w' m evs : w ⊑ w' -> decodes w m evs -> decodes w' m evs.
Proof.
  intros Hw. unfold decodes. destruct (String.eqb _ _); [done|]. intros (b & Hb & HD). exists b.
  split; [by apply (gr_blobs _ _ Hw)|done].
Qed.

Lemma decodes_fun w m e1 e2 : decodes w m e1 -> decodes w m e2 -> e1 = e2.
Proof.
  unfold decodes. destruct (String.eqb _ _); [congruence|]. intros (b1 & Hb1 & H1) (b2 & Hb2 & H2).
  rewrite Hb1 in Hb2. injection Hb2 as ->. congruence.
Qed.

Lemma Log_fun w x L1 L2 : Log w x L1 -> Log w x L2 -> L1 = L2.
Proof.
  unfold Log. generalize (w_log w x). intros l H1. revert L2. induction H1 as [|[q m] [q1 e1] l L1 [Hq He] _ IH]; intros L2 H2.
  - by inversion H2.
  - inversion H2 as [|? [q2 e2] ? L2' [Hq' He'] HF]; subst. simpl in *. subst. f_equal; [|by apply IH].
    f_equal. by eapply decodes_fun.
Qed.

Lemma Log_last w x L : Log w x L -> last_seq (w_log w x) = last_seq L.
Proof.
  unfold Log, last_seq. intros HF. destruct (w_log w x) as [|[q m] l _] using rev_ind.
  { by inversion HF. }
  apply Forall2_app_inv_l in HF as (L1 & L2 & _ & HF & ->).
  inversion HF as [|? [q' e] ? L3 [Hq _] HF3]; subst. inversion HF3; subst. rewrite !last_snoc. done.
Qed.

Lemma Log_grown w w' x L L' : w ⊑ w' -> Log w x L -> Log w' x L' -> L `prefix_of` L'.
Proof.
  intros Hw HL HL'. destruct (gr_log _ _ Hw x) as [k Hk]. unfold Log in *. rewrite Hk in HL'.
  apply Forall2_app_inv_l in HL' as (L1 & L2 & HL1 & _ & ->). exists L2. f_equal.
  eapply (Log_fun {| w_log := fun _ => w_log w x; w_blobs := w_blobs w'; w_snaps := w_snaps w';
                     w_objs := w_objs w'; w_archs := w_archs w' |} x); unfold Log; cbn [w_log].
  - eapply Forall2_impl; [exact HL1|done].
  - eapply Forall2_impl; [exact HL|]. intros [q m] [q' e] [Hq Hd]. split; [done|].
    by apply (decodes_grown w w').
Qed.

Lemma Log_in w x L q m : Log w x L -> (q, m) ∈ w_log w x -> exists evs, decodes w m evs /\ (q, evs) ∈ L.
Proof.
  intros HL (i & Hi)%list_elem_of_lookup. destruct (Forall2_lookup_l _ _ _ _ _ HL Hi) as ([q' evs] & Hl & [Hq Hd]).
  simpl in *. subst. exists evs. split; [done|]. by eapply list_elem_of_lookup_2.
Qed.

(** ** Irregular decisions

    Three decisions are kept apart: an execution opened again after its log was
    purged (archived or deleted), a fork of a state that does not exist, and the
    failure of an execution whose decision was too large, decided on a state
    read again. *)

Definition too_large (ev : FoldEvent) : bool :=
  match ev_Data ev with DFailed d => String.eqb (Failed_Reason d) ReasonDecisionTooLarge | _ => false end.

Definition irregular (first : bool) (evs : list FoldEvent) : bool :=
  match evs with
  | [] => false
  | ev :: _ =>
      match ev_Data ev with
      | DStarted _ => negb first
      | DForked d => negb first || match Forked_State d with Some s => negb (Exists s) | None => false end
      | _ => existsb too_large evs
      end
  end.

Definition tainted (w : World) : Prop :=
  exists x l q m l' evs, w_log w x = l ++ (q, m) :: l' /\ decodes w m evs /\ irregular (bool_decide (l = [])) evs = true.

Lemma tainted_grown w w' : w ⊑ w' -> tainted w -> tainted w'.
Proof.
  intros Hw (x & l & q & m & l' & evs & Hl & Hd & Hi). destruct (gr_log _ _ Hw x) as [k Hk].
  exists x, l, q, m, (l' ++ k), evs. split; [by rewrite Hk, Hl, <- app_assoc|]. split; [by apply (decodes_grown w)|done].
Qed.

Lemma irregular_late evs b : irregular true evs = true -> irregular b evs = true.
Proof. destruct b; [done|]. destruct evs as [|ev evs]; [done|]. simpl. by destruct (ev_Data ev). Qed.

Section World.
Context `{HR : Registry}.

(** ** What a well-kept history is *)

(** [s] is the state of [x] as of some decision of its log. *)
Definition known (w : World) (x : string) (s : State) : Prop := exists L, Log w x L /\ as_of x L s.

(** A snapshot: of an execution that exists. *)
Definition live_known (w : World) (x : string) (s : State) : Prop := known w x s /\ Exists s = true.

Definition snap_ok (w : World) (x : string) (v : SnapValue) : Prop :=
  match v with
  | SState b => forall s, b = Some s -> live_known w x s
  | SPointer n => n = snapshot_object x
  end.

(** The archive objects of an execution: its own, and those of its segments. *)
Definition archive_name (x n : string) : Prop := n = x \/ exists i, n = SegmentObject x i.

Definition read_from (w : World) (x : string) (evs : list FoldEvent) : Prop := exists L, Log w x L /\ whole L evs.

Definition arch_ok (w : World) (n : string) (l : list ArchivedEvent) : Prop :=
  exists x, ValidToken x = true /\ archive_name x n /\ exists evs, unarchive l = Ok evs /\ read_from w x evs.

Record good (w : World) : Prop := {
  g_log x : exists d L t, Log w x L /\ Chronicle x d L t;
  g_valid x : w_log w x <> [] -> ValidToken x = true;
  g_names n o : w_blobs w n = Some o -> n <> "" /\ forall y, n <> snapshot_object y;
  g_snaps x v : v ∈ w_snaps w x -> snap_ok w x v;
  g_objs x s : Some s ∈ w_objs w x -> live_known w x s;
  g_archs n l : l ∈ w_archs w n -> arch_ok w n l }.

(** What is known stays known. *)
Lemma known_grown w w' x s : w ⊑ w' -> good w' -> known w x s -> known w' x s.
Proof.
  intros Hw HG (L & HL & Has). destruct (g_log _ HG x) as (d & L' & t & HL' & _). exists L'. split; [done|].
  eapply as_of_prefix; [|exact Has]. by eapply Log_grown.
Qed.

Lemma read_from_grown w w' x evs : w ⊑ w' -> good w' -> read_from w x evs -> read_from w' x evs.
Proof.
  intros Hw HG (L & HL & HW). destruct (g_log _ HG x) as (d & L' & t & HL' & _). exists L'. split; [done|].
  eapply whole_prefix; [|exact HW]. by eapply Log_grown.
Qed.

Lemma snap_ok_grown w w' x v : w ⊑ w' -> good w' -> snap_ok w x v -> snap_ok w' x v.
Proof. intros Hw HG. destruct v; [|done]. simpl. intros Hk s Hs. destruct (Hk s Hs). split; eauto using known_grown. Qed.

Lemma arch_ok_grown w w' n l : w ⊑ w' -> good w' -> arch_ok w n l -> arch_ok w' n l.
Proof. intros Hw HG (x & Hx & Hn & evs & Hu & Hr). exists x. eauto 6 using read_from_grown. Qed.

(** ** What a server answers *)

Definition logs_kept (w w' : World) : Prop := forall y, w_log w' y = w_log w y.

(** A message is stored if the execution's last sequence is the expected one; 0
    is also accepted when nothing of the execution is left in the stream. *)
Definition stored (w : World) (x : string) (expected q : Z) (m : Msg) (w' : World) : Prop :=
  last_seq (w_log w x) < q /\ (expected = last_seq (w_log w x) \/ expected = 0) /\
  forall y, w_log w' y = if String.eqb y x then w_log w x ++ [(q, m)] else w_log w y.

Definition log_law (w : World) (c : Call) (a : Answer c) (w' : World) : Prop :=
  match c return Answer c -> Prop with
  | EvPublish x expected m => fun a =>
      match a with
      | PubAck q => stored w x expected q m w'
      | PubWrongSeq => logs_kept w w'
      | PubError _ => logs_kept w w' \/ exists q, stored w x expected q m w'
      end
  | _ => fun _ => logs_kept w w'
  end a.

Definition answer_law (w : World) (c : Call) (a : Answer c) (w' : World) : Prop :=
  match c return Answer c -> Prop with
  | EvDirectGet x from => fun a =>
      match a with Ok (msgs, _) => Forall (fun qm => qm ∈ w_log w x /\ from <= fst qm) msgs | Err _ => True end
  | BlobPut x o => fun a => match a with Ok n => w_blobs w' n = Some o | Err _ => True end
  | BlobGet n => fun a =>
      match a with
      | Got o => w_blobs w n = Some o \/ exists x b, n = snapshot_object x /\ o = OState b /\ b ∈ w_objs w x
      | _ => True
      end
  | SnapGet x => fun a => match a with Ok (Some v) => v ∈ w_snaps w x | _ => True end
  | ArchGet n => fun a => match a with Got l => l ∈ w_archs w n | _ => True end
  | FlowsGet n h => fun a =>
      match a with
      | Ok def => registered def /\ forall def', flows n h = Some def' -> def = def'
      | Err _ => True
      end
  | _ => fun _ => True
  end a.

(** [new] is [old] and maybe what was put. *)
Definition put_only {A} (old new : list A) (put : A -> Prop) : Prop :=
  forall v, (v ∈ old -> v ∈ new) /\ (v ∈ new -> v ∈ old \/ put v).

Record explains (w : World) (c : Call) (a : Answer c) (w' : World) : Prop := {
  ex_log : log_law w c a w';
  ex_blobs n o : w_blobs w n = Some o -> w_blobs w' n = Some o;
  ex_names n o : w_blobs w' n = Some o -> w_blobs w n = Some o \/ n <> "" /\ forall y, n <> snapshot_object y;
  ex_snaps x : put_only (w_snaps w x) (w_snaps w' x) (fun v => c = SnapPut x v);
  ex_objs x : put_only (w_objs w x) (w_objs w' x) (fun b => c = SnapBlobPut x b);
  ex_archs n : put_only (w_archs w n) (w_archs w' n) (fun l => c = ArchPut n l);
  ex_answer : answer_law w c a w' }.

Lemma log_law_grown w c a w' x : log_law w c a w' -> w_log w x `prefix_of` w_log w' x.
Proof.
  assert (HK : logs_kept w w' -> w_log w x `prefix_of` w_log w' x) by (intros HK; by rewrite HK).
  assert (HS : forall y e q m, stored w y e q m w' -> w_log w x `prefix_of` w_log w' x).
  { intros y e q m (_ & _ & Hl). rewrite Hl. destruct (String.eqb_spec x y) as [->|_]; [by eexists|done]. }
  destruct c; cbn [log_law]; auto. destruct a; eauto. intros [?|(q & ?)]; eauto.
Qed.

Lemma explains_grown w c a w' : explains w c a w' -> w ⊑ w'.
Proof.
  intros [Hl Hb _ Hs Ho Ha _]. split; [intros x; by eapply log_law_grown|done|..];
    intros; [by apply Hs|by apply Ho|by apply Ha].
Qed.

(** ** What a call must not break *)

(** The decision [evs] continues the chronicle [h] of [x]. *)
Definition proposal (x : string) (h : list (Z * list FoldEvent)) (evs : list FoldEvent) : Prop :=
  exists def t, forall q, last_seq h < q -> Chronicle x (Some def) (h ++ [(q, evs)]) t.

Definition appendable (w : World) (x : string) (expected : Z) (evs : list FoldEvent) : Prop :=
  exists L h, Log w x L /\ h `prefix_of` L /\ last_seq h = expected /\ proposal x h evs.

Definition publishable (w : World) (x : string) (expected : Z) (m : Msg) : Prop :=
  exists evs, decodes w m evs /\ (irregular true evs = true \/ appendable w x expected evs).

(** An entry of the cache: the state as of some decision, with its flow; or a
    state that is final, on which nothing is decided any more. *)
Definition entry_ok (w : World) (x : string) (ent : Entry) : Prop :=
  known w x (en_State ent) /\
    match en_Def ent with
    | Some def => Exists (en_State ent) = true /\ flow_of (identity (en_State ent)) = Some def
    | None => Exists (en_State ent) = false
    end \/
  Exists (en_State ent) = true /\ Terminal (s_Status (en_State ent)) = true.

Definition clean (w : World) (x : string) (e : option Entry) : Prop := forall ent, e = Some ent -> entry_ok w x ent.

(** The condition of a call, for the handler of execution [own] ([None]: a
    program that uses no entry of the cache). *)
Definition allowed (own : option string) (c : Call) (w : World) : Prop :=
  match c with
  | EvPublish x expected m => ValidToken x = true /\ publishable w x expected m
  | SnapPut x v => snap_ok w x v
  | SnapBlobPut x b => forall s, b = Some s -> live_known w x s
  | ArchPut n l => arch_ok w n l
  | CacheGet x | CacheDecided x _ => own = Some x
  | CachePut x ent => own = Some x /\ entry_ok w x ent
  | _ => True
  end.

(** What is stored continues the log as it is. *)
Lemma stored_at_end w x expected q m w' :
  good w -> publishable w x expected m -> stored w x expected q m w' -> w ⊑ w' -> ~ tainted w' ->
  exists evs L, decodes w m evs /\ Log w x L /\ last_seq L = expected /\ proposal x L evs.
Proof.
  intros HG (evs & Hd & Hev) (Hq & He & Hl) Hw Ht.
  assert (Hd' : decodes w' m evs) by (by apply (decodes_grown w)).
  specialize (Hl x). rewrite String.eqb_refl in Hl.
  assert (Hodd : irregular (bool_decide (w_log w x = [])) evs = false).
  { apply not_true_iff_false. intros Hi. apply Ht. by exists x, (w_log w x), q, m, [], evs. }
  destruct Hev as [Hi|(L0 & h & HL0 & Hp & Hs & def & t & HC)].
  { apply (irregular_late evs (bool_decide (w_log w x = []))) in Hi. congruence. }
  destruct (g_log _ HG x) as (d & L & t0 & HL & HCL). assert (L0 = L) as -> by (by eapply Log_fun).
  assert (h = L) as ->; [|by exists evs, L; split; [|split; [|split; [|exists def, t]]]].
  eapply prefix_same_seq; [exact HCL|done|]. rewrite Hs, <- (Log_last _ _ _ HL). destruct He as [He|He]; [done|].
  destruct (base.decide (w_log w x = [])) as [E|E]; [by rewrite E|]. exfalso.
  destruct (chronicle_prefix_of _ _ _ _ _ HCL Hp) as (dh & th & HCh & _).
  assert (h = []) as -> by (eapply last_seq_zero; [exact HCh|lia]).
  assert (0 < q) as Hq0 by (pose proof (last_seq_nonneg _ _ _ _ HCL); rewrite (Log_last _ _ _ HL) in Hq; lia).
  apply HC, chronicle_snoc in Hq0 as (d1 & t1 & def1 & _ & _ & HC1 & _ & _ & HLk).
  apply chronicle_annals, an_def in HC1. destruct d1; [by destruct HC1 as [[] _]|]. destruct HC1 as [_ ->].
  pose proof (lk_shape _ _ _ _ _ HLk) as Hsh. rewrite bool_decide_eq_false_2 in Hodd by done.
  inversion Hsh as [ev0 evs0 Ex _ Ho HF Heq|evs0 Ex HF Heq|ev0 d0 Ex _ Hd0 Heq]; subst; try discriminate Ex.
  simpl in Hodd. by destruct (ev_Data ev0).
Qed.

Lemma Log_stored w w' x q m L evs :
  w ⊑ w' -> Log w x L -> decodes w m evs -> w_log w' x = w_log w x ++ [(q, m)] -> Log w' x (L ++ [(q, evs)]).
Proof.
  intros Hw HL Hd Hl. unfold Log. rewrite Hl. apply Forall2_app.
  - eapply Forall2_impl; [exact HL|]. intros [q1 m1] [q2 e2] [E1 E2]. split; [done|]. by apply (decodes_grown w).
  - constructor; [|constructor]. split; [done|]. by apply (decodes_grown w).
Qed.

Lemma good_stored w x expected q m w' :
  good w -> publishable w x expected m -> stored w x expected q m w' -> w ⊑ w' -> ~ tainted w' ->
  exists d L t, Log w' x L /\ Chronicle x d L t.
Proof.
  intros HG Hp Hst Hw Ht. destruct (stored_at_end _ _ _ _ _ _ HG Hp Hst Hw Ht) as (evs & L & Hd & HL & _ & def & t & HC).
  destruct Hst as (Hq & _ & Hl). specialize (Hl x). rewrite String.eqb_refl in Hl.
  exists (Some def), (L ++ [(q, evs)]), t. split; [by eapply Log_stored|]. apply HC. by rewrite <- (Log_last _ _ _ HL).
Qed.

Lemma good_kept w w' x :
  good w -> w ⊑ w' -> w_log w' x = w_log w x -> exists d L t, Log w' x L /\ Chronicle x d L t.
Proof.
  intros HG Hw Hl. destruct (g_log _ HG x) as (d & L & t & HL & HC). exists d, L, t. split; [|done].
  unfold Log in *. rewrite Hl. eapply Forall2_impl; [exact HL|]. intros [q1 m1] [q2 e2] [E1 E2]. split; [done|].
  by apply (decodes_grown w).
Qed.

(** Calls made when allowed keep a history good, unless it gets an irregular
    decision. *)
Lemma good_explains own w c a w' :
  good w -> allowed own c w -> explains w c a w' -> ~ tainted w' -> good w'.
Proof.
  intros HG HP HE Ht. pose proof (explains_grown _ _ _ _ HE) as Hw. destruct HE as [Hl Hb Hn Hs Ho Ha _].
  assert (HL : forall x, exists d L t, Log w' x L /\ Chronicle x d L t).
  { assert (HK : logs_kept w w' -> forall x, exists d L t, Log w' x L /\ Chronicle x d L t).
    { intros HK x. by apply (good_kept w). }
    assert (HS : forall y e q m, publishable w y e m -> stored w y e q m w' ->
      forall x, exists d L t, Log w' x L /\ Chronicle x d L t).
    { intros y e q m Hpub Hst x. destruct (base.decide (x = y)) as [->|Hne]; [by eapply good_stored|].
      apply (good_kept w); [done|done|]. destruct Hst as (_ & _ & Hl'). rewrite Hl'.
      by destruct (String.eqb_spec x y). }
    destruct c; cbn [log_law] in Hl; auto. destruct HP as [_ HP]. destruct a; eauto. destruct Hl as [Hl|(q & Hl)]; eauto. }
  assert (HX : forall x s, live_known w x s -> live_known w' x s).
  { intros x s [Hk Ex]. split; [|done]. destruct Hk as (L & HL0 & Has). destruct (HL x) as (d & L' & t & HL' & _). exists L'. split; [done|].
    eapply as_of_prefix; [|exact Has]. by eapply Log_grown. }
  assert (HRd : forall x evs, read_from w x evs -> read_from w' x evs).
  { intros x evs (L & HL0 & Hwh). destruct (HL x) as (d & L' & t & HL' & _). exists L'. split; [done|].
    eapply whole_prefix; [|exact Hwh]. by eapply Log_grown. }
  split; [exact HL|..].
  - intros x Hne. destruct (base.decide (w_log w x = [])) as [E|E]; [|by apply (g_valid _ HG)].
    assert (HS : forall y e q m, ValidToken y = true -> stored w y e q m w' -> ValidToken x = true).
    { intros y e q m Hv (_ & _ & Hl'). rewrite Hl', E in Hne. by destruct (String.eqb_spec x y) as [->|]. }
    destruct c; cbn [log_law] in Hl; try (by rewrite Hl, E in Hne). destruct HP as [Hv _].
    destruct a; [by eapply HS|by rewrite Hl, E in Hne|]. destruct Hl as [Hl|(q & Hl)]; [by rewrite Hl, E in Hne|by eapply HS].
  - intros n o [?|?]%Hn; [by eapply g_names|done].
  - intros x v [Hv| ->]%Hs; [apply (g_snaps _ HG) in Hv|rename HP into Hv]; cbn [allowed] in Hv;
      destruct v; simpl in *; eauto.
  - intros x s [Hv| ->]%Ho; [by apply HX, (g_objs _ HG)|]. cbn [allowed] in HP. by apply HX, HP.
  - intros n l [Hv| ->]%Ha; [apply (g_archs _ HG) in Hv|rename HP into Hv]; cbn [allowed] in Hv;
      destruct Hv as (x & Hx & Hnm & evs & Hu & Hr); exists x; eauto 6.
Qed.
End World.
