(* ===== verification/Safe.v ===== *)
(** * Programs that store only what continues a chronicle

    [safe own Q p w e]: started in history [w] with the entry [e] in the cache of
    its process, program [p] makes only allowed calls and ends in [Q], whatever
    the other programs do between its calls: the history may grow, the entry may
    be evicted. *)

From S2P Require Import Prelude Json Hash Names Expr Flow FlowValidate FlowValid FlowGraph Event Cmd Reduce.
From S2P Require Import State StateFacts View Decide DecideRun Sim Codec DecideProps LogProps.
From S2P Require Import Flight Shape ShapeCmds Server EventLog Loader Engine Chronicle LogFold Reading World.

Section Safe.
Context `{HR : Registry}.

(** The entry of [own] after a call. *)
Definition set_en_State (s : State) (ent : Entry) : Entry := {| en_State := s; en_Def := en_Def ent |}.

Definition cache_step (own : option string) (c : Call) (e : option Entry) (a : Answer c) (e' : option Entry) : Prop :=
  match c return Answer c -> Prop with
  | CacheGet x => fun a => e' = e /\ (own = Some x -> a = e)
  | CacheDecided x s => fun _ => e' = if bool_decide (own = Some x) then set_en_State s <$> e else e
  | CachePut x ent => fun _ => e' = if bool_decide (own = Some x) then Some ent else e
  | CacheDrop x => fun _ => e' = if bool_decide (own = Some x) then None else e
  | _ => fun _ => e' = e
  end a.

Definition evicted (e e' : option Entry) : Prop := e' = e \/ e' = None.

#[export] Instance evicted_preorder : PreOrder evicted.
Proof. split; [by left|]. intros e1 e2 e3 [->| ->] [->| ->]; unfold evicted; auto. Qed.

(** A moment of the run: a good history without irregular decisions, later than [w]. *)
Record later (w w1 : World) (e e1 : option Entry) : Prop := {
  lt_grown : w ⊑ w1;
  lt_good : good w1;
  lt_sane : ~ tainted w1;
  lt_evicted : evicted e e1 }.

Fixpoint safe (own : option string) {A} (Q : A -> World -> option Entry -> Prop) (p : Prog A)
    (w : World) (e : option Entry) : Prop :=
  match p with
  | Ret a => forall w1 e1, later w w1 e e1 -> Q a w1 e1
  | Do c k => forall w1 e1, later w w1 e e1 ->
      allowed own c w1 /\
      forall a w2 e2, explains w1 c a w2 -> good w2 -> ~ tainted w2 -> cache_step own c e1 a e2 ->
        safe own Q (k a) w2 e2
  end.

Lemma later_trans w w1 w2 e e1 e2 : w ⊑ w1 -> evicted e e1 -> later w1 w2 e1 e2 -> later w w2 e e2.
Proof. intros Hw He [Hg HG HT Hv]. split; [by etrans|done|done|]. by etrans. Qed.

Lemma safe_later own {A} (Q : A -> World -> option Entry -> Prop) p w e w1 e1 :
  w ⊑ w1 -> evicted e e1 -> safe own Q p w e -> safe own Q p w1 e1.
Proof. intros Hw He. destruct p; simpl; intros HS w2 e2 Hl; apply HS; by eapply later_trans. Qed.

Lemma safe_bind own {A B} (Q : B -> World -> option Entry -> Prop) (p : Prog A) (k : A -> Prog B) w e :
  safe own (fun a w e => safe own Q (k a) w e) p w e -> safe own Q (pbind p k) w e.
Proof.
  revert w e. induction p as [a|c k' IH]; intros w e HS.
  - (* the rest starts now *) cbn [pbind]. cbn [safe] in HS.
    destruct (k a) as [b|c k2] eqn:Ek; cbn [safe]; intros w1 e1 Hl; specialize (HS w1 e1 Hl); cbn [safe] in HS; apply HS;
      (split; [reflexivity|apply Hl|apply Hl|reflexivity]).
  - cbn [pbind safe] in *. intros w1 e1 Hl. destruct (HS w1 e1 Hl) as [Ha Hk]. split; [done|].
    intros a w2 e2 HE HG HT HC. apply IH. by apply Hk.
Qed.

Lemma safe_post own {A} (Q Q' : A -> World -> option Entry -> Prop) p w e :
  (forall a w e, good w -> ~ tainted w -> Q a w e -> Q' a w e) -> safe own Q p w e -> safe own Q' p w e.
Proof.
  intros HQ. revert w e. induction p as [a|c k IH]; intros w e HS; cbn [safe] in *; intros w1 e1 Hl.
  - apply HQ; [apply Hl|apply Hl|]. by apply HS.
  - destruct (HS w1 e1 Hl) as [Ha Hk]. split; [done|]. intros a w2 e2 HE HG HT HC. apply IH. by apply Hk.
Qed.

Lemma safe_since own {A} (Q : A -> World -> option Entry -> Prop) p w e :
  safe own Q p w e -> safe own (fun a w1 e1 => w ⊑ w1 /\ Q a w1 e1) p w e.
Proof.
  assert (HS : forall w0 e0, w ⊑ w0 -> safe own Q p w0 e0 -> safe own (fun a w1 e1 => w ⊑ w1 /\ Q a w1 e1) p w0 e0);
    [|by apply HS].
  induction p as [a|c k IH]; intros w0 e0 Hw HS; cbn [safe] in *; intros w1 e1 Hl.
  - split; [etrans; [exact Hw|apply Hl]|by apply HS].
  - destruct (HS w1 e1 Hl) as [Ha Hk]. split; [done|]. intros a w2 e2 HE HG HT HC. apply IH; [|by apply Hk].
    etrans; [exact Hw|]. etrans; [apply Hl|]. by eapply explains_grown.
Qed.

Lemma own_bind own {A B} (R : A -> World -> option Entry -> Prop) (Q : B -> World -> option Entry -> Prop) p k w e :
  safe own R p w e ->
  (forall a w1 e1, w ⊑ w1 -> good w1 -> ~ tainted w1 -> R a w1 e1 -> safe own Q (k a) w1 e1) ->
  safe own Q (pbind p k) w e.
Proof.
  intros HP HK. apply safe_bind. eapply safe_post; [|by apply safe_since, HP].
  intros a w1 e1 HG HT [Hw Hr]. by apply HK.
Qed.

(** A program that uses no entry of the cache, run by the handler of any
    execution, leaves the entry there or evicted. *)
Lemma safe_frame own {A} (Q : A -> World -> Prop) p w e :
  safe None (fun a w _ => Q a w) p w None -> safe own (fun a w e' => Q a w /\ evicted e e') p w e.
Proof.
  assert (HF : forall e0 w, evicted e e0 -> safe None (fun a w _ => Q a w) p w None ->
    safe own (fun a w e' => Q a w /\ evicted e e') p w e0); [|intros HS; by apply HF].
  induction p as [a|c k IH]; intros e0 w0 He HS; cbn [safe] in *; intros w1 e1 [Hg HG HT Hv].
  - split; [|by etrans]. apply (HS w1 None). split; [done|done|done|by left].
  - destruct (HS w1 None) as [Ha Hk]; [split; [done|done|done|by left]|]. split.
    + destruct c; cbn [allowed] in *; try done. by destruct Ha.
    + intros a w2 e2 HE HG2 HT2 HC. apply IH; [|apply (Hk a w2 None); [done|done|done|]].
      * clear Hk IH HS. destruct c; cbn [allowed cache_step] in *; try discriminate Ha; try (by apply proj1 in Ha); subst e2;
          try case_bool_decide; (by right) || (etrans; [exact He|exact Hv]).
      * destruct c; cbn [allowed cache_step] in *; try done; by apply proj1 in Ha.
Qed.

(** Programs that use no entry. *)
Abbreviation plain_safe Q p w := (safe None (fun a w (_ : option Entry) => Q a w) p w None).

Lemma own_bind_plain own {A B} (R : A -> World -> Prop) (Q : B -> World -> option Entry -> Prop) p k w e :
  plain_safe R p w ->
  (forall a w1 e1, w ⊑ w1 -> good w1 -> ~ tainted w1 -> evicted e e1 -> R a w1 -> safe own Q (k a) w1 e1) ->
  safe own Q (pbind p k) w e.
Proof. intros HP HK. eapply own_bind; [by apply safe_frame, HP|]. intros a w1 e1 Hw HG HT [Hr He]. by apply HK. Qed.

Lemma plain_bind {A B} (R : A -> World -> Prop) (Q : B -> World -> Prop) (p : Prog A) (k : A -> Prog B) w :
  plain_safe R p w -> (forall a w1, w ⊑ w1 -> good w1 -> ~ tainted w1 -> R a w1 -> plain_safe Q (k a) w1) ->
  plain_safe Q (pbind p k) w.
Proof.
  intros HP HK. eapply own_bind_plain; [exact HP|]. intros a w1 e1 Hw HG HT _ Hr.
  eapply (safe_post _ (fun a w e => Q a w /\ evicted e1 e)); [by intros ? ? ? _ _ [? _]|]. by apply safe_frame, HK.
Qed.

Lemma plain_ret {A} (Q : A -> World -> Prop) a w :
  (forall w1, w ⊑ w1 -> good w1 -> ~ tainted w1 -> Q a w1) -> plain_safe Q (Ret a) w.
Proof. intros HQ w1 e1 [Hg HG HT _]. by apply HQ. Qed.

Lemma plain_call (c : Call) (Q : Answer c -> World -> Prop) w :
  (forall w1, w ⊑ w1 -> good w1 -> ~ tainted w1 -> allowed None c w1) ->
  (forall w1 a w2, w ⊑ w1 -> good w1 -> explains w1 c a w2 -> good w2 -> ~ tainted w2 ->
    forall w3, w2 ⊑ w3 -> good w3 -> ~ tainted w3 -> Q a w3) ->
  plain_safe Q (call c) w.
Proof.
  intros HA HQ w1 e1 [Hg HG HT _]. split; [by apply HA|]. intros a w2 e2 HE HG2 HT2 _ w3 e3 [Hg3 HG3 HT3 _].
  by eapply (HQ w1 a w2).
Qed.

(** Fallible programs: errors end them. *)
Definition if_ok {A} (Q : A -> World -> Prop) : result A -> World -> Prop :=
  fun r w => match r with Ok a => Q a w | Err _ => True end.

Lemma plain_fbind {A B} (R : A -> World -> Prop) (Q : B -> World -> Prop) (p : Prog (result A)) k w :
  plain_safe (if_ok R) p w ->
  (forall a w1, w ⊑ w1 -> good w1 -> ~ tainted w1 -> R a w1 -> plain_safe (if_ok Q) (k a) w1) ->
  plain_safe (if_ok Q) (fbind p k) w.
Proof.
  intros HP HK. eapply plain_bind; [exact HP|]. intros [a|e] w1 Hw HG HT Hr; [by apply HK|].
  by apply plain_ret.
Qed.

Lemma plain_failed {A} (Q : A -> World -> Prop) e w : plain_safe (if_ok Q) (failed e) w.
Proof. by apply plain_ret. Qed.

Lemma plain_ok {A} (Q : A -> World -> Prop) a w :
  (forall w1, w ⊑ w1 -> good w1 -> ~ tainted w1 -> Q a w1) -> plain_safe (if_ok Q) (ok a) w.
Proof. intros HQ. by apply plain_ret. Qed.

Lemma plain_lift {A} (Q : A -> World -> Prop) r w :
  (forall a w1, r = Ok a -> w ⊑ w1 -> good w1 -> ~ tainted w1 -> Q a w1) -> plain_safe (if_ok Q) (lift r) w.
Proof. intros HQ. apply plain_ret. destruct r; simpl; eauto. Qed.

(** A call none of whose answers matters. *)
Lemma plain_any {A} (Q : A -> World -> Prop) (c : Call) (k : Answer c -> Prog A) w :
  (forall w1, allowed None c w1) ->
  (forall a w1, w ⊑ w1 -> good w1 -> ~ tainted w1 -> plain_safe Q (k a) w1) ->
  plain_safe Q (pbind (call c) k) w.
Proof.
  intros HA HK. eapply (plain_bind (fun _ _ => True)); [by apply plain_call|]. intros a w1 Hw HG HT _. by apply HK.
Qed.

(** Programs of a handler. *)
Lemma own_ret own {A} (Q : A -> World -> option Entry -> Prop) a w e :
  (forall w1 e1, w ⊑ w1 -> good w1 -> ~ tainted w1 -> evicted e e1 -> Q a w1 e1) -> safe own Q (Ret a) w e.
Proof. intros HQ w1 e1 [Hg HG HT He]. by apply HQ. Qed.

Lemma own_drop x {A} (Q : A -> World -> option Entry -> Prop) k w e :
  (forall w1, w ⊑ w1 -> good w1 -> ~ tainted w1 -> safe (Some x) Q (k tt) w1 None) ->
  safe (Some x) Q (pbind (call (CacheDrop x)) k) w e.
Proof.
  intros HK. cbn [pbind call safe]. intros w1 e1 [Hg HG HT He]. split; [done|]. intros [] w2 e2 HE HG2 HT2 ->.
  rewrite bool_decide_eq_true_2 by done. apply HK; [|done|done]. etrans; [exact Hg|]. by eapply explains_grown.
Qed.

Lemma own_put x {A} (Q : A -> World -> option Entry -> Prop) ent k w e :
  (forall w1, w ⊑ w1 -> good w1 -> entry_ok w1 x ent) ->
  (forall w1, w ⊑ w1 -> good w1 -> ~ tainted w1 -> safe (Some x) Q (k tt) w1 (Some ent)) ->
  safe (Some x) Q (pbind (call (CachePut x ent)) k) w e.
Proof.
  intros He HK. cbn [pbind call safe]. intros w1 e1 [Hg HG HT _]. split; [split; [done|by apply He]|].
  intros [] w2 e2 HE HG2 HT2 ->. rewrite bool_decide_eq_true_2 by done. apply HK; [|done|done].
  etrans; [exact Hg|]. by eapply explains_grown.
Qed.

Lemma own_decided x {A} (Q : A -> World -> option Entry -> Prop) s k w e :
  (forall w1 e1, w ⊑ w1 -> good w1 -> ~ tainted w1 -> evicted e e1 -> safe (Some x) Q (k tt) w1 (set_en_State s <$> e1)) ->
  safe (Some x) Q (pbind (call (CacheDecided x s)) k) w e.
Proof.
  intros HK. cbn [pbind call safe]. intros w1 e1 [Hg HG HT He]. split; [done|]. intros [] w2 e2 HE HG2 HT2 ->.
  rewrite bool_decide_eq_true_2 by done. apply HK; [|done|done|done]. etrans; [exact Hg|]. by eapply explains_grown.
Qed.

Lemma own_get x {A} (Q : A -> World -> option Entry -> Prop) k w e :
  (forall w1 e1, w ⊑ w1 -> good w1 -> ~ tainted w1 -> evicted e e1 -> safe (Some x) Q (k e1) w1 e1) ->
  safe (Some x) Q (pbind (call (CacheGet x)) k) w e.
Proof.
  intros HK. cbn [pbind call safe]. intros w1 e1 [Hg HG HT He]. split; [done|]. intros a w2 e2 HE HG2 HT2 [-> Ha].
  rewrite (Ha eq_refl). apply HK; [|done|done|done]. etrans; [exact Hg|]. by eapply explains_grown.
Qed.

Lemma entry_ok_grown w w' x ent : w ⊑ w' -> good w' -> entry_ok w x ent -> entry_ok w' x ent.
Proof. intros Hw HG [[Hk Hd]|?]; [left|by right]. split; [by eapply known_grown|done]. Qed.

Lemma clean_grown w w' x e e' : w ⊑ w' -> good w' -> evicted e e' -> clean w x e -> clean w' x e'.
Proof. intros Hw HG [->| ->] Hc ent He; [|done]. eapply entry_ok_grown; eauto. Qed.

Lemma clean_none w x : clean w x None.
Proof. by intros ent. Qed.

(** While the entry is clean. *)
Lemma clean_bind x {A B} (R : A -> World -> Prop) (Q : B -> World -> option Entry -> Prop) p k w e :
  clean w x e -> plain_safe R p w ->
  (forall a w1 e1, w ⊑ w1 -> good w1 -> ~ tainted w1 -> clean w1 x e1 -> R a w1 -> safe (Some x) Q (k a) w1 e1) ->
  safe (Some x) Q (pbind p k) w e.
Proof.
  intros Hc HP HK. eapply own_bind_plain; [exact HP|]. intros a w1 e1 Hw HG HT He Hr. apply HK; try done.
  by eapply clean_grown.
Qed.

Abbreviation keeps_clean x p w e := (safe (Some x%string) (fun _ w1 e1 => clean w1 x%string e1) p w e).

Lemma clean_ret x {A} (a : A) w e : clean w x e -> keeps_clean x (Ret a) w e.
Proof. intros Hc. apply own_ret. intros w1 e1 Hw HG _ He. by eapply clean_grown. Qed.

Lemma clean_try x {A B} (R : A -> World -> Prop) (p : Prog (result A)) (k : A -> Prog (result B)) w e :
  clean w x e -> plain_safe (if_ok R) p w ->
  (forall a w1 e1, w ⊑ w1 -> good w1 -> ~ tainted w1 -> clean w1 x e1 -> R a w1 -> keeps_clean x (k a) w1 e1) ->
  keeps_clean x (fbind p k) w e.
Proof.
  intros Hc HP HK. eapply clean_bind; [done|exact HP|]. intros [a|er] w1 e1 Hw HG HT Hc1 Hr; [by apply HK|by apply clean_ret].
Qed.

(** A program that uses no entry. *)
Lemma clean_plain x {A} (p : Prog A) w e : clean w x e -> plain_safe (fun _ _ => True) p w -> keeps_clean x p w e.
Proof.
  intros Hc HP. eapply safe_post; [|by apply safe_since, safe_frame, HP].
  intros a w1 e1 HG _ (Hw & _ & He). by eapply clean_grown.
Qed.
End Safe.
