(* ===== verification/SafeLog.v ===== *)
(** * The event log, the snapshots and the loader are safe

    What [Read] gives are decisions of the log; what [Load] gives is the state of
    the execution as of some decision, with its flow; what [Append] stores is
    the decision it was given, after the sequence it was given. *)

From Stdlib Require Import Ascii.
From S2P Require Import Prelude Json Hash Names Expr Flow FlowValidate FlowValid FlowGraph Event Cmd Reduce State StateFacts View.
From S2P Require Import Decide Numbering DecideRun Sim Codec DecideProps NamesProps LogProps Flight Shape ShapeCmds Server EventLog.
From S2P Require Import Loader Engine Chronicle LogFold Reading World Safe.

(** ** Names of archives *)

Lemma first_sep {A} (a : A) l1 l2 d1 d2 : l1 ++ a :: d1 = l2 ++ a :: d2 -> a ∉ l1 -> a ∉ l2 -> l1 = l2.
Proof.
  revert l2. induction l1 as [|b l1 IH]; intros [|c l2] E H1 H2; simpl in *; [done|..].
  - injection E as -> _. by destruct H2; left.
  - injection E as -> _. by destruct H1; left.
  - injection E as -> E. f_equal. apply (IH _ E); intros Hin; [apply H1|apply H2]; by right.
Qed.

Lemma SegmentObject_list x n :
  String.list_ascii_of_string (SegmentObject x n) =
  String.list_ascii_of_string x ++ "."%char :: String.list_ascii_of_string ("seg." +:+ Itoa n).
Proof. unfold SegmentObject. by rewrite !list_ascii_app. Qed.

(** An execution's segments are no other execution's archives. *)
Lemma segment_of x n y :
  ValidToken x = true -> ValidToken y = true -> archive_name y (SegmentObject x n) -> y = x.
Proof.
  intros Hx%token_no_dot Hy%token_no_dot [E|(i & E)]; apply (f_equal String.list_ascii_of_string) in E;
    rewrite !SegmentObject_list in E.
  - destruct Hy. rewrite <- E. apply elem_of_app. right. by left.
  - apply first_sep in E; [|done|done]. by apply list_ascii_inj in E.
Qed.

Section SafeLog.
Context `{HR : Registry}.
Context (cfg : Config).

Abbreviation plain_safe Q p w := (safe None (fun a w (_ : option Entry) => Q a w) p w None).

(** ** Objects *)

Definition object_at (w : World) (n : string) (o : Object) : Prop :=
  w_blobs w n = Some o \/ exists x b, n = snapshot_object x /\ o = OState b /\ b ∈ w_objs w x.

Lemma object_at_grown w w' n o : w ⊑ w' -> object_at w n o -> object_at w' n o.
Proof.
  intros Hw [Hb|(x & b & Hn & Ho & Hb)]; [left; by apply (gr_blobs _ _ Hw)|right].
  exists x, b. split; [done|]. split; [done|]. by apply (gr_objs _ _ Hw).
Qed.

Lemma BlobGet_safe n w :
  plain_safe (fun a w => match a with Got o => object_at w n o | _ => True end) (call (BlobGet n)) w.
Proof.
  apply plain_call; [done|]. intros w1 a w2 _ _ HE _ _ w3 Hw3 _ _. destruct a as [o| |e]; try done.
  pose proof (ex_answer _ _ _ _ HE) as Ha. cbn [answer_law] in Ha. eapply object_at_grown; [|exact Ha].
  etrans; [by eapply explains_grown|done].
Qed.

Lemma resolve_object_safe n w : plain_safe (if_ok (fun o w => object_at w n o)) (resolve_object n) w.
Proof.
  eapply plain_bind; [apply BlobGet_safe|]. intros [o| |e] w1 Hw HG HT Ho; [|apply plain_failed..].
  apply plain_ok. intros w2 Hw2 _ _. by eapply object_at_grown.
Qed.

(** ** Reading *)

Lemma decode_message_safe x q m w :
  good w -> (q, m) ∈ w_log w x ->
  plain_safe (if_ok (fun evs w => exists L devs, Log w x L /\ (q, devs) ∈ L /\ evs = stamped q devs))
    (decode_message m q) w.
Proof.
  intros HG Hin. unfold decode_message.
  eapply (plain_fbind (fun b w => forall evs, decodes w m evs -> DecodeDecision b = Ok evs)).
  - unfold Resolve. destruct (String.eqb (h_Blob (msg_Header m)) "") eqn:Eb.
    + apply plain_ok. intros w1 _ _ _ evs. unfold decodes. by rewrite Eb.
    + eapply plain_fbind; [apply resolve_object_safe|]. intros o w1 Hw HG1 _ Ho. apply plain_ok.
      intros w2 Hw2 HG2 _ evs. unfold decodes. rewrite Eb. intros (b & Hb & HD).
      pose proof (object_at_grown _ _ _ _ Hw2 Ho) as [Ho'|(y & b' & Hn & _)]; [rewrite Hb in Ho'; by injection Ho' as <-|].
      by destruct (proj2 (g_names _ HG2 _ _ Hb) y).
  - intros b w1 Hw HG1 _ Hb. destruct (DecodeDecision b) as [evs|e] eqn:ED; [|apply plain_failed].
    apply plain_ok. intros w2 Hw2 HG2 _. destruct (g_log _ HG1 x) as (d1 & L1 & t1 & HL1 & _).
    assert (Hin1 : (q, m) ∈ w_log w1 x).
    { destruct (gr_log _ _ Hw x) as [k ->]. apply elem_of_app. by left. }
    destruct (Log_in _ _ _ _ _ HL1 Hin1) as (evs1 & Hd1 & HL). apply Hb in Hd1. injection Hd1 as ->.
    destruct (g_log _ HG2 x) as (d2 & L2 & t2 & HL2 & _). exists L2, evs1. split; [done|]. split; [|done].
    destruct (Log_grown _ _ _ _ _ Hw2 HL1 HL2) as [k ->]. apply elem_of_app. by left.
Qed.

Section Scan.
Context {S : Type} (fn : S -> list FoldEvent -> S * bool) (x : string) (I : S -> World -> Prop).
Hypothesis I_grown : forall acc w w', w ⊑ w' -> good w' -> I acc w -> I acc w'.
Hypothesis I_step : forall acc w L q devs,
  good w -> Log w x L -> (q, devs) ∈ L -> I acc w -> I (fst (fn acc (stamped q devs))) w.

Lemma scan_messages_safe msgs next acc w :
  good w -> Forall (fun qm => qm ∈ w_log w x) msgs -> I acc w ->
  plain_safe (if_ok (fun r w => I (snd r) w)) (scan_messages (fun acc evs => Ret (fn acc evs)) msgs next acc) w.
Proof.
  revert next acc w. induction msgs as [|[q m] msgs IH]; intros next acc w HG HF HI; cbn [scan_messages].
  { apply plain_ok. intros w1 Hw HG1 _. by eapply I_grown. }
  apply Forall_cons in HF as [Hin HF]. eapply plain_fbind; [by apply (decode_message_safe x)|].
  intros evs w1 Hw HG1 _ (L & devs & HL & HinL & ->).
  pose proof (I_step acc w1 L q devs HG1 HL HinL (I_grown _ _ _ Hw HG1 HI)) as HI1.
  cbn [pbind]. destruct (fn acc (stamped q devs)) as [acc' go]. simpl in HI1. destruct go.
  - apply IH; [done| |done]. eapply Forall_impl; [exact HF|]. intros qm Hqm.
    destruct (gr_log _ _ Hw x) as [k ->]. apply elem_of_app. by left.
  - apply plain_ok. intros w2 Hw2 HG2 _. by eapply I_grown.
Qed.

Lemma readBatch_safe from acc w :
  I acc w -> plain_safe (if_ok (fun r w => I (snd r) w)) (readBatch (fun acc evs => Ret (fn acc evs)) x from acc) w.
Proof.
  intros HI. unfold readBatch.
  eapply (plain_bind (fun r w => match r with Ok (msgs, _) => Forall (fun qm => qm ∈ w_log w x) msgs | Err _ => True end)).
  - apply plain_call; [done|]. intros w1 a w2 _ _ HE _ _ w3 Hw3 _ _. destruct a as [[msgs more]|e]; [|done].
    pose proof (ex_answer _ _ _ _ HE) as Ha. cbn [answer_law] in Ha. eapply Forall_impl; [exact Ha|]. intros qm [Hqm _].
    assert (Hw : w1 ⊑ w3) by (etrans; [by eapply explains_grown|done]).
    destruct (gr_log _ _ Hw x) as [k ->]. apply elem_of_app. by left.
  - intros [[msgs more]|e] w1 Hw HG1 _ HF; [|apply plain_failed].
    eapply plain_fbind; [by eapply scan_messages_safe; eauto|]. intros [[next stop] acc'] w2 Hw2 HG2 _ HI2.
    apply plain_ok. intros w3 Hw3 HG3 _. by eapply I_grown.
Qed.

Lemma scan_rounds_safe rounds from acc w :
  I acc w -> plain_safe (if_ok I) (scan_rounds (fun acc evs => Ret (fn acc evs)) rounds x from acc) w.
Proof.
  revert from acc w. induction rounds as [|rounds IH]; intros from acc w HI; cbn [scan_rounds]; [apply plain_failed|].
  eapply plain_fbind; [by apply readBatch_safe|]. intros [[[next more] stop] acc'] w1 Hw HG1 _ HI1.
  destruct (stop || negb more); [|by apply IH]. apply plain_ok. intros w2 Hw2 HG2 _. by eapply I_grown.
Qed.
End Scan.

(** The events of a decision are read together. *)
Lemma read_decision to q devs out :
  scan_events (fun out ev => if (0 <? to) && (to <? ev_Seq ev) then (out, false) else (out ++ [ev], true)) out
    (stamped q devs) =
  if (0 <? to) && (to <? q) && negb (bool_decide (devs = [])) then (out, false) else (out ++ stamped q devs, true).
Proof.
  pose proof (stamped_seq q devs) as HF. destruct devs as [|ev devs].
  { rewrite andb_false_r. cbn. by rewrite app_nil_r. }
  rewrite bool_decide_eq_false_2 by done. cbn [negb]. rewrite andb_true_r.
  assert (Hne : stamped q (ev :: devs) <> []) by (by apply stamped_some). revert out HF Hne.
  generalize (stamped q (ev :: devs)). clear ev devs. intros l out HF Hne.
  destruct ((0 <? to) && (to <? q)) eqn:E.
  - destruct l as [|e l]; [done|]. apply Forall_cons in HF as [He _]. cbn. by rewrite He, E.
  - clear Hne. revert out. induction HF as [|e l He _ IH]; intros out; cbn; [by rewrite app_nil_r|].
    by rewrite He, E, IH, <- app_assoc.
Qed.

Lemma Read_safe x from to w : good w -> plain_safe (if_ok (fun evs w => read_from w x evs)) (Read cfg x from to) w.
Proof.
  intros HG. unfold Read, Scan, ScanDecisions. apply (scan_rounds_safe _ x (fun out w => read_from w x out)).
  - intros acc w1 w2. apply read_from_grown.
  - intros out w1 L q devs HG1 HL Hin (L' & HL' & HW). rewrite read_decision. destruct (_ && _).
    { by exists L'. }
    exists L. split; [done|]. apply whole_app; [|by apply whole_decision]. by rewrite (Log_fun _ _ _ _ HL HL').
  - destruct (g_log _ HG x) as (d & L & t & HL & _). exists L. split; [done|]. apply whole_nil.
Qed.

(** ** Snapshots *)

Lemma live_known_grown w w' x s : w ⊑ w' -> good w' -> live_known w x s -> live_known w' x s.
Proof. intros Hw HG [Hk Ex]. split; [by eapply known_grown|done]. Qed.

Lemma snapshot_object_inj x y : snapshot_object x = snapshot_object y -> x = y.
Proof.
  intros E. apply (f_equal String.list_ascii_of_string) in E. unfold snapshot_object in E. rewrite !list_ascii_app in E.
  by apply app_inv_tail, list_ascii_inj in E.
Qed.

Lemma LoadSnapshot_safe x w :
  plain_safe (if_ok (fun o w => forall s, o = Some s -> live_known w x s)) (LoadSnapshot x) w.
Proof.
  unfold LoadSnapshot.
  eapply (plain_bind (fun r w => match r with Ok (Some v) => snap_ok w x v | _ => True end)).
  { apply plain_call; [done|]. intros w1 a w2 _ HG1 HE HG2 _ w3 Hw3 HG3 _. destruct a as [[v|]|e]; try done.
    pose proof (ex_answer _ _ _ _ HE) as Ha. cbn [answer_law] in Ha. apply (g_snaps _ HG1) in Ha.
    eapply snap_ok_grown; [|done|exact Ha]. etrans; [by eapply explains_grown|done]. }
  intros [[v|]|e] w1 Hw HG1 _ Hv; [|by apply plain_ok|apply plain_failed].
  eapply (plain_fbind (fun b w => forall s, b = Some s -> live_known w x s)).
  - destruct v as [b|n]; simpl in Hv.
    + apply plain_ok. intros w2 Hw2 HG2 _ s Hs. eapply live_known_grown; [done|done|by apply Hv].
    + subst n. eapply plain_bind; [apply BlobGet_safe|]. intros [o| |e] w2 Hw2 HG2 _ Ho; [|apply plain_failed..].
      destruct o as [b|b|j|b]; [by apply plain_ok..|]. apply plain_ok. intros w3 Hw3 HG3 _ s ->.
      destruct Ho as [Ho|(y & b' & Hn & [= <-] & Hb)]; [by destruct (proj2 (g_names _ HG2 _ _ Ho) x)|].
      apply snapshot_object_inj in Hn as <-. eapply live_known_grown; [done|done|by apply (g_objs _ HG2)].
  - intros b w2 Hw2 HG2 _ Hb. destruct (Unmarshal b) as [st|e] eqn:EU; [|apply plain_failed].
    apply plain_ok. intros w3 Hw3 HG3 _ s [= <-]. eapply live_known_grown; [done|done|]. apply Hb.
    destruct b; [|done]. by injection EU as ->.
Qed.

Lemma snapshotFor_safe x upTo w :
  plain_safe (fun o w => forall s, o = Some s -> live_known w x s) (snapshotFor cfg x upTo) w.
Proof.
  unfold snapshotFor. destruct (negb _); [by apply plain_ret|].
  eapply plain_bind; [apply LoadSnapshot_safe|]. intros r w1 Hw HG1 _ Hr. apply plain_ret.
  intros w2 Hw2 HG2 _ s. destruct r as [[st|]|e]; try done. destruct (_ && _); [done|]. intros [= <-].
  eapply live_known_grown; [done|done|by apply Hr].
Qed.

(** ** Definitions *)

Definition flow_at (def : Flow) (n h : string) : Prop :=
  registered def /\ forall def', flows n h = Some def' -> def = def'.

Lemma FlowsGet_safe n h w : plain_safe (if_ok (fun def _ => flow_at def n h)) (call (FlowsGet n h)) w.
Proof.
  apply plain_call; [done|]. intros w1 a w2 _ _ HE _ _ w3 _ _ _. destruct a as [def|e]; [|done].
  exact (ex_answer _ _ _ _ HE).
Qed.

Lemma DefOf_safe first w :
  plain_safe (if_ok (fun def _ => registered def /\ forall def' x, base_ok def' x first -> def = def')) (DefOf first) w.
Proof.
  assert (HS : forall b, (forall def' x, base_ok def' x first -> exists src, b = Some src /\ flows (s_Flow src) (s_FlowHash src) = Some def') ->
    plain_safe (if_ok (fun def _ => registered def /\ forall def' x, base_ok def' x first -> def = def')) (defOfState b) w).
  { intros b Hb. unfold defOfState. eapply (plain_fbind (fun st _ => b = Some st)).
    - apply plain_lift. intros st w1 HU _ _ _. destruct b; [|done]. by injection HU as ->.
    - intros st w1 _ _ _ ->. eapply safe_post; [|apply FlowsGet_safe]. intros [def|e] w2 e2 _ _ Hd; [|done].
      destruct Hd as [Hr Hd]. split; [done|]. intros def' x Hbase. destruct (Hb _ _ Hbase) as (src & [= <-] & Hf). by apply Hd. }
  unfold DefOf. destruct (ev_Data first) eqn:Ed; try apply plain_failed; match type of Ed with _ = _ ?x => rename x into y end.
  - eapply safe_post; [|apply FlowsGet_safe]. intros [def|e] w2 e2 _ _ Hd; [|done]. destruct Hd as [Hr Hd]. split; [done|].
    intros def' x Hb. destruct (Hb (identity (NewState x))) as (i & Hi & _ & Hf). unfold identify in Hi. rewrite Ed in Hi.
    injection Hi as <-. by apply Hd.
  - apply HS. intros def' x Hb. destruct (Hb (identity (NewState x))) as (i & Hi & _ & Hf). unfold identify in Hi. rewrite Ed in Hi.
    destruct (Forked_State y) as [src|]; [|done]. injection Hi as <-. eauto.
  - apply HS. intros def' x Hb. destruct (Hb (identity (NewState x))) as (i & Hi & _ & Hf). unfold identify in Hi. rewrite Ed in Hi.
    destruct (Continued_State y) as [src|]; [|done]. injection Hi as <-. eauto.
Qed.

(** ** Archives *)

Lemma ArchiveObject_safe n w :
  plain_safe (if_ok (fun evs w => exists y, ValidToken y = true /\ archive_name y n /\ read_from w y evs)) (ArchiveObject n) w.
Proof.
  unfold ArchiveObject.
  eapply (plain_bind (fun a w => match a with Got l => arch_ok w n l | _ => True end)).
  { apply plain_call; [done|]. intros w1 a w2 _ HG1 HE HG2 _ w3 Hw3 HG3 _. destruct a as [l| |e]; try done.
    pose proof (ex_answer _ _ _ _ HE) as Ha. cbn [answer_law] in Ha. apply (g_archs _ HG1) in Ha.
    eapply arch_ok_grown; [|done|exact Ha]. etrans; [by eapply explains_grown|done]. }
  intros [l| |e] w1 Hw HG1 _ Ha; [|apply plain_failed..]. apply plain_lift. intros evs w2 Hu Hw2 HG2 _.
  destruct Ha as (y & Hy & Hn & evs' & Hu' & Hr). rewrite Hu in Hu'. injection Hu' as <-.
  exists y. split; [done|]. split; [done|]. by eapply read_from_grown.
Qed.

Lemma read_from_nil w x : good w -> read_from w x [].
Proof. intros HG. destruct (g_log _ HG x) as (d & L & t & HL & _). exists L. split; [done|]. apply whole_nil. Qed.

Lemma read_from_app w x l1 l2 : read_from w x l1 -> read_from w x l2 -> read_from w x (l1 ++ l2).
Proof.
  intros (L & HL & H1) (L' & HL' & H2). rewrite <- (Log_fun _ _ _ _ HL HL') in H2. exists L. split; [done|]. by apply whole_app.
Qed.

Lemma segment_events_safe x segs w :
  good w -> ValidToken x = true -> Forall (fun seg => exists n, Segment_Object seg = SegmentObject x n) segs ->
  plain_safe (if_ok (fun evs w => read_from w x evs)) (segment_events segs) w.
Proof.
  intros HG Hx HF. revert w HG. induction HF as [|seg segs [n Hn] _ IH]; intros w HG; cbn [segment_events].
  { apply plain_ok. intros w1 _ HG1 _. by apply read_from_nil. }
  eapply plain_bind; [apply ArchiveObject_safe|]. intros [part|e] w1 Hw HG1 _ Hp; [|apply plain_failed].
  destruct Hp as (y & Hy & Hny & Hr). rewrite Hn in Hny. apply segment_of in Hny as ->; [|done|done].
  eapply plain_fbind; [by apply IH|]. intros rest w2 Hw2 HG2 _ Hr2. apply plain_ok. intros w3 Hw3 HG3 _.
  apply read_from_app; eapply read_from_grown; [| |exact Hr| | |exact Hr2]; try done. by etrans.
Qed.

(** What is known of an event that was read. *)
Lemma read_event w x evs ev :
  good w -> read_from w x evs -> ev ∈ evs -> ValidToken x = true /\ named x ev.
Proof.
  intros HG (L & HL & D & HD & ->) Hin. destruct (g_log _ HG x) as (d & L' & T & HL' & HC).
  rewrite <- (Log_fun _ _ _ _ HL HL') in HC. unfold stamped_all in Hin.
  apply list_elem_of_In, in_concat in Hin as (l & Hl & Hin). apply list_elem_of_In, list_elem_of_fmap in Hl as ([q devs] & -> & HinD).
  rewrite Forall_forall in HD. apply HD in HinD. split.
  - apply (g_valid _ HG). intros E. unfold Log in HL. rewrite E in HL. inversion HL; subst. by apply elem_of_nil in HinD.
  - destruct (decision_split _ _ _ _ _ _ HC HinD) as (h & da & t & def & t' & _ & _ & _ & _ & HLk & _).
    pose proof (lk_named _ _ _ _ _ HLk) as Hn. apply list_elem_of_In in Hin. cbn [fst snd] in Hin.
    pose proof (stamped_same q devs) as HS. apply list_elem_of_lookup in Hin as (i & Hi).
    destruct (Forall2_lookup_r _ _ _ _ _ HS Hi) as (e & He & (_ & _ & Hd)). rewrite Forall_lookup in Hn.
    specialize (Hn _ _ He). unfold named in *. by rewrite <- Hd.
Qed.

Lemma read_from_lastContinued w x evs ev tail :
  good w -> read_from w x evs -> from_lastContinued evs = Some (ev, tail) -> read_from w x tail.
Proof.
  intros HG (L & HL & HW) HF. exists L. split; [done|]. eapply whole_lastContinued; [|exact HW|exact HF].
  destruct (g_log _ HG x) as (d & L' & T & HL' & HC). rewrite <- (Log_fun _ _ _ _ HL HL') in HC.
  intros q devs. by apply (chronicle_solid _ _ _ _ _ _ HC).
Qed.

Lemma withSegments_safe x evs w :
  good w -> read_from w x evs ->
  plain_safe (if_ok (fun out w => read_from w x out /\ (evs <> [] -> out <> []))) (withSegments evs) w.
Proof.
  intros HG Hr. unfold withSegments. destruct (from_lastContinued evs) as [[ev tail]|] eqn:EF; cycle 1.
  { apply plain_ok. intros w1 Hw HG1 _. split; [by eapply read_from_grown|done]. }
  pose proof (read_from_lastContinued _ _ _ _ _ HG Hr EF) as Ht.
  destruct (from_lastContinued_last _ _ _ EF) as (_ & rest & ->).
  destruct (read_event _ _ _ ev HG Ht (list_elem_of_here _ _)) as [Hx Hn].
  destruct (ev_Data ev) eqn:Ed; try apply plain_failed. match type of Ed with _ = _ ?x => rename x into y end.
  eapply (plain_fbind (fun st _ => Continued_State y = Some st)).
  { apply plain_lift. intros st w1 HU _ _ _. destruct (Continued_State y); [|done]. by injection HU as ->. }
  intros st w1 Hw HG1 _ Hst. eapply plain_fbind; [apply (segment_events_safe x); [done|done|]|].
  { by apply (Hn y). }
  intros out w2 Hw2 HG2 _ Hout. apply plain_ok. intros w3 Hw3 HG3 _. split; [|by destruct out].
  apply read_from_app; [by eapply read_from_grown|]. eapply read_from_grown; [|done|exact Ht].
  etrans; [exact Hw|]. by etrans.
Qed.
End SafeLog.

(** ** Loading and storing are safe

    What [Load] gives is the state of the execution as of some decision, with
    its flow; what [Append] stores is the decision it was given, after the
    sequence it was given; snapshots and archives hold what they should. *)

Section SafeLoad.
Context `{HR : Registry}.
Context (cfg : Config).

Abbreviation plain_safe Q p w := (safe None (fun a w (_ : option Entry) => Q a w) p w None).

(** ** Loading *)

(** What was loaded for the id [z]: a state of [x] with its flow, or nothing. *)
Definition loaded (w : World) (x z : string) (upTo : Z) (r : State * option Flow) : Prop :=
  (Exists (fst r) = true -> known w x (fst r) /\ exists def, snd r = Some def /\ flow_of (identity (fst r)) = Some def) /\
  (Exists (fst r) = false -> fst r = NewState z /\ (upTo = 0 -> snd r = None)).

Lemma loaded_grown w w' x z upTo r : w ⊑ w' -> good w' -> loaded w x z upTo r -> loaded w' x z upTo r.
Proof.
  intros Hw HG [Hl Hn]. split; [|done]. intros Ex. destruct (Hl Ex) as [Hk Hd]. split; [by eapply known_grown|done].
Qed.

Lemma loaded_new w x z upTo : loaded w x z upTo (NewState z, None).
Proof. by split. Qed.

Lemma loaded_some w x z upTo s def :
  known w x s -> Exists s = true -> flow_of (identity s) = Some def -> loaded w x z upTo (s, Some def).
Proof. intros Hk Ex Hf. split; cbn [fst snd]; [intros _; split; [done|by exists def]|congruence]. Qed.

(** A fold of what was read, from nothing: its first event gives the flow. *)
Lemma fold_read w x z evs first rest def s :
  good w -> read_from w x evs -> evs = first :: rest ->
  (forall def' y, base_ok def' y first -> def = def') ->
  res_fold (load_step def) (NewState z) evs = Ok s ->
  known w x s /\ Exists s = true /\ flow_of (identity s) = Some def.
Proof.
  intros HG (L & HL & HW) -> Hdef HF. destruct (g_log _ HG x) as (d & L' & T & HL' & HC).
  rewrite <- (Log_fun _ _ _ _ HL HL') in HC.
  assert (exists def', d = Some def' /\ base_ok def' x first) as (def' & Hd & Hb).
  { cbn [res_fold] in HF. apply res_bind_ok in HF as (s1 & (s0 & Ha & _)%res_bind_ok & _).
    destruct (first_base _ _ _ _ _ _ _ _ _ HC HW Ha) as (def' & ? & ? & _). eauto. }
  rewrite <- (Hdef _ _ Hb) in Hd. destruct (fold_whole _ _ _ _ _ _ _ _ HC HW ltac:(done) Hd HF) as (Has & Ex & Hf).
  split; [by exists L|done].
Qed.

Lemma up_to_head upTo first rest :
  up_to upTo (first :: rest) = [] \/ exists rest', up_to upTo (first :: rest) = first :: rest'.
Proof. cbn [up_to]. destruct (_ && _); eauto. Qed.

Lemma up_to_zero evs : up_to 0 evs = evs.
Proof. induction evs as [|ev evs IH]; cbn; [done|]. by rewrite IH. Qed.

Lemma read_from_up_to w x upTo evs : good w -> read_from w x evs -> read_from w x (up_to upTo evs).
Proof.
  intros HG (L & HL & HW). exists L. split; [done|]. apply whole_up_to; [|done].
  destruct (g_log _ HG x) as (d & L' & T & HL' & HC). rewrite <- (Log_fun _ _ _ _ HL HL') in HC.
  intros q devs. by apply (chronicle_solid _ _ _ _ _ _ HC).
Qed.

Lemma foldUpTo_safe x z evs upTo w :
  good w -> read_from w x evs -> plain_safe (if_ok (fun r w => loaded w x z upTo r)) (foldUpTo z evs upTo) w.
Proof.
  intros HG Hr. unfold foldUpTo. destruct evs as [|first rest].
  { apply plain_ok. intros w1 _ _ _. apply loaded_new. }
  eapply plain_fbind; [apply DefOf_safe|]. intros def w1 Hw HG1 _ [Hreg Hdef].
  eapply (plain_fbind (fun s w => Exists s = true /\ known w x s /\ flow_of (identity s) = Some def \/ s = NewState z /\ upTo <> 0)).
  - apply plain_lift. intros s w2 HF Hw2 HG2 _. assert (Hr2 : read_from w2 x (first :: rest)).
    { eapply read_from_grown; [|done|exact Hr]. by etrans. }
    destruct (up_to_head upTo first rest) as [E|(rest' & E)].
    + right. rewrite E in HF. injection HF as <-. split; [done|]. intros ->. by rewrite up_to_zero in E.
    + left. edestruct (fold_read w2 x z (up_to upTo (first :: rest)) first rest' def s HG2) as (Hk & Ex & Hf);
        [by apply read_from_up_to|exact E|eauto|exact HF|done].
  - intros s w2 Hw2 HG2 _ Hs. apply plain_ok. intros w3 Hw3 HG3 _. destruct Hs as [(Ex & Hk & Hf)|[-> Hu]].
    + apply loaded_some; [by eapply known_grown|done|done].
    + split; [done|]. intros _. split; [done|]. by intros ->.
Qed.

(** An archive is found under the id of its execution, or of one of its
    segments. *)
Lemma LoadArchived_safe z upTo w :
  plain_safe (if_ok (fun r w => exists x, loaded w x z upTo r)) (LoadArchived z upTo) w.
Proof.
  unfold LoadArchived, Archived. eapply plain_fbind; [apply ArchiveObject_safe|].
  intros evs w1 Hw HG1 _ (y & _ & _ & Hr). destruct evs as [|first rest]; [apply plain_failed|].
  eapply (plain_fbind (fun evs w => read_from w y evs)).
  - destruct (_ && _).
    + eapply safe_post; [|by apply (withSegments_safe y)]. intros [out|e] w2 e2 _ _ Ho; [|done]. by destruct Ho.
    + apply plain_ok. intros w2 Hw2 HG2 _. by eapply read_from_grown.
  - intros evs w2 Hw2 HG2 _ Hr2. eapply safe_post; [|by apply (foldUpTo_safe y)].
    intros [r|e] w3 e3 _ _ Hl; [|done]. by exists y.
Qed.

Lemma loadFromHistory_safe x upTo w :
  good w -> plain_safe (if_ok (fun r w => loaded w x x upTo r)) (loadFromHistory cfg x upTo) w.
Proof.
  intros HG. unfold loadFromHistory. eapply plain_fbind; [by apply Read_safe|]. intros live w1 Hw HG1 _ Hr.
  destruct live as [|ev live]; [apply plain_ok; intros; apply loaded_new|].
  eapply plain_fbind; [by apply (withSegments_safe x)|]. intros evs w2 Hw2 HG2 _ [Hr2 _]. by apply foldUpTo_safe.
Qed.

Lemma load_fold_safe x st evs upTo w :
  good w -> (forall s, st = Some s -> live_known w x s) -> read_from w x evs ->
  plain_safe (if_ok (fun r w => loaded w x x upTo r)) (load_fold x st evs) w.
Proof.
  intros HG Hst Hr. unfold load_fold. destruct st as [s0|].
  - destruct (Hst s0 eq_refl) as [(L & HL & Has) Ex]. destruct (g_log _ HG x) as (d & L' & T & HL' & HC).
    rewrite <- (Log_fun _ _ _ _ HL HL') in HC. destruct (as_of_live _ _ _ _ _ HC Has Ex) as (def0 & -> & _ & _ & Hf0).
    eapply (plain_fbind (fun def _ => def = def0)).
    { eapply safe_post; [|apply FlowsGet_safe]. intros [def|e] w1 e1 _ _ Hd; [|done]. destruct Hd as [_ Hd]. by apply Hd. }
    intros def w1 Hw HG1 _ ->. destruct Hr as (L1 & HL1 & HW). rewrite <- (Log_fun _ _ _ _ HL HL1) in HW.
    eapply (plain_fbind (fun s _ => as_of x L s /\ Exists s = true /\ flow_of (identity s) = Some def0)).
    { apply plain_lift. intros s w2 HF _ _ _. eapply fold_from; try done. by right. }
    intros s w2 Hw2 HG2 _ (Has2 & Ex2 & Hf2). apply plain_ok. intros w3 Hw3 HG3 _. apply loaded_some; [|done|done].
    eapply (known_grown w); [|done|by exists L]. etrans; [exact Hw|]. by etrans.
  - destruct evs as [|first rest]; [apply plain_failed|]. eapply plain_fbind; [apply DefOf_safe|].
    intros def w1 Hw HG1 _ [Hreg Hdef].
    eapply (plain_fbind (fun s w => known w x s /\ Exists s = true /\ flow_of (identity s) = Some def)).
    { apply plain_lift. intros s w2 HF Hw2 HG2 _. eapply fold_read; [done| |done| |exact HF]; [|eauto].
      eapply read_from_grown; [|done|exact Hr]. by etrans. }
    intros s w2 Hw2 HG2 _ (Hk & Ex2 & Hf2). apply plain_ok. intros w3 Hw3 HG3 _.
    apply loaded_some; [by eapply known_grown|done|done].
Qed.

Lemma continues_safe x st evs w : plain_safe (fun _ _ => True) (continues x st evs) w.
Proof.
  assert (HF : forall k, (forall r w, plain_safe (fun (_ : bool) _ => True) (k r) w) ->
    plain_safe (fun _ _ => True) (pbind (FirstSeq x) k) w).
  { intros k Hk. unfold FirstSeq. apply safe_bind. eapply safe_post; [|apply (plain_any (fun _ _ => True)); [done|]].
    - intros r w1 e1 _ _ _. eapply (safe_post _ (fun _ _ e => True /\ evicted e1 e)); [done|]. by apply safe_frame.
    - intros a w1 _ _ _. by apply plain_ret. }
  unfold continues. destruct evs as [|ev evs]; [by apply HF; intros; apply plain_ret|].
  destruct (negb _); [by apply plain_ret|]. by apply HF; intros; apply plain_ret.
Qed.

Lemma read_from_lastBase w x evs l :
  good w -> read_from w x evs -> from_lastBase evs = Some l -> read_from w x l.
Proof.
  intros HG (L & HL & HW) HF. exists L. split; [done|]. eapply whole_lastBase; [|exact HW|exact HF].
  destruct (g_log _ HG x) as (d & L' & T & HL' & HC). rewrite <- (Log_fun _ _ _ _ HL HL') in HC.
  intros q devs. by apply (chronicle_solid _ _ _ _ _ _ HC).
Qed.

Lemma Load_safe x upTo w : good w -> plain_safe (if_ok (fun r w => loaded w x x upTo r)) (Load cfg x upTo) w.
Proof.
  intros HG. unfold Load. eapply plain_bind; [apply snapshotFor_safe|]. intros st w1 Hw HG1 _ Hst.
  eapply plain_fbind; [by apply Read_safe|]. intros evs w2 Hw2 HG2 _ Hr.
  assert (Hst2 : forall s, st = Some s -> live_known w2 x s) by (intros s Hs; eapply live_known_grown; eauto).
  eapply (plain_fbind (fun p w => (forall s, fst p = Some s -> live_known w x s) /\ read_from w x (snd p))).
  - destruct st as [s|]; cycle 1.
    { apply plain_ok. intros w3 Hw3 HG3 _. split; [done|]. by eapply read_from_grown. }
    eapply plain_bind; [apply continues_safe|]. intros cont w3 Hw3 HG3 _ _. destruct cont.
    + apply plain_ok. intros w4 Hw4 HG4 _. assert (w2 ⊑ w4) by (by etrans). split; [|by eapply read_from_grown].
      intros s' [= <-]. eapply live_known_grown; eauto.
    + eapply plain_fbind; [by apply Read_safe|]. intros evs' w4 Hw4 HG4 _ Hr4. apply plain_ok. intros w5 Hw5 HG5 _.
      split; [done|]. by eapply read_from_grown.
  - intros [st' evs'] w3 Hw3 HG3 _ [Hst' Hr3]. cbn [fst snd] in *. destruct (_ && _).
    + destruct (0 <? upTo); [by apply loadFromHistory_safe|]. apply plain_ok. intros; apply loaded_new.
    + destruct (from_lastBase evs') as [l|] eqn:EB.
      * apply load_fold_safe; [done|done|]. by eapply read_from_lastBase.
      * destruct st' as [s'|]; [by apply load_fold_safe|by apply loadFromHistory_safe].
Qed.

(** ** Storing *)

Lemma appendable_grown w w' x expected evs :
  w ⊑ w' -> good w' -> appendable w x expected evs -> appendable w' x expected evs.
Proof.
  intros Hw HG (L & h & HL & Hp & Hr). destruct (g_log _ HG x) as (d & L' & t & HL' & _). exists L', h.
  split; [done|]. split; [|done]. etrans; [exact Hp|]. by eapply Log_grown.
Qed.

(** The decision [evs] is stored at [seq], right after [expected]. *)
Definition landed (w : World) (x : string) (expected seq : Z) (evs : list FoldEvent) : Prop :=
  exists L h, Log w x L /\ h ++ [(seq, evs)] `prefix_of` L /\ last_seq h = expected /\ proposal x h evs.

Lemma landed_grown w w' x expected seq evs :
  w ⊑ w' -> good w' -> landed w x expected seq evs -> landed w' x expected seq evs.
Proof.
  intros Hw HG (L & h & HL & Hp & Hr). destruct (g_log _ HG x) as (d & L' & t & HL' & _). exists L', h.
  split; [done|]. split; [|done]. etrans; [exact Hp|]. by eapply Log_grown.
Qed.

Lemma Offload_safe x body h w :
  h_Blob h = "" ->
  plain_safe (if_ok (fun p w => forall evs, DecodeDecision body = Ok evs ->
    decodes w {| msg_Header := snd p; msg_Data := fst p |} evs)) (Offload cfg x body h) w.
Proof.
  intros Hh. unfold Offload. destruct (_ <=? _).
  { apply plain_ok. intros w1 _ _ _ evs HD. unfold decodes. cbn [fst snd msg_Header msg_Data]. by rewrite Hh. }
  eapply (plain_bind (if_ok (fun n w => w_blobs w n = Some (ODecision body)))).
  { apply plain_call; [done|]. intros w1 a w2 _ _ HE _ _ w3 Hw3 _ _. destruct a as [n|e]; [|done].
    apply (gr_blobs _ _ Hw3). exact (ex_answer _ _ _ _ HE). }
  intros [n|e] w1 Hw HG1 _ Hn; [|apply plain_failed]. apply plain_ok. intros w2 Hw2 HG2 _ evs HD.
  simpl in Hn. apply (gr_blobs _ _ Hw2) in Hn. unfold decodes. cbn [fst snd msg_Header msg_Data set_h_Blob h_Blob].
  destruct (String.eqb_spec n "") as [->|_]; [by destruct (g_names _ HG2 _ _ Hn)|]. by exists body.
Qed.

Lemma EncodeDecision_inline evs body h : EncodeDecision evs = Ok (body, h) -> h_Blob h = "".
Proof. destruct evs; [done|]. unfold EncodeDecision. by intros (raws & _ & [= _ <-])%res_bind_ok. Qed.

Lemma Append_safe x expected evs w :
  ValidToken x = true -> Forall unstored evs ->
  (evs <> [] -> irregular true evs = true \/ appendable w x expected evs) ->
  plain_safe (if_ok (fun seq w => evs = [] /\ seq = expected \/ landed w x expected seq evs)) (Append cfg x expected evs) w.
Proof.
  intros Hx Hu Hev. unfold Append. case_bool_decide as Ee; [apply plain_ok; by left|]. specialize (Hev Ee).
  destruct (_ <? _); [apply plain_failed|].
  eapply (plain_fbind (fun p _ => DecodeDecision (fst p) = Ok evs /\ h_Blob (snd p) = "")).
  { apply plain_lift. intros [body h] w1 HE _ _ _. split; [by eapply EncodeDecision_unstored|by eapply EncodeDecision_inline]. }
  intros [body h] w1 Hw HG1 _ [HD Hh]. cbn [fst snd] in *. eapply plain_fbind; [by apply Offload_safe|].
  intros [body' h'] w2 Hw2 HG2 _ Hm. specialize (Hm _ HD). cbn [fst snd] in Hm.
  eapply (plain_bind (fun a w => match a with PubAck seq => landed w x expected seq evs | _ => True end)).
  - apply plain_call.
    + intros w3 Hw3 HG3 _. split; [done|]. exists evs. split; [by eapply decodes_grown|]. destruct Hev as [|Ha]; [by left|].
      right. eapply (appendable_grown w); [|done|done]. etrans; [exact Hw|]. by etrans.
    + intros w3 a w4 Hw3 HG3 HE HG4 HT4 w5 Hw5 HG5 _. destruct a as [seq| |e]; [|done..].
      eapply landed_grown; [exact Hw5|done|]. pose proof (ex_log _ _ _ _ HE) as Hst. cbn [log_law] in Hst.
      assert (Hm3 : decodes w3 {| msg_Header := h'; msg_Data := body' |} evs) by (by eapply decodes_grown).
      assert (Hp : publishable w3 x expected {| msg_Header := h'; msg_Data := body' |}).
      { exists evs. split; [done|]. destruct Hev as [|Ha]; [by left|].
        right. eapply (appendable_grown w); [|done|done]. etrans; [exact Hw|]. by etrans. }
      pose proof (explains_grown _ _ _ _ HE) as Hw4.
      destruct (stored_at_end _ _ _ _ _ _ HG3 Hp Hst Hw4 HT4) as (evs' & L & Hd & HL & Hs & Hpr).
      rewrite (decodes_fun _ _ _ _ Hd Hm3) in *. destruct Hst as (Hq & _ & Hl). specialize (Hl x). rewrite String.eqb_refl in Hl.
      exists (L ++ [(seq, evs)]), L. split; [by eapply Log_stored|done].
  - intros [seq| |e] w3 Hw3 HG3 _ Hl; [|apply plain_failed..]. apply plain_ok. intros w4 Hw4 HG4 _. right. by eapply landed_grown.
Qed.

Lemma SaveSnapshot_safe x st w :
  good w -> s_ExecID st = x -> live_known w x st -> plain_safe (fun _ _ => True) (SaveSnapshot cfg st) w.
Proof.
  intros HG Hx Hk. unfold SaveSnapshot.
  assert (HM : forall b w1, MarshalState st = Ok b -> w ⊑ w1 -> good w1 -> forall s, b = Some s -> live_known w1 x s).
  { intros b w1 HM Hw HG1 s ->. apply (live_known_grown w); [done|done|]. unfold MarshalState in HM.
    destruct (bool_decide _); [|done]. injection HM as <-. destruct Hk as [(L & HL & d & h & t & Hp & HC & Hs & Hl) Ex].
    split; [|done]. exists L. split; [done|]. exists d, h, t. split; [done|]. split; [done|]. split; [|done].
    etrans; [|exact Hs]. apply reload_sim. }
  apply safe_post with (Q := fun r w (_ : option Entry) => if_ok (fun _ _ => True) r w); [done|].
  eapply (plain_fbind (fun b w => forall s, b = Some s -> live_known w x s)).
  { apply plain_lift. eauto. }
  intros b w1 Hw HG1 _ Hb.
  eapply (plain_fbind (fun v w => snap_ok w x v)).
  - destruct (_ <? _).
    + unfold saveBlob. eapply (plain_bind (fun _ _ => True)).
      * apply plain_call; [|done]. intros w2 Hw2 HG2 _ s Hs. rewrite Hx. eapply live_known_grown; eauto.
      * intros [?|e] w2 Hw2 HG2 _ _; [|apply plain_failed]. apply plain_ok. intros. simpl. by rewrite Hx.
    + apply plain_ok. intros w2 Hw2 HG2 _ s Hs. eapply live_known_grown; eauto.
  - intros v w2 Hw2 HG2 _ Hv. apply plain_call; [|by intros ? [] ]. intros w3 Hw3 HG3 _. rewrite Hx. by eapply snap_ok_grown.
Qed.

Lemma putArchive_safe x n evs w :
  good w -> ValidToken x = true -> archive_name x n -> read_from w x evs ->
  plain_safe (fun _ _ => True) (putArchive n evs) w.
Proof.
  intros HG Hx Hn Hr. unfold putArchive.
  apply safe_post with (Q := fun r w (_ : option Entry) => if_ok (fun _ _ => True) r w); [done|].
  eapply (plain_fbind (fun raw _ => unarchive raw = Ok evs)).
  { apply plain_lift. intros raw w1 Ha Hw HG1 _. eapply unarchive_archive; [|exact Ha].
    destruct (read_from_grown _ _ _ _ Hw HG1 Hr) as (L & HL & HW). destruct (g_log _ HG1 x) as (d & L' & T & HL' & HC).
    rewrite <- (Log_fun _ _ _ _ HL HL') in HC. eapply whole_storable; [|exact HW]. intros q devs. by apply (chronicle_solid _ _ _ _ _ _ HC). }
  intros raw w1 Hw HG1 _ Hu. eapply (plain_bind (fun _ _ => True)).
  - apply plain_call; [|done]. intros w2 Hw2 HG2 _. exists x. split; [done|]. split; [done|]. exists evs. split; [done|].
    eapply read_from_grown; [|done|exact Hr]. by etrans.
  - intros r w2 Hw2 HG2 _ _. by apply plain_lift.
Qed.
End SafeLoad.
