(* ===== verification/SafeDecide.v ===== *)
(** * What the engine decides continues the chronicle

    The decision made on a loaded state, stored after the sequence of that state,
    is the next decision of the chronicle ([ready]); so is the failure that
    replaces a decision too large. *)

From S2P Require Import Prelude Json Hash Names Expr Flow FlowValidate FlowValid FlowGraph Event Cmd Reduce.
From S2P Require Import State StateFacts View Decide DecideRun DecideOps Sim Codec DecideProps LogProps.
From S2P Require Import Flight Shape ShapeCmds Server EventLog Loader Engine Chronicle LogFold Reading World Safe.
From S2P Require Import SafeLog.

Section SafeDecide.
Context `{HR : Registry}.
Context (cfg : Config).

Abbreviation plain_safe Q p w := (safe None (fun a w (_ : option Entry) => Q a w) p w None).

(** ** Decisions about to be stored *)

(** [ent] is the state after the decision [evs], to be stored after [expected]. *)
Definition ready (w : World) (x : string) (ent : Entry) (expected : Z) (evs : list FoldEvent) : Prop :=
  Forall unstored evs /\
  (irregular true evs = true \/
   exists L h def t', Log w x L /\ h `prefix_of` L /\ last_seq h = expected /\ en_Def ent = Some def /\
     en_State ent ≃ t' /\ forall q, last_seq h < q -> Chronicle x (Some def) (h ++ [(q, evs)]) t').

Lemma ready_grown w w' x ent expected evs :
  w ⊑ w' -> good w' -> ready w x ent expected evs -> ready w' x ent expected evs.
Proof.
  intros Hw HG [Hu Hr]. split; [done|]. destruct Hr as [?|(L & h & def & t' & HL & Hp & Hr)]; [by left|right].
  destruct (g_log _ HG x) as (d & L' & t & HL' & _). exists L', h, def, t'. split; [done|]. split; [|done].
  etrans; [exact Hp|]. by eapply Log_grown.
Qed.

Lemma ready_appendable w x ent expected evs :
  ready w x ent expected evs -> irregular true evs = true \/ appendable w x expected evs.
Proof.
  intros [_ [?|(L & h & def & t' & HL & Hp & Hs & _ & _ & HC)]]; [by left|right]. exists L, h.
  split; [done|]. split; [done|]. split; [done|]. by exists def, t'.
Qed.

(** A decision that was ready and has landed gives an entry of the cache. *)
Lemma ready_landed w x ent expected evs seq :
  good w -> ~ tainted w -> ready w x ent expected evs -> landed w x expected seq evs ->
  live_known w x (set_LastSeq seq (en_State ent)) /\ s_ExecID (en_State ent) = x /\
  entry_ok w x {| en_State := set_LastSeq seq (en_State ent); en_Def := en_Def ent |}.
Proof.
  intros HG HT Hr (L & h & HL & Hp & Hs & Hprop).
  destruct (g_log _ HG x) as (d & L' & T & HL' & HC). rewrite <- (Log_fun _ _ _ _ HL HL') in HC. clear L' HL'.
  destruct Hr as [_ [Hi|(L1 & h1 & def & t' & HL1 & Hp1 & Hs1 & Hdef & Hst & HC1)]].
  { destruct HT. destruct Hp as [k Hk]. pose proof HL as HLl. unfold Log in HLl. rewrite Hk, <- app_assoc in HLl.
    apply Forall2_app_inv_r in HLl as (l1 & l2 & _ & Hl2 & Hl). inversion Hl2 as [|[q m] ? l3 ? [Hq Hd]]; subst.
    exists x, l1, q, m, l3, evs. split; [done|]. split; [done|]. by apply irregular_late. }
  rewrite (Log_fun _ _ _ _ HL1 HL) in *. assert (Hph : h `prefix_of` L) by (etrans; [|exact Hp]; by eexists).
  assert (h1 = h) as ->.
  { destruct (chronicle_prefix_of _ _ _ _ _ HC Hph) as (d2 & t2 & HC2 & _).
    destruct (chronicle_prefix_of _ _ _ _ _ HC Hp1) as (d3 & t3 & HC3 & _).
    destruct (prefix_weak_total _ _ _ Hp1 Hph); [|symmetry]; eapply prefix_same_seq; try done; congruence. }
  destruct (chronicle_prefix_of _ _ _ _ _ HC Hp) as (d2 & t2 & HC2 & _).
  pose proof HC2 as (d0 & t0 & def0 & _ & _ & _ & _ & Hq & _)%chronicle_snoc.
  pose proof (HC1 _ Hq) as HC3. assert (Has : as_of x L (set_LastSeq seq (en_State ent))).
  { exists (Some def), (h ++ [(seq, evs)]), t'. split; [done|]. split; [done|]. split; [|by rewrite last_seq_snoc].
    etrans; [apply set_LastSeq_sim|exact Hst]. }
  pose proof (an_def _ _ _ _ (chronicle_annals _ _ _ _ HC3)) as (_ & _ & HPl & Ext).
  assert (Ex : Exists (en_State ent) = true) by (unfold Exists in *; by rewrite (Events_sim _ _ Hst)).
  assert (Hk : known w x (set_LastSeq seq (en_State ent))) by (by exists L).
  split; [by split|]. split; [rewrite (ExecID_sim _ _ Hst); apply (an_exec _ _ _ _ (chronicle_annals _ _ _ _ HC3))|].
  left. cbn [en_State en_Def]. split; [done|]. rewrite Hdef. split; [done|].
  apply (placed_sim _ _ _ Hst) in HPl as [_ Hf]. by apply Hf.
Qed.

Lemma irregular_trace b tr evs : irregular b (set_Trace tr <$> evs) = irregular b evs.
Proof.
  assert (HX : existsb too_large (set_Trace tr <$> evs) = existsb too_large evs).
  { induction evs as [|ev evs IH]; [done|]. cbn. by rewrite IH. }
  destruct evs as [|ev evs]; [done|]. cbn [irregular fmap list_fmap]. change (ev_Data (set_Trace tr ev)) with (ev_Data ev).
  destruct (ev_Data ev); done.
Qed.

(** What a source of a fork is. *)
Definition source_fine (def : Flow) (src : option State) : Prop :=
  src = None \/ exists from hs ts sr, src = Some sr /\ Chronicle from (Some def) hs ts /\ sr ≃ ts /\ Exists sr = true.

Lemma source_fine_ok def src : source_fine def src -> source_ok def src.
Proof. intros [->|(from & hs & ts & sr & -> & HC & Hs & Ex)]; [done|]. by eapply source_known. Qed.

(** A decision made on a state of the chronicle, as stored, is ready. *)
Lemma decision_ready w x L h d t def s src evs s' tr :
  Log w x L -> h `prefix_of` L -> Chronicle x d h t -> h = [] \/ d = Some def -> registered def -> s ≃ t ->
  source_fine def src -> Decision src def s evs s' -> evs <> [] -> Forall (named x) evs ->
  ready w x {| en_State := s'; en_Def := Some def |} (last_seq h) (set_Trace tr <$> evs).
Proof.
  intros HL Hp HC Hd Hreg Hst Hsrc HD Hne Hn. pose proof (chronicle_annals _ _ _ _ HC) as HA.
  pose proof (annals_placed _ _ _ _ _ HA Hd) as HPt. pose proof (placed_sim _ _ _ Hst HPt) as HPs.
  pose proof (Decision_well _ _ _ _ _ Hreg (source_fine_ok _ _ Hsrc) HPs HD Hne) as HW.
  pose proof (fold_sim (Some def) evs (set_Trace tr <$> evs) s t Hst) as HF.
  specialize (HF ltac:(apply traced_same; by exists tr)). pose proof (gd_replay _ _ _ _ (dw_good _ _ _ _ HW)) as Hg.
  unfold replay in Hg. rewrite Hg in HF. apply rsim_ok in HF as (t' & Hrt & Hst').
  assert (HC' : forall q, last_seq h < q -> Chronicle x (Some def) (h ++ [(q, set_Trace tr <$> evs)]) t').
  { intros q Hq. assert (HAp : Appends x def h t evs q (set_Trace tr <$> evs) t').
    { split; [done|done|by exists tr| |done]. apply Forall_fmap. eapply Forall_impl; [exact Hn|]. done. }
    destruct Hsrc as [->|(from & hs & ts & sr & -> & HCs & Hss & Exs)]; [by eapply chron_next|by eapply chron_fork]. }
  split; [|right; exists L, h, def, t'; done].
  assert (Hq : last_seq h < last_seq h + 1) by lia.
  pose proof (HC' _ Hq) as (? & ? & ? & _ & _ & _ & _ & _ & HLk)%chronicle_snoc. apply (link_solid _ _ _ _ _ HLk).
Qed.

Lemma plain_named x evs : Forall plain_event evs -> Forall (named x) evs.
Proof. intros HF. eapply Forall_impl; [exact HF|]. intros ev (_ & _ & Hb) d src Hd. by rewrite Hd in Hb. Qed.

Lemma opening_named x s evs : Exists s = false -> shape s evs -> Forall (named x) evs.
Proof.
  intros Ex Hsh. destruct Hsh as [ev evs _ _ Ho HF|evs Ex' _|ev d Ex' _ _]; try congruence.
  constructor; [|by apply plain_named]. intros d src Hd. by rewrite Hd in Ho.
Qed.

(** ** Decisions made on what was loaded *)

Record opening_event (ev : FoldEvent) : Prop := {
  oe_base : base_event ev;
  oe_opens : opens (ev_Data ev) = true;
  oe_portable : portable (ev_Data ev) }.

(** The fork of a state that does not exist. *)
Definition orphan (evs : list FoldEvent) : Prop :=
  Forall unstored evs /\ irregular true evs = true /\ exists first rest, evs = first :: rest /\ opening_event first.

(** [evs] were decided on the state of [x] as of its decisions up to [expected],
    and lead to [ent]. *)
Definition made (w : World) (x : string) (ent : Entry) (expected : Z) (evs : list FoldEvent) : Prop :=
  (exists L h d t def s src, Log w x L /\ h `prefix_of` L /\ last_seq h = expected /\ Chronicle x d h t /\
     (h = [] \/ d = Some def) /\ registered def /\ s ≃ t /\ en_Def ent = Some def /\
     (Exists s = true /\ (exists c now, Decide def s c now = Ok (evs, en_State ent)) \/
      Exists s = false /\ source_fine def src /\ Opening src def s evs (en_State ent))) \/
  orphan evs.

Lemma made_grown w w' x ent expected evs :
  w ⊑ w' -> good w' -> made w x ent expected evs -> made w' x ent expected evs.
Proof.
  intros Hw HG [(L & h & d & t & def & s & src & HL & Hp & Hr)|Ho]; [left|by right].
  destruct (g_log _ HG x) as (d' & L' & t' & HL' & _). exists L', h, d, t, def, s, src. split; [done|]. split; [|done].
  etrans; [exact Hp|]. by eapply Log_grown.
Qed.

Lemma made_ready w x ent expected evs tr :
  made w x ent expected evs -> evs <> [] -> ready w x ent expected (set_Trace tr <$> evs).
Proof.
  intros Hm Hne. destruct Hm as [(L & h & d & t & def & s & src & HL & Hp & <- & HC & Hd & Hreg & Hst & Hdef & HD)|(Hu & Hi & _)].
  - destruct ent as [st' def']. simpl in *. subst def'. destruct HD as [(Ex & c & now & HD)|(Ex & Hsrc & HO)].
    + eapply (decision_ready w x L h d t def s None); try done; [by left|by apply dec_step; econstructor|].
      by eapply plain_named, Decide_plain.
    + eapply (decision_ready w x L h d t def s src); try done; [by apply dec_open|].
      eapply opening_named; [exact Ex|].
      pose proof (annals_placed _ _ _ _ _ (chronicle_annals _ _ _ _ HC) Hd) as HP. apply (placed_sim _ _ _ Hst) in HP.
      pose proof (Opening_well _ _ _ _ _ Hreg (source_fine_ok _ _ Hsrc) HP Ex HO Hne) as HW. apply HW.
  - split; [|left; by rewrite irregular_trace]. apply Forall_fmap. eapply Forall_impl; [exact Hu|].
    intros ev. apply unstored_trace.
Qed.

(** *** Entries *)

Lemma entry_new w x ent :
  good w -> entry_ok w x ent -> Exists (en_State ent) = false ->
  en_State ent ≃ NewState x /\ s_LastSeq (en_State ent) = 0 /\ en_Def ent = None.
Proof.
  intros HG [[(L & HL & d & h & t & Hp & HC & Hs & Hl) Hd]|[Ex _]] Ex'; [|congruence].
  apply chronicle_annals, an_def in HC. destruct d as [def|].
  - destruct HC as (_ & _ & _ & Ext). unfold Exists in *. rewrite (Events_sim _ _ Hs) in Ex'. congruence.
  - destruct HC as [-> ->]. split; [done|]. split; [done|]. destruct (en_Def ent); [|done]. destruct Hd. congruence.
Qed.

Lemma entry_live w x ent def :
  good w -> entry_ok w x ent -> Exists (en_State ent) = true -> Terminal (s_Status (en_State ent)) = false ->
  en_Def ent = Some def ->
  exists L h t, Log w x L /\ h `prefix_of` L /\ last_seq h = s_LastSeq (en_State ent) /\
    Chronicle x (Some def) h t /\ registered def /\ en_State ent ≃ t.
Proof.
  intros HG [[(L & HL & d & h & t & Hp & HC & Hs & Hl) Hd]|[_ Et]] Ex Ent Hdef; [|congruence].
  rewrite Hdef in Hd. destruct Hd as [_ Hf]. exists L, h, t. split; [done|]. split; [done|]. split; [done|].
  pose proof (an_def _ _ _ _ (chronicle_annals _ _ _ _ HC)) as HA. destruct d as [def'|].
  - destruct HA as (_ & Hreg & HP & Ext). apply proj2 in HP. specialize (HP Ext). rewrite (identity_sim _ _ Hs) in Hf.
    assert (def' = def) as -> by congruence. done.
  - destruct HA as [_ ->]. unfold Exists in Ex. by rewrite (Events_sim _ _ Hs) in Ex.
Qed.

Lemma loaded_entry w x r :
  good w -> loaded w x x 0 r -> entry_ok w x {| en_State := fst r; en_Def := snd r |}.
Proof.
  intros HG [Hl Hn]. left. cbn [en_State en_Def]. destruct (Exists (fst r)) eqn:Ex.
  - destruct (Hl eq_refl) as (Hk & def & -> & Hf). done.
  - destruct (Hn eq_refl) as [-> Hd]. rewrite (Hd eq_refl). split; [|done].
    destruct (g_log _ HG x) as (d & L & t & HL & _). exists L. split; [done|]. apply as_of_new.
Qed.

Lemma load_safe x w e :
  good w -> clean w x e ->
  safe (Some x) (fun r w1 e1 => match r with
    | Ok ent => entry_ok w1 x ent /\ evicted e e1 /\ forall ent', e1 = Some ent' -> ent' = ent
    | Err _ => e1 = None end) (load cfg x) w e.
Proof.
  intros HG Hc. unfold load. apply own_get. intros w1 e1 Hw HG1 HT1 He.
  pose proof (clean_grown _ _ _ _ _ Hw HG1 He Hc) as Hc1. destruct e1 as [ent|].
  - apply own_ret. intros w2 e2 Hw2 HG2 _ He2. split; [eapply entry_ok_grown; eauto|].
    split; [by etrans|]. destruct He2 as [->| ->]; [by intros ent' [= <-]|done].
  - eapply own_bind_plain; [by apply Load_safe|]. intros [[st def]|er] w2 e2 Hw2 HG2 _ He2 Hl.
    + apply own_ret. intros w3 e3 Hw3 HG3 _ He3. split; [by apply (loaded_entry w3 x (st, def)); [|eapply loaded_grown]|].
      split; [etrans; [exact He|by etrans]|]. by destruct He2 as [->| ->], He3 as [->| ->].
    + apply own_ret. intros w3 e3 Hw3 HG3 _ He3. by destruct He2 as [->| ->], He3 as [->| ->].
Qed.

(** *** Starts and forks *)

Lemma IsArchived_safe x w : plain_safe (fun _ _ => True) (IsArchived x) w.
Proof. apply (plain_any (fun _ _ => True)); [done|]. intros. by apply plain_ret. Qed.

Abbreviation decided_post x ent expected := (if_ok (fun p w =>
  (fst (fst p) = [] -> snd (fst p) = en_State ent) /\
  (fst (fst p) <> [] -> made w x {| en_State := snd (fst p); en_Def := snd p |} expected (fst (fst p))))).

Lemma Decide_nothing def s c now s' : Decide def s c now = Ok ([], s') -> s' = s.
Proof. intros [_ HD]%Decide_replays. by injection HD as <-. Qed.

(** An opening of a missing execution. *)
Lemma made_opening w x ent def src evs s' :
  good w -> entry_ok w x ent -> Exists (en_State ent) = false -> registered def -> source_fine def src ->
  Opening src def (en_State ent) evs s' ->
  made w x {| en_State := s'; en_Def := Some def |} (s_LastSeq (en_State ent)) evs.
Proof.
  intros HG He Ex Hreg Hsrc HO. destruct (entry_new _ _ _ HG He Ex) as (Hs & -> & _).
  destruct (g_log _ HG x) as (d & L & t & HL & _). left. exists L, [], None, (NewState x), def, (en_State ent), src.
  split; [done|]. split; [apply prefix_nil|]. split; [done|]. split; [constructor|]. split; [by left|]. split; [done|].
  split; [done|]. split; [done|]. by right.
Qed.

Lemma decideStart_safe x ent c now w :
  good w -> entry_ok w x ent ->
  plain_safe (decided_post x ent (s_LastSeq (en_State ent))) (decideStart (en_State ent) c now) w.
Proof.
  intros HG He. unfold decideStart. eapply (plain_fbind (fun _ _ => True)); [by apply plain_lift|]. intros p w1 Hw HG1 _ _.
  destruct (Exists (en_State ent)) eqn:Ex.
  { eapply (plain_fbind (fun _ _ => True)); [by apply plain_lift|]. intros ? w2 _ _ _ _. by apply plain_ok. }
  eapply (plain_fbind (fun _ _ => True)).
  { eapply safe_post; [|apply IsArchived_safe]. by intros [] ? ? _ _ _. }
  intros archived w2 Hw2 HG2 _ _. destruct archived.
  - eapply (plain_fbind (fun _ _ => True)).
    { eapply safe_post; [|apply LoadArchived_safe]. by intros [] ? ? _ _ _. }
    intros [old ?] w3 _ _ _ _. eapply (plain_fbind (fun _ _ => True)); [by apply plain_lift|].
    intros ? w4 _ _ _ _. by apply plain_ok.
  - eapply plain_fbind; [apply FlowsGet_safe|]. intros def w3 Hw3 HG3 _ [Hreg _].
    eapply (plain_fbind (fun r _ => Decide def (en_State ent) c now = Ok r)); [by apply plain_lift|].
    intros [evs st] w4 Hw4 HG4 _ HD. apply plain_ok. intros w5 Hw5 HG5 _. cbn [fst snd]. split.
    + intros ->. by eapply Decide_nothing.
    + intros Hne. eapply made_opening; try done; [|by left|by econstructor].
      eapply (entry_ok_grown w); [|done|done]. etrans; [exact Hw|]. etrans; [exact Hw2|]. etrans; [exact Hw3|]. by etrans.
Qed.

Lemma decode_ForkData_written j p : decode_ForkData j = Some p -> written (ForkData_Writes p).
Proof.
  unfold decode_ForkData. intros (kvs & _ & Hp)%bind_Some.
  repeat (apply bind_Some in Hp as (? & ? & Hp)). injection Hp as <-. cbn. by eapply raw_map_written.
Qed.

(** A fork of nothing. *)
Lemma fork_orphan def st src from seq cmdID writes now evs st' :
  Exists st = false -> s_Events st = 0 -> written writes -> Exists src = false ->
  DecideFork def st src from seq cmdID writes now = Ok (evs, st') -> orphan evs.
Proof.
  intros Ex H0 Hw Exs HD. destruct (Fork_good _ _ _ _ _ _ _ _ _ _ Ex H0 Hw HD) as [HG (rest & ->)].
  pose proof (gd_shape _ _ _ _ HG) as Hsh.
  inversion Hsh as [ev0 evs0 _ Hb Ho HF Heq|evs0 Ex' HF Heq|ev0 d0 Ex' _ Hd0 Heq]; subst; try congruence.
  split; [|split].
  - constructor; [apply Hb|]. eapply Forall_impl; [exact HF|]. by intros ev (? & _).
  - cbn [irregular emit_event ev_Data Forked_State]. rewrite orb_true_iff. right.
    unfold Exists in *. by rewrite (Events_sim _ _ (reload_sim src)), Exs.
  - eexists _, _. split; [reflexivity|]. by split.
Qed.

Lemma decideFork_safe x ent c now w :
  good w -> entry_ok w x ent ->
  plain_safe (decided_post x ent (s_LastSeq (en_State ent))) (decideFork cfg (en_State ent) c now) w.
Proof.
  intros HG He. unfold decideFork. destruct (Exists (en_State ent)) eqn:Ex; [by apply plain_ok|].
  eapply (plain_fbind (fun p _ => written (ForkData_Writes p))).
  { apply plain_lift. unfold invalid_payload, Payload. intros p w1 HP _ _ _.
    destruct (decode_ForkData _) eqn:ED; [|done]. injection HP as <-. by eapply decode_ForkData_written. }
  intros p w1 Hw HG1 _ Hwr. eapply plain_bind; [by apply Load_safe|]. intros r w2 Hw2 HG2 _ Hl.
  eapply (plain_bind (if_ok (fun r w => exists y z, loaded w y z (ForkData_Seq p) r))).
  { destruct r as [[src def]|e]; [|by apply plain_ret]. destruct (Exists src).
    - apply plain_ret. intros w3 Hw3 HG3 _. exists (ForkData_From p), (ForkData_From p). by eapply loaded_grown.
    - eapply safe_post; [|apply LoadArchived_safe]. intros [r|e] w3 e3 _ _ Hr; [|done]. destruct Hr as [y Hr]. by exists y, (ForkData_From p). }
  intros [[src def]|e] w3 Hw3 HG3 _ Hl3; [|destruct (errors_is _ _); apply plain_failed].
  destruct Hl3 as (y & z & Hl3 & Hn3). cbn [fst snd] in *.
  eapply (plain_fbind (fun d _ => def = Some d)).
  { apply plain_lift. intros d w4 Hd _ _ _. destruct def; [|done]. by injection Hd as ->. }
  intros d w4 Hw4 HG4 _ ->.
  eapply (plain_fbind (fun r _ => DecideFork d (en_State ent) src (ForkData_From p) (ForkData_Seq p) (c_ID c) (ForkData_Writes p) now = Ok r)).
  { by apply plain_lift. }
  intros [evs st] w5 Hw5 HG5 _ HD. apply plain_ok. intros w6 Hw6 HG6 _. cbn [fst snd].
  assert (He6 : entry_ok w6 x ent).
  { eapply (entry_ok_grown w); [|done|done]. do 5 (etrans; [eassumption|]). done. }
  split; [intros ->; apply DecideFork_replays in HD as [_ HD]; by injection HD as <-|]. intros Hne.
  assert (H0 : s_Events (en_State ent) = 0).
  { destruct (entry_new _ _ _ HG6 He6 Ex) as (Hs & _). by rewrite (Events_sim _ _ Hs). }
  destruct (Exists src) eqn:Exs.
  - destruct (Hl3 eq_refl) as ((Ly & HLy & Has) & d' & [= <-] & Hf).
    destruct (g_log _ HG3 y) as (dy & Ly' & ty & HLy' & HCy). rewrite <- (Log_fun _ _ _ _ HLy HLy') in HCy.
    destruct (as_of_live _ _ _ _ _ HCy Has Exs) as (def' & -> & Hreg & _ & Hf').
    assert (def' = d) as -> by congruence. destruct Has as (d1 & hs & ts & Hps & HCs & Hss & _).
    eapply made_opening; try done; [|by econstructor]. right. exists y, hs, ts, src. split; [done|]. split; [|done].
    destruct (chronicle_prefix_of _ _ _ _ _ HCy Hps) as (d2 & t2 & HC2 & Hd2).
    destruct (chronicle_fun _ _ _ _ _ _ HCs HC2) as [-> ->]. destruct Hd2 as [->|<-]; [|done].
    apply chronicle_annals, an_def in HC2. destruct d2; [by destruct HC2|]. destruct HC2 as [_ ->].
    unfold Exists in Exs. by rewrite (Events_sim _ _ Hss) in Exs.
  - right. eapply fork_orphan; [exact Ex|exact H0|exact Hwr|exact Exs|exact HD].
Qed.

Lemma decideOther_made w x ent c now evs st def :
  good w -> entry_ok w x ent -> c_Type c <> CStart -> decideOther ent c now = Ok (evs, st, def) ->
  (evs = [] -> st = en_State ent) /\
  (evs <> [] -> made w x {| en_State := st; en_Def := def |} (s_LastSeq (en_State ent)) evs).
Proof.
  intros HG He Hc. unfold decideOther. destruct (en_Def ent) as [d|] eqn:Ed; [|by destruct (Exists _)].
  intros ([evs0 st0] & HD & [= <- <- <-])%res_bind_ok. split; [intros ->; by eapply Decide_nothing|]. intros Hne.
  destruct (Decide_live _ _ _ _ _ _ HD Hc) as [[? _]|(Ex & Et & _)]; [done|].
  destruct (entry_live _ _ _ _ HG He Ex Et Ed) as (L & h & t & HL & Hp & Hl & HC & Hreg & Hs).
  left. exists L, h, (Some d), t, d, (en_State ent), None. rewrite Hl. split; [done|]. split; [done|]. split; [done|].
  split; [done|]. split; [by right|]. split; [done|]. split; [done|]. split; [done|]. left. eauto.
Qed.

Lemma decide_safe c w e :
  good w -> clean w (c_ExecID c) e ->
  safe (Some (c_ExecID c)) (fun r w1 e1 => match r with
    | Ok (ent, expected, evs) => (evs = [] -> clean w1 (c_ExecID c) e1) /\
                                 (evs <> [] -> made w1 (c_ExecID c) ent expected evs)
    | Err _ => True end) (Engine.decide cfg c) w e.
Proof.
  intros HG Hc. unfold Engine.decide. set (x := c_ExecID c) in *. unfold fbind at 1.
  eapply own_bind; [by apply load_safe|]. intros [ent|er] w1 e1 Hw HG1 HT1 Hr; [|by apply own_ret].
  destruct Hr as (He & _ & Hent). eapply (own_bind_plain _ (fun _ _ => True)); [by apply plain_call|].
  intros now w2 e2 Hw2 HG2 HT2 He2 _. pose proof (entry_ok_grown _ _ _ _ Hw2 HG2 He) as Hok. unfold fbind at 1.
  eapply (own_bind_plain _ (decided_post x ent (s_LastSeq (en_State ent)))).
  { destruct (c_Type c) eqn:Ec; try (apply plain_lift; intros [[evs st] def] w3 HD Hw3 HG3 _; cbn [fst snd];
      eapply decideOther_made; [done|by eapply entry_ok_grown|by rewrite Ec|exact HD]).
    - by apply decideStart_safe.
    - by apply decideFork_safe. }
  intros [[[evs st] def]|er] w3 e3 Hw3 HG3 HT3 He3 Hd; [|by apply own_ret]. cbn [if_ok fst snd] in Hd. destruct Hd as [Hnil Hmade].
  apply own_decided. intros w4 e4 Hw4 HG4 HT4 He4. apply own_ret. intros w5 e5 Hw5 HG5 HT5 He5. split.
  - intros Hev. rewrite (Hnil Hev) in He5.
    assert (Hev1 : evicted e1 e4) by (etrans; [exact He2|by etrans]).
    assert (Hcl : clean w5 x e4).
    { intros ent' ->. destruct Hev1 as [<-|?]; [|done]. rewrite (Hent _ eq_refl). eapply (entry_ok_grown w2); [|done|done].
      etrans; [exact Hw3|]. by etrans. }
    destruct He5 as [->| ->]; [|done]. intros ent'. destruct e4 as [ent4|]; [|done]. intros [= <-].
    destruct Hev1 as [<-|?]; [|done]. rewrite (Hent _ eq_refl) in *. specialize (Hcl _ eq_refl). by destruct ent.
  - intros Hne. eapply (made_grown w3); [by etrans|done|by apply Hmade].
Qed.
End SafeDecide.
