(* ===== verification/SafeEngine.v ===== *)
(** * The engine is safe

    [apply], [Archive], [Delete] and [handle] make only allowed calls, and leave
    in the cache only states of the chronicle. *)

From S2P Require Import Prelude Json Hash Names Expr Flow FlowValidate FlowValid FlowGraph Event Cmd Reduce.
From S2P Require Import State StateFacts View Decide DecideRun DecideOps Sim Codec DecideProps LogProps.
From S2P Require Import Flight Shape ShapeCmds Server EventLog Loader Engine Chronicle LogFold Reading World Safe.
From S2P Require Import SafeLog SafeDecide Wire Projection Sending Deliveries.

Section SafeEngine.
Context `{HR : Registry}.
Context (cfg : Config).

Abbreviation plain_safe Q p w := (safe None (fun a w (_ : option Entry) => Q a w) p w None).

(** ** Decisions too large *)

(** What replaces a decision: nothing, on a final state, or a decision that is
    ready. *)
Definition fitted (w : World) (x : string) (ent : Entry) (expected : Z) (evs : list FoldEvent) : Prop :=
  evs = [] /\ Exists (en_State ent) = true /\ Terminal (s_Status (en_State ent)) = true \/
  evs <> [] /\ forall tr, ready w x ent expected (set_Trace tr <$> evs).

Lemma fitted_grown w w' x ent expected evs :
  w ⊑ w' -> good w' -> fitted w x ent expected evs -> fitted w' x ent expected evs.
Proof. intros Hw HG [?|[Hne Hr]]; [by left|right]. split; [done|]. intros tr. by eapply ready_grown. Qed.

Lemma ready_irregular w x ent expected evs tr :
  Forall unstored evs -> irregular true evs = true -> ready w x ent expected (set_Trace tr <$> evs).
Proof.
  intros Hu Hi. split; [|left; by rewrite irregular_trace]. apply Forall_fmap. eapply Forall_impl; [exact Hu|].
  intros ev. apply unstored_trace.
Qed.

Lemma abort_live w x expected def st cmdID msg now out st' :
  Exists st = true -> Abort def st None cmdID ReasonDecisionTooLarge msg now = Ok (out, st') ->
  fitted w x {| en_State := st'; en_Def := Some def |} expected out.
Proof.
  intros Ex HA. destruct (Abort_failed _ _ _ _ _ _ _ _ Ex HA) as [(-> & -> & Et)|(HF & ev & d & -> & Hd & Hr)]; [by left|].
  right. split; [done|]. intros tr. apply ready_irregular; [by apply plain_parts|].
  cbn [irregular existsb]. unfold too_large. by rewrite Hd, Hr.
Qed.

(** The first event of an opening, then the failure. *)
Lemma abort_opening w x ent2 expected evs first rest def cmdID msg now out st' ent :
  good w -> made w x ent expected evs -> evs = first :: rest -> base_data (ev_Data first) = true ->
  entry_ok w x ent2 -> Exists (en_State ent2) = false -> (forall def' y, base_ok def' y first -> def = def') ->
  Abort def (en_State ent2) (Some first) cmdID ReasonDecisionTooLarge msg now = Ok (out, st') ->
  fitted w x {| en_State := st'; en_Def := Some def |} expected out.
Proof.
  intros HG Hm -> Hbd He Ex Hdef HA. destruct (entry_new _ _ _ HG He Ex) as (Hs2 & _ & _).
  assert (H02 : s_Events (en_State ent2) = 0) by (by rewrite (Events_sim _ _ Hs2)).
  destruct (Abort_first_head _ _ _ _ _ _ _ _ _ Ex HA) as [out' Hout]. right. split; [by rewrite Hout|]. intros tr.
  destruct Hm as [(L & h & d & t & def0 & s & src & HL & Hp & <- & HC & Hd & Hreg & Hst & _ & HD)|(Hu & Hi & f & r & [= <- <-] & [Hbe Hop Hpo])].
  - destruct HD as [(Exs & c & now0 & HD)|(Exs & Hsrc & HO)].
    { apply Decide_plain in HD as (_ & _ & HB)%plain_parts; [|done]. apply Forall_cons in HB as [HB _]. congruence. }
    pose proof (annals_placed _ _ _ _ _ (chronicle_annals _ _ _ _ HC) Hd) as HPt.
    pose proof (placed_sim _ _ _ Hst HPt) as HPs. pose proof (placed_events _ _ HPs Exs) as H0s.
    destruct (Opening_head _ _ _ _ _ _ Hreg (source_fine_ok _ _ Hsrc) Exs H0s HO) as (_ & _ & _ & Hb).
    assert (def = def0) as -> by (by eapply Hdef).
    assert (h = [] /\ t = NewState x) as [-> ->].
    { pose proof (an_def _ _ _ _ (chronicle_annals _ _ _ _ HC)) as HA'. destruct d as [df|]; [|done].
      destruct HA' as (_ & _ & _ & Ext). unfold Exists in *. rewrite (Events_sim _ _ Hst) in Exs. congruence. }
    assert (HD : Decision src def0 (en_State ent2) out st').
    { eapply (dec_abort src def0 (en_State ent2) s); [|done|exact HO|exact HA]. rewrite Hst. by symmetry. }
    eapply (decision_ready w x L [] d (NewState x) def0 (en_State ent2) src); try done; [by rewrite Hout|].
    eapply opening_named; [exact Ex|]. pose proof (placed_sim _ _ _ Hs2 HPt) as HP2.
    assert (HW : decided_well def0 (en_State ent2) out st').
    { eapply Decision_well; [done|by apply source_fine_ok|done|exact HD|by rewrite Hout]. }
    apply HW.
  - pose proof (Abort_first_good _ _ _ _ _ _ _ _ _ Ex H02 Hbe Hop Hpo HA) as HGd. apply ready_irregular.
    + pose proof (gd_shape _ _ _ _ HGd) as Hsh.
      destruct Hsh as [ev0 evs0 _ [Hu0 _] _ HF|evs0 Ex' _|ev0 d0 Ex' _ _]; try congruence.
      constructor; [done|]. by apply plain_parts.
    + rewrite Hout. cbn [irregular emit_event ev_Data] in *. by destruct (ev_Data first).
Qed.

Lemma DefOf_plain ev : base_data (ev_Data ev) = false -> exists e, DefOf ev = failed e.
Proof. unfold DefOf. destruct (ev_Data ev); try done; eauto. Qed.

Lemma abortTooLarge_safe c evs ent expected w e :
  good w -> made w (c_ExecID c) ent expected evs ->
  safe (Some (c_ExecID c)) (fun r w1 e1 => e1 = None /\ match r with
    | Ok (ent', out) => fitted w1 (c_ExecID c) ent' expected out
    | Err _ => True end) (abortTooLarge cfg c evs) w e.
Proof.
  intros HG Hm. unfold abortTooLarge. set (x := c_ExecID c) in *. apply own_drop. intros w1 Hw1 HG1 HT1. unfold fbind at 1.
  eapply own_bind; [apply load_safe; [done|apply clean_none]|]. intros [ent2|er] w2 e2 Hw2 HG2 HT2 Hr; cycle 1.
  { apply own_ret. intros w3 e3 _ _ _ He3. subst e2. split; [|done]. by destruct He3. }
  destruct Hr as (He & Hev & _). assert (e2 = None) as -> by (by destruct Hev). clear Hev.
  assert (Hm2 : made w2 x ent expected evs) by (eapply (made_grown w); [by etrans|done|done]). unfold fbind at 1.
  eapply (own_bind_plain _ (if_ok (fun def w => (Exists (en_State ent2) = true \/
    exists first rest, evs = first :: rest /\ base_data (ev_Data first) = true /\ forall def' y, base_ok def' y first -> def = def')))).
  { destruct (Exists (en_State ent2)) eqn:Ex.
    - destruct (en_Def ent2); [apply plain_ok; by left|apply plain_failed].
    - destruct (entry_new _ _ _ HG2 He Ex) as (_ & _ & ->). destruct evs as [|first rest]; [apply plain_failed|]. cbn [head].
      destruct (base_data (ev_Data first)) eqn:Eb; [|destruct (DefOf_plain _ Eb) as [er ->]; apply plain_failed].
      eapply safe_post; [|apply DefOf_safe]. intros [def|er] w3 e3 _ _ Hd; [|done]. right. exists first, rest. destruct Hd. eauto. }
  intros [def|er] w3 e3 Hw3 HG3 HT3 He3 Hd; cycle 1.
  { apply own_ret. intros w4 e4 _ _ _ He4. split; [|done]. by destruct He3 as [->| ->], He4 as [->| ->]. }
  eapply (own_bind_plain _ (fun _ _ => True)); [by apply plain_call|]. intros now w4 e4 Hw4 HG4 HT4 He4 _. unfold fbind at 1.
  eapply (own_bind_plain _ (if_ok (fun p w => fitted w x {| en_State := snd p; en_Def := Some def |} expected (fst p)))).
  { apply plain_lift. intros [out st'] w5 HA Hw5 HG5 _. cbn [fst snd].
    assert (Hw25 : w2 ⊑ w5) by (etrans; [exact Hw3|by etrans]). destruct (Exists (en_State ent2)) eqn:Ex.
    - by eapply abort_live.
    - destruct Hd as [?|(first & rest & -> & Hb & Hdef)]; [done|]. cbn [head] in HA.
      eapply abort_opening; [done|by eapply made_grown|done|done|by eapply entry_ok_grown|done|done|exact HA]. }
  intros [[out st']|er] w5 e5 Hw5 HG5 HT5 He5 Hf; apply own_ret; intros w6 e6 Hw6 HG6 _ He6;
    (split; [by destruct He3 as [->| ->], He4 as [->| ->], He5 as [->| ->], He6 as [->| ->]|]); [|done].
  by eapply fitted_grown.
Qed.

Lemma fitDecision_safe c ent expected evs trace w e :
  good w -> made w (c_ExecID c) ent expected evs -> evs <> [] ->
  safe (Some (c_ExecID c)) (fun r w1 e1 => match r with
    | Ok (ent', out) =>
        (out = [] /\ Exists (en_State ent') = true /\ Terminal (s_Status (en_State ent')) = true) \/
        (out <> [] /\ ready w1 (c_ExecID c) ent' expected out)
    | Err _ => e1 = None end) (fitDecision cfg c ent evs trace) w e.
Proof.
  intros HG Hm Hne. unfold fitDecision, fbind at 1.
  eapply (own_bind _ (fun r w1 e1 => match r with
    | Ok (ent', out) => fitted w1 (c_ExecID c) ent' expected out | Err _ => e1 = None end)).
  { destruct (_ <? _).
    - eapply safe_post; [|by eapply abortTooLarge_safe]. intros [[ent' out]|er] w1 e1 _ _ [? ?]; done.
    - apply own_ret. intros w1 e1 Hw HG1 _ _. right. split; [done|]. intros tr. eapply ready_grown; [done|done|]. by apply made_ready. }
  intros [[ent' out]|er] w1 e1 Hw HG1 _ Hr; apply own_ret; intros w2 e2 Hw2 HG2 _ He2.
  - eapply fitted_grown in Hr as [(-> & Hx)|[Hno Hr]]; [by left| |done|done]. right. split; [by destruct out|done].
  - subst e1. by destruct He2.
Qed.

(** ** Continuations *)

Lemma Continue_untraced def st seg cmdID now evs st' :
  Continue def st seg cmdID now = Ok (evs, st') -> set_Trace "" <$> evs = evs.
Proof.
  unfold Continue. destruct (_ || _); [by intros [= <- _]|].
  intros (b & _ & (c & _ & (b2 & _ & (d & (st1 & _ & ->)%emit_inv & <- & _)%decided_inv)%res_bind_ok)%res_bind_ok)%res_bind_ok.
  done.
Qed.

Lemma Continue_named x def st seg cmdID now evs st' :
  segs_named x st -> (exists n, Segment_Object seg = SegmentObject x n) ->
  Continue def st seg cmdID now = Ok (evs, st') -> Forall (named x) evs.
Proof.
  intros Hn Hs. unfold Continue, MarshalState. destruct (_ || _); [intros [= <- _]; constructor|].
  destruct (bool_decide _); [|done]. cbn [res_bind Unmarshal]. destruct (bool_decide _); [|done]. cbn [res_bind].
  intros (d & (st1 & _ & ->)%emit_inv & <- & _)%decided_inv. constructor; [|constructor].
  intros d0 src [= <-] [= <-]. unfold segs_named in *. change (s_Segments _) with (s_Segments st ++ [seg]).
  apply Forall_app. split; [done|]. constructor; [done|constructor].
Qed.

(** The continuation of a state of the chronicle is its next decision. *)
Lemma continuation_ready w x L h def t st seg cmdID now next out next' :
  Log w x L -> h `prefix_of` L -> Chronicle x (Some def) h t -> registered def -> st ≃ t ->
  (exists n, Segment_Object seg = SegmentObject x n) -> Clone st = Ok next ->
  Continue def next seg cmdID now = Ok (out, next') -> out <> [] ->
  ready w x {| en_State := next'; en_Def := Some def |} (last_seq h) out.
Proof.
  intros HL Hp HC Hreg Hst Hseg Hcl HD Hne.
  assert (Hnx : next ≃ t).
  { revert Hcl. unfold Clone, MarshalState. destruct (bool_decide _); [|done]. cbn. intros [= <-].
    etrans; [apply reload_sim|exact Hst]. }
  rewrite <- (Continue_untraced _ _ _ _ _ _ _ HD).
  eapply (decision_ready w x L h (Some def) t def next None); try done; [by right|by left|by apply dec_step; econstructor|].
  eapply Continue_named; [|exact Hseg|exact HD]. pose proof (chronicle_segs _ _ _ _ HC) as HS. unfold segs_named in *.
  by rewrite (Segments_sim _ _ Hnx).
Qed.

Lemma read_from_base w x st evs :
  good w -> known w x st -> read_from w x evs ->
  read_from w x (List.filter (fun ev => s_Base st <=? ev_Index ev) evs).
Proof.
  intros HG (L & HL & Has) (L1 & HL1 & HW). rewrite <- (Log_fun _ _ _ _ HL HL1) in HW.
  destruct (g_log _ HG x) as (d & L2 & T & HL2 & HC). rewrite <- (Log_fun _ _ _ _ HL HL2) in HC.
  exists L. split; [done|]. by eapply whole_from_base.
Qed.

Abbreviation keeps_clean x p w e := (safe (Some x%string) (fun _ w1 e1 => clean w1 x%string e1) p w e).

Lemma keepContinued_safe x def next seq w e :
  good w -> s_ExecID next = x -> live_known w x next -> entry_ok w x {| en_State := next; en_Def := def |} ->
  keeps_clean x (keepContinued cfg x def next seq) w e.
Proof.
  intros HG Hid Hlive Hent. unfold keepContinued.
  apply own_put; [intros w1 Hw1 HG1; by eapply entry_ok_grown|]. intros w1 Hw1 HG1 _.
  eapply (clean_bind x (fun _ _ => True)).
  { intros ent' [= <-]. by eapply entry_ok_grown. }
  { apply (SaveSnapshot_safe cfg x); [done|exact Hid|by eapply live_known_grown]. }
  intros ? w2 e2 Hw2 HG2 _ Hc2 _. eapply (clean_try x (fun _ _ => True)); [done| |].
  { apply plain_any; [done|]. intros. by apply plain_lift. }
  intros floor w3 e3 Hw3 HG3 _ Hc3 _. destruct (_ =? _); [by apply clean_ret|]. apply clean_plain; [done|]. by apply plain_call.
Qed.

Lemma appendContinued_safe x ent seg w e :
  good w -> ValidToken x = true -> clean w x e -> entry_ok w x ent -> Terminal (s_Status (en_State ent)) = false ->
  (exists n, Segment_Object seg = SegmentObject x n) -> keeps_clean x (appendContinued cfg x ent seg) w e.
Proof.
  intros HG Hx Hc He Et Hseg. unfold appendContinued.
  eapply (clean_try x (fun next _ => Clone (en_State ent) = Ok next)); [done|by apply plain_lift|].
  intros next w1 e1 Hw1 HG1 _ Hc1 Hcl. eapply (clean_bind x (fun _ _ => True)); [done|by apply plain_call|].
  intros now w2 e2 Hw2 HG2 _ Hc2 _. eapply (clean_try x (fun def _ => en_Def ent = Some def)); [done| |].
  { apply plain_lift. intros def w3 Hd _ _ _. destruct (en_Def ent); [|done]. by injection Hd as ->. }
  intros def w3 e3 Hw3 HG3 _ Hc3 Hdef.
  eapply (clean_try x (fun r w => fst r <> [] ->
    ready w x {| en_State := snd r; en_Def := Some def |} (s_LastSeq (en_State ent)) (fst r))); [done| |].
  { apply plain_lift. intros [out next'] w4 HD Hw4 HG4 _ Hne. cbn [fst snd] in *.
    assert (He4 : entry_ok w4 x ent) by (eapply (entry_ok_grown w); [|done|done]; do 3 (etrans; [eassumption|]); done).
    assert (Ex : Exists (en_State ent) = true).
    { destruct He4 as [[_ Hd]|[? _]]; [rewrite Hdef in Hd; apply Hd|done]. }
    destruct (entry_live _ _ _ _ HG4 He4 Ex Et Hdef) as (L & h & t & HL & Hp & <- & HC & Hreg & Hs).
    by eapply continuation_ready. }
  intros [out next'] w4 e4 Hw4 HG4 _ Hc4 Hrd. cbn [fst snd] in Hrd.
  case_bool_decide as Eo; [by apply clean_ret|]. specialize (Hrd Eo).
  eapply clean_bind; [done|apply Append_safe; [done|apply Hrd|intros _; by eapply ready_appendable]|].
  intros [seq|er] w5 e5 Hw5 HG5 HT5 Hc5 Hl; cycle 1.
  { destruct (errors_is _ _); [|by apply clean_ret]. apply own_drop. intros w6 _ _ _. apply clean_ret, clean_none. }
  destruct Hl as [[? _]|Hl]; [done|]. pose proof (ready_grown _ _ _ _ _ _ Hw5 HG5 Hrd) as Hrd5.
  destruct (ready_landed _ _ _ _ _ _ HG5 HT5 Hrd5 Hl) as (Hlive & Hid & Hent). cbn [en_State en_Def] in *.
  rewrite Hdef. by apply keepContinued_safe.
Qed.

Lemma continueAsNew_safe x ent w e :
  good w -> ValidToken x = true -> clean w x e -> entry_ok w x ent -> keeps_clean x (continueAsNew cfg x ent) w e.
Proof.
  intros HG Hx Hc He. unfold continueAsNew. destruct (Terminal (s_Status (en_State ent))) eqn:Et; [by apply clean_ret|].
  assert (Hk : known w x (en_State ent)).
  { destruct He as [[Hk _]|[_ Et']]; [done|congruence]. }
  eapply clean_try; [done|by apply Read_safe|]. intros evs w1 e1 Hw1 HG1 _ Hc1 Hr.
  pose proof (read_from_base _ _ _ _ HG1 (known_grown _ _ _ _ Hw1 HG1 Hk) Hr) as Hr'.
  destruct (List.filter _ evs) as [|first rest]; [by apply clean_ret|].
  eapply (clean_try x (fun _ _ => True)); [done| |].
  { eapply safe_post; [|apply (putArchive_safe x); [done|done|right; by eexists|done]]. by intros [] ? ? _ _ _. }
  intros ? w2 e2 Hw2 HG2 _ Hc2 _. apply appendContinued_safe; try done; [|by eexists].
  eapply (entry_ok_grown w); [by etrans|done|done].
Qed.

(** ** Commands *)

Lemma afterAppend_safe x ent before w e :
  good w -> ValidToken x = true -> clean w x e -> entry_ok w x ent ->
  (Due cfg before (s_Events (en_State ent)) = true -> s_ExecID (en_State ent) = x /\ live_known w x (en_State ent)) ->
  keeps_clean x (afterAppend cfg x ent before) w e.
Proof.
  intros HG Hx Hc He Hd. unfold afterAppend. eapply (clean_bind x (fun _ _ => True)); [done| |].
  { destruct (Due _ _ _); [|by apply plain_ret]. destruct (Hd eq_refl). by apply (SaveSnapshot_safe cfg x). }
  intros ? w1 e1 Hw1 HG1 _ Hc1 _. eapply (own_bind _ (fun _ w e => clean w x e)).
  - destruct (_ && _); [|by apply clean_ret]. apply continueAsNew_safe; [done|done|done|]. by eapply entry_ok_grown.
  - intros ? w2 e2 _ _ _ Hc2. by apply clean_ret.
Qed.

Lemma Due_same n : Due cfg n n = false.
Proof. unfold Due. rewrite Z.ltb_irrefl. apply andb_false_r. Qed.

(** One round, from the decision to what follows its append. *)
Lemma append_round_safe c n trace ent expected evs w e :
  (forall w e, good w -> clean w (c_ExecID c) e -> keeps_clean (c_ExecID c) (apply_rounds cfg n c trace) w e) ->
  good w -> ValidToken (c_ExecID c) = true ->
  (evs = [] /\ Exists (en_State ent) = true /\ Terminal (s_Status (en_State ent)) = true) \/
  (evs <> [] /\ ready w (c_ExecID c) ent expected evs) ->
  keeps_clean (c_ExecID c)
    (let before := s_Events (en_State ent) - len evs in
     let! a := Append cfg (c_ExecID c) expected evs in
     match a with
     | Err e =>
         let! _ := call (CacheDrop (c_ExecID c)) in
         if errors_is e ErrAppendConflict then apply_rounds cfg n c trace else failed e
     | Ok last =>
         let ent := {| en_State := set_LastSeq last (en_State ent); en_Def := en_Def ent |} in
         let! _ := call (CachePut (c_ExecID c) ent) in
         let! _ := afterAppend cfg (c_ExecID c) ent before in
         ok (last, true)
     end) w e.
Proof.
  intros IH HG Hx Hev. cbv zeta. set (x := c_ExecID c) in *.
  eapply own_bind_plain; [apply Append_safe; [done| |]|].
  { destruct Hev as [(-> & _)|[_ Hr]]; [constructor|apply Hr]. }
  { intros Hne. destruct Hev as [(? & _)|[_ Hr]]; [done|]. by eapply ready_appendable. }
  intros [last|er] w1 e1 Hw1 HG1 HT1 _ Hl; cycle 1.
  { apply own_drop. intros w2 Hw2 HG2 HT2. destruct (errors_is _ _); [apply IH; [done|]|apply clean_ret]; apply clean_none. }
  set (ent' := {| en_State := set_LastSeq last (en_State ent); en_Def := en_Def ent |}).
  assert (entry_ok w1 x ent' /\ (Due cfg (s_Events (en_State ent) - len evs) (s_Events (en_State ent')) = true ->
    s_ExecID (en_State ent') = x /\ live_known w1 x (en_State ent'))) as [Hent Hdue].
  { destruct Hev as [(-> & Ex & Et)|[Hne Hr]].
    - split; [by right|]. change (s_Events (en_State ent')) with (s_Events (en_State ent)).
      replace (s_Events (en_State ent) - len []) with (s_Events (en_State ent)) by (unfold len; simpl; lia). by rewrite Due_same.
    - destruct Hl as [[? _]|Hl]; [done|]. apply (ready_grown _ _ _ _ _ _ Hw1 HG1) in Hr.
      destruct (ready_landed _ _ _ _ _ _ HG1 HT1 Hr Hl) as (Hlive & Hid & Hent). done. }
  apply own_put; [intros w2 Hw2 HG2; by eapply entry_ok_grown|]. intros w2 Hw2 HG2 HT2.
  pose proof (entry_ok_grown _ _ _ _ Hw2 HG2 Hent) as Hent2.
  eapply (own_bind _ (fun _ w e => clean w x e)).
  - apply afterAppend_safe; [done|done|by intros ? [= <-]|done|]. intros Hd. destruct (Hdue Hd). split; [done|].
    by eapply live_known_grown.
  - intros ? w3 e3 _ _ _ Hc3. by apply clean_ret.
Qed.

Lemma apply_rounds_safe n c trace w e :
  ValidToken (c_ExecID c) = true -> good w -> clean w (c_ExecID c) e ->
  keeps_clean (c_ExecID c) (apply_rounds cfg n c trace) w e.
Proof.
  intros Hx. revert w e. induction n as [|n IH]; intros w e HG Hc; cbn [apply_rounds]; [by apply clean_ret|].
  eapply own_bind; [by apply decide_safe|]. intros [[[ent expected] evs]|er] w1 e1 Hw1 HG1 HT1 Hr; cycle 1.
  { apply own_drop. intros w2 _ _ _. apply clean_ret, clean_none. }
  destruct Hr as [Hnil Hmade]. case_bool_decide as Ee; [by apply clean_ret, Hnil|].
  eapply own_bind; [apply fitDecision_safe; [done|by apply Hmade|done]|].
  intros [[ent' out]|er] w2 e2 Hw2 HG2 HT2 Hf; [by apply append_round_safe|]. subst e2. apply clean_ret, clean_none.
Qed.

Lemma apply_safe c trace w e :
  ValidToken (c_ExecID c) = true -> good w -> clean w (c_ExecID c) e ->
  keeps_clean (c_ExecID c) (Engine.apply cfg c trace) w e.
Proof. apply apply_rounds_safe. Qed.

(** ** Archival and deletion *)

(** Any call that stores nothing. *)
Lemma plain_true (c : Call) w : (forall w1, allowed None c w1) -> plain_safe (fun _ _ => True) (call c) w.
Proof. intros Hc. by apply plain_call. Qed.

Lemma plain_seq {A B} (p : Prog A) (k : A -> Prog B) w :
  plain_safe (fun _ _ => True) p w ->
  (forall a w1, w ⊑ w1 -> good w1 -> plain_safe (fun _ _ => True) (k a) w1) -> plain_safe (fun _ _ => True) (pbind p k) w.
Proof. intros Hp Hk. eapply plain_bind; [exact Hp|]. intros a w1 Hw HG _ _. by apply Hk. Qed.

Lemma plain_fseq {A B} (p : Prog (result A)) (k : A -> Prog (result B)) w :
  plain_safe (fun _ _ => True) p w ->
  (forall a w1, w ⊑ w1 -> good w1 -> plain_safe (fun _ _ => True) (k a) w1) -> plain_safe (fun _ _ => True) (fbind p k) w.
Proof. intros Hp Hk. apply plain_seq; [done|]. intros [a|er] w1 Hw HG; [by apply Hk|by apply plain_ret]. Qed.

Lemma plain_weaken {A} (Q : A -> World -> Prop) p w : plain_safe Q p w -> plain_safe (fun _ _ => True) p w.
Proof. intros HP. by eapply safe_post; [|exact HP]. Qed.

(** Programs whose calls store nothing that is read back into a state. *)
Definition harmless (c : Call) : bool :=
  match c with
  | EvPublish _ _ _ | EvPurge _ _ | BlobPut _ _ | SnapBlobPut _ _ | SnapPut _ _ | ArchPut _ _ | ArchErase _
  | CacheGet _ | CacheDecided _ _ | CachePut _ _ => false
  | _ => true
  end.

Lemma harmless_safe {A} (p : Prog A) w : only harmless p -> plain_safe (fun _ _ => True) p w.
Proof.
  revert w. induction p as [a|c k IH]; intros w Hp; [done|]. destruct Hp as [Hc Hk].
  change (plain_safe (fun _ _ => True) (pbind (call c) k) w). apply plain_any.
  - intros w1. by destruct c.
  - intros a w1 _ _ _. by apply IH.
Qed.

Lemma ScheduleCmd_safe x timer at_ c w : plain_safe (fun _ _ => True) (ScheduleCmd x timer at_ c) w.
Proof. apply harmless_safe. unfold ScheduleCmd. silent. Qed.

Lemma MarkArchived_safe x w : plain_safe (fun _ _ => True) (MarkArchived x) w.
Proof. apply harmless_safe. unfold MarkArchived. silent. Qed.

Lemma DeleteIndex_safe x w : plain_safe (fun _ _ => True) (DeleteIndex x) w.
Proof.
  apply harmless_safe. unfold DeleteIndex. apply only_fbind; [silent|intros e]. apply only_fbind; [silent|intros ms].
  apply for_each_only. intros. silent.
Qed.

Lemma scheduleArchiveExpiry_safe x def w : plain_safe (fun _ _ => True) (scheduleArchiveExpiry x def) w.
Proof. apply harmless_safe. unfold scheduleArchiveExpiry, ScheduleCmd. silent. Qed.

Lemma Archive_safe x w : good w -> ValidToken x = true -> plain_safe (fun _ _ => True) (Archive cfg x) w.
Proof.
  intros HG Hx. unfold Archive. apply plain_fseq; [by eapply plain_weaken, Load_safe|]. intros [st def] w1 Hw1 HG1.
  destruct (_ || _); [by apply plain_ret|].
  unfold fbind at 1. eapply plain_bind; [by apply Read_safe|]. intros [evs|er] w2 Hw2 HG2 _ Hr; [|by apply plain_ret].
  apply plain_fseq; [by apply (putArchive_safe x); [..|left|]|]. intros _ w3 Hw3 HG3.
  apply plain_fseq; [apply scheduleArchiveExpiry_safe|]. intros _ w4 _ _.
  apply plain_fseq; [by apply plain_true|]. intros _ w5 _ _.
  do 3 (apply plain_seq; [by apply plain_true|]; intros). apply plain_seq; [apply MarkArchived_safe|]. intros. by apply plain_ret.
Qed.

Lemma erase_all_safe names w : plain_safe (fun _ _ => True) (erase_all names) w.
Proof.
  revert w. induction names as [|n names IH]; intros w; cbn [erase_all]; [by apply plain_ret|].
  apply plain_fseq; [by apply plain_true|]. intros. apply IH.
Qed.

Lemma Delete_safe x w : good w -> plain_safe (fun _ _ => True) (Delete cfg x) w.
Proof.
  intros HG. unfold Delete. apply plain_seq; [by eapply plain_weaken, Load_safe|].
  intros [[st def]|er] w1 _ _; [|by apply plain_ret]. destruct (_ && _); [by apply plain_ret|].
  apply plain_seq.
  { destruct (Exists st); [by apply plain_ret|]. apply plain_seq; [apply (plain_weaken _ _ _ (LoadArchived_safe _ _ _))|].
    intros. by apply plain_ret. }
  intros [st'|er] w2 _ _; [|by apply plain_ret]. apply plain_seq.
  { destruct st' as [s|]; [|by apply plain_ret]. apply plain_seq; [by apply plain_true|]. intros. by apply plain_ret. }
  intros [until|] w3 _ _; [by apply plain_ret|].
  apply plain_seq; [by apply plain_true|]. intros. apply plain_seq; [apply DeleteIndex_safe|]. intros.
  do 3 (apply plain_seq; [by apply plain_true|]; intros). apply plain_seq; [|intros; by apply plain_ret].
  apply plain_fseq; [by apply plain_ret|]. intros. apply plain_fseq; [apply erase_all_safe|]. intros. by apply plain_true.
Qed.

(** ** Messages *)

Lemma reply_safe c r w : plain_safe (fun _ _ => True) (reply c r) w.
Proof.
  unfold reply. destruct (String.eqb _ _); [by apply plain_ret|]. apply plain_seq; [by apply plain_true|]. intros. by apply plain_ret.
Qed.

Lemma answer_safe c r w : plain_safe (fun _ _ => True) (answer c r) w.
Proof.
  unfold answer. destruct (String.eqb _ _); [by apply plain_ret|].
  assert (Hrp : forall rp (b : bool) w0, plain_safe (fun (_ : bool) _ => True) (let! _ := reply c rp in Ret b) w0).
  { intros. apply plain_seq; [apply reply_safe|]. intros. by apply plain_ret. }
  destruct r as [[seq appended]|er]; [apply Hrp|].
  destruct (errors_is _ _); [apply Hrp|]. destruct (errors_is _ _); [apply Hrp|]. destruct (errors_is _ _); [apply Hrp|].
  by apply plain_ret.
Qed.

Lemma deadLetter_safe m x reason w : plain_safe (fun _ _ => True) (deadLetter m x reason) w.
Proof.
  unfold deadLetter, deadLetterAs. apply plain_seq; [by apply plain_true|]. intros [] w1 _ _; by apply plain_true.
Qed.

Lemma ackOrRetry_safe m c r w : plain_safe (fun _ _ => True) (ackOrRetry m c r) w.
Proof.
  unfold ackOrRetry. destruct r as [er|]; [|by apply plain_true].
  destruct (errors_is _ _); [by apply plain_true|]. destruct (_ && _); [by apply plain_true|].
  destruct (_ || _); [apply plain_seq; [apply reply_safe|]; intros; apply deadLetter_safe|].
  destruct (errors_is _ _).
  { apply plain_seq; [apply reply_safe|]. intros. apply plain_seq; [apply IsArchived_safe|]. intros [[]|] w2 _ _;
      [by apply plain_true|apply deadLetter_safe..]. }
  destruct (_ <=? _); [|by apply plain_true]. apply plain_seq; [apply reply_safe|]. intros. apply deadLetter_safe.
Qed.

(** The message carries a command of execution [x], inline or as an object put
    before it. *)
Definition addressed (w : World) (m : Delivery) (x : string) : Prop :=
  if String.eqb (dv_Blob m) "" then forall c, dv_Data m = Some c -> c_ExecID c = x
  else exists o, w_blobs w (dv_Blob m) = Some o /\ forall c, o = OCommand (Some c) -> c_ExecID c = x.

Lemma command_body_safe m x w :
  addressed w m x -> plain_safe (if_ok (fun b _ => forall c, b = Some c -> c_ExecID c = x)) (command_body m) w.
Proof.
  intros Ha. unfold command_body, addressed in *. destruct (String.eqb _ _); [by apply plain_ok|].
  destruct Ha as (o & Ho & Hc). eapply plain_fbind; [apply resolve_object_safe|]. intros o' w1 Hw1 HG1 _ Ho'. apply plain_ok.
  intros w2 Hw2 HG2 _ c Hb. apply (gr_blobs _ _ Hw1) in Ho. destruct Ho' as [Ho'|(y & b & _ & -> & _)]; [|done].
  rewrite Ho in Ho'. injection Ho' as <-. destruct o as [|b| |]; try done. subst b. by apply Hc.
Qed.

Lemma decode_command_valid b c : decode_command b = Ok c -> b = Some c /\ ValidToken (c_ExecID c) = true.
Proof.
  destruct b as [c0|]; [|done]. cbn. destruct (Cmd.Validate c0) eqn:EV; [done|]. intros [= <-]. split; [done|].
  revert EV. unfold Cmd.Validate, CheckToken. repeat (case_match; try done).
Qed.

(** Handling a command keeps the cache clean. *)
Lemma handle_safe m x w e :
  good w -> addressed w m x -> clean w x e -> keeps_clean x (handle cfg m) w e.
Proof.
  intros HG Ha Hc. unfold handle. destruct (_ && _); [apply clean_plain; [done|apply deadLetter_safe]|].
  eapply clean_bind; [done|by apply command_body_safe|]. intros [body|er] w1 e1 Hw1 HG1 _ Hc1 Hb;
    [|apply clean_plain; [done|apply ackOrRetry_safe]].
  destruct (decode_command body) as [c|er] eqn:ED; [|apply clean_plain; [done|apply deadLetter_safe]].
  apply decode_command_valid in ED as [-> Hv]. pose proof (Hb _ eq_refl) as <-.
  assert (Hplain : forall (p : Prog (result unit)), plain_safe (fun _ _ => True) p w1 ->
    keeps_clean (c_ExecID c) (let! r := p in ackOrRetry m c (err_of r)) w1 e1).
  { intros p Hp. apply clean_plain; [done|]. apply plain_seq; [done|]. intros. apply ackOrRetry_safe. }
  assert (Happly : keeps_clean (c_ExecID c) (let! r := Engine.apply cfg c (dv_Trace m) in
    let! answered := answer c r in if (answered : bool) then call Ack else ackOrRetry m c (err_of r)) w1 e1).
  { eapply (own_bind _ (fun _ w e => clean w (c_ExecID c) e)); [by apply apply_safe|]. intros r w2 e2 _ HG2 _ Hc2.
    apply clean_plain; [done|]. apply plain_seq; [apply answer_safe|]. intros [] w3 _ _; [by apply plain_true|apply ackOrRetry_safe]. }
  destruct (c_Type c); try exact Happly; apply Hplain.
  - by apply Archive_safe.
  - apply plain_seq; [by apply Delete_safe|]. intros [|until|er] w2 _ _; [by apply plain_ret| |by apply plain_ret].
    apply plain_fseq; [by apply plain_ret|]. intros. apply ScheduleCmd_safe.
  - destruct (cf_Redispatch _); [by apply plain_true|by apply plain_ret].
Qed.
End SafeEngine.
