(* ===== verification/Fresh.v ===== *)
(** * Reading from a server that is up to date

    [Safe] programs never go wrong whatever replicas answer; this file shows that
    they get somewhere.  When the server answers from the stream as it is, in
    batches of any sizes, a reader with enough rounds gets exactly the decisions
    asked for, and [Load] gives the state after the last decision, whatever
    snapshot there is and whatever was purged after a continuation. *)

From S2P Require Import Prelude Json Hash Names Expr Flow FlowValidate FlowValid FlowGraph Event Cmd Reduce.
From S2P Require Import State StateFacts View Decide DecideRun Sim Codec DecideProps LogProps.
From S2P Require Import Flight Shape ShapeCmds Server EventLog Loader Engine Deliveries Chronicle LogFold Reading.
From S2P Require Import World Safe SafeLog.

Section Fresh.
Context `{HR : Registry}.
Context (cfg : Config).

(** ** Folding the end of a log *)

Lemma chronicle_sorted x d L T : Chronicle x d L T -> StronglySorted Z.lt (fst <$> L).
Proof.
  revert d T. induction L as [|[q evs] L IH] using rev_ind; intros d T HC; [constructor|].
  apply chronicle_snoc in HC as (d0 & t0 & def & _ & _ & HC & _ & Hq & _). rewrite fmap_app.
  apply StronglySorted_app_2; [|by eapply IH|by repeat constructor].
  intros q1 q2 Hq1 Hq2. apply list_elem_of_singleton in Hq2 as ->. apply list_elem_of_fmap in Hq1 as (d1 & -> & Hd).
  pose proof (nl_seqs _ _ (chronicle_numbered _ _ _ _ HC)) as HF. rewrite Forall_forall in HF. specialize (HF _ Hd). cbn. lia.
Qed.

Lemma same_events evs : Forall2 same_event evs evs.
Proof. induction evs; constructor; done. Qed.

Lemma fold_suffix x d h D T def s0 d0 t0 :
  Chronicle x d (h ++ D) T -> Chronicle x d0 h t0 -> s0 ≃ t0 -> s_LastSeq s0 = last_seq h -> D = [] \/ d = Some def ->
  exists s, res_fold (load_step def) s0 (stamped_all D) = Ok s /\ s ≃ T /\ s_LastSeq s = last_seq (h ++ D).
Proof.
  intros HC HC0 Hst Hl. revert d T HC. induction D as [|[q evs] D IH] using rev_ind; intros d T HC Hd.
  - rewrite app_nil_r in *. destruct (chronicle_fun _ _ _ _ _ _ HC HC0) as [_ ->]. by exists s0.
  - rewrite app_assoc in HC. apply chronicle_snoc in HC as (d1 & t1 & def1 & Hd1 & _ & HC & Hda & _ & HL).
    destruct Hd as [Hd|Hd]; [by destruct D|]. rewrite Hd in Hd1. injection Hd1 as <-.
    destruct (IH _ _ HC) as (s & HF & Hs & Hls).
    { destruct Hda as [Hda|Hda]; [left; by destruct h|by right]. }
    destruct (load_same def t1 s evs evs T q) as (s' & HF' & Hs' & Hq); [by symmetry|apply same_events|apply HL|apply HL|].
    exists s'. rewrite stamped_all_app, res_fold_app, HF. cbn [res_bind]. unfold stamped_all. cbn. rewrite app_nil_r.
    split; [done|]. split; [by symmetry|]. by rewrite app_assoc, last_seq_snoc.
Qed.

(** From a decision that bases a state, nothing before it is needed. *)
Lemma fold_based x d h q ev evs D T def :
  Chronicle x d (h ++ (q, ev :: evs) :: D) T -> d = Some def -> base_data (ev_Data ev) = true ->
  exists s, res_fold (load_step def) (NewState x) (stamped_all ((q, ev :: evs) :: D)) = Ok s /\ s ≃ T /\
    s_LastSeq s = last_seq (h ++ (q, ev :: evs) :: D).
Proof.
  intros HC -> Hb. rewrite (cons_middle (q, ev :: evs)), app_assoc in HC |- *.
  destruct (chronicle_prefix _ _ _ _ _ HC) as (d1 & t1 & HC1 & Hd1).
  destruct Hd1 as [Hd1| ->]; [by destruct h|].
  pose proof HC1 as (d0 & t0 & def0 & [= <-] & _ & HC0 & _ & _ & HL)%chronicle_snoc.
  assert (Hr : replay def (NewState x) (ev :: evs) = Ok t1).
  { rewrite <- (lk_replay _ _ _ _ _ HL). unfold replay. cbn [res_fold]. f_equal.
    destruct (opens (ev_Data ev)) eqn:Eo; [|apply Apply_anew; by destruct (ev_Data ev)].
    destruct h as [|[q0 e0] h].
    { apply chronicle_annals, an_def in HC0. destruct d0; [by destruct HC0|]. by destruct HC0 as [_ ->]. }
    destruct (chronicle_opened _ _ _ _ _ _ HC1) as (? & rest & _ & _ & HF). exfalso.
    rewrite Forall_forall in HF. specialize (HF ev). rewrite HF in Eo; [done|]. apply elem_of_app. right.
    rewrite events_snoc. set_solver. }
  destruct (load_same def (NewState x) (NewState x) (ev :: evs) (ev :: evs) t1 q) as (s1 & HF1 & Hs1 & Hq1); try done.
  { apply same_events. }
  destruct (fold_suffix x (Some def) (h ++ [(q, ev :: evs)]) D T def s1 (Some def) t1) as (s & HF & Hs & Hq);
    [done|done|by symmetry|by rewrite last_seq_snoc|by right|].
  exists s. change (stamped_all ((q, ev :: evs) :: D)) with (stamped q (ev :: evs) ++ stamped_all D).
  rewrite res_fold_app, HF1. done.
Qed.

(** ** A server that is up to date *)

Definition left_over {A} (rest : list A) : bool := match rest with [] => false | _ => true end.

Section UpToDate.
Context (w : World) (x : string) (live : list (Z * Msg)).

(** The answers of a server whose stream holds the messages [live] of [x]: batches
    of any sizes but with at least a message if there is one, objects and flows
    that are there, and any snapshot the key ever held, or none. *)
Definition fresh (e : Exchange) : Prop :=
  match x_call e as c return Answer c -> Prop with
  | EvDirectGet y from => fun a => y = x ->
      exists msgs rest, a = Ok (msgs, left_over rest) /\ (msgs = [] -> rest = []) /\
        List.filter (fun qm => from <=? fst qm) live = msgs ++ rest
  | EvFirst y => fun a => y = x -> a = Ok (fst <$> head live)
  | BlobGet n => fun a =>
      match w_blobs w n with
      | Some o => a = Got o
      | None => match a with Got o => exists y b, n = snapshot_object y /\ o = OState b /\ b ∈ w_objs w y | _ => True end
      end
  | SnapGet y => fun a => match a with Ok (Some v) => v ∈ w_snaps w y | _ => True end
  | FlowsGet n h => fun a => forall def, flows n h = Some def -> a = Ok def
  | _ => fun _ => True
  end (x_answer e).

Lemma decode_message_fresh m q evs tr r :
  decodes w m evs -> Runs (decode_message m q) tr r -> Forall fresh tr -> r = Ok (stamped q evs).
Proof.
  unfold decodes, decode_message, Resolve. destruct (String.eqb _ _).
  - intros HD HP _. cbn [fbind pbind ok call] in HP. rewrite HD in HP. by destruct HP as [_ <-].
  - intros (b & Hb & HD) HP HF. unfold resolve_object in HP.
    destruct HP as (a & t & -> & HP). apply Forall_cons in HF as [Ha _]. unfold fresh in Ha. cbn [x_call x_answer] in Ha.
    rewrite Hb in Ha. subst a. cbn [fbind pbind ok call] in HP. rewrite HD in HP. by destruct HP as [_ <-].
Qed.

(** *** Batches *)

(** The decisions up to a sequence. *)
Fixpoint until (to : Z) (D : list (Z * list FoldEvent)) : list (Z * list FoldEvent) :=
  match D with
  | [] => []
  | d :: D' => if (0 <? to) && (to <? fst d) then [] else d :: until to D'
  end.

Abbreviation reader to :=
  (fun acc evs => Ret (scan_events (fun out ev => if (0 <? to) && (to <? ev_Seq ev) then (out, false) else (out ++ [ev], true)) acc evs)).

Lemma scan_messages_fresh to msgs D next out tr r :
  Forall2 (holds_decision w) msgs D -> Forall (fun d => snd d <> []) D ->
  Runs (scan_messages (reader to) msgs next out) tr r -> Forall fresh tr ->
  exists next' stop, r = Ok (next', stop, out ++ stamped_all (until to D)) /\
    if (stop : bool) then forall D', until to (D ++ D') = until to D
    else until to D = D /\ next' = match last D with Some (q, _) => q + 1 | None => next end.
Proof.
  intros HD. revert next out tr. induction HD as [|[q m] [q' evs] msgs D [Hq Hd] HD IH]; intros next out tr HN; cbn [scan_messages].
  { intros [-> <-] _. exists next, false. cbn. by rewrite app_nil_r. }
  simpl in Hq, Hd. subst q'. apply Forall_cons in HN as [Hne HN]. simpl in Hne.
  intros (t1 & r1 & t2 & H1 & HP & ->)%runs_bind [HF1 HF2]%Forall_app.
  rewrite (decode_message_fresh _ _ _ _ _ Hd H1 HF1) in HP. cbn [pbind] in HP. rewrite read_decision in HP.
  rewrite bool_decide_eq_false_2, andb_true_r in HP by done. cbn [until fst]. destruct (_ && _) eqn:E.
  - destruct HP as [-> <-]. exists (q + 1), true. split; [by rewrite app_nil_r|]. intros D'. cbn. by rewrite E.
  - destruct (IH _ _ _ HN HP HF2) as (next' & stop & -> & Hs). exists next', stop.
    split; [by rewrite <- app_assoc|]. destruct stop.
    + intros D'. cbn. by rewrite E, Hs.
    + destruct Hs as [Hu ->]. split; [by rewrite Hu|]. rewrite last_cons. by destruct (last D) as [[]|].
Qed.

(** *** All batches *)

Definition from_seq {A} (from : Z) (l : list (Z * A)) : list (Z * A) := List.filter (fun d => from <=? fst d) l.

Lemma from_seq_cons {A} from (d : Z * A) l :
  from_seq from (d :: l) = if from <=? fst d then d :: from_seq from l else from_seq from l.
Proof. done. Qed.

Lemma from_seq_app {A} from (l1 l2 : list (Z * A)) : from_seq from (l1 ++ l2) = from_seq from l1 ++ from_seq from l2.
Proof. apply List.filter_app. Qed.

Lemma from_seq_all {A} from (l : list (Z * A)) : Forall (fun d => from <= fst d) l -> from_seq from l = l.
Proof. induction 1 as [|d l Hd _ IH]; [done|]. apply Z.leb_le in Hd. by rewrite from_seq_cons, Hd, IH. Qed.

Lemma from_seq_none {A} from (l : list (Z * A)) : Forall (fun d => fst d < from) l -> from_seq from l = [].
Proof. induction 1 as [|d l Hd _ IH]; [done|]. apply Z.leb_gt in Hd. by rewrite from_seq_cons, Hd, IH. Qed.

Lemma from_seq_twice {A} p q (l : list (Z * A)) : p <= q -> from_seq q (from_seq p l) = from_seq q l.
Proof.
  intros Hpq. induction l as [|d l IH]; [done|]. rewrite !(from_seq_cons _ d).
  destruct (Z.leb_spec p (fst d)); rewrite ?from_seq_cons, IH; [done|].
  by replace (q <=? fst d) with false by (symmetry; apply Z.leb_gt; lia).
Qed.

Lemma from_seq_sorted {A} from (l : list (Z * A)) :
  StronglySorted Z.lt (fst <$> l) -> StronglySorted Z.lt (fst <$> from_seq from l).
Proof.
  induction l as [|d l IH]; [done|]. rewrite fmap_cons. intros [HF HS]%StronglySorted_cons. rewrite from_seq_cons.
  destruct (_ <=? _); [|by apply IH]. rewrite fmap_cons. constructor; [by apply IH|].
  rewrite Forall_fmap in HF |- *. unfold from_seq.
  apply List.Forall_forall. intros d' [Hd' _]%List.filter_In. 
  rewrite List.Forall_forall in HF. exact (HF _ Hd').
Qed.

Lemma from_seq_after {A} (l a b : list (Z * A)) q m :
  StronglySorted Z.lt (fst <$> a ++ (q, m) :: b) -> from_seq (q + 1) (a ++ (q, m) :: b) = b.
Proof.
  rewrite fmap_app, fmap_cons. intros HS. pose proof (StronglySorted_app_1_r _ _ _ HS) as [HB _]%StronglySorted_cons.
  rewrite from_seq_app, from_seq_none, app_nil_l.
  - rewrite from_seq_cons. cbn [fst]. replace (q + 1 <=? q) with false by (symmetry; apply Z.leb_gt; lia). apply from_seq_all.
    rewrite Forall_fmap in HB. eapply Forall_impl; [exact HB|]. intros d. cbn. lia.
  - apply Forall_forall. intros d Hd. assert (fst d < q); [|lia].
    eapply (StronglySorted_app_1_elem_of _ _ _ _ _ HS); [by apply list_elem_of_fmap_2|]. cbn. apply list_elem_of_here.
Qed.

Lemma until_app to D D' : until to D = D -> until to (D ++ D') = D ++ until to D'.
Proof.
  induction D as [|d D IH]; [done|]. cbn. destruct (_ && _); [done|]. intros HD. injection HD as HD. by rewrite IH.
Qed.

Lemma until_sorted to D :
  StronglySorted Z.lt (fst <$> D) -> 0 <= to ->
  until to D = List.filter (fun d => (to =? 0) || (fst d <=? to)) D.
Proof.
  intros HS Ht. induction D as [|d D IH]; [done|]. rewrite fmap_cons in HS. apply StronglySorted_cons in HS as [HF HS]. cbn.
  destruct (Z.eqb_spec to 0) as [->|Hne]; cbn.
  { rewrite IH by done. by destruct D. }
  replace (0 <? to) with true by (symmetry; apply Z.ltb_lt; lia). cbn.
  destruct (Z.ltb_spec to (fst d)) as [Hlt|Hge].
  - replace (fst d <=? to) with false by (symmetry; apply Z.leb_gt; lia).
    clear IH HS. rewrite Forall_fmap in HF. induction HF as [|d' D Hd' _ IH]; [done|]. cbn in *.
    replace (fst d' <=? to) with false by (symmetry; apply Z.leb_gt; lia). done.
  - replace (fst d <=? to) with true by (symmetry; apply Z.leb_le; lia). rewrite IH by done.
    by destruct (Z.eqb_spec to 0).
Qed.

Context (DL : list (Z * list FoldEvent)).
Hypothesis HDL : Forall2 (holds_decision w) live DL.
Hypothesis sorted : StronglySorted Z.lt (fst <$> DL).
Hypothesis filled : Forall (fun d => snd d <> []) DL.

Lemma live_from from : Forall2 (holds_decision w) (from_seq from live) (from_seq from DL).
Proof.
  generalize HDL. clear. induction 1 as [|[q m] [q' evs] l D [Hq Hd] _ IH]; [constructor|]. simpl in Hq, Hd. subst q'.
  rewrite !from_seq_cons. cbn [fst]. destruct (_ <=? _); [|exact IH]. by constructor.
Qed.

Lemma scan_rounds_fresh to rounds from out tr r :
  (length (from_seq from DL) < rounds)%nat -> Runs (scan_rounds (reader to) rounds x from out) tr r -> Forall fresh tr ->
  r = Ok (out ++ stamped_all (until to (from_seq from DL))).
Proof.
  revert from out tr. induction rounds as [|rounds IH]; intros from out tr Hn; [lia|]. cbn [scan_rounds]. unfold readBatch.
  intros (t1 & r1 & t2 & H1 & HP & ->)%runs_bind [HF1 HF2]%Forall_app.
  destruct H1 as (a & t & -> & H1). apply Forall_cons in HF1 as [Ha HF1]. unfold fresh in Ha. cbn [x_call x_answer] in Ha.
  destruct (Ha eq_refl) as (msgs & rest & -> & Hne & Hf). clear Ha. cbn [pbind] in H1. change (from_seq from live = msgs ++ rest) in Hf.
  pose proof (live_from from) as HL. rewrite Hf in HL. apply Forall2_app_inv_l in HL as (D & DR & HD & HDR & HDE).
  assert (HN : Forall (fun d => snd d <> []) (D ++ DR)).
  { rewrite <- HDE. unfold from_seq. apply List.Forall_forall. intros d [Hd _]%List.filter_In.
    rewrite List.Forall_forall in filled. by apply filled. }
  apply Forall_app in HN as [HN _].
  apply runs_bind in H1 as (t3 & r3 & t4 & H3 & H4 & ->). apply Forall_app in HF1 as [HF3 HF4].
  destruct (scan_messages_fresh _ _ _ _ _ _ _ HD HN H3 HF3) as (next' & stop & -> & Hs). destruct H4 as [-> <-].
  rewrite HDE. destruct stop; cbn [orb] in HP; [destruct HP as [_ <-]; by rewrite Hs|]. destruct Hs as [Hu Hnext].
  destruct rest as [|qm rest]; cbn [left_over negb] in HP.
  { inversion HDR; subst. destruct HP as [_ <-]. by rewrite app_nil_r. }
  destruct D as [|[q evs] D _] using rev_ind; [inversion HD; subst; by specialize (Hne eq_refl)|].
  rewrite last_snoc in Hnext. subst next'.
  assert (Hfr : from <= q).
  { assert (Hin : List.In (q, evs) (from_seq from DL)) by (rewrite HDE; apply List.in_app_iff; left; apply List.in_app_iff; right; by left).
    apply List.filter_In in Hin as [_ Hle]. cbn in Hle. lia. }
  assert (HE : from_seq (q + 1) DL = DR).
  { rewrite <- (from_seq_twice from (q + 1)) by lia. pose proof (from_seq_sorted from DL sorted) as HSf.
    rewrite HDE, <- app_assoc in HSf |- *. by apply from_seq_after in HSf. }
  apply (IH (q + 1)) in HP; [|rewrite HE; rewrite HDE in Hn; rewrite !length_app in Hn; simpl in Hn; lia|done].
  rewrite HP, HE, (until_app _ _ _ Hu), stamped_all_app, Hu. by rewrite <- app_assoc.
Qed.

Lemma Read_fresh from to tr r :
  from <> 0 -> (length live < cf_Rounds cfg)%nat -> Runs (Read cfg x from to) tr r -> Forall fresh tr ->
  r = Ok (stamped_all (until to (from_seq from DL))).
Proof.
  intros Hf Hn. unfold Read, Scan, ScanDecisions. apply Z.eqb_neq in Hf. rewrite Hf. apply scan_rounds_fresh.
  rewrite (Forall2_length _ _ _ HDL) in Hn. pose proof (List.filter_length_le (fun d => from <=? fst d) DL). unfold from_seq. lia.
Qed.

(** ** Loading *)

Lemma until_zero D : until 0 D = D.
Proof. induction D as [|d D IH]; [done|]. cbn. by rewrite IH. Qed.

Lemma DefOf_fresh def y first tr r :
  base_ok def y first -> base_data (ev_Data first) = true -> Runs (DefOf first) tr r -> Forall fresh tr -> r = Ok def.
Proof.
  intros Hb Hd. destruct (Hb (identity (NewState y))) as (i & Hi & _ & Hf). unfold identify in Hi. unfold DefOf, defOfState.
  assert (HC : forall n h, flows n h = Some def -> Runs (call (FlowsGet n h)) tr r -> Forall fresh tr -> r = Ok def).
  { intros n h Hn ->%runs_call [Ha _]%Forall_cons. unfold fresh in Ha. cbn in Ha. by apply Ha. }
  destruct (ev_Data first); try discriminate Hd.
  - apply (inj Some) in Hi. subst i. apply HC. exact Hf.
  - destruct (Forked_State _) as [src|]; [|done]. cbn. apply (inj Some) in Hi. subst i. apply HC. exact Hf.
  - destruct (Continued_State _) as [src|]; [|done]. cbn. apply (inj Some) in Hi. subst i. apply HC. exact Hf.
Qed.

Hypothesis HG : good w.

Lemma snapshotFor_fresh tr o :
  Runs (snapshotFor cfg x 0) tr o -> Forall fresh tr -> forall s, o = Some s -> live_known w x s.
Proof.
  unfold snapshotFor. destruct (negb _); [by intros [_ <-]|].
  intros (t1 & r & t2 & H1 & [_ <-] & ->)%runs_bind [HF _]%Forall_app s. destruct r as [[st|]|e]; try done. cbn. intros [= ->].
  destruct H1 as (a & t & -> & H1). apply Forall_cons in HF as [Ha HF]. unfold fresh in Ha. cbn [x_call x_answer] in Ha.
  destruct a as [[v|]|e]; [|by destruct H1..]. apply (g_snaps _ HG) in Ha. destruct v as [b|n].
  - cbn in H1. destruct b as [s'|]; [|by destruct H1]. destruct H1 as [_ [= ->]]. by apply Ha.
  - cbn in Ha. subst n. destruct H1 as (a & t' & -> & H1). apply Forall_cons in HF as [Hb _]. unfold fresh in Hb. cbn [x_call x_answer] in Hb.
    destruct (w_blobs w (snapshot_object x)) as [o|] eqn:Eo; [by destruct (proj2 (g_names _ HG _ _ Eo) x)|].
    destruct a as [o| |e]; [|by destruct H1..]. destruct Hb as (y & b & Hy & -> & Hin). apply snapshot_object_inj in Hy as <-.
    cbn in H1. destruct b as [s'|]; [|by destruct H1]. destruct H1 as [_ [= ->]]. by apply (g_objs _ HG).
Qed.

Context (d : option Flow) (Lg : list (Z * list FoldEvent)) (T : State).
Hypothesis HC : Chronicle x d (Lg ++ DL) T.

(** The last decision read that bases a state. *)
Lemma lastBase_suffix h D l :
  Lg ++ DL = h ++ D -> from_lastBase (stamped_all D) = Some l ->
  exists h' q ev evs D', Lg ++ DL = h' ++ (q, ev :: evs) :: D' /\ l = stamped_all ((q, ev :: evs) :: D') /\
    base_data (ev_Data ev) = true.
Proof.
  rewrite from_lastBase_last. revert h. induction D as [|[q evs] D IH]; intros h HE; [done|].
  rewrite stamped_all_cons, from_last_app. destruct (from_last bases (stamped_all D)) as [l'|].
  { intros [= <-]. apply (IH (h ++ [(q, evs)])); [by rewrite <- app_assoc|done]. }
  destruct (from_last bases (stamped q evs)) as [l1|] eqn:E1; [|done]. intros [= <-].
  assert (Hin : (q, evs) ∈ Lg ++ DL) by (rewrite HE; set_solver).
  pose proof (chronicle_solid _ _ _ _ _ _ HC Hin) as HS.
  assert (HH : heads bases [(q, evs)]).
  { apply solid_heads; [|intros e Ht Hb; unfold bases; rewrite Ht; by destruct (ev_Data e)|done].
    intros q' evs' Hq. apply list_elem_of_singleton in Hq. by injection Hq as -> ->. }
  pose proof (from_last_decision _ _ _ _ _ HH (list_elem_of_here _ _) E1) as ->.
  pose proof (from_last_head _ _ _ E1) as (e & rest & He & Hb). destruct HS as [_ HT (ev & evs' & -> & _)].
  destruct (stamped_cons q ev evs') as (b & rest' & Hs). rewrite Hs in He. injection He as <- _.
  exists h, q, ev, evs', D. split; [done|]. split; [done|]. apply Forall_cons in HT as [Ht _].
  unfold bases in Hb. cbn in Hb. rewrite Ht in Hb. by destruct (ev_Data ev).
Qed.

(** What [Load] has to give. *)
Definition latest (r : result (State * option Flow)) : Prop :=
  exists s, r = Ok (s, d) /\ s ≃ T /\ s_LastSeq s = last_seq (Lg ++ DL).

Lemma load_fold_based h q ev evs D tr r :
  Lg ++ DL = h ++ (q, ev :: evs) :: D -> base_data (ev_Data ev) = true ->
  Runs (load_fold x None (stamped_all ((q, ev :: evs) :: D))) tr r -> Forall fresh tr -> latest r.
Proof.
  intros HE Hb HP HF. assert (Hin : (q, ev :: evs) ∈ Lg ++ DL) by (rewrite HE; set_solver).
  destruct (decision_split _ _ _ _ _ _ HC Hin) as (h0 & da & t & def & t' & Hd & _ & _ & _ & HL & _).
  destruct (stamped_cons q ev evs) as (b & rest & Hs). rewrite stamped_all_cons, Hs in HP. unfold load_fold in HP. cbn [app] in HP.
  apply runs_bind in HP as (t1 & r1 & t2 & H1 & HP & ->). apply Forall_app in HF as [HF _].
  assert (Hbase : base_ok def x (stamp q b ev)).
  { pose proof (lk_bases _ _ _ _ _ HL) as [Hba _]%Forall_cons. intros i. exact (Hba Hb i). }
  rewrite (DefOf_fresh _ _ _ _ _ Hbase Hb H1 HF) in HP.
  rewrite HE in HC. destruct (fold_based _ _ _ _ _ _ _ _ _ HC Hd Hb) as (s & Hf & Hst & Hl).
  rewrite stamped_all_cons, Hs in Hf. cbn [app default] in Hf, HP. unfold lift in HP. cbn [fbind pbind] in HP.
  change (default (NewState x) None) with (NewState x) in HP. rewrite Hf in HP. destruct HP as [_ <-].
  exists s. rewrite HE, Hd. done.
Qed.

Lemma load_fold_from h D s tr r d0 t0 :
  Lg ++ DL = h ++ D -> Chronicle x d0 h t0 -> s ≃ t0 -> s_LastSeq s = last_seq h -> Exists s = true ->
  Runs (load_fold x (Some s) (stamped_all D)) tr r -> Forall fresh tr -> latest r.
Proof.
  intros HE HC0 Hst Hl Ex HP HF. assert (Has : as_of x (Lg ++ DL) s) by (exists d0, h, t0; split; [by rewrite HE; eexists|done]).
  destruct (as_of_live _ _ _ _ _ HC Has Ex) as (def & Hd & _ & _ & Hfl).
  destruct HP as (a & t & -> & HP). apply Forall_cons in HF as [Ha _]. unfold fresh in Ha. cbn [x_call x_answer] in Ha.
  rewrite (Ha _ Hfl) in HP. cbn [pbind] in HP. rewrite HE in HC.
  destruct (fold_suffix x d h D T def s d0 t0) as (s' & Hf & Hs & Hl'); try done; [by right|].
  unfold lift in HP. cbn [fbind pbind default] in HP. change (id s) with s in HP. rewrite Hf in HP.
  destruct HP as [_ <-]. exists s'. rewrite HE, Hd. done.
Qed.

(** *** Where a snapshot is in the log *)

Lemma seqs_after h D d1 T1 : Chronicle x d1 (h ++ D) T1 -> from_seq (last_seq h + 1) (h ++ D) = D.
Proof.
  intros HC1. pose proof (chronicle_sorted _ _ _ _ HC1) as HS. destruct (chronicle_prefix _ _ _ _ _ HC1) as (d0 & t0 & HC0 & _).
  pose proof (nl_seqs _ _ (chronicle_numbered _ _ _ _ HC0)) as Hh. pose proof (nl_seqs _ _ (chronicle_numbered _ _ _ _ HC1)) as HA.
  apply Forall_app in HA as [_ HA]. rewrite from_seq_app, from_seq_none, app_nil_l.
  2: { eapply Forall_impl; [exact Hh|]. intros e. cbn. lia. }
  apply from_seq_all. destruct h as [|[q e0] h _] using rev_ind.
  { eapply Forall_impl; [exact HA|]. intros e. cbn. lia. }
  rewrite last_seq_snoc. apply Forall_forall. intros e He. assert (q < fst e); [|lia]. rewrite fmap_app in HS.
  eapply (StronglySorted_app_1_elem_of _ _ _ _ _ HS); [|by apply list_elem_of_fmap_2].
  rewrite fmap_app. apply elem_of_app. right. apply list_elem_of_here.
Qed.

Lemma first_index h q evs D ev rest :
  Lg ++ DL = h ++ (q, evs) :: D -> stamped_all ((q, evs) :: D) = ev :: rest -> ev_Index ev = len (events h) + 1.
Proof.
  intros HE Hs. pose proof (nl_indexed _ _ (chronicle_numbered _ _ _ _ HC)) as HI.
  assert (Hin : (q, evs) ∈ Lg ++ DL) by (rewrite HE; set_solver).
  destruct evs as [|e evs]; [by destruct (solid_some _ (chronicle_solid _ _ _ _ _ _ HC Hin))|].
  destruct (stamped_cons q e evs) as (b & rest' & Hc). rewrite stamped_all_cons, Hc in Hs. injection Hs as <- _. cbn [ev_Index stamp].
  rewrite (HI (length (events h)) e); [unfold len; lia|]. rewrite HE, events_app, lookup_app_r by lia.
  rewrite Nat.sub_diag. done.
Qed.

(** The end of a log holds the decision that bases its state. *)
Hypothesis based : Lg = [] \/ exists q ev evs, (q, ev :: evs) ∈ DL /\ base_data (ev_Data ev) = true.
Hypothesis HLg : Log w x (Lg ++ DL).
Hypothesis rounds : (length live < cf_Rounds cfg)%nat.

Lemma based_last : DL <> [] -> from_lastBase (stamped_all DL) <> None.
Proof.
  intros HD. rewrite from_lastBase_last. assert (exists q ev evs, (q, ev :: evs) ∈ DL /\ base_data (ev_Data ev) = true) as (q1 & ev & evs & Hin & Hb).
  { destruct based as [->|Hb]; [|done]. clear rounds based HDL sorted filled. destruct DL as [|[q evs] D]; [done|].
    destruct (chronicle_opened _ _ _ _ _ _ HC) as (ev & rest & -> & Ho & _). exists q, ev, rest. split; [set_solver|].
    by destruct (ev_Data ev). }
  assert (Ht : typed ev).
  { assert (Hin' : (q1, ev :: evs) ∈ Lg ++ DL) by set_solver.
    by apply (chronicle_solid _ _ _ _ _ _ HC) in Hin' as [_ [Ht _]%Forall_cons _]. }
  clear HD. apply list_elem_of_split in Hin as (D1 & D2 & ->). rewrite stamped_all_app, stamped_all_cons, !from_last_app.
  destruct (from_last bases (stamped_all D2)); [done|].
  destruct (stamped_cons q1 ev evs) as (b & rest & ->). cbn [from_last]. destruct (from_last bases rest); [done|].
  replace (bases (stamp q1 b ev)) with true; [done|]. unfold bases. cbn [ev_Type stamp]. rewrite Ht. by destruct (ev_Data ev).
Qed.

(** From the messages that are left, without a snapshot. *)
Lemma load_live tr r :
  Runs (match from_lastBase (stamped_all DL) with
        | Some evs => load_fold x None evs
        | None => loadFromHistory cfg x 0
        end) tr r -> DL <> [] -> Forall fresh tr -> latest r.
Proof.
  intros HP Hne HF. destruct (from_lastBase (stamped_all DL)) as [l|] eqn:EB; [|by destruct (based_last Hne)].
  destruct (lastBase_suffix _ _ _ eq_refl EB) as (h & q1 & ev & evs & D' & HE & -> & Hb). by eapply load_fold_based.
Qed.

(** The end of [Load], once the events are read. *)
Definition load_rest (p : option State * list FoldEvent) : Prog (result (State * option Flow)) :=
  let (st, evs) := p in
  if bool_decide (st = None) && bool_decide (evs = []) then
    if 0 <? 0 then loadFromHistory cfg x 0 else ok (NewState x, None)
  else
    match from_lastBase evs with
    | Some evs => load_fold x None evs
    | None => match st with
              | None => loadFromHistory cfg x 0
              | Some _ => load_fold x st evs
              end
    end.

Lemma load_rest_live tr r : Runs (load_rest (None, stamped_all DL)) tr r -> Forall fresh tr -> latest r.
Proof.
  unfold load_rest. rewrite bool_decide_eq_true_2 by done. cbn [andb].
  destruct (base.decide (DL = [])) as [E|E].
  - rewrite E. change (stamped_all []) with (@nil FoldEvent). rewrite bool_decide_eq_true_2 by done.
    intros [_ <-] _. exists (NewState x). assert (HL : Lg ++ DL = []).
    { rewrite E, app_nil_r. destruct based as [|(q & ev & evs & Hin & _)]; [done|]. rewrite E in Hin. by apply elem_of_nil in Hin. }
    rewrite HL. rewrite HL in HC. apply chronicle_annals, an_def in HC. destruct d; [by destruct HC|]. by destruct HC as [_ ->].
  - assert (Hne : stamped_all DL <> []).
    { intros Hn. pose proof (based_last E) as Hb. by rewrite Hn in Hb. }
    rewrite bool_decide_eq_false_2 by done. intros HP HF. by eapply load_live.
Qed.

Lemma load_rest_snap h D s d0 t0 tr r :
  Lg ++ DL = h ++ D -> Chronicle x d0 h t0 -> s ≃ t0 -> s_LastSeq s = last_seq h -> Exists s = true ->
  Runs (load_rest (Some s, stamped_all D)) tr r -> Forall fresh tr -> latest r.
Proof.
  intros HE HC0 Hst Hl Ex. unfold load_rest. rewrite bool_decide_eq_false_2 by done. cbn [andb].
  destruct (from_lastBase (stamped_all D)) as [l|] eqn:EB; intros HP HF; [|by eapply load_fold_from].
  destruct (lastBase_suffix _ _ _ HE EB) as (h' & q1 & ev & evs & D' & HE' & -> & Hb). by eapply load_fold_based.
Qed.

(** A snapshot is continued by what is read after it, or the log is read whole. *)
Lemma continues_fresh h s d0 t0 D tr b :
  Lg ++ DL = h ++ D -> Lg `prefix_of` h -> h <> [] -> Chronicle x d0 h t0 -> s ≃ t0 -> s_LastSeq s = last_seq h ->
  DL <> [] -> Runs (continues x s (stamped_all D)) tr b -> Forall fresh tr -> b = true.
Proof.
  intros HE [h1 ->] Hh HC0 Hst Hl Hne HP HF. pose proof (chronicle_numbered _ _ _ _ HC0) as HN0.
  destruct D as [|[q evs] D].
  - cbn in HP. destruct HP as (a & t & -> & [_ <-]). apply Forall_cons in HF as [Ha _]. unfold fresh in Ha. cbn [x_call x_answer] in Ha.
    rewrite (Ha eq_refl). rewrite <- app_assoc, app_nil_r in HE. apply app_inv_head in HE as <-.
    assert (exists q m l e D, live = (q, m) :: l /\ DL = (q, e) :: D) as (q & m & l & e & D & -> & HD).
    { clear -HDL Hne. destruct HDL as [|[q m] [q' e] l D [Hq _] _]; [done|]. simpl in Hq. subst. by exists q', m, l, e, D. }
    cbn. pose proof (nl_seqs _ _ HN0) as HQ. rewrite Forall_forall in HQ. specialize (HQ (q, e)).
    rewrite Hl. destruct HQ as [Hq0 Hq1]; [rewrite HD; set_solver|]. cbn [fst] in *.
    apply andb_true_intro. split; [apply negb_true_iff, Z.eqb_neq; lia|apply Z.leb_le; lia].
  - destruct (stamped_all ((q, evs) :: D)) as [|ev rest] eqn:Es.
    { exfalso. assert (Hin : (q, evs) ∈ Lg ++ DL) by (rewrite HE; set_solver).
      pose proof (solid_some _ (chronicle_solid _ _ _ _ _ _ HC Hin)) as Hs. rewrite stamped_all_cons in Es.
      by apply app_nil in Es as [Es%stamped_some _]. }
    pose proof (first_index _ _ _ _ _ _ HE Es) as Hi. cbn [continues] in HP.
    rewrite (proj2 (Z.eqb_neq (ev_Index ev) 0)) in HP by (unfold len in Hi; lia). destruct HP as [_ <-].
    apply Z.eqb_eq. rewrite Hi, (Events_sim _ _ Hst), (nl_count _ _ HN0). done.
Qed.

Lemma skips_fresh h k s d0 t0 tr b :
  Lg = h ++ k -> k <> [] -> Chronicle x d0 h t0 -> s ≃ t0 -> DL <> [] -> Runs (continues x s (stamped_all DL)) tr b -> b = false.
Proof.
  intros Hg Hk HC0 Hst Hne HP. pose proof (chronicle_numbered _ _ _ _ HC0) as HN0.
  destruct (stamped_all DL) as [|ev rest] eqn:Es; [by pose proof (based_last Hne) as Hb; rewrite Es in Hb|].
  assert (exists q evs D, DL = (q, evs) :: D) as (q & evs & D & HD) by (clear -Hne; destruct DL as [|[q evs] D]; [done|eauto]).
  assert (HE : Lg ++ DL = Lg ++ (q, evs) :: D) by (by rewrite HD). rewrite HD in Es.
  pose proof (first_index _ _ _ _ _ _ HE Es) as Hi. cbn [continues] in HP.
  rewrite (proj2 (Z.eqb_neq (ev_Index ev) 0)) in HP by (unfold len in Hi; lia). destruct HP as [_ <-].
  apply Z.eqb_neq. rewrite Hi, (Events_sim _ _ Hst), (nl_count _ _ HN0), Hg, events_app. unfold len. rewrite length_app.
  assert (Hk0 : events k <> []); [|destruct (events k); [done|simpl; lia]]. intros Ek. destruct k as [|[q1 e1] k]; [done|].
  assert (Hin : (q1, e1) ∈ Lg ++ DL) by (rewrite Hg; set_solver).
  apply (solid_some _ (chronicle_solid _ _ _ _ _ _ HC Hin)). unfold events in Ek. cbn in Ek. by apply app_nil in Ek as [? _].
Qed.

Lemma Load_fresh tr r : Runs (Load cfg x 0) tr r -> Forall fresh tr -> latest r.
Proof.
  unfold Load. intros (t1 & st & t2 & H1 & HP & ->)%runs_bind [HF1 HF]%Forall_app.
  pose proof (snapshotFor_fresh _ _ H1 HF1) as Hst. clear H1 HF1.
  apply runs_bind in HP as (t3 & revs & t4 & H3 & HP & ->). apply Forall_app in HF as [HF3 HF].
  assert (Hall : from_seq 1 DL = DL).
  { apply from_seq_all. pose proof (nl_seqs _ _ (chronicle_numbered _ _ _ _ HC)) as [_ HQ]%Forall_app.
    eapply Forall_impl; [exact HQ|]. intros e. cbn. lia. }
  assert (Hread : forall tr r, Runs (Read cfg x 1 0) tr r -> Forall fresh tr -> r = Ok (stamped_all DL)).
  { intros tr r' HR1 HF1. rewrite (Read_fresh 1 0 tr r' ltac:(lia) rounds HR1 HF1), until_zero, Hall. done. }
  destruct st as [s|].
  2: { rewrite (Hread _ _ H3 HF3) in HP. by apply (load_rest_live t4). }
  destruct (Hst s eq_refl) as [(L & HLog & d0 & h & t0 & Hp & HC0 & Hs & Hl) Ex]. clear Hst.
  rewrite <- (Log_fun _ _ _ _ HLg HLog) in Hp. clear HLog L.
  assert (Hh : h <> []).
  { intros ->. apply chronicle_annals, an_def in HC0. destruct d0; [by destruct HC0|]. destruct HC0 as [_ ->].
    unfold Exists in Ex. by rewrite (Events_sim _ _ Hs) in Ex. }
  assert (Hne : DL <> []).
  { intros E. destruct based as [E'|(q & ev & evs & Hin & _)]; [|rewrite E in Hin; by apply elem_of_nil in Hin].
    rewrite E, E' in Hp. by apply prefix_nil_inv in Hp. }
  pose proof (last_seq_nonneg _ _ _ _ HC0) as H0.
  assert (Hq : s_LastSeq s + 1 <> 0) by lia.
  rewrite (Read_fresh (s_LastSeq s + 1) 0 t3 revs Hq rounds H3 HF3), until_zero in HP. clear H3 HF3. cbn [fbind pbind] in HP.
  apply runs_bind in HP as (t5 & rp & t6 & H5 & HP & ->). apply Forall_app in HF as [HF5 HF6].
  apply runs_bind in H5 as (t7 & cont & t8 & H7 & H8 & ->). apply Forall_app in HF5 as [HF7 HF8].
  rewrite Hl in H7, H8. destruct Hp as [D HE].
  assert (Hseqs : from_seq (last_seq h + 1) (Lg ++ DL) = D) by (rewrite HE in HC |- *; by eapply seqs_after).
  rewrite from_seq_app in Hseqs.
  assert (Lg `prefix_of` h \/ exists k, Lg = h ++ k /\ k <> []) as [P|(k & Hk & Hk0)].
  { destruct (prefix_weak_total Lg h (Lg ++ DL)) as [P|[k Hk]]; [by eexists|by exists D|by left|].
    destruct k as [|e k]; [left; by rewrite Hk, app_nil_r|right; eauto]. }
  - rewrite from_seq_none, app_nil_l in Hseqs.
    2: { destruct P as [h1 ->]. pose proof (nl_seqs _ _ (chronicle_numbered _ _ _ _ HC0)) as [HQ _]%Forall_app.
         eapply Forall_impl; [exact HQ|]. cbn beta. intros e [_ He]. lia. }
    rewrite Hseqs in H7, H8. rewrite (continues_fresh h s d0 t0 D t7 cont) in H8; try done.
    destruct H8 as [-> <-]. cbn [fbind pbind] in HP. by eapply (load_rest_snap h D).
  - assert (HD : from_seq (last_seq h + 1) DL = DL).
    { apply from_seq_all, List.Forall_forall. intros e He.
      assert (Hin : List.In e (from_seq (last_seq h + 1) (Lg ++ DL))).
      { rewrite HE. rewrite HE in HC. rewrite (seqs_after _ _ _ _ HC). rewrite Hk, <- app_assoc in HE. apply app_inv_head in HE as <-.
        apply List.in_app_iff. by right. }
      apply List.filter_In in Hin as [_ Hle]. by apply Z.leb_le. }
    rewrite HD in H7, H8. rewrite (skips_fresh h k s d0 t0 t7 cont) in H8; try done.
    apply runs_bind in H8 as (t9 & rr & t10 & H9 & H10 & ->). apply Forall_app in HF8 as [HF9 _].
    rewrite (Hread _ _ H9 HF9) in H10. destruct H10 as [-> <-]. by eapply load_rest_live.
Qed.
End UpToDate.

(** ** What an up-to-date server gives *)

(** The stream of [x] in history [w]: the messages [live], the rest having been
    purged. *)
Record Stream (w : World) (x : string) (live : list (Z * Msg)) (d : option Flow) (Lg DL : list (Z * list FoldEvent)) (T : State)
  : Prop := {
  sm_live : exists gone, w_log w x = gone ++ live /\ length gone = length Lg;
  sm_log : Log w x (Lg ++ DL);
  sm_chronicle : Chronicle x d (Lg ++ DL) T }.

Lemma stream_decisions w x live d Lg DL T : Stream w x live d Lg DL T -> Forall2 (holds_decision w) live DL.
Proof.
  intros [(gone & Hw & Hn) HL _]. unfold Log in HL. rewrite Hw in HL. by apply Forall2_app_inv in HL as [_ ?].
Qed.

Lemma stream_sorted w x live d Lg DL T : Stream w x live d Lg DL T -> StronglySorted Z.lt (fst <$> DL).
Proof.
  intros [_ _ HC]. apply chronicle_sorted in HC. rewrite fmap_app in HC. by apply StronglySorted_app_1_r in HC.
Qed.

Lemma stream_filled w x live d Lg DL T : Stream w x live d Lg DL T -> Forall (fun d => snd d <> []) DL.
Proof. intros [_ _ HC]. by apply chronicle_numbered, nl_some, Forall_app in HC as [_ ?]. Qed.

(** C35. A reader that may ask for more batches than there are messages
    reads exactly the decisions of the stream with a sequence in the range, in
    order, whatever the sizes of the batches. *)
Theorem read_range w x live d Lg DL T from to tr r :
  Stream w x live d Lg DL T -> (length live < cf_Rounds cfg)%nat -> 0 < from -> 0 <= to ->
  Runs (Read cfg x from to) tr r -> Forall (fresh w x live) tr ->
  r = Ok (stamped_all (List.filter (fun d => (from <=? fst d) && ((to =? 0) || (fst d <=? to))) DL)).
Proof.
  intros HS Hn Hf Ht HP HF. pose proof (stream_sorted _ _ _ _ _ _ _ HS) as HO.
  rewrite (Read_fresh _ _ _ _ (stream_decisions _ _ _ _ _ _ _ HS) HO (stream_filled _ _ _ _ _ _ _ HS) from to tr r) by (done || lia).
  rewrite until_sorted by (done || by apply from_seq_sorted). do 2 f_equal. unfold from_seq. clear.
  induction DL as [|e D IH]; [done|]. cbn. destruct (from <=? fst e); cbn; by rewrite IH.
Qed.

(** C6. Loading an execution gives the state after its last decision,
    with its flow and its sequence: whatever snapshot is found (none, an old one,
    or one older than what was purged) and in whatever batches the log comes, as
    long as the stream still holds the decision that bases the state. *)
Theorem load_latest w x live d Lg DL T tr r :
  good w -> Stream w x live d Lg DL T -> (length live < cf_Rounds cfg)%nat ->
  (Lg = [] \/ exists q ev evs, (q, ev :: evs) ∈ DL /\ base_data (ev_Data ev) = true) ->
  Runs (Load cfg x 0) tr r -> Forall (fresh w x live) tr ->
  exists s, r = Ok (s, d) /\ s ≃ T /\ s_LastSeq s = last_seq (Lg ++ DL).
Proof.
  intros HG HS Hn Hb HP HF. eapply (Load_fresh w x live DL); try done.
  - by eapply stream_decisions.
  - by eapply stream_sorted.
  - by eapply stream_filled.
  - apply HS.
  - apply HS.
Qed.
End Fresh.
