(* ===== verification/StateCache.v ===== *)
(** * The state cache ([internal/statecache/statecache.go])

    A bounded map from execution ids to states; when it is full, storing another
    execution evicts an arbitrary entry. *)

From S2P Require Import Prelude Json Flow Event State Server.

Definition DefaultSize : Z := 10000.

Record Cache := { ca_size : Z; ca_m : gmap string Entry }.
Definition set_ca_m (m : gmap string Entry) (c : Cache) : Cache := {| ca_size := ca_size c; ca_m := m |}.

Definition New (size : Z) : Cache := {| ca_size := if size <=? 0 then DefaultSize else size; ca_m := ∅ |}.

Definition Get (x : string) (c : Cache) : option Entry := ca_m c !! x.

(** A full cache. *)
Definition full (x : string) (c : Cache) : bool :=
  bool_decide (ca_m c !! x = None) && (ca_size c <=? Z.of_nat (size (ca_m c))).

(** [Put]; [victim] is the key the range over the map meets first. *)
Definition Put (victim x : string) (e : Entry) (c : Cache) : Cache :=
  let m := if full x c then delete victim (ca_m c) else ca_m c in
  set_ca_m (<[x := e]> m) c.

Definition Drop (x : string) (c : Cache) : Cache := set_ca_m (delete x (ca_m c)) c.

(** An entry holds a pointer to its state: a decision made on the state of an
    entry changes what the cache holds. *)
Definition Decided (x : string) (s : State) (c : Cache) : Cache :=
  set_ca_m (alter (fun ent => {| en_State := s; en_Def := en_Def ent |}) x (ca_m c)) c.

(** The caches of a process. *)
Inductive Used (size : Z) : Cache -> Prop :=
| used_new : Used size (New size)
| used_put v x e c : Used size c -> (full x c = true -> is_Some (ca_m c !! v)) -> Used size (Put v x e c)
| used_drop x c : Used size c -> Used size (Drop x c)
| used_decided x s c : Used size c -> Used size (Decided x s c).

(** However it is used, the cache holds at most as many entries
    as it was made for: the size given, or the default for a size that is not
    positive. *)
Theorem cache_bounded n c :
  Used n c -> ca_size c = (if n <=? 0 then DefaultSize else n) /\ Z.of_nat (size (ca_m c)) <= ca_size c.
Proof.
  induction 1 as [|v x e c _ [Hs IH] Hv|x c _ [Hs IH]|x s c _ [Hs IH]].
  - split; [done|]. cbn. rewrite map_size_empty. destruct (Z.leb_spec n 0); unfold DefaultSize; lia.
  - split; [done|]. unfold Put. cbn [ca_m ca_size set_ca_m]. destruct (full x c) eqn:Ef.
    + destruct (Hv eq_refl) as [ent Hent]. unfold full in Ef. apply andb_prop in Ef as [Hx%bool_decide_eq_true _].
      assert (delete v (ca_m c) !! x = None) by (by apply lookup_delete_None; right).
      rewrite map_size_insert_None, map_size_delete_Some by eauto.
      assert (size (ca_m c) <> 0%nat) by (apply map_size_ne_0_lookup; eauto). lia.
    + unfold full in Ef. rewrite map_size_insert. destruct (ca_m c !! x) eqn:Ex; [done|].
      rewrite bool_decide_eq_true_2 in Ef by done. cbn in Ef. apply Z.leb_gt in Ef. lia.
  - split; [done|]. unfold Drop. cbn [ca_m ca_size set_ca_m]. rewrite map_size_delete. destruct (ca_m c !! x); simpl; lia.
  - split; [done|]. unfold Decided. cbn [ca_m ca_size set_ca_m].
    assert (dom (alter (fun ent => {| en_State := s; en_Def := en_Def ent |}) x (ca_m c)) = dom (ca_m c)) as Hd by apply dom_alter_L.
    rewrite <- (size_dom (D := gset string)), Hd, size_dom. done.
Qed.
