(* ===== verification/Cluster.v ===== *)
(** * Engines that share a server

    Several processes run engines against one server.  In a process, each
    partition of the commands is handled by one goroutine at a time
    ([consume.consumeSerial]), and archives and deletions asked through the API
    run beside them; all share the process's cache.  Between any two calls of a
    program the others run, and a process may stop at any time.  The theorem:
    whatever they do, the log of every execution is a chronicle. *)

From S2P Require Import Prelude Json Hash Names Expr Flow FlowValidate FlowValid FlowGraph Event Cmd Reduce.
From S2P Require Import State StateFacts View Decide DecideRun Sim Codec DecideProps LogProps.
From S2P Require Import Flight Shape ShapeCmds Server EventLog Loader Engine Chronicle LogFold Reading World Safe.
From S2P Require Import SafeLog SafeDecide SafeEngine StateCache.

(** ** The server *)

(** A server: its states, the history of each, and the answers it may give. *)
Class NatsServer `{Registry} := {
  srv : Type;
  history : srv -> World;
  answers : srv -> forall c : Call, Answer c -> srv -> Prop;
  answers_explained s c a s' : answers s c a s' -> explains (history s) c a (history s') }.

Section Cluster.
Context `{HS : NatsServer}.
Context (cfg : Config).

(** ** Processes *)

(** A process: its cache, the handler of each partition with the execution its
    message is for, and the programs started through the API. *)
Record Proc := {
  p_cache : Cache;
  p_handlers : gmap Z (string * Prog unit);
  p_jobs : list (Prog unit) }.

Definition set_p_cache (c : Cache) (P : Proc) : Proc :=
  {| p_cache := c; p_handlers := p_handlers P; p_jobs := p_jobs P |}.
Definition set_p_handlers (h : gmap Z (string * Prog unit)) (P : Proc) : Proc :=
  {| p_cache := p_cache P; p_handlers := h; p_jobs := p_jobs P |}.
Definition set_p_jobs (j : list (Prog unit)) (P : Proc) : Proc :=
  {| p_cache := p_cache P; p_handlers := p_handlers P; p_jobs := j |}.

Definition started (size : Z) : Proc := {| p_cache := New size; p_handlers := ∅; p_jobs := [] |}.

Record Cluster := { cl_srv : srv; cl_procs : list Proc }.

(** ** Calls *)

Definition cache_call (c : Call) : bool :=
  match c with CacheGet _ | CacheDecided _ _ | CachePut _ _ | CacheDrop _ => true | _ => false end.

(** A call of a program of a process: to its cache, or to the server. *)
Inductive act (s : srv) (ca : Cache) : forall c : Call, Answer c -> srv -> Cache -> Prop :=
| act_get x : act s ca (CacheGet x) (Get x ca) s ca
| act_decided x st : act s ca (CacheDecided x st) tt s (Decided x st ca)
| act_put v x ent : act s ca (CachePut x ent) tt s (Put v x ent ca)
| act_drop x : act s ca (CacheDrop x) tt s (Drop x ca)
| act_server c a s' : cache_call c = false -> answers s c a s' -> act s ca c a s' ca.

(** The programs the API starts. *)
Inductive ApiJob : Prog unit -> Prop :=
| job_archive x : ValidToken x = true -> ApiJob (let! _ := Archive cfg x in Ret tt)
| job_delete x : ApiJob (let! _ := Delete cfg x in Ret tt).

(** A step of a process, and of the server with it. *)
Inductive pstep (s : srv) (P : Proc) : srv -> Proc -> Prop :=
| step_deliver p x m :
    Partition x (cf_Partitions cfg) = Ok p -> p_handlers P !! p = None -> addressed (history s) m x ->
    pstep s P s (set_p_handlers (<[p := (x, handle cfg m)]> (p_handlers P)) P)
| step_handler p x c k a s' ca :
    p_handlers P !! p = Some (x, Do c k) -> act s (p_cache P) c a s' ca ->
    pstep s P s' (set_p_cache ca (set_p_handlers (<[p := (x, k a)]> (p_handlers P)) P))
| step_done p x :
    p_handlers P !! p = Some (x, Ret tt) -> pstep s P s (set_p_handlers (delete p (p_handlers P)) P)
| step_job j : ApiJob j -> pstep s P s (set_p_jobs (p_jobs P ++ [j]) P)
| step_job_call i c k a s' ca :
    p_jobs P !! i = Some (Do c k) -> act s (p_cache P) c a s' ca ->
    pstep s P s' (set_p_cache ca (set_p_jobs (<[i := k a]> (p_jobs P)) P))
| step_restart size : pstep s P s (started size).

(** Clients put the bodies of large commands. *)
Inductive cstep (cl : Cluster) : Cluster -> Prop :=
| step_proc i P P' s' :
    cl_procs cl !! i = Some P -> pstep (cl_srv cl) P s' P' ->
    cstep cl {| cl_srv := s'; cl_procs := <[i := P']> (cl_procs cl) |}
| step_client x b a s' :
    answers (cl_srv cl) (BlobPut x (OCommand b)) a s' ->
    cstep cl {| cl_srv := s'; cl_procs := cl_procs cl |}.

Definition empty_history (w : World) : Prop :=
  (forall x, w_log w x = []) /\ (forall n, w_blobs w n = None) /\ (forall x, w_snaps w x = []) /\
  (forall x, w_objs w x = []) /\ (forall n, w_archs w n = []).

(** Clusters that started on an empty server. *)
Inductive Reached : Cluster -> Prop :=
| reached_start s sizes : empty_history (history s) -> Reached {| cl_srv := s; cl_procs := started <$> sizes |}
| reached_step cl cl' : Reached cl -> cstep cl cl' -> Reached cl'.

(** ** The invariant *)

Abbreviation tidy x := (fun (_ : unit) w e => clean w x%string e).

Record proc_ok (w : World) (P : Proc) : Prop := {
  po_handlers p x prog : p_handlers P !! p = Some (x, prog) ->
    Partition x (cf_Partitions cfg) = Ok p /\ safe (Some x) (tidy x) prog w (Get x (p_cache P));
  po_jobs : Forall (fun j => safe None (fun _ _ _ => True) j w None) (p_jobs P);
  po_cache x ent : Get x (p_cache P) = Some ent ->
    entry_ok w x ent \/ exists p prog, Partition x (cf_Partitions cfg) = Ok p /\ p_handlers P !! p = Some (x, prog) }.

Lemma proc_ok_grown w w' P : w ⊑ w' -> good w' -> proc_ok w P -> proc_ok w' P.
Proof.
  intros Hw HG [Hh Hj Hc]. split.
  - intros p x prog Hp. destruct (Hh _ _ _ Hp) as [? HSf]. split; [done|]. by eapply safe_later.
  - eapply Forall_impl; [exact Hj|]. intros j Hsj. by eapply safe_later.
  - intros x ent Hx. destruct (Hc _ _ Hx) as [He|?]; [left; by eapply entry_ok_grown|by right].
Qed.

Lemma explains_cache w c a : cache_call c = true -> explains w c a w.
Proof.
  intros Hc. assert (HP : forall B (l : list B) put, put_only l l put) by (split; auto).
  split; try (by auto); by destruct c.
Qed.

Lemma act_explains s ca c a s' ca' : act s ca c a s' ca' -> explains (history s) c a (history s').
Proof. destruct 1; [by apply explains_cache..|by apply answers_explained]. Qed.

(** What a call does to the entry of execution [x]: as a call of its handler, or
    of any other program. *)
Lemma act_own s ca c a s' ca' x w :
  act s ca c a s' ca' -> allowed (Some x) c w -> cache_step (Some x) c (Get x ca) a (Get x ca').
Proof.
  destruct 1 as [y|y st|v y ent|y|c a s' Hc _]; cbn [allowed cache_step].
  - intros _. split; [done|]. by intros [= <-].
  - intros [= <-]. rewrite bool_decide_eq_true_2 by done. unfold Get, Decided. cbn. by rewrite lookup_alter_eq.
  - intros [[= <-] _]. rewrite bool_decide_eq_true_2 by done. unfold Get, Put. cbn. by rewrite lookup_insert_eq.
  - intros _. unfold Get, Drop. cbn. case_bool_decide as E.
    + injection E as <-. by rewrite lookup_delete_eq.
    + rewrite lookup_delete_ne; [done|]. congruence.
  - intros _. by destruct c.
Qed.

Lemma act_other own s ca c a s' ca' x w :
  act s ca c a s' ca' -> allowed own c w -> own <> Some x -> evicted (Get x ca) (Get x ca').
Proof.
  destruct 1 as [y|y st|v y ent|y|c a s' Hc _]; cbn [allowed]; intros Ha Hx; unfold Get, Decided, Put, Drop; cbn.
  - by left.
  - left. rewrite lookup_alter_ne; [done|]. congruence.
  - destruct Ha as [-> _]. rewrite lookup_insert_ne by congruence. destruct (full y ca); [|by left].
    destruct (base.decide (v = x)) as [->|]; [right; by rewrite lookup_delete_eq|left; by rewrite lookup_delete_ne].
  - destruct (base.decide (y = x)) as [->|]; [right; by rewrite lookup_delete_eq|left; by rewrite lookup_delete_ne].
  - by left.
Qed.

(** *** Steps of a process *)

(** A moment is later than itself. *)
Lemma later_refl w e : good w -> ~ tainted w -> later w w e e.
Proof. by split. Qed.

Lemma handler_call_ok s P p x c k a s' ca :
  good (history s) -> ~ tainted (history s') -> proc_ok (history s) P ->
  p_handlers P !! p = Some (x, Do c k) -> act s (p_cache P) c a s' ca ->
  good (history s') /\ proc_ok (history s') (set_p_cache ca (set_p_handlers (<[p := (x, k a)]> (p_handlers P)) P)).
Proof.
  intros HG HT [Hh Hj Hc] Hp Hact. pose proof (act_explains _ _ _ _ _ _ Hact) as HE.
  pose proof (explains_grown _ _ _ _ HE) as Hw. destruct (Hh _ _ _ Hp) as [Hpart HSf].
  assert (HT0 : ~ tainted (history s)) by (intros ?; by eapply HT, tainted_grown).
  destruct (HSf _ _ (later_refl _ _ HG HT0)) as [Ha Hk]. pose proof (good_explains _ _ _ _ _ HG Ha HE HT) as HG'.
  split; [done|]. split; cbn [p_handlers p_cache p_jobs set_p_cache set_p_handlers].
  - intros p' x' prog. destruct (base.decide (p' = p)) as [->|Hne].
    + rewrite lookup_insert_eq. intros [= <- <-]. split; [done|]. apply Hk; [done..|]. by eapply act_own.
    + rewrite lookup_insert_ne by done. intros Hp'. destruct (Hh _ _ _ Hp') as [Hpart' HSf']. split; [done|].
      eapply safe_later; [exact Hw| |exact HSf']. eapply act_other; [exact Hact|exact Ha|]. congruence.
  - eapply Forall_impl; [exact Hj|]. intros j Hsj. by eapply safe_later.
  - intros y ent Hy. destruct (base.decide (y = x)) as [->|Hne].
    { right. exists p, (k a). split; [done|]. by rewrite lookup_insert_eq. }
    assert (HEv : evicted (Get y (p_cache P)) (Get y ca)) by (eapply act_other; [exact Hact|exact Ha|congruence]).
    rewrite Hy in HEv. destruct HEv as [HEv|]; [|done]. destruct (Hc y ent (eq_sym HEv)) as [He|(p' & prog & Hpart' & Hp')].
    + left. by eapply entry_ok_grown.
    + right. exists p', prog. split; [done|]. rewrite lookup_insert_ne; [done|]. intros ->. congruence.
Qed.

Lemma job_call_ok s P i c k a s' ca :
  good (history s) -> ~ tainted (history s') -> proc_ok (history s) P ->
  p_jobs P !! i = Some (Do c k) -> act s (p_cache P) c a s' ca ->
  good (history s') /\ proc_ok (history s') (set_p_cache ca (set_p_jobs (<[i := k a]> (p_jobs P)) P)).
Proof.
  intros HG HT [Hh Hj Hc] Hi Hact. pose proof (act_explains _ _ _ _ _ _ Hact) as HE.
  pose proof (explains_grown _ _ _ _ HE) as Hw.
  assert (HT0 : ~ tainted (history s)) by (intros ?; by eapply HT, tainted_grown).
  pose proof Hj as Hj'. rewrite Forall_lookup in Hj'. pose proof (Hj' _ _ Hi) as HSf.
  destruct (HSf _ _ (later_refl _ _ HG HT0)) as [Ha Hk]. pose proof (good_explains _ _ _ _ _ HG Ha HE HT) as HG'.
  assert (HEv : forall y, evicted (Get y (p_cache P)) (Get y ca)) by (intros y; by eapply act_other).
  split; [done|]. split; cbn [p_handlers p_cache p_jobs set_p_cache set_p_jobs].
  - intros p' x' prog Hp'. destruct (Hh _ _ _ Hp') as [Hpart' HSf']. split; [done|].
    eapply safe_later; [exact Hw|apply HEv|exact HSf'].
  - apply Forall_insert; [eapply Forall_impl; [exact Hj|]; intros j Hsj; by eapply safe_later|].
    apply (Hk a (history s') None); [done..|]. clear -Hact Ha. destruct Hact; cbn [allowed cache_step] in *; try done; try (by destruct Ha).
    match goal with Hc : cache_call ?c = false |- _ => by destruct c end.
  - intros y ent Hy. specialize (HEv y). rewrite Hy in HEv. destruct HEv as [HEv|]; [|done].
    destruct (Hc y ent (eq_sym HEv)) as [He|?]; [left; by eapply entry_ok_grown|by right].
Qed.

Lemma job_safe j w : ApiJob j -> good w -> safe None (fun _ _ _ => True) j w None.
Proof.
  intros Hj HG. destruct Hj as [x Hx|x]; (eapply plain_seq; [by apply Archive_safe || by apply Delete_safe|]);
    intros; by apply plain_ret.
Qed.

Lemma pstep_ok s P s' P' :
  good (history s) -> ~ tainted (history s') -> proc_ok (history s) P -> pstep s P s' P' ->
  good (history s') /\ history s ⊑ history s' /\ proc_ok (history s') P'.
Proof.
  intros HG HT HP HSt. destruct HSt as [p x m Hpart Hn Haddr|p x c k a s' ca Hp Hact|p x Hp|j Hj|i c k a s' ca Hi Hact|size].
  - split; [done|]. split; [done|]. destruct HP as [Hh Hj Hc]. split; cbn [p_handlers p_cache p_jobs set_p_handlers].
    + intros p' x' prog. destruct (base.decide (p' = p)) as [->|Hne].
      * rewrite lookup_insert_eq. intros [= <- <-]. split; [done|]. apply handle_safe; [done|done|].
        intros ent He. destruct (Hc _ _ He) as [?|(p' & prog & Hpart' & Hp')]; [done|]. congruence.
      * rewrite lookup_insert_ne by done. apply Hh.
    + done.
    + intros y ent Hy. destruct (Hc _ _ Hy) as [?|(p' & prog & Hpart' & Hp')]; [by left|right]. exists p', prog.
      split; [done|]. rewrite lookup_insert_ne; [done|]. congruence.
  - destruct (handler_call_ok _ _ _ _ _ _ _ _ _ HG HT HP Hp Hact) as [HG' HP']. split; [done|]. split; [|done].
    by eapply explains_grown, act_explains.
  - split; [done|]. split; [done|]. destruct HP as [Hh Hj Hc]. split; cbn [p_handlers p_cache p_jobs set_p_handlers].
    + intros p' x' prog [_ Hp']%lookup_delete_Some. by apply Hh.
    + done.
    + intros y ent Hy. destruct (Hc _ _ Hy) as [?|(p' & prog & Hpart' & Hp')]; [by left|].
      destruct (base.decide (p' = p)) as [->|Hne]; [|right; exists p', prog; split; [done|]; by rewrite lookup_delete_ne].
      left. rewrite Hp in Hp'. injection Hp' as -> <-. destruct (Hh _ _ _ Hp) as [_ HSf].
      exact (HSf _ _ (later_refl _ _ HG HT) _ Hy).
  - split; [done|]. split; [done|]. destruct HP as [Hh Hjs Hc]. split; try done. cbn [p_jobs set_p_jobs].
    apply Forall_app. split; [done|]. constructor; [by apply job_safe|constructor].
  - destruct (job_call_ok _ _ _ _ _ _ _ _ HG HT HP Hi Hact) as [HG' HP']. split; [done|]. split; [|done].
    by eapply explains_grown, act_explains.
  - split; [done|]. split; [done|]. split; cbn [p_handlers p_cache p_jobs started].
    + by intros p x prog.
    + constructor.
    + by intros x ent.
Qed.

(** *** Clusters *)

Record cluster_ok (cl : Cluster) : Prop := {
  co_good : good (history (cl_srv cl));
  co_procs : Forall (proc_ok (history (cl_srv cl))) (cl_procs cl) }.

Lemma empty_good w : empty_history w -> good w.
Proof.
  intros (Hl & Hb & Hs & Ho & Ha). split.
  - intros x. exists None, [], (NewState x). split; [|constructor]. unfold Log. rewrite Hl. constructor.
  - intros x. by rewrite Hl.
  - intros n o. by rewrite Hb.
  - intros x v Hv. rewrite Hs in Hv. by apply elem_of_nil in Hv.
  - intros x st Hv. rewrite Ho in Hv. by apply elem_of_nil in Hv.
  - intros n l Hv. rewrite Ha in Hv. by apply elem_of_nil in Hv.
Qed.

Lemma started_ok w size : proc_ok w (started size).
Proof. split; [by intros|constructor|by intros]. Qed.

(** Whatever happens, the cluster keeps its invariant, unless an irregular
    decision was stored. *)
Lemma reached_ok cl : Reached cl -> ~ tainted (history (cl_srv cl)) -> cluster_ok cl.
Proof.
  induction 1 as [s sizes He|cl cl' _ IH HSt]; intros HT.
  { split; [by apply empty_good|]. apply Forall_fmap, Forall_true. intros size. apply started_ok. }
  destruct HSt as [i P P' s' Hi HSt|x b a s' Hans]; cbn [cl_srv cl_procs] in *.
  - assert (HT0 : ~ tainted (history (cl_srv cl))).
    { intros Ht. apply HT. eapply tainted_grown; [|exact Ht].
      destruct HSt; try reflexivity; by eapply explains_grown, act_explains. }
    destruct (IH HT0) as [HG HP]. pose proof HP as HP'. rewrite Forall_lookup in HP'.
    destruct (pstep_ok _ _ _ _ HG HT (HP' _ _ Hi) HSt) as (HG' & Hw & HPi). split; [done|]. cbn [cl_srv cl_procs].
    apply Forall_insert; [|done]. eapply Forall_impl; [exact HP|]. intros Q HQ. by eapply proc_ok_grown.
  - pose proof (answers_explained _ _ _ _ Hans) as HE. pose proof (explains_grown _ _ _ _ HE) as Hw.
    assert (HT0 : ~ tainted (history (cl_srv cl))) by (intros ?; by eapply HT, tainted_grown).
    destruct (IH HT0) as [HG HP]. pose proof (good_explains None _ (BlobPut x (OCommand b)) _ _ HG I HE HT) as HG'.
    split; [done|]. cbn [cl_srv cl_procs]. eapply Forall_impl; [exact HP|]. intros Q HQ. by eapply proc_ok_grown.
Qed.

(** ** What the cluster promises *)

(** C4. Whatever engines run against a server, however their
    calls interleave, whatever replicas lag, caches evict and processes crash,
    the log of every execution is a chronicle: decisions one after the other,
    each made on the state all the decisions before it lead to.  This is for
    histories in which no irregular decision was stored, for any execution: no id
    opened again after its log was purged, no fork of nothing, no late failure of a
    decision too large. *)
Theorem logs_are_chronicles cl x :
  Reached cl -> ~ tainted (history (cl_srv cl)) ->
  exists d L t, Log (history (cl_srv cl)) x L /\ Chronicle x d L t.
Proof. intros Hr HT. by apply (g_log _ (co_good _ (reached_ok _ Hr HT))). Qed.

(** C5. Every log can be read, in a history without irregular decisions
    (none of any execution: no id opened again after its log was purged, no fork of
    a state that does not exist, no failure, decided late, that replaces a decision
    too large): its first event is a start or a fork, its events are numbered from
    one without a gap, and folding them under a registered flow succeeds, with a
    state of that execution in which nothing waits for ever. *)
Theorem logs_fold cl x :
  Reached cl -> ~ tainted (history (cl_srv cl)) -> w_log (history (cl_srv cl)) x <> [] ->
  exists L def t ev rest, Log (history (cl_srv cl)) x L /\ registered def /\
    Fold (Some def) x (events L) = Ok t /\ s_ExecID t = x /\ standing def t /\
    s_Events t = len (events L) /\ indexed_from 0 (events L) /\
    events L = ev :: rest /\ opens (ev_Data ev) = true.
Proof.
  intros Hr HT Hne. destruct (g_log _ (co_good _ (reached_ok _ Hr HT)) x) as (d & L & t & HL & HC).
  pose proof (chronicle_annals _ _ _ _ HC) as [Hx HA]. pose proof (chronicle_numbered _ _ _ _ HC) as HN.
  destruct L as [|[q evs] L]; [by inversion HL as [E|]; rewrite <- E in Hne|].
  destruct (chronicle_opened _ _ _ _ _ _ HC) as (ev & rest & -> & Ho & _).
  destruct d as [def|]; [|by destruct HA]. destruct HA as (_ & Hreg & [HSt _] & _).
  exists ((q, ev :: rest) :: L), def, t, ev, (rest ++ events L). split; [done|]. split; [done|].
  split; [rewrite Fold_replay by (by eapply chronicle_unstored); eapply chronicle_replay; eauto|].
  split; [done|]. split; [done|]. split; [apply HN|]. split; [apply HN|]. done.
Qed.

(** C32. What a process keeps in its cache is right, in a history
    without irregular decisions (of any execution, see [tainted]): an entry no handler is
    deciding on is the state of the execution as of some decision of
    its log, or a final state. *)
Theorem cache_coherent cl P x ent :
  Reached cl -> ~ tainted (history (cl_srv cl)) -> P ∈ cl_procs cl -> Get x (p_cache P) = Some ent ->
  (forall p prog, p_handlers P !! p <> Some (x, prog)) ->
  (exists L, Log (history (cl_srv cl)) x L /\ as_of x L (en_State ent)) \/ Terminal (s_Status (en_State ent)) = true.
Proof.
  intros Hr HT HP He Hno. pose proof (co_procs _ (reached_ok _ Hr HT)) as HF. rewrite Forall_forall in HF.
  destruct (po_cache _ _ (HF _ HP) _ _ He) as [[[Hk _]|[_ Ht]]|(p & prog & _ & Hp)]; [by left|by right|]. by destruct (Hno p prog).
Qed.

(** C33. Snapshots and archives agree with the logs, in a history
    without irregular decisions (of any execution, see [tainted]): a snapshot ever
    stored for an execution is its state as of some decision, and an archive
    object ever stored decodes to whole decisions of the execution it is named
    after. *)
Theorem stores_agree cl :
  Reached cl -> ~ tainted (history (cl_srv cl)) ->
  (forall x s, SState (Some s) ∈ w_snaps (history (cl_srv cl)) x \/ Some s ∈ w_objs (history (cl_srv cl)) x ->
    exists L, Log (history (cl_srv cl)) x L /\ as_of x L s) /\
  (forall n l, l ∈ w_archs (history (cl_srv cl)) n ->
    exists x L evs, archive_name x n /\ Log (history (cl_srv cl)) x L /\ unarchive l = Ok evs /\ whole L evs).
Proof.
  intros Hr HT. pose proof (co_good _ (reached_ok _ Hr HT)) as HG. split.
  - intros x s [Hs|Hs]; [apply (g_snaps _ HG) in Hs; by destruct (Hs s eq_refl)|by destruct (g_objs _ HG _ _ Hs)].
  - intros n l (x & _ & Hn & evs & Hu & L & HL & HW)%(g_archs _ HG). eauto 10.
Qed.
End Cluster.
