(* ===== verification/Samples.v ===== *)
(** * Sample executions

    Small flows and lives of executions, run by evaluating the definitions.  They
    show that the hypotheses of the theorems can hold, and exhibit the behaviours
    reported as findings. *)

From S2P Require Import Prelude Json Hash Names Expr Flow FlowValidate FlowValid Event Cmd Reduce State.
From S2P Require Import StateFacts.
From S2P Require Import View Decide Writes JoinPolicy Numbering DecideRun DecideOps Routing.
From S2P Require Import DecideProps Redelivery FlowProps NamesProps LogProps Executions.

(** ** An evaluator for the samples

    Sources are looked up in a table; every output matches every schema; a flow
    encodes to its name. *)
Definition vm_table (p : Program) (env : VEnv) : Text + Json :=
  if String.eqb (p_src p) "true" then inr (JBool true)
  else if String.eqb (p_src p) "false" then inr (JBool false)
  else if String.eqb (p_src p) "[1, 2, 3]" then inr (JArr [JNum (NInt 1); JNum (NInt 2); JNum (NInt 3)])
  else inl (TStr "undefined").

#[export] Instance sample_evaluator : Evaluator := {|
  vm_Run := vm_table; schema_Validate := fun _ _ => None; marshal_flow := fun f => Some (f_Name f);
  render := fun t => match t with TStr s => s | Sprintf fmt _ => fmt end |}.

Definition program (src : string) (pred : bool) : Program :=
  {| p_src := src; p_bytecode := [OpOther 0]; p_pred := pred |}.

(** ** Flows *)

Definition node_with (id type next : string) (timeout : Z) (retry : option Retry) (branches : list string)
    (policy signal over : string) (parallel : Z) (rules : list Rule) : Node := {|
  n_ID := id; n_Type := type; n_Next := next; n_OnFailure := ""; n_Meta := None;
  n_Kind := if String.eqb type NodeTask || String.eqb type NodeMap then "work" else "";
  n_Timeout := timeout; n_Retry := retry; n_OutputSchema := None; n_Cache := None; n_Concurrency := None;
  n_Dynamic := []; n_Rules := rules; n_OnError := ""; n_Branches := branches; n_WaitFor := [];
  n_Policy := policy; n_Signal := signal; n_OnTimeout := ""; n_Over := over; n_MaxParallel := parallel;
  n_Flow := ""; n_Input := ""; n_OnParentClose := "";
  n_rules := List.map (fun r => if ru_Default r then None else Some (program (ru_When r) true)) rules;
  n_over := if String.eqb over "" then None else Some (program over false);
  n_input := None; n_conc := None; n_schema := None; n_meta := None |}.

Definition three_attempts : Retry :=
  {| r_MaxAttempts := 3; r_Backoff := BackoffLinear; r_Delay := Second; r_MaxDelay := 0 |}.

Definition task (id next : string) : Node :=
  node_with id NodeTask next (30 * Second) (Some three_attempts) [] "" "" "" 0 [].
Definition fan (id : string) (branches : list string) : Node :=
  node_with id NodeFanout "" 0 None branches "" "" "" 0 [].
Definition join (id policy : string) : Node := node_with id NodeJoin "" 0 None [] policy "" "" 0 [].
Definition map_node (id over : string) (parallel : Z) : Node :=
  node_with id NodeMap "" 0 None [] "" "" over parallel [].
Definition await_node (id signal : string) : Node :=
  node_with id NodeAwait "" (60 * Second) None [] "" signal "" 0 [].
Definition choice (id : string) (rules : list Rule) : Node :=
  node_with id NodeChoice "" 0 None [] "" "" "" 0 rules.

(** A flow from its nodes: the index a validated flow carries. *)
Definition flow (name : string) (nodes : list Node) (joinOf : list (string * string)) (budget : list (string * Z))
    (maxSteps : Z) : Flow := {|
  f_Version := "1"; f_Name := name; f_Description := ""; f_Start := "";
  f_Channels := ∅; f_Output := ""; f_Nodes := nodes;
  f_Budget := list_to_map (List.map (fun '(k, b) => (k, dec_float false b 0)) budget); f_MaxSteps := maxSteps;
  f_SearchAttributes := ∅;
  f_Retention := 0; f_OnExpire := ""; f_ArchiveRetention := 0; f_Triggers := [];
  f_byID := list_to_map (imap (fun i n => (n_ID n, i)) nodes);
  f_startID := match nodes with n :: _ => n_ID n | [] => "" end;
  f_branchOf := ∅; f_joinOf := list_to_map joinOf; f_attrs := ∅; f_output := None |}.

(** ** Commands *)

Definition command (t : CmdType) (id : string) (members : list (string * Json)) : Command := {|
  c_ID := id; c_Type := t; c_ExecID := "x"; c_Time := 0; c_Data := Some (JObj members); c_Reply := "" |}.

Definition start_cmd (flow : string) : Command := command CStart "c-start" [("flow", JStr flow)].
Definition complete_cmd (id key : string) (gen att : Z) (tokens : Z) : Command :=
  command CComplete id [("key", JStr key); ("generation", JNum (NInt gen)); ("attempt", JNum (NInt att));
    ("output", JObj [("ok", JBool true)]); ("usage", JObj [("tokens", JNum (NInt tokens))])].
Definition fail_cmd (id key : string) (gen att : Z) : Command :=
  command CFail id [("key", JStr key); ("generation", JNum (NInt gen)); ("attempt", JNum (NInt att));
    ("error", JStr "boom"); ("retryable", JBool true)].
Definition interrupt_cmd (id key : string) (gen att : Z) : Command :=
  command CInterrupt id [("key", JStr key); ("generation", JNum (NInt gen)); ("attempt", JNum (NInt att))].
Definition resume_cmd (id node : string) : Command := command CResume id [("node", JStr node)].
Definition signal_cmd (id name : string) : Command :=
  command CSignal id [("name", JStr name); ("payload", JNum (NInt 1))].
Definition cancel_cmd (id : string) : Command := command CCancel id [].

(** ** Running *)

(** The state after a list of commands, one second apart, and the log. *)
Fixpoint run (def : Flow) (now : Z) (cs : list Command) (log : list FoldEvent) (st : State)
  : result (list FoldEvent * State) :=
  match cs with
  | [] => Ok (log, st)
  | c :: cs' =>
      let? es := Decide def st c now in
      run def (now + Second) cs' (log ++ fst es) (snd es)
  end.

Definition is_ok {A} (r : result A) : bool := match r with Ok _ => true | Err _ => false end.
Definition value {A} (d : A) (r : result A) : A := match r with Ok a => a | Err _ => d end.

Lemma is_ok_value {A} (d : A) r : is_ok r = true -> r = Ok (value d r).
Proof. by destruct r. Qed.

Definition none : list FoldEvent * State := ([], NewState "").

(** What a run leaves is a life. *)
Lemma run_life def id now cs log st log' st' :
  Life def id log st -> run def now cs log st = Ok (log', st') -> Life def id log' st'.
Proof.
  revert now log st. induction cs as [|c cs IH]; intros now log st HL; simpl.
  - by intros [= <- <-].
  - intros ([evs st1] & HD & HR)%res_bind_ok. eapply IH, HR. eapply life_step; [done|]. by eapply step_decide.
Qed.

Definition play (def : Flow) (cs : list Command) : result (list FoldEvent * State) :=
  run def Second cs [] (NewState "x").
Definition played (def : Flow) (cs : list Command) : list FoldEvent * State := value none (play def cs).

Lemma play_life def cs :
  is_ok (play def cs) = true -> Life def "x" (fst (played def cs)) (snd (played def cs)).
Proof.
  intros Hok. apply (run_life def "x" Second cs [] (NewState "x")); [constructor|].
  fold (play def cs). rewrite (is_ok_value none (play def cs) Hok). unfold played.
  by destruct (value none (play def cs)).
Qed.

(** *** The samples *)

(** One task, with a budget of ten tokens. *)
Definition greet : Flow := flow "greet" [task "hello" ""] [] [("tokens", 10)] 0.
(** Two branches, the first to succeed wins. *)
Definition race : Flow := flow "race" [fan "f" ["a"; "b"]; join "j" "any"; task "a" ""; task "b" ""] [("f", "j")] [] 2.
(** A map over three items, two at a time. *)
Definition batch : Flow := flow "batch" [map_node "m" "[1, 2, 3]" 2] [] [] 0.

Example greet_started :
  is_ok (play greet [start_cmd "greet"]) = true /\
  (ev_Type <$> fst (played greet [start_cmd "greet"])) =
    [ExecutionStarted; NodeEntered; NodeScheduled; TimerScheduled].
Proof. vm_compute. done. Qed.

Example greet_completed :
  (ev_Type <$> fst (played greet [start_cmd "greet"; complete_cmd "c1" "hello" 1 1 3])) =
    [ExecutionStarted; NodeEntered; NodeScheduled; TimerScheduled; NodeCompleted; ExecutionCompleted].
Proof. vm_compute. done. Qed.

(** ** Findings *)

Definition started_race : list Command := [start_cmd "race"].

(** The recursion limit is documented as a bound on all node entries, but branches of a
    fan-out and joins are entered without the check: with [max_steps] 2, an
    execution of the flow [race] completes after four entries. *)
Theorem max_steps_exceeded :
  exists log st, Life race "x" log st /\ s_Status st = StatusCompleted /\
    MaxStepsOrDefault race = 2 /\ s_Steps st = 4.
Proof.
  exists (fst (played race [start_cmd "race"; complete_cmd "c1" "a" 1 1 0])),
    (snd (played race [start_cmd "race"; complete_cmd "c1" "a" 1 1 0])).
  split; [by apply play_life; vm_compute|]. vm_compute. done.
Qed.

(** Two tasks, with a budget of one for the counter [steps]. *)
Definition two_steps : Flow := flow "two" [task "a" "b"; task "b" ""] [] [("steps", 1)] 0.

(** A budget on the counter [steps], documented as built in, is never exceeded by node
    entries: an execution with a budget of one step enters two nodes and
    completes; its counters do not mention steps. *)
Theorem steps_budget_ignored :
  exists log st, Life two_steps "x" log st /\ s_Status st = StatusCompleted /\ s_Steps st = 2 /\
    f_Budget two_steps !! "steps" = Some (dec_float false 1 0) /\ s_Counters st !! "steps" = None.
Proof.
  exists (fst (played two_steps [start_cmd "two"; complete_cmd "c1" "a" 1 1 0; complete_cmd "c2" "b" 3 1 0])),
    (snd (played two_steps [start_cmd "two"; complete_cmd "c1" "a" 1 1 0; complete_cmd "c2" "b" 3 1 0])).
  split; [by apply play_life; vm_compute|]. vm_compute. done.
Qed.

(** Two items of a map wait for a resume. *)
Definition two_interrupted : list Command :=
  [start_cmd "batch"; interrupt_cmd "c1" "m#0" 1 1; interrupt_cmd "c2" "m#1" 2 1].

(** Not every command is idempotent: a resume that names only the node, delivered twice to
    an execution with two interrupted items, resumes one item each time. *)
Theorem resume_redelivered_resumes_again :
  exists log st evs1 st1 evs2 st2, Life batch "x" log st /\
    Decide batch st (resume_cmd "r" "m") (9 * Second) = Ok (evs1, st1) /\
    Decide batch st1 (resume_cmd "r" "m") (9 * Second) = Ok (evs2, st2) /\
    (ev_Type <$> evs1) = [NodeScheduled] /\ (ev_Type <$> evs2) = [NodeScheduled].
Proof.
  set (r0 := played batch two_interrupted).
  set (r1 := value none (Decide batch (snd r0) (resume_cmd "r" "m") (9 * Second))).
  set (r2 := value none (Decide batch (snd r1) (resume_cmd "r" "m") (9 * Second))).
  exists (fst r0), (snd r0), (fst r1), (snd r1), (fst r2), (snd r2).
  split; [by apply play_life; vm_compute|].
  split; [rewrite <- surjective_pairing; apply is_ok_value; vm_compute; done|].
  split; [rewrite <- surjective_pairing; apply is_ok_value; vm_compute; done|].
  vm_compute. done.
Qed.

(** The first of two tasks completed without an output. *)
Definition silent_cmd : Command :=
  command CComplete "c1" [("key", JStr "a"); ("generation", JNum (NInt 1)); ("attempt", JNum (NInt 1))].
Definition sample_segment : Segment := {|
  Segment_Object := "o"; Segment_FirstIndex := 1; Segment_LastIndex := 8; Segment_FirstSeq := 1;
  Segment_LastSeq := 8 |}.

(** A continuation is documented to carry results over unchanged, but a node that completed
    without an output has no result before it ([ErrNoValue]) and the result null
    after it: the state is encoded to JSON and decoded again, and an absent
    value is encoded as null. *)
Theorem continue_turns_absent_into_null :
  exists log st evs st', Life two_steps "x" log st /\
    Continue two_steps st sample_segment "k" (9 * Second) = Ok (evs, st') /\
    Result Some st "a" = inl (ErrNoValue "result of a") /\ Result Some st' "a" = inr JNull.
Proof.
  set (r0 := played two_steps [start_cmd "two"; silent_cmd]).
  set (r1 := value none (Continue two_steps (snd r0) sample_segment "k" (9 * Second))).
  exists (fst r0), (snd r0), (fst r1), (snd r1).
  split; [by apply play_life; vm_compute|].
  split; [rewrite <- surjective_pairing; apply is_ok_value; vm_compute; done|].
  vm_compute. done.
Qed.

(** ** A definition as its author writes it, validated

    Every expression of the samples compiles to one instruction, every schema
    compiles. *)
Definition compile_any (src : string) (pred : bool) : Text + list Expr.Op := inr [OpOther 0].
Definition schema_any (doc : Json) : option Text := None.

Definition pipeline_source : Flow :=
  let f := flow "pipeline" [
    bare (choice "c" [{| ru_Name := ""; ru_When := "true"; ru_Default := false; ru_To := "a" |};
                      {| ru_Name := ""; ru_When := ""; ru_Default := true; ru_To := End_ |}]);
    task "a" "f";
    node_with "f" NodeFanout "j" 0 None ["x"; "y"] "" "" "" 0 [];
    task "x" ""; task "y" "";
    node_with "j" NodeJoin "m" 0 None [] "any" "" "" 0 [];
    bare (node_with "m" NodeMap "w" 0 None [] "" "" "[1, 2, 3]" 2 []);
    await_node "w" "go"] [] [] 0 in
  f |> set_f_byID ∅ |> set_f_startID "".

Definition pipeline : Flow :=
  match FlowValidate.Validate compile_any schema_any pipeline_source with Ok (_, f) => f | Err _ => pipeline_source end.

Example pipeline_valid : FlowValidate.Validate compile_any schema_any pipeline_source = Ok ([], pipeline).
Proof. vm_compute. reflexivity. Qed.

(** The same with a route to a node that does not exist: a list of problems. *)
Example typo_refused :
  match FlowValidate.Validate compile_any schema_any
          (pipeline_source |> set_f_Nodes (task "z" "nowhere" :: f_Nodes pipeline_source)) with
  | Ok (p, _) => ve_Field <$> p
  | Err _ => []
  end = ["next"].
Proof. vm_compute. reflexivity. Qed.

Lemma play_lineage def cs : is_ok (play def cs) = true -> Lineage def (snd (played def cs)).
Proof. intros Hok. eapply life_lineage, play_life, Hok. Qed.
