(* ===== verification/SampleServer.v ===== *)
(** * A server in memory, and engines that run against it

    A registry with one flow and a server that keeps everything, which is what
    [NatsServer] asks for; programs run against it by evaluation, and a cluster
    that handled commands is [Reached]. *)

From S2P Require Import Prelude Json Hash Names Expr Flow FlowValidate FlowValid FlowGraph Event Cmd Reduce Wire.
From S2P Require Import State StateFacts View Decide DecideRun Sim Codec DecideProps LogProps.
From S2P Require Import Flight Shape ShapeCmds Server EventLog Loader Engine Deliveries Chronicle LogFold Reading World Safe.
From S2P Require Import SafeLog SafeDecide SafeEngine Fresh StateCache Cluster Samples.

(** ** A registry *)

Definition pipeline_hash : string := value "" (FlowHash pipeline).

Definition sample_flows (n h : string) : option Flow :=
  if String.eqb n (f_Name pipeline) && String.eqb h pipeline_hash then Some pipeline else None.

Lemma sample_flows_inv n h def : sample_flows n h = Some def -> n = f_Name pipeline /\ h = pipeline_hash /\ def = pipeline.
Proof.
  unfold sample_flows. destruct (String.eqb_spec n (f_Name pipeline)) as [E1|]; [|discriminate 1].
  destruct (String.eqb_spec h pipeline_hash) as [E2|]; [|discriminate 1]. intros E%(inj Some). auto.
Qed.

Lemma sample_identity n h def : sample_flows n h = Some def -> f_Name def = n /\ FlowHash def = Ok h.
Proof. intros (-> & -> & ->)%sample_flows_inv. split; [reflexivity|]. apply is_ok_value. vm_compute. reflexivity. Qed.

Lemma sample_valid n h def : sample_flows n h = Some def -> valid def.
Proof. intros (_ & _ & ->)%sample_flows_inv. exact (Validate_valid compile_any schema_any _ _ pipeline_valid). Qed.

#[export] Instance sample_registry : Registry :=
  {| flows := sample_flows; flows_identity := sample_identity; flows_valid := sample_valid |}.

(** ** A server *)

Record Memory := {
  mm_log : gmap string (list (Z * Msg));
  mm_snaps : gmap string (list SnapValue);
  mm_archs : gmap string (list (list ArchivedEvent)) }.

Definition entries {A} (m : gmap string (list A)) (x : string) : list A := default [] (m !! x).
Definition add_entry {A} (x : string) (a : A) (m : gmap string (list A)) : gmap string (list A) :=
  <[x := entries m x ++ [a]]> m.

Lemma add_entry_at {A} x (a : A) m y : entries (add_entry x a m) y = if String.eqb y x then entries m x ++ [a] else entries m y.
Proof.
  unfold add_entry, entries. destruct (String.eqb_spec y x) as [->|Hne]; [by rewrite lookup_insert_eq|].
  by rewrite lookup_insert_ne.
Qed.

Definition memory_world (s : Memory) : World := {|
  w_log := entries (mm_log s); w_blobs := fun _ => None; w_snaps := entries (mm_snaps s); w_objs := fun _ => [];
  w_archs := entries (mm_archs s) |}.

Definition no_blobs : error := plain "no blob store".

(** What the server answers, and keeps. *)
Definition serve (s : Memory) (c : Call) : Answer c * Memory :=
  match c return Answer c * Memory with
  | Now => (Second, s)
  | EvPublish x expected m =>
      if expected =? last_seq (entries (mm_log s) x) then
        let q := expected + 1 in
        (PubAck q, {| mm_log := add_entry x (q, m) (mm_log s); mm_snaps := mm_snaps s; mm_archs := mm_archs s |})
      else (PubWrongSeq, s)
  | EvDirectGet x from => (Ok (List.filter (fun qm => from <=? fst qm) (entries (mm_log s) x), false), s)
  | EvFirst x => (Ok (fst <$> head (entries (mm_log s) x)), s)
  | EvLast x => (Ok (fst <$> last (entries (mm_log s) x)), s)
  | EvPurge _ _ => (Err (plain "nothing is purged"), s)
  | DispatchFloor _ => (Ok None, s)
  | BlobPut _ _ => (Err no_blobs, s)
  | BlobGet _ => (NotThere, s)
  | SnapBlobPut _ _ => (Err no_blobs, s)
  | SnapGet x => (Ok (last (entries (mm_snaps s) x)), s)
  | SnapPut x v => (Ok tt, {| mm_log := mm_log s; mm_snaps := add_entry x v (mm_snaps s); mm_archs := mm_archs s |})
  | SnapPurge _ => (Ok tt, s)
  | ArchGet n => (match last (entries (mm_archs s) n) with Some l => Got l | None => NotThere end, s)
  | ArchInfo n => (match last (entries (mm_archs s) n) with Some l => Got tt | None => NotThere end, s)
  | ArchPut n l => (Ok tt, {| mm_log := mm_log s; mm_snaps := mm_snaps s; mm_archs := add_entry n l (mm_archs s) |})
  | ArchErase _ => (Ok tt, s)
  | FlowsGet n h =>
      (if String.eqb n (f_Name pipeline) && (String.eqb h "" || String.eqb h pipeline_hash) then Ok pipeline
       else Err (Error [ErrUnknownFlow] "unknown flow"), s)
  | CacheGet _ => (None, s)
  | CacheDecided _ _ | CachePut _ _ | CacheDrop _ => (tt, s)
  | Perform _ => (Ok tt, s)
  | KvGet _ => (Ok None, s)
  | KvPut _ _ | KvUpdate _ _ _ | KvDelete _ | KvErase _ => (Ok tt, s)
  | KvList _ => (Ok [], s)
  | ResultGet _ => (NotThere, s)
  | QuarantineHas _ => (false, s)
  | QuarantineSet _ _ | HeadPut _ _ | HeadDrop _ => (tt, s)
  | HeadView _ _ => (None, s)
  | EvLastTypes _ => (Ok None, s)
  | SemGet _ => (Ok None, s)
  | SemPut _ _ _ => (Ok tt, s)
  | WaiterClaim _ => (true, s)
  | WaiterRelease _ => (tt, s)
  | Wait _ => (false, s)
  | RunJob _ _ => ((HResult None, false), s)
  | Attach => (Ok tt, s)
  | Attached => (true, s)
  | CtxErr => (None, s)
  | NewID => ("fresh", s)
  | OpenInbox => (Ok "inbox", s)
  | NextReply _ => (Replied (Some {| rp_OK := true; rp_Seq := 1; rp_Joined := false; rp_Code := ""; rp_Error := "" |}), s)
  | Reconnects => (0, s)
  | WatchOpen _ _ => (Ok tt, s)
  | WatchNext => (WatchEnded None, s)
  | SendEvent _ | SendEnded _ _ _ => (true, s)
  | EventsEnd => (Ok 0, s)
  | DlqInfo => (Ok (0, 0), s)
  | DlqGet _ => (Ok None, s)
  | ScheduleList => (Ok [], s)
  | ServerVersion => ("2.12.0", s)
  | ClusterName => ("", s)
  | StreamLookup _ => (Ok None, s)
  | StreamUpsert c => (Ok c, s)
  | KvStatus _ | ObjStatus _ => (None, s)
  | KvUpsert _ | ObjUpsert _ => (Ok tt, s)
  | FlowCreate _ _ => (KeyCreated, s)
  | FlowEntry _ => (Ok None, s)
  | FlowPut _ _ => (Ok tt, s)
  | FlowKeys => (Ok [], s)
  | FlowCached _ => (None, s)
  | FlowRemember _ _ => (tt, s)
  | StorePut _ _ | StoreDelete _ => (Ok tt, s)
  | StoreGet _ => (Ok None, s)
  | StoreKeys _ | EventSubjects => (Ok [], s)
  | SendReply _ _ => (Ok tt, s)
  | PublishDLQ _ _ => (Ok tt, s)
  | Ack | NakWithDelay _ | Term => (tt, s)
  end.

Lemma put_same {A} (l : list A) put : put_only l l put.
Proof. split; auto. Qed.

Lemma put_entry {A} (m : gmap string (list A)) x a y (put : A -> Prop) :
  (y = x -> put a) -> put_only (entries m y) (entries (add_entry x a m) y) put.
Proof.
  intros Hp v. rewrite add_entry_at. destruct (String.eqb_spec y x) as [->|]; [|by auto].
  rewrite elem_of_app, list_elem_of_singleton. split; [auto|]. intros [?| ->]; auto.
Qed.

Lemma last_in {A} (l : list A) a : last l = Some a -> a ∈ l.
Proof. intros (l' & ->)%last_Some. set_solver. Qed.

Lemma serve_log s c a s' : serve s c = (a, s') -> log_law (memory_world s) c a (memory_world s').
Proof.
  destruct c; simpl; intros HS; try (by injection HS as <- <-).
  destruct (Z.eqb_spec expected (last_seq (entries (mm_log s) x))) as [E|E]; injection HS as <- <-; [|done].
  split; [cbn; lia|]. split; [by left|]. intros y. cbn. apply add_entry_at.
Qed.

Lemma serve_answer s c a s' : serve s c = (a, s') -> answer_law (memory_world s) c a (memory_world s').
Proof.
  destruct c; simpl; intros HS; try (by injection HS as <- <-); try done.
  - injection HS as <- <-. apply List.Forall_forall. intros qm [Hin Hle]%List.filter_In.
    split; [by apply list_elem_of_In|lia].
  - injection HS as <- <-. destruct (last _) eqn:E; [|done]. by apply last_in.
  - injection HS as <- <-. destruct (last _) eqn:E; [|done]. by apply last_in.
  - injection HS as <- <-. destruct (String.eqb_spec name (f_Name pipeline)) as [->|]; [|exact I]. cbn [andb].
    destruct (_ || _); [|exact I]. split; [|intros def' (_ & _ & E)%sample_flows_inv; exact (eq_sym E)].
    exists (f_Name pipeline), pipeline_hash. cbn. unfold sample_flows. rewrite !String.eqb_refl. reflexivity.
Qed.

Lemma serve_explains s c a s' : serve s c = (a, s') -> explains (memory_world s) c a (memory_world s').
Proof.
  intros HS. split; [by apply serve_log|done|done|..|by apply serve_answer]; intros n; try apply put_same;
    destruct c; simpl in HS; try (injection HS as <- <-; apply put_same);
    try (destruct (_ =? _); injection HS as <- <-; apply put_same);
    injection HS as <- <-; apply put_entry; by intros ->.
Qed.

#[export] Instance memory_server : NatsServer := {|
  srv := Memory; history := memory_world; answers := fun s c a s' => serve s c = (a, s');
  answers_explained := serve_explains |}.

(** ** Running programs *)

(** A call of a program: to the cache of its process, or to the server. *)
Definition exchange (s : Memory) (ca : Cache) (c : Call) : Answer c * Memory * Cache :=
  match c return Answer c * Memory * Cache with
  | CacheGet x => (Get x ca, s, ca)
  | CacheDecided x st => (tt, s, Decided x st ca)
  | CachePut x ent => (tt, s, Put "" x ent ca)
  | CacheDrop x => (tt, s, Drop x ca)
  | c => let (a, s') := serve s c in (a, s', ca)
  end.

Lemma exchange_act s ca c a s' ca' : exchange s ca c = (a, s', ca') -> act s ca c a s' ca'.
Proof.
  assert (HV : cache_call c = false -> forall a s', serve s c = (a, s') -> act s ca c a s' ca) by (intros; by apply act_server).
  intros E. destruct c; cbn [exchange] in E; 
    try (injection E as <- <- <-; first [apply act_get|apply act_decided|apply act_put|apply act_drop]).
  all: destruct (serve s _) as [a1 s1] eqn:ES; injection E as <- <- <-; by apply HV.
Qed.

Record Ran (A : Type) := { ra_value : A; ra_memory : Memory; ra_cache : Cache; ra_trace : list Exchange }.
Arguments ra_value {A} r.
Arguments ra_memory {A} r.
Arguments ra_cache {A} r.
Arguments ra_trace {A} r.

Fixpoint exec {A} (p : Prog A) (s : Memory) (ca : Cache) : Ran A :=
  match p with
  | Ret a => {| ra_value := a; ra_memory := s; ra_cache := ca; ra_trace := [] |}
  | Do c k =>
      let '(a, s', ca') := exchange s ca c in
      let r := exec (k a) s' ca' in
      {| ra_value := ra_value r; ra_memory := ra_memory r; ra_cache := ra_cache r;
         ra_trace := {| x_call := c; x_answer := a |} :: ra_trace r |}
  end.

Lemma exec_runs {A} (p : Prog A) s ca : Runs p (ra_trace (exec p s ca)) (ra_value (exec p s ca)).
Proof.
  revert s ca. induction p as [a|c k IH]; intros s ca; [done|]. cbn [exec].
  destruct (exchange s ca c) as [[a s'] ca']. cbn. eexists _, _. split; [reflexivity|]. apply IH.
Qed.

(** *** Reading *)

(** Calls that leave the server as it is. *)
Definition reading (c : Call) : bool :=
  match c with EvDirectGet _ _ | EvFirst _ | BlobGet _ | SnapGet _ | FlowsGet _ _ => true | _ => false end.

Lemma serve_fresh s c a s' x :
  reading c = true -> serve s c = (a, s') -> s' = s /\ fresh (memory_world s) x (entries (mm_log s) x) {| x_call := c; x_answer := a |}.
Proof.
  destruct c; try discriminate 1; intros _; cbn [serve]; intros E; injection E as <- <-; (split; [reflexivity|]); unfold fresh; cbn [x_call x_answer].
  - intros ->. eexists _, []. split; [reflexivity|]. split; [done|]. by rewrite app_nil_r.
  - by intros ->.
  - exact I.
  - cbn. destruct (last _) eqn:E; [by apply last_in|exact I].
  - intros def (-> & -> & ->)%sample_flows_inv. rewrite !String.eqb_refl, orb_true_r. reflexivity.
Qed.

Lemma exec_fresh {A} (p : Prog A) s ca x :
  Forall (fun e => reading (x_call e) = true) (ra_trace (exec p s ca)) ->
  Forall (fresh (memory_world s) x (entries (mm_log s) x)) (ra_trace (exec p s ca)).
Proof.
  revert ca. induction p as [a|c k IH]; intros ca; cbn [exec]; [constructor|].
  destruct (exchange s ca c) as [[a s'] ca'] eqn:E. cbn [ra_trace]. intros [Hc HF]%Forall_cons. cbn [x_call] in Hc.
  assert (serve s c = (a, s')) as HS.
  { destruct c; try discriminate Hc; cbn [exchange] in E; destruct (serve s _); by injection E as <- <- <-. }
  destruct (serve_fresh _ _ _ _ x Hc HS) as [-> Hf]. constructor; [exact Hf|]. by apply IH.
Qed.

(** *** Handling messages *)

Section Run.
Context (cfg : Config).

(** The only process handles [m] to the end. *)
Definition deliver (m : Delivery) (s : Memory) (ca : Cache) : Ran unit := exec (handle cfg m) s ca.

Definition alone (s : Memory) (ca : Cache) (h : gmap Z (string * Prog unit)) : Cluster :=
  {| cl_srv := s; cl_procs := [{| p_cache := ca; p_handlers := h; p_jobs := [] |}] |}.

Definition single (ca : Cache) (h : gmap Z (string * Prog unit)) : Proc :=
  {| p_cache := ca; p_handlers := h; p_jobs := [] |}.

Lemma alone_step s ca h s' ca' h' :
  Reached cfg (alone s ca h) -> pstep cfg s (single ca h) s' (single ca' h') -> Reached cfg (alone s' ca' h').
Proof.
  intros HRe HSt. eapply reached_step; [exact HRe|].
  exact (step_proc cfg (alone s ca h) 0%nat (single ca h) (single ca' h') s' eq_refl HSt).
Qed.

Lemma exec_reached p x prog s ca :
  Reached cfg (alone s ca {[p := (x, prog)]}) ->
  Reached cfg (alone (ra_memory (exec prog s ca)) (ra_cache (exec prog s ca)) ∅).
Proof.
  revert s ca. induction prog as [[]|c k IH]; intros s ca HRe; cbn [exec].
  - cbn [ra_memory ra_cache]. eapply alone_step; [exact HRe|]. replace (single ca ∅) with
      (set_p_handlers (delete p (p_handlers (single ca {[p := (x, Ret tt)]}))) (single ca {[p := (x, Ret tt)]})).
    + apply (step_done (HS := memory_server)) with (x := x). apply lookup_singleton_eq.
    + unfold set_p_handlers, single. f_equal. apply delete_singleton_eq.
  - destruct (exchange s ca c) as [[a s'] ca'] eqn:E. cbn [ra_memory ra_cache]. apply IH.
    eapply alone_step; [exact HRe|]. replace (single ca' {[p := (x, k a)]}) with
      (set_p_cache ca' (set_p_handlers (<[p := (x, k a)]> (p_handlers (single ca {[p := (x, Do c k)]})))
        (single ca {[p := (x, Do c k)]}))).
    + apply (step_handler (HS := memory_server)) with (c := c); [apply lookup_singleton_eq|by apply exchange_act].
    + unfold set_p_cache, set_p_handlers, single. f_equal. apply insert_singleton_eq.
Qed.

Lemma deliver_reached m x p s ca :
  Partition x (cf_Partitions cfg) = Ok p -> addressed (memory_world s) m x -> Reached cfg (alone s ca ∅) ->
  Reached cfg (alone (ra_memory (deliver m s ca)) (ra_cache (deliver m s ca)) ∅).
Proof.
  intros Hp Ha HRe. apply (exec_reached p x). eapply alone_step; [exact HRe|].
  apply (step_deliver (HS := memory_server) cfg s (single ca ∅) p x m); [exact Hp|reflexivity|exact Ha].
Qed.
End Run.

(** ** A cluster that started an execution and saw its task fail *)

Definition sample_config : Config := {|
  cf_Names := {| nm_Prefix := "pt"; nm_StreamEvents := "E"; nm_StreamCmd := "C"; nm_StreamWork := "W"; nm_StreamDLQ := "D";
     nm_BucketSnapshots := "S"; nm_BucketFlows := "F"; nm_BucketIndex := "I"; nm_BucketCache := "K";
     nm_BucketSem := "M"; nm_BucketStore := "T"; nm_ObjectBlobs := "B"; nm_ObjectArchive := "A" |};
  cf_Partitions := 4; cf_BlobThreshold := 1000; cf_Snaps := true; cf_SnapEvery := 6; cf_MaxEvents := 0;
  cf_HistoryLimit := 0; cf_Redispatch := false; cf_Size := fun _ => 0; cf_Rounds := 5 |}.

Definition message (c : Command) : Delivery := {|
  dv_Protocol := ProtocolVersion; dv_Trace := "t1"; dv_Blob := ""; dv_Data := Some c; dv_Metadata := Some (1, 7);
  dv_Subject := "pt.cmd" |}.

Definition no_memory : Memory := {| mm_log := ∅; mm_snaps := ∅; mm_archs := ∅ |}.

Definition ran_start : Ran unit := deliver sample_config (message (start_cmd "pipeline")) no_memory (New 2).
Definition ran_fail : Ran unit :=
  deliver sample_config (message (fail_cmd "c1" "a" 1 1)) (ra_memory ran_start) (ra_cache ran_start).

Definition sample_cluster : Cluster := alone (ra_memory ran_fail) (ra_cache ran_fail) ∅.

Example sample_log :
  (fun qm => (fst qm, Types (msg_Header (snd qm)))) <$> entries (mm_log (ra_memory ran_fail)) "x" =
    [(1, ["ExecutionStarted"; "NodeEntered"; "ChoiceEvaluated"; "NodeEntered"; "NodeScheduled"; "TimerScheduled"]);
     (2, ["NodeFailed"; "TimerScheduled"])].
Proof. vm_compute. reflexivity. Qed.

Lemma sample_reached : Reached sample_config sample_cluster.
Proof.
  apply (deliver_reached sample_config _ "x" (value 0 (Partition "x" 4))).
  - vm_compute. reflexivity.
  - intros c E. injection E as <-. vm_compute. reflexivity.
  - apply (deliver_reached sample_config _ "x" (value 0 (Partition "x" 4))).
    + vm_compute. reflexivity.
    + intros c E. injection E as <-. vm_compute. reflexivity.
    + apply (reached_start (HS := memory_server) sample_config no_memory [2]). repeat split; intros n; apply lookup_empty || reflexivity.
Qed.

(** Nothing irregular, by inspection of the messages. *)
Fixpoint regular (first : bool) (l : list (Z * Msg)) : bool :=
  match l with
  | [] => true
  | (_, m) :: l' =>
      String.eqb (h_Blob (msg_Header m)) "" &&
      match DecodeDecision (msg_Data m) with Ok evs => negb (irregular first evs) | Err _ => false end &&
      regular false l'
  end.

Lemma regular_inv l first l1 q m l2 evs :
  regular first l = true -> l = l1 ++ (q, m) :: l2 -> String.eqb (h_Blob (msg_Header m)) "" = true /\
  (DecodeDecision (msg_Data m) = Ok evs -> irregular (first && bool_decide (l1 = [])) evs = false).
Proof.
  revert first l. induction l1 as [|[q1 m1] l1 IH]; intros first l HRg ->; cbn [app regular] in HRg.
  - apply andb_prop in HRg as [HRg _]. apply andb_prop in HRg as [Hb Hd]. split; [exact Hb|].
    intros HD. rewrite HD in Hd. rewrite bool_decide_eq_true_2, andb_true_r by reflexivity. by apply negb_true_iff.
  - apply andb_prop in HRg as [_ HRg]. rewrite bool_decide_eq_false_2, andb_false_r by discriminate.
    exact (IH false _ HRg eq_refl).
Qed.

Lemma regular_untainted s : map_Forall (fun _ l => regular true l = true) (mm_log s) -> ~ tainted (memory_world s).
Proof.
  intros HRg (x & l & q & m & l' & evs & Hl & Hd & Hi). cbn [w_log memory_world] in Hl. unfold entries in Hl.
  destruct (mm_log s !! x) as [log|] eqn:E; cbn in Hl; [|by destruct l]. apply HRg in E.
  destruct (regular_inv _ _ _ _ _ _ evs E Hl) as [Hb Hr]. unfold decodes in Hd. rewrite Hb in Hd. apply Hr in Hd. cbn [andb] in Hd. congruence.
Qed.

Lemma sample_untainted : ~ tainted (history (cl_srv sample_cluster)).
Proof.
  apply (regular_untainted (ra_memory ran_fail)). apply (bool_decide_unpack _). vm_compute. exact I.
Qed.

(** *** A cluster that also cancelled and archived the execution *)

Definition ran_cancel : Ran unit :=
  deliver sample_config (message (cancel_cmd "c2")) (ra_memory ran_fail) (ra_cache ran_fail).
Definition ran_archive : Ran unit :=
  deliver sample_config (message (command CArchive "c3" [])) (ra_memory ran_cancel) (ra_cache ran_cancel).
Definition archived_cluster : Cluster := alone (ra_memory ran_archive) (ra_cache ran_archive) ∅.

Lemma archived_reached : Reached sample_config archived_cluster.
Proof.
  apply (deliver_reached sample_config _ "x" (value 0 (Partition "x" 4))).
  - vm_compute. reflexivity.
  - intros c E. injection E as <-. vm_compute. reflexivity.
  - apply (deliver_reached sample_config _ "x" (value 0 (Partition "x" 4))).
    + vm_compute. reflexivity.
    + intros c E. injection E as <-. vm_compute. reflexivity.
    + exact sample_reached.
Qed.

Lemma archived_untainted : ~ tainted (history (cl_srv archived_cluster)).
Proof.
  apply (regular_untainted (ra_memory ran_archive)). apply (bool_decide_unpack _). vm_compute. exact I.
Qed.
