(* ===== verification/Witnesses.v ===== *)
(** * Witnesses

    Every theorem with hypotheses, applied to a sample execution where they
    hold. *)

From S2P Require Import Prelude Json Hash Names Expr Flow FlowValidate FlowValid FlowGraph Event Cmd Reduce.
From S2P Require Import State StateFacts.
From S2P Require Import View Decide Writes JoinPolicy Numbering DecideRun DecideOps Routing.
From S2P Require Import DecideProps Redelivery FlowProps NamesProps LogProps Flight Shape Executions.
From S2P Require Import Samples.

(** ** Decisions *)

Definition started : list FoldEvent * State := played greet [start_cmd "greet"].
Definition finished : list FoldEvent * State :=
  played greet [start_cmd "greet"; complete_cmd "c1" "hello" 1 1 3].
Definition decision_1 : result (list FoldEvent * State) :=
  Decide greet (snd started) (complete_cmd "c1" "hello" 1 1 3) (2 * Second).

Lemma started_life : Life greet "x" (fst started) (snd started).
Proof. apply play_life. vm_compute. reflexivity. Qed.

Lemma finished_life : Life greet "x" (fst finished) (snd finished).
Proof. apply play_life. vm_compute. reflexivity. Qed.

Lemma decision_1_ok : decision_1 = Ok (fst (value none decision_1), snd (value none decision_1)).
Proof. rewrite <- surjective_pairing. apply is_ok_value. vm_compute. reflexivity. Qed.

Lemma decide_replay_witness :
  replay greet (snd started) (fst (value none decision_1)) = Ok (snd (value none decision_1)).
Proof. apply decide_replay. left. exists (complete_cmd "c1" "hello" 1 1 3), (2 * Second). exact decision_1_ok. Defined.

Lemma life_is_its_log_witness : Fold (Some greet) "x" (fst finished) = Ok (snd finished).
Proof. exact (life_is_its_log greet "x" _ _ finished_life). Defined.

Lemma terminal_absorbing_witness :
  snd finished = snd finished /\
  forall evs st'', Step greet (snd finished) evs st'' -> evs = [] /\ st'' = snd finished.
Proof.
  refine (terminal_absorbing greet "x" _ _ _ finished_life _ (later_refl _ _)). vm_compute. reflexivity.
Defined.

Lemma greet_budgets : budgets_ok greet.
Proof.
  intros k b Hb. apply elem_of_list_to_map_2 in Hb. simpl in Hb.
  apply list_elem_of_singleton in Hb. injection Hb as -> ->. vm_compute. reflexivity.
Qed.

Lemma budget_kept_witness :
  f_gt (float_at (s_Counters (snd started)) "tokens") (dec_float false 10 0) = false.
Proof.
  refine (budget_kept greet "x" _ _ "tokens" _ greet_budgets started_life _ _); vm_compute; reflexivity.
Defined.

(** ** Redelivery *)

Lemma redelivered_void_witness :
  Decide greet (snd (value none decision_1)) (complete_cmd "c1" "hello" 1 1 3) (5 * Second)
  = Ok ([], snd (value none decision_1)).
Proof.
  refine (redelivered_void greet "x" _ _ _ _ _ _ _ _ started_life _ decision_1_ok _ (later_refl _ _)).
  - vm_compute. left.
  - vm_compute. discriminate.
Defined.

Definition signalled : result (list FoldEvent * State) :=
  Decide greet (snd started) (signal_cmd "s1" "go") (2 * Second).

(** A flow with a channel, to update. *)
Definition tally_flow : Flow := {|
  f_Version := "1"; f_Name := "tally"; f_Description := ""; f_Start := "";
  f_Channels := {[ "notes" := {| ch_Reducer := ReducerAppend; ch_Default := None |} ]}; f_Output := "";
  f_Nodes := [task "a" ""]; f_Budget := ∅; f_MaxSteps := 0; f_SearchAttributes := ∅; f_Retention := 0;
  f_OnExpire := ""; f_ArchiveRetention := 0; f_Triggers := []; f_byID := {[ "a" := 0%nat ]};
  f_startID := "a"; f_branchOf := ∅; f_joinOf := ∅; f_attrs := ∅; f_output := None |}.
Definition update_cmd : Command := command CUpdate "u1" [("writes", JObj [("notes", JStr "hi")])].
Definition tallied : list FoldEvent * State := played tally_flow [start_cmd "tally"].
Definition updated : result (list FoldEvent * State) := Decide tally_flow (snd tallied) update_cmd (2 * Second).

(** ** Channels *)

Lemma validated_writes_apply_witness :
  exists ch, applyWrites (Some tally_flow) {[ "notes" := Some (JStr "hi") ]} (snd tallied)
             = Ok (set_Channels ch (snd tallied)) /\
    forall k, match ({[ "notes" := Some (JStr "hi") ]} : gmap string RawMessage) !! k with
      | Some v => is_Some (f_Channels tally_flow !! k) /\
          exists r, Reduce (channel_reducer tally_flow k) (raw_at (s_Channels (snd tallied)) k) v = Ok r /\ ch !! k = Some r
      | None => ch !! k = s_Channels (snd tallied) !! k
      end.
Proof. apply validated_writes_apply. vm_compute. reflexivity. Defined.

(** ** Routing *)

Definition rule_no : Rule := {| ru_Name := "no"; ru_When := "false"; ru_Default := false; ru_To := "a" |}.
Definition rule_yes : Rule := {| ru_Name := "yes"; ru_When := "true"; ru_Default := false; ru_To := "b" |}.
Definition two_rules : Node := choice "ch" [rule_no; rule_yes].
Definition at_choice : decider := new_decider greet (snd started) 0 "c".

Definition mapped : list FoldEvent * State := played batch [start_cmd "batch"].
(** The state of the map after its first item completed, before it goes on. *)
Definition one_done : decider :=
  value (new_decider batch (snd mapped) 0 "c")
    (emit NodeCompleted (DNodeDone {|
       NodeDone_Key := "m#0"; NodeDone_Node := "m"; NodeDone_Generation := 1; NodeDone_Attempt := 1;
       NodeDone_Output := Some (JObj []); NodeDone_Writes := ∅; NodeDone_Next := ""; NodeDone_Usage := ∅;
       NodeDone_Cached := false; NodeDone_CacheKey := "" |}) (new_decider batch (snd mapped) (2 * Second) "c")).
Definition batch_run : MapRun := value
  {| m_Items := []; m_Outputs := []; m_Done := 0; m_Next := 0; m_MaxParallel := 0 |}
  (deref (s_Maps (d_st one_done) !! "m")).
Definition progressed : result decider := mapProgress enter (map_node "m" "[1, 2, 3]" 2) one_done.

Lemma map_window_witness :
  exists m', s_Maps (d_st (value one_done progressed)) !! "m" = Some m' /\ m_Next m' = 3 /\
    m_Items m' = m_Items batch_run /\ m_Outputs m' = m_Outputs batch_run /\ m_Done m' = m_Done batch_run.
Proof.
  refine (map_window enter (map_node "m" "[1, 2, 3]" 2) batch_run one_done (value one_done progressed) _ _ _ _).
  - vm_compute. reflexivity.
  - vm_compute. discriminate.
  - apply is_ok_value. vm_compute. reflexivity.
  - vm_compute. reflexivity.
Defined.

(** The state of the race after branch [a] succeeded, before its join is evaluated. *)
Definition raced : list FoldEvent * State := played race [start_cmd "race"].
Definition a_done : decider :=
  value (new_decider race (snd raced) 0 "c")
    (emit NodeCompleted (DNodeDone {|
       NodeDone_Key := "a"; NodeDone_Node := "a"; NodeDone_Generation := 1; NodeDone_Attempt := 1;
       NodeDone_Output := Some (JObj []); NodeDone_Writes := ∅; NodeDone_Next := ""; NodeDone_Usage := ∅;
       NodeDone_Cached := false; NodeDone_CacheKey := "" |}) (new_decider race (snd raced) (2 * Second) "c")).

Lemma join_leaves_nothing_witness :
  value a_done (evalJoin "f" a_done) = a_done \/
  exists x d0 d1, Join_Fanout x = "f" /\ Inners a_done d0 /\ emit JoinCompleted (DJoin x) d0 = Ok d1 /\
    cleared "f" (d_st d1) /\ Inners d1 (value a_done (evalJoin "f" a_done)).
Proof. apply join_leaves_nothing. apply is_ok_value. vm_compute. reflexivity. Defined.

Definition hello_task : Task := value
  {| t_Key := ""; t_Node := ""; t_Kind := ""; t_Index := 0; t_Owner := ""; t_Generation := 0; t_Attempt := 0;
     t_Status := TaskScheduled; t_Item := None; t_Resume := None; t_ResumedBy := ""; t_Interrupt := None |}
  (deref (s_Tasks (snd started) !! "hello")).
Definition at_failure : decider := new_decider greet (snd started) (2 * Second) "c".
Definition failure : result decider := taskFailed hello_task "boom" true ReasonError ∅ at_failure.

(** The retry of the sample is left to a timer, after a second. *)
Example retry_delay : Backoff (task "hello" "") (t_Attempt hello_task + 1) = Second.
Proof. vm_compute. reflexivity. Qed.

(** ** The log *)

Lemma numbers_never_reused_witness :
  StronglySorted Z.lt (omap allocated (fst finished)) /\
  Forall (fun n => 0 < n <= s_N (snd finished)) (omap allocated (fst finished)) /\
  NoDup (omap started_child (fst finished)).
Proof. exact (numbers_never_reused greet "x" _ _ finished_life). Defined.

Definition late_event : FoldEvent := {|
  ev_Type := TimerFired; ev_Version := 1; ev_Time := 0; ev_Index := 9; ev_CmdID := ""; ev_Trace := "";
  ev_Data := DFired {| Fired_ID := "t2" |}; ev_Seq := 0; ev_DecisionEnd := false |}.

(** ** Retries, names *)

Definition slow_task : Node := node_with "slow" NodeTask "" 0 (Some retry_18min) [] "" "" "" 0 [].

Lemma backoff_wraps_witness :
  Backoff slow_task 26 = 2 ^ 24 /\ Backoff slow_task 26 < base_delay retry_18min /\
  26 <= r_MaxAttempts retry_18min.
Proof. apply backoff_wraps. reflexivity. Defined.

Definition sample_names : Names := value
  {| nm_Prefix := ""; nm_StreamEvents := ""; nm_StreamCmd := ""; nm_StreamWork := ""; nm_StreamDLQ := "";
     nm_BucketSnapshots := ""; nm_BucketFlows := ""; nm_BucketIndex := ""; nm_BucketCache := "";
     nm_BucketSem := ""; nm_BucketStore := ""; nm_ObjectBlobs := ""; nm_ObjectArchive := "" |} (New "").

(** ** Validated flows *)

Lemma validate_sound_witness : valid pipeline.
Proof. exact (validate_sound compile_any schema_any _ _ pipeline_valid). Defined.

(** The task of the pipeline, started, then failed once. *)
Definition at_a : State := snd (played pipeline [start_cmd "pipeline"]).
Definition a_retries : State := snd (played pipeline [start_cmd "pipeline"; fail_cmd "c1" "a" 1 1]).

Lemma at_a_lineage : Lineage pipeline at_a.
Proof. apply play_lineage. vm_compute. reflexivity. Qed.

Lemma a_retries_lineage : Lineage pipeline a_retries.
Proof. apply play_lineage. vm_compute. reflexivity. Qed.

Lemma in_one_place_witness : place pipeline (flight at_a).
Proof.
  refine (in_one_place compile_any schema_any _ _ pipeline_valid _ at_a_lineage _ _); vm_compute; reflexivity.
Defined.

Lemma never_stranded_witness :
  s_Tasks a_retries <> ∅ \/ s_Children a_retries <> ∅ \/ s_Awaits a_retries <> ∅.
Proof.
  refine (proj1 (never_stranded compile_any schema_any _ _ pipeline_valid _ a_retries_lineage _ _));
    vm_compute; reflexivity.
Defined.

Definition a_task : option Task := s_Tasks a_retries !! "a".

Lemma retry_wakes_up_witness :
  match a_task with
  | Some t => exists id, is_Some (s_Timers a_retries !! id) /\
      forall c now, c_Type c = CTimer -> Payload decode_TimerData c = Ok {| TimerData_TimerID := id |} ->
      exists evs st' t', Decide pipeline a_retries c now = Ok (evs, st') /\ s_Tasks st' !! "a" = Some t' /\
        next_attempt t t'
  | None => False
  end.
Proof.
  assert (Ha : is_Some a_task) by (vm_compute; eauto).
  assert (Hst : t_Status <$> a_task = Some TaskRetrying) by (vm_compute; reflexivity).
  unfold a_task in *. destruct (s_Tasks a_retries !! "a") as [t|] eqn:E; [|by destruct Ha].
  refine (retry_wakes_up compile_any schema_any _ _ pipeline_valid _ a_retries_lineage _ _ "a" t E _);
    [vm_compute; reflexivity..|by injection Hst].
Defined.

Definition bad_update : result (list FoldEvent * State) :=
  Decide pipeline at_a (command CUpdate "c2" [("writes", JObj [("nope", JNull)])]) Second.

Lemma decide_never_panics_witness :
  match bad_update with Err e => exists ks msg, e = Error ks msg /\ ErrApply ∉ ks | Ok _ => False end.
Proof.
  assert (Hbad : is_ok bad_update = false) by (vm_compute; reflexivity).
  destruct bad_update as [r|e] eqn:E; [done|].
  exact (decide_never_panics compile_any schema_any _ _ _ _ _ e pipeline_valid at_a_lineage E).
Defined.
