(* ===== verification/ClusterWitnesses.v ===== *)
(** * Witnesses of the theorems on engines, logs and servers

    The theorems on programs and clusters, applied to the engine that started an
    execution on the server in memory and saw its first task fail. *)

From S2P Require Import Prelude Json Hash Names Expr Flow FlowValidate FlowValid FlowGraph Event Cmd Reduce.
From S2P Require Import State StateFacts View Decide DecideRun Sim Codec DecideProps LogProps.
From S2P Require Import Flight Shape ShapeCmds Server EventLog Loader Engine Deliveries Chronicle LogFold Reading World Safe.
From S2P Require Import SafeLog SafeDecide SafeEngine Fresh StateCache Cluster Samples SampleServer.

(** ** Logs *)

Lemma logs_are_chronicles_witness :
  exists d L t, Log (history (cl_srv sample_cluster)) "x" L /\ Chronicle "x" d L t.
Proof. exact (logs_are_chronicles sample_config sample_cluster "x" sample_reached sample_untainted). Defined.

Lemma logs_fold_witness :
  exists L def t ev rest, Log (history (cl_srv sample_cluster)) "x" L /\ registered def /\
    Fold (Some def) "x" (events L) = Ok t /\ s_ExecID t = "x" /\ standing def t /\
    s_Events t = len (events L) /\ indexed_from 0 (events L) /\
    events L = ev :: rest /\ opens (ev_Data ev) = true.
Proof.
  refine (logs_fold sample_config sample_cluster "x" sample_reached sample_untainted _).
  intros E. apply (f_equal length) in E. vm_compute in E. discriminate E.
Defined.

Definition sample_proc : Proc := single (ra_cache ran_fail) ∅.
Definition sample_entry : option Entry := Get "x" (p_cache sample_proc).

Lemma cache_coherent_witness :
  match sample_entry with
  | Some ent => (exists L, Log (history (cl_srv sample_cluster)) "x" L /\ as_of "x" L (en_State ent)) \/
      Terminal (s_Status (en_State ent)) = true
  | None => False
  end.
Proof.
  assert (Hs : bool_decide (is_Some sample_entry) = true) by (vm_compute; reflexivity).
  destruct sample_entry as [ent|] eqn:E; [|discriminate Hs].
  refine (cache_coherent sample_config sample_cluster sample_proc "x" ent sample_reached sample_untainted _ E _).
  - apply list_elem_of_here.
  - intros p prog Hp. discriminate Hp.
Defined.

(** A snapshot and an archive were stored. *)
Definition sample_snapshot : option SnapValue := last (entries (mm_snaps (ra_memory ran_archive)) "x").
Definition sample_archive : option (list ArchivedEvent) := last (entries (mm_archs (ra_memory ran_archive)) "x").

Lemma stores_agree_witness :
  match sample_snapshot, sample_archive with
  | Some (SState (Some s)), Some (a :: l) =>
      (exists L, Log (history (cl_srv archived_cluster)) "x" L /\ as_of "x" L s) /\
      exists x L evs, archive_name x "x" /\ Log (history (cl_srv archived_cluster)) x L /\ unarchive (a :: l) = Ok evs /\ whole L evs
  | _, _ => False
  end.
Proof.
  assert (Hs : match sample_snapshot with Some (SState (Some _)) => true | _ => false end = true) by (vm_compute; reflexivity).
  assert (Ha : match sample_archive with Some (_ :: _) => true | _ => false end = true) by (vm_compute; reflexivity).
  destruct sample_snapshot as [[[s|]|n]|] eqn:E; try discriminate Hs.
  destruct sample_archive as [[|a l]|] eqn:EA; try discriminate Ha.
  pose proof (stores_agree sample_config archived_cluster archived_reached archived_untainted) as [HS HA].
  split; [apply (HS "x" s); left; exact (last_in _ _ E)|]. apply (HA "x"). exact (last_in _ _ EA).
Defined.

(** ** Reading and loading *)

Abbreviation sample_world := (history (cl_srv sample_cluster)).
Definition sample_live : list (Z * Msg) := entries (mm_log (ra_memory ran_fail)) "x".

Lemma sample_good : good sample_world.
Proof. apply (co_good sample_config). exact (reached_ok sample_config sample_cluster sample_reached sample_untainted). Qed.

Definition ran_load : Ran (result (State * option Flow)) := exec (Load sample_config "x" 0) (ra_memory ran_fail) (New 2).
Definition ran_read : Ran (result (list FoldEvent)) := exec (Read sample_config "x" 2 0) (ra_memory ran_fail) (New 2).

Lemma sample_stream : exists d DL T, Stream sample_world "x" sample_live d [] DL T.
Proof.
  destruct (g_log _ sample_good "x") as (d & L & T & HL & HC). exists d, L, T. split; [by exists []|exact HL|exact HC].
Qed.

Lemma read_range_witness :
  exists DL, ra_value ran_read =
    Ok (stamped_all (List.filter (fun d => (2 <=? fst d) && ((0 =? 0) || (fst d <=? 0))) DL)).
Proof.
  destruct sample_stream as (d & DL & T & HS). exists DL.
  refine (read_range sample_config _ _ _ _ _ _ _ 2 0 (ra_trace ran_read) _ HS _ _ _ (exec_runs _ _ _) _).
  - vm_compute. lia.
  - lia.
  - lia.
  - apply exec_fresh. apply (bool_decide_unpack _). vm_compute. exact I.
Defined.

Lemma load_latest_witness :
  exists d DL T s, Chronicle "x" d DL T /\ ra_value ran_load = Ok (s, d) /\ s ≃ T /\ s_LastSeq s = last_seq DL.
Proof.
  destruct sample_stream as (d & DL & T & HS). exists d, DL, T.
  destruct (load_latest sample_config _ _ _ _ _ _ _ (ra_trace ran_load) (ra_value ran_load) sample_good HS) as (s & Hs).
  - vm_compute. lia.
  - left. reflexivity.
  - exact (exec_runs (Load sample_config "x" 0) (ra_memory ran_fail) (New 2)).
  - apply exec_fresh. apply (bool_decide_unpack _). vm_compute. exact I.
  - exists s. split; [apply (sm_chronicle _ _ _ _ _ _ _ HS)|exact Hs].
Defined.

(** ** Messages *)

Lemma settles_once_witness :
  exists before s, ra_trace ran_fail = before ++ [s] /\ settles_after before (x_call s) /\
    Forall (fun e => settling (x_call e) = false) before /\
    (length (List.filter (fun e => replying (x_call e)) (ra_trace ran_fail)) <= 1)%nat.
Proof.
  apply (settles_once sample_config (message (fail_cmd "c1" "a" 1 1))).
  pose proof (exec_runs (handle sample_config (message (fail_cmd "c1" "a" 1 1))) (ra_memory ran_start) (ra_cache ran_start)) as HRu.
  exact HRu.
Defined.

Definition acking (e : Exchange) : bool := match x_call e with Ack => true | _ => false end.

Lemma acked_means_done_witness :
  ended_with (command_body (message (fail_cmd "c1" "a" 1 1)))
    (fun body _ t2 => exists c, decode_command body = Ok c /\ done_with sample_config c "t1" t2)
    (fun e t2 => final no_command (wrapf "command body: %w" e) t2) (ra_trace ran_fail).
Proof.
  refine (proj2 (acked_means_done sample_config (message (fail_cmd "c1" "a" 1 1)) (ra_trace ran_fail) _ _)).
  - exact (exec_runs (handle sample_config (message (fail_cmd "c1" "a" 1 1))) (ra_memory ran_start) (ra_cache ran_start)).
  - assert (Hin : existsb acking (ra_trace ran_fail) = true) by (vm_compute; reflexivity).
    apply existsb_exists in Hin as ([c a] & Hin & Ht). apply list_elem_of_In in Hin. destruct c; try discriminate Ht. by destruct a.
Defined.

(** ** Encoding and caching *)

Definition sample_decision : list FoldEvent * State := value none (Decide pipeline (NewState "x") (start_cmd "pipeline") Second).

Definition sample_encoded : result (DecisionBytes * Header) := EncodeDecision (set_Trace "t" <$> fst sample_decision).

Lemma decisions_survive_encoding_witness :
  match sample_encoded with
  | Ok (body, h) => exists t', DecodeDecision body = Ok (set_Trace "t" <$> fst sample_decision) /\
      Types h = (type_string ∘ ev_Type <$> fst sample_decision) /\
      res_fold (load_step pipeline) (NewState "x") (stamped 7 (set_Trace "t" <$> fst sample_decision)) = Ok t' /\
      snd sample_decision ≃ t' /\ s_LastSeq t' = 7
  | Err _ => False
  end.
Proof.
  assert (Hk : is_ok sample_encoded = true) by (vm_compute; reflexivity).
  destruct sample_encoded as [[body h]|e] eqn:E; [|discriminate Hk].
  refine (decisions_survive_encoding pipeline (NewState "x") (NewState "x") _ _ "t" body h 7 _ _ E); [|reflexivity].
  apply (step_decide _ _ _ _ (start_cmd "pipeline") Second).
  unfold sample_decision. rewrite <- surjective_pairing. apply is_ok_value. vm_compute. reflexivity.
Defined.

