(* ===== verification/DispatchWitnesses.v ===== *)
(** * Witnesses of the theorems on the dispatcher, the index and commands

    The dispatcher handles the decision that started the sample execution, on the
    server in memory, and a message nobody can read. *)

From S2P Require Import Prelude Json Hash GoStrings Names Expr Flow FlowValidate Event Cmd CmdCodec Reduce State View Wire Codec.
From S2P Require Import Server Projection IndexProps Sending EventLog Loader Dispatch Deliveries DispatchProps.
From S2P Require Import StateCache Samples SampleServer.

Definition sample_text (j : Json) : string := "text".

(** ** Commands *)

Definition sample_timer : CmdPayload := PTimer {| TimerData_TimerID := "t1" |}.

Lemma command_roundtrip_witness :
  match CmdCodec.New "timer.x.t1" CTimer "x" (Some sample_timer) with
  | Ok c => c_ID c = "timer.x.t1" /\ c_Type c = CTimer /\ c_ExecID c = "x" /\
      Payload (decode_like sample_timer) c = Ok (recode sample_timer)
  | Err _ => False
  end.
Proof. exact (command_roundtrip "timer.x.t1" CTimer "x" sample_timer _ I eq_refl). Defined.

(** ** Events *)

Definition no_message : Msg := {| msg_Header := {| h_Types := ""; h_CmdID := ""; h_Blob := "" |}; msg_Data := None |}.
Definition first_message : Msg := default no_message (snd <$> head (entries (mm_log (ra_memory ran_start)) "x")).
Definition event_of (m : Msg) : EvDelivery :=
  {| ed_Subject := "pt.ev.0.x"; ed_Msg := m; ed_Metadata := Some (1, 1) |}.

Definition ran_dispatch : Ran unit :=
  exec (Dispatch.handle sample_text sample_config (event_of first_message)) (ra_memory ran_start) (StateCache.New 2).
Definition ran_unreadable : Ran unit :=
  exec (Dispatch.handle sample_text sample_config (event_of no_message)) (ra_memory ran_start) (StateCache.New 2).

Lemma event_settled_once_witness : settled (ra_trace ran_dispatch).
Proof.
  refine (event_settled_once sample_text sample_config (event_of first_message) (ra_trace ran_dispatch) _).
  exact (exec_runs (Dispatch.handle sample_text sample_config (event_of first_message)) (ra_memory ran_start) (StateCache.New 2)).
Defined.

(** Membership, found by evaluation. *)
Definition acks (e : Exchange) : bool := match x_call e with Ack => true | _ => false end.

Lemma acks_acked tr : existsb acks tr = true -> acked tr.
Proof.
  intros ([c a] & Hin & Ha)%existsb_exists. destruct c; try discriminate Ha. destruct a. by apply list_elem_of_In.
Qed.

Lemma acked_event_accounted_witness : accounted sample_text sample_config (event_of first_message) "x" (ra_trace ran_dispatch).
Proof.
  refine (acked_event_accounted sample_text sample_config (event_of first_message) (ra_trace ran_dispatch) _ _).
  - exact (exec_runs (Dispatch.handle sample_text sample_config (event_of first_message)) (ra_memory ran_start) (StateCache.New 2)).
  - apply acks_acked. vm_compute. reflexivity.
Defined.

Definition first_events : list FoldEvent :=
  value [] (ra_value (exec (decode_message first_message 1) (ra_memory ran_start) (StateCache.New 2))).
Definition ran_decision : Ran (result unit) :=
  exec (applyDecision sample_text sample_config "x" first_events) (ra_memory ran_start) (StateCache.New 2).

Lemma decision_dispatched_witness :
  exists cached first, head first_events = Some first /\
    (within (stateBefore sample_config cached "x" first) (Ok None) (ra_trace ran_decision) \/
     exists ent st, within (stateBefore sample_config cached "x" first) (Ok (Some ent)) (ra_trace ran_decision) /\
       res_fold (dispatch_step (en_Def ent)) (en_State ent) first_events = Ok st /\
       {| x_call := CachePut "x" {| en_State := st; en_Def := en_Def ent |}; x_answer := tt |} ∈ ra_trace ran_decision /\
       {| x_call := KvPut (summaryKey (s_ExecID st)) (ISummary (SummaryOf st)); x_answer := Ok tt |} ∈ ra_trace ran_decision /\
       forall evs1 ev evs2, first_events = evs1 ++ ev :: evs2 -> exists st1,
         res_fold (dispatch_step (en_Def ent)) (en_State ent) (evs1 ++ [ev]) = Ok st1 /\
         effected sample_config {| en_State := st1; en_Def := en_Def ent |} ev (ra_trace ran_decision)).
Proof.
  refine (decision_dispatched sample_text sample_config "x" first_events (ra_trace ran_decision) _).
  pose proof (exec_runs (applyDecision sample_text sample_config "x" first_events) (ra_memory ran_start) (StateCache.New 2)) as HRu.
  fold ran_decision in HRu. assert (HV : ra_value ran_decision = Ok tt) by (vm_compute; reflexivity). rewrite HV in HRu. exact HRu.
Defined.

Definition writes_mark (e : Exchange) : bool := match x_call e with KvPut key _ => marks key | _ => false end.

Lemma writes_marked tr : existsb writes_mark tr = true -> marked tr.
Proof.
  intros ([c a] & Hin & Ha)%existsb_exists. destruct c; try discriminate Ha. eexists _, _, a. split; [exact Ha|].
  by apply list_elem_of_In.
Qed.

Lemma quarantined_only_final_witness :
  exists e, within (process sample_text sample_config (event_of no_message)) (Err e) (ra_trace ran_unreadable) /\
    Deterministic e = true /\
    (errors_is e ErrObjectNotFound || errors_is e ErrUnknownFlow = true -> notFoundGrace <= 1).
Proof.
  refine (quarantined_only_final sample_text sample_config (event_of no_message) (ra_trace ran_unreadable) _ _).
  - exact (exec_runs (Dispatch.handle sample_text sample_config (event_of no_message)) (ra_memory ran_start) (StateCache.New 2)).
  - apply writes_marked. vm_compute. reflexivity.
Defined.

(** ** Jobs *)

Definition no_entry : Entry := {| en_State := NewState ""; en_Def := None |}.
Definition first_entry : Entry :=
  match ra_value (exec (handle_events sample_text sample_config None "x" first_events) (ra_memory ran_start) (StateCache.New 2)) with
  | Ok (Some h) => hn_Entry h
  | _ => no_entry
  end.

Definition no_attempt : Scheduled := {|
  Scheduled_Key := ""; Scheduled_Node := ""; Scheduled_Kind := ""; Scheduled_Index := 0; Scheduled_Generation := 0;
  Scheduled_Attempt := 0; Scheduled_Owner := ""; Scheduled_Item := None; Scheduled_Resume := None; Scheduled_ResumedBy := "" |}.
Definition schedules (ev : FoldEvent) : option Scheduled := match ev_Data ev with DScheduled s => Some s | _ => None end.
Definition first_attempt : Scheduled := default no_attempt (head (omap schedules first_events)).
Definition attempt_event : FoldEvent := {|
  ev_Type := NodeScheduled; ev_Version := 1; ev_Time := 0; ev_Index := 5; ev_CmdID := ""; ev_Trace := "";
  ev_Data := DScheduled first_attempt; ev_Seq := 1; ev_DecisionEnd := false |}.

(** What one handler, the only one, did with the first decision. *)
Definition dispatch_history : list (nat * Exchange) := pair 0%nat <$> ra_trace ran_dispatch.

Definition sends (e : Exchange) : bool := match x_call e with Perform (PublishJob _ _ _) => true | _ => false end.
Definition no_head (e : Exchange) : bool :=
  match x_call e as c return Answer c -> bool with
  | HeadView _ _ => fun r => match r with None => true | Some _ => false end
  | HeadPut _ _ => fun _ => false
  | _ => fun _ => true
  end (x_answer e).

Lemma no_heads_kept tr : forallb no_head tr = true -> keeps_heads ∅ tr.
Proof.
  induction tr as [|[c r] tr IH]; [done|]. cbn [forallb]. intros [Hn HF]%andb_prop. specialize (IH HF). split.
  - destruct c; try exact I. cbn in *. unfold headView. rewrite lookup_empty. by destruct r.
  - destruct c; try exact IH; discriminate Hn.
Qed.

Lemma dispatch_handling k : handling sample_text sample_config (of_handler k dispatch_history).
Proof.
  left. exists (event_of first_message). unfold dispatch_history, of_handler.
  pose proof (exec_runs (Dispatch.handle sample_text sample_config (event_of first_message)) (ra_memory ran_start) (StateCache.New 2)) as HR.
  fold ran_dispatch in HR.
  destruct k as [|k].
  - exists []. rewrite app_nil_r. replace (snd <$> List.filter _ _) with (ra_trace ran_dispatch); [exact HR|].
    generalize (ra_trace ran_dispatch). intros l. induction l as [|e l IH]; [done|]. cbn. f_equal. exact IH.
  - exists (ra_trace ran_dispatch). replace (snd <$> List.filter _ _) with (@nil Exchange); [exact HR|].
    generalize (ra_trace ran_dispatch). intros l. induction l as [|e l IH]; [done|]. exact IH.
Qed.


(** A counter that two reports of usage drove to an infinity. *)
Definition huge : float64 := S754_finite false (2 ^ 53 - 1) 971.
Definition overflowed : gmap string float64 := add_counters {["tokens" := huge]} {["tokens" := huge]}.
Definition overflowed_entry : Entry :=
  {| en_State := set_Counters overflowed (en_State first_entry); en_Def := en_Def first_entry |}.
Definition ran_stalled : Ran (result unit) :=
  exec (effects sample_text sample_config overflowed_entry attempt_event) (ra_memory ran_start) (StateCache.New 2).

Lemma infinite_counter_stalls_witness :
  f_finite huge = true /\
  exists over, Runs (endedAtHead sample_config (s_ExecID (en_State overflowed_entry)) 1 first_attempt) (ra_trace ran_stalled) over /\
    match over with
    | Ok true => ra_value ran_stalled = Ok tt
    | Ok false => exists e, ra_value ran_stalled = Err e /\ forall n, quarantinable e n = false
    | Err e => ra_value ran_stalled = Err e
    end.
Proof.
  split; [vm_compute; reflexivity|].
  destruct (s_Tasks (en_State overflowed_entry) !! Scheduled_Key first_attempt) as [t|] eqn:Et; [|vm_compute in Et; discriminate Et].
  refine (infinite_counter_stalls sample_text sample_config overflowed_entry attempt_event first_attempt t "tokens" (S754_infinity false)
    (ra_trace ran_stalled) (ra_value ran_stalled) Et _ _ _ _ _ _).
  - vm_compute in Et. injection Et as <-. vm_compute. reflexivity.
  - vm_compute in Et. injection Et as <-. vm_compute. reflexivity.
  - vm_compute. reflexivity.
  - reflexivity.
  - exact (exec_runs (effects sample_text sample_config overflowed_entry attempt_event) (ra_memory ran_start) (StateCache.New 2)).
  - reflexivity.
Defined.

(** Ids of the greatest length. *)
Definition long_id : string := String.string_of_list_ascii (repeat (ascii_of 97) 128).
Definition long_completion : CmdPayload := PComplete {|
  CompleteData_TaskRef := {| ref_Key := long_id; ref_Generation := 1; ref_Attempt := 1 |}; CompleteData_Output := None;
  CompleteData_Writes := ∅; CompleteData_Next := ""; CompleteData_Usage := ∅; CompleteData_CacheKey := ""; CompleteData_Cached := false |}.
Definition ran_long (c : Command) : Ran (result unit) := exec (PublishCmd sample_config c "") no_memory (StateCache.New 2).

Lemma long_ids_refused_witness :
  ValidToken long_id = true /\
  match CmdCodec.New (CmdID long_id long_id 1 1) CComplete long_id (Some long_completion) with
  | Ok c => ra_trace (ran_long c) = [] /\ exists e, ra_value (ran_long c) = Err e /\ forall n, quarantinable e n = false
  | Err _ => False
  end.
Proof.
  split; [vm_compute; reflexivity|].
  refine (long_ids_refused sample_config long_id long_id 1 1 long_completion _ "" _ _ _ eq_refl (exec_runs _ _ _)).
  vm_compute. reflexivity.
Defined.

(** ** The index *)

Definition sample_bucket : Bucket := {| bk_rev := 0; bk_m := ∅ |}.
Abbreviation first_state := (en_State first_entry).

(** The sample execution is indexed as new, quarantined and released; its
    cancellation is indexed, cut off before the old status is deleted, and indexed
    again. *)
Definition cancelled_event : FoldEvent := {|
  ev_Type := ExecutionCancelled; ev_Version := 1; ev_Time := 5; ev_Index := s_Events first_state + 1; ev_CmdID := "cancel.x";
  ev_Trace := ""; ev_Data := DCancelled {| Cancelled_Reason := "stop"; Cancelled_CancelChildren := [] |}; ev_Seq := 2;
  ev_DecisionEnd := true |}.
Definition second_state : State := value first_state (Apply (en_Def first_entry) first_state cancelled_event).

Definition run_done (bm : Bucket * Ledger) (o : IndexOp) : Bucket * Ledger :=
  match bucket_exec (op_prog o) (fst bm) with
  | Some (_, b') => (b', note (op_exec o) (entry_after (snd bm (op_exec o)) o) (snd bm))
  | None => bm
  end.

Lemma run_done_step bm o :
  ValidToken (op_exec o) = true -> allowed (snd bm (op_exec o)) o ->
  match bucket_exec (op_prog o) (fst bm) with Some (Ok tt, _) => true | _ => false end = true -> index_step bm (run_done bm o).
Proof.
  destruct bm as [b m]. unfold run_done. cbn [fst snd]. intros Hx Ha.
  destruct (bucket_exec (op_prog o) b) as [[[[]|e] b']|] eqn:E; try discriminate. intros _. by apply index_done.
Qed.

Definition to_cancelled : IndexOp := OpIndex second_state false StatusRunning.
Definition indexed_1 : Bucket * Ledger := run_done index_start (OpIndex first_state true SNone).
Definition indexed_2 : Bucket * Ledger := run_done indexed_1 (OpQuarantine "x" 2 "undecodable").
Definition indexed_3 : Bucket * Ledger := run_done indexed_2 (OpUnquarantine "x").
Definition indexed_4 : Bucket * Ledger :=
  (bucket_upto 2 (op_prog to_cancelled) (fst indexed_3), note "x" (Pending second_state false StatusRunning None) (snd indexed_3)).
Definition indexed_5 : Bucket * Ledger := run_done indexed_4 to_cancelled.

Lemma cancelled_status : s_Status second_state ∈ statuses.
Proof. apply list_elem_of_In. assert (s_Status second_state = StatusCancelled) as -> by (vm_compute; reflexivity). cbn. tauto. Qed.

Lemma filed_running : snd indexed_3 "x" = Filed first_state (with_flags false true "undecodable" (SummaryOf first_state)) LState.
Proof. unfold indexed_3, indexed_2, indexed_1, run_done. vm_compute. reflexivity. Qed.

Lemma cut_off : index_step indexed_3 indexed_4.
Proof.
  rewrite (surjective_pairing indexed_3). unfold indexed_4. apply (index_cut (fst indexed_3) (snd indexed_3) to_cancelled 2).
  - vm_compute. reflexivity.
  - split; [exact cancelled_status|]. change (op_exec to_cancelled) with "x". rewrite filed_running. right.
    split; [reflexivity|]. split; [vm_compute; reflexivity|]. unfold same_entry. split; [|split]; vm_compute; reflexivity.
  - change (op_exec to_cancelled) with "x". rewrite filed_running. reflexivity.
Qed.

Lemma pending_cut : snd indexed_4 "x" = Pending second_state false StatusRunning None.
Proof. unfold indexed_4, note. cbn [snd]. reflexivity. Qed.

Lemma cancelled_indexed : index_reached (fst indexed_5) (snd indexed_5).
Proof.
  unfold index_reached. rewrite <- surjective_pairing.
  apply (rtc_l _ _ indexed_1); [apply run_done_step; [vm_compute; reflexivity|split; [|reflexivity]|vm_compute; reflexivity]|].
  { apply list_elem_of_In. assert (s_Status first_state = StatusRunning) as E by (vm_compute; reflexivity). rewrite E. cbn. tauto. }
  apply (rtc_l _ _ indexed_2); [apply run_done_step; [reflexivity|split; exact I|vm_compute; reflexivity]|].
  apply (rtc_l _ _ indexed_3); [apply run_done_step; [reflexivity|split; exact I|vm_compute; reflexivity]|].
  apply (rtc_l _ _ indexed_4); [exact cut_off|]. apply rtc_once.
  refine (run_done_step indexed_4 to_cancelled _ _ _); [vm_compute; reflexivity| |vm_compute; reflexivity].
  change (allowed (snd indexed_4 "x") to_cancelled).
  refine (eq_ind_r (fun e => allowed e to_cancelled) _ pending_cut). split; [exact cancelled_status|]. split; [reflexivity|]. split; reflexivity.
Qed.


Definition running : Filter := {| fi_Status := "running"; fi_Flow := ""; fi_Attr := ""; fi_Value := ""; fi_Limit := 0 |}.
Definition sample_index : Bucket := after_index first_state true SNone sample_bucket.

Lemma search_finds_matching_witness :
  exists l, bucket_exec (List_ running) sample_index = Some (Ok l, sample_index) /\ StronglySorted newer l /\
    (forall s, s ∈ l -> matches running s = true /\ exists x, stored sample_index (summaryKey x) (ISummary s)) /\
    (forall x s, ValidToken x = true -> filed sample_index x s -> matches running s = true ->
      (fi_Attr running = "" \/ is_Some (su_Attrs s !! fi_Attr running)) -> s ∈ l).
Proof. refine (search_finds_matching running sample_index "s.running.*" _ _); [vm_compute; reflexivity|vm_compute; discriminate]. Defined.

Example sample_found :
  match bucket_exec (List_ running) sample_index with
  | Some (Ok l, _) => su_ExecID <$> l
  | _ => []
  end = ["x"].
Proof. vm_compute. reflexivity. Qed.
