(* ===== verification/WorkerWitnesses.v ===== *)
(** * Witnesses of the theorems on the worker

    A job with a limit of one is handled on the server in memory, and takes the
    slot of its key. *)

From S2P Require Import Prelude Json Hash GoStrings Names Flow Event Cmd CmdCodec Reduce State View Wire Codec.
From S2P Require Import Server Sending EventLog Deliveries DispatchProps Worker WorkerProps Semaphore StateCache Samples SampleServer.

Definition sample_context : Context_ := Build_Context_ None ∅ ∅ "" ∅ ∅ ∅ ∅ ∅ None None None "" None.
Definition sample_job : Job := {|
  jb_ExecID := "x"; jb_Flow := "pipeline"; jb_FlowHash := "h"; jb_Node := "a"; jb_Kind := "k"; jb_Key := "a"; jb_Index := 0;
  jb_Generation := 1; jb_Attempt := 1; jb_Context := Some sample_context; jb_Meta := None; jb_Reply := "pt.cmd.0.x";
  jb_CacheKey := ""; jb_Concurrency := Some {| jc_Key := "c"; jc_Max := 1 |}; jb_Traceparent := "" |}.
Definition job_message : JobDelivery := {|
  jd_Protocol := "1"; jd_Blob := ""; jd_Data := Some sample_job; jd_Busy := 0; jd_Metadata := Some (1, 7); jd_Subject := "pt.work.k" |}.

Definition ran_job : Ran unit := exec (handleJob sample_config 5 DefaultAckWait 3 job_message) no_memory (StateCache.New 2).

Lemma job_settled_once_witness :
  exists job, settled_job job (ra_trace ran_job) /\
    match job with Some j => job_read job_message (ra_trace ran_job) j | None => forall j, ~ job_read job_message (ra_trace ran_job) j end.
Proof.
  refine (job_settled_once sample_config 5 DefaultAckWait 3 job_message (ra_trace ran_job) _ _).
  - pose proof (exec_runs (handleJob sample_config 5 DefaultAckWait 3 job_message) no_memory (StateCache.New 2)) as HR.
    fold ran_job in HR. destruct (ra_value ran_job). exact HR.
  - apply Nat.ltb_lt. vm_compute. reflexivity.
Defined.

(** ** The slot of the job *)

(** Clocks within ten nanoseconds. *)
Definition sample_skew : Z := 10.
Definition sample_task : SlotTask := TAcquire DefaultAckWait sample_job.
Definition sample_values : list Revision :=
  [{| rv_value := Some {[ holder_of sample_job := 7 + lease DefaultAckWait ]}; rv_time := 0 |}].
Definition sample_semaphore : SemSystem := {|
  ss_values := sample_values; ss_time := 0; ss_tasks := [{| rn_task := sample_task; rn_left := Ret true; rn_seen := 1 |}] |}.

(** A step of a task whose next call is known. *)
Lemma step_to (s s' : SemSystem) t c k n r values :
  ss_tasks s = [{| rn_task := t; rn_left := Do c k; rn_seen := n |}] ->
  answers "c" sample_skew (ss_values s) (ss_time s) c r values ->
  s' = {| ss_values := values; ss_time := ss_time s;
          ss_tasks := [{| rn_task := t; rn_left := k r; rn_seen := length values |}] |} ->
  sem_step "c" 1 sample_skew s s'.
Proof.
  intros HT HA ->.
  assert (ss_tasks s !! 0%nat = Some {| rn_task := t; rn_left := Do c k; rn_seen := n |}) as HL by (by rewrite HT).
  pose proof (sem_call "c" 1 sample_skew s 0 t c k n r values HL HA) as HS. by rewrite HT in HS.
Qed.

Lemma sample_semaphore_reached : sem_reached "c" 1 sample_skew sample_semaphore.
Proof.
  eapply rtc_l; [apply (sem_start "c" 1 sample_skew sem_initial sample_task); reflexivity|].
  eapply rtc_l; [eapply (step_to _ _ sample_task (SemGet "c") _ _ (Ok None)); [reflexivity| |reflexivity]|].
  { split; [reflexivity|]. split; [reflexivity|]. left. exists 0%nat. split; [apply Nat.le_refl|reflexivity]. }
  eapply rtc_l; [eapply (step_to _ _ sample_task Now _ _ 7); [reflexivity| |reflexivity]; split; [reflexivity|discriminate]|].
  eapply rtc_l; [|apply rtc_refl].
  eapply (step_to _ _ sample_task (SemPut "c" {[ holder_of sample_job := 7 + lease DefaultAckWait ]} 0) _ _ (Ok tt)).
  - reflexivity.
  - split; [reflexivity|]. left. split; reflexivity.
  - reflexivity.
Qed.

Lemma sample_holds : holds sample_skew sample_semaphore (holder_of sample_job).
Proof.
  exists 1%nat. split; [apply Nat.le_refl|]. split; [eexists; apply lookup_singleton_eq|]. split.
  - intros n' e Hn HL. assert (n' = 1%nat) as -> by (simpl in Hn; lia). cbn in HL. unfold Holders in HL; rewrite lookup_singleton_eq in HL.
    injection HL as <-. apply Z.leb_le. vm_compute. reflexivity.
  - intros x j ->%list_elem_of_singleton Hj. discriminate Hj.
Qed.

Lemma slots_bounded_witness :
  Z.of_nat (size (value_at sample_values 1)) <= 1 /\
  (exists n, (n <= 1)%nat /\ held (holder_of sample_job) (value_at sample_values n)) /\
  Z.of_nat (size ({[ holder_of sample_job ]} : gset string)) <= 1.
Proof.
  pose proof (slots_bounded "c" 1 sample_skew sample_semaphore eq_refl sample_semaphore_reached) as (H1 & H2 & H3).
  split; [exact (H1 1%nat (Nat.le_refl 1))|]. split.
  - exact (H2 DefaultAckWait sample_job 1%nat (list_elem_of_here _ _)).
  - apply H3. intros h ->%elem_of_singleton. exact sample_holds.
Defined.
