(* ===== verification/ClientWitnesses.v ===== *)
(** * Witnesses of the theorems on schedules, triggers, the client and what runs them

    A schedule is validated, fires and starts an execution, a client starts
    another and waits, on the server in memory; a consumer handles two messages and
    drains; a namespace is provisioned and a flow registered. *)

From S2P Require Import Prelude Json Hash GoStrings Names Expr Flow Event Cmd CmdCodec Reduce State View Wire Cron Decide Codec.
From S2P Require Import DecideProps CronProps LogProps Server Sending EventLog Loader Engine Triggers Deliveries Worker Client ClientProps.
From S2P Require Import Runner Provision Registry StateCache Samples SampleServer Witnesses.

(** ** Schedules *)


(** ** Firings *)

Definition sample_spec : ScheduleSpec := {| sp_Flow := "pipeline"; sp_Version := ""; sp_Input := None |}.
Definition firing : FiredDelivery := {| fd_Subject := "pt.fire.nightly"; fd_Spec := inr sample_spec; fd_Metadata := Some (1, 42) |}.
Definition ran_firing : Ran unit := exec (handleCron sample_config firing) no_memory (StateCache.New 2).

Lemma cron_starts_once_witness :
  publishes_only "cron.nightly-42" "nightly-42" (ra_trace ran_firing).
Proof.
  refine (proj1 (cron_starts_once sample_config firing 1 42 sample_spec (ra_trace ran_firing) eq_refl eq_refl _ _)); [lia|].
  pose proof (exec_runs (handleCron sample_config firing) no_memory (StateCache.New 2)) as HR.
  fold ran_firing in HR. destruct (ra_value ran_firing). exact HR.
Defined.

(** ** Starting and waiting *)

Definition ran_client : Ran (Looped (string * option error)) :=
  exec (Start sample_config 3 "pipeline" (OValue (Ok (JObj []))) []) no_memory (StateCache.New 2).

Lemma ran_client_value : ra_value ran_client = Done ("fresh", None).
Proof. vm_compute. reflexivity. Qed.

Lemma start_tells_witness : ValidToken "fresh" = true /\ start_known sample_config "pipeline" "fresh" (ra_trace ran_client).
Proof.
  refine (start_tells sample_config 3 "pipeline" (OValue (Ok (JObj []))) [] (ra_trace ran_client) "fresh" None _).
  rewrite <- ran_client_value. exact (exec_runs (Start sample_config 3 "pipeline" (OValue (Ok (JObj []))) []) no_memory (StateCache.New 2)).
Defined.

(** The caller waits until the execution entered its second node. *)
Definition second_step (st : State) : bool := 2 <=? s_Steps st.
Definition ran_wait : Ran (Looped (result State)) :=
  exec (wait sample_config 3 "x" (Some second_step)) (ra_memory ran_start) (StateCache.New 2).
Definition waited : State :=
  match ra_value ran_wait with Done (Ok st) => st | _ => NewState "x" end.

Definition found (r : Looped (result State)) : bool := match r with Done (Ok _) => true | _ => false end.

Lemma found_waited r : found r = true -> r = Done (Ok (match r with Done (Ok st) => st | _ => NewState "x" end)).
Proof. by destruct r as [[]|]. Qed.

Lemma wait_ends_witness : second_step waited = true /\ within (Client.Get sample_config "x") (Ok waited) (ra_trace ran_wait).
Proof.
  refine (wait_ends sample_config 3 "x" (Some second_step) (ra_trace ran_wait) (Ok waited) _).
  unfold waited. rewrite <- found_waited by (vm_compute; reflexivity).
  exact (exec_runs (wait sample_config 3 "x" (Some second_step)) (ra_memory ran_start) (StateCache.New 2)).
Defined.

(** ** Ends *)

Definition final_message : DecisionBytes * Header := value (None, {| h_Types := ""; h_CmdID := ""; h_Blob := "" |}) (EncodeDecision (fst (value none decision_1))).

Lemma ends_reported_witness : terminalOf "pt.ev.0.x" (snd final_message) = Some ("x", StatusCompleted).
Proof.
  refine (proj1 (ends_reported greet "x" _ _ _ _ _ _ (fst final_message) (snd final_message) "pt.ev.0.x" started_life _ _ decision_1_ok _)).
  1, 2: vm_compute; reflexivity.
  rewrite <- surjective_pairing. apply is_ok_value. vm_compute. reflexivity.
Defined.

(** ** Consumers *)

(** Two messages are handled at once, one handler panics, and a shutdown waits for
    the other. *)
Definition busy_minute : list Action := [
  Take; Grow; Grow; Fetch true; Next 1; Next 2; BatchEnd; GiveBack; Return 1 false; Release 1; CtxDone; StopPulling; Return 2 true; Drained].
Definition after_minute : Runner := {|
  rn_Phase := PEnded; rn_Sem := 1; rn_Inflight := 0; rn_Stopping := true; rn_Done := true; rn_Cancelled := false; rn_Running := [];
  rn_Ending := [2]; rn_Left := [(2, Handled_); (1, Panicked)] |}.

Lemma busy_minute_ends : actions 2 (start_runner 2) busy_minute = Some after_minute.
Proof. vm_compute. reflexivity. Qed.

Lemma runner_bounded_witness :
  Z.of_nat (length (rn_Running after_minute)) <= 2 /\ [1; 2] ≡ₚ rn_Running after_minute ++ (fst <$> rn_Left after_minute) /\
  rn_Phase after_minute = PEnded /\ rn_Running after_minute = [].
Proof.
  pose proof (runner_bounded 2 busy_minute after_minute busy_minute_ends) as (H1 & H2 & _ & _ & _ & H6).
  split; [exact H1|]. split; [exact H2|]. split; [reflexivity|]. exact (proj1 (H6 eq_refl)).
Defined.

(** ** Set-up *)

Definition no_map {A} (_ : A) : option Conf := Some (CMap []).
Definition sample_names : Names.Names := value (cf_Names sample_config) (Names.New "pt").
Definition ran_provision : Ran (result Z) := exec (Provision sample_names no_map no_map no_map 0 8) no_memory (StateCache.New 2).

Lemma provision_keeps_witness :
  exists a, first_lookup sample_names (ra_trace ran_provision) = Some a /\ count_of 8 a = Some 8.
Proof.
  refine (proj1 (provision_keeps "pt" sample_names eq_refl no_map no_map no_map 0 8 (ra_trace ran_provision) (Ok 8) _ _)); [reflexivity|].
  assert (ra_value ran_provision = Ok 8) as <- by (vm_compute; reflexivity).
  exact (exec_runs (Provision sample_names no_map no_map no_map 0 8) no_memory (StateCache.New 2)).
Defined.

(** A process registers the sample flow and another reads it.  The text of a sample
    definition is its name, so a text decodes to the sample of that name. *)
Definition decode_named (name : string) : result Flow :=
  let f := pipeline_source in Ok {|
    f_Version := f_Version f; f_Name := name; f_Description := f_Description f; f_Start := f_Start f; f_Channels := f_Channels f;
    f_Output := f_Output f; f_Nodes := f_Nodes f; f_Budget := f_Budget f; f_MaxSteps := f_MaxSteps f;
    f_SearchAttributes := f_SearchAttributes f; f_Retention := f_Retention f; f_OnExpire := f_OnExpire f;
    f_ArchiveRetention := f_ArchiveRetention f; f_Triggers := f_Triggers f; f_byID := f_byID f; f_startID := f_startID f;
    f_branchOf := f_branchOf f; f_joinOf := f_joinOf f; f_attrs := f_attrs f; f_output := f_output f |}.

Lemma sample_json : FlowJson decode_named.
Proof.
  constructor.
  - done.
  - intros f b [= <-]. eexists. by split.
  - intros b g [= <-]. apply List.Forall_forall. intros n Hn. cbn in Hn. by repeat destruct Hn as [<-|Hn].
  - intros b g [= <-]. apply map_Forall_empty.
Qed.

Definition sample_hash : string := Hash_of "pipeline".
Definition registered_flow : RegSystem := {|
  rg_writes := [(version_key "pipeline" sample_hash, "pipeline"); (version_key "pipeline" latest, sample_hash)]; rg_memory := ∅;
  rg_tasks := [(0%nat, TRegister pipeline_source, Ret (Registered (Ok sample_hash)))] |}.

Lemma registered_reached : reg_reached compile_any schema_any decode_named registered_flow.
Proof.
  refine (register_reached compile_any schema_any decode_named pipeline_source pipeline "pipeline" _ _).
  - unfold validated. by rewrite pipeline_valid.
  - vm_compute. reflexivity.
Qed.

Definition fetched_flow : RegSystem := {|
  rg_writes := rg_writes registered_flow; rg_memory := {[(1%nat, version_key "pipeline" sample_hash) := pipeline]};
  rg_tasks := rg_tasks registered_flow ++ [(1%nat, TGet "pipeline" sample_hash, Ret (Fetched (Ok pipeline)))] |}.

Lemma sample_hash_set : sample_hash <> "".
Proof. vm_compute. discriminate. Qed.

Lemma fetched_reached : reg_reached compile_any schema_any decode_named fetched_flow.
Proof.
  refine (fetch_reached compile_any schema_any decode_named registered_flow 1 "pipeline" sample_hash "pipeline" pipeline registered_reached
    _ _ sample_hash_set _); [apply list_elem_of_here|done|vm_compute; reflexivity].
Qed.

Lemma versions_immutable_witness : FlowValid.valid pipeline /\ f_Name pipeline = "pipeline" /\ FlowHash pipeline = Ok sample_hash.
Proof.
  assert (Hh : sample_hash <> latest) by (vm_compute; discriminate).
  assert (Hin : (1%nat, TGet "pipeline" sample_hash, Ret (Fetched (Ok pipeline))) ∈ rg_tasks fetched_flow) by (apply list_elem_of_further, list_elem_of_here).
  destruct (proj2 (proj2 (proj2 (versions_immutable compile_any schema_any decode_named fetched_flow "pipeline" sample_hash
    fetched_reached Hh sample_hash_set))) 1%nat pipeline 1%nat pipeline Hin Hin) as (_ & HV & HJ & _).
  exact (conj HV (HJ sample_json)).
Defined.
